(* ===== verification/_CoqProject ===== *)
-Q . S2P
Prelude.v
External.v
Capability.v
Text.v
Hostlist.v
Concrete.v
Entity.v
Graph.v
GraphSpec.v
Observation.v
State.v
Debounce.v
StateEngine.v
StateEngineSpec.v
Settled.v
Diagnosis.v
Inventory.v
InventorySpec.v
Store.v
StoreSpec.v
DiagnosisContext.v
Rules.v
RulesSpec.v
Slurm.v
SlurmSpec.v
SlurmView.v
SlurmViewSpec.v
Incident.v
IncidentEngine.v
IncidentSpec.v
Notification.v
Notify.v
NotifySpec.v
Peers.v
PeersSpec.v
Spool.v
SpoolSpec.v
Ingest.v
IngestSpec.v
Delivery.v
DeliverySpec.v
Agents.v
Registration.v
RegistrationSpec.v
EngineStore.v
EngineStoreSpec.v
Retention.v
Probes.v
IncidentStore.v
IncidentStoreSpec.v
IncidentRestart.v
Correlate.v
CorrelateSpec.v
Lexing.v
HostNet.v
AgentDiscovery.v
Topology.v
Commands.v
RemoteProbes.v
HostProbes.v
ProbesSpec.v
Observers.v
ObserversSpec.v
Discovery.v
DiscoverySpec.v
Config.v
ConfigSpec.v
Webhook.v
WebhookSpec.v
Metrics.v
Controller.v
Transport.v
Agent.v
AgentSpec.v
Api.v
Delivered.v
SilentProbes.v
Status.v
Operator.v
Install.v
