(* ===== verification/Prelude.v ===== *)
(** * Cluster Sentinel: a verification development

    Cluster Sentinel watches a compute cluster.  Agents and a controller run
    probes, the controller folds what they report into the state of every
    entity, concludes from that state what is wrong, keeps one incident per
    cause and tells people about it.  This library models the program in
    [src/src/] of the repository as functions on values and proves what it
    promises.  This file documents the library and holds what its parts share:
    machine integers, ordered keys and the order of [BTreeMap], hash maps,
    indexed updates, stable sorts, lists and tactics.

    ** How the code is rendered

    - Records are structs, inductive types are enums, and a definition carries
      the name of its function.  A method that takes [&mut self] returns the new
      value; what it returned besides is paired with it.
    - A time and a [chrono::Duration] are integers counting nanoseconds; a
      [std::time::Duration] is a natural number of them.  [u16], [u32] and [u64]
      are natural numbers whose saturation, wrapping or cast is written out.  An
      [f64] is a binary64 of [SpecFloat], rounded as IEEE has it ([Metrics]).
    - Text is a string of UTF-8 bytes ([Text], [Lexing]).  Every separator the
      code looks for is ASCII, so working on bytes gives what working on
      characters gives; where the code counts characters, the model does.
    - A [BTreeMap] is a [gmap] listed in key order ([btree_entries]).  A
      [HashMap] is a [gmap] listed in an order nothing is known about, except
      that it lists every entry once ([HashIter]); so is the result of a query
      that asks for no order.
    - The clock and random identifiers are arguments.  Code of other crates is
      a class of operations with a second class for its laws ([UuidApi],
      [JsonApi], [TimeApi], [ChronoApi] in [External]); one small instance of
      each, in [Concrete], lets the witnesses compute.  [Pass] and
      [IncidentPass] carry what a diagnosis pass draws at random,
      [ObservationCodec] and [StreamCodec] the JSON forms of an observation and
      of a stream, [NotifyWorld] what stores and providers answer,
      [TimelineLaws] that time and identifiers of a timeline differ.
    - A table is a finite map from its primary key to the columns the program
      reads back, and an SQL statement is the definition that says what it
      does to the maps, keys and references included ([External]).  The schema
      is that of the files under [src/migrations]: a row that a [UNIQUE] or a
      [REFERENCES] clause forbids is refused, and [ON DELETE CASCADE] is
      written out.
    - An error is a value of a sum or an option; a panic is a case of
      [outcome], of [loop_result], or [None] where a file says so.

    ** Loops and their fuel

    Structural recursion is used wherever the code iterates.  The other loops
    take fuel, and each has a theorem that its fuel is enough: a graph traversal
    gets the number of edges and one more ([Graph], [walk_fuel]); the byte
    limit of the spool one turn per row and one more ([Spool]); a flush one turn
    per spooled row and one more ([Delivery], [flush_terminates]); placing
    pending edges one round, since a round places all it can ([Inventory]);
    hostlist groups the number of opening brackets ([Hostlist]); scanners of
    text its length ([Text], [Lexing]).

    ** The parts, and what is proved of them

    - Shared: [External], [Text], [Lexing], [Concrete].
    - Data ([entity/], [capability/], [observation/], [state/]):
      [Entity], [Capability], [Observation], [State].
    - Dependencies and their graph ([dependency/]): [Graph]; [GraphSpec] proves
      the traversals exact against the reachability relation, whatever cycles
      there are.
    - The state engine ([state/engine.rs], [state/debounce.rs]): [Debounce],
      [StateEngine].  [StateEngineSpec]: what one observation may change,
      replay and reordering change nothing, silence never heals.  [Settled]:
      what is shown can be recomputed from the streams.
    - Storing the engine ([persistence/observations.rs], [controller/mod.rs]):
      [EngineStore]; [EngineStoreSpec] proves that a restart resumes the engine.
    - The inventory ([inventory/], [persistence/entities.rs]): [Inventory] and
      [InventorySpec] (merging, edges placed exactly when both ends are known),
      [Store] and [StoreSpec] (tables, reconciliation, save and load),
      [Topology] (storage edges from mount reports and nothing else),
      [Discovery] and [DiscoverySpec] (the queries to Slurm, what is declared,
      one cycle of providers, observations and topology).
    - Slurm ([integrations/slurm/], [inventory/slurm.rs]): [Hostlist], [Slurm],
      [SlurmView], with round trips of what Slurm prints in [SlurmSpec] and what
      the rules read of it in [SlurmViewSpec].
    - Probes ([probes/], [command/], [config/probes.rs]): [Probes] (definitions,
      overrides, the bounded runner), [Commands] (allowlist and limits),
      [RemoteProbes] and [HostProbes] (what each probe concludes), [ProbesSpec]
      (that it reports what it saw), [Metrics] (loads, memory,
      uptime and GPUs, in floating point); [Observers] and [ObserversSpec] (who
      runs which probe, against whom, and when).
    - Agents ([agent/], [controller/agents.rs], [controller/registration.rs],
      [protocol/]): [HostNet], [AgentDiscovery] (what an agent says of its
      host), [Spool] and [SpoolSpec] (a bounded queue on disk, refined to a
      list), [Delivery] and [DeliverySpec] (a flush ends, whatever it is
      answered), [Ingest] and [IngestSpec] (ingestion is idempotent),
      [Agents] and [Registration] (restart, reconnect and reboot told apart),
      [Peers] and [PeersSpec] (who watches whom).
    - Diagnosis ([diagnosis/], [controller/diagnose.rs]): [Diagnosis],
      [DiagnosisContext], [Rules] (the four families and the engine that runs
      them), with [RulesSpec] giving the exact conditions of conclusions and the
      pairs that exclude each other; [Correlate] is the pass of the controller and
      [CorrelateSpec] proves that it uses current evidence only, that an
      incident is resolved only once its evidence has been answered, and that
      engine and tables stay in step.
    - Incidents ([incident/], [persistence/incidents.rs], [reset.rs]):
      [Incident], [IncidentEngine], [IncidentSpec]; [IncidentStore],
      [IncidentStoreSpec], [IncidentRestart].
    - Notifications ([notification/], [controller/notify.rs]): [Notification],
      [Notify]; [NotifySpec] proves that what was delivered is not repeated and
      what was not is offered again; [Webhook] and [WebhookSpec] (what is posted,
      whole and within the limits of Slack).
    - Retention ([config/retention.rs], [persistence/retention.rs]):
      [Retention]: what is in use is never deleted.
    - Configuration ([config/]): [Config] (settings, defaults, every check, the
      layers of a value); [ConfigSpec] says what a check looks at and what it does
      not, and proves that what is accepted is reported to the inventory whole.
    - The wire ([protocol/], [agent/client.rs], [controller/api.rs]):
      [Transport] (credential, TLS material, addresses), [Api] (the handlers and
      the checks in front of them, over the whole controller): nothing changes
      without the credential, and TLS that was asked for is never dropped.
      [Delivered]: with that controller at the other end a flush loses nothing,
      delivers what the controller can take, and is blocked by what it cannot.
    - The agent ([agent/mod.rs], [agent/rpc.rs]): [Agent]; [AgentSpec] proves that
      an outage of the controller costs nothing the spool can hold and that the
      health endpoint speaks for the agent.
    - The controller ([controller/mod.rs], [server.rs]): [Controller], with the
      invariant of its memory and its tables over every sequence of turns, and
      when a batch or a cycle is refused.
    - For an operator ([audit.rs], [cli/]): [SilentProbes] (what is silent is too
      old to be evidence), [Status] (zero means nothing is wrong), [Operator]
      (declared work is quiet, ended work is over; the audit command), [Install]
      (the generated files, what an installation leaves and may be repeated,
      where a credential is looked for).

    They meet as the program has them meet: [Discovery.discover_once] asks the
    providers, observes through [Observers], derives [Topology], ingests with
    [Ingest] and reconciles the [StateEngine]; [Correlate.correlate] reads the
    tables of [EngineStore], runs the engine of [Rules] and drives
    [IncidentEngine] with its [IncidentStore]; [Notify] takes the candidates
    an incident's update offers.  [Agent] puts the agent's parts together and runs
    its loop; [Controller] holds everything a controller holds, with every
    refusal of the schema, and takes requests, cycles and passes in any order;
    [Api] answers a client for it over a network that loses what it carries;
    and [Delivered] empties a [Spool] through [Delivery] and [Api] into the
    [Controller].

    ** What is not modelled

    Of the command line ([cli/]): parsing by [clap], and the printing of the
    commands that only show what others compute; the status, maintenance, audit,
    install and configuration commands are modelled.  Binding
    sockets, the timing of the loops, and what [rustls], [reqwest], [axum] and
    [tokio] do; opening, migrating and compacting the database, which is taken
    not to fail for reasons of its own; the decoding of TOML; the system calls
    that fetch what the host says; logging.  Executions the code lets overlap
    are run one after the other, and a request, a cycle or a pass holds the lock
    of the controller from beginning to end. *)

From stdpp Require Export base tactics decidable countable option numbers list
  sorting gmap strings fin_maps.
From Stdlib Require Export Ascii ZArith Lia.

(** ** Machine integers and the clock *)

(** Rust's [u32] and [u64] are natural numbers with these bounds. *)
Definition u32_max : N := 4294967295%N.
Definition u64_max : N := 18446744073709551615%N.

(** [u32::saturating_add]. *)
Definition saturating_add_u32 (x y : N) : N := N.min (x + y) u32_max.

(** [u64::wrapping_mul]. *)
Definition wrapping_mul_u64 (x y : N) : N := ((x * y) mod (u64_max + 1))%N.

(** A UTC instant and a signed duration, both in nanoseconds. *)
Abbreviation Timestamp := Z (only parsing).
Abbreviation Duration := Z (only parsing).

Definition nanos_per_second : Z := 1000000000%Z.
Definition seconds (n : Z) : Duration := (n * nanos_per_second)%Z.
Definition minutes (n : Z) : Duration := seconds (n * 60).
Definition hours (n : Z) : Duration := seconds (n * 3600).

Lemma saturating_add_u32_bound x y : (saturating_add_u32 x y ≤ u32_max)%N.
Proof. unfold saturating_add_u32. lia. Qed.

Lemma saturating_add_u32_exact x y :
  (x + y ≤ u32_max)%N → saturating_add_u32 x y = (x + y)%N.
Proof. unfold saturating_add_u32. lia. Qed.

(** ** Ordered keys

    The keys of a Rust [BTreeMap] or [BTreeSet] carry a total order, and
    iteration follows it. *)
Class KeyOrder (K : Type) := {
  key_le : relation K;
  key_le_dec :: RelDecision key_le;
  key_le_po :: PartialOrder key_le;
  key_le_total :: Total key_le
}.

(** Any injection into an ordered type orders its source. *)
Program Definition key_order_inj {A K : Type} `{KeyOrder K} (f : A → K) `{!Inj (=) (=) f} :
  KeyOrder A := {| key_le := λ x y, key_le (f x) (f y) |}.
Next Obligation. intros A K ? f ? x y. apply _. Defined.
Next Obligation.
  intros A K ? f Hf. split; [split|].
  - intros x. reflexivity.
  - intros x y z Hxy Hyz. by transitivity (f y).
  - intros x y Hxy Hyx. apply (inj f). by apply (anti_symm key_le).
Qed.
Next Obligation. intros A K ? f ? x y. apply (total key_le). Qed.

#[global] Instance N_key_order : KeyOrder N := {| key_le := N.le |}.
#[global] Instance Z_key_order : KeyOrder Z := {| key_le := Z.le |}.
#[global] Instance string_key_order : KeyOrder string := {| key_le := String.le |}.

(** [Option] orders [None] first, as Rust's derived order does. *)
Definition option_le {K} `{KeyOrder K} (x y : option K) : Prop :=
  match x, y with
  | None, _ => True
  | Some _, None => False
  | Some a, Some b => key_le a b
  end.

#[global] Program Instance option_key_order {K} `{KeyOrder K} : KeyOrder (option K) :=
  {| key_le := option_le |}.
Next Obligation. intros K ? [a|] [b|]; simpl; apply _. Defined.
Next Obligation.
  intros K ?. split; [split|].
  - intros [a|]; simpl; [reflexivity | done].
  - intros [a|] [b|] [c|]; simpl; try done. intros. by transitivity b.
  - intros [a|] [b|]; simpl; try done. intros. f_equal. by apply (anti_symm key_le).
Qed.
Next Obligation. intros K ? [a|] [b|]; simpl; auto. apply (total key_le). Qed.

(** Tuples order lexicographically. *)
Definition pair_le {A B} `{KeyOrder A, KeyOrder B} (x y : A * B) : Prop :=
  key_le x.1 y.1 ∧ (x.1 = y.1 → key_le x.2 y.2).

#[global] Program Instance pair_key_order {A B} `{KeyOrder A, KeyOrder B, EqDecision A} :
  KeyOrder (A * B) := {| key_le := pair_le |}.
Next Obligation. intros A B ? ? ? [a b] [c d]. unfold pair_le. simpl. apply _. Defined.
Next Obligation.
  intros A B ? ? ?. unfold pair_le. split; [split|].
  - intros [a b]. split; reflexivity.
  - intros [a b] [c d] [e f] [H1 H2] [H3 H4]; simpl in *. split; [by transitivity c|].
    intros ->. assert (c = e) as -> by (by apply (anti_symm key_le)).
    transitivity d; auto.
  - intros [a b] [c d] [H1 H2] [H3 H4]; simpl in *.
    assert (a = c) as -> by (by apply (anti_symm key_le)).
    f_equal. apply (anti_symm key_le); auto.
Qed.
Next Obligation.
  intros A B ? ? ? [a b] [c d]. unfold pair_le. simpl.
  destruct (decide (a = c)) as [->|Hne].
  - destruct (total key_le b d); [left | right]; split; first [reflexivity | by auto].
  - destruct (total key_le a c); [left | right]; split; congruence.
Qed.

(** The order a key function induces on elements, as [sort_by_key] compares. *)
Definition key_le_on {A K} `{KeyOrder K} (f : A → K) : relation A :=
  λ x y, key_le (f x) (f y).

#[global] Instance key_le_on_dec {A K} `{KeyOrder K} (f : A → K) : RelDecision (key_le_on f).
Proof. intros x y. unfold key_le_on. apply _. Defined.
#[global] Instance key_le_on_total {A K} `{KeyOrder K} (f : A → K) : Total (key_le_on f).
Proof. intros x y. apply (total key_le). Qed.
#[global] Instance key_le_on_trans {A K} `{KeyOrder K} (f : A → K) : Transitive (key_le_on f).
Proof. intros x y z Hxy Hyz. unfold key_le_on in *. by transitivity (f y). Qed.

(** ** Iterating ordered and hashed containers *)

Section containers.
Context {K V : Type} `{Countable K, !KeyOrder K}.

(** [BTreeMap::iter]: the entries in key order. *)
Definition btree_entries (m : gmap K V) : list (K * V) :=
  merge_sort (key_le_on fst) (map_to_list m).

(** [BTreeMap::values]. *)
Definition btree_values (m : gmap K V) : list V := (btree_entries m).*2.

(** [BTreeMap::keys]. *)
Definition btree_keys (m : gmap K V) : list K := (btree_entries m).*1.

(** [BTreeSet::iter]. *)
Definition btree_elements (s : gset K) : list K := merge_sort key_le (elements s).

Lemma btree_entries_perm m : btree_entries m ≡ₚ map_to_list m.
Proof. apply merge_sort_Permutation. Qed.

Lemma elem_of_btree_entries m k v : (k, v) ∈ btree_entries m ↔ m !! k = Some v.
Proof. rewrite btree_entries_perm. apply elem_of_map_to_list. Qed.

Lemma elem_of_btree_values m v : v ∈ btree_values m ↔ ∃ k, m !! k = Some v.
Proof.
  unfold btree_values. rewrite list_elem_of_fmap. split.
  - intros ([k w] & -> & Hin). exists k. by apply elem_of_btree_entries.
  - intros [k Hk]. exists (k, v). split; [done|]. by apply elem_of_btree_entries.
Qed.

Lemma elem_of_btree_keys m k : k ∈ btree_keys m ↔ is_Some (m !! k).
Proof.
  unfold btree_keys. rewrite list_elem_of_fmap. split.
  - intros ([k' w] & -> & Hin). exists w. by apply elem_of_btree_entries.
  - intros [v Hk]. exists (k, v). split; [done|]. by apply elem_of_btree_entries.
Qed.

Lemma NoDup_btree_keys m : NoDup (btree_keys m).
Proof. unfold btree_keys. rewrite btree_entries_perm. apply NoDup_fst_map_to_list. Qed.

Lemma btree_elements_perm s : btree_elements s ≡ₚ elements s.
Proof. apply merge_sort_Permutation. Qed.

Lemma elem_of_btree_elements s x : x ∈ btree_elements s ↔ x ∈ s.
Proof. rewrite btree_elements_perm. apply elem_of_elements. Qed.

Lemma NoDup_btree_elements s : NoDup (btree_elements s).
Proof. rewrite btree_elements_perm. apply NoDup_elements. Qed.

Lemma btree_elements_sorted s : StronglySorted key_le (btree_elements s).
Proof. apply StronglySorted_merge_sort; apply _. Qed.

Lemma length_btree_elements s : length (btree_elements s) = size s.
Proof. by rewrite btree_elements_perm. Qed.

Lemma btree_elements_nil s : btree_elements s = [] ↔ s = ∅.
Proof.
  rewrite <-length_zero_iff_nil, length_btree_elements, size_empty_iff.
  by rewrite leibniz_equiv_iff.
Qed.
End containers.

(** Rust's [HashMap] promises no iteration order: it is a parameter of every
    definition that iterates one, known only to enumerate each entry once. *)
Class HashIter := {
  hash_iter : ∀ {K V : Type} `{Countable K}, gmap K V → list (K * V);
  hash_iter_perm : ∀ {K V : Type} `{Countable K} (m : gmap K V),
    hash_iter m ≡ₚ map_to_list m
}.

Section hash_iter.
Context `{HI : HashIter} {K V : Type} `{Countable K}.

(** [HashMap::values]. *)
Definition hash_values (m : gmap K V) : list V := (hash_iter m).*2.

Lemma elem_of_hash_iter (m : gmap K V) k v : (k, v) ∈ hash_iter m ↔ m !! k = Some v.
Proof. rewrite hash_iter_perm. apply elem_of_map_to_list. Qed.

Lemma elem_of_hash_values (m : gmap K V) v : v ∈ hash_values m ↔ ∃ k, m !! k = Some v.
Proof.
  unfold hash_values. rewrite list_elem_of_fmap. split.
  - intros ([k w] & -> & Hin). exists k. by apply elem_of_hash_iter.
  - intros [k Hk]. exists (k, v). split; [done|]. by apply elem_of_hash_iter.
Qed.

Lemma NoDup_hash_keys (m : gmap K V) : NoDup (hash_iter m).*1.
Proof. rewrite hash_iter_perm. apply NoDup_fst_map_to_list. Qed.
End hash_iter.

(** ** Lists *)

(** [if !v.contains(&x) { v.push(x) }]. *)
Definition push_unique {A} `{EqDecision A} (l : list A) (x : A) : list A :=
  if decide (x ∈ l) then l else l ++ [x].

Section push_unique.
Context {A : Type} `{EqDecision A}.
Implicit Types l : list A.

Lemma elem_of_push_unique l x y : y ∈ push_unique l x ↔ y ∈ l ∨ y = x.
Proof. unfold push_unique. case_decide; set_solver. Qed.

Lemma NoDup_push_unique l x : NoDup l → NoDup (push_unique l x).
Proof.
  intros Hl. unfold push_unique. case_decide; [done|].
  apply NoDup_app. split_and!; [done| |apply NoDup_singleton]. set_solver.
Qed.

Lemma elem_of_foldl_push_unique l xs y :
  y ∈ foldl push_unique l xs ↔ y ∈ l ∨ y ∈ xs.
Proof.
  revert l. induction xs as [|x xs IH]; intros l; simpl; [set_solver|].
  rewrite IH, elem_of_push_unique. set_solver.
Qed.

Lemma NoDup_foldl_push_unique l xs : NoDup l → NoDup (foldl push_unique l xs).
Proof.
  revert l. induction xs as [|x xs IH]; intros l Hl; simpl; [done|].
  by apply IH, NoDup_push_unique.
Qed.

(** Nothing already in the vector moves: pushing only extends it. *)
Lemma foldl_push_unique_prefix l xs : l `prefix_of` foldl push_unique l xs.
Proof.
  revert l. induction xs as [|x xs IH]; intros l; simpl; [done|].
  transitivity (push_unique l x); [|apply IH].
  unfold push_unique. case_decide; [done|]. by eexists.
Qed.
End push_unique.

Lemma size_list_to_set_le {A} `{Countable A} (l : list A) :
  size (list_to_set l : gset A) ≤ length l.
Proof.
  induction l as [|x l IH]; [by vm_compute|]. cbn [list_to_set length].
  pose proof (size_union_alt {[ x ]} (list_to_set l : gset A)) as Hs.
  rewrite size_singleton in Hs.
  assert (size (list_to_set l ∖ {[ x ]} : gset A) ≤ size (list_to_set l : gset A)).
  { apply subseteq_size. set_solver. }
  change (list_to_set (x :: l)) with ({[ x ]} ∪ list_to_set l : gset A). lia.
Qed.

Lemma exists_elem_cons {A} (P : A → Prop) x l :
  (∃ y, y ∈ x :: l ∧ P y) ↔ P x ∨ ∃ y, y ∈ l ∧ P y.
Proof. set_solver. Qed.

Lemma two_elements {A} `{Countable A} (s : gset A) : 2 ≤ size s ↔ ∃ a b, a ≠ b ∧ a ∈ s ∧ b ∈ s.
Proof.
  change (size s) with (length (elements s)). split.
  - pose proof (NoDup_elements s) as Hnd. intros Hs.
    destruct (elements s) as [|a [|b l]] eqn:Hl; cbn in Hs; [lia..|].
    exists a, b. rewrite <-!elem_of_elements, Hl. apply NoDup_cons in Hnd as [Hn _].
    split_and!; set_solver.
  - intros (a & b & Hab & Ha & Hb). rewrite <-elem_of_elements in Ha, Hb.
    destruct (elements s) as [|x [|y l]]; cbn; [set_solver| |lia].
    apply list_elem_of_singleton in Ha as ->, Hb as ->. done.
Qed.

(** *** Filters, prefixes and options *)

Lemma filter_ext_elem {A} (P Q : A → Prop) `{∀ x, Decision (P x), ∀ x, Decision (Q x)} (l : list A) :
  (∀ x, x ∈ l → P x ↔ Q x) → filter P l = filter Q l.
Proof.
  induction l as [|x l IH]; intros HPQ; [done|]. rewrite !filter_cons.
  rewrite IH by (intros; apply HPQ; by right). specialize (HPQ x ltac:(by left)).
  do 2 case_decide; tauto.
Qed.

Lemma filter_all {A} (P : A → Prop) `{∀ x, Decision (P x)} (l : list A) :
  (∀ x, x ∈ l → P x) → filter P l = l.
Proof.
  induction l as [|x l IH]; intros HP; [done|]. rewrite filter_cons, decide_True by (apply HP; by left).
  f_equal. apply IH. intros y Hy. apply HP. by right.
Qed.

Lemma filter_none {A} (P : A → Prop) `{∀ x, Decision (P x)} (l : list A) :
  (∀ x, x ∈ l → ¬ P x) → filter P l = [].
Proof.
  induction l as [|x l IH]; intros HP; [done|]. rewrite filter_cons, decide_False by (apply HP; by left).
  apply IH. intros y Hy. apply HP. by right.
Qed.

Lemma length_omap_le {A B} (f : A → option B) l : length (omap f l) ≤ length l.
Proof. induction l as [|x l IH]; [done|]. cbn. destruct (f x); cbn; lia. Qed.

Lemma NoDup_take_prefix {A} n (l : list A) : NoDup l → NoDup (take n l).
Proof. rewrite <- (take_drop n l) at 1. by intros [? _]%NoDup_app. Qed.

(** What holds of the output for each element holds of the joined output. *)
Lemma Forall_mjoin_mapM {A B} (f : A → option (list B)) (P : B → Prop) (l : list A) (ys : list B) :
  mjoin <$> mapM f l = Some ys → (∀ x y, x ∈ l → f x = Some y → Forall P y) → Forall P ys.
Proof.
  revert ys. induction l as [|x l IH]; intros ys Heq Hf; cbn in Heq; [by injection Heq as <-|].
  destruct (f x) as [y|] eqn:Hy; cbn in Heq; [|done].
  destruct (mapM f l) as [z|] eqn:Hz; cbn in Heq; [|done]. injection Heq as <-.
  apply Forall_app. split; [apply (Hf x); [set_solver|done]|].
  apply (IH (mjoin z)); [done|]. intros x' y' Hx'. apply Hf. set_solver.
Qed.

(** *** Stable sorting *)

Section sort.
Context {A : Type} (R : relation A) `{!RelDecision R}.

Fixpoint insert_sorted (x : A) (l : list A) : list A :=
  match l with
  | [] => [x]
  | y :: l' => if decide (R x y) then x :: y :: l' else y :: insert_sorted x l'
  end.

(** [slice::sort_by]: a stable sort. *)
Definition stable_sort (l : list A) : list A := foldr insert_sorted [] l.

Lemma insert_sorted_perm x l : insert_sorted x l ≡ₚ x :: l.
Proof.
  induction l as [|y l IH]; simpl; [done|]. case_decide; [done|].
  rewrite IH. constructor.
Qed.

Lemma stable_sort_perm l : stable_sort l ≡ₚ l.
Proof. induction l as [|x l IH]; simpl; [done|]. by rewrite insert_sorted_perm, IH. Qed.

Lemma elem_of_stable_sort l x : x ∈ stable_sort l ↔ x ∈ l.
Proof. by rewrite stable_sort_perm. Qed.

Context `{!Total R, !Transitive R}.

Lemma insert_sorted_sorted x l :
  StronglySorted R l → StronglySorted R (insert_sorted x l).
Proof.
  induction 1 as [|y l Hl IH Hy]; simpl; [repeat constructor|]. case_decide as Hxy.
  - constructor; [by constructor|]. constructor; [done|].
    eapply Forall_impl; [done|]. intros z Hz. by transitivity y.
  - constructor; [done|]. rewrite insert_sorted_perm. constructor; [|done].
    destruct (total R x y); [contradiction | done].
Qed.

Lemma stable_sort_sorted l : StronglySorted R (stable_sort l).
Proof. induction l; simpl; [constructor|]. by apply insert_sorted_sorted. Qed.
End sort.

Lemma StronglySorted_impl {A} (R S : relation A) (l : list A) :
  (∀ x y, R x y → S x y) → StronglySorted R l → StronglySorted S l.
Proof.
  intros HRS. induction 1 as [|x l Hl IH Hx]; constructor; [done|].
  eapply Forall_impl; [done|]. auto.
Qed.

(** [slice::sort_by_key]. *)
Definition sort_by_key {A K} `{KeyOrder K} (f : A → K) (l : list A) : list A :=
  stable_sort (key_le_on f) l.

(** Keys that tell the elements of a list apart make its order unique. *)
Lemma StronglySorted_sublist {A} (R : relation A) (l k : list A) :
  sublist l k → StronglySorted R k → StronglySorted R l.
Proof.
  induction 1 as [|x l k Hs IH|x l k Hs IH]; intros Hk; [done|..];
    apply StronglySorted_inv in Hk as [Hk Hx]; [|by apply IH].
  constructor; [by apply IH|]. rewrite Forall_forall in Hx |- *. intros y Hy.
  apply Hx. by apply (sublist_subseteq _ _ Hs) in Hy.
Qed.

Section sort_by_key.
Context {A K : Type} `{KeyOrder K} (f : A → K).

(** The key is injective on the elements of a list. *)
Definition key_inj_on (l : list A) : Prop := ∀ x y, x ∈ l → y ∈ l → f x = f y → x = y.

Lemma sort_by_key_perm l : sort_by_key f l ≡ₚ l.
Proof. apply stable_sort_perm. Qed.

Lemma sort_by_key_sorted l : StronglySorted (key_le_on f) (sort_by_key f l).
Proof. apply stable_sort_sorted; apply _. Qed.

Lemma sort_by_key_unique l k :
  key_inj_on l → k ≡ₚ l → StronglySorted (key_le_on f) k → k = sort_by_key f l.
Proof.
  intros Hinj Hp Hk. apply (StronglySorted_unique_strong (key_le_on f)).
  - intros x y Hx Hy Hxy Hyx. rewrite Hp in Hx. rewrite sort_by_key_perm in Hy.
    apply Hinj; [done|done|]. by apply (anti_symm key_le).
  - done.
  - apply sort_by_key_sorted.
  - by rewrite Hp, sort_by_key_perm.
Qed.

Lemma sort_by_key_proper l k : key_inj_on k → l ≡ₚ k → sort_by_key f l = sort_by_key f k.
Proof.
  intros Hinj Hp. apply sort_by_key_unique; [done|by rewrite sort_by_key_perm|apply sort_by_key_sorted].
Qed.

Lemma sort_by_key_filter (P : A → Prop) `{∀ x, Decision (P x)} l :
  key_inj_on l → sort_by_key f (filter P l) = filter P (sort_by_key f l).
Proof.
  intros Hinj. symmetry. apply sort_by_key_unique.
  - intros x y [_ Hx]%list_elem_of_filter [_ Hy]%list_elem_of_filter. by apply Hinj.
  - by rewrite sort_by_key_perm.
  - apply (StronglySorted_sublist _ _ (sort_by_key f l)); [apply sublist_filter|apply sort_by_key_sorted].
Qed.
End sort_by_key.

(** The entries of a table under a key that holds the identifier. *)
Lemma map_entries_key_inj {I V K} `{Countable I} `{KeyOrder K} (f : I * V → K) (m : gmap I V) :
  (∀ e e', f e = f e' → e.1 = e'.1) → key_inj_on f (map_to_list m).
Proof.
  intros Hid [i v] [j w] Hx Hy Hf. apply Hid in Hf. cbn in Hf. subst j.
  apply elem_of_map_to_list in Hx, Hy. congruence.
Qed.

Lemma map_to_list_filter_perm {I V} `{Countable I} (P : I * V → Prop) `{∀ e, Decision (P e)} (m : gmap I V) :
  map_to_list (filter P m) ≡ₚ filter P (map_to_list m).
Proof.
  apply NoDup_Permutation.
  - apply NoDup_map_to_list.
  - apply NoDup_filter, NoDup_map_to_list.
  - intros [i r]. rewrite elem_of_map_to_list, map_lookup_filter_Some, list_elem_of_filter, elem_of_map_to_list.
    tauto.
Qed.

(** [Vec::dedup]: drop an element equal to the one before it. *)
Fixpoint dedup {A} `{EqDecision A} (l : list A) : list A :=
  match l with
  | [] => []
  | x :: l' =>
      match dedup l' with
      | [] => [x]
      | y :: r => if decide (x = y) then y :: r else x :: y :: r
      end
  end.

(** [v.sort(); v.dedup()]. *)
Definition sort_dedup {A} `{EqDecision A, KeyOrder A} (l : list A) : list A :=
  dedup (sort_by_key id l).

Lemma elem_of_dedup {A} `{EqDecision A} (l : list A) x : x ∈ dedup l ↔ x ∈ l.
Proof.
  induction l as [|a l IH]; simpl; [done|].
  rewrite (elem_of_cons l), <-IH. destruct (dedup l) as [|y r]; [by rewrite elem_of_cons|].
  case_decide; subst; rewrite !elem_of_cons; tauto.
Qed.

Lemma elem_of_sort_by_key {A K} `{KeyOrder K} (f : A → K) l x : x ∈ sort_by_key f l ↔ x ∈ l.
Proof. apply elem_of_stable_sort. Qed.

Lemma elem_of_sort_dedup {A} `{EqDecision A, KeyOrder A} (l : list A) x :
  x ∈ sort_dedup l ↔ x ∈ l.
Proof. unfold sort_dedup. by rewrite elem_of_dedup, elem_of_sort_by_key. Qed.

(** Sorting by the element itself forgets the order of the input. *)
Lemma sort_by_id_perm {A} `{KeyOrder A} (l1 l2 : list A) :
  l1 ≡ₚ l2 → sort_by_key id l1 = sort_by_key id l2.
Proof.
  intros Hp. unfold sort_by_key.
  assert (AntiSymm (=) (key_le_on (id : A → A))) by (intros x y; apply (anti_symm key_le)).
  apply (StronglySorted_unique (key_le_on id)); try apply stable_sort_sorted; try apply _.
  by rewrite !stable_sort_perm.
Qed.

(** [Iterator::max_by_key]: the {e last} of the elements with the greatest key. *)
Fixpoint max_by_key {A K} `{KeyOrder K} (f : A → K) (l : list A) : option A :=
  match l with
  | [] => None
  | x :: l' =>
      match max_by_key f l' with
      | None => Some x
      | Some y => if decide (key_le (f x) (f y)) then Some y else Some x
      end
  end.

Section max_by_key.
Context {A K : Type} `{KeyOrder K} (f : A → K).

Lemma max_by_key_None l : max_by_key f l = None ↔ l = [].
Proof.
  destruct l as [|x l]; simpl; [done|]. destruct (max_by_key f l); [|done].
  by case_decide.
Qed.

Lemma max_by_key_Some l x :
  max_by_key f l = Some x → x ∈ l ∧ ∀ y, y ∈ l → key_le (f y) (f x).
Proof.
  revert x. induction l as [|a l IH]; intros x; simpl; [done|].
  destruct (max_by_key f l) as [y|] eqn:Hy.
  - destruct (IH y eq_refl) as [Hin Hmax]. case_decide as Hle; intros [= <-].
    + split; [set_solver|]. intros z [->|Hz]%elem_of_cons; auto.
    + split; [set_solver|]. intros z [->|Hz]%elem_of_cons; [reflexivity|].
      transitivity (f y); [auto|]. destruct (total key_le (f a) (f y)); tauto.
  - intros [= <-]. apply max_by_key_None in Hy as ->.
    split; [set_solver|]. intros z Hz%list_elem_of_singleton. subst. reflexivity.
Qed.

(** With keys that tell the elements apart the answer does not depend on the
    order the container is iterated in. *)
Lemma max_by_key_perm l1 l2 :
  (∀ x y, x ∈ l1 → y ∈ l1 → f x = f y → x = y) →
  l1 ≡ₚ l2 → max_by_key f l1 = max_by_key f l2.
Proof.
  intros Hinj Hp. destruct (max_by_key f l1) as [x|] eqn:Hx.
  - destruct (max_by_key f l2) as [y|] eqn:Hy.
    + apply max_by_key_Some in Hx as [Hx1 Hx2], Hy as [Hy1 Hy2].
      f_equal. apply Hinj; [done | by rewrite Hp |].
      apply (anti_symm key_le); [apply Hy2; by rewrite <-Hp | apply Hx2; by rewrite Hp].
    + apply max_by_key_None in Hy as ->. symmetry in Hp.
      by apply Permutation_nil in Hp as ->.
  - apply max_by_key_None in Hx as ->. by apply Permutation_nil in Hp as ->.
Qed.
End max_by_key.

(** *** The option a boolean guard selects: [b.then(|| x)]. *)
Definition then_some {A} (b : bool) (x : A) : option A := if b then Some x else None.

(** ** Notation and automation *)

Declare Scope sentinel_scope.
Delimit Scope sentinel_scope with sentinel.
Notation "l ⊕ x" := (push_unique l x) (at level 50, left associativity) : sentinel_scope.
Notation "l ⊕* xs" := (foldl push_unique l xs) (at level 50, left associativity) : sentinel_scope.

Create HintDb sentinel discriminated.
Create Rewrite HintDb sentinel.
#[export] Hint Resolve NoDup_push_unique NoDup_foldl_push_unique NoDup_btree_keys
  NoDup_btree_elements NoDup_hash_keys : sentinel.
#[export] Hint Rewrite @elem_of_push_unique @elem_of_foldl_push_unique
  @elem_of_btree_values @elem_of_btree_keys @elem_of_btree_elements
  @elem_of_hash_values : sentinel.

(** Split every [if] and [match] of the goal, closing what is immediate. *)
Ltac split_cases := repeat (case_match || case_decide || case_bool_decide); simplify_eq/=; try done.

(** Decide a statement about finitely many constructors by computation. *)
Ltac by_cases x := destruct x; simpl; try done; auto with sentinel.

(** Settle a decidable statement by running its decision procedure. *)
Ltac by_computation := apply (bool_decide_eq_true_1 _); vm_compute; reflexivity.

(** ** Bounded loops

    A [while] loop runs with fuel and reports how it ended: it finished, an
    indexing or arithmetic operation inside it panicked, or the fuel ran out,
    which the termination theorems exclude. *)
Inductive loop_result (A : Type) :=
  | Finished (a : A)
  | Panicked
  | OutOfFuel.
Arguments Finished {A} a.
Arguments Panicked {A}.
Arguments OutOfFuel {A}.

(** What the caller of the loop sees: [None] is a panic. *)
Definition loop_value {A} (r : loop_result A) : option A :=
  match r with Finished a => Some a | _ => None end.

(** [v.iter().map(|&i| &xs[i])]: indexing out of range panics. *)
Definition index_all {A} (xs : list A) (ix : list nat) : option (list A) :=
  mapM (λ i, xs !! i) ix.

(** A conjunction over a list that fails, fails somewhere. *)
Lemma forallb_false_exists {A} (f : A → bool) l : forallb f l = false → ∃ x, x ∈ l ∧ f x = false.
Proof.
  induction l as [|x l IH]; cbn [forallb]; [done|]. destruct (f x) eqn:Hx; cbn [andb]; [|intros _; exists x; split; [by left|done]].
  intros (y & Hy & Hf)%IH. exists y. split; [by right|done].
Qed.
