(* ===== verification/External.v ===== *)
(** * What the program is written against

    The interfaces of the crates it calls, and the database as it sees it. *)

From S2P Require Export Prelude.

(** * External code

    The interfaces of the third-party crates the program calls ([uuid],
    [serde_json], [chrono], [humantime]).  Their code is not part of this
    repository, so each is a class of operations: a definition that needs one
    takes it as an argument.  What the program relies on is stated separately,
    as the laws of a second class, and only the theorems that use a law assume
    it. *)

(** ** [uuid] *)

(** A 128-bit identifier; [Ord] on its big-endian bytes is the order of the
    number. *)
Abbreviation Uuid := N (only parsing).

Class UuidApi := {
  (** [Uuid::new_v5(namespace, name)]: a hash of the name. *)
  uuid_new_v5 : Uuid → string → Uuid;
  (** [Display]: the hyphenated hexadecimal form. *)
  uuid_to_string : Uuid → string
}.

(** The separator the program joins identifiers with. *)
Definition comma : Ascii.ascii := ","%char.

Fixpoint string_mem (c : Ascii.ascii) (s : string) : bool :=
  match s with
  | EmptyString => false
  | String a s' => bool_decide (a = c) || string_mem c s'
  end.

Class UuidLaws `{UuidApi} := {
  uuid_to_string_inj :: Inj (=) (=) uuid_to_string;
  uuid_to_string_no_comma u : string_mem comma (uuid_to_string u) = false;
  uuid_to_string_nonempty u : uuid_to_string u ≠ ""%string
}.

(** ** [serde_json] *)

Class JsonApi := {
  json : Type;
  json_eq_dec :: EqDecision json;
  (** [Value::Null] and the conversions the [json!] macro applies. *)
  json_null : json;
  json_of_bool : bool → json;
  json_of_u64 : N → json;
  json_of_str : string → json;
  json_of_array : list json → json;
  json_of_object : gmap string json → json;
  (** [Value::get(key)], [as_bool], [as_u64], [as_str], [as_array], [as_object],
      [is_null]. *)
  json_get : json → string → option json;
  json_as_bool : json → option bool;
  json_as_u64 : json → option N;
  json_as_str : json → option string;
  json_as_array : json → option (list json);
  json_as_object : json → option (gmap string json);
  json_is_null : json → bool
}.

(** [json!(option)]: [None] becomes [null]. *)
Definition json_of_option `{JsonApi} {A} (f : A → json) (o : option A) : json :=
  match o with Some x => f x | None => json_null end.

Class JsonLaws `{JsonApi} := {
  json_get_object m k : json_get (json_of_object m) k = m !! k;
  json_get_null k : json_get json_null k = None;
  json_as_bool_of b : json_as_bool (json_of_bool b) = Some b;
  json_as_u64_of n : (n ≤ u64_max)%N → json_as_u64 (json_of_u64 n) = Some n;
  json_as_u64_bound j n : json_as_u64 j = Some n → (n ≤ u64_max)%N;
  json_as_u64_null : json_as_u64 json_null = None;
  json_as_str_of s : json_as_str (json_of_str s) = Some s;
  json_as_str_null : json_as_str json_null = None;
  json_as_array_of l : json_as_array (json_of_array l) = Some l;
  json_as_object_of m : json_as_object (json_of_object m) = Some m;
  json_as_object_inv j m : json_as_object j = Some m → j = json_of_object m;
  json_as_object_null : json_as_object json_null = None;
  json_is_null_spec j : json_is_null j = true ↔ j = json_null
}.

#[export] Hint Rewrite @json_get_object @json_get_null @json_as_bool_of @json_as_str_of
  @json_as_array_of @json_as_object_of @json_as_u64_null @json_as_str_null using apply _ : sentinel.

(** ** [chrono] and [humantime] *)

Class TimeApi := {
  (** [to_rfc3339_opts(SecondsFormat::Micros, true)]. *)
  rfc3339_micros : Timestamp → string;
  (** [humantime::format_duration]. *)
  humantime_format : Duration → string
}.

(** The rest of what the program asks of [chrono]. *)
Class ChronoApi := {
  (** [DateTime::parse_from_rfc3339], in UTC. *)
  parse_rfc3339 : string → option Timestamp;
  (** [DateTime - TimeDelta], which panics out of the representable range. *)
  datetime_sub : Timestamp → Duration → option Timestamp;
  (** [TimeDelta::from_std(d).ok()], of nanoseconds, and [TimeDelta::MAX]. *)
  delta_from_std : N → option Duration;
  delta_max : Duration
}.

(** * The database, as the program sees it

    [src/persistence/mod.rs]: how an operation on a store ends.  A table is a
    finite map from its primary key to the columns the program reads back, and
    each SQL statement of the source is the definition that says what it
    selects, inserts or deletes.  The database itself is taken not to fail: the
    failures modelled are those the statements and the code around them cause.
    [HashIter] also stands for the unspecified order of the rows of a query
    that asks for none. *)

(** [StoreError]: a value that cannot be decoded, or a statement the database
    refuses. *)
Inductive StoreError :=
  | Store_Decode (kind detail : string)
  | Store_Database.

#[export] Instance StoreError_eq_dec : EqDecision StoreError.
Proof. solve_decision. Defined.

(** How a fallible operation ends. *)
Inductive outcome (A : Type) :=
  | Success (a : A)
  | Failure (e : StoreError)
  | Panic.
Arguments Success {A} a.
Arguments Failure {A} e.
Arguments Panic {A}.

(** The [?] operator on a store's results, and a loop of fallible steps: the
    first error ends it. *)
Definition sum_bind {E A B} (f : A → E + B) (r : E + A) : E + B :=
  match r with inl e => inl e | inr a => f a end.

Fixpoint try_fold {E A B} (f : A → B → E + A) (a : A) (l : list B) : E + A :=
  match l with
  | [] => inr a
  | b :: rest => sum_bind (λ a', try_fold f a' rest) (f a b)
  end.

Fixpoint try_map {E A B} (f : A → E + B) (l : list A) : E + list B :=
  match l with
  | [] => inr []
  | a :: rest => sum_bind (λ b, sum_bind (λ bs, inr (b :: bs)) (try_map f rest)) (f a)
  end.

(** A time as a column keeps it: [to_rfc3339] cuts it to microseconds. *)
Definition to_micros (t : Timestamp) : Timestamp := (t / 1000 * 1000)%Z.

Lemma to_micros_idem t : to_micros (to_micros t) = to_micros t.
Proof. unfold to_micros. by rewrite Z.div_mul. Qed.

Lemma try_map_Forall2 {E A B} (f : A → E + B) l r :
  try_map f l = inr r ↔ Forall2 (λ a b, f a = inr b) l r.
Proof.
  revert r. induction l as [|a l IH]; intros r; cbn [try_map].
  - split; [by intros [= <-]|by inversion 1].
  - destruct (f a) as [e|b] eqn:Ha; cbn [sum_bind].
    + split; [done|]. inversion 1; congruence.
    + destruct (try_map f l) as [e|bs]; cbn [sum_bind].
      * split; [done|]. inversion 1 as [|? ? ? l' ? Hl]; subst. by apply IH in Hl.
      * split; [intros [= <-]; constructor; [done|by apply IH]|].
        inversion 1 as [|? b' ? l' Hb Hl]; subst. apply IH in Hl. congruence.
Qed.

(** A loop whose steps all succeed succeeds. *)
Lemma try_fold_total {E A B} (f : A → B → E + A) a l : (∀ a b, b ∈ l → ∃ a', f a b = inr a') → ∃ a', try_fold f a l = inr a'.
Proof.
  revert a. induction l as [|b l IH]; intros a Hf; cbn [try_fold]; [by eexists|].
  destruct (Hf a b ltac:(by left)) as [a' ->]. apply IH. intros a1 b1 Hb. apply Hf. by right.
Qed.

(** An invariant of every step is one of the loop. *)
Lemma try_fold_invariant {E A B} (P : A → Prop) (f : A → B → E + A) a l a' :
  (∀ a b a', P a → b ∈ l → f a b = inr a' → P a') → P a → try_fold f a l = inr a' → P a'.
Proof.
  revert a. induction l as [|b l IH]; intros a Hstep Ha; cbn [try_fold]; [by intros [= <-]|].
  destruct (f a b) as [e|a1] eqn:Hf; cbn [sum_bind]; [done|]. apply IH.
  - intros a2 b2 a3 H2 Hb. apply Hstep; [done|by right].
  - by apply (Hstep a b); [|left|].
Qed.
