(* ===== verification/Capability.v ===== *)
(** * Capabilities

    [src/capability/mod.rs] and [src/capability/resolve.rs]: namespaced
    capability names, the sets of them an entity holds, and the precedence that
    decides which are enabled. *)

From S2P Require Export External.

Local Open Scope string_scope.

(** [Capability(String)], a transparent wrapper. *)
Abbreviation Capability := string (only parsing).

(** [Capability::in_namespace]: equal, or extended by a [.]-separated segment. *)
Definition capability_in_namespace (c : Capability) (namespace : string) : bool :=
  String.eqb c namespace
  || ((String.length namespace <? String.length c)%nat
      && String.prefix namespace c
      && bool_decide (String.get (String.length namespace) c = Some "."%char)).

(** [CapabilitySet(BTreeSet<Capability>)]. *)
Abbreviation CapabilitySet := (gset Capability) (only parsing).

(** [CapabilitySet::insert] and [remove] return whether the set changed. *)
Definition capability_set_insert (s : CapabilitySet) (c : Capability) : CapabilitySet * bool :=
  ({[ c ]} ∪ s, bool_decide (c ∉ s)).

Definition capability_set_remove (s : CapabilitySet) (c : Capability) : CapabilitySet * bool :=
  (s ∖ {[ c ]}, bool_decide (c ∈ s)).

Definition capability_set_contains (s : CapabilitySet) (c : Capability) : bool :=
  bool_decide (c ∈ s).

Definition capability_set_has_all (s : CapabilitySet) (required : list Capability) : bool :=
  forallb (capability_set_contains s) required.

Definition capability_set_any_in_namespace (s : CapabilitySet) (namespace : string) : bool :=
  existsb (λ c, capability_in_namespace c namespace) (btree_elements s).

(** [well_known]: the names the modelled code refers to. *)
Definition OBSERVER_PEER : Capability := "observer.peer".
Definition SENTINEL_AGENT : Capability := "sentinel.agent".
Definition STORAGE_NFS_CLIENT : Capability := "storage.nfs.client".

(** ** Resolution *)

Inductive CapabilityOverride := Override_Force | Override_Enable | Override_Disable.

Inductive DiscoveryOutcome := Detected | NotDetected.

Inductive ResolutionReason :=
  | ForcedDisabled
  | ForcedEnabled
  | Discovered
  | NotDiscovered
  | OperatorEnabled
  | RoleHint.

#[export] Instance CapabilityOverride_eq_dec : EqDecision CapabilityOverride.
Proof. solve_decision. Defined.
#[export] Instance DiscoveryOutcome_eq_dec : EqDecision DiscoveryOutcome.
Proof. solve_decision. Defined.
#[export] Instance ResolutionReason_eq_dec : EqDecision ResolutionReason.
Proof. solve_decision. Defined.

(** [ResolutionReason::is_enabled]. *)
Definition reason_is_enabled (r : ResolutionReason) : bool :=
  match r with
  | ForcedEnabled | Discovered | OperatorEnabled | RoleHint => true
  | ForcedDisabled | NotDiscovered => false
  end.

Record Resolution := {
  enabled : CapabilitySet;
  reasons : gmap Capability ResolutionReason
}.

(** [Resolution::default()]. *)
Definition resolution_default : Resolution := {| enabled := ∅; reasons := ∅ |}.

(** [Resolution::reason]. *)
Definition resolution_reason (r : Resolution) (name : string) : option ResolutionReason :=
  reasons r !! name.

Section resolve.
Variables (discovered : gmap Capability DiscoveryOutcome)
  (overrides : gmap Capability CapabilityOverride) (role_hints : gset Capability).

(** The match in the loop of [resolve_capabilities]. *)
Definition resolve_one (c : Capability) : ResolutionReason :=
  match overrides !! c with
  | Some Override_Disable => ForcedDisabled
  | Some Override_Force => ForcedEnabled
  | _ =>
      match discovered !! c with
      | Some Detected => Discovered
      | Some NotDetected => NotDiscovered
      | None =>
          match overrides !! c with
          | Some Override_Enable => OperatorEnabled
          | _ => if decide (c ∈ role_hints) then RoleHint else NotDiscovered
          end
      end
  end.

Definition considered : gset Capability := dom discovered ∪ dom overrides ∪ role_hints.

Definition resolve_step (r : Resolution) (c : Capability) : Resolution :=
  let reason := resolve_one c in
  {| enabled := if reason_is_enabled reason then (capability_set_insert (enabled r) c).1
                else enabled r;
     reasons := <[ c := reason ]> (reasons r) |}.

(** [resolve_capabilities]. *)
Definition resolve_capabilities : Resolution :=
  foldl resolve_step resolution_default (btree_elements considered).

Lemma resolve_fold_reasons r cs c :
  reasons (foldl resolve_step r cs) !! c =
    if decide (c ∈ cs) then Some (resolve_one c) else reasons r !! c.
Proof.
  revert r. induction cs as [|d cs IH]; intros r; [rewrite decide_False by set_solver; done|].
  cbn [foldl]. rewrite IH. cbn [resolve_step reasons]. destruct (decide (c = d)) as [->|Hne].
  - rewrite lookup_insert_eq. repeat case_decide; set_solver.
  - rewrite lookup_insert_ne by done. repeat case_decide; set_solver.
Qed.

Lemma resolve_fold_enabled r cs c :
  c ∈ enabled (foldl resolve_step r cs) ↔
    c ∈ enabled r ∨ (c ∈ cs ∧ reason_is_enabled (resolve_one c) = true).
Proof.
  revert r. induction cs as [|d cs IH]; intros r; simpl; [set_solver|].
  rewrite IH. simpl. rewrite elem_of_cons.
  destruct (reason_is_enabled (resolve_one d)) eqn:Hd; simpl;
    rewrite ?elem_of_union, ?elem_of_singleton; clear IH; intuition (subst; auto; congruence).
Qed.
End resolve.

(** The order of precedence of [src/capability/resolve.rs], as a relation an
    operator can read: disable wins, then force, then what was measured, then
    the operator's wish, then the role. *)
Definition capability_on (discovered : gmap Capability DiscoveryOutcome)
    (overrides : gmap Capability CapabilityOverride) (role_hints : gset Capability)
    (c : Capability) : Prop :=
  overrides !! c ≠ Some Override_Disable ∧
  (overrides !! c = Some Override_Force ∨
   discovered !! c = Some Detected ∨
   (discovered !! c = None ∧ (overrides !! c = Some Override_Enable ∨ c ∈ role_hints))).

Lemma resolve_one_enabled d o h c :
  reason_is_enabled (resolve_one d o h c) = true ↔ capability_on d o h c.
Proof.
  unfold resolve_one, capability_on. destruct (o !! c) as [[]|] eqn:Ho, (d !! c) as [[]|] eqn:Hd;
    simpl; try case_decide; simpl; naive_solver.
Qed.

Lemma capability_on_considered d o h c : capability_on d o h c → c ∈ considered d o h.
Proof.
  unfold considered, capability_on. rewrite !elem_of_union, !elem_of_dom.
  intros [_ [H|[H|[_ [H|H]]]]]; [rewrite H; eauto..|by right].
Qed.

(** Resolution implements the order of precedence: the enabled set is
    exactly the capabilities that are on, and every capability any source
    mentions, and no other, is given its reason. *)
Theorem resolve_capabilities_spec (discovered : gmap Capability DiscoveryOutcome)
    (overrides : gmap Capability CapabilityOverride) (role_hints : gset Capability) (c : Capability) :
  let r := resolve_capabilities discovered overrides role_hints in
  (c ∈ enabled r ↔ capability_on discovered overrides role_hints c) ∧
  resolution_reason r c =
    (if decide (c ∈ considered discovered overrides role_hints)
     then Some (resolve_one discovered overrides role_hints c) else None) ∧
  (c ∈ enabled r ↔ ∃ reason, resolution_reason r c = Some reason ∧ reason_is_enabled reason = true).
Proof.
  cbn zeta. unfold resolution_reason, resolve_capabilities.
  rewrite resolve_fold_enabled, resolve_fold_reasons.
  pose proof (capability_on_considered discovered overrides role_hints c) as Hc.
  pose proof (resolve_one_enabled discovered overrides role_hints c) as Hr.
  set (cs := btree_elements _).
  assert (c ∈ cs ↔ c ∈ considered discovered overrides role_hints) as Hcs
    by apply elem_of_btree_elements.
  cbn [enabled reasons resolution_default]. rewrite lookup_empty, elem_of_empty.
  split_and!; [tauto|by apply decide_ext|].
  destruct (decide (c ∈ cs)); naive_solver.
Qed.
