(* ===== verification/Text.v ===== *)
(** * Text

    The operations of Rust's [str] and [String] the program uses, on strings of
    UTF-8 bytes.  Every separator the program looks for is ASCII, and an ASCII
    byte never occurs inside a longer UTF-8 sequence, so working bytewise gives
    what [chars()] gives.  [trim] knows the full Unicode [White_Space] set. *)

From stdpp Require Export pretty.
From S2P Require Export Prelude.

Local Open Scope string_scope.

(** [!s.is_empty()] and friends. *)
Definition is_empty (s : string) : bool := String.eqb s "".

(** ** Prefixes, suffixes, substrings *)

Fixpoint str_strip_prefix (p s : string) : option string :=
  match p, s with
  | EmptyString, _ => Some s
  | String a p', String b s' => if decide (a = b) then str_strip_prefix p' s' else None
  | String _ _, EmptyString => None
  end.

Definition starts_with (p s : string) : bool := bool_decide (is_Some (str_strip_prefix p s)).

(** [s.ends_with(p)]. *)
Fixpoint ends_with (p s : string) : bool :=
  String.eqb p s || match s with EmptyString => false | String _ s' => ends_with p s' end.

(** [s.contains(p)]. *)
Fixpoint contains (p s : string) : bool :=
  starts_with p s || match s with EmptyString => false | String _ s' => contains p s' end.

(** [s.split_once(p)] for a string pattern. *)
Fixpoint split_once (p s : string) : option (string * string) :=
  match str_strip_prefix p s with
  | Some rest => Some ("", rest)
  | None =>
      match s with
      | EmptyString => None
      | String a s' => (λ '(l, r), (String a l, r)) <$> split_once p s'
      end
  end.

(** [s.split(c)] for a one-byte pattern: always at least one piece. *)
Fixpoint split_char (c : ascii) (s : string) : list string :=
  match s with
  | EmptyString => [""]
  | String a s' =>
      if decide (a = c) then "" :: split_char c s'
      else match split_char c s' with
           | [] => [String a ""]
           | w :: ws => String a w :: ws
           end
  end.

(** [pieces.join(sep)]. *)
Fixpoint str_join (sep : string) (l : list string) : string :=
  match l with
  | [] => ""
  | [x] => x
  | x :: l' => x +:+ sep +:+ str_join sep l'
  end.

(** ** White space *)

(** The length of the white-space character a string starts with, 0 if it does
    not start with one. *)
Definition leading_ws (s : string) : nat :=
  match String.list_ascii_of_string s with
  | a :: rest =>
      let n := N_of_ascii a in
      if bool_decide (9 ≤ n ≤ 13)%N || bool_decide (n = 32)%N then 1%nat
      else match map N_of_ascii rest with
           | b :: rest' =>
               if bool_decide (n = 194 ∧ (b = 133 ∨ b = 160))%N then 2%nat
               else match rest' with
                    | c :: _ =>
                        if bool_decide
                             ((n = 225 ∧ b = 154 ∧ c = 128)
                              ∨ (n = 226 ∧ b = 128 ∧ (128 ≤ c ≤ 138 ∨ c = 168 ∨ c = 169 ∨ c = 175))
                              ∨ (n = 226 ∧ b = 129 ∧ c = 159)
                              ∨ (n = 227 ∧ b = 128 ∧ c = 128))%N
                        then 3%nat else 0%nat
                    | [] => 0%nat
                    end
           | [] => 0%nat
           end
  | [] => 0%nat
  end.

Fixpoint drop_bytes (n : nat) (s : string) : string :=
  match n, s with
  | S n', String _ s' => drop_bytes n' s'
  | _, _ => s
  end.

(** [trim_start]; the length of the string is enough fuel. *)
Fixpoint trim_start_fuel (fuel : nat) (s : string) : string :=
  match fuel with
  | O => s
  | S f => match leading_ws s with O => s | n => trim_start_fuel f (drop_bytes n s) end
  end.
Definition trim_start (s : string) : string := trim_start_fuel (String.length s) s.

(** [trim_end] keeps the shortest prefix after which only white space comes. *)
Fixpoint trim_end (s : string) : string :=
  match s with
  | EmptyString => ""
  | String a s' => if is_empty (trim_start s) then "" else String a (trim_end s')
  end.

(** [str::trim]. *)
Definition trim (s : string) : string := trim_end (trim_start s).

(** ** ASCII classes and case *)

Definition byte_in (lo hi : N) (a : ascii) : bool :=
  bool_decide (lo ≤ N_of_ascii a)%N && bool_decide (N_of_ascii a ≤ hi)%N.

Definition is_ascii_digit (a : ascii) : bool := byte_in 48 57 a.
Definition is_ascii_uppercase (a : ascii) : bool := byte_in 65 90 a.
Definition is_ascii_lowercase (a : ascii) : bool := byte_in 97 122 a.
Definition is_ascii_alphabetic (a : ascii) : bool := is_ascii_uppercase a || is_ascii_lowercase a.
Definition is_ascii_alphanumeric (a : ascii) : bool := is_ascii_alphabetic a || is_ascii_digit a.

(** [u8::is_ascii_whitespace]: space, tab, line feed, form feed, return. *)
Definition is_ascii_whitespace (a : ascii) : bool :=
  bool_decide (N_of_ascii a ∈ [32; 9; 10; 12; 13]%N).

Definition to_upper (a : ascii) : ascii :=
  if is_ascii_lowercase a then ascii_of_N (N_of_ascii a - 32) else a.

Fixpoint to_ascii_uppercase (s : string) : string :=
  match s with
  | EmptyString => ""
  | String a s' => String (to_upper a) (to_ascii_uppercase s')
  end.

Definition eq_ignore_ascii_case (s t : string) : bool :=
  String.eqb (to_ascii_uppercase s) (to_ascii_uppercase t).

Fixpoint all_bytes (p : ascii → bool) (s : string) : bool :=
  match s with
  | EmptyString => true
  | String a s' => p a && all_bytes p s'
  end.

(** ** Decimal numbers *)

Definition all_digits (s : string) : bool := all_bytes is_ascii_digit s.

Definition digit_value (a : ascii) : N := N_of_ascii a - 48.

(** The value of a run of digits, continuing from [acc]. *)
Fixpoint digits_value (acc : N) (s : string) : N :=
  match s with
  | EmptyString => acc
  | String a s' => digits_value (acc * 10 + digit_value a) s'
  end.

(** [s.parse::<uN>().ok()]: an optional [+], then at least one digit and
    nothing else, and a value that fits. *)
Definition parse_uint (max : N) (s : string) : option N :=
  let body := default s (str_strip_prefix "+" s) in
  if is_empty body then None
  else if all_bytes is_ascii_digit body then
    let n := digits_value 0 body in if bool_decide (n ≤ max)%N then Some n else None
  else None.

Definition parse_u32 : string → option N := parse_uint u32_max.
Definition parse_u64 : string → option N := parse_uint u64_max.

(** [format!("{n}")]. *)
Definition show_N (n : N) : string := pretty n.
Definition show_nat (n : nat) : string := pretty n.

Fixpoint zeros (n : nat) : string :=
  match n with O => "" | S n' => String "0"%char (zeros n') end.

(** [format!("{n:0width$}")]. *)
Definition show_padded (width : nat) (n : N) : string :=
  let s := show_N n in zeros (width - String.length s) +:+ s.

(** [output.lines()]: split on line feeds, a final empty piece is dropped and a
    trailing carriage return of a line is removed. *)
Definition chomp_cr (s : string) : string :=
  if ends_with (String "013"%char "") s then String.substring 0 (String.length s - 1) s else s.

Definition drop_last_empty (l : list string) : list string :=
  match reverse l with
  | "" :: rest => reverse rest
  | _ => l
  end.

Definition lines (s : string) : list string :=
  map chomp_cr (drop_last_empty (split_char "010"%char s)).

(** ** Facts *)

Lemma str_strip_prefix_app p s : str_strip_prefix p (p +:+ s) = Some s.
Proof. induction p as [|a p IH]; simpl; [done|]. by rewrite decide_True. Qed.

Lemma str_strip_prefix_Some p s r : str_strip_prefix p s = Some r ↔ s = p +:+ r.
Proof.
  split; [|intros ->; apply str_strip_prefix_app].
  revert s. induction p as [|a p IH]; intros s; simpl; [by intros [= ->]|].
  destruct s as [|b s]; [done|]. case_decide; [|done]. intros ->%IH. by subst.
Qed.

Lemma starts_with_spec p s : starts_with p s = true ↔ ∃ r, s = p +:+ r.
Proof.
  unfold starts_with. rewrite bool_decide_eq_true. unfold is_Some.
  by setoid_rewrite str_strip_prefix_Some.
Qed.

Lemma string_app_nil_r s : s +:+ "" = s.
Proof. induction s as [|a s IH]; [done|]. by apply (f_equal (String a)). Qed.

Lemma string_app_assoc s1 s2 s3 : s1 +:+ (s2 +:+ s3) = (s1 +:+ s2) +:+ s3.
Proof. induction s1 as [|a s IH]; [done|]. by apply (f_equal (String a)). Qed.

Lemma ends_with_refl p : ends_with p p = true.
Proof. destruct p as [|a p]; simpl; [done|]. by rewrite Ascii.eqb_refl, String.eqb_refl. Qed.

Lemma ends_with_app p s : ends_with p (s +:+ p) = true.
Proof.
  induction s as [|a s IH]; [apply ends_with_refl|]. simpl. rewrite IH. apply orb_true_r.
Qed.

Lemma ends_with_spec p s : ends_with p s = true ↔ ∃ r, s = r +:+ p.
Proof.
  split.
  - induction s as [|a s IH]; simpl; rewrite orb_true_iff.
    + intros [->%String.eqb_eq|?]; [by exists ""|done].
    + intros [->%String.eqb_eq|[r ->]%IH]; [by exists ""|by exists (String a r)].
  - intros [r ->]. apply ends_with_app.
Qed.

Lemma string_length_app s t : String.length (s +:+ t) = (String.length s + String.length t)%nat.
Proof.
  induction s as [|a s IH]; [done|]. change (String a s +:+ t) with (String a (s +:+ t)).
  cbn [String.length]. by rewrite IH.
Qed.

(** What a string ends with survives anything put before it. *)
Lemma ends_with_app_r p s t : ends_with p t = true → ends_with p (s +:+ t) = true.
Proof. intros Ht. induction s as [|a s IH]; [done|]. simpl. rewrite IH. apply orb_true_r. Qed.

(** Whatever comes before, the end decides a suffix no longer than it. *)
Lemma ends_with_app_short p s t :
  (String.length p ≤ String.length t)%nat → ends_with p (s +:+ t) = ends_with p t.
Proof.
  intros Hl. induction s as [|a s IH]; [done|]. simpl. rewrite IH.
  destruct (String.eqb_spec p (String a (s +:+ t))) as [->|]; [|done].
  exfalso. cbn [String.length] in Hl. rewrite string_length_app in Hl. lia.
Qed.

Lemma contains_app_r p s t : contains p t = true → contains p (s +:+ t) = true.
Proof. intros Ht. induction s as [|a s IH]; [done|]. simpl. rewrite IH. apply orb_true_r. Qed.

Lemma contains_app p s t : contains p (s +:+ p +:+ t) = true.
Proof.
  assert (∀ u, contains p (p +:+ u) = true) as Hp.
  { intros u. assert (starts_with p (p +:+ u) = true) as Hs by (apply starts_with_spec; eauto).
    destruct (p +:+ u); simpl; by rewrite Hs. }
  induction s as [|a s IH]; [apply Hp|]. simpl. rewrite IH. apply orb_true_r.
Qed.

Lemma is_empty_spec s : is_empty s = true ↔ s = "".
Proof. apply String.eqb_eq. Qed.

Lemma split_char_nonempty c s : split_char c s ≠ [].
Proof. destruct s; simpl; [done|]. case_decide; [done|]. by destruct (split_char c s). Qed.

Lemma str_join_cons sep x l : l ≠ [] → str_join sep (x :: l) = x +:+ sep +:+ str_join sep l.
Proof. by destruct l. Qed.

(** A string that does not hold the separator is one piece. *)
Lemma split_char_app c s t :
  (∀ r, split_char c s = [r] → split_char c (s +:+ String c t) = r :: split_char c t).
Proof.
  induction s as [|a s IH]; intros r; simpl.
  - intros [= <-]. by rewrite decide_True.
  - case_decide; [by pose proof (split_char_nonempty c s); destruct (split_char c s)|].
    destruct (split_char c s) as [|w [|? ?]] eqn:Hs; [by destruct (split_char_nonempty c s)|..|done].
    intros [= <-]. by rewrite (IH w).
Qed.

(** Splitting undoes joining when no piece holds the separator. *)
Lemma split_char_join c l :
  l ≠ [] → Forall (λ s, split_char c s = [s]) l →
  split_char c (str_join (String c "") l) = l.
Proof.
  intros Hne Hall. induction Hall as [|x l Hx Hl IH]; [done|].
  destruct l as [|y l]; [done|]. rewrite str_join_cons by done.
  change (String c "" +:+ str_join (String c "") (y :: l)) with (String c (str_join (String c "") (y :: l))).
  rewrite (split_char_app c x _ x) by done. by rewrite IH.
Qed.

(** ** Numbers and their digits *)

Lemma all_bytes_app p s t : all_bytes p (s +:+ t) = all_bytes p s && all_bytes p t.
Proof.
  induction s as [|a s IH]; [done|]. change (String a s +:+ t) with (String a (s +:+ t)).
  cbn [all_bytes]. by rewrite IH, andb_assoc.
Qed.

Lemma all_bytes_impl (p q : ascii → bool) s :
  (∀ a, p a = true → q a = true) → all_bytes p s = true → all_bytes q s = true.
Proof.
  intros Hpq. induction s as [|a s IH]; cbn [all_bytes]; [done|]. rewrite !andb_true_iff. naive_solver.
Qed.

Lemma digit_of_pretty_char k : (k < 10)%N → is_ascii_digit (pretty_N_char k) = true.
Proof.
  intros Hk. assert (k ∈ [0; 1; 2; 3; 4; 5; 6; 7; 8; 9]%N) as Hin by (rewrite !elem_of_cons; lia).
  repeat (apply elem_of_cons in Hin as [->|Hin]; [reflexivity|]). by apply elem_of_nil in Hin.
Qed.

Lemma all_digits_pretty_go x s : all_digits s = true → all_digits (pretty_N_go x s) = true.
Proof.
  revert s. induction (N.lt_wf_0 x) as [x _ IH]; intros s Hs.
  destruct (decide (x = 0)%N) as [->|Hx]; [by rewrite pretty_N_go_0|].
  rewrite pretty_N_go_step by lia. apply IH; [apply N.div_lt; lia|].
  cbn [all_digits all_bytes]. apply andb_true_iff. split; [|done].
  apply digit_of_pretty_char. apply N.mod_lt. lia.
Qed.

Lemma all_digits_show_N n : all_digits (show_N n) = true.
Proof.
  unfold show_N, pretty, pretty_N. case_decide; [done|]. by apply all_digits_pretty_go.
Qed.

Lemma all_digits_zeros n : all_digits (zeros n) = true.
Proof. by induction n. Qed.

Lemma all_digits_show_padded w n : all_digits (show_padded w n) = true.
Proof. unfold show_padded, all_digits. by rewrite all_bytes_app, all_digits_zeros, all_digits_show_N. Qed.

Lemma digit_value_pretty k : (k < 10)%N → digit_value (pretty_N_char k) = k.
Proof.
  intros Hk. assert (k ∈ [0; 1; 2; 3; 4; 5; 6; 7; 8; 9]%N) as Hin by (rewrite !elem_of_cons; lia).
  repeat (apply elem_of_cons in Hin as [->|Hin]; [reflexivity|]). by apply elem_of_nil in Hin.
Qed.

Lemma digits_value_pretty_go x s : digits_value 0 (pretty_N_go x s) = digits_value x s.
Proof.
  revert s. induction (N.lt_wf_0 x) as [x _ IH]; intros s.
  destruct (decide (x = 0)%N) as [->|Hx]; [by rewrite pretty_N_go_0|].
  rewrite pretty_N_go_step by lia. rewrite IH by (apply N.div_lt; lia). cbn [digits_value].
  rewrite digit_value_pretty by (apply N.mod_lt; lia). f_equal.
  pose proof (N.div_mod' x 10). lia.
Qed.

Lemma digits_value_show n : digits_value 0 (show_N n) = n.
Proof.
  unfold show_N, pretty, pretty_N. case_decide; [by subst|]. apply digits_value_pretty_go.
Qed.

Lemma digits_value_zeros k s : digits_value 0 (zeros k +:+ s) = digits_value 0 s.
Proof.
  induction k as [|k IH]; [done|].
  change (zeros (S k) +:+ s) with (String "0"%char (zeros k +:+ s)). exact IH.
Qed.

Lemma show_N_nonempty n : show_N n ≠ "".
Proof.
  intros Hn. pose proof (digits_value_show n) as Hv. rewrite Hn in Hv. cbn in Hv. subst n. done.
Qed.

Lemma app_nonempty_r s t : t ≠ "" → s +:+ t ≠ "".
Proof. by destruct s. Qed.

Lemma is_empty_false s : s ≠ "" → is_empty s = false.
Proof. intros Hs. by apply String.eqb_neq. Qed.

Lemma no_plus_in_digits s : all_digits s = true → str_strip_prefix "+" s = None.
Proof.
  destruct s as [|a s]; [done|]. intros [Ha _]%andb_true_iff. cbn [str_strip_prefix].
  rewrite decide_False; [done|]. intros <-. done.
Qed.

Lemma parse_uint_digits max s :
  all_digits s = true → s ≠ "" → (digits_value 0 s ≤ max)%N → parse_uint max s = Some (digits_value 0 s).
Proof.
  intros Hd Hne Hmax. unfold parse_uint. rewrite no_plus_in_digits by done. cbn [default].
  unfold default. cbn. rewrite is_empty_false by done. unfold all_digits in Hd. rewrite Hd.
  by rewrite bool_decide_eq_true_2.
Qed.

Lemma parse_uint_show max n : (n ≤ max)%N → parse_uint max (show_N n) = Some n.
Proof.
  intros Hn. rewrite parse_uint_digits; rewrite ?digits_value_show;
    auto using all_digits_show_N, show_N_nonempty.
Qed.

Lemma parse_u64_digits s :
  all_digits s = true → s ≠ "" → (digits_value 0 s ≤ u64_max)%N → parse_u64 s = Some (digits_value 0 s).
Proof. apply parse_uint_digits. Qed.

Lemma parse_u64_show n : (n ≤ u64_max)%N → parse_u64 (show_N n) = Some n.
Proof. apply parse_uint_show. Qed.

Lemma parse_u64_show_padded w n : (n ≤ u64_max)%N → parse_u64 (show_padded w n) = Some n.
Proof.
  intros Hn. rewrite parse_u64_digits.
  - unfold show_padded. by rewrite digits_value_zeros, digits_value_show.
  - apply all_digits_show_padded.
  - apply app_nonempty_r, show_N_nonempty.
  - unfold show_padded. by rewrite digits_value_zeros, digits_value_show.
Qed.

(** ** Trimming *)

Lemma leading_ws_le s : (leading_ws s ≤ String.length s)%nat.
Proof.
  destruct s as [|a [|b [|c s]]]; unfold leading_ws; cbn [String.list_ascii_of_string map String.length];
    repeat case_match; lia.
Qed.

Lemma length_drop_bytes n s : String.length (drop_bytes n s) = (String.length s - n)%nat.
Proof.
  revert s. induction n as [|n IH]; intros s; [cbn; lia|]. destruct s as [|a s]; [done|]. apply IH.
Qed.

Lemma trim_start_fuel_enough f g s :
  (String.length s ≤ f)%nat → (String.length s ≤ g)%nat → trim_start_fuel f s = trim_start_fuel g s.
Proof.
  revert g s. induction f as [|f IH]; intros g s Hf Hg.
  - destruct s; [|cbn in Hf; lia]. by destruct g.
  - destruct g as [|g]; [destruct s; [done|cbn in Hg; lia]|]. cbn [trim_start_fuel].
    destruct (leading_ws s) as [|n] eqn:Hw; [done|]. pose proof (leading_ws_le s).
    apply IH; rewrite length_drop_bytes; lia.
Qed.

(** One step of [trim_start]. *)
Lemma trim_start_step s :
  trim_start s = match leading_ws s with O => s | n => trim_start (drop_bytes n s) end.
Proof.
  unfold trim_start at 1. destruct (String.length s) as [|n] eqn:Hl.
  - destruct s; [done|]. done.
  - cbn [trim_start_fuel]. destruct (leading_ws s) as [|k] eqn:Hw; [done|].
    apply trim_start_fuel_enough; rewrite length_drop_bytes; lia.
Qed.

Lemma leading_ws_space t : t ≠ "" → leading_ws (t +:+ " ") = leading_ws t.
Proof.
  intros Ht. destruct t as [|a [|b [|c t]]]; [done|..|done].
  - change (String a "" +:+ " ") with (String a " "). unfold leading_ws. cbn [String.list_ascii_of_string map].
    change (N_of_ascii " ") with 32%N. case_match; [done|]. by rewrite bool_decide_eq_false_2 by lia.
  - change (String a (String b "") +:+ " ") with (String a (String b " ")).
    unfold leading_ws. cbn [String.list_ascii_of_string map]. change (N_of_ascii " ") with 32%N.
    case_match; [done|]. case_match; [done|]. by rewrite bool_decide_eq_false_2 by lia.
Qed.

Lemma drop_bytes_app n s t : (n ≤ String.length s)%nat → drop_bytes n (s +:+ t) = drop_bytes n s +:+ t.
Proof.
  revert s. induction n as [|n IH]; intros s Hn; [done|]. destruct s as [|a s]; [cbn in Hn; lia|].
  apply IH. cbn in Hn. lia.
Qed.

(** A space after a text is trimmed with what white space it ends in. *)
Lemma trim_start_space t :
  trim_start (t +:+ " ") = if is_empty (trim_start t) then "" else trim_start t +:+ " ".
Proof.
  remember (String.length t) as n eqn:Hn. revert t Hn.
  induction (lt_wf n) as [n _ IH]; intros t ->.
  destruct (decide (t = "")) as [->|Ht]; [done|].
  rewrite (trim_start_step (t +:+ " ")), (trim_start_step t), leading_ws_space by done.
  destruct (leading_ws t) as [|k] eqn:Hw.
  - by rewrite is_empty_false.
  - pose proof (leading_ws_le t). rewrite drop_bytes_app by lia.
    eapply IH; [|done]. rewrite length_drop_bytes. lia.
Qed.

Lemma trim_end_space t : trim_end (t +:+ " ") = trim_end t.
Proof.
  induction t as [|a t IH]; [done|]. change (String a t +:+ " ") with (String a (t +:+ " ")).
  cbn [trim_end]. change (String a (t +:+ " ")) with (String a t +:+ " ").
  rewrite trim_start_space, IH. by destruct (trim_start (String a t)).
Qed.

Lemma trim_space t : trim (t +:+ " ") = trim t.
Proof.
  unfold trim. rewrite trim_start_space. destruct (is_empty (trim_start t)) eqn:He.
  - apply is_empty_spec in He. by rewrite He.
  - apply trim_end_space.
Qed.
