(* ===== verification/Hostlist.v ===== *)
(** * Slurm hostlists

    [src/integrations/slurm/hostlist.rs]: expanding [rack[1-2]node[01-04,07]]
    into node names.  The recursion of [expand_element] is on the number of
    opening brackets left, which is the fuel it is given. *)

From S2P Require Export Text.

Local Open Scope string_scope.

(** ** The code *)

Definition open_bracket : ascii := "["%char.
Definition close_bracket : ascii := "]"%char.
Definition hyphen : ascii := "-"%char.
Definition comma_char : ascii := ","%char.

Definition push_char (s : string) (a : ascii) : string := s +:+ String a "".

(** [if !current.trim().is_empty() { parts.push(current.trim().to_string()); }]. *)
Definition flush_part (parts : list string) (current : string) : list string :=
  if is_empty (trim current) then parts else (parts ++ [trim current])%list.

(** The loop of [split_top_level] over the characters. *)
Fixpoint split_loop (s : string) (parts : list string) (current : string) (depth : nat) : list string :=
  match s with
  | EmptyString => flush_part parts current
  | String a s' =>
      if decide (a = open_bracket) then split_loop s' parts (push_char current a) (S depth)
      else if decide (a = close_bracket) then split_loop s' parts (push_char current a) (pred depth)
      else if decide (a = comma_char ∧ depth = 0%nat) then split_loop s' (flush_part parts current) "" depth
      else split_loop s' parts (push_char current a) depth
  end.

(** [split_top_level]. *)
Definition split_top_level (input : string) : list string := split_loop input [] "" 0.

(** [start..=end]. *)
Definition inclusive (lo hi : N) : list N :=
  map (λ k, lo + N.of_nat k)%N (seq 0 (N.to_nat (hi + 1 - lo))).

Definition MAX_SPAN : N := 100000.

(** [expand_range]. *)
Definition expand_range (range : string) : option (list string) :=
  match split_once "-" range with
  | Some (start, end_) =>
      let start := trim start in
      let end_ := trim end_ in
      if is_empty start || is_empty end_ || negb (all_digits start) then None
      else if negb (all_digits end_) then None
      else
        lo ← parse_u64 start;
        hi ← parse_u64 end_;
        if (hi <? lo)%N then None
        else if (MAX_SPAN <? hi - lo)%N then None
        else Some (map (show_padded (String.length start)) (inclusive lo hi))
  | None => if negb (is_empty range) && all_digits range then Some [range] else None
  end.

(** The loop over [ranges.split(',')]: any range not understood spoils all. *)
Definition expand_ranges (ranges : string) : option (list string) :=
  mjoin <$> mapM (λ r, expand_range (trim r)) (split_char comma_char ranges).

(** What [expand_element] finds: the text before the first group, the names of
    the group and the text after it; [None] keeps the element as it is. *)
Definition first_group (element : string) : option (string * list string * string) :=
  '(prefix, rest) ← split_once "[" element;
  '(ranges, suffix) ← split_once "]" rest;
  middles ← expand_ranges ranges;
  Some (prefix, middles, suffix).

(** [expand_element]. *)
Fixpoint expand_element_fuel (fuel : nat) (element : string) : list string :=
  match first_group element with
  | None => [element]
  | Some (prefix, middles, suffix) =>
      match fuel with
      | O => [element]
      | S f => middles ≫= λ m, expand_element_fuel f (prefix +:+ m +:+ suffix)
      end
  end.

Fixpoint count_char (c : ascii) (s : string) : nat :=
  match s with
  | EmptyString => 0
  | String a s' => (if decide (a = c) then 1 else 0) + count_char c s'
  end.

Definition expand_element (element : string) : list string :=
  expand_element_fuel (count_char open_bracket element) element.

(** [expand]. *)
Definition expand (hostlist : string) : list string :=
  let hostlist := trim hostlist in
  if is_empty hostlist || String.eqb hostlist "(null)" then []
  else split_top_level hostlist ≫= expand_element.

(** ** Strings *)

Lemma count_char_app c s t : count_char c (s +:+ t) = (count_char c s + count_char c t)%nat.
Proof.
  induction s as [|a s IH]; [done|]. change (String a s +:+ t) with (String a (s +:+ t)).
  cbn [count_char]. rewrite IH. lia.
Qed.

(** A byte the class excludes does not occur. *)
Lemma count_char_excluded c p s : p c = false → all_bytes p s = true → count_char c s = 0%nat.
Proof.
  intros Hc. induction s as [|a s IH]; cbn [all_bytes count_char]; [done|].
  intros [Ha Hs]%andb_true_iff. rewrite decide_False by congruence. by apply IH.
Qed.

Lemma split_once_char_Some c s l r :
  split_once (String c "") s = Some (l, r) → s = l +:+ String c r ∧ count_char c l = 0%nat.
Proof.
  revert l r. induction s as [|a s IH]; intros l r; cbn [split_once str_strip_prefix]; [done|].
  destruct (decide (c = a)) as [->|Hne].
  - intros [= <- <-]. done.
  - destruct (split_once (String c "") s) as [[l' r']|] eqn:Hs; cbn; [|done].
    intros [= <- <-]. destruct (IH _ _ eq_refl) as [-> Hl]. split; [done|].
    cbn [count_char]. by rewrite decide_False.
Qed.

Lemma split_once_char c l r :
  count_char c l = 0%nat → split_once (String c "") (l +:+ String c r) = Some (l, r).
Proof.
  induction l as [|a l IH]; intros Hl.
  - change ("" +:+ String c r) with (String c r). cbn. by rewrite decide_True.
  - change (String a l +:+ String c r) with (String a (l +:+ String c r)).
    cbn [count_char] in Hl. destruct (decide (a = c)) as [->|Hne]; [done|].
    cbn [split_once str_strip_prefix]. rewrite decide_False by done. by rewrite IH.
Qed.

Lemma split_once_char_None c s : count_char c s = 0%nat → split_once (String c "") s = None.
Proof.
  induction s as [|a s IH]; cbn [count_char split_once str_strip_prefix]; [done|].
  intros Hs. destruct (decide (a = c)) as [->|Hne]; [done|]. rewrite decide_False by done.
  rewrite IH by lia. done.
Qed.

(** ** Digits *)

Lemma no_bracket_in_digits s c :
  is_ascii_digit c = false → all_digits s = true → count_char c s = 0%nat.
Proof. intros Hc. by apply count_char_excluded. Qed.

(** Everything a range expands to is a run of digits, and it expands to
    something. *)
Lemma expand_range_digits r l : expand_range r = Some l → Forall (λ m, all_digits m = true) l ∧ l ≠ [].
Proof.
  unfold expand_range. destruct (split_once "-" r) as [[start end_]|].
  - cbn zeta. do 2 (destruct (_ : bool); [done|]).
    destruct (parse_u64 (trim start)) as [lo|]; cbn; [|done].
    destruct (parse_u64 (trim end_)) as [hi|]; cbn; [|done].
    destruct (N.ltb_spec hi lo); [done|]. destruct (_ <? _)%N; [done|]. intros [= <-]. split.
    + apply Forall_forall. intros m (n & -> & _)%list_elem_of_fmap. apply all_digits_show_padded.
    + unfold inclusive. destruct (N.to_nat (hi + 1 - lo)) eqn:Hn; [lia|done].
  - destruct (negb (is_empty r) && all_digits r)%bool eqn:Hr; [|done]. intros [= <-].
    apply andb_true_iff in Hr as [_ Hr]. split; [by apply Forall_singleton|done].
Qed.

Lemma expand_ranges_digits rs l : expand_ranges rs = Some l → Forall (λ m, all_digits m = true) l ∧ l ≠ [].
Proof.
  unfold expand_ranges. intros Hl. split.
  - apply (Forall_mjoin_mapM _ _ _ _ Hl). intros r m _ Hm. by apply expand_range_digits in Hm as [? _].
  - destruct (split_char comma_char rs) as [|r rest] eqn:Hs; [by apply split_char_nonempty in Hs|].
    cbn in Hl. destruct (expand_range (trim r)) as [m|] eqn:Hm; cbn in Hl; [|done].
    destruct (mapM _ rest) as [ms|]; cbn in Hl; [|done]. injection Hl as <-.
    apply expand_range_digits in Hm as [_ Hm]. by destruct m.
Qed.

(** ** The recursion *)

(** Each step spends one opening bracket. *)
Lemma first_group_fewer e prefix middles suffix m :
  first_group e = Some (prefix, middles, suffix) → m ∈ middles →
  (count_char open_bracket (prefix +:+ m +:+ suffix) < count_char open_bracket e)%nat.
Proof.
  unfold first_group. destruct (split_once "[" e) as [[p rest]|] eqn:Ho; cbn; [|done].
  destruct (split_once "]" rest) as [[ranges s]|] eqn:Hc; cbn; [|done].
  destruct (expand_ranges ranges) as [ms|] eqn:Hr; cbn; [|done]. intros [= <- <- <-] Hm.
  apply split_once_char_Some in Ho as [-> _], Hc as [-> _].
  apply expand_ranges_digits in Hr as [Hd _]. rewrite Forall_forall in Hd.
  rewrite !count_char_app, (no_bracket_in_digits m open_bracket eq_refl (Hd _ Hm)).
  cbn [count_char]. rewrite !count_char_app. cbn [count_char].
  rewrite (decide_True (P := "["%char = open_bracket)) by done. lia.
Qed.

Lemma bind_ext_elem {A B} (f g : A → list B) l : (∀ x, x ∈ l → f x = g x) → l ≫= f = l ≫= g.
Proof.
  induction l as [|x l IH]; intros Hfg; cbn; [done|].
  rewrite (Hfg x) by set_solver. f_equal. apply IH. intros y Hy. apply Hfg. set_solver.
Qed.

(** A group that is understood has at least one name. *)
Lemma first_group_nonempty e prefix middles suffix :
  first_group e = Some (prefix, middles, suffix) → middles ≠ [].
Proof.
  unfold first_group. destruct (split_once "[" e) as [[p rest]|]; cbn; [|done].
  destruct (split_once "]" rest) as [[ranges s]|]; cbn; [|done].
  destruct (expand_ranges ranges) as [ms|] eqn:Hr; cbn; [|done].
  intros [= <- <- <-]. by apply expand_ranges_digits in Hr as [_ Hr].
Qed.

Lemma first_group_spends e prefix middles suffix :
  first_group e = Some (prefix, middles, suffix) → (0 < count_char open_bracket e)%nat.
Proof.
  intros Hg. pose proof (first_group_nonempty _ _ _ _ Hg) as Hne. destruct middles as [|m ms]; [done|].
  pose proof (first_group_fewer _ _ _ _ m Hg ltac:(set_solver)). lia.
Qed.

Lemma expand_element_fuel_irrel f g e :
  (count_char open_bracket e ≤ f)%nat → (count_char open_bracket e ≤ g)%nat →
  expand_element_fuel f e = expand_element_fuel g e.
Proof.
  revert g e. induction f as [|f IH]; intros g e Hf Hg;
    destruct (first_group e) as [[[p ms] s]|] eqn:He.
  1, 3: pose proof (first_group_spends _ _ _ _ He); destruct g as [|g]; [lia|].
  - lia.
  - cbn [expand_element_fuel]. rewrite He. apply bind_ext_elem. intros m Hm.
    pose proof (first_group_fewer _ _ _ _ _ He Hm). apply IH; lia.
  - by destruct g; cbn [expand_element_fuel]; rewrite He.
  - by destruct g; cbn [expand_element_fuel]; rewrite He.
Qed.

Lemma expand_element_eq e :
  expand_element e =
    match first_group e with
    | None => [e]
    | Some (p, ms, s) => ms ≫= λ m, expand_element (p +:+ m +:+ s)
    end.
Proof.
  unfold expand_element. destruct (first_group e) as [[[p ms] s]|] eqn:He.
  - pose proof (first_group_spends _ _ _ _ He).
    destruct (count_char open_bracket e) as [|k] eqn:Hk; [lia|].
    cbn [expand_element_fuel]. rewrite He. apply bind_ext_elem. intros m Hm.
    pose proof (first_group_fewer _ _ _ _ _ He Hm). apply expand_element_fuel_irrel; lia.
  - by destruct (count_char open_bracket e); cbn [expand_element_fuel]; rewrite He.
Qed.

(** ** What a hostlist means

    A hostlist in the form Slurm writes: elements that are a literal followed
    by groups, each with the literal after it; a group is single numbers and
    spans, kept with the zeros they are written with. *)

Inductive range :=
  | One (digits : string)
  | Span (width : nat) (lo hi : N).

Record element := mk_element {
  literal : string;
  groups : list (list range * string);
}.

Definition print_range (r : range) : string :=
  match r with
  | One d => d
  | Span w lo hi => show_padded w lo +:+ "-" +:+ show_N hi
  end.

Definition print_ranges (rs : list range) : string := str_join "," (map print_range rs).

Fixpoint print_groups (gs : list (list range * string)) : string :=
  match gs with
  | [] => ""
  | (rs, s) :: gs' => "[" +:+ print_ranges rs +:+ "]" +:+ s +:+ print_groups gs'
  end.

Definition print_element (e : element) : string := literal e +:+ print_groups (groups e).
Definition print_hostlist (es : list element) : string := str_join "," (map print_element es).

(** The numbers of a range, padded to the width of the left one. *)
Definition range_names (r : range) : list string :=
  match r with
  | One d => [d]
  | Span w lo hi => map (show_padded (String.length (show_padded w lo))) (inclusive lo hi)
  end.

(** The names of an element: every choice of one number per group, the first
    group slowest. *)
Fixpoint product (prefix : string) (gs : list (list range * string)) : list string :=
  match gs with
  | [] => [prefix]
  | (rs, s) :: gs' => (rs ≫= range_names) ≫= λ m, product (prefix +:+ m +:+ s) gs'
  end.

Definition element_names (e : element) : list string := product (literal e) (groups e).

(** The bytes of a host name: letters, digits, hyphen, dot, underscore. *)
Definition name_byte (a : ascii) : bool :=
  is_ascii_alphanumeric a || bool_decide (a ∈ ["-"; "."; "_"]%char).

Definition range_wf (r : range) : bool :=
  match r with
  | One d => negb (is_empty d) && all_digits d
  | Span _ lo hi => (lo <=? hi)%N && (hi - lo <=? MAX_SPAN)%N && (hi <=? u64_max)%N
  end.

Definition group_wf (g : list range * string) : bool :=
  negb (bool_decide (g.1 = [])) && forallb range_wf g.1 && all_bytes name_byte g.2.

Definition element_wf (e : element) : bool :=
  all_bytes name_byte (literal e) && forallb group_wf (groups e)
  && negb (is_empty (print_element e)).

(** ** Printable text is what it trims to *)

Definition graphic (a : ascii) : bool := byte_in 33 126 a.

Lemma byte_in_spec lo hi a : byte_in lo hi a = true ↔ (lo ≤ N_of_ascii a ≤ hi)%N.
Proof. unfold byte_in. by rewrite andb_true_iff, !bool_decide_eq_true. Qed.

Lemma digit_graphic a : is_ascii_digit a = true → graphic a = true.
Proof. unfold is_ascii_digit, graphic. rewrite !byte_in_spec. lia. Qed.

Lemma name_byte_graphic a : name_byte a = true → graphic a = true.
Proof.
  unfold name_byte, is_ascii_alphanumeric, is_ascii_alphabetic, is_ascii_uppercase,
    is_ascii_lowercase, is_ascii_digit, graphic.
  rewrite !orb_true_iff, !byte_in_spec, bool_decide_eq_true, !elem_of_cons, elem_of_nil.
  intros [[[?|?]|?]|[->|[->|[->|[]]]]]; try lia; by vm_compute.
Qed.

Lemma digit_name_byte a : is_ascii_digit a = true → name_byte a = true.
Proof. unfold name_byte, is_ascii_alphanumeric. intros ->. by rewrite orb_true_r. Qed.

Lemma leading_ws_graphic a s : graphic a = true → leading_ws (String a s) = 0%nat.
Proof.
  unfold graphic. rewrite byte_in_spec. intros Ha. unfold leading_ws. cbn [String.list_ascii_of_string].
  set (n := N_of_ascii a) in *. clearbody n.
  rewrite !bool_decide_eq_false_2 by lia. cbn [orb].
  destruct (map N_of_ascii _) as [|b [|c l]]; [done|..]; rewrite bool_decide_eq_false_2 by lia; [done|].
  by rewrite bool_decide_eq_false_2 by lia.
Qed.

Lemma trim_start_graphic a s : graphic a = true → trim_start (String a s) = String a s.
Proof. intros Ha. unfold trim_start. cbn [String.length trim_start_fuel]. by rewrite leading_ws_graphic. Qed.

Lemma trim_graphic s : all_bytes graphic s = true → trim s = s.
Proof.
  intros Hs. unfold trim.
  assert (trim_start s = s) as ->.
  { destruct s as [|a s]; [done|]. apply trim_start_graphic. by apply andb_true_iff in Hs as [? _]. }
  induction s as [|a s IH]; [done|]. apply andb_true_iff in Hs as [Ha Hs].
  cbn [trim_end]. rewrite trim_start_graphic by done. cbn. by rewrite IH.
Qed.

(** ** Ranges *)

Lemma digits_graphic s : all_digits s = true → all_bytes graphic s = true.
Proof. apply all_bytes_impl, digit_graphic. Qed.

Lemma print_range_graphic r : range_wf r = true → all_bytes graphic (print_range r) = true.
Proof.
  destruct r as [d|w lo hi]; cbn [range_wf print_range].
  - intros [_ Hd]%andb_true_iff. by apply digits_graphic.
  - intros _. rewrite !all_bytes_app, (digits_graphic (show_padded _ _)) by apply all_digits_show_padded.
    by rewrite (digits_graphic (show_N _)) by apply all_digits_show_N.
Qed.

Lemma expand_range_print r : range_wf r = true → expand_range (print_range r) = Some (range_names r).
Proof.
  destruct r as [d|w lo hi]; cbn [range_wf print_range range_names].
  - intros Hd. unfold expand_range.
    rewrite split_once_char_None; [by rewrite Hd|].
    apply andb_true_iff in Hd as [_ Hd]. by apply no_bracket_in_digits.
  - rewrite !andb_true_iff, !N.leb_le. intros [[Hle Hspan] Hmax]. unfold expand_range.
    change (show_padded w lo +:+ "-" +:+ show_N hi) with (show_padded w lo +:+ String "-" (show_N hi)).
    rewrite split_once_char by (apply no_bracket_in_digits; [done|apply all_digits_show_padded]). cbn zeta.
    rewrite !trim_graphic by auto using digits_graphic, all_digits_show_N, all_digits_show_padded.
    rewrite all_digits_show_padded, all_digits_show_N.
    rewrite (is_empty_false (show_padded w lo)) by (apply app_nonempty_r, show_N_nonempty).
    rewrite (is_empty_false (show_N hi)) by apply show_N_nonempty. cbn [orb negb].
    rewrite parse_u64_show_padded, parse_u64_show by lia. cbn.
    destruct (N.ltb_spec hi lo); [lia|]. destruct (N.ltb_spec MAX_SPAN (hi - lo)); [lia|done].
Qed.

Lemma split_char_free c s : count_char c s = 0%nat → split_char c s = [s].
Proof.
  induction s as [|a s IH]; cbn [count_char split_char]; [done|].
  destruct (decide (a = c)); [done|]. intros Hs. by rewrite IH.
Qed.

Lemma count_char_join c sep l :
  Forall (λ s, count_char c s = 0%nat) l → count_char c sep = 0%nat → count_char c (str_join sep l) = 0%nat.
Proof.
  intros Hl Hsep. induction Hl as [|x l Hx Hl IH]; [done|].
  destruct l as [|y l]; [done|]. rewrite str_join_cons by done. rewrite !count_char_app. lia.
Qed.

(** A range holds digits and hyphens only. *)
Lemma print_range_free c r :
  is_ascii_digit c = false → c ≠ "-"%char → range_wf r = true → count_char c (print_range r) = 0%nat.
Proof.
  intros Hc Hh. destruct r as [d|w lo hi]; cbn [range_wf print_range].
  - intros [_ Hd]%andb_true_iff. by apply no_bracket_in_digits.
  - intros _. rewrite !count_char_app, (no_bracket_in_digits (show_padded _ _) c Hc) by apply all_digits_show_padded.
    rewrite (no_bracket_in_digits (show_N _) c Hc) by apply all_digits_show_N.
    cbn [count_char]. by rewrite decide_False by congruence.
Qed.

Lemma print_ranges_free c rs :
  is_ascii_digit c = false → c ∉ ["-"; ","]%char → forallb range_wf rs = true →
  count_char c (print_ranges rs) = 0%nat.
Proof.
  intros Hc Hin Hrs. unfold print_ranges. rewrite !not_elem_of_cons in Hin. apply count_char_join.
  - apply Forall_map, Forall_forall. intros r Hr. apply print_range_free; [done|tauto|].
    rewrite forallb_forall in Hrs. by apply Hrs, list_elem_of_In.
  - cbn [count_char]. destruct (decide (","%char = c)) as [<-|]; [tauto|done].
Qed.

Lemma expand_ranges_print rs :
  rs ≠ [] → forallb range_wf rs = true → expand_ranges (print_ranges rs) = Some (rs ≫= range_names).
Proof.
  intros Hne Hrs. unfold expand_ranges, print_ranges. rewrite forallb_forall in Hrs.
  rewrite split_char_join.
  - assert (mapM (λ r, expand_range (trim r)) (map print_range rs) = Some (map range_names rs)) as ->.
    { clear Hne. induction rs as [|r rs IH]; [done|]. cbn [map mapM].
      rewrite trim_graphic by (apply print_range_graphic, Hrs; by left).
      rewrite expand_range_print by (apply Hrs; by left). cbn.
      by rewrite IH by (intros ? ?; apply Hrs; by right). }
    cbn. f_equal. clear. induction rs as [|r rs IH]; [done|]. cbn. by rewrite <- IH.
  - by destruct rs.
  - apply Forall_map, Forall_forall. intros r Hr. apply split_char_free, print_range_free; [done|done|].
    by apply Hrs, list_elem_of_In.
Qed.

(** ** Elements *)

Lemma name_bytes_free c s : name_byte c = false → all_bytes name_byte s = true → count_char c s = 0%nat.
Proof. apply count_char_excluded. Qed.

Lemma range_names_digits r m : range_wf r = true → m ∈ range_names r → all_digits m = true.
Proof.
  intros Hr Hm. apply expand_range_print in Hr. apply expand_range_digits in Hr as [Hd _].
  rewrite Forall_forall in Hd. by apply Hd.
Qed.

Lemma group_names_digits rs m :
  forallb range_wf rs = true → m ∈ rs ≫= range_names → all_digits m = true.
Proof.
  rewrite forallb_forall. intros Hrs (r & Hm & Hr)%list_elem_of_bind.
  apply (range_names_digits r); [|done]. by apply Hrs, list_elem_of_In.
Qed.

Lemma first_group_print p rs s gs :
  all_bytes name_byte p = true → group_wf (rs, s) = true →
  first_group (p +:+ print_groups ((rs, s) :: gs)) = Some (p, rs ≫= range_names, s +:+ print_groups gs).
Proof.
  intros Hp [[Hne Hrs]%andb_true_iff Hs]%andb_true_iff. cbn [fst snd] in *.
  unfold first_group. cbn [print_groups].
  change ("[" +:+ ?x) with (String "["%char x).
  rewrite split_once_char by (by apply name_bytes_free). cbn.
  change ("]" +:+ ?x) with (String "]"%char x).
  rewrite split_once_char by (apply print_ranges_free; set_solver). cbn.
  rewrite expand_ranges_print; [done| |done].
  apply negb_true_iff, bool_decide_eq_false in Hne. done.
Qed.

Lemma expand_element_plain p : all_bytes name_byte p = true → expand_element p = [p].
Proof.
  intros Hp. rewrite expand_element_eq. unfold first_group.
  by rewrite split_once_char_None by (by apply name_bytes_free).
Qed.

Lemma expand_element_product p gs :
  all_bytes name_byte p = true → forallb group_wf gs = true →
  expand_element (p +:+ print_groups gs) = product p gs.
Proof.
  revert p. induction gs as [|[rs s] gs IH]; intros p Hp Hgs.
  - cbn [print_groups product]. rewrite string_app_nil_r. by apply expand_element_plain.
  - cbn [forallb] in Hgs. apply andb_true_iff in Hgs as [Hg Hgs].
    rewrite expand_element_eq, first_group_print by done. cbn [product].
    apply bind_ext_elem. intros m Hm.
    apply andb_true_iff in Hg as [[_ Hrs]%andb_true_iff Hs]. cbn [fst snd] in *.
    rewrite !string_app_assoc. rewrite <- (string_app_assoc p m s). apply IH; [|done].
    rewrite !all_bytes_app, Hp, Hs.
    by rewrite (all_bytes_impl _ _ m digit_name_byte (group_names_digits rs m Hrs Hm)).
Qed.

(** ** Splitting a list of elements *)

Lemma push_char_app cur a s : push_char cur a +:+ s = cur +:+ String a s.
Proof. unfold push_char. by rewrite <- string_app_assoc. Qed.

(** Text without brackets or commas is taken up as it is. *)
Lemma split_loop_text s rest parts cur d :
  Forall (λ c, count_char c s = 0%nat) [open_bracket; close_bracket; comma_char] →
  split_loop (s +:+ rest) parts cur d = split_loop rest parts (cur +:+ s) d.
Proof.
  rewrite !Forall_cons. intros (Ho & Hc & Hk & _). revert cur.
  induction s as [|a s IH]; intros cur; [by rewrite string_app_nil_r|].
  cbn [count_char] in *. change (String a s +:+ rest) with (String a (s +:+ rest)). cbn [split_loop].
  destruct (decide (a = open_bracket)); [lia|]. destruct (decide (a = close_bracket)); [lia|].
  destruct (decide (a = comma_char)); [lia|]. rewrite decide_False by tauto.
  rewrite IH by lia. by rewrite push_char_app.
Qed.

(** Inside brackets commas are taken up too. *)
Lemma split_loop_inside s rest parts cur d :
  Forall (λ c, count_char c s = 0%nat) [open_bracket; close_bracket] →
  split_loop (s +:+ rest) parts cur (S d) = split_loop rest parts (cur +:+ s) (S d).
Proof.
  rewrite !Forall_cons. intros (Ho & Hc & _). revert cur.
  induction s as [|a s IH]; intros cur; [by rewrite string_app_nil_r|].
  cbn [count_char] in *. change (String a s +:+ rest) with (String a (s +:+ rest)). cbn [split_loop].
  destruct (decide (a = open_bracket)); [lia|]. destruct (decide (a = close_bracket)); [lia|].
  rewrite decide_False by lia. rewrite IH by lia. by rewrite push_char_app.
Qed.

Lemma name_bytes_text s :
  all_bytes name_byte s = true →
  Forall (λ c, count_char c s = 0%nat) [open_bracket; close_bracket; comma_char].
Proof. intros Hs. repeat constructor; by apply name_bytes_free. Qed.

Lemma split_loop_groups gs rest parts cur :
  forallb group_wf gs = true →
  split_loop (print_groups gs +:+ rest) parts cur 0 = split_loop rest parts (cur +:+ print_groups gs) 0.
Proof.
  revert cur. induction gs as [|[rs s] gs IH]; intros cur Hgs; [by rewrite string_app_nil_r|].
  cbn [forallb] in Hgs. apply andb_true_iff in Hgs as [[[_ Hrs]%andb_true_iff Hs]%andb_true_iff Hgs].
  cbn [fst snd print_groups] in *. rewrite <- !string_app_assoc.
  change ("[" +:+ ?x) with (String open_bracket x). change ("]" +:+ ?x) with (String close_bracket x).
  cbn [split_loop]. rewrite decide_True by done.
  rewrite split_loop_inside by (repeat constructor; apply print_ranges_free; set_solver).
  cbn [split_loop]. rewrite (decide_False (P := close_bracket = open_bracket)), decide_True by done.
  cbn [pred]. rewrite split_loop_text by (by apply name_bytes_text). rewrite IH by done. f_equal.
  unfold push_char. rewrite <- !string_app_assoc. done.
Qed.

Lemma split_loop_element e rest parts :
  element_wf e = true →
  split_loop (print_element e +:+ rest) parts "" 0 = split_loop rest parts (print_element e) 0.
Proof.
  intros [[Hl Hgs]%andb_true_iff _]%andb_true_iff. unfold print_element.
  rewrite <- string_app_assoc, split_loop_text by (by apply name_bytes_text).
  by rewrite split_loop_groups.
Qed.

Lemma name_bytes_graphic s : all_bytes name_byte s = true → all_bytes graphic s = true.
Proof. apply all_bytes_impl, name_byte_graphic. Qed.

Lemma all_bytes_join p sep l :
  Forall (λ s, all_bytes p s = true) l → all_bytes p sep = true → all_bytes p (str_join sep l) = true.
Proof.
  intros Hl Hsep. induction Hl as [|x l Hx Hl IH]; [done|].
  destruct l as [|y l]; [done|]. rewrite str_join_cons by done. by rewrite !all_bytes_app, Hx, Hsep.
Qed.

Lemma print_groups_graphic gs : forallb group_wf gs = true → all_bytes graphic (print_groups gs) = true.
Proof.
  induction gs as [|[rs s] gs IH]; [done|].
  intros [[[_ Hrs]%andb_true_iff Hs]%andb_true_iff Hgs]%andb_true_iff. cbn [fst snd print_groups] in *.
  rewrite !all_bytes_app, IH, (name_bytes_graphic s) by done. unfold print_ranges.
  rewrite all_bytes_join; [done| |done]. apply Forall_map, Forall_forall. intros r Hr.
  apply print_range_graphic. rewrite forallb_forall in Hrs. by apply Hrs, list_elem_of_In.
Qed.

Lemma print_element_graphic e : element_wf e = true → all_bytes graphic (print_element e) = true.
Proof.
  intros [[Hl Hgs]%andb_true_iff _]%andb_true_iff. unfold print_element.
  by rewrite all_bytes_app, name_bytes_graphic, print_groups_graphic.
Qed.

Lemma flush_element parts e :
  element_wf e = true → flush_part parts (print_element e) = (parts ++ [print_element e])%list.
Proof.
  intros He. unfold flush_part. rewrite trim_graphic by (by apply print_element_graphic).
  apply andb_true_iff in He as [_ He]. by apply negb_true_iff in He as ->.
Qed.

Lemma split_top_level_print es :
  es ≠ [] → forallb element_wf es = true → split_top_level (print_hostlist es) = map print_element es.
Proof.
  unfold split_top_level, print_hostlist. intros Hne Hes.
  enough (∀ parts, split_loop (str_join "," (map print_element es)) parts "" 0
                   = (parts ++ map print_element es)%list) as -> by done.
  induction es as [|e es IH]; [done|]. cbn [forallb] in Hes. apply andb_true_iff in Hes as [He Hes].
  intros parts. destruct es as [|e' es].
  - cbn [map str_join]. rewrite <- (string_app_nil_r (print_element e)) at 1.
    rewrite split_loop_element by done. cbn [split_loop]. by rewrite flush_element.
  - cbn [map]. rewrite str_join_cons by done. rewrite split_loop_element by done.
    change ("," +:+ ?x) with (String comma_char x). cbn [split_loop].
    rewrite decide_False by done. rewrite decide_False by done. rewrite decide_True by done.
    rewrite flush_element by done. cbn [map] in IH. rewrite IH by done. by rewrite <- app_assoc.
Qed.

Lemma print_hostlist_trim es : forallb element_wf es = true → trim (print_hostlist es) = print_hostlist es.
Proof.
  intros Hes. apply trim_graphic, all_bytes_join; [|done]. apply Forall_map, Forall_forall.
  intros e He. apply print_element_graphic. rewrite forallb_forall in Hes. by apply Hes, list_elem_of_In.
Qed.

(** A printed list is neither empty nor Slurm's [(null)]. *)
Lemma print_hostlist_head es :
  es ≠ [] → forallb element_wf es = true →
  ∃ a s, print_hostlist es = String a s ∧ (name_byte a || bool_decide (a = open_bracket)) = true.
Proof.
  destruct es as [|e es]; [done|]. intros _ [He _]%andb_true_iff.
  assert (∃ a s, print_element e = String a s ∧ (name_byte a || bool_decide (a = open_bracket)) = true)
    as (a & s & Hs & Ha).
  { apply andb_true_iff in He as [[Hl _]%andb_true_iff Hne]. revert Hne. unfold print_element.
    destruct (literal e) as [|a s].
    - destruct (groups e) as [|[rs t] gs]; [done|]. intros _. exists open_bracket. by eexists.
    - intros _. apply andb_true_iff in Hl as [Ha _]. exists a. eexists. split; [done|]. by rewrite Ha. }
  unfold print_hostlist. destruct es as [|e' es]; cbn [map]; [by exists a, s|].
  rewrite str_join_cons by done. rewrite Hs. exists a. by eexists.
Qed.

Lemma expand_product es :
  forallb element_wf es = true → expand (print_hostlist es) = es ≫= element_names.
Proof.
  intros Hes. destruct (decide (es = [])) as [->|Hne]; [done|].
  unfold expand. rewrite print_hostlist_trim by done.
  destruct (print_hostlist_head es Hne Hes) as (a & s & Hs & Ha).
  assert ((is_empty (print_hostlist es) || String.eqb (print_hostlist es) "(null)")%bool = false) as ->.
  { rewrite Hs. cbn. destruct (Ascii.eqb_spec a "("%char) as [->|]; [done|done]. }
  rewrite split_top_level_print by done. clear Hne Hs.
  induction es as [|e es IH]; [done|]. apply andb_true_iff in Hes as [He Hes]. cbn [map mbind list_bind].
  rewrite (IH Hes). f_equal. apply andb_true_iff in He as [[Hl Hgs]%andb_true_iff _].
  by apply expand_element_product.
Qed.

(** *** How many names *)

Lemma bind_length_const {A B} (f : A → list B) (l : list A) n :
  (∀ x, x ∈ l → N.of_nat (length (f x)) = n) → N.of_nat (length (l ≫= f)) = (N.of_nat (length l) * n)%N.
Proof.
  intros Hn. induction l as [|x l IH]; [done|]. cbn [mbind list_bind]. rewrite length_app, Nat2N.inj_add.
  rewrite (Hn x) by (by left). rewrite IH by (intros; apply Hn; by right). cbn [length]. lia.
Qed.

(** One number per group, whatever the other groups choose. *)
Lemma product_length p gs :
  N.of_nat (length (product p gs))
  = foldr (λ g acc, N.of_nat (length (g.1 ≫= range_names)) * acc)%N 1%N gs.
Proof.
  revert p. induction gs as [|[rs s] gs IH]; intros p; [done|]. cbn [product foldr fst].
  apply bind_length_const. intros m _. apply IH.
Qed.

Lemma inclusive_length lo hi : N.of_nat (length (inclusive lo hi)) = (hi + 1 - lo)%N.
Proof. unfold inclusive. rewrite length_map, length_seq. lia. Qed.

Lemma expand_range_length r l : expand_range r = Some l → (N.of_nat (length l) ≤ MAX_SPAN + 1)%N.
Proof.
  unfold expand_range. destruct (split_once "-" r) as [[start end_]|].
  - cbn zeta. do 2 (destruct (_ : bool); [done|]).
    destruct (parse_u64 (trim start)) as [lo|]; cbn; [|done].
    destruct (parse_u64 (trim end_)) as [hi|]; cbn; [|done].
    destruct (N.ltb_spec hi lo); [done|]. destruct (N.ltb_spec MAX_SPAN (hi - lo)); [done|].
    intros [= <-]. rewrite length_map, inclusive_length. lia.
  - destruct (_ && _)%bool; [|done]. intros [= <-]. done.
Qed.

(** The list of the guard's own comment, twice in one name. *)
Definition wide_group (s : string) : list range * string := ([Span 1 0 99999], s).
Definition two_wide_groups : list element := [mk_element "r" [wide_group "n"; wide_group ""]].

Lemma wide_group_length s : N.of_nat (length ((wide_group s).1 ≫= range_names)) = 100000%N.
Proof.
  cbn [wide_group fst mbind list_bind range_names]. rewrite app_nil_r, length_map, inclusive_length. done.
Qed.

Lemma expand_element_nonempty k e : (count_char open_bracket e ≤ k)%nat → expand_element e ≠ [].
Proof.
  revert e. induction k as [|k IH]; intros e Hk; rewrite expand_element_eq;
    destruct (first_group e) as [[[p ms] s]|] eqn:Hg; [..|done].
  - apply first_group_spends in Hg. lia.
  - done.
  - pose proof (first_group_nonempty _ _ _ _ Hg). destruct ms as [|m ms]; [done|].
    pose proof (first_group_fewer _ _ _ _ m Hg ltac:(by left)).
    cbn [mbind list_bind]. intros [Hnil _]%app_eq_nil. by apply (IH (p +:+ m +:+ s)) in Hnil; [|lia].
Qed.

(** ** Properties *)

(** Expanding an element always ends, and does what the source's
    recursion says: an element without an understood first group is kept as it
    is, the others are replaced once per number of the group and expanded
    again; and every element yields at least one name, so no node is lost. *)
Theorem expand_element_terminates e fuel :
  (count_char open_bracket e ≤ fuel)%nat →
  expand_element_fuel fuel e =
    match first_group e with
    | None => [e]
    | Some (p, ms, s) => ms ≫= λ m, expand_element (p +:+ m +:+ s)
    end
  ∧ expand_element_fuel fuel e ≠ [].
Proof.
  intros Hf. rewrite (expand_element_fuel_irrel fuel _ e Hf (Nat.le_refl _)).
  split; [apply expand_element_eq|]. by apply (expand_element_nonempty (count_char open_bracket e)).
Qed.

Lemma expand_element_terminates_witness :
  (count_char open_bracket "r[1-2]n[3]" ≤ 2)%nat
  ∧ expand_element_fuel 2 "r[1-2]n[3]" ≠ [].
Proof. split; [vm_compute; lia|]. apply (expand_element_terminates "r[1-2]n[3]" 2). vm_compute. lia. Defined.

(** C37.  Round trip: expanding a hostlist as Slurm prints one gives, element
    by element, the names with every choice of one number per group, in
    order, each number padded to the width of the left end of its span. *)
Theorem expand_print_roundtrip es :
  forallb element_wf es = true → expand (print_hostlist es) = es ≫= element_names.
Proof. apply expand_product. Qed.

Definition rack_and_login : list element :=
  [mk_element "rack" [([Span 1 1 2], "n"); ([Span 2 9 10; One "07"], "-ib")]; mk_element "login" []].

Lemma expand_print_roundtrip_witness :
  forallb element_wf rack_and_login = true
  ∧ print_hostlist rack_and_login = "rack[1-2]n[09-10,07]-ib,login"
  ∧ expand "rack[1-2]n[09-10,07]-ib,login"
    = ["rack1n09-ib"; "rack1n10-ib"; "rack1n07-ib"; "rack2n09-ib"; "rack2n10-ib"; "rack2n07-ib"; "login"].
Proof.
  split; [by vm_compute|]. split; [by vm_compute|].
  change "rack[1-2]n[09-10,07]-ib,login" with (print_hostlist rack_and_login).
  rewrite (expand_print_roundtrip rack_and_login) by (by vm_compute). by vm_compute.
Defined.

(** Bounds: one range never gives more than 100 001 names, but the guard
    is per range: the number of names of an element is the product of its
    groups' counts, and [r[0-99999]n[0-99999]] is ten thousand million names. *)
Theorem expand_bounds :
  (∀ r l, expand_range r = Some l → (N.of_nat (length l) ≤ 100001)%N)
  ∧ (∀ e, element_wf e = true →
       N.of_nat (length (expand (print_hostlist [e])))
       = foldr (λ g acc, N.of_nat (length (g.1 ≫= range_names)) * acc)%N 1%N (groups e))
  ∧ print_hostlist two_wide_groups = "r[0-99999]n[0-99999]"
  ∧ N.of_nat (length (expand "r[0-99999]n[0-99999]")) = (10 ^ 10)%N.
Proof.
  assert (∀ e, element_wf e = true →
       N.of_nat (length (expand (print_hostlist [e])))
       = foldr (λ g acc, N.of_nat (length (g.1 ≫= range_names)) * acc)%N 1%N (groups e)) as Hcount.
  { intros e He. rewrite expand_product by (cbn; by rewrite He).
    cbn [mbind list_bind]. rewrite app_nil_r. apply product_length. }
  split; [apply expand_range_length|]. split; [apply Hcount|]. split; [by vm_compute|].
  change "r[0-99999]n[0-99999]" with (print_hostlist two_wide_groups). unfold two_wide_groups.
  rewrite Hcount by (by vm_compute). cbn [groups foldr]. by rewrite !wide_group_length.
Qed.

Lemma expand_bounds_witness :
  expand_range "8-11" = Some ["8"; "9"; "10"; "11"]
  ∧ (N.of_nat (length ["8"; "9"; "10"; "11"]) ≤ 100001)%N
  ∧ element_wf (mk_element "n" [([Span 1 1 3], "")]) = true
  ∧ N.of_nat (length (expand (print_hostlist [mk_element "n" [([Span 1 1 3], "")]]))) = 3%N.
Proof.
  split; [by vm_compute|]. split; [apply (proj1 expand_bounds "8-11"); by vm_compute|].
  split; [by vm_compute|]. by rewrite (proj1 (proj2 expand_bounds)) by (by vm_compute).
Defined.

(** A second group that is not understood leaves names half expanded. *)
Lemma second_group_half_expands : expand "r[1-2]n[x]" = ["r1n[x]"; "r2n[x]"].
Proof. by vm_compute. Qed.

Lemma first_group_kept_verbatim : expand "node[1-2,x]" = ["node[1-2,x]"].
Proof. by vm_compute. Qed.
