(* ===== verification/Concrete.v ===== *)
(** * Concrete externals

    One instance of each interface of [External], small enough to compute with.
    The witnesses evaluate the model on them, which shows that the laws the
    theorems assume can hold together. *)

From S2P Require Export External Text.

(** ** JSON values as trees *)

Inductive leaf := LNull | LBool (b : bool) | LNum (n : N) | LStr (s : string).

#[export] Instance leaf_eq_dec : EqDecision leaf.
Proof. solve_decision. Defined.

Abbreviation jtree := (gen_tree leaf) (only parsing).

Definition jnode_array : nat := 0.
Definition jnode_object : nat := 1.
Definition jnode_pair : nat := 2.

Definition tree_of_pair (kv : string * jtree) : jtree := GenNode jnode_pair [GenLeaf (LStr kv.1); kv.2].

Definition tree_of_object (m : gmap string jtree) : jtree :=
  GenNode jnode_object (map tree_of_pair (btree_entries m)).

Definition pair_of_tree (t : jtree) : option (string * jtree) :=
  match t with
  | GenNode _ [GenLeaf (LStr k); v] => Some (k, v)
  | _ => None
  end.

(** Reading an object back checks that the tree is the one the object makes. *)
Definition object_of_tree (t : jtree) : option (gmap string jtree) :=
  match t with
  | GenNode _ ps =>
      kvs ← mapM pair_of_tree ps;
      let m := list_to_map kvs in
      if decide (tree_of_object m = t) then Some m else None
  | GenLeaf _ => None
  end.

Lemma mapM_pair_of_tree kvs : mapM pair_of_tree (map tree_of_pair kvs) = Some kvs.
Proof. induction kvs as [|[k v] kvs IH]; simpl; [done|]. by rewrite IH. Qed.

Lemma list_to_map_entries {V} (m : gmap string V) : list_to_map (btree_entries m) = m.
Proof.
  rewrite <-(list_to_map_to_list m) at 2. apply list_to_map_proper.
  - rewrite btree_entries_perm. apply NoDup_fst_map_to_list.
  - apply btree_entries_perm.
Qed.

Lemma object_of_tree_of m : object_of_tree (tree_of_object m) = Some m.
Proof.
  unfold object_of_tree, tree_of_object at 1. rewrite mapM_pair_of_tree. simpl.
  rewrite list_to_map_entries. by rewrite decide_True.
Qed.

Lemma object_of_tree_inv t m : object_of_tree t = Some m → t = tree_of_object m.
Proof.
  destruct t as [|n ps]; simpl; [done|]. destruct (mapM _ _) as [kvs|]; simpl; [|done].
  case_decide; [|done]. congruence.
Qed.

#[export] Instance concrete_json : JsonApi := {|
  json := jtree;
  json_null := GenLeaf LNull;
  json_of_bool b := GenLeaf (LBool b);
  json_of_u64 n := GenLeaf (LNum n);
  json_of_str s := GenLeaf (LStr s);
  json_of_array l := GenNode jnode_array l;
  json_of_object := tree_of_object;
  json_get t k := m ← object_of_tree t; m !! k;
  json_as_bool t := match t with GenLeaf (LBool b) => Some b | _ => None end;
  json_as_u64 t := match t with
                   | GenLeaf (LNum n) => if decide (n ≤ u64_max)%N then Some n else None
                   | _ => None
                   end;
  json_as_str t := match t with GenLeaf (LStr s) => Some s | _ => None end;
  json_as_array t := match t with GenNode O l => Some l | _ => None end;
  json_as_object := object_of_tree;
  json_is_null t := bool_decide (t = GenLeaf LNull)
|}.

#[export] Instance concrete_json_laws : JsonLaws.
Proof.
  split; try done.
  - intros m k. change ((object_of_tree (tree_of_object m) ≫= λ m', m' !! k) = m !! k).
    by rewrite object_of_tree_of.
  - intros n Hn. simpl. by rewrite decide_True.
  - intros [[| |n|]|] m; simpl; try done. case_decide; congruence.
  - apply object_of_tree_of.
  - apply object_of_tree_inv.
  - intros j. apply bool_decide_eq_true.
Qed.

(** ** Identifiers *)

#[export] Instance concrete_uuid : UuidApi := {|
  uuid_new_v5 ns name := Npos (encode (ns, name));
  uuid_to_string := show_N
|}.

Lemma string_mem_pretty_go c x s :
  is_ascii_digit c = false → string_mem c (pretty_N_go x s) = string_mem c s.
Proof.
  intros Hc. revert s. induction (N.lt_wf_0 x) as [x _ IH]; intros s.
  destruct (decide (x = 0)%N) as [->|Hx]; [by rewrite pretty_N_go_0|].
  rewrite pretty_N_go_step by lia. rewrite IH by (apply N.div_lt; lia).
  simpl. rewrite bool_decide_eq_false_2; [done|].
  intros <-. unfold pretty_N_char in Hc. by repeat case_match.
Qed.

Lemma string_mem_show_N c n : is_ascii_digit c = false → string_mem c (show_N n) = false.
Proof.
  intros Hc. unfold show_N, pretty, pretty_N. case_decide.
  - simpl. rewrite bool_decide_eq_false_2; [done|]. by intros <-.
  - by rewrite string_mem_pretty_go.
Qed.

#[export] Instance concrete_uuid_laws : UuidLaws.
Proof.
  split; simpl.
  - apply pretty_N_inj.
  - intros u. by apply string_mem_show_N.
  - apply show_N_nonempty.
Qed.

(** ** Clocks and hash tables *)

#[export] Instance concrete_time : TimeApi := {|
  rfc3339_micros ts := pretty ts;
  humantime_format d := pretty d
|}.

(** A calendar that ends after a hundred thousand years either way. *)
Definition calendar_end : Timestamp := hours (100000 * 366 * 24).

#[export] Instance concrete_chrono : ChronoApi := {|
  parse_rfc3339 s := Z.of_N <$> parse_u64 s;
  datetime_sub t d := if decide (- calendar_end ≤ t - d ≤ calendar_end)%Z then Some (t - d)%Z else None;
  delta_from_std n := if decide (n ≤ 9223372036854775807000000)%N then Some (Z.of_N n) else None;
  delta_max := 9223372036854775807000000%Z
|}.

#[export] Instance concrete_hash : HashIter :=
  {| hash_iter K V _ _ m := map_to_list m; hash_iter_perm K V _ _ m := Permutation_refl _ |}.

(** A table that iterates backwards, to set against [concrete_hash]. *)
Definition reversed_hash : HashIter :=
  {| hash_iter K V _ _ m := reverse (map_to_list m);
     hash_iter_perm K V _ _ m := reverse_Permutation (map_to_list m) |}.
