(* ===== verification/Entity.v ===== *)
(** * Entities

    [src/entity/id.rs] and [src/entity/mod.rs]: identifiers derived from natural
    keys, the kinds and lifecycle of entities, and [ManagedEntity]. *)

From S2P Require Export Text Capability.

Local Open Scope string_scope.

(** ** Identifiers *)

(** [EntityId(Uuid)]. *)
Record EntityId := { as_uuid : Uuid }.

#[export] Instance EntityId_eq_dec : EqDecision EntityId.
Proof. solve_decision. Defined.
#[export] Program Instance EntityId_countable : Countable EntityId :=
  inj_countable' as_uuid (λ u, {| as_uuid := u |}) _.
Next Obligation. by intros []. Qed.
#[export] Instance as_uuid_inj : Inj (=) (=) as_uuid.
Proof. by intros [a] [b] [= ->]. Qed.
#[export] Instance EntityId_key_order : KeyOrder EntityId := key_order_inj as_uuid.

(** [ENTITY_NAMESPACE]. *)
Definition ENTITY_NAMESPACE : Uuid := 0x7d1a3f525c9a5e179f243f2c1b8e6a40%N.

(** The unit separator [\u{1f}] between the parts of a derived name. *)
Definition unit_separator : string := String "031"%char "".

(** ** Kinds *)

Inductive EntityType :=
  | Entity_Host
  | Entity_Service
  | Entity_Storage
  | Entity_Scheduler
  | Entity_ExternalDependency.

#[export] Instance EntityType_eq_dec : EqDecision EntityType.
Proof. solve_decision. Defined.

Definition entity_type_as_str (t : EntityType) : string :=
  match t with
  | Entity_Host => "host"
  | Entity_Service => "service"
  | Entity_Storage => "storage"
  | Entity_Scheduler => "scheduler"
  | Entity_ExternalDependency => "external_dependency"
  end.

Definition entity_type_parse (s : string) : option EntityType :=
  if String.eqb s "host" then Some Entity_Host
  else if String.eqb s "service" then Some Entity_Service
  else if String.eqb s "storage" then Some Entity_Storage
  else if String.eqb s "scheduler" then Some Entity_Scheduler
  else if String.eqb s "external_dependency" then Some Entity_ExternalDependency
  else None.

(** [LifecycleState]. *)
Inductive LifecycleState := Lifecycle_Active | Lifecycle_Stale | Lifecycle_Removed.

#[export] Instance LifecycleState_eq_dec : EqDecision LifecycleState.
Proof. solve_decision. Defined.

Definition lifecycle_as_str (l : LifecycleState) : string :=
  match l with
  | Lifecycle_Active => "active"
  | Lifecycle_Stale => "stale"
  | Lifecycle_Removed => "removed"
  end.

Definition lifecycle_parse (s : string) : option LifecycleState :=
  if String.eqb s "active" then Some Lifecycle_Active
  else if String.eqb s "stale" then Some Lifecycle_Stale
  else if String.eqb s "removed" then Some Lifecycle_Removed
  else None.

(** [DiscoverySource]. *)
Inductive DiscoverySource :=
  | StaticConfig
  | AgentRegistration
  | Integration (name : string)
  | Manual.

#[export] Instance DiscoverySource_eq_dec : EqDecision DiscoverySource.
Proof. solve_decision. Defined.

Definition discovery_source_as_str (d : DiscoverySource) : string :=
  match d with
  | StaticConfig => "static_config"
  | AgentRegistration => "agent_registration"
  | Integration name => "integration:" +:+ name
  | Manual => "manual"
  end.

Definition discovery_source_parse (s : string) : DiscoverySource :=
  if String.eqb s "static_config" then StaticConfig
  else if String.eqb s "agent_registration" then AgentRegistration
  else if String.eqb s "manual" then Manual
  else match str_strip_prefix "integration:" s with
       | Some name => Integration name
       | None => Manual
       end.

(** ** Natural keys *)

(** [EntityKey]. *)
Record EntityKey := {
  key_environment : string;
  key_entity_type : EntityType;
  key_canonical_name : string
}.

(** The name [EntityKey::entity_id] hashes. *)
Definition entity_key_name (k : EntityKey) : string :=
  key_environment k +:+ unit_separator +:+ entity_type_as_str (key_entity_type k)
  +:+ unit_separator +:+ key_canonical_name k.

(** [EntityKey::entity_id]. *)
Definition entity_id `{UuidApi} (k : EntityKey) : EntityId :=
  {| as_uuid := uuid_new_v5 ENTITY_NAMESPACE (entity_key_name k) |}.

(** [EntityKey::new(..).entity_id()], as the callers write it. *)
Definition entity_id_of `{UuidApi} (environment : string) (t : EntityType) (name : string) : EntityId :=
  entity_id {| key_environment := environment; key_entity_type := t; key_canonical_name := name |}.

(** [Display for EntityId]. *)
Definition entity_id_to_string `{UuidApi} (e : EntityId) : string := uuid_to_string (as_uuid e).

(** ** Managed entities *)

Section managed_entity.
Context `{J : JsonApi}.

Record ManagedEntity := {
  entity_eid : EntityId;
  entity_environment : string;
  entity_cluster : option string;
  entity_kind : EntityType;
  canonical_name : string;
  display_name : string;
  entity_labels : gmap string string;
  entity_metadata : json;
  entity_capabilities : CapabilitySet;
  lifecycle_state : LifecycleState;
  discovery_sources : list DiscoverySource;
  entity_created_at : Timestamp;
  entity_updated_at : Timestamp
}.

(** [ManagedEntity::new], with the clock it reads. *)
Definition managed_entity_new `{UuidApi} (ts : Timestamp) (environment : string)
    (t : EntityType) (name : string) : ManagedEntity :=
  {| entity_eid := entity_id_of environment t name;
     entity_environment := environment;
     entity_cluster := None;
     entity_kind := t;
     canonical_name := name;
     display_name := name;
     entity_labels := ∅;
     entity_metadata := json_null;
     entity_capabilities := ∅;
     lifecycle_state := Lifecycle_Active;
     discovery_sources := [];
     entity_created_at := ts;
     entity_updated_at := ts |}.

(** [ManagedEntity::key]. *)
Definition managed_entity_key (e : ManagedEntity) : EntityKey :=
  {| key_environment := entity_environment e; key_entity_type := entity_kind e;
     key_canonical_name := canonical_name e |}.

(** The updates the builders and the merge make, one field at a time. *)
Definition set_lifecycle (l : LifecycleState) (at_ : Timestamp) (e : ManagedEntity) : ManagedEntity :=
  {| entity_eid := entity_eid e; entity_environment := entity_environment e;
     entity_cluster := entity_cluster e; entity_kind := entity_kind e;
     canonical_name := canonical_name e; display_name := display_name e;
     entity_labels := entity_labels e; entity_metadata := entity_metadata e;
     entity_capabilities := entity_capabilities e; lifecycle_state := l;
     discovery_sources := discovery_sources e;
     entity_created_at := entity_created_at e; entity_updated_at := at_ |}.

(** [ManagedEntity::with_discovery_source]. *)
Definition with_discovery_source (e : ManagedEntity) (s : DiscoverySource) : ManagedEntity :=
  {| entity_eid := entity_eid e; entity_environment := entity_environment e;
     entity_cluster := entity_cluster e; entity_kind := entity_kind e;
     canonical_name := canonical_name e; display_name := display_name e;
     entity_labels := entity_labels e; entity_metadata := entity_metadata e;
     entity_capabilities := entity_capabilities e; lifecycle_state := lifecycle_state e;
     discovery_sources := push_unique (discovery_sources e) s;
     entity_created_at := entity_created_at e; entity_updated_at := entity_updated_at e |}.

(** [ManagedEntity::with_capabilities]. *)
Definition with_capabilities (e : ManagedEntity) (cs : CapabilitySet) : ManagedEntity :=
  {| entity_eid := entity_eid e; entity_environment := entity_environment e;
     entity_cluster := entity_cluster e; entity_kind := entity_kind e;
     canonical_name := canonical_name e; display_name := display_name e;
     entity_labels := entity_labels e; entity_metadata := entity_metadata e;
     entity_capabilities := cs; lifecycle_state := lifecycle_state e;
     discovery_sources := discovery_sources e;
     entity_created_at := entity_created_at e; entity_updated_at := entity_updated_at e |}.

(** [ManagedEntity::with_cluster], [with_display_name] and [with_label]. *)
Definition with_cluster (e : ManagedEntity) (cluster : string) : ManagedEntity :=
  {| entity_eid := entity_eid e; entity_environment := entity_environment e; entity_cluster
     := Some cluster; entity_kind := entity_kind e; canonical_name := canonical_name e;
     display_name := display_name e; entity_labels := entity_labels e; entity_metadata :=
     entity_metadata e; entity_capabilities := entity_capabilities e; lifecycle_state :=
     lifecycle_state e; discovery_sources := discovery_sources e; entity_created_at :=
     entity_created_at e; entity_updated_at := entity_updated_at e |}.

Definition with_display_name (e : ManagedEntity) (name : string) : ManagedEntity :=
  {| entity_eid := entity_eid e; entity_environment := entity_environment e; entity_cluster
     := entity_cluster e; entity_kind := entity_kind e; canonical_name := canonical_name e;
     display_name := name; entity_labels := entity_labels e; entity_metadata :=
     entity_metadata e; entity_capabilities := entity_capabilities e; lifecycle_state :=
     lifecycle_state e; discovery_sources := discovery_sources e; entity_created_at :=
     entity_created_at e; entity_updated_at := entity_updated_at e |}.

Definition with_label (e : ManagedEntity) (key value : string) : ManagedEntity :=
  {| entity_eid := entity_eid e; entity_environment := entity_environment e; entity_cluster
     := entity_cluster e; entity_kind := entity_kind e; canonical_name := canonical_name e;
     display_name := display_name e; entity_labels := <[ key := value ]> (entity_labels e);
     entity_metadata := entity_metadata e; entity_capabilities := entity_capabilities e;
     lifecycle_state := lifecycle_state e; discovery_sources := discovery_sources e;
     entity_created_at := entity_created_at e; entity_updated_at := entity_updated_at e |}.

(** An entity filed under the identifier its natural key derives. *)
Definition entity_wf `{UuidApi} (e : ManagedEntity) : Prop :=
  entity_eid e = entity_id (managed_entity_key e).

Lemma managed_entity_new_wf `{UuidApi} ts env t name : entity_wf (managed_entity_new ts env t name).
Proof. done. Qed.

Lemma with_discovery_source_NoDup e s :
  NoDup (discovery_sources e) → NoDup (discovery_sources (with_discovery_source e s)).
Proof. apply NoDup_push_unique. Qed.
End managed_entity.

(** ** Round trips of the stable string forms *)

Lemma entity_type_roundtrip t : entity_type_parse (entity_type_as_str t) = Some t.
Proof. by destruct t. Qed.

Lemma lifecycle_roundtrip l : lifecycle_parse (lifecycle_as_str l) = Some l.
Proof. by destruct l. Qed.

Lemma discovery_source_roundtrip d : discovery_source_parse (discovery_source_as_str d) = d.
Proof. destruct d as [| |name|]; [done..| |done]. reflexivity. Qed.
