(* ===== verification/Graph.v ===== *)
(** * Dependencies

    [src/dependency/mod.rs] and [src/dependency/graph.rs]: typed edges between
    entities, and the graph they form. *)

From S2P Require Export Entity.

Local Open Scope string_scope.

(** * Dependency edges

    [src/dependency/mod.rs]: typed, directed edges [A depends on B]. *)

Inductive DependencyType :=
  | DependsOn
  | HostedOn
  | Provides
  | UsesStorage
  | UsesScheduler
  | NetworkReaches
  | Observes
  | OtherDependency (name : string).

#[export] Instance DependencyType_eq_dec : EqDecision DependencyType.
Proof. solve_decision. Defined.

Definition dependency_type_as_str (t : DependencyType) : string :=
  match t with
  | DependsOn => "depends_on"
  | HostedOn => "hosted_on"
  | Provides => "provides"
  | UsesStorage => "uses_storage"
  | UsesScheduler => "uses_scheduler"
  | NetworkReaches => "network_reaches"
  | Observes => "observes"
  | OtherDependency name => name
  end.

Definition dependency_type_parse (s : string) : DependencyType :=
  if String.eqb s "depends_on" then DependsOn
  else if String.eqb s "hosted_on" then HostedOn
  else if String.eqb s "provides" then Provides
  else if String.eqb s "uses_storage" then UsesStorage
  else if String.eqb s "uses_scheduler" then UsesScheduler
  else if String.eqb s "network_reaches" then NetworkReaches
  else if String.eqb s "observes" then Observes
  else OtherDependency s.

(** [Criticality]. *)
Inductive Criticality := Criticality_Critical | Criticality_Important | Criticality_Optional.

#[export] Instance Criticality_eq_dec : EqDecision Criticality.
Proof. solve_decision. Defined.

Definition criticality_as_str (c : Criticality) : string :=
  match c with
  | Criticality_Critical => "critical"
  | Criticality_Important => "important"
  | Criticality_Optional => "optional"
  end.

Definition criticality_parse (s : string) : option Criticality :=
  if String.eqb s "critical" then Some Criticality_Critical
  else if String.eqb s "important" then Some Criticality_Important
  else if String.eqb s "optional" then Some Criticality_Optional
  else None.

(** The namespace of edge identifiers. *)
Definition EDGE_NAMESPACE : Uuid := 0x4c2f9ab11d335c8ea0b75e2d9c47f1aa%N.

Section edges.
Context `{J : JsonApi}.

Record DependencyEdge := {
  edge_id : Uuid;
  edge_source : EntityId;
  edge_target : EntityId;
  dependency_type : DependencyType;
  criticality : Criticality;
  edge_metadata : json;
  edge_discovery_source : DiscoverySource;
  first_seen_at : Timestamp;
  last_seen_at : Timestamp
}.

#[global] Instance DependencyEdge_eq_dec : EqDecision DependencyEdge.
Proof. solve_decision. Defined.

(** The name an edge's identifier is derived from. *)
Definition edge_name `{UuidApi} (source target : EntityId) (t : DependencyType) : string :=
  entity_id_to_string source +:+ unit_separator +:+ entity_id_to_string target
  +:+ unit_separator +:+ dependency_type_as_str t.

(** [DependencyEdge::new]. *)
Definition dependency_edge_new `{UuidApi} (ts : Timestamp) (source target : EntityId)
    (t : DependencyType) : DependencyEdge :=
  {| edge_id := uuid_new_v5 EDGE_NAMESPACE (edge_name source target t);
     edge_source := source;
     edge_target := target;
     dependency_type := t;
     criticality := Criticality_Critical;
     edge_metadata := json_null;
     edge_discovery_source := Manual;
     first_seen_at := ts;
     last_seen_at := ts |}.

(** The builders. *)
Definition edge_with_criticality (e : DependencyEdge) (c : Criticality) : DependencyEdge :=
  {| edge_id := edge_id e; edge_source := edge_source e; edge_target := edge_target e;
     dependency_type := dependency_type e; criticality := c;
     edge_metadata := edge_metadata e; edge_discovery_source := edge_discovery_source e;
     first_seen_at := first_seen_at e; last_seen_at := last_seen_at e |}.

Definition edge_with_discovery_source (e : DependencyEdge) (s : DiscoverySource) : DependencyEdge :=
  {| edge_id := edge_id e; edge_source := edge_source e; edge_target := edge_target e;
     dependency_type := dependency_type e; criticality := criticality e;
     edge_metadata := edge_metadata e; edge_discovery_source := s;
     first_seen_at := first_seen_at e; last_seen_at := last_seen_at e |}.

Definition edge_with_metadata (e : DependencyEdge) (m : json) : DependencyEdge :=
  {| edge_id := edge_id e; edge_source := edge_source e; edge_target := edge_target e;
     dependency_type := dependency_type e; criticality := criticality e;
     edge_metadata := m; edge_discovery_source := edge_discovery_source e;
     first_seen_at := first_seen_at e; last_seen_at := last_seen_at e |}.

(** The assignments [offer_edge] makes to the two timestamps. *)
Definition edge_with_times (e : DependencyEdge) (first last : Timestamp) : DependencyEdge :=
  {| edge_id := edge_id e; edge_source := edge_source e; edge_target := edge_target e;
     dependency_type := dependency_type e; criticality := criticality e;
     edge_metadata := edge_metadata e; edge_discovery_source := edge_discovery_source e;
     first_seen_at := first; last_seen_at := last |}.
End edges.

(** A stored type parses back unless a custom type took a built-in name. *)
Lemma dependency_type_roundtrip t :
  (∀ name, t = OtherDependency name → dependency_type_parse name = OtherDependency name) →
  dependency_type_parse (dependency_type_as_str t) = t.
Proof. destruct t; try done. intros H. by apply H. Qed.

Lemma criticality_roundtrip c : criticality_parse (criticality_as_str c) = Some c.
Proof. by destruct c. Qed.

(** * The dependency graph

    [src/dependency/graph.rs]: an edge list with outgoing and incoming indexes,
    and cycle-safe traversals over it.  A lookup through the indexes may panic
    (a [None] here) when an index does not fit the edge list. *)

(** [Reachable]. *)
Record Reachable := { reached_entity : EntityId; reached_depth : nat }.

#[export] Instance Reachable_eq_dec : EqDecision Reachable.
Proof. solve_decision. Defined.

Inductive Direction := Upstream | Downstream.

Section graph.
Context `{J : JsonApi}.

Record DependencyGraph := {
  graph_edges : list DependencyEdge;
  graph_outgoing : gmap EntityId (list nat);
  graph_incoming : gmap EntityId (list nat)
}.

(** [DependencyGraph::new]. *)
Definition graph_new : DependencyGraph :=
  {| graph_edges := []; graph_outgoing := ∅; graph_incoming := ∅ |}.

(** [self.outgoing.entry(k).or_default().push(index)]. *)
Definition index_push (m : gmap EntityId (list nat)) (k : EntityId) (i : nat) :
    gmap EntityId (list nat) :=
  <[ k := (default [] (m !! k) ++ [i])%list ]> m.

(** [DependencyGraph::insert]: an edge with a known id replaces it in place. *)
Definition graph_insert (g : DependencyGraph) (e : DependencyEdge) : DependencyGraph :=
  match list_find (λ e', edge_id e' = edge_id e) (graph_edges g) with
  | Some (i, _) =>
      {| graph_edges := <[ i := e ]> (graph_edges g);
         graph_outgoing := graph_outgoing g;
         graph_incoming := graph_incoming g |}
  | None =>
      let index := length (graph_edges g) in
      {| graph_edges := (graph_edges g ++ [e])%list;
         graph_outgoing := index_push (graph_outgoing g) (edge_source e) index;
         graph_incoming := index_push (graph_incoming g) (edge_target e) index |}
  end.

(** [DependencyGraph::from_edges]. *)
Definition graph_from_edges (es : list DependencyEdge) : DependencyGraph :=
  foldl graph_insert graph_new es.

(** [DependencyGraph::dependencies_of] and [dependents_of]. *)
Definition dependencies_of (g : DependencyGraph) (x : EntityId) : option (list DependencyEdge) :=
  index_all (graph_edges g) (default [] (graph_outgoing g !! x)).

Definition dependents_of (g : DependencyGraph) (x : EntityId) : option (list DependencyEdge) :=
  index_all (graph_edges g) (default [] (graph_incoming g !! x)).

(** [DependencyGraph::dependencies_of_type]. *)
Definition dependencies_of_type (g : DependencyGraph) (x : EntityId) (t : DependencyType) :
    option (list DependencyEdge) :=
  filter (λ e, dependency_type e = t) <$> dependencies_of g x.

(** The far end of an edge, and the edges at the near end. *)
Definition next_entity (d : Direction) (e : DependencyEdge) : EntityId :=
  match d with Upstream => edge_target e | Downstream => edge_source e end.

Definition near_entity (d : Direction) (e : DependencyEdge) : EntityId :=
  match d with Upstream => edge_source e | Downstream => edge_target e end.

Definition edges_at (g : DependencyGraph) (d : Direction) (x : EntityId) : option (list DependencyEdge) :=
  match d with Upstream => dependencies_of g x | Downstream => dependents_of g x end.

(** The mutable variables of [DependencyGraph::walk]. *)
Record WalkState := {
  walk_visited : gset EntityId;
  walk_queue : list Reachable;
  walk_out : list Reachable
}.

(** The body of the inner [for edge in edges]. *)
Definition visit_edge (d : Direction) (follow : DependencyEdge → bool) (depth : nat)
    (st : WalkState) (e : DependencyEdge) : WalkState :=
  let next := next_entity d e in
  if follow e then
    if decide (next ∈ walk_visited st) then st
    else
      let reachable := {| reached_entity := next; reached_depth := S depth |} in
      {| walk_visited := {[ next ]} ∪ walk_visited st;
         walk_queue := (walk_queue st ++ [reachable])%list;
         walk_out := (walk_out st ++ [reachable])%list |}
  else st.

(** [if let Some(limit) = max_depth { if current.depth >= limit { continue } }]. *)
Definition beyond_limit (limit : option nat) (depth : nat) : bool :=
  match limit with Some l => (l <=? depth)%nat | None => false end.

(** [while let Some(current) = queue.pop_front()]. *)
Fixpoint walk_loop (g : DependencyGraph) (limit : option nat) (d : Direction)
    (follow : DependencyEdge → bool) (fuel : nat) (st : WalkState) : loop_result (list Reachable) :=
  match walk_queue st with
  | [] => Finished (walk_out st)
  | current :: queue =>
      match fuel with
      | O => OutOfFuel
      | S fuel' =>
          let st' := {| walk_visited := walk_visited st; walk_queue := queue;
                        walk_out := walk_out st |} in
          if beyond_limit limit (reached_depth current) then walk_loop g limit d follow fuel' st'
          else
            match edges_at g d (reached_entity current) with
            | None => Panicked
            | Some es =>
                walk_loop g limit d follow fuel'
                  (foldl (visit_edge d follow (reached_depth current)) st' es)
            end
      end
  end.

Definition walk_start (origin : EntityId) : WalkState :=
  {| walk_visited := {[ origin ]};
     walk_queue := [ {| reached_entity := origin; reached_depth := 0 |} ];
     walk_out := [] |}.

(** Each turn of the loop takes one entity off the queue, and an entity enters
    the queue at most once: the origin, and each edge's far end. *)
Definition walk_fuel (g : DependencyGraph) : nat := S (length (graph_edges g)).

(** [DependencyGraph::walk]. *)
Definition walk (g : DependencyGraph) (origin : EntityId) (limit : option nat) (d : Direction)
    (follow : DependencyEdge → bool) : option (list Reachable) :=
  loop_value (walk_loop g limit d follow (walk_fuel g) (walk_start origin)).

(** [upstream], [downstream], [critical_upstream]. *)
Definition upstream (g : DependencyGraph) (x : EntityId) (limit : option nat) :=
  walk g x limit Upstream (λ _, true).

Definition downstream (g : DependencyGraph) (x : EntityId) (limit : option nat) :=
  walk g x limit Downstream (λ _, true).

Definition critical_upstream (g : DependencyGraph) (x : EntityId) (limit : option nat) :=
  walk g x limit Upstream
    (λ e, bool_decide (criticality e = Criticality_Critical ∨ criticality e = Criticality_Important)).

(** The entities of a traversal, as a [BTreeSet]. *)
Definition upstream_set (g : DependencyGraph) (limit : option nat) (x : EntityId) : option (gset EntityId) :=
  (λ rs, list_to_set (map reached_entity rs)) <$> upstream g x limit.

(** The loop of [shared_upstream], with its early [break]. *)
Fixpoint shared_upstream_loop (g : DependencyGraph) (limit : option nat) (shared : gset EntityId)
    (xs : list EntityId) : option (gset EntityId) :=
  match xs with
  | [] => Some shared
  | x :: xs' =>
      next ← upstream_set g limit x;
      let shared' := shared ∩ next in
      if decide (shared' = ∅) then Some shared' else shared_upstream_loop g limit shared' xs'
  end.

(** [DependencyGraph::shared_upstream]. *)
Definition shared_upstream (g : DependencyGraph) (xs : list EntityId) (limit : option nat) :
    option (gset EntityId) :=
  match xs with
  | [] => Some ∅
  | first :: xs' =>
      shared ← upstream_set g limit first;
      shared_upstream_loop g limit shared xs'
  end.

(** [groups.entry(k).or_default().insert(x)]. *)
Definition group_add (groups : gmap EntityId (gset EntityId)) (k x : EntityId) :=
  <[ k := {[ x ]} ∪ default ∅ (groups !! k) ]> groups.

Fixpoint group_loop (g : DependencyGraph) (limit : option nat)
    (groups : gmap EntityId (gset EntityId)) (xs : list EntityId) :
    option (gmap EntityId (gset EntityId)) :=
  match xs with
  | [] => Some groups
  | x :: xs' =>
      rs ← upstream g x limit;
      group_loop g limit (foldl (λ m r, group_add m (reached_entity r) x) groups rs) xs'
  end.

(** [DependencyGraph::group_by_shared_upstream]. *)
Definition group_by_shared_upstream (g : DependencyGraph) (xs : list EntityId) (limit : option nat) :
    option (gmap EntityId (gset EntityId)) :=
  filter (λ kv, 1 < size kv.2) <$> group_loop g limit ∅ xs.

(** [DependencyGraph::retain_from_source]: the surviving graph and the
    dropped identifiers.  Only the edge list shrinks: the indexes are not
    rebuilt. *)
Definition keeps_edge (source : DiscoverySource) (keep : gset Uuid) (e : DependencyEdge) : Prop :=
  edge_discovery_source e ≠ source ∨ edge_id e ∈ keep.

#[global] Instance keeps_edge_dec source keep e : Decision (keeps_edge source keep e).
Proof. unfold keeps_edge. apply _. Defined.

Definition retain_from_source (g : DependencyGraph) (source : DiscoverySource) (keep : gset Uuid) :
    DependencyGraph * list Uuid :=
  ({| graph_edges := filter (keeps_edge source keep) (graph_edges g);
      graph_outgoing := graph_outgoing g;
      graph_incoming := graph_incoming g |},
   map edge_id (filter (λ e, ¬ keeps_edge source keep e) (graph_edges g))).
End graph.
