(* ===== verification/GraphSpec.v ===== *)
(** * The dependency graph: specification

    The traversals of [Graph] against an abstract graph: a relation on entities
    and the distance it induces.  The indexes agree with the edge list
    ([graph_wf]), a traversal ends whatever cycles the graph has, and it
    returns exactly the reachable entities, each once, at its distance. *)

From S2P Require Import Concrete.
From S2P Require Export Graph.
From stdpp Require Import relations.

Section graph_spec.
Context `{J : JsonApi}.
Implicit Types (g : DependencyGraph) (e : DependencyEdge) (es : list DependencyEdge).

(** ** The indexes *)

(** The positions, counted from [n], of the edges with [x] at one end. *)
Fixpoint positions (key : DependencyEdge → EntityId) (x : EntityId) (n : nat) es : list nat :=
  match es with
  | [] => []
  | e :: es' => if decide (key e = x) then n :: positions key x (S n) es'
                else positions key x (S n) es'
  end.

Definition index_fits (key : DependencyEdge → EntityId) es (m : gmap EntityId (list nat)) : Prop :=
  ∀ x, default [] (m !! x) = positions key x 0 es.

Definition graph_wf g : Prop :=
  index_fits edge_source (graph_edges g) (graph_outgoing g) ∧
  index_fits edge_target (graph_edges g) (graph_incoming g).

(** Edges with one identifier have the same ends: identifiers are derived
    from the ends and the type. *)
Definition edges_agree es : Prop :=
  ∀ e e', e ∈ es → e' ∈ es → edge_id e = edge_id e' →
    edge_source e = edge_source e' ∧ edge_target e = edge_target e'.

Lemma positions_app key x n es e :
  positions key x n (es ++ [e]) =
    positions key x n es ++ (if decide (key e = x) then [n + length es] else []).
Proof.
  revert n. induction es as [|e' es IH]; intros n; simpl.
  - rewrite Nat.add_0_r. by destruct (decide (key e = x)).
  - rewrite IH, Nat.add_succ_comm. by destruct (decide (key e' = x)).
Qed.

Lemma positions_insert key x n es i e e' :
  es !! i = Some e' → key e = key e' → positions key x n (<[ i := e ]> es) = positions key x n es.
Proof.
  revert n i. induction es as [|a es IH]; intros n [|i] Hi Hk; simplify_eq/=; [by rewrite Hk|].
  by rewrite IH.
Qed.

Lemma index_all_positions key x pre es :
  index_all (pre ++ es) (positions key x (length pre) es) = Some (filter (λ e, key e = x) es).
Proof.
  revert pre. induction es as [|e es IH]; intros pre; [done|].
  specialize (IH (pre ++ [e])). rewrite <-app_assoc, length_app in IH. simpl in IH.
  rewrite Nat.add_1_r in IH. unfold index_all in *. simpl. rewrite filter_cons. case_decide.
  - simpl. rewrite (list_lookup_middle _ _ _ (length pre)) by done. simpl. by rewrite IH.
  - done.
Qed.

Lemma index_push_fits key es m e :
  index_fits key es m → index_fits key (es ++ [e]) (index_push m (key e) (length es)).
Proof.
  intros Hm x. unfold index_push. rewrite positions_app, <-(Hm x). simpl.
  destruct (decide (key e = x)) as [->|Hne].
  - by rewrite lookup_insert_eq.
  - by rewrite lookup_insert_ne, app_nil_r.
Qed.

Lemma graph_insert_wf g e :
  edges_agree (e :: graph_edges g) → graph_wf g → graph_wf (graph_insert g e).
Proof.
  intros Hagree [Hout Hin]. unfold graph_insert.
  destruct (list_find _ _) as [[i e']|] eqn:Hf.
  - apply list_find_Some in Hf as (Hi & Hid & _).
    destruct (Hagree e e') as [Hs Ht]; [set_solver| |done|].
    { apply list_elem_of_lookup_2 in Hi. set_solver. }
    split; intros x; simpl; erewrite positions_insert by done; [apply Hout | apply Hin].
  - split; simpl; by apply index_push_fits.
Qed.

Lemma graph_insert_edges g e e' :
  e' ∈ graph_edges (graph_insert g e) → e' = e ∨ e' ∈ graph_edges g.
Proof.
  unfold graph_insert. destruct (list_find _ _) as [[i e0]|] eqn:Hf; simpl; [|set_solver].
  intros Hin. apply list_elem_of_lookup_1 in Hin as [j Hj].
  destruct (decide (i = j)) as [<-|Hne].
  - apply list_find_Some in Hf as (Hi & _ & _).
    rewrite list_lookup_insert_eq in Hj by (by eapply lookup_lt_Some). left. congruence.
  - rewrite list_lookup_insert_ne in Hj by done. right. by eapply list_elem_of_lookup_2.
Qed.

Lemma graph_from_edges_wf_aux g es :
  edges_agree (graph_edges g ++ es) → graph_wf g → graph_wf (foldl graph_insert g es).
Proof.
  revert g. induction es as [|e es IH]; intros g Ha Hg; simpl; [done|].
  apply IH.
  - intros e1 e2 H1 H2. apply Ha.
    + apply elem_of_app in H1 as [[->|?]%graph_insert_edges|?]; set_solver.
    + apply elem_of_app in H2 as [[->|?]%graph_insert_edges|?]; set_solver.
  - apply graph_insert_wf; [|done]. intros e1 e2 H1 H2. apply Ha; set_solver.
Qed.

Lemma graph_from_edges_wf es : edges_agree es → graph_wf (graph_from_edges es).
Proof. intros Ha. by apply graph_from_edges_wf_aux. Qed.

(** On well-formed graphs the indexed lookups are the filters they cache. *)
Lemma edges_at_wf g d x :
  graph_wf g → edges_at g d x = Some (filter (λ e, near_entity d e = x) (graph_edges g)).
Proof.
  intros [Hout Hin]. destruct d; simpl; unfold dependencies_of, dependents_of.
  - rewrite Hout. apply (index_all_positions edge_source x []).
  - rewrite Hin. apply (index_all_positions edge_target x []).
Qed.

Lemma dependencies_of_wf g x :
  graph_wf g → dependencies_of g x = Some (filter (λ e, edge_source e = x) (graph_edges g)).
Proof. apply (edges_at_wf g Upstream). Qed.

Lemma edges_at_subset g d x es : edges_at g d x = Some es → es ⊆ graph_edges g.
Proof.
  intros Hes e He. destruct d; simpl in Hes; unfold dependencies_of, dependents_of, index_all in Hes;
    apply mapM_Some in Hes; apply list_elem_of_lookup_1 in He as [i Hi];
    destruct (Forall2_lookup_r _ _ _ _ _ Hes Hi) as (j & _ & Hj);
    by eapply list_elem_of_lookup_2.
Qed.

(** ** Termination *)

Definition far_ends g d : gset EntityId := list_to_set (map (next_entity d) (graph_edges g)).

(** What is still to do: the queue, and the entities that may still enter it. *)
Definition walk_measure g d (st : WalkState) : nat :=
  length (walk_queue st) + size (far_ends g d ∖ walk_visited st).

Lemma visit_edge_measure g d follow depth st e :
  e ∈ graph_edges g → walk_measure g d (visit_edge d follow depth st e) = walk_measure g d st.
Proof.
  intros He. unfold visit_edge. destruct (follow e); [|done]. case_decide as Hv; [done|].
  unfold walk_measure. simpl. rewrite length_app. simpl.
  assert (next_entity d e ∈ far_ends g d) as Hfar.
  { unfold far_ends. rewrite elem_of_list_to_set. by apply list_elem_of_fmap_2. }
  revert Hfar Hv. generalize (next_entity d e) (far_ends g d) (walk_visited st).
  intros x F V Hx HV.
  assert (F ∖ V = {[ x ]} ∪ F ∖ ({[ x ]} ∪ V)) as ->.
  { apply leibniz_equiv. intros y. destruct (decide (y = x)) as [->|]; set_solver. }
  pose proof (size_union {[ x ]} (F ∖ ({[ x ]} ∪ V))) as Hs.
  rewrite Hs, size_singleton by set_solver. lia.
Qed.

Lemma visit_edges_measure g d follow depth st es :
  es ⊆ graph_edges g →
  walk_measure g d (foldl (visit_edge d follow depth) st es) = walk_measure g d st.
Proof.
  revert st. induction es as [|e es IH]; intros st Hes; simpl; [done|].
  rewrite IH by set_solver. apply visit_edge_measure. set_solver.
Qed.

Lemma walk_loop_fuel g limit d follow fuel st :
  walk_measure g d st ≤ fuel → walk_loop g limit d follow fuel st ≠ OutOfFuel.
Proof.
  revert st. induction fuel as [|fuel IH]; intros st Hm;
    unfold walk_measure in Hm; simpl; destruct (walk_queue st) as [|c q] eqn:Hq;
    simpl in *; try done; [lia|].
  destruct (beyond_limit _ _).
  - apply IH. unfold walk_measure. simpl. lia.
  - destruct (edges_at g d _) as [es|] eqn:Hes; [|done].
    apply IH. rewrite visit_edges_measure by (by eapply edges_at_subset).
    unfold walk_measure. simpl. lia.
Qed.

Lemma walk_start_measure g d origin : walk_measure g d (walk_start origin) ≤ walk_fuel g.
Proof.
  unfold walk_measure, walk_fuel, walk_start. simpl.
  assert (size (far_ends g d ∖ {[ origin ]}) ≤ length (graph_edges g)); [|lia].
  transitivity (size (far_ends g d)); [apply subseteq_size; set_solver|].
  unfold far_ends. rewrite <-(length_map (next_entity d)). apply size_list_to_set_le.
Qed.
End graph_spec.

(** ** Correctness of the traversal *)

(** [n] is the length of a shortest path of [R] from [x] to [y]. *)
Definition is_distance {A} (R : relation A) (x y : A) (n : nat) : Prop :=
  nsteps R n x y ∧ ∀ m, nsteps R m x y → n ≤ m.

(** [n] is within a traversal's depth limit. *)
Definition within_limit (limit : option nat) (n : nat) : Prop :=
  match limit with Some l => n ≤ l | None => True end.

Lemma beyond_limit_false limit n : beyond_limit limit n = false ↔ within_limit limit (S n).
Proof. destruct limit; simpl; [rewrite Nat.leb_gt; lia | done]. Qed.

Lemma within_limit_le limit n m : n ≤ m → within_limit limit m → within_limit limit n.
Proof. destruct limit; simpl; lia. Qed.

Definition depth_le (r s : Reachable) : Prop := reached_depth r ≤ reached_depth s.

Section walk_correct.
Context `{J : JsonApi}.
Variables (g : DependencyGraph) (limit : option nat) (d : Direction)
  (follow : DependencyEdge → bool) (origin : EntityId).

(** One hop of the traversal: an edge that is followed. *)
Definition hop : relation EntityId := λ x y,
  ∃ e, e ∈ graph_edges g ∧ follow e = true ∧ near_entity d e = x ∧ next_entity d e = y.

Definition origin_reached : Reachable := {| reached_entity := origin; reached_depth := 0 |}.

(** Everything the traversal has seen so far, the origin first. *)
Definition seen (st : WalkState) : list Reachable := origin_reached :: walk_out st.

Definition in_seen (st : WalkState) (x : EntityId) (n : nat) : Prop :=
  ∃ r, r ∈ seen st ∧ reached_entity r = x ∧ reached_depth r ≤ n.

(** What holds of the entities seen, whatever was expanded. *)
Record seen_ok (st : WalkState) (bound : nat) : Prop := {
  ok_visited : ∀ x, x ∈ walk_visited st ↔ x ∈ map reached_entity (seen st);
  ok_nodup : NoDup (map reached_entity (seen st));
  ok_path : ∀ r, r ∈ seen st → nsteps hop (reached_depth r) origin (reached_entity r);
  ok_limit : ∀ r, r ∈ walk_out st → within_limit limit (reached_depth r);
  ok_sorted : StronglySorted depth_le (seen st);
  ok_bound : ∀ r, r ∈ seen st → reached_depth r ≤ bound
}.

Lemma in_seen_visited st bound x :
  seen_ok st bound → x ∈ walk_visited st → in_seen st x bound.
Proof.
  intros Hok Hx. apply (ok_visited _ _ Hok) in Hx.
  apply list_elem_of_fmap in Hx as (r & -> & Hr). exists r.
  split_and!; [done..|]. by apply (ok_bound _ _ Hok).
Qed.

Lemma visit_edge_grows depth st e x n :
  in_seen st x n → in_seen (visit_edge d follow depth st e) x n.
Proof.
  intros (r & Hr & Hx). exists r. split; [|done].
  unfold visit_edge. destruct (follow e); [|done]. case_decide; [done|].
  unfold seen in *. set_solver.
Qed.

Lemma visit_edge_ok depth st e x :
  seen_ok st (S depth) → within_limit limit (S depth) →
  in_seen st x depth → nsteps hop depth origin x →
  e ∈ graph_edges g → near_entity d e = x →
  seen_ok (visit_edge d follow depth st e) (S depth) ∧
  (follow e = true → in_seen (visit_edge d follow depth st e) (next_entity d e) (S depth)).
Proof.
  intros Hok Hlim Hx Hpath He Hnear. unfold visit_edge. destruct (follow e) eqn:Hf; [|done].
  case_decide as Hv; [by eauto using in_seen_visited|].
  set (r := {| reached_entity := next_entity d e; reached_depth := S depth |}).
  set (st' := {| walk_visited := _; walk_queue := _; walk_out := _ |}).
  assert (Hseen : seen st' = seen st ++ [r]) by done.
  assert (Hvis' : walk_visited st' = {[ next_entity d e ]} ∪ walk_visited st) by done.
  assert (Hout : walk_out st' = walk_out st ++ [r]) by done.
  clearbody st'.
  split; [|intros _; exists r; rewrite Hseen; split_and!; [set_solver|done..]].
  destruct Hok as [Hvis Hnd Hp Hl Hs Hb].
  split; rewrite ?Hseen, ?Hout, ?Hvis'.
  - intros y. rewrite elem_of_union, elem_of_singleton, Hvis, map_app, elem_of_app.
    cbn [map]. set_solver.
  - rewrite map_app. apply NoDup_app. split_and!; [done| |apply NoDup_singleton].
    intros y Hy Hy'%list_elem_of_singleton. subst. by apply Hv, Hvis.
  - intros s [Hs'| ->%list_elem_of_singleton]%elem_of_app; [by apply Hp|]. simpl.
    apply nsteps_r with x; [done|]. by exists e.
  - intros s [Hs'| ->%list_elem_of_singleton]%elem_of_app; [by apply Hl | done].
  - apply StronglySorted_app_2; [|done|repeat constructor].
    intros s1 s2 Hs1 ->%list_elem_of_singleton. by apply Hb.
  - intros s [Hs'| ->%list_elem_of_singleton]%elem_of_app; [by apply Hb | done].
Qed.

Lemma visit_edges_ok depth st es x :
  seen_ok st (S depth) → within_limit limit (S depth) →
  in_seen st x depth → nsteps hop depth origin x →
  (∀ e, e ∈ es → e ∈ graph_edges g ∧ near_entity d e = x) →
  let st' := foldl (visit_edge d follow depth) st es in
  seen_ok st' (S depth) ∧
  (∀ y n, in_seen st y n → in_seen st' y n) ∧
  (∀ e, e ∈ es → follow e = true → in_seen st' (next_entity d e) (S depth)).
Proof.
  intros Hok Hlim Hx Hpath Hes. revert st Hok Hx.
  induction es as [|e es IH]; intros st Hok Hx; cbn [foldl].
  { split_and!; [done..|]. set_solver. }
  destruct (Hes e) as [He Hnear]; [set_solver|].
  destruct (visit_edge_ok depth st e x) as [Hok' Hnext]; [done..|].
  destruct (IH ltac:(set_solver) (visit_edge d follow depth st e)) as (H1 & H2 & H3);
    [done | by apply visit_edge_grows |].
  split_and!; [done | by auto using visit_edge_grows |].
  intros e' [->|He']%elem_of_cons Hf; [by apply H2, Hnext | by apply H3].
Qed.

Lemma seen_ok_weaken st b b' : b ≤ b' → seen_ok st b → seen_ok st b'.
Proof.
  intros Hb [H1 H2 H3 H4 H5 H6]. split; [done..|].
  intros r Hr. transitivity b; [by apply H6 | done].
Qed.

(** [seen_ok] does not look at the queue. *)
Lemma seen_ok_queue st q b :
  seen_ok {| walk_visited := walk_visited st; walk_queue := q; walk_out := walk_out st |} b
  ↔ seen_ok st b.
Proof. split; intros [H1 H2 H3 H4 H5 H6]; by split. Qed.

(** The loop invariant: the queue is the tail of what was seen, and every
    entity before it has all its hops seen, at most one step further on. *)
Record walk_ok (st : WalkState) (expanded : list Reachable) : Prop := {
  wok_queue : seen st = expanded ++ walk_queue st;
  wok_seen : ∀ c q, walk_queue st = c :: q → seen_ok st (S (reached_depth c));
  wok_end : ∃ bound, seen_ok st bound;
  wok_done : ∀ p y, p ∈ expanded → within_limit limit (S (reached_depth p)) →
    hop (reached_entity p) y → in_seen st y (S (reached_depth p))
}.

Lemma walk_start_ok : walk_ok (walk_start origin) [].
Proof.
  assert (seen_ok (walk_start origin) 0) as Hok.
  { split; unfold seen; simpl.
    - set_solver.
    - apply NoDup_singleton.
    - intros r ->%list_elem_of_singleton. constructor.
    - set_solver.
    - repeat constructor.
    - by intros r ->%list_elem_of_singleton. }
  split; [done| |by eexists|set_solver].
  intros c q [= <- <-]. by apply (seen_ok_weaken _ 0); [lia|].
Qed.

(** [visit_edge] only appends, and the same to the queue and to the output. *)
Lemma visit_edges_queue depth st es :
  let st' := foldl (visit_edge d follow depth) st es in
  ∃ new, walk_out st' = walk_out st ++ new ∧ walk_queue st' = walk_queue st ++ new.
Proof.
  revert st. induction es as [|e es IH]; intros st; simpl; [exists []; by rewrite !app_nil_r|].
  destruct (IH (visit_edge d follow depth st e)) as (new & -> & ->).
  unfold visit_edge. destruct (follow e); [|by exists new]. case_decide; [by exists new|].
  eexists. simpl. by rewrite <-!app_assoc.
Qed.

(** Depths never decrease along the queue. *)
Lemma queue_head_depth st expanded c q c' :
  walk_ok st expanded → walk_queue st = c :: q → c' ∈ q → reached_depth c ≤ reached_depth c'.
Proof.
  intros [Hq _ [b Hok] _] Hcq Hc'. pose proof (ok_sorted _ _ Hok) as Hs.
  rewrite Hq, Hcq in Hs. apply StronglySorted_app_1_r in Hs.
  apply StronglySorted_inv in Hs as [_ Hall]. by apply (proj1 (Forall_forall _ _) Hall).
Qed.

Definition popped (st : WalkState) (q : list Reachable) : WalkState :=
  {| walk_visited := walk_visited st; walk_queue := q; walk_out := walk_out st |}.

(** A turn that stops at the limit. *)
Lemma walk_skip_ok st expanded c q :
  walk_ok st expanded → walk_queue st = c :: q → beyond_limit limit (reached_depth c) = true →
  walk_ok (popped st q) (expanded ++ [c]).
Proof.
  intros Hok Hcq Hbl. pose proof Hok as [Hq Hseen [b Hb] Hdone]. split.
  - unfold popped, seen in *. simpl in *. by rewrite Hq, Hcq, <-app_assoc.
  - intros c' q' Hc'. simpl in Hc'. subst q. apply seen_ok_queue.
    apply (seen_ok_weaken _ (S (reached_depth c))); [|by eapply Hseen].
    assert (reached_depth c ≤ reached_depth c'); [|lia].
    eapply queue_head_depth; [done..|set_solver].
  - exists b. by apply seen_ok_queue.
  - intros p y [Hp| ->%list_elem_of_singleton]%elem_of_app Hw Hhop; [by apply Hdone|].
    apply beyond_limit_false in Hw. congruence.
Qed.

(** A turn that expands an entity. *)
Lemma walk_expand_ok st expanded c q es :
  walk_ok st expanded → walk_queue st = c :: q → within_limit limit (S (reached_depth c)) →
  es = filter (λ e, near_entity d e = reached_entity c) (graph_edges g) →
  walk_ok (foldl (visit_edge d follow (reached_depth c)) (popped st q) es) (expanded ++ [c]).
Proof.
  intros Hok Hcq Hw ->. pose proof Hok as [Hq Hseen [b Hb] Hdone].
  set (es := filter _ _).
  assert (c ∈ seen st) as Hc by (rewrite Hq, Hcq; set_solver).
  destruct (visit_edges_ok (reached_depth c) (popped st q) es (reached_entity c))
    as (Hok' & Hgrow & Hhops); [|done| | | |].
  { apply seen_ok_queue. by eapply Hseen. }
  { by exists c. }
  { by apply (ok_path _ _ Hb). }
  { intros e He. apply list_elem_of_filter in He as [Hn He]. done. }
  destruct (visit_edges_queue (reached_depth c) (popped st q) es) as (new & Hout & Hqueue).
  set (st' := foldl _ _ es) in *. split.
  - unfold seen in *. rewrite Hout, Hqueue. simpl in *. rewrite app_comm_cons, Hq, Hcq.
    by rewrite <-!app_assoc.
  - intros c' q' Hc'. apply (seen_ok_weaken _ (S (reached_depth c))); [|done].
    assert (reached_depth c ≤ reached_depth c'); [|lia].
    pose proof (ok_sorted _ _ Hok') as Hs.
    assert (seen st' = expanded ++ c :: c' :: q') as Hall.
    { unfold seen in *. rewrite Hout. simpl in *. rewrite app_comm_cons, Hq, Hcq, <-Hc', Hqueue.
      by rewrite <-app_assoc. }
    rewrite Hall in Hs. apply StronglySorted_app_1_r in Hs.
    apply StronglySorted_inv in Hs as [_ Hf]. by apply Forall_cons in Hf as [? _].
  - by eexists.
  - intros p y [Hp| ->%list_elem_of_singleton]%elem_of_app Hlim Hhop.
    + apply Hgrow. by apply Hdone.
    + destruct Hhop as (e & He & Hf & Hn & <-). apply Hhops; [|done].
      by apply list_elem_of_filter.
Qed.

Hypothesis Hwf : graph_wf g.

(** The loop keeps the invariant until the queue is empty. *)
Lemma walk_loop_ok fuel st expanded out :
  walk_ok st expanded → walk_loop g limit d follow fuel st = Finished out →
  ∃ st' , walk_ok st' (seen st') ∧ walk_out st' = out.
Proof.
  revert st expanded. induction fuel as [|fuel IH]; intros st expanded Hok; simpl;
    destruct (walk_queue st) as [|c q] eqn:Hq; try done.
  1,2: intros [= <-]; exists st; split; [|done];
    pose proof (wok_queue _ _ Hok) as He; rewrite Hq, app_nil_r in He; by rewrite He.
  destruct (beyond_limit limit (reached_depth c)) eqn:Hbl.
  - apply (IH (popped st q) (expanded ++ [c])). by apply walk_skip_ok.
  - rewrite edges_at_wf by done. apply (IH _ (expanded ++ [c])).
    apply walk_expand_ok; [done..| |done]. by apply beyond_limit_false.
Qed.

Lemma walk_loop_no_panic fuel st : walk_loop g limit d follow fuel st ≠ Panicked.
Proof.
  revert st. induction fuel as [|fuel IH]; intros st; simpl;
    destruct (walk_queue st); try done.
  destruct (beyond_limit _ _); [apply IH|]. rewrite edges_at_wf by done. apply IH.
Qed.

(** Every path within the limit ends at an entity seen no deeper. *)
Lemma walk_complete st n y :
  walk_ok st (seen st) → nsteps hop n origin y → within_limit limit n → in_seen st y n.
Proof.
  intros Hok. revert y. induction n as [|n IH]; intros y Hn Hlim.
  - inversion Hn; subst. exists origin_reached. unfold seen. set_solver.
  - apply nsteps_inv_r in Hn as (x & Hx & Hhop).
    destruct (IH x Hx) as (r & Hr & <- & Hd); [eapply within_limit_le; [|done]; lia|].
    destruct (wok_done _ _ Hok r y) as (s & Hs & Hy & Hds); [done| |done|].
    + eapply within_limit_le; [|done]. lia.
    + exists s. split_and!; [done..|lia].
Qed.
End walk_correct.

(** ** The contract of a traversal *)

(** A traversal ends: whatever cycles and self-loops the graph has, the loop
    of [DependencyGraph::walk] empties its queue within one turn per edge plus
    one for the origin. *)
Theorem walk_terminates `{J : JsonApi} (g : DependencyGraph) (origin : EntityId)
    (limit : option nat) (d : Direction) (follow : DependencyEdge → bool) :
  walk_loop g limit d follow (walk_fuel g) (walk_start origin) ≠ OutOfFuel.
Proof. apply walk_loop_fuel, walk_start_measure. Qed.

Lemma walk_finishes `{J : JsonApi} g origin limit d follow :
  graph_wf g →
  ∃ st, walk g origin limit d follow = Some (walk_out st) ∧
    walk_ok g limit d follow origin st (seen origin st).
Proof.
  intros Hwf. unfold walk.
  destruct (walk_loop g limit d follow (walk_fuel g) (walk_start origin)) as [out| |] eqn:Hl.
  - destruct (walk_loop_ok g limit d follow origin Hwf _ _ [] out (walk_start_ok _ _ _ _ _) Hl)
      as (st & Hok & <-). by exists st.
  - by apply walk_loop_no_panic in Hl.
  - by destruct (walk_loop_fuel g limit d follow (walk_fuel g) (walk_start origin));
      [apply walk_start_measure|].
Qed.

(** At the end of a traversal no entity seen has a shorter path than its depth. *)
Lemma walk_depth_minimal `{J : JsonApi} g limit d follow origin st r m :
  graph_wf g → walk_ok g limit d follow origin st (seen origin st) → r ∈ walk_out st →
  nsteps (hop g d follow) m origin (reached_entity r) → reached_depth r ≤ m.
Proof.
  intros Hwf Hok Hr Hm. destruct (decide (m < reached_depth r)) as [Hlt|]; [|lia].
  pose proof (wok_end _ _ _ _ _ _ _ Hok) as [b Hb].
  assert (r ∈ seen origin st) as Hr' by (unfold seen; set_solver).
  destruct (walk_complete g limit d follow origin Hwf st m _ Hok Hm) as (s & Hin & Heq & Hd).
  { eapply within_limit_le; [|by eapply (ok_limit _ _ _ _ _ _ _ Hb)]. lia. }
  assert (s = r) as ->; [|lia].
  pose proof (ok_nodup _ _ _ _ _ _ _ Hb) as Hn.
  apply list_elem_of_lookup_1 in Hin as [i Hi], Hr' as [j Hj].
  assert (i = j) as ->; [|congruence].
  eapply NoDup_lookup; [done| |]; rewrite list_lookup_fmap;
    [by rewrite Hi | by rewrite Hj; simpl; congruence].
Qed.

(** What is returned, one element at a time. *)
Lemma walk_out_spec `{J : JsonApi} g origin limit d follow st :
  graph_wf g → walk_ok g limit d follow origin st (seen origin st) →
  ∀ r, r ∈ walk_out st ↔
    reached_entity r ≠ origin ∧ within_limit limit (reached_depth r) ∧
    is_distance (hop g d follow) origin (reached_entity r) (reached_depth r).
Proof.
  intros Hwf Hok r. pose proof (wok_end _ _ _ _ _ _ _ Hok) as [b Hb].
  pose proof (ok_nodup _ _ _ _ _ _ _ Hb) as Hnd. apply NoDup_cons in Hnd as [Horigin Hnd].
  assert (Hseen : ∀ r, r ∈ walk_out st → r ∈ seen origin st) by (unfold seen; set_solver).
  split.
  - intros Hr. split_and!.
    + intros Heq. apply Horigin. simpl. rewrite <-Heq. by apply list_elem_of_fmap_2.
    + by apply (ok_limit _ _ _ _ _ _ _ Hb).
    + split; [by apply (ok_path _ _ _ _ _ _ _ Hb), Hseen|].
      intros m. by eapply walk_depth_minimal.
  - intros (Hne & Hlim & Hp & Hshort).
    destruct (walk_complete g limit d follow origin Hwf st _ _ Hok Hp Hlim) as (s & Hin & Heq & Hd).
    apply elem_of_cons in Hin as [->|Hin]; [by destruct Hne|].
    assert (s = r) as <-; [|done].
    assert (reached_depth r ≤ reached_depth s).
    { apply Hshort. rewrite <-Heq. by apply (ok_path _ _ _ _ _ _ _ Hb), Hseen. }
    destruct s as [se sd], r as [re rd]; simpl in *. f_equal; [done|lia].
Qed.

(** A traversal of a well-formed graph does not panic and returns exactly
    the entities other than the origin that the followed edges reach within the
    depth limit: each one once, at its shortest distance, nearest first. *)
Theorem walk_reaches `{J : JsonApi} (g : DependencyGraph) (origin : EntityId)
    (limit : option nat) (d : Direction) (follow : DependencyEdge → bool) :
  graph_wf g →
  ∃ out, walk g origin limit d follow = Some out ∧
    NoDup (map reached_entity out) ∧ StronglySorted depth_le out ∧
    ∀ r, r ∈ out ↔
      reached_entity r ≠ origin ∧ within_limit limit (reached_depth r) ∧
      is_distance (hop g d follow) origin (reached_entity r) (reached_depth r).
Proof.
  intros Hwf. destruct (walk_finishes g origin limit d follow Hwf) as (st & Hw & Hok).
  exists (walk_out st). pose proof (wok_end _ _ _ _ _ _ _ Hok) as [b Hb].
  pose proof (ok_nodup _ _ _ _ _ _ _ Hb) as Hnd. pose proof (ok_sorted _ _ _ _ _ _ _ Hb) as Hs.
  apply NoDup_cons in Hnd as [_ Hnd]. apply StronglySorted_inv in Hs as [Hs _].
  split_and!; [done..|]. by apply walk_out_spec.
Qed.

(** ** Shared dependencies *)

Section shared.
Context `{J : JsonApi}.

(** [y] is upstream of [x], no further than the limit. *)
Definition upstream_of (g : DependencyGraph) (limit : option nat) (x y : EntityId) : Prop :=
  y ≠ x ∧ ∃ n, within_limit limit n ∧ is_distance (hop g Upstream (λ _, true)) x y n.

Lemma upstream_set_spec g limit x :
  graph_wf g → ∃ s, upstream_set g limit x = Some s ∧ ∀ y, y ∈ s ↔ upstream_of g limit x y.
Proof.
  intros Hwf. unfold upstream_set, upstream.
  destruct (walk_finishes g x limit Upstream (λ _, true) Hwf) as (st & Hw & Hok).
  pose proof (walk_out_spec g x limit Upstream (λ _, true) st Hwf Hok) as Hout.
  rewrite Hw. eexists. split; [done|]. intros y. rewrite elem_of_list_to_set, list_elem_of_fmap.
  unfold upstream_of. split.
  - intros (r & -> & (Hne & Hlim & Hd)%Hout). eauto.
  - intros (Hne & n & Hlim & Hd). exists {| reached_entity := y; reached_depth := n |}.
    split; [done|]. by apply Hout.
Qed.

Lemma shared_upstream_loop_spec g limit shared xs :
  graph_wf g → ∃ s, shared_upstream_loop g limit shared xs = Some s ∧
    ∀ y, y ∈ s ↔ y ∈ shared ∧ ∀ x, x ∈ xs → upstream_of g limit x y.
Proof.
  intros Hwf. revert shared. induction xs as [|x xs IH]; intros shared; cbn.
  - eexists. split; [done|]. set_solver.
  - destruct (upstream_set_spec g limit x Hwf) as (s & -> & Hs). cbn. case_decide as Hemp.
    + eexists. split; [done|]. intros y. split; [rewrite Hemp; set_solver|].
      intros [Hy Hall]. apply elem_of_intersection. split; [done|]. apply Hs, Hall. set_solver.
    + destruct (IH (shared ∩ s)) as (s' & -> & Hs'). eexists. split; [done|]. intros y.
      rewrite Hs', elem_of_intersection, Hs. set_solver.
Qed.
End shared.

(** [shared_upstream] is the intersection its name promises: an entity is
    returned exactly when every given entity depends on it within the limit, so
    stopping at the first empty intersection loses nothing. *)
Theorem shared_upstream_spec `{J : JsonApi} (g : DependencyGraph) (limit : option nat)
    (xs : list EntityId) :
  graph_wf g → xs ≠ [] →
  ∃ s, shared_upstream g xs limit = Some s ∧
    ∀ y, y ∈ s ↔ ∀ x, x ∈ xs → upstream_of g limit x y.
Proof.
  intros Hwf Hne. destruct xs as [|x xs]; [done|]. cbn.
  destruct (upstream_set_spec g limit x Hwf) as (s & -> & Hs). cbn.
  destruct (shared_upstream_loop_spec g limit s xs Hwf) as (s' & -> & Hs').
  eexists. split; [done|]. intros y. rewrite Hs', Hs. set_solver.
Qed.

(** ** A small cluster *)

Section example.
Definition sample_entity (n : N) : EntityId := {| as_uuid := n |}.

Definition sample_edge (from to : N) : DependencyEdge :=
  dependency_edge_new 0 (sample_entity from) (sample_entity to) DependsOn.

(** Two nodes mount storage 3, which depends on itself through 4. *)
Definition sample_graph : DependencyGraph :=
  graph_from_edges [sample_edge 1 3; sample_edge 2 3; sample_edge 3 4; sample_edge 4 3].

Lemma sample_graph_wf : graph_wf sample_graph.
Proof.
  apply graph_from_edges_wf. intros e e' He He' Hid.
  repeat (apply elem_of_cons in He as [->|He]; [|]); try by apply elem_of_nil in He.
  all: repeat (apply elem_of_cons in He' as [->|He']; [|]); try by apply elem_of_nil in He'.
  all: vm_compute in Hid; try done.
Qed.
End example.

Lemma walk_reaches_witness :
  graph_wf sample_graph ∧
  ∃ out, walk sample_graph (sample_entity 1) None Upstream (λ _, true) = Some out ∧
    NoDup (map reached_entity out) ∧ StronglySorted depth_le out ∧
    ∀ r, r ∈ out ↔
      reached_entity r ≠ sample_entity 1 ∧ within_limit None (reached_depth r) ∧
      is_distance (hop sample_graph Upstream (λ _, true)) (sample_entity 1) (reached_entity r)
        (reached_depth r).
Proof. split; [apply sample_graph_wf | apply walk_reaches, sample_graph_wf]. Defined.

Lemma shared_upstream_spec_witness :
  graph_wf sample_graph ∧ [sample_entity 1; sample_entity 2] ≠ [] ∧
  ∃ s, shared_upstream sample_graph [sample_entity 1; sample_entity 2] None = Some s ∧
    ∀ y, y ∈ s ↔ ∀ x, x ∈ [sample_entity 1; sample_entity 2] → upstream_of sample_graph None x y.
Proof.
  split; [apply sample_graph_wf|]. split; [done|].
  apply shared_upstream_spec; [apply sample_graph_wf | done].
Defined.

(** [retain_from_source] leaves the indexes as they were: after it drops the
    first edge of this graph, the position recorded for storage 3's dependency
    is out of range or names another entity's edge, so [dependencies_of] panics
    for one entity and reports a stranger's edge for another. *)
Theorem retain_from_source_breaks_indexes :
  let g := graph_from_edges [edge_with_discovery_source (sample_edge 1 3) (Integration "nfs");
                             sample_edge 2 3; sample_edge 3 4] in
  let g' := (retain_from_source g (Integration "nfs") ∅).1 in
  dependencies_of g' (sample_entity 3) = None ∧
  dependencies_of g' (sample_entity 2) = Some [sample_edge 3 4].
Proof. cbn zeta. split; by_computation. Qed.
