(* ===== verification/Observation.v ===== *)
(** * Observations

    [src/observation/mod.rs]: immutable facts reported by probes. *)

From S2P Require Export Entity.

Local Open Scope string_scope.

(** [MAX_FUTURE_SKEW_SECONDS]. *)
Definition MAX_FUTURE_SKEW_SECONDS : Z := 5.

(** [ObservationId(Uuid)]. *)
Record ObservationId := { observation_uuid : Uuid }.

#[export] Instance ObservationId_eq_dec : EqDecision ObservationId.
Proof. solve_decision. Defined.
#[export] Program Instance ObservationId_countable : Countable ObservationId :=
  inj_countable' observation_uuid (λ u, {| observation_uuid := u |}) _.
Next Obligation. by intros []. Qed.
#[export] Instance observation_uuid_inj : Inj (=) (=) observation_uuid.
Proof. by intros [a] [b] [= ->]. Qed.
#[export] Instance ObservationId_key_order : KeyOrder ObservationId := key_order_inj observation_uuid.

(** [ProbeId(String)], a transparent wrapper ([src/probes/mod.rs]). *)
Abbreviation ProbeId := string (only parsing).

(** [ProbeStatus]. *)
Inductive ProbeStatus :=
  | Probe_Ok
  | Probe_Degraded
  | Probe_Failed
  | Probe_Timeout
  | Probe_Stuck
  | Probe_Unsupported
  | Probe_NotApplicable.

#[export] Instance ProbeStatus_eq_dec : EqDecision ProbeStatus.
Proof. solve_decision. Defined.

Definition probe_status_as_str (s : ProbeStatus) : string :=
  match s with
  | Probe_Ok => "ok"
  | Probe_Degraded => "degraded"
  | Probe_Failed => "failed"
  | Probe_Timeout => "timeout"
  | Probe_Stuck => "stuck"
  | Probe_Unsupported => "unsupported"
  | Probe_NotApplicable => "not_applicable"
  end.

Definition probe_status_parse (s : string) : option ProbeStatus :=
  if String.eqb s "ok" then Some Probe_Ok
  else if String.eqb s "degraded" then Some Probe_Degraded
  else if String.eqb s "failed" then Some Probe_Failed
  else if String.eqb s "timeout" then Some Probe_Timeout
  else if String.eqb s "stuck" then Some Probe_Stuck
  else if String.eqb s "unsupported" then Some Probe_Unsupported
  else if String.eqb s "not_applicable" then Some Probe_NotApplicable
  else None.

(** [ProbeStatus::is_bad]: evidence that the measured thing is broken. *)
Definition probe_is_bad (s : ProbeStatus) : bool :=
  match s with Probe_Failed | Probe_Timeout | Probe_Stuck => true | _ => false end.

(** [ProbeStatus::is_conclusive]. *)
Definition probe_is_conclusive (s : ProbeStatus) : bool :=
  match s with Probe_Unsupported | Probe_NotApplicable => false | _ => true end.

Section observation.
Context `{J : JsonApi}.

Record Observation := {
  observation_id : ObservationId;
  probe_id : ProbeId;
  target_entity : EntityId;
  observer_entity : option EntityId;
  agent_session : option Uuid;
  started_at : Timestamp;
  finished_at : Timestamp;
  duration_ms : N;
  status : ProbeStatus;
  payload : json;
  observation_evidence : json;
  error_code : option string;
  error_message : option string
}.

#[global] Instance Observation_eq_dec : EqDecision Observation.
Proof. solve_decision. Defined.

(** [Observation::new], with the fresh identifier and the clock it reads. *)
Definition observation_new (id : ObservationId) (ts : Timestamp) (probe : ProbeId)
    (target : EntityId) (s : ProbeStatus) : Observation :=
  {| observation_id := id; probe_id := probe; target_entity := target;
     observer_entity := None; agent_session := None;
     started_at := ts; finished_at := ts; duration_ms := 0; status := s;
     payload := json_null; observation_evidence := json_null;
     error_code := None; error_message := None |}.

(** [Observation::with_observer], [with_payload], [with_times]. *)
Definition with_observer (o : Observation) (observer : EntityId) : Observation :=
  {| observation_id := observation_id o; probe_id := probe_id o; target_entity := target_entity o;
     observer_entity := Some observer; agent_session := agent_session o;
     started_at := started_at o; finished_at := finished_at o; duration_ms := duration_ms o;
     status := status o; payload := payload o; observation_evidence := observation_evidence o;
     error_code := error_code o; error_message := error_message o |}.

Definition with_payload (o : Observation) (p : json) : Observation :=
  {| observation_id := observation_id o; probe_id := probe_id o; target_entity := target_entity o;
     observer_entity := observer_entity o; agent_session := agent_session o;
     started_at := started_at o; finished_at := finished_at o; duration_ms := duration_ms o;
     status := status o; payload := p; observation_evidence := observation_evidence o;
     error_code := error_code o; error_message := error_message o |}.

Definition with_times (o : Observation) (started finished : Timestamp) : Observation :=
  {| observation_id := observation_id o; probe_id := probe_id o; target_entity := target_entity o;
     observer_entity := observer_entity o; agent_session := agent_session o;
     started_at := started; finished_at := finished; duration_ms := duration_ms o;
     status := status o; payload := payload o; observation_evidence := observation_evidence o;
     error_code := error_code o; error_message := error_message o |}.

(** [Observation::with_evidence], [with_error], [with_duration_ms] and
    [with_agent_session]. *)
Definition with_evidence (o : Observation) (ev : json) : Observation :=
  {| observation_id := observation_id o; probe_id := probe_id o; target_entity :=
     target_entity o; observer_entity := observer_entity o; agent_session := agent_session o;
     started_at := started_at o; finished_at := finished_at o; duration_ms := duration_ms o;
     status := status o; payload := payload o; observation_evidence := ev; error_code :=
     error_code o; error_message := error_message o |}.

Definition with_error (o : Observation) (code message : string) : Observation :=
  {| observation_id := observation_id o; probe_id := probe_id o; target_entity :=
     target_entity o; observer_entity := observer_entity o; agent_session := agent_session o;
     started_at := started_at o; finished_at := finished_at o; duration_ms := duration_ms o;
     status := status o; payload := payload o; observation_evidence := observation_evidence
     o; error_code := Some code; error_message := Some message |}.

Definition with_duration_ms (o : Observation) (ms : N) : Observation :=
  {| observation_id := observation_id o; probe_id := probe_id o; target_entity :=
     target_entity o; observer_entity := observer_entity o; agent_session := agent_session o;
     started_at := started_at o; finished_at := finished_at o; duration_ms := ms; status :=
     status o; payload := payload o; observation_evidence := observation_evidence o;
     error_code := error_code o; error_message := error_message o |}.

Definition with_agent_session (o : Observation) (session : Uuid) : Observation :=
  {| observation_id := observation_id o; probe_id := probe_id o; target_entity :=
     target_entity o; observer_entity := observer_entity o; agent_session := Some session;
     started_at := started_at o; finished_at := finished_at o; duration_ms := duration_ms o;
     status := status o; payload := payload o; observation_evidence := observation_evidence
     o; error_code := error_code o; error_message := error_message o |}.

(** [Observation::is_remote], [payload_field]. *)
Definition is_remote (o : Observation) : bool := bool_decide (is_Some (observer_entity o)).

Definition payload_field (o : Observation) (key : string) : option json := json_get (payload o) key.

(** What makes two observations rivals: target, probe and observer. *)
Definition observation_key (o : Observation) : EntityId * ProbeId * option EntityId :=
  (target_entity o, probe_id o, observer_entity o).
End observation.

Lemma probe_status_roundtrip s : probe_status_parse (probe_status_as_str s) = Some s.
Proof. by destruct s. Qed.

(** A bad status always carries a signal. *)
Lemma probe_is_bad_conclusive s : probe_is_bad s = true → probe_is_conclusive s = true.
Proof. by destruct s. Qed.
#[export] Hint Resolve probe_is_bad_conclusive : sentinel.
