(* ===== verification/State.v ===== *)
(** * Derived state

    [src/state/mod.rs]: the health of each component of an entity, the overall
    roll-up, and the transitions recorded when a component changes. *)

From S2P Require Export Observation.

Local Open Scope string_scope.

(** ** Components *)

Inductive StateComponent :=
  | Component_Availability
  | Component_Network
  | Component_Host
  | Component_Agent
  | Component_Ssh
  | Component_Service
  | Component_Scheduler
  | Component_Storage
  | Component_Accelerator
  | Component_Clock.

#[export] Instance StateComponent_eq_dec : EqDecision StateComponent.
Proof. solve_decision. Defined.

(** [StateComponent::ALL]. *)
Definition component_all : list StateComponent :=
  [Component_Availability; Component_Network; Component_Host; Component_Agent; Component_Ssh;
   Component_Service; Component_Scheduler; Component_Storage; Component_Accelerator;
   Component_Clock].

(** The position a component is declared at, which derives its order. *)
Definition component_index (c : StateComponent) : N :=
  match c with
  | Component_Availability => 0 | Component_Network => 1 | Component_Host => 2
  | Component_Agent => 3 | Component_Ssh => 4 | Component_Service => 5
  | Component_Scheduler => 6 | Component_Storage => 7 | Component_Accelerator => 8
  | Component_Clock => 9
  end.

#[export] Instance component_index_inj : Inj (=) (=) component_index.
Proof. by intros [] []. Qed.
#[export] Instance StateComponent_key_order : KeyOrder StateComponent := key_order_inj component_index.
#[export] Program Instance StateComponent_countable : Countable StateComponent :=
  {| encode c := N.succ_pos (component_index c);
     decode p := nth_error component_all (N.to_nat (Pos.pred_N p)) |}.
Next Obligation. by intros []. Qed.

Definition component_as_str (c : StateComponent) : string :=
  match c with
  | Component_Availability => "availability"
  | Component_Network => "network"
  | Component_Host => "host"
  | Component_Agent => "agent"
  | Component_Ssh => "ssh"
  | Component_Service => "service"
  | Component_Scheduler => "scheduler"
  | Component_Storage => "storage"
  | Component_Accelerator => "accelerator"
  | Component_Clock => "clock"
  end.

(** [StateComponent::parse]: the first component with this name. *)
Definition component_parse (s : string) : option StateComponent :=
  find (λ c, String.eqb (component_as_str c) s) component_all.

(** ** Health *)

Inductive Health :=
  | Healthy
  | Degraded
  | Unavailable
  | Maintenance
  | Unknown
  | NotApplicable.

#[export] Instance Health_eq_dec : EqDecision Health.
Proof. solve_decision. Defined.

Definition health_as_str (h : Health) : string :=
  match h with
  | Healthy => "healthy"
  | Degraded => "degraded"
  | Unavailable => "unavailable"
  | Maintenance => "maintenance"
  | Unknown => "unknown"
  | NotApplicable => "not_applicable"
  end.

Definition health_parse (s : string) : option Health :=
  if String.eqb s "healthy" then Some Healthy
  else if String.eqb s "degraded" then Some Degraded
  else if String.eqb s "unavailable" then Some Unavailable
  else if String.eqb s "maintenance" then Some Maintenance
  else if String.eqb s "unknown" then Some Unknown
  else if String.eqb s "not_applicable" then Some NotApplicable
  else None.

(** [Health::severity_rank]. *)
Definition severity_rank (h : Health) : N :=
  match h with
  | NotApplicable => 0
  | Healthy => 1
  | Maintenance => 2
  | Unknown => 3
  | Degraded => 4
  | Unavailable => 5
  end.

#[export] Instance severity_rank_inj : Inj (=) (=) severity_rank.
Proof. by intros [] []. Qed.

(** [Health::is_problem]. *)
Definition is_problem (h : Health) : bool :=
  match h with Degraded | Unavailable => true | _ => false end.

(** [classification]: the labels the built-in rules use. *)
Definition SCHEDULER_DEGRADED : string := "SCHEDULER_DEGRADED".
Definition SSH_DEGRADED : string := "SSH_DEGRADED".
Definition STORAGE_DEGRADED : string := "STORAGE_DEGRADED".
Definition NETWORK_PATH_DEGRADED : string := "NETWORK_PATH_DEGRADED".
Definition CLASS_HOST_UNREACHABLE : string := "HOST_UNREACHABLE".
Definition SERVICE_FAILURE : string := "SERVICE_FAILURE".
Definition AGENT_DEGRADED : string := "AGENT_DEGRADED".

(** ** Component and entity state *)

Record ComponentState := {
  health : Health;
  evidence : list ObservationId;
  since : Timestamp;
  state_consecutive_failures : N;
  state_consecutive_successes : N
}.

(** [ComponentState::new], with the clock it reads. *)
Definition component_state_new (now : Timestamp) (h : Health) : ComponentState :=
  {| health := h; evidence := []; since := now;
     state_consecutive_failures := 0; state_consecutive_successes := 0 |}.

(** [EntityState]. *)
Record EntityState := {
  state_entity : EntityId;
  components : gmap StateComponent ComponentState;
  overall : Health;
  classifications : list string;
  state_updated_at : Timestamp
}.

(** [EntityState::unknown]. *)
Definition entity_state_unknown (now : Timestamp) (e : EntityId) : EntityState :=
  {| state_entity := e; components := ∅; overall := Unknown; classifications := [];
     state_updated_at := now |}.

(** [EntityState::component]. *)
Definition component_health (s : EntityState) (c : StateComponent) : Health :=
  default NotApplicable (health <$> components s !! c).

(** [EntityState::rollup]: the worst component, those that do not apply aside. *)
Definition rollup_of (cs : gmap StateComponent ComponentState) : Health :=
  default Unknown
    (max_by_key severity_rank
      (filter (λ h, h ≠ NotApplicable) (map health (btree_values cs)))).

Definition rollup (s : EntityState) : Health := rollup_of (components s).

(** [EntityState::set_component]. *)
Definition set_component (now : Timestamp) (c : StateComponent) (st : ComponentState)
    (s : EntityState) : EntityState :=
  let cs := <[ c := st ]> (components s) in
  {| state_entity := state_entity s; components := cs; overall := rollup_of cs;
     classifications := classifications s; state_updated_at := now |}.

(** [EntityState::classify]. *)
Definition classify (label : string) (s : EntityState) : EntityState :=
  {| state_entity := state_entity s; components := components s; overall := overall s;
     classifications := push_unique (classifications s) label;
     state_updated_at := state_updated_at s |}.

(** [EntityState::set_classifications]. *)
Definition set_classifications (labels : list string) (s : EntityState) : EntityState :=
  {| state_entity := state_entity s; components := components s; overall := overall s;
     classifications := foldl push_unique [] labels;
     state_updated_at := state_updated_at s |}.

(** [EntityState::has_classification]. *)
Definition has_classification (s : EntityState) (name : string) : bool :=
  existsb (String.eqb name) (classifications s).

(** [StateTransition]. *)
Record StateTransition := {
  transition_id : Uuid;
  transition_entity : EntityId;
  transition_component : option StateComponent;
  from_health : Health;
  to_health : Health;
  transition_at : Timestamp;
  transition_evidence : list ObservationId
}.

(** [StateTransition::new] followed by [with_evidence]. *)
Definition state_transition_new (id : Uuid) (now : Timestamp) (e : EntityId)
    (c : option StateComponent) (from to : Health) (ev : list ObservationId) : StateTransition :=
  {| transition_id := id; transition_entity := e; transition_component := c;
     from_health := from; to_health := to; transition_at := now;
     transition_evidence := ev |}.

(** ** Facts *)

Lemma health_roundtrip h : health_parse (health_as_str h) = Some h.
Proof. by destruct h. Qed.

Lemma component_roundtrip c : component_parse (component_as_str c) = Some c.
Proof. by destruct c. Qed.

Lemma component_parse_Some s c : component_parse s = Some c ↔ s = component_as_str c.
Proof.
  split; [|intros ->; apply component_roundtrip].
  intros [_ Heq]%find_some. symmetry. by apply String.eqb_eq.
Qed.

(** The overall health an entity should show. *)
Definition overall_ok (s : EntityState) : Prop := components s ≠ ∅ → overall s = rollup s.

(** Reading a component's health through the map. *)
Lemma component_health_set now c c' st s :
  component_health (set_component now c st s) c' =
    if decide (c = c') then health st else component_health s c'.
Proof.
  unfold component_health, set_component. simpl. case_decide as Hc.
  - subst. by rewrite lookup_insert_eq.
  - by rewrite lookup_insert_ne.
Qed.

Lemma rollup_elem cs h :
  h ∈ filter (λ h, h ≠ NotApplicable) (map health (btree_values cs)) ↔
    h ≠ NotApplicable ∧ ∃ c st, cs !! c = Some st ∧ health st = h.
Proof.
  rewrite list_elem_of_filter. split.
  - intros [Hh (st & -> & Hst)%list_elem_of_fmap]. split; [done|].
    apply elem_of_btree_values in Hst as [c Hc]. eauto.
  - intros (Hh & c & st & Hc & <-). split; [done|].
    apply list_elem_of_fmap_2, elem_of_btree_values. eauto.
Qed.
