(* ===== verification/Debounce.v ===== *)
(** * Debouncing

    [src/state/debounce.rs]: consecutive outcomes against thresholds. *)

From S2P Require Export State.

(** [DebouncePolicy]. *)
Record DebouncePolicy := {
  warning_threshold : N;
  critical_threshold : N;
  recovery_threshold : N
}.

#[export] Instance DebouncePolicy_eq_dec : EqDecision DebouncePolicy.
Proof. solve_decision. Defined.

(** [DebouncePolicy::default] and [immediate]. *)
Definition policy_default : DebouncePolicy :=
  {| warning_threshold := 2; critical_threshold := 3; recovery_threshold := 2 |}.

Definition policy_immediate : DebouncePolicy :=
  {| warning_threshold := 1; critical_threshold := 1; recovery_threshold := 1 |}.

(** [Debouncer]. *)
Record Debouncer := {
  policy : DebouncePolicy;
  deb_health : Health;
  consecutive_failures : N;
  consecutive_successes : N
}.

#[export] Instance Debouncer_eq_dec : EqDecision Debouncer.
Proof. solve_decision. Defined.

(** [Debouncer::starting_at] and [Debouncer::new]. *)
Definition debouncer_starting_at (p : DebouncePolicy) (h : Health) : Debouncer :=
  {| policy := p; deb_health := h; consecutive_failures := 0; consecutive_successes := 0 |}.

Definition debouncer_new (p : DebouncePolicy) : Debouncer := debouncer_starting_at p Unknown.

(** [Debouncer::transition_to]: the change, if any, reports the previous health. *)
Definition transition_to (d : Debouncer) (next : Health) : Debouncer * option Health :=
  if decide (next = deb_health d) then (d, None)
  else
    ({| policy := policy d; deb_health := next;
        consecutive_failures := consecutive_failures d;
        consecutive_successes := consecutive_successes d |}, Some (deb_health d)).

(** The counters after one outcome. *)
Definition count_outcome (bad : bool) (d : Debouncer) : Debouncer :=
  if bad then
    {| policy := policy d; deb_health := deb_health d;
       consecutive_failures := saturating_add_u32 (consecutive_failures d) 1;
       consecutive_successes := 0 |}
  else
    {| policy := policy d; deb_health := deb_health d;
       consecutive_failures := 0;
       consecutive_successes := saturating_add_u32 (consecutive_successes d) 1 |}.

(** The health the counters call for. *)
Definition next_health (d : Debouncer) : Health :=
  if (critical_threshold (policy d) <=? consecutive_failures d)%N then Unavailable
  else if (warning_threshold (policy d) <=? consecutive_failures d)%N then
    if decide (deb_health d = Unavailable) then Unavailable else Degraded
  else if (recovery_threshold (policy d) <=? consecutive_successes d)%N then Healthy
  else deb_health d.

(** [Debouncer::observe]. *)
Definition debouncer_observe (bad : bool) (d : Debouncer) : Debouncer * option Health :=
  let d' := count_outcome bad d in transition_to d' (next_health d').

(** [Debouncer::force]. *)
Definition debouncer_force (h : Health) (d : Debouncer) : Debouncer * option Health :=
  transition_to {| policy := policy d; deb_health := deb_health d;
                   consecutive_failures := 0; consecutive_successes := 0 |} h.

(** A run of outcomes, oldest first. *)
Definition observe_all (bads : list bool) (d : Debouncer) : Debouncer :=
  foldl (λ d bad, (debouncer_observe bad d).1) d bads.

(** ** Invariant *)

(** Thresholds and counters are [u32]s, and a run of one kind resets the other. *)
Definition debouncer_wf (d : Debouncer) : Prop :=
  (consecutive_failures d ≤ u32_max ∧ consecutive_successes d ≤ u32_max)%N ∧
  (consecutive_failures d = 0 ∨ consecutive_successes d = 0)%N.

Lemma transition_to_fields d next :
  let d' := (transition_to d next).1 in
  policy d' = policy d ∧ deb_health d' = next ∧
  consecutive_failures d' = consecutive_failures d ∧
  consecutive_successes d' = consecutive_successes d.
Proof. unfold transition_to. case_decide; simpl; split_and!; congruence. Qed.

Lemma transition_to_reports d next :
  (transition_to d next).2 =
    if decide (deb_health d = next) then None else Some (deb_health d).
Proof. unfold transition_to. repeat case_decide; simpl; congruence. Qed.

Lemma observe_policy bad d : policy (debouncer_observe bad d).1 = policy d.
Proof.
  unfold debouncer_observe. destruct (transition_to_fields (count_outcome bad d)
    (next_health (count_outcome bad d))) as (-> & _). by destruct bad.
Qed.

Lemma observe_health bad d :
  deb_health (debouncer_observe bad d).1 = next_health (count_outcome bad d).
Proof. unfold debouncer_observe. by destruct (transition_to_fields (count_outcome bad d)
    (next_health (count_outcome bad d))) as (_ & -> & _). Qed.

Lemma observe_failures bad d :
  consecutive_failures (debouncer_observe bad d).1 =
    if bad then saturating_add_u32 (consecutive_failures d) 1 else 0%N.
Proof. unfold debouncer_observe. destruct (transition_to_fields (count_outcome bad d)
    (next_health (count_outcome bad d))) as (_ & _ & -> & _). by destruct bad. Qed.

Lemma observe_successes bad d :
  consecutive_successes (debouncer_observe bad d).1 =
    if bad then 0%N else saturating_add_u32 (consecutive_successes d) 1.
Proof. unfold debouncer_observe. destruct (transition_to_fields (count_outcome bad d)
    (next_health (count_outcome bad d))) as (_ & _ & _ & ->). by destruct bad. Qed.

Lemma observe_all_cons b bads d :
  observe_all (b :: bads) d = observe_all bads (debouncer_observe b d).1.
Proof. done. Qed.

Lemma observe_all_snoc b bads d :
  observe_all (bads ++ [b]) d = (debouncer_observe b (observe_all bads d)).1.
Proof. unfold observe_all. by rewrite foldl_app. Qed.

Lemma observe_all_policy bads d : policy (observe_all bads d) = policy d.
Proof.
  induction bads as [|b bads IH] using rev_ind; [done|].
  by rewrite observe_all_snoc, observe_policy.
Qed.

Lemma observe_wf bad d : debouncer_wf d → debouncer_wf (debouncer_observe bad d).1.
Proof.
  intros [[Hf Hs] _]. unfold debouncer_wf. rewrite observe_failures, observe_successes.
  destruct bad; split; try split; auto using saturating_add_u32_bound; unfold u32_max; lia.
Qed.

Lemma observe_all_wf bads d : debouncer_wf d → debouncer_wf (observe_all bads d).
Proof.
  revert d. induction bads as [|b bads IH]; intros d Hd; [done|]. by apply IH, observe_wf.
Qed.

Lemma force_fields h d :
  let d' := (debouncer_force h d).1 in
  deb_health d' = h ∧ consecutive_failures d' = 0%N ∧ consecutive_successes d' = 0%N.
Proof.
  unfold debouncer_force. edestruct transition_to_fields as (_ & -> & -> & ->). done.
Qed.

#[export] Hint Rewrite observe_policy observe_health observe_failures observe_successes
  observe_all_policy : sentinel.

(** ** What a run of outcomes does *)

(** The length of the run of [b] a history ends with. *)
Definition trailing_run (b : bool) (hist : list bool) : nat :=
  foldl (λ n x, if bool_decide (x = b) then S n else 0) 0 hist.

Lemma trailing_run_snoc b hist x :
  trailing_run b (hist ++ [x]) = if bool_decide (x = b) then S (trailing_run b hist) else 0.
Proof. unfold trailing_run. by rewrite foldl_app. Qed.

Lemma trailing_run_suffix b hist k :
  k ≤ trailing_run b hist → ∃ l, hist = l ++ replicate k b.
Proof.
  revert k. induction hist as [|x hist IH] using rev_ind; intros k; [destruct k; [by exists []|cbn; lia]|].
  rewrite trailing_run_snoc. destruct k as [|k]; [exists (hist ++ [x]); by rewrite app_nil_r|].
  case_bool_decide as Hx; [|lia]. intros Hk. destruct (IH k) as [l ->]; [lia|]. subst x.
  exists l. by rewrite replicate_S_end, app_assoc.
Qed.

Lemma trailing_run_replicate b hist k :
  trailing_run b (hist ++ replicate k b) = k + trailing_run b hist.
Proof.
  induction k as [|k IH]; [by rewrite app_nil_r|].
  rewrite replicate_S_end, app_assoc, trailing_run_snoc, IH. by rewrite bool_decide_eq_true_2.
Qed.

Definition saturated (n : nat) : N := N.min (N.of_nat n) u32_max.

Lemma saturated_succ n : saturating_add_u32 (saturated n) 1 = saturated (S n).
Proof. unfold saturating_add_u32, saturated. lia. Qed.

(** The counters are the lengths of the runs the history ends with, up to the
    largest [u32]. *)
Theorem debouncer_counts_runs (p : DebouncePolicy) (h : Health) (hist : list bool) :
  let d := observe_all hist (debouncer_starting_at p h) in
  consecutive_failures d = saturated (trailing_run true hist) ∧
  consecutive_successes d = saturated (trailing_run false hist).
Proof.
  induction hist as [|b hist [IHf IHs]] using rev_ind; [done|]. cbn zeta in *.
  rewrite observe_all_snoc, observe_failures, observe_successes, IHf, IHs, !trailing_run_snoc.
  destruct b; simpl; by rewrite saturated_succ.
Qed.

(** Thresholds a configuration can hold: positive [u32]s. *)
Definition policy_ok (p : DebouncePolicy) : Prop :=
  (1 ≤ warning_threshold p ≤ u32_max ∧ 1 ≤ critical_threshold p ≤ u32_max ∧
   1 ≤ recovery_threshold p ≤ u32_max)%N.

(** One outcome cannot bring a component back from an outage before the run of
    successes is long enough. *)
Lemma observe_keeps_outage bad d :
  deb_health d = Unavailable →
  (consecutive_successes (debouncer_observe bad d).1 < recovery_threshold (policy d))%N →
  deb_health (debouncer_observe bad d).1 = Unavailable.
Proof.
  rewrite observe_health, observe_successes. intros Hu Hr. unfold next_health.
  destruct bad; simpl in *; rewrite Hu; repeat (case_match || case_decide); try done;
    simpl in *; apply N.leb_le in H1; lia.
Qed.

(** An outage ends only through a run of [recovery_threshold] successes: no
    other mix of outcomes, however long, downgrades it. *)
Theorem debouncer_outage_persists (p : DebouncePolicy) (hist : list bool) :
  policy_ok p →
  (∀ l1 l2, hist ≠ l1 ++ replicate (N.to_nat (recovery_threshold p)) false ++ l2) →
  deb_health (observe_all hist (debouncer_starting_at p Unavailable)) = Unavailable.
Proof.
  intros Hp. induction hist as [|b hist IH] using rev_ind; intros Hno; [done|].
  rewrite observe_all_snoc. apply observe_keeps_outage.
  - apply IH. intros l1 l2 ->. apply (Hno l1 (l2 ++ [b])). by rewrite <-!app_assoc.
  - rewrite <-observe_all_snoc, observe_all_policy. simpl.
    destruct (debouncer_counts_runs p Unavailable (hist ++ [b])) as [_ ->].
    destruct (decide (N.to_nat (recovery_threshold p) ≤ trailing_run false (hist ++ [b])))
      as [[l Hl]%trailing_run_suffix|Hlt].
    + destruct (Hno l []). by rewrite app_nil_r.
    + unfold saturated. unfold policy_ok, u32_max in *. lia.
Qed.

(** Enough failures in a row declare an outage, and enough successes in a row
    end one, whatever came before. *)
Theorem debouncer_runs_decide (p : DebouncePolicy) (h : Health) (hist : list bool) (n : nat) :
  policy_ok p →
  ((critical_threshold p ≤ N.of_nat n)%N →
   deb_health (observe_all (hist ++ replicate n true) (debouncer_starting_at p h)) = Unavailable) ∧
  ((recovery_threshold p ≤ N.of_nat n)%N →
   deb_health (observe_all (hist ++ replicate n false) (debouncer_starting_at p h)) = Healthy).
Proof.
  intros Hp. unfold policy_ok, u32_max in Hp.
  assert (∀ b, (1 ≤ n)%nat →
    let d := observe_all (hist ++ replicate n b) (debouncer_starting_at p h) in
    ∃ d0, policy d0 = p ∧ deb_health d = next_health d0 ∧
      consecutive_failures d0 = consecutive_failures d ∧
      consecutive_successes d0 = consecutive_successes d) as Hlast.
  { intros b Hn. destruct n as [|m]; [lia|]. cbn zeta. rewrite replicate_S_end, app_assoc.
    rewrite observe_all_snoc. set (d0 := observe_all _ _).
    exists (count_outcome b d0). rewrite observe_health, observe_failures, observe_successes.
    split_and!; [|done|by destruct b..].
    destruct b; simpl; unfold d0; by rewrite observe_all_policy. }
  split; intros Hn; [destruct (Hlast true) as (d0 & Hpol & -> & Hf & Hs)
                    |destruct (Hlast false) as (d0 & Hpol & -> & Hf & Hs)]; try lia;
    destruct (debouncer_counts_runs p h (hist ++ replicate n true)) as [Ht1 Ht2];
    destruct (debouncer_counts_runs p h (hist ++ replicate n false)) as [Hg1 Hg2];
    unfold next_health; rewrite Hpol, Hf, ?Hs.
  - rewrite Ht1, trailing_run_replicate. rewrite (proj2 (N.leb_le _ _)); [done|].
    unfold saturated, u32_max. lia.
  - rewrite Hg1, Hg2, trailing_run_replicate.
    assert (trailing_run true (hist ++ replicate n false) = 0) as ->.
    { destruct n as [|m]; [lia|]. by rewrite replicate_S_end, app_assoc, trailing_run_snoc. }
    rewrite !(proj2 (N.leb_gt _ _)) by (unfold saturated; lia).
    rewrite (proj2 (N.leb_le _ _)); [done|]. unfold saturated, u32_max. lia.
Qed.

Lemma debouncer_outage_persists_witness :
  policy_ok policy_default ∧
  deb_health (observe_all [false; true; false] (debouncer_starting_at policy_default Unavailable))
    = Unavailable.
Proof.
  split; [done|]. apply debouncer_outage_persists; [done|].
  intros [|a [|b [|c [|d l1]]]] l2 Heq; cbn in Heq; simplify_eq.
Defined.

Lemma debouncer_runs_decide_witness :
  policy_ok policy_default ∧
  deb_health (observe_all ([true; false] ++ replicate 3 true)
    (debouncer_starting_at policy_default Unknown)) = Unavailable ∧
  deb_health (observe_all ([true; false] ++ replicate 3 false)
    (debouncer_starting_at policy_default Unknown)) = Healthy.
Proof.
  split; [done|]. split;
    apply (debouncer_runs_decide policy_default Unknown [true; false] 3); done.
Defined.
