(* ===== verification/StateEngine.v ===== *)
(** * The state engine

    [src/state/engine.rs]: folding observations into entity state.  One
    independently debounced stream per target, probe and observer; a component
    shows the worst of the streams that vote on it.  The random identifiers of
    transitions ([Uuid::new_v4]) and the clock are arguments. *)

From S2P Require Export Debounce.

(** [ProbeMapping]. *)
Record ProbeMapping := {
  mapping_component : StateComponent;
  mapping_policy : DebouncePolicy;
  informational : bool
}.

(** [ProbeMapping::new] and [immediate]. *)
Definition probe_mapping_new (c : StateComponent) : ProbeMapping :=
  {| mapping_component := c; mapping_policy := policy_default; informational := false |}.

Definition probe_mapping_immediate (c : StateComponent) : ProbeMapping :=
  {| mapping_component := c; mapping_policy := policy_immediate; informational := false |}.

(** [ProbeMapping::informational] and [with_policy]. *)
Definition mapping_informational (m : ProbeMapping) : ProbeMapping :=
  {| mapping_component := mapping_component m; mapping_policy := mapping_policy m;
     informational := true |}.

Definition mapping_with_policy (m : ProbeMapping) (p : DebouncePolicy) : ProbeMapping :=
  {| mapping_component := mapping_component m; mapping_policy := p;
     informational := informational m |}.

(** [StateStream]. *)
Record StateStream := {
  stream_entity : EntityId;
  stream_probe : ProbeId;
  stream_observer : option EntityId;
  stream_component : StateComponent;
  last_observation : ObservationId;
  stream_finished_at : Timestamp;
  stream_debouncer : Debouncer;
  stream_state : ComponentState;
  expired : bool
}.

Abbreviation StreamKey := (EntityId * string * option EntityId)%type (only parsing).

Definition stream_key (s : StateStream) : StreamKey :=
  (stream_entity s, stream_probe s, stream_observer s).

(** [StateEngine]. *)
Record StateEngine := {
  mappings : gmap ProbeId ProbeMapping;
  streams : gmap StreamKey StateStream;
  states : gmap EntityId EntityState;
  disabled : gset (EntityId * ProbeId);
  observation_cutoff : option Timestamp
}.

(** [StateEngine::new]. *)
Definition state_engine_new : StateEngine :=
  {| mappings := ∅; streams := ∅; states := ∅; disabled := ∅; observation_cutoff := None |}.

Definition with_streams (ss : gmap StreamKey StateStream) (eng : StateEngine) : StateEngine :=
  {| mappings := mappings eng; streams := ss; states := states eng;
     disabled := disabled eng; observation_cutoff := observation_cutoff eng |}.

Definition with_states (st : gmap EntityId EntityState) (eng : StateEngine) : StateEngine :=
  {| mappings := mappings eng; streams := streams eng; states := st;
     disabled := disabled eng; observation_cutoff := observation_cutoff eng |}.

Definition with_disabled (ds : gset (EntityId * ProbeId)) (eng : StateEngine) : StateEngine :=
  {| mappings := mappings eng; streams := streams eng; states := states eng;
     disabled := ds; observation_cutoff := observation_cutoff eng |}.

(** [StateEngine::register]. *)
Definition register (probe : ProbeId) (m : ProbeMapping) (eng : StateEngine) : StateEngine :=
  {| mappings := <[ probe := m ]> (mappings eng); streams := streams eng; states := states eng;
     disabled := disabled eng; observation_cutoff := observation_cutoff eng |}.

(** [StateEngine::knows], [probe_enabled], [set_observation_cutoff]. *)
Definition knows (eng : StateEngine) (probe : ProbeId) : bool :=
  bool_decide (is_Some (mappings eng !! probe)).

Definition probe_enabled (eng : StateEngine) (e : EntityId) (probe : ProbeId) : bool :=
  bool_decide ((e, probe) ∉ disabled eng).

Definition set_observation_cutoff (cutoff : option Timestamp) (eng : StateEngine) : StateEngine :=
  {| mappings := mappings eng; streams := streams eng; states := states eng;
     disabled := disabled eng; observation_cutoff := cutoff |}.

(** [is_bad] and [cap]. *)
Definition counts_as_bad (s : ProbeStatus) : bool :=
  match s with Probe_Ok => false | _ => true end.

Definition cap (h : Health) (s : ProbeStatus) : Health :=
  match s with
  | Probe_Ok => h
  | _ =>
      let ceiling := match s with Probe_Degraded => Degraded | _ => Unavailable end in
      if (severity_rank ceiling <? severity_rank h)%N then ceiling else h
  end.

(** The health change of a stream when it is retired or goes silent. *)
Definition silence (s : StateStream) : StateStream :=
  {| stream_entity := stream_entity s; stream_probe := stream_probe s;
     stream_observer := stream_observer s; stream_component := stream_component s;
     last_observation := last_observation s; stream_finished_at := stream_finished_at s;
     stream_debouncer := (debouncer_force Unknown (stream_debouncer s)).1;
     stream_state :=
       {| health := Unknown; evidence := evidence (stream_state s); since := since (stream_state s);
          state_consecutive_failures := state_consecutive_failures (stream_state s);
          state_consecutive_successes := state_consecutive_successes (stream_state s) |};
     expired := true |}.

Section engine.
Context `{J : JsonApi} `{HI : HashIter}.
Variables (now : Timestamp) (fresh : EntityId → StateComponent → Uuid).

(** The first selection of [recompute]. *)
Definition contributes (eng : StateEngine) (e : EntityId) (c : StateComponent)
    (s : StateStream) : Prop :=
  stream_entity s = e ∧ stream_component s = c ∧ probe_enabled eng e (stream_probe s) = true.

#[global] Instance contributes_dec eng e c s : Decision (contributes eng e c s).
Proof. unfold contributes. apply _. Defined.

(** A silent stream stops voting when another observer still measures the
    same probe. *)
Definition votes (all : list StateStream) (s : StateStream) : Prop :=
  expired s = false ∨
  ¬ Exists (λ other, stream_probe other = stream_probe s ∧ expired other = false) all.

#[global] Instance votes_dec all s : Decision (votes all s).
Proof. unfold votes. apply _. Defined.

Definition contributors (eng : StateEngine) (e : EntityId) (c : StateComponent) : list StateStream :=
  let all := filter (contributes eng e c) (hash_values (streams eng)) in
  filter (votes all) all.

(** The key the worst stream is chosen by. *)
Definition vote_key (s : StateStream) : N * ProbeId * option EntityId :=
  (severity_rank (health (stream_state s)), stream_probe s, stream_observer s).

Definition set_since (t : Timestamp) (s : ComponentState) : ComponentState :=
  {| health := health s; evidence := evidence s; since := t;
     state_consecutive_failures := state_consecutive_failures s;
     state_consecutive_successes := state_consecutive_successes s |}.

Definition set_evidence (ev : list ObservationId) (s : ComponentState) : ComponentState :=
  {| health := health s; evidence := ev; since := since s;
     state_consecutive_failures := state_consecutive_failures s;
     state_consecutive_successes := state_consecutive_successes s |}.

(** The component state the contributors add up to. *)
Definition combine (cs : list StateStream) : ComponentState :=
  let worst := max_by_key vote_key cs in
  let base := match worst with
              | Some s => stream_state s
              | None => component_state_new now NotApplicable
              end in
  set_evidence (sort_dedup (cs ≫= λ s, evidence (stream_state s))) base.

(** [self.states.entry(entity).or_insert_with(..)]. *)
Definition state_or_unknown (eng : StateEngine) (e : EntityId) : EntityState :=
  default (entity_state_unknown now e) (states eng !! e).

(** [StateEngine::recompute]. *)
Definition recompute (e : EntityId) (c : StateComponent) (eng : StateEngine) :
    StateEngine * option StateTransition :=
  let combined := combine (contributors eng e c) in
  let state := state_or_unknown eng e in
  let previous := component_health state c in
  let h := health combined in
  let combined' :=
    if decide (previous = h)
    then set_since (default (since combined) (since <$> components state !! c)) combined
    else combined in
  (with_states (<[ e := set_component now c combined' state ]> (states eng)) eng,
   then_some (bool_decide (h ≠ previous))
     (state_transition_new (fresh e c) now e (Some c) previous h (evidence combined'))).

(** [StateEngine::set_probe_enabled]. *)
Definition set_probe_enabled (e : EntityId) (probe : ProbeId) (on : bool) (eng : StateEngine) :
    StateEngine * option StateTransition :=
  match mappings eng !! probe with
  | None => (eng, None)
  | Some m =>
      let changed := if on then bool_decide ((e, probe) ∈ disabled eng)
                     else bool_decide ((e, probe) ∉ disabled eng) in
      if changed then
        let eng1 := with_disabled (if on then disabled eng ∖ {[ (e, probe) ]}
                                   else {[ (e, probe) ]} ∪ disabled eng) eng in
        let eng2 :=
          if on then
            with_streams
              ((λ s, if decide (stream_entity s = e ∧ stream_probe s = probe)
                     then silence s else s) <$> streams eng1) eng1
          else eng1 in
        match states eng2 !! e with
        | Some st =>
            if decide (is_Some (components st !! mapping_component m))
            then recompute e (mapping_component m) eng2 else (eng2, None)
        | None => (eng2, None)
        end
      else (eng, None)
  end.

(** The guards of [ingest] before the mapping is used. *)
Definition too_old (eng : StateEngine) (o : Observation) : bool :=
  match observation_cutoff eng with
  | Some cutoff => (finished_at o <? cutoff)%Z
  | None => false
  end.

Definition from_the_future (o : Observation) : bool :=
  (now + seconds MAX_FUTURE_SKEW_SECONDS <? finished_at o)%Z.

(** A replay, or a delayed upload older than the stream's verdict. *)
Definition superseded (eng : StateEngine) (o : Observation) : bool :=
  match streams eng !! observation_key o with
  | Some s => bool_decide (last_observation s = observation_id o)
              || (finished_at o <? stream_finished_at s)%Z
  | None => false
  end.

(** The health a new stream starts from. *)
Definition starting_health (eng : StateEngine) (e : EntityId) (c : StateComponent) : Health :=
  if decide (Exists (λ s, stream_entity s = e ∧ stream_component s = c) (hash_values (streams eng)))
  then Unknown
  else component_health (state_or_unknown eng e) c.

Definition new_stream (o : Observation) (m : ProbeMapping) (start : Health) : StateStream :=
  {| stream_entity := target_entity o; stream_probe := probe_id o;
     stream_observer := observer_entity o; stream_component := mapping_component m;
     last_observation := observation_id o; stream_finished_at := finished_at o;
     stream_debouncer := debouncer_starting_at (mapping_policy m) start;
     stream_state := component_state_new now start; expired := false |}.

(** The debouncer and the health after one more observation. *)
Definition judge (s : ProbeStatus) (d : Debouncer) : Debouncer * Health :=
  match s with
  | Probe_Unsupported => ((debouncer_force Unknown d).1, Unknown)
  | Probe_NotApplicable => ((debouncer_force NotApplicable d).1, NotApplicable)
  | _ => let d' := (debouncer_observe (counts_as_bad s) d).1 in (d', cap (deb_health d') s)
  end.

Definition update_stream (o : Observation) (s : StateStream) : StateStream :=
  let '(d, h) := judge (status o) (stream_debouncer s) in
  {| stream_entity := stream_entity s; stream_probe := stream_probe s;
     stream_observer := stream_observer s; stream_component := stream_component s;
     last_observation := observation_id o; stream_finished_at := finished_at o;
     stream_debouncer := d;
     stream_state :=
       {| health := h; evidence := [observation_id o];
          since := if decide (health (stream_state s) ≠ h) then finished_at o
                   else since (stream_state s);
          state_consecutive_failures := consecutive_failures d;
          state_consecutive_successes := consecutive_successes d |};
     expired := false |}.

(** The part of [ingest] before [recompute]: the entry for the entity, and the
    stream with the observation folded in. *)
Definition stage_observation (o : Observation) (m : ProbeMapping) (eng : StateEngine) : StateEngine :=
  let e := target_entity o in
  let c := mapping_component m in
  let eng1 := with_states (<[ e := state_or_unknown eng e ]> (states eng)) eng in
  let s := default (new_stream o m (starting_health eng1 e c))
             (streams eng1 !! observation_key o) in
  with_streams (<[ observation_key o := update_stream o s ]> (streams eng1)) eng1.

(** [StateEngine::ingest]. *)
Definition ingest (o : Observation) (eng : StateEngine) : StateEngine * option StateTransition :=
  if negb (probe_enabled eng (target_entity o) (probe_id o)) || too_old eng o then (eng, None)
  else if from_the_future o then (eng, None)
  else
    match mappings eng !! probe_id o with
    | None => (eng, None)
    | Some m =>
        if informational m then (eng, None)
        else if superseded eng o then (eng, None)
        else recompute (target_entity o) (mapping_component m) (stage_observation o m eng)
    end.

(** [StateEngine::ingest_all]. *)
Definition ingest_all (os : list Observation) (eng : StateEngine) : StateEngine * list StateTransition :=
  foldl (λ '(eng, ts) o, let '(eng', t) := ingest o eng in (eng', ts ++ option_list t)) (eng, []) os.

(** Recompute several components in turn. *)
Definition recompute_all (ecs : list (EntityId * StateComponent)) (eng : StateEngine) :
    StateEngine * list StateTransition :=
  foldl (λ '(eng, ts) '(e, c), let '(eng', t) := recompute e c eng in (eng', ts ++ option_list t))
    (eng, []) ecs.

(** Whether [expire] silences a stream. *)
Definition gone_silent (at_ : Timestamp) (horizon : StateStream → Duration) (eng : StateEngine)
    (s : StateStream) : Prop :=
  ((stream_entity s, stream_probe s) ∉ disabled eng) ∧
  (horizon s < at_ - stream_finished_at s)%Z ∧ health (stream_state s) ≠ NotApplicable.

#[global] Instance gone_silent_dec at_ horizon eng s : Decision (gone_silent at_ horizon eng s).
Proof. unfold gone_silent. apply _. Defined.

(** [StateEngine::expire]. *)
Definition expire (at_ : Timestamp) (horizon : StateStream → Duration) (eng : StateEngine) :
    StateEngine * list StateTransition :=
  let changed : gset (EntityId * StateComponent) :=
    list_to_set (map (λ s, (stream_entity s, stream_component s))
      (filter (gone_silent at_ horizon eng) (hash_values (streams eng)))) in
  let eng1 := with_streams
    ((λ s, if decide (gone_silent at_ horizon eng s) then silence s else s) <$> streams eng) eng in
  recompute_all (btree_elements changed) eng1.

(** [StateEngine::confirms_health]. *)
Definition confirms_health (eng : StateEngine) (o : Observation) : bool :=
  if probe_enabled eng (target_entity o) (probe_id o) then
    match streams eng !! observation_key o with
    | Some s => bool_decide (health (stream_state s) = Healthy) && negb (expired s)
    | None => negb (knows eng (probe_id o))
    end
  else false.

(** [StateEngine::seed_streams]. *)
Definition seed_streams (ss : list StateStream) (eng : StateEngine) : StateEngine :=
  let eng1 := with_streams (foldl (λ m s, <[ stream_key s := s ]> m) (streams eng) ss) eng in
  let changed : gset (EntityId * StateComponent) :=
    list_to_set (map (λ s, (stream_entity s, stream_component s)) ss) in
  (recompute_all (btree_elements changed) eng1).1.

(** [StateEngine::seed]. *)
Definition seed (st : EntityState) (eng : StateEngine) : StateEngine :=
  with_states (<[ state_entity st := st ]> (states eng)) eng.
End engine.
