(* ===== verification/StateEngineSpec.v ===== *)
(** * The state engine: specification

    The invariant of [StateEngine], and what each operation does to it: which
    observations are admitted, what one observation may change, how the votes on
    a component combine, and that silence is never recovery. *)

From S2P Require Import Concrete.
From S2P Require Export StateEngine.

(** ** The invariant *)

Record engine_wf (eng : StateEngine) : Prop := {
  wf_streams : ∀ k s, streams eng !! k = Some s → stream_key s = k;
  wf_states : ∀ e st, states eng !! e = Some st → state_entity st = e;
  wf_overall : ∀ e st, states eng !! e = Some st → overall_ok st
}.

Lemma engine_new_wf : engine_wf state_engine_new.
Proof. split; simpl; intros ? ? H; by rewrite lookup_empty in H. Qed.

Lemma with_streams_wf ss eng :
  engine_wf eng → (∀ k s, ss !! k = Some s → stream_key s = k) → engine_wf (with_streams ss eng).
Proof. intros [H1 H2 H3] Hss. by split. Qed.

Lemma with_states_wf e st eng :
  engine_wf eng → state_entity st = e → overall_ok st →
  engine_wf (with_states (<[ e := st ]> (states eng)) eng).
Proof.
  intros [H1 H2 H3] He Ho. split; simpl; [done|..]; intros e' st';
    rewrite lookup_insert; case_decide; naive_solver.
Qed.

Lemma silence_key s : stream_key (silence s) = stream_key s.
Proof. done. Qed.

Lemma silence_if_key (P : Prop) `{Decision P} s :
  stream_key (if decide P then silence s else s) = stream_key s.
Proof. by destruct (decide P). Qed.

Lemma update_stream_key `{JsonApi} o s : stream_key (update_stream o s) = stream_key s.
Proof. unfold update_stream. by destruct (judge _ _). Qed.

Lemma set_component_ok now c st s : overall_ok (set_component now c st s).
Proof. done. Qed.

Lemma set_component_entity now c st s : state_entity (set_component now c st s) = state_entity s.
Proof. done. Qed.

#[export] Hint Resolve set_component_ok : sentinel.

Section spec.
Context `{HI : HashIter}.
Variables (now : Timestamp) (fresh : EntityId → StateComponent → Uuid).

Lemma state_or_unknown_entity eng e :
  engine_wf eng → state_entity (state_or_unknown now eng e) = e.
Proof.
  intros Hwf. unfold state_or_unknown. destruct (states eng !! e) eqn:He; [|done].
  by apply (wf_states _ Hwf).
Qed.

Lemma state_or_unknown_ok eng e : engine_wf eng → overall_ok (state_or_unknown now eng e).
Proof.
  intros Hwf. unfold state_or_unknown. destruct (states eng !! e) eqn:He; [|done].
  by apply (wf_overall _ Hwf e).
Qed.

Lemma recompute_wf e c eng : engine_wf eng → engine_wf (recompute now fresh e c eng).1.
Proof.
  intros Hwf. unfold recompute. simpl. apply with_states_wf; [done| |done].
  by apply state_or_unknown_entity.
Qed.

Lemma recompute_streams e c eng : streams (recompute now fresh e c eng).1 = streams eng.
Proof. done. Qed.

Lemma recompute_all_invariant (P : StateEngine → Prop) ecs eng ts :
  P eng → (∀ e c eng, P eng → P (recompute now fresh e c eng).1) →
  P (foldl (λ '(eng, ts) '(e, c),
              let '(eng', t) := recompute now fresh e c eng in (eng', ts ++ option_list t))
       (eng, ts) ecs).1.
Proof.
  intros HP Hstep. revert eng ts HP.
  induction ecs as [|[e c] ecs IH]; intros eng ts HP; [done|]. cbn [foldl].
  specialize (Hstep e c eng HP). destruct (recompute now fresh e c eng) as [eng' t].
  by apply IH.
Qed.

Lemma recompute_all_wf ecs eng : engine_wf eng → engine_wf (recompute_all now fresh ecs eng).1.
Proof.
  intros Hwf. apply (recompute_all_invariant engine_wf); [done|].
  intros. by apply recompute_wf.
Qed.

Lemma recompute_all_streams ecs eng :
  streams (recompute_all now fresh ecs eng).1 = streams eng.
Proof. by apply (recompute_all_invariant (λ eng', streams eng' = streams eng)). Qed.

(** Replacing each stream by one with the same key keeps the keys. *)
Lemma map_streams_wf (f : StateStream → StateStream) eng :
  engine_wf eng → (∀ s, stream_key (f s) = stream_key s) →
  engine_wf (with_streams (f <$> streams eng) eng).
Proof.
  intros Hwf Hf. apply with_streams_wf; [done|]. intros k s. rewrite lookup_fmap.
  destruct (streams eng !! k) as [s0|] eqn:Hs; [|done]. intros [= <-].
  rewrite Hf. by apply (wf_streams _ Hwf).
Qed.

Lemma set_probe_enabled_wf e probe on eng :
  engine_wf eng → engine_wf (set_probe_enabled now fresh e probe on eng).1.
Proof.
  intros Hwf. unfold set_probe_enabled. destruct (mappings eng !! probe) as [m|]; [|done].
  match goal with |- context [if ?b then _ else _] => destruct b end; [|done].
  set (eng1 := with_disabled _ eng).
  assert (engine_wf eng1) as Hwf1 by (by destruct Hwf).
  match goal with |- context [states ?e2 !! e] => set (eng2 := e2) end.
  assert (engine_wf eng2) as Hwf2.
  { unfold eng2. destruct on; [|done]. apply map_streams_wf; [done|]. intros s. apply silence_if_key. }
  destruct (states eng2 !! e) as [st|]; [|done].
  destruct (decide (is_Some (components st !! mapping_component m)));
    [by apply recompute_wf | done].
Qed.

Lemma expire_wf at_ horizon eng : engine_wf eng → engine_wf (expire now fresh at_ horizon eng).1.
Proof.
  intros Hwf. apply recompute_all_wf, map_streams_wf; [done|]. intros s. apply silence_if_key.
Qed.

Lemma seed_streams_wf ss eng : engine_wf eng → engine_wf (seed_streams now fresh ss eng).
Proof.
  intros Hwf. apply recompute_all_wf, with_streams_wf; [done|].
  pose proof (wf_streams _ Hwf) as Hk. revert Hk. generalize (streams eng).
  induction ss as [|s ss IH]; intros m Hm; simpl; [done|]. apply IH.
  intros k s'. rewrite lookup_insert. case_decide; [naive_solver | apply Hm].
Qed.

Context `{J : JsonApi}.

Lemma new_stream_key o m start : stream_key (new_stream now o m start) = observation_key o.
Proof. done. Qed.

Lemma stage_observation_wf o m eng : engine_wf eng → engine_wf (stage_observation now o m eng).
Proof.
  intros Hwf. apply with_streams_wf.
  - apply with_states_wf; [done|by apply state_or_unknown_entity|by apply state_or_unknown_ok].
  - intros k s. simpl. rewrite lookup_insert. case_decide; [|apply (wf_streams _ Hwf)].
    intros [= <-]. rewrite update_stream_key. subst k.
    destruct (streams eng !! observation_key o) eqn:Hs; simpl; [by apply (wf_streams _ Hwf)|done].
Qed.

(** The conditions under which an observation counts. *)
Record admitted (eng : StateEngine) (o : Observation) (m : ProbeMapping) : Prop := {
  adm_enabled : probe_enabled eng (target_entity o) (probe_id o) = true;
  adm_cutoff : too_old eng o = false;
  adm_time : from_the_future now o = false;
  adm_mapping : mappings eng !! probe_id o = Some m;
  adm_informational : informational m = false;
  adm_newer : superseded eng o = false
}.

Lemma ingest_admitted eng o m :
  admitted eng o m →
  ingest now fresh o eng =
    recompute now fresh (target_entity o) (mapping_component m) (stage_observation now o m eng).
Proof. intros [H1 H2 H3 H4 H5 H6]. unfold ingest. by rewrite H1, H2, H3, H4, H5, H6. Qed.

Lemma ingest_cases eng o :
  (∃ m, admitted eng o m) ∨ ingest now fresh o eng = (eng, None).
Proof.
  unfold ingest. destruct (probe_enabled eng (target_entity o) (probe_id o)) eqn:H1; [|by right].
  destruct (too_old eng o) eqn:H2; [by right|]. destruct (from_the_future now o) eqn:H3; [by right|].
  destruct (mappings eng !! probe_id o) as [m|] eqn:H4; [|by right].
  destruct (informational m) eqn:H5; [by right|].
  destruct (superseded eng o) eqn:H6; [by right|]. left. by exists m.
Qed.

Lemma ingest_superseded eng o : superseded eng o = true → ingest now fresh o eng = (eng, None).
Proof.
  intros Hs. destruct (ingest_cases eng o) as [[m [_ _ _ _ _ Hn]]|]; [congruence|done].
Qed.

Lemma ingest_wf o eng : engine_wf eng → engine_wf (ingest now fresh o eng).1.
Proof.
  intros Hwf. destruct (ingest_cases eng o) as [[m Hadm]| ->]; [|done].
  rewrite (ingest_admitted _ _ _ Hadm). by apply recompute_wf, stage_observation_wf.
Qed.
End spec.

(** ** Reachable engines *)

Section reachable.
Context `{HI : HashIter} `{J : JsonApi}.

(** One operation of the engine, at any time and with any fresh identifiers. *)
Inductive engine_step : relation StateEngine :=
  | step_register probe m eng : engine_step eng (register probe m eng)
  | step_cutoff cutoff eng : engine_step eng (set_observation_cutoff cutoff eng)
  | step_set_probe_enabled now fresh e probe on eng :
      engine_step eng (set_probe_enabled now fresh e probe on eng).1
  | step_ingest now fresh o eng : engine_step eng (ingest now fresh o eng).1
  | step_expire now fresh at_ horizon eng : engine_step eng (expire now fresh at_ horizon eng).1
  | step_seed_streams now fresh ss eng : engine_step eng (seed_streams now fresh ss eng)
  | step_seed st eng : overall_ok st → engine_step eng (seed st eng).

Lemma engine_step_wf eng eng' : engine_step eng eng' → engine_wf eng → engine_wf eng'.
Proof.
  intros Hstep Hwf. destruct Hstep.
  - by destruct Hwf.
  - by destruct Hwf.
  - by apply set_probe_enabled_wf.
  - by apply ingest_wf.
  - by apply expire_wf.
  - by apply seed_streams_wf.
  - by apply with_states_wf.
Qed.

(** Whatever operations run, in whatever order, every stream stays filed under
    its own target, probe and observer, every state under its entity, and the
    overall health of an entity is the roll-up of its components. *)
Theorem engine_reachable_wf (eng : StateEngine) :
  rtc engine_step state_engine_new eng → engine_wf eng.
Proof.
  intros Hreach. apply (rtc_ind_r (R := engine_step) (λ e, engine_wf e) state_engine_new);
    [apply engine_new_wf | | done].
  intros e1 e2 _ Hstep Hwf. by eapply engine_step_wf.
Qed.
End reachable.

(** ** The order of a hash table does not matter *)

Section order.
Variables (H1 H2 : HashIter) (now : Timestamp) (fresh : EntityId → StateComponent → Uuid).

Lemma hash_values_perm {K V} `{Countable K} (m : gmap K V) :
  @hash_values H1 K V _ _ m ≡ₚ @hash_values H2 K V _ _ m.
Proof. unfold hash_values. by rewrite !hash_iter_perm. Qed.

Lemma filter_perm_ext {A} (P Q : A → Prop) `{∀ x, Decision (P x), ∀ x, Decision (Q x)} l1 l2 :
  (∀ x, P x ↔ Q x) → l1 ≡ₚ l2 → filter P l1 ≡ₚ filter Q l2.
Proof. intros HPQ ->. by rewrite (list_filter_iff P Q). Qed.

Lemma contributors_perm eng e c :
  @contributors H1 eng e c ≡ₚ @contributors H2 eng e c.
Proof.
  unfold contributors. cbn zeta.
  assert (filter (contributes eng e c) (@hash_values H1 _ _ _ _ (streams eng)) ≡ₚ
          filter (contributes eng e c) (@hash_values H2 _ _ _ _ (streams eng))) as Hp
    by (apply filter_perm_ext; [done | apply hash_values_perm]).
  apply filter_perm_ext; [|done]. intros s. unfold votes. by rewrite Hp.
Qed.

(** Among the contributors to one component the vote keys differ. *)
Lemma vote_key_inj eng e c s t :
  engine_wf eng → s ∈ @contributors H1 eng e c → t ∈ @contributors H1 eng e c →
  vote_key s = vote_key t → s = t.
Proof.
  intros Hwf Hs Ht Hk. unfold contributors in *.
  apply list_elem_of_filter in Hs as [_ Hs], Ht as [_ Ht].
  apply list_elem_of_filter in Hs as [(Hse & _) Hs], Ht as [(Hte & _) Ht].
  apply elem_of_hash_values in Hs as [ks Hs], Ht as [kt Ht].
  pose proof (wf_streams _ Hwf _ _ Hs) as Hks. pose proof (wf_streams _ Hwf _ _ Ht) as Hkt.
  unfold vote_key in Hk. injection Hk as _ Hp Ho. unfold stream_key in *. congruence.
Qed.

Lemma combine_perm eng e c :
  engine_wf eng →
  combine now (@contributors H1 eng e c) = combine now (@contributors H2 eng e c).
Proof.
  intros Hwf. pose proof (contributors_perm eng e c) as Hp. unfold combine.
  rewrite (max_by_key_perm vote_key _ (@contributors H2 eng e c)); [|by eauto using vote_key_inj|done].
  unfold sort_dedup. by rewrite (sort_by_id_perm _ _ (bind_Permutation _ _ _ Hp)).
Qed.

Lemma recompute_order e c eng :
  engine_wf eng → @recompute H1 now fresh e c eng = @recompute H2 now fresh e c eng.
Proof. intros Hwf. unfold recompute. by rewrite combine_perm. Qed.

Context `{J : JsonApi}.

Lemma starting_health_order eng e c :
  @starting_health H1 now eng e c = @starting_health H2 now eng e c.
Proof.
  unfold starting_health. apply decide_ext. by rewrite (hash_values_perm (streams eng)).
Qed.

Lemma stage_observation_order o m eng :
  @stage_observation J H1 now o m eng = @stage_observation J H2 now o m eng.
Proof. unfold stage_observation. cbn zeta. by rewrite starting_health_order. Qed.

(** C3.  What an observation does to the engine, and the transition it
    produces, do not depend on the order the stream table is iterated in. *)
Theorem ingest_order_independent (o : Observation) (eng : StateEngine) :
  engine_wf eng → @ingest J H1 now fresh o eng = @ingest J H2 now fresh o eng.
Proof.
  intros Hwf. unfold ingest. repeat case_match; try done.
  rewrite <-stage_observation_order. apply recompute_order.
  by apply (@stage_observation_wf H1).
Qed.
End order.

(** ** What an operation shows *)

Section verdicts.
Context `{HI : HashIter} `{J : JsonApi}.
Implicit Types (eng : StateEngine) (s : StateStream).

(** A stream counts towards a component while its probe is enabled; one that
    fell silent counts only as long as nobody else still measures its probe. *)
Definition measures eng (e : EntityId) (c : StateComponent) s : Prop :=
  streams eng !! stream_key s = Some s ∧ contributes eng e c s.

Definition has_vote eng (e : EntityId) (c : StateComponent) s : Prop :=
  measures eng e c s ∧
  (expired s = false ∨
   ∀ t, measures eng e c t → stream_probe t = stream_probe s → expired t = true).

(** The health of a component is that of its worst voter, or not applicable
    when nobody votes. *)
Definition verdict eng (e : EntityId) (c : StateComponent) (h : Health) : Prop :=
  (h = NotApplicable ∧ ∀ s, ¬ has_vote eng e c s) ∨
  (∃ s, has_vote eng e c s ∧ health (stream_state s) = h ∧
     ∀ t, has_vote eng e c t → (severity_rank (health (stream_state t)) ≤ severity_rank h)%N).

(** What the engine shows for a component. *)
Definition shown eng (e : EntityId) (c : StateComponent) : Health :=
  default NotApplicable (states eng !! e ≫= λ st, Some (component_health st c)).

Lemma elem_of_measures eng e c s :
  engine_wf eng →
  s ∈ filter (contributes eng e c) (hash_values (streams eng)) ↔ measures eng e c s.
Proof.
  intros Hwf. rewrite list_elem_of_filter, elem_of_hash_values. unfold measures. split.
  - intros [Hc [k Hk]]. by rewrite (wf_streams _ Hwf _ _ Hk).
  - intros [Hk Hc]. eauto.
Qed.

Lemma elem_of_contributors eng e c s :
  engine_wf eng → s ∈ contributors eng e c ↔ has_vote eng e c s.
Proof.
  intros Hwf. unfold contributors. cbn zeta.
  rewrite list_elem_of_filter, elem_of_measures by done. unfold has_vote, votes.
  rewrite Exists_exists. split.
  - intros [[Hx|Hx] Hm]; (split; [done|]); [by left|]. right. intros t Ht Hp.
    destruct (expired t) eqn:He; [done|]. destruct Hx. exists t. by rewrite elem_of_measures.
  - intros [Hm [Hx|Hx]]; (split; [|done]); [by left|]. right. intros (t & Ht & Hp & He).
    rewrite elem_of_measures in Ht by done. by rewrite Hx in He.
Qed.

Lemma combine_verdict now eng e c :
  engine_wf eng → verdict eng e c (health (combine now (contributors eng e c))).
Proof.
  intros Hwf. unfold combine, verdict. cbn [health set_evidence].
  destruct (max_by_key vote_key (contributors eng e c)) as [s|] eqn:Hmax.
  - right. apply max_by_key_Some in Hmax as [Hin Hbest]. exists s.
    rewrite <-elem_of_contributors by done. split_and!; [done..|]. intros t Ht.
    rewrite <-elem_of_contributors in Ht by done.
    by destruct (Hbest t Ht) as [[Hle _] _].
  - left. split; [done|]. intros s Hs. rewrite <-elem_of_contributors in Hs by done.
    apply max_by_key_None in Hmax. rewrite Hmax in Hs. by apply elem_of_nil in Hs.
Qed.

Lemma health_set_since t st : health (set_since t st) = health st.
Proof. done. Qed.

Lemma shown_component now eng e c :
  component_health (state_or_unknown now eng e) c = shown eng e c.
Proof. unfold state_or_unknown, shown. by destruct (states eng !! e). Qed.

Lemma shown_recompute now fresh e c eng e' c' :
  shown (recompute now fresh e c eng).1 e' c' =
    if decide ((e, c) = (e', c')) then health (combine now (contributors eng e c))
    else shown eng e' c'.
Proof.
  unfold shown, recompute. cbn [fst states with_states]. rewrite lookup_insert.
  destruct (decide (e = e')) as [<-|He]; cbn.
  - rewrite component_health_set. destruct (decide (c = c')) as [<-|Hc].
    + destruct (decide ((e, c) = (e, c))); [|done].
      by destruct (decide (component_health _ _ = _)).
    + rewrite decide_False by congruence. apply shown_component.
  - by rewrite decide_False by congruence.
Qed.

Lemma recompute_transition now fresh e c eng :
  (recompute now fresh e c eng).2 =
    if decide (shown eng e c = shown (recompute now fresh e c eng).1 e c) then None
    else Some (state_transition_new (fresh e c) now e (Some c) (shown eng e c)
           (shown (recompute now fresh e c eng).1 e c)
           (evidence (combine now (contributors eng e c)))).
Proof.
  rewrite shown_recompute. destruct (decide ((e, c) = (e, c))); [|done]. unfold recompute. cbn [snd].
  rewrite shown_component. unfold then_some. case_bool_decide; repeat case_decide; try congruence.
Qed.

(** Recomputing does not move a vote. *)
Lemma verdict_recompute now fresh e c eng e' c' h :
  verdict (recompute now fresh e c eng).1 e' c' h ↔ verdict eng e' c' h.
Proof. done. Qed.

Lemma verdict_unique eng e c h h' : verdict eng e c h → verdict eng e c h' → h = h'.
Proof.
  intros [[-> H1]|(s & Hs & <- & H1)] [[-> H2]|(t & Ht & <- & H2)]; [done|naive_solver..|].
  apply (inj severity_rank). apply N.le_antisymm; auto.
Qed.
End verdicts.

Section ingest_effect.
Context `{HI : HashIter} `{J : JsonApi}.
Variables (now : Timestamp) (fresh : EntityId → StateComponent → Uuid).

Lemma stage_observation_stream o m eng k :
  k ≠ observation_key o → streams (stage_observation now o m eng) !! k = streams eng !! k.
Proof. intros Hk. cbn. by rewrite lookup_insert_ne. Qed.

Lemma shown_stage o m eng e c :
  shown (stage_observation now o m eng) e c = shown eng e c.
Proof.
  unfold shown. cbn. rewrite lookup_insert. case_decide as He; [subst e|done]. cbn.
  unfold state_or_unknown. by destruct (states eng !! target_entity o).
Qed.

(** One observation moves one stream and one component: every other
    stream, and every other component of every entity, shows what it showed,
    and the transition, if any, is about that component. *)
Theorem ingest_frame (eng : StateEngine) (o : Observation) :
  let (eng', t) := ingest now fresh o eng in
  (∀ k, k ≠ observation_key o → streams eng' !! k = streams eng !! k) ∧
  (∀ e c, (∀ m, mappings eng !! probe_id o = Some m → (e, c) ≠ (target_entity o, mapping_component m)) →
     shown eng' e c = shown eng e c) ∧
  (∀ tr, t = Some tr →
     transition_entity tr = target_entity o ∧
     ∃ m, mappings eng !! probe_id o = Some m ∧
       transition_component tr = Some (mapping_component m) ∧
       from_health tr = shown eng (target_entity o) (mapping_component m) ∧
       to_health tr = shown eng' (target_entity o) (mapping_component m) ∧
       from_health tr ≠ to_health tr).
Proof.
  destruct (ingest_cases now fresh eng o) as [[m Hadm]| ->]; [|by split_and!; intros].
  rewrite (ingest_admitted now fresh _ _ _ Hadm). destruct Hadm as [_ _ _ Hmap _ _].
  pose proof (recompute_transition now fresh (target_entity o) (mapping_component m)
                (stage_observation now o m eng)) as Ht.
  destruct (recompute _ _ _ _ _) as [eng' t] eqn:Hr.
  assert (eng' = (recompute now fresh (target_entity o) (mapping_component m)
                    (stage_observation now o m eng)).1) as He by (by rewrite Hr).
  cbn [fst snd] in Ht. rewrite shown_stage in Ht. split_and!.
  - intros k Hk. rewrite He, recompute_streams. by apply stage_observation_stream.
  - intros e c Hec. rewrite He, shown_recompute, decide_False by (specialize (Hec m Hmap); congruence).
    apply shown_stage.
  - intros tr ->. case_decide; [done|]. injection Ht as ->. cbn. split; [done|]. by exists m.
Qed.

(** C1.  After every admitted observation the component it reports on shows the
    worst of its votes, and a transition is recorded exactly when that differs
    from what was shown. *)
Theorem ingest_shows_verdict (eng : StateEngine) (o : Observation) (m : ProbeMapping) :
  engine_wf eng → admitted now eng o m →
  let (eng', t) := ingest now fresh o eng in
  verdict eng' (target_entity o) (mapping_component m)
    (shown eng' (target_entity o) (mapping_component m)) ∧
  (t = None ↔ shown eng' (target_entity o) (mapping_component m) =
              shown eng (target_entity o) (mapping_component m)).
Proof.
  intros Hwf Hadm. rewrite (ingest_admitted now fresh _ _ _ Hadm).
  pose proof (stage_observation_wf now o m eng Hwf) as Hwf'.
  set (e := target_entity o). set (c := mapping_component m).
  pose proof (recompute_transition now fresh e c (stage_observation now o m eng)) as Ht.
  pose proof (shown_recompute now fresh e c (stage_observation now o m eng) e c) as Hs.
  pose proof (recompute_wf now fresh e c _ Hwf') as Hwf2.
  pose proof (combine_verdict now _ e c Hwf') as Hv.
  rewrite <-(verdict_recompute now fresh e c) in Hv.
  destruct (recompute _ _ _ _ _) as [eng' t]. cbn [fst snd] in *.
  rewrite decide_True in Hs by done. rewrite <-Hs in Hv. split; [done|].
  rewrite shown_stage in Ht. subst t. case_decide; split; congruence.
Qed.

Lemma update_stream_fields o s :
  let s' := update_stream o s in
  last_observation s' = observation_id o ∧ stream_finished_at s' = finished_at o ∧
  expired s' = false ∧ evidence (stream_state s') = [observation_id o].
Proof. unfold update_stream. by destruct (judge _ _). Qed.

(** Once an observation has been folded in, a replay of it and every older
    observation of the same target, probe and observer changes nothing,
    whenever it arrives. *)
Theorem ingest_replay (eng : StateEngine) (o : Observation) (m : ProbeMapping) :
  admitted now eng o m →
  ∀ now' fresh' o', observation_key o' = observation_key o →
    (observation_id o' = observation_id o ∨ (finished_at o' < finished_at o)%Z) →
    ingest now' fresh' o' (ingest now fresh o eng).1 = ((ingest now fresh o eng).1, None).
Proof.
  intros Hadm now' fresh' o' Hkey Hold. apply ingest_superseded. unfold superseded.
  rewrite (ingest_admitted now fresh _ _ _ Hadm), recompute_streams, Hkey. cbn.
  rewrite lookup_insert_eq.
  match goal with |- context [update_stream o ?s] =>
    destruct (update_stream_fields o s) as (-> & -> & _ & _) end.
  apply orb_true_iff. destruct Hold as [->|Hlt]; [left; by apply bool_decide_eq_true | right; lia].
Qed.

(** The status of one observation bounds what its stream reports. *)
Lemma cap_rank h s :
  (severity_rank (cap h s) ≤ severity_rank h)%N ∧
  (s = Probe_Degraded → (severity_rank (cap h s) ≤ severity_rank Degraded)%N).
Proof. destruct s, h; unfold cap; simpl; split; intros; try done; lia. Qed.
End ingest_effect.

(** ** Silence *)

Section silence.
Context `{HI : HashIter}.
Variables (now : Timestamp) (fresh : EntityId → StateComponent → Uuid).

Lemma recompute_all_shown ecs eng e c :
  engine_wf eng →
  shown (recompute_all now fresh ecs eng).1 e c = shown eng e c ∧ (e, c) ∉ ecs ∨
  verdict eng e c (shown (recompute_all now fresh ecs eng).1 e c) ∧ (e, c) ∈ ecs.
Proof.
  intros Hwf. unfold recompute_all.
  assert (∀ eng1 ts, engine_wf eng1 → streams eng1 = streams eng → disabled eng1 = disabled eng →
    (shown eng1 e c = shown eng e c ∨ verdict eng e c (shown eng1 e c)) →
    let eng2 := (foldl (λ '(eng, ts) '(e, c),
              let '(eng', t) := recompute now fresh e c eng in (eng', ts ++ option_list t))
            (eng1, ts) ecs).1 in
    (shown eng2 e c = shown eng1 e c ∧ (e, c) ∉ ecs) ∨
    (verdict eng e c (shown eng2 e c) ∧ (e, c) ∈ ecs)) as Hgen.
  { induction ecs as [|[e' c'] ecs IH]; intros eng1 ts Hwf1 Hs Hd Hinv; cbn [foldl].
    - left. split; [done|]. set_solver.
    - pose proof (recompute_wf now fresh e' c' eng1 Hwf1) as Hwf2.
      pose proof (combine_verdict now eng1 e' c' Hwf1) as Hv.
      pose proof (shown_recompute now fresh e' c' eng1 e c) as Hsh.
      assert (∀ h, verdict eng1 e' c' h ↔ verdict eng e' c' h) as Hveq.
      { intros h. unfold verdict, has_vote, measures, contributes, probe_enabled. by rewrite Hs, Hd. }
      rewrite Hveq in Hv.
      assert (streams (recompute now fresh e' c' eng1).1 = streams eng) as Hs2 by done.
      assert (disabled (recompute now fresh e' c' eng1).1 = disabled eng) as Hd2 by done.
      destruct (recompute now fresh e' c' eng1) as [eng2 t]. cbn [fst] in *.
      destruct (decide ((e', c') = (e, c))) as [[= -> ->]|Hne].
      + rewrite <-Hsh in Hv. destruct (IH eng2 (ts ++ option_list t)) as [[-> _]|[Hv' _]]; try done.
        * by right.
        * right. split; [done|]. set_solver.
        * right. split; [done|]. set_solver.
      + destruct (IH eng2 (ts ++ option_list t)) as [[-> Hn]|[Hv' Hn]]; try done.
        * by rewrite Hsh.
        * left. split; [done|]. intros [?|?]%elem_of_cons; congruence.
        * right. split; [done|]. set_solver. }
  apply (Hgen eng []); try done. by left.
Qed.

(** C2.  Silence is never recovery, and never an outage either: when every
    enabled stream of a component has been quiet for longer than its horizon,
    [expire] leaves the component unknown. *)
Theorem expire_silence_is_unknown (eng : StateEngine) (at_ : Timestamp)
    (horizon : StateStream → Duration) (e : EntityId) (c : StateComponent) :
  engine_wf eng →
  (∃ s, measures eng e c s) →
  (∀ s, measures eng e c s → gone_silent at_ horizon eng s) →
  shown (expire now fresh at_ horizon eng).1 e c = Unknown.
Proof.
  intros Hwf [s0 Hs0] Hall. unfold expire.
  set (eng1 := with_streams _ eng).
  assert (engine_wf eng1) as Hwf1 by (apply map_streams_wf; [done|]; intros; apply silence_if_key).
  assert (∀ s, measures eng1 e c s → expired s = true ∧ health (stream_state s) = Unknown) as Hq.
  { intros s [Hk Hc]. unfold eng1 in Hk. cbn in Hk. rewrite lookup_fmap in Hk.
    destruct (streams eng !! stream_key s) as [s'|] eqn:Hs'; [|done]. injection Hk as <-.
    assert (measures eng e c s') as Hm.
    { split; [|by revert Hc; case_decide]. by rewrite silence_if_key in Hs'. }
    rewrite decide_True by (by apply Hall). done. }
  assert (measures eng1 e c (silence s0)) as Hm0.
  { destruct Hs0 as [Hk Hc]. split; [|done]. unfold eng1. cbn. rewrite lookup_fmap.
    change (stream_key (silence s0)) with (stream_key s0). rewrite Hk. cbn.
    by rewrite decide_True by (by apply Hall). }
  match goal with |- context [recompute_all _ _ ?l _] => set (ecs := l) end.
  destruct (recompute_all_shown ecs eng1 e c Hwf1) as [[_ Hn]|[Hv _]].
  - destruct Hn. apply elem_of_btree_elements, elem_of_list_to_set, list_elem_of_fmap.
    exists s0. pose proof (Hall s0 Hs0) as Hsil. destruct Hs0 as [Hk [He [Hc Hp]]].
    split; [by rewrite He, Hc|]. apply list_elem_of_filter. split; [done|].
    apply elem_of_hash_values. eauto.
  - destruct Hv as [[_ Hno]|(s & [Hm _] & <- & _)]; [|by apply Hq].
    destruct (Hno (silence s0)). split; [done|]. right. intros t Ht _. by apply Hq.
Qed.
End silence.

(** ** An engine at work *)

Section example.
Definition node : EntityId := {| as_uuid := 1 |}.
Definition peer : EntityId := {| as_uuid := 2 |}.

(** An engine that reads the probe "ping" into the network component. *)
Definition ping_engine : StateEngine :=
  register "ping" (probe_mapping_immediate Component_Network) state_engine_new.

Definition fresh_ids (e : EntityId) (c : StateComponent) : Uuid := component_index c.

Definition ping_failed : Observation :=
  with_observer (observation_new {| observation_uuid := 7 |} 100 "ping" node Probe_Failed) peer.

Definition ping_mapping : ProbeMapping := probe_mapping_immediate Component_Network.

Lemma ping_engine_wf : engine_wf ping_engine.
Proof.
  apply (engine_step_wf state_engine_new); [|apply engine_new_wf].
  apply (step_register "ping" ping_mapping).
Qed.

Lemma ping_admitted : admitted 100 ping_engine ping_failed ping_mapping.
Proof. by split. Qed.

Definition pinged_engine : StateEngine := (ingest 100 fresh_ids ping_failed ping_engine).1.

Lemma pinged_engine_wf : engine_wf pinged_engine.
Proof. apply ingest_wf, ping_engine_wf. Qed.

Lemma pinged_measures s :
  measures pinged_engine node Component_Network s →
  gone_silent (hours 1) (λ _, minutes 5) pinged_engine s.
Proof.
  intros [Hk _]. unfold pinged_engine in Hk.
  rewrite (ingest_admitted _ _ _ _ _ ping_admitted), recompute_streams in Hk. cbn in Hk.
  apply lookup_insert_Some in Hk as [[_ <-]|[_ Hk]]; [|by rewrite lookup_empty in Hk].
  by_computation.
Qed.
End example.

Lemma engine_reachable_wf_witness :
  rtc engine_step state_engine_new ping_engine ∧ engine_wf ping_engine.
Proof.
  assert (rtc engine_step state_engine_new ping_engine) as Hr
    by (apply rtc_once, (step_register "ping" ping_mapping)).
  split; [done|]. by apply engine_reachable_wf.
Defined.

Lemma ingest_order_independent_witness :
  engine_wf pinged_engine ∧
  @ingest concrete_json concrete_hash 200 fresh_ids ping_failed pinged_engine =
  @ingest concrete_json reversed_hash 200 fresh_ids ping_failed pinged_engine.
Proof.
  split; [apply pinged_engine_wf|]. apply ingest_order_independent, pinged_engine_wf.
Defined.

Lemma ingest_shows_verdict_witness :
  engine_wf ping_engine ∧ admitted 100 ping_engine ping_failed ping_mapping ∧
  let (eng', t) := ingest 100 fresh_ids ping_failed ping_engine in
  verdict eng' node Component_Network (shown eng' node Component_Network) ∧
  (t = None ↔ shown eng' node Component_Network = shown ping_engine node Component_Network).
Proof.
  split; [apply ping_engine_wf|]. split; [apply ping_admitted|].
  apply (ingest_shows_verdict 100 fresh_ids ping_engine ping_failed ping_mapping);
    [apply ping_engine_wf | apply ping_admitted].
Defined.

Lemma ingest_replay_witness :
  admitted 100 ping_engine ping_failed ping_mapping ∧
  ingest 300 fresh_ids ping_failed (ingest 100 fresh_ids ping_failed ping_engine).1 =
    ((ingest 100 fresh_ids ping_failed ping_engine).1, None).
Proof.
  split; [apply ping_admitted|].
  apply (ingest_replay 100 fresh_ids ping_engine ping_failed ping_mapping ping_admitted);
    [done | by left].
Defined.

Lemma expire_silence_is_unknown_witness :
  engine_wf pinged_engine ∧
  (∃ s, measures pinged_engine node Component_Network s) ∧
  shown (expire (hours 1) fresh_ids (hours 1) (λ _, minutes 5) pinged_engine).1
    node Component_Network = Unknown.
Proof.
  assert (∃ s, measures pinged_engine node Component_Network s) as Hex.
  { exists (update_stream ping_failed (new_stream 100 ping_failed ping_mapping NotApplicable)).
    split; [|by split_and!]. unfold pinged_engine.
    rewrite (ingest_admitted _ _ _ _ _ ping_admitted), recompute_streams. reflexivity. }
  split; [apply pinged_engine_wf|]. split; [done|].
  apply expire_silence_is_unknown; [apply pinged_engine_wf | done | apply pinged_measures].
Defined.
