(* ===== verification/Settled.v ===== *)
(** * Settled engines

    What a component shows is worth persisting only if it can be recomputed
    from the streams: in a settled engine every component some stream feeds, or
    some disabled probe used to, is what its contributors add up to.  Every
    operation of a running engine keeps it settled. *)

From S2P Require Import Concrete.
From S2P Require Export StateEngineSpec.

Section settled.
Context `{HI : HashIter}.
Implicit Types (eng : StateEngine) (s : StateStream) (e : EntityId) (c : StateComponent).

(** ** Definitions *)

(** One component of one entity. *)
Definition component_of eng e c : option ComponentState := states eng !! e ≫= λ st, components st !! c.

(** A component's state, but for since when. *)
Definition forget_since (cs : ComponentState) : ComponentState := set_since 0 cs.

(** What the streams make of a component. *)
Definition recomputed eng e c : ComponentState := forget_since (combine 0 (contributors eng e c)).

(** A stream feeds the component. *)
Definition fed eng e c : Prop :=
  ∃ k s, streams eng !! k = Some s ∧ stream_entity s = e ∧ stream_component s = c.

(** A disabled probe of the entity would. *)
Definition muted eng e c : Prop :=
  ∃ p m, (e, p) ∈ disabled eng ∧ mappings eng !! p = Some m ∧ mapping_component m = c.

(** Every stream feeds the component its probe is declared to. *)
Definition coherent eng : Prop :=
  ∀ k s m, streams eng !! k = Some s → mappings eng !! stream_probe s = Some m → mapping_component m = stream_component s.

Record settled eng : Prop := {
  settled_coherent : coherent eng;
  settled_present : ∀ e c, fed eng e c → is_Some (component_of eng e c);
  settled_resolved : ∀ e c cs, component_of eng e c = Some cs → fed eng e c ∨ muted eng e c →
    forget_since cs = recomputed eng e c
}.

(** One operation of a running engine; what a diagnosis attaches to a state is
    not a component. *)
Inductive running_step `{J : JsonApi} : relation StateEngine :=
  | run_cutoff cutoff eng : running_step eng (set_observation_cutoff cutoff eng)
  | run_set_probe_enabled now fresh e probe on eng :
      running_step eng (set_probe_enabled now fresh e probe on eng).1
  | run_ingest now fresh o eng : running_step eng (ingest now fresh o eng).1
  | run_expire now fresh at_ horizon eng : running_step eng (expire now fresh at_ horizon eng).1
  | run_classify e st labels eng : states eng !! e = Some st →
      running_step eng (with_states (<[ e := set_classifications labels st ]> (states eng)) eng).

(** ** Recomputing *)

Lemma forget_combine now now' cs : forget_since (combine now cs) = forget_since (combine now' cs).
Proof. unfold combine. by destruct (max_by_key vote_key cs). Qed.

Lemma forget_set_since t cs : forget_since (set_since t cs) = forget_since cs.
Proof. done. Qed.

Lemma contributors_frame eng eng' e c :
  streams eng' = streams eng → disabled eng' = disabled eng → contributors eng' e c = contributors eng e c.
Proof. destruct eng, eng'. cbn. by intros -> ->. Qed.

Lemma recomputed_frame eng eng' e c :
  streams eng' = streams eng → disabled eng' = disabled eng → recomputed eng' e c = recomputed eng e c.
Proof. intros Hs Hd. unfold recomputed. by rewrite (contributors_frame eng eng'). Qed.

(** The same voters, in whatever order, add up to the same. *)
Lemma recomputed_same eng eng' e c :
  engine_wf eng → engine_wf eng' → (∀ s, measures eng' e c s ↔ measures eng e c s) →
  recomputed eng' e c = recomputed eng e c.
Proof.
  intros Hwf Hwf' Hm. unfold recomputed. f_equal.
  assert (contributors eng' e c ≡ₚ contributors eng e c) as Hp.
  { assert (∀ eng, engine_wf eng → NoDup (contributors eng e c)) as Hnd.
    { clear. intros eng Hwf. unfold contributors. cbn zeta. do 2 apply NoDup_filter. unfold hash_values.
      apply (NoDup_fmap_1 stream_key). rewrite <- list_fmap_compose.
      assert ((stream_key ∘ snd) <$> hash_iter (streams eng) = (hash_iter (streams eng)).*1) as ->.
      { apply list_fmap_ext. intros i [k s] Hi. apply list_elem_of_lookup_2, elem_of_hash_iter in Hi. cbn.
        by apply (wf_streams _ Hwf). }
      rewrite hash_iter_perm. apply NoDup_fst_map_to_list. }
    apply NoDup_Permutation; [by apply Hnd..|]. intros s. rewrite !elem_of_contributors by done.
    unfold has_vote. rewrite Hm. split; intros [? Hv]; (split; [done|]); (destruct Hv as [Hv|Hv]; [by left|right]);
      intros t Ht; apply Hv; by apply Hm. }
  unfold combine. rewrite (max_by_key_perm vote_key _ (contributors eng e c)); [|by eauto using vote_key_inj|done].
  unfold sort_dedup. by rewrite (sort_by_id_perm _ _ (bind_Permutation _ _ _ Hp)).
Qed.

Section step.
Variables (now : Timestamp) (fresh : EntityId → StateComponent → Uuid).

Lemma recompute_component e c eng e' c' :
  (e', c') = (e, c) ∧ (∃ cs, component_of (recompute now fresh e c eng).1 e' c' = Some cs
                           ∧ forget_since cs = recomputed eng e c)
  ∨ (e', c') ≠ (e, c) ∧ component_of (recompute now fresh e c eng).1 e' c' = component_of eng e' c'.
Proof.
  unfold component_of, recompute. cbn [fst states with_states]. destruct (decide (e' = e)) as [->|He].
  - rewrite lookup_insert_eq. cbn [mbind option_bind components set_component]. destruct (decide (c' = c)) as [->|Hc].
    + left. split; [done|]. rewrite lookup_insert_eq. eexists. split; [done|]. unfold recomputed.
      rewrite (forget_combine 0 now). by case_decide.
    + right. split; [congruence|]. rewrite lookup_insert_ne by done. unfold state_or_unknown.
      by destruct (states eng !! e).
  - right. split; [congruence|]. by rewrite lookup_insert_ne.
Qed.

Lemma recompute_all_component ecs eng e c :
  let eng' := (recompute_all now fresh ecs eng).1 in
  ((e, c) ∈ ecs → ∃ cs, component_of eng' e c = Some cs ∧ forget_since cs = recomputed eng e c)
  ∧ ((e, c) ∉ ecs → component_of eng' e c = component_of eng e c).
Proof.
  unfold recompute_all.
  assert (∀ eng1 ts, streams eng1 = streams eng → disabled eng1 = disabled eng →
    let eng2 := (foldl (λ '(eng, ts) '(e, c),
              let '(eng', t) := recompute now fresh e c eng in (eng', ts ++ option_list t)) (eng1, ts) ecs).1 in
    ((e, c) ∈ ecs → ∃ cs, component_of eng2 e c = Some cs ∧ forget_since cs = recomputed eng e c)
    ∧ ((e, c) ∉ ecs → component_of eng2 e c = component_of eng1 e c)) as Hgen.
  { induction ecs as [|[x y] ecs IH]; intros eng1 ts Hs Hd; cbn [foldl].
    { split; [by intros ?%elem_of_nil|done]. }
    pose proof (recompute_component x y eng1 e c) as Hc.
    assert (streams (recompute now fresh x y eng1).1 = streams eng) as Hs2 by done.
    assert (disabled (recompute now fresh x y eng1).1 = disabled eng) as Hd2 by done.
    destruct (recompute now fresh x y eng1) as [eng2 t]. cbn [fst] in *.
    destruct (IH eng2 (ts ++ option_list t)%list Hs2 Hd2) as [Hin Hout]. split.
    - intros [Heq|Hx]%elem_of_cons; [|by apply Hin]. destruct (decide ((e, c) ∈ ecs)) as [Hx|Hx]; [by apply Hin|].
      destruct Hc as [[_ (cs & Hcs & Hf)]|[Hne _]]; [|done]. exists cs. rewrite Hout by done. split; [done|].
      rewrite Hf. injection Heq as -> ->. by apply recomputed_frame.
    - intros [Hne Hx]%not_elem_of_cons. rewrite Hout by done. by destruct Hc as [[? _]|[_ ?]]. }
  by apply (Hgen eng []).
Qed.

(** Recomputing what changed settles an engine that is settled elsewhere. *)
Lemma recompute_all_settled ecs eng :
  coherent eng →
  (∀ e c, (e, c) ∉ ecs → fed eng e c → is_Some (component_of eng e c)) →
  (∀ e c cs, (e, c) ∉ ecs → component_of eng e c = Some cs → fed eng e c ∨ muted eng e c →
     forget_since cs = recomputed eng e c) →
  settled (recompute_all now fresh ecs eng).1.
Proof.
  intros Hco Hpr Hre.
  assert (streams (recompute_all now fresh ecs eng).1 = streams eng
    ∧ mappings (recompute_all now fresh ecs eng).1 = mappings eng
    ∧ disabled (recompute_all now fresh ecs eng).1 = disabled eng) as (Hs & Hm & Hd).
  { split_and!; by apply (recompute_all_invariant now fresh (λ eng', _ eng' = _ eng)). }
  split.
  - intros k s m. rewrite Hs, Hm. apply Hco.
  - intros e c Hf. unfold fed in Hf. rewrite Hs in Hf. destruct (recompute_all_component ecs eng e c) as [Hin Hout].
    destruct (decide ((e, c) ∈ ecs)) as [Hx|Hx]; [destruct (Hin Hx) as (cs & -> & _); by eexists|].
    rewrite Hout by done. by apply Hpr.
  - intros e c cs Hcs Hf. rewrite (recomputed_frame eng) by done.
    destruct (recompute_all_component ecs eng e c) as [Hin Hout].
    destruct (decide ((e, c) ∈ ecs)) as [Hx|Hx].
    + destruct (Hin Hx) as (cs' & Hcs' & Hfor). congruence.
    + rewrite Hout in Hcs by done. apply Hre; [done|done|]. revert Hf. unfold fed, muted. by rewrite Hs, Hm, Hd.
Qed.

Lemma recompute_settled e c eng :
  coherent eng →
  (∀ e' c', (e', c') ≠ (e, c) → fed eng e' c' → is_Some (component_of eng e' c')) →
  (∀ e' c' cs, (e', c') ≠ (e, c) → component_of eng e' c' = Some cs → fed eng e' c' ∨ muted eng e' c' →
     forget_since cs = recomputed eng e' c') →
  settled (recompute now fresh e c eng).1.
Proof.
  intros Hco Hpr Hre. pose proof (recompute_all_settled [(e, c)] eng) as H. unfold recompute_all in H. cbn [foldl] in H.
  destruct (recompute now fresh e c eng) as [eng' t]. apply H; [done|..].
  - intros e' c' Hne. apply Hpr. intros Heq. by apply Hne, list_elem_of_singleton.
  - intros e' c' cs Hne. apply Hre. intros Heq. by apply Hne, list_elem_of_singleton.
Qed.
End step.

(** ** Every operation *)

(** Two engines agree on a component: the same voters, nothing new feeds or
    mutes it, and it shows the same. *)
Record agrees eng eng' e c : Prop := {
  agree_measures s : measures eng' e c s ↔ measures eng e c s;
  agree_fed : fed eng' e c → fed eng e c;
  agree_muted : muted eng' e c → muted eng e c;
  agree_component : component_of eng' e c = component_of eng e c
}.

(** After a change that touches some components, recomputing them is enough. *)
Lemma touched_settled (ecs : list (EntityId * StateComponent)) now fresh eng eng' :
  engine_wf eng → engine_wf eng' → settled eng → coherent eng' →
  (∀ e c, (e, c) ∉ ecs → agrees eng eng' e c) → settled (recompute_all now fresh ecs eng').1.
Proof.
  intros Hwf Hwf' [_ Hpr Hre] Hco Hag. apply recompute_all_settled; [done| |].
  - intros e c Hx Hf. destruct (Hag e c Hx) as [_ Hfed _ ->]. by apply Hpr, Hfed.
  - intros e c cs Hx Hcs Hor. destruct (Hag e c Hx) as [Hm Hfed Hmu Hc].
    rewrite (recomputed_same eng eng') by done. apply Hre; [by rewrite <- Hc|]. tauto.
Qed.

Lemma touched_one_settled now fresh e c eng eng' :
  engine_wf eng → engine_wf eng' → settled eng → coherent eng' →
  (∀ e' c', (e', c') ≠ (e, c) → agrees eng eng' e' c') → settled (recompute now fresh e c eng').1.
Proof.
  intros Hwf Hwf' Hset Hco Hag. pose proof (touched_settled [(e, c)] now fresh eng eng' Hwf Hwf' Hset Hco) as H.
  unfold recompute_all in H. cbn [foldl] in H. destruct (recompute now fresh e c eng') as [eng2 t]. apply H.
  intros e' c' Hx. apply Hag. intros Heq. by apply Hx, list_elem_of_singleton.
Qed.

(** A component nothing shows needs no recomputing. *)
Lemma untouched_settled e c eng eng' :
  engine_wf eng → engine_wf eng' → settled eng → coherent eng' →
  (∀ e' c', (e', c') ≠ (e, c) → agrees eng eng' e' c') →
  component_of eng' e c = None → ¬ fed eng' e c → settled eng'.
Proof.
  intros Hwf Hwf' [_ Hpr Hre] Hco Hag Hnone Hnf. split; [done| |].
  - intros e' c' Hf. destruct (decide ((e', c') = (e, c))) as [[= -> ->]|Hne]; [done|].
    destruct (Hag e' c' Hne) as [_ Hfed _ ->]. by apply Hpr, Hfed.
  - intros e' c' cs Hcs Hor. destruct (decide ((e', c') = (e, c))) as [[= -> ->]|Hne]; [congruence|].
    destruct (Hag e' c' Hne) as [Hm Hfed Hmu Hc]. rewrite (recomputed_same eng eng') by done.
    apply Hre; [by rewrite <- Hc|]. tauto.
Qed.

(** Silencing streams touches the components they feed. *)
Definition silence_where (P : StateStream → Prop) `{!∀ s, Decision (P s)} eng : StateEngine :=
  with_streams ((λ s, if decide (P s) then silence s else s) <$> streams eng) eng.

Section silencing.
Context (P : StateStream → Prop) `{!∀ s, Decision (P s)}.

Lemma silence_where_wf eng : engine_wf eng → engine_wf (silence_where P eng).
Proof. intros Hwf. apply map_streams_wf; [done|]. intros s. apply silence_if_key. Qed.

Lemma silence_where_lookup eng k s :
  streams (silence_where P eng) !! k = Some s ↔
  ∃ s0, streams eng !! k = Some s0 ∧ s = if decide (P s0) then silence s0 else s0.
Proof.
  cbn [streams silence_where with_streams]. rewrite lookup_fmap. destruct (streams eng !! k); cbn; naive_solver.
Qed.

Lemma silence_where_coherent eng : coherent eng → coherent (silence_where P eng).
Proof. intros Hco k s m (s0 & Hs0 & ->)%silence_where_lookup Hm. case_decide; by apply (Hco k s0). Qed.

Lemma silence_where_agrees eng e c :
  (∀ k s, streams eng !! k = Some s → P s → (e, c) ≠ (stream_entity s, stream_component s)) →
  agrees eng (silence_where P eng) e c.
Proof.
  intros Hno. split; [| |done|done].
  - intros s. unfold measures. rewrite silence_where_lookup. split.
    + intros [(s0 & Hs0 & ->) (He & Hc & Hen)]. case_decide as HP; [|by split_and!].
      exfalso. apply (Hno _ _ Hs0 HP). cbn in He, Hc. by rewrite He, Hc.
    + intros [Hs (He & Hc & Hen)]. split; [|done]. exists s. rewrite decide_False; [done|].
      intros HP. apply (Hno _ _ Hs HP). by rewrite He, Hc.
  - intros (k & s & (s0 & Hs0 & ->)%silence_where_lookup & He & Hc). exists k, s0. by case_decide.
Qed.
End silencing.

Lemma expire_settled now fresh at_ horizon eng :
  engine_wf eng → settled eng → settled (expire now fresh at_ horizon eng).1.
Proof.
  intros Hwf Hset. unfold expire.
  apply (touched_settled _ now fresh eng (silence_where (gone_silent at_ horizon eng) eng)); [done| |done| |].
  - by apply silence_where_wf.
  - apply silence_where_coherent, (settled_coherent _ Hset).
  - intros e c Hx. apply silence_where_agrees. intros k s Hs HP Heq. apply Hx.
    apply elem_of_btree_elements, elem_of_list_to_set, list_elem_of_fmap. exists s. split; [done|].
    apply list_elem_of_filter. split; [done|]. apply elem_of_hash_values. by exists k.
Qed.

(** Enabling or disabling a probe of an entity touches its component. *)
Lemma with_disabled_agrees ds eng e probe m e' c' :
  engine_wf eng → coherent eng → mappings eng !! probe = Some m →
  (∀ e' p, (e', p) ≠ (e, probe) → (e', p) ∈ ds ↔ (e', p) ∈ disabled eng) →
  (e', c') ≠ (e, mapping_component m) → agrees eng (with_disabled ds eng) e' c'.
Proof.
  intros Hwf Hco Hm Hds Hne. split; [|done| |done].
  - intros s. unfold measures, contributes, probe_enabled. cbn [streams disabled with_disabled].
    split; intros (Hs & He & Hc & Hen); (split_and!; [done..|]);
      revert Hen; rewrite !bool_decide_eq_true, Hds; (done || intros [= -> Hp]; apply Hne; f_equal; rewrite <- Hc;
        symmetry; apply (Hco _ s m Hs); by rewrite Hp).
  - intros (p & m' & Hp & Hm' & Hc). cbn [mappings disabled with_disabled] in *. exists p, m'. split_and!; [|done|done].
    apply Hds in Hp; [done|]. intros [= -> ->]. congruence.
Qed.

Lemma agrees_trans eng1 eng2 eng3 e c : agrees eng1 eng2 e c → agrees eng2 eng3 e c → agrees eng1 eng3 e c.
Proof. intros [M1 F1 U1 C1] [M2 F2 U2 C2]. split; [intros s; by rewrite M2|tauto|tauto|congruence]. Qed.

Lemma agrees_refl eng e c : agrees eng eng e c.
Proof. by split. Qed.

Lemma set_probe_enabled_settled `{J : JsonApi} now fresh e probe on eng :
  engine_wf eng → settled eng → settled (set_probe_enabled now fresh e probe on eng).1.
Proof.
  intros Hwf Hset. assert (coherent eng) as Hco by apply (settled_coherent _ Hset). unfold set_probe_enabled.
  destruct (mappings eng !! probe) as [m|] eqn:Hm; [|done].
  match goal with |- context [if ?b then _ else _] => destruct b end; [|done].
  set (ds := if on then disabled eng ∖ {[ (e, probe) ]} else {[ (e, probe) ]} ∪ disabled eng).
  set (eng2 := if on then _ else _).
  set (mine := λ s, stream_entity s = e ∧ stream_probe s = probe).
  assert (engine_wf (with_disabled ds eng)) as Hwf1 by (by destruct Hwf).
  assert (engine_wf eng2 ∧ coherent eng2 ∧ ∀ e' c', (e', c') ≠ (e, mapping_component m) → agrees eng eng2 e' c') as (Hwf2 & Hco2 & Hag).
  { assert (∀ e' c', (e', c') ≠ (e, mapping_component m) → agrees eng (with_disabled ds eng) e' c') as Hag1.
    { intros e' c' Hne. apply (with_disabled_agrees ds eng e probe m); [done..| |done].
      intros e0 p Hne0. unfold ds. destruct on; set_solver. }
    unfold eng2. destruct on; [|done].
    split_and!; [by apply (silence_where_wf mine)|by apply (silence_where_coherent mine)|].
    intros e' c' Hne. eapply agrees_trans; [by apply Hag1|]. apply (silence_where_agrees mine).
    intros k s Hs [He Hp] Heq. apply Hne. rewrite Heq, He. f_equal. symmetry. apply (Hco k s m Hs). by rewrite Hp. }
  assert (component_of eng2 e (mapping_component m) = None → settled eng2) as Hquiet.
  { intros Hnone. apply (untouched_settled e (mapping_component m) eng); [done..|]. intros (k & s & Hs & He & Hc).
    assert (component_of eng e (mapping_component m) = None) as Hn by (revert Hnone; unfold eng2; by destruct on).
    assert (fed eng e (mapping_component m)) as [cs Hcs]%(settled_present _ Hset); [|congruence].
    revert Hs. unfold eng2. destruct on; [|intros Hs; by exists k, s].
    intros (s0 & Hs0 & ->)%(silence_where_lookup mine). exists k, s0. by revert He Hc; case_decide. }
  destruct (states eng2 !! e) as [st|] eqn:Hse; [|apply Hquiet; unfold component_of; by rewrite Hse].
  destruct (decide (is_Some (components st !! mapping_component m))) as [Hs|Hs].
  - by apply (touched_one_settled now fresh e (mapping_component m) eng).
  - apply Hquiet. unfold component_of. rewrite Hse. cbn. by apply eq_None_not_Some.
Qed.

Section running.
Context `{J : JsonApi}.

(** Ingesting touches the one component of its stream. *)
Lemma stage_stream now o m eng :
  engine_wf eng → coherent eng → mappings eng !! probe_id o = Some m →
  ∃ s, streams (stage_observation now o m eng) = <[ observation_key o := s ]> (streams eng)
    ∧ stream_key s = observation_key o ∧ stream_component s = mapping_component m.
Proof.
  intros Hwf Hco Hm. unfold stage_observation. cbn [streams with_streams with_states]. eexists. split; [done|].
  destruct (streams eng !! observation_key o) as [s0|] eqn:Hs0; cbn [default from_option].
  - pose proof (wf_streams _ Hwf _ _ Hs0) as Hk. split; [by rewrite update_stream_key|].
    transitivity (stream_component s0); [unfold update_stream; by destruct (judge _ _)|].
    symmetry. apply (Hco _ s0 m Hs0). injection Hk as _ -> _. done.
  - split; [by rewrite update_stream_key|]. unfold update_stream. by destruct (judge _ _).
Qed.

Lemma stage_agrees now o m eng e c :
  engine_wf eng → coherent eng → mappings eng !! probe_id o = Some m →
  (e, c) ≠ (target_entity o, mapping_component m) → agrees eng (stage_observation now o m eng) e c.
Proof.
  intros Hwf Hco Hm Hne. destruct (stage_stream now o m eng Hwf Hco Hm) as (s1 & Hst & Hk1 & Hc1).
  assert (∀ k s, streams eng !! k = Some s → stream_entity s = e → stream_component s = c → k ≠ observation_key o) as Hold.
  { intros k s Hs He Hc ->. apply Hne. pose proof (wf_streams _ Hwf _ _ Hs) as Hk. injection Hk as He' Hp _.
    rewrite <- He, <- Hc, He'. f_equal. symmetry. apply (Hco _ s m Hs). by rewrite Hp. }
  assert (∀ s, stream_entity s = e → stream_component s = c → s ≠ s1) as Hnew.
  { intros s He Hc ->. apply Hne. injection Hk1 as He1 _ _. congruence. }
  split.
  - intros s. unfold measures, contributes, probe_enabled. rewrite Hst. cbn [disabled with_streams with_states stage_observation].
    split; intros (Hs & He & Hc & Hen); (split_and!; [|done..]).
    + apply lookup_insert_Some in Hs as [[_ Hs]|[_ Hs]]; [by destruct (Hnew s)|done].
    + rewrite lookup_insert_ne; [done|]. intros Heq. by destruct (Hold _ _ Hs He Hc).
  - intros (k & s & Hs & He & Hc). rewrite Hst in Hs.
    apply lookup_insert_Some in Hs as [[_ Hs]|[_ Hs]]; [by destruct (Hnew s)|by exists k, s].
  - done.
  - unfold component_of, stage_observation. cbn [states with_streams with_states].
    destruct (decide (e = target_entity o)) as [->|He]; [|by rewrite lookup_insert_ne].
    rewrite lookup_insert_eq. unfold state_or_unknown. by destruct (states eng !! target_entity o).
Qed.

Lemma ingest_settled now fresh o eng : engine_wf eng → settled eng → settled (ingest now fresh o eng).1.
Proof.
  intros Hwf Hset. destruct (ingest_cases now fresh eng o) as [[m Hadm]| ->]; [|done].
  rewrite (ingest_admitted _ _ _ _ _ Hadm). pose proof (settled_coherent _ Hset) as Hco.
  pose proof (adm_mapping _ _ _ _ Hadm) as Hm.
  apply (touched_one_settled now fresh (target_entity o) (mapping_component m) eng); [done| |done| |].
  - by apply stage_observation_wf.
  - destruct (stage_stream now o m eng Hwf Hco Hm) as (s1 & Hst & Hk1 & Hc1).
    intros k s m'. rewrite Hst. intros [[_ <-]|[_ Hs]]%lookup_insert_Some Hm'; [|by apply (Hco k s)].
    injection Hk1 as _ Hp _. rewrite Hp in Hm'. change (mappings eng !! probe_id o = Some m') in Hm'. congruence.
  - intros e c. by apply stage_agrees.
Qed.

(** Labels are not components. *)
Lemma classify_settled e st labels eng :
  states eng !! e = Some st → engine_wf eng → settled eng →
  let eng' := with_states (<[ e := set_classifications labels st ]> (states eng)) eng in
  engine_wf eng' ∧ settled eng'.
Proof.
  intros Hst Hwf [Hco Hpr Hre] eng'.
  assert (∀ e' c, component_of eng' e' c = component_of eng e' c) as Hc.
  { intros e' c. unfold component_of. cbn. destruct (decide (e' = e)) as [->|Hne]; [|by rewrite lookup_insert_ne].
    by rewrite lookup_insert_eq, Hst. }
  split.
  - apply with_states_wf; [done|exact (wf_states _ Hwf e st Hst)|exact (wf_overall _ Hwf e st Hst)].
  - split; [done| |]; intros e' c.
    + intros Hf. rewrite Hc. by apply Hpr.
    + intros cs. rewrite Hc. apply Hre.
Qed.

Lemma running_step_settled eng eng' :
  running_step eng eng' → engine_wf eng → settled eng → engine_wf eng' ∧ settled eng'.
Proof.
  intros Hstep Hwf Hset. destruct Hstep.
  - split; [by destruct Hwf|by destruct Hset].
  - split; [by apply set_probe_enabled_wf|by apply set_probe_enabled_settled].
  - split; [by apply ingest_wf|by apply ingest_settled].
  - split; [by apply expire_wf|by apply expire_settled].
  - by apply classify_settled.
Qed.

(** An engine that has declared its probes and seen nothing. *)
Definition idle eng : Prop := streams eng = ∅ ∧ states eng = ∅ ∧ disabled eng = ∅.

Lemma idle_settled eng : idle eng → engine_wf eng ∧ settled eng.
Proof.
  intros (Hs & Ht & Hd). split; split.
  - intros k s. by rewrite Hs, lookup_empty.
  - intros e st. by rewrite Ht, lookup_empty.
  - intros e st. by rewrite Ht, lookup_empty.
  - intros k s m. by rewrite Hs, lookup_empty.
  - intros e c (k & s & Hk & _). by rewrite Hs, lookup_empty in Hk.
  - intros e c cs. unfold component_of. by rewrite Ht, lookup_empty.
Qed.
End running.
End settled.

(** C10.  Whatever a running engine does after its probes are declared, every
    component that some stream feeds, or that a disabled probe used to feed, is
    the sum of its voters: health, evidence and counters. *)
Theorem running_engine_settled `{JsonApi} `{HashIter} (start eng : StateEngine) e c cs :
  idle start → rtc running_step start eng →
  component_of eng e c = Some cs → fed eng e c ∨ muted eng e c →
  forget_since cs = forget_since (combine 0 (contributors eng e c)).
Proof.
  intros Hidle Hrun. cut (engine_wf eng ∧ settled eng).
  { intros [_ Hset]. by apply (settled_resolved _ Hset). }
  apply (rtc_ind_r (R := running_step) (λ eng, engine_wf eng ∧ settled eng) start); [by apply idle_settled| |done].
  intros e1 e2 _ Hstep [Hwf Hset]. by apply (running_step_settled e1).
Qed.

Lemma running_engine_settled_witness :
  ∃ cs, component_of pinged_engine node Component_Network = Some cs
    ∧ forget_since cs = forget_since (combine 0 (contributors pinged_engine node Component_Network)).
Proof.
  assert (rtc running_step ping_engine pinged_engine) as Hrun by (apply rtc_once, run_ingest).
  assert (fed pinged_engine node Component_Network) as Hfed.
  { eexists (observation_key ping_failed), _. split; [|split_and!].
    - unfold pinged_engine. rewrite (ingest_admitted _ _ _ _ _ ping_admitted), recompute_streams. reflexivity.
    - reflexivity.
    - reflexivity. }
  assert (is_Some (component_of pinged_engine node Component_Network)) as [cs Hcs] by (eexists; reflexivity).
  exists cs. split; [exact Hcs|].
  exact (running_engine_settled ping_engine pinged_engine node Component_Network cs
    (conj eq_refl (conj eq_refl eq_refl)) Hrun Hcs (or_introl Hfed)).
Defined.
