(* ===== verification/Diagnosis.v ===== *)
(** * Diagnoses

    [src/diagnosis/mod.rs]: the conclusions rules draw, the confidence they carry
    and the observations behind them, and the labels shown for them. *)

From S2P Require Export State.

Local Open Scope string_scope.

(** [DiagnosisType(String)] and [RuleId(String)], transparent wrappers. *)
Abbreviation DiagnosisType := string (only parsing).
Abbreviation RuleId := string (only parsing).

(** [kind]: the diagnoses the built-in rules can produce. *)
Definition HOST_UNREACHABLE : string := "HOST_UNREACHABLE".
Definition PATH_SPECIFIC_NETWORK_FAILURE : string := "PATH_SPECIFIC_NETWORK_FAILURE".
Definition SSH_SERVICE_FAILURE : string := "SSH_SERVICE_FAILURE".
Definition SENTINEL_AGENT_FAILURE : string := "SENTINEL_AGENT_FAILURE".
Definition SLURMD_SERVICE_FAILURE : string := "SLURMD_SERVICE_FAILURE".
Definition SLURM_ONLY_DEGRADATION : string := "SLURM_ONLY_DEGRADATION".
Definition SLURM_CONTROL_PLANE_FAILURE : string := "SLURM_CONTROL_PLANE_FAILURE".
Definition RESOURCE_CONFIGURATION_MISMATCH : string := "RESOURCE_CONFIGURATION_MISMATCH".
Definition NFS_SERVICE_FAILURE : string := "NFS_SERVICE_FAILURE".
Definition NFS_CLIENT_FAILURE : string := "NFS_CLIENT_FAILURE".
Definition SHARED_STORAGE_FAILURE : string := "SHARED_STORAGE_FAILURE".
Definition GPU_CONFIGURATION_MISMATCH : string := "GPU_CONFIGURATION_MISMATCH".
Definition CLOCK_SKEW : string := "CLOCK_SKEW".
Definition HOST_REBOOTED : string := "HOST_REBOOTED".

(** [DiagnosisType::label]. *)
Definition label (t : DiagnosisType) : string :=
  if String.eqb t HOST_UNREACHABLE then "ホストへの接続失敗"
  else if String.eqb t PATH_SPECIFIC_NETWORK_FAILURE then "監視元による接続結果の違い"
  else if String.eqb t SSH_SERVICE_FAILURE then "SSH接続の異常"
  else if String.eqb t SENTINEL_AGENT_FAILURE then "Sentinel agentの応答異常"
  else if String.eqb t SLURMD_SERVICE_FAILURE then "Slurmノードの応答・登録異常"
  else if String.eqb t SLURM_ONLY_DEGRADATION then "Slurmのジョブ割り当て停止"
  else if String.eqb t SLURM_CONTROL_PLANE_FAILURE then "Slurm controllerの応答異常"
  else if String.eqb t RESOURCE_CONFIGURATION_MISMATCH then "リソース数の不一致"
  else if String.eqb t GPU_CONFIGURATION_MISMATCH then "GPU数の不一致"
  else if String.eqb t NFS_SERVICE_FAILURE then "NFSサーバーの異常"
  else if String.eqb t NFS_CLIENT_FAILURE then "ホストからのNFSアクセス異常"
  else if String.eqb t SHARED_STORAGE_FAILURE then "複数ホストの共有ストレージアクセス異常"
  else if String.eqb t CLOCK_SKEW then "ホスト間の時刻ずれ"
  else if String.eqb t HOST_REBOOTED then "ホストの再起動"
  else t.

(** [Confidence]. *)
Inductive Confidence :=
  | Confidence_Low
  | Confidence_Medium
  | Confidence_High
  | Confidence_Confirmed.

#[export] Instance Confidence_eq_dec : EqDecision Confidence.
Proof. solve_decision. Defined.

(** The order [Confidence] derives. *)
Definition confidence_rank (c : Confidence) : N :=
  match c with
  | Confidence_Low => 0
  | Confidence_Medium => 1
  | Confidence_High => 2
  | Confidence_Confirmed => 3
  end.

Definition confidence_as_str (c : Confidence) : string :=
  match c with
  | Confidence_Low => "low"
  | Confidence_Medium => "medium"
  | Confidence_High => "high"
  | Confidence_Confirmed => "confirmed"
  end.

Definition confidence_parse (s : string) : option Confidence :=
  if String.eqb s "low" then Some Confidence_Low
  else if String.eqb s "medium" then Some Confidence_Medium
  else if String.eqb s "high" then Some Confidence_High
  else if String.eqb s "confirmed" then Some Confidence_Confirmed
  else None.

(** [Diagnosis]. *)
Record Diagnosis := {
  diagnosis_id : Uuid;
  diagnosis_type : DiagnosisType;
  affected_entities : list EntityId;
  suspected_root_entities : list EntityId;
  confidence : Confidence;
  diagnosis_evidence : list ObservationId;
  diagnosis_rule : RuleId;
  diagnosis_summary : string;
  recommended_actions : list string;
  diagnosis_created_at : Timestamp
}.

(** The random identifier and the clock [Diagnosis::new] reads, one draw for
    every rule and entity it draws a conclusion about. *)
Class Pass := {
  pass_uuid : RuleId → EntityId → Uuid;
  pass_now : RuleId → EntityId → Timestamp
}.

(** [Diagnosis::new], for the draw [r] makes about [e]. *)
Definition diagnosis_new `{Pass} (t : DiagnosisType) (r : RuleId) (c : Confidence) (e : EntityId) :
    Diagnosis :=
  {| diagnosis_id := pass_uuid r e; diagnosis_type := t; affected_entities := [];
     suspected_root_entities := []; confidence := c; diagnosis_evidence := [];
     diagnosis_rule := r; diagnosis_summary := ""; recommended_actions := [];
     diagnosis_created_at := pass_now r e |}.

(** The builders, in the order the rules chain them. *)
Definition affecting (d : Diagnosis) (es : list EntityId) : Diagnosis :=
  {| diagnosis_id := diagnosis_id d; diagnosis_type := diagnosis_type d; affected_entities := es;
     suspected_root_entities := suspected_root_entities d; confidence := confidence d;
     diagnosis_evidence := diagnosis_evidence d; diagnosis_rule := diagnosis_rule d;
     diagnosis_summary := diagnosis_summary d; recommended_actions := recommended_actions d;
     diagnosis_created_at := diagnosis_created_at d |}.

Definition rooted_at (d : Diagnosis) (es : list EntityId) : Diagnosis :=
  {| diagnosis_id := diagnosis_id d; diagnosis_type := diagnosis_type d; affected_entities :=
     affected_entities d; suspected_root_entities := es; confidence := confidence d;
     diagnosis_evidence := diagnosis_evidence d; diagnosis_rule := diagnosis_rule d;
     diagnosis_summary := diagnosis_summary d; recommended_actions := recommended_actions d;
     diagnosis_created_at := diagnosis_created_at d |}.

Definition diagnosis_with_evidence (d : Diagnosis) (ev : list ObservationId) : Diagnosis :=
  {| diagnosis_id := diagnosis_id d; diagnosis_type := diagnosis_type d; affected_entities :=
     affected_entities d; suspected_root_entities := suspected_root_entities d; confidence :=
     confidence d; diagnosis_evidence := ev; diagnosis_rule := diagnosis_rule d;
     diagnosis_summary := diagnosis_summary d; recommended_actions := recommended_actions d;
     diagnosis_created_at := diagnosis_created_at d |}.

Definition with_summary (d : Diagnosis) (s : string) : Diagnosis :=
  {| diagnosis_id := diagnosis_id d; diagnosis_type := diagnosis_type d; affected_entities :=
     affected_entities d; suspected_root_entities := suspected_root_entities d; confidence :=
     confidence d; diagnosis_evidence := diagnosis_evidence d; diagnosis_rule := diagnosis_rule
     d; diagnosis_summary := s; recommended_actions := recommended_actions d;
     diagnosis_created_at := diagnosis_created_at d |}.

Definition recommending (d : Diagnosis) (actions : list string) : Diagnosis :=
  {| diagnosis_id := diagnosis_id d; diagnosis_type := diagnosis_type d; affected_entities :=
     affected_entities d; suspected_root_entities := suspected_root_entities d; confidence :=
     confidence d; diagnosis_evidence := diagnosis_evidence d; diagnosis_rule := diagnosis_rule
     d; diagnosis_summary := diagnosis_summary d; recommended_actions := actions;
     diagnosis_created_at := diagnosis_created_at d |}.

(** The chain of builders every rule writes. *)
Definition conclude `{Pass} (t : DiagnosisType) (r : RuleId) (c : Confidence) (about : EntityId)
    (affected roots : list EntityId) (ev : list ObservationId) (summary : string)
    (actions : list string) : Diagnosis :=
  recommending
    (with_summary
      (diagnosis_with_evidence (rooted_at (affecting (diagnosis_new t r c about) affected) roots) ev)
      summary)
    actions.

(** [Diagnosis::is]. *)
Definition diagnosis_is (d : Diagnosis) (t : string) : bool := String.eqb (diagnosis_type d) t.

(** [classification_for]. *)
Definition classification_for (d : Diagnosis) : option string :=
  let t := diagnosis_type d in
  if String.eqb t HOST_UNREACHABLE then Some CLASS_HOST_UNREACHABLE
  else if String.eqb t PATH_SPECIFIC_NETWORK_FAILURE then Some NETWORK_PATH_DEGRADED
  else if String.eqb t SSH_SERVICE_FAILURE then Some SSH_DEGRADED
  else if String.eqb t SENTINEL_AGENT_FAILURE then Some AGENT_DEGRADED
  else if String.eqb t SLURM_ONLY_DEGRADATION then Some SCHEDULER_DEGRADED
  else if String.eqb t SLURMD_SERVICE_FAILURE || String.eqb t SLURM_CONTROL_PLANE_FAILURE
  then Some SERVICE_FAILURE
  else if String.eqb t NFS_SERVICE_FAILURE || String.eqb t NFS_CLIENT_FAILURE
          || String.eqb t SHARED_STORAGE_FAILURE
  then Some STORAGE_DEGRADED
  else None.

Lemma confidence_roundtrip c : confidence_parse (confidence_as_str c) = Some c.
Proof. by destruct c. Qed.
