(* ===== verification/Inventory.v ===== *)
(** * Inventory

    [src/inventory/mod.rs] and [src/inventory/merge.rs]: provider snapshots, and
    the inventory they are merged into. *)

From S2P Require Export GraphSpec.

(** [MergeOutcome]. *)
Record MergeOutcome := {
  added : gset EntityId;
  updated : gset EntityId;
  marked_stale : gset EntityId;
  revived : gset EntityId;
  dependencies_touched : nat;
  dependencies_pending : nat
}.

(** [MergeOutcome::default()]. *)
Definition merge_outcome_default : MergeOutcome :=
  {| added := ∅; updated := ∅; marked_stale := ∅; revived := ∅;
     dependencies_touched := 0; dependencies_pending := 0 |}.

(** [MergeOutcome::is_empty]. *)
Definition merge_outcome_is_empty (o : MergeOutcome) : bool :=
  bool_decide (added o = ∅) && bool_decide (updated o = ∅) && bool_decide (marked_stale o = ∅)
  && bool_decide (revived o = ∅) && bool_decide (dependencies_touched o = 0)
  && bool_decide (dependencies_pending o = 0).

Definition outcome_add_added (e : EntityId) (o : MergeOutcome) : MergeOutcome :=
  {| added := {[ e ]} ∪ added o; updated := updated o; marked_stale := marked_stale o;
     revived := revived o; dependencies_touched := dependencies_touched o;
     dependencies_pending := dependencies_pending o |}.

Definition outcome_add_updated (e : EntityId) (was_stale : bool) (o : MergeOutcome) : MergeOutcome :=
  {| added := added o; updated := {[ e ]} ∪ updated o; marked_stale := marked_stale o;
     revived := if was_stale then {[ e ]} ∪ revived o else revived o;
     dependencies_touched := dependencies_touched o;
     dependencies_pending := dependencies_pending o |}.

Definition outcome_touch (o : MergeOutcome) : MergeOutcome :=
  {| added := added o; updated := updated o; marked_stale := marked_stale o;
     revived := revived o; dependencies_touched := S (dependencies_touched o);
     dependencies_pending := dependencies_pending o |}.

Definition outcome_set_pending (n : nat) (o : MergeOutcome) : MergeOutcome :=
  {| added := added o; updated := updated o; marked_stale := marked_stale o;
     revived := revived o; dependencies_touched := dependencies_touched o;
     dependencies_pending := n |}.

Section inventory.
Context `{J : JsonApi}.

(** [InventorySnapshot]. *)
Record InventorySnapshot := {
  snapshot_entities : list ManagedEntity;
  snapshot_dependencies : list DependencyEdge;
  snapshot_source : option DiscoverySource
}.

(** [InventorySnapshot::new], [add_entity], [add_dependency] and [is_empty]. *)
Definition snapshot_new (source : DiscoverySource) : InventorySnapshot :=
  {| snapshot_entities := []; snapshot_dependencies := []; snapshot_source := Some source |}.

Definition add_entity (s : InventorySnapshot) (e : ManagedEntity) : InventorySnapshot :=
  {| snapshot_entities := snapshot_entities s ++
       [match snapshot_source s with Some source => with_discovery_source e source | None => e end];
     snapshot_dependencies := snapshot_dependencies s;
     snapshot_source := snapshot_source s |}.

Definition add_dependency (s : InventorySnapshot) (e : DependencyEdge) : InventorySnapshot :=
  {| snapshot_entities := snapshot_entities s;
     snapshot_dependencies := snapshot_dependencies s ++
       [match snapshot_source s with Some source => edge_with_discovery_source e source | None => e end];
     snapshot_source := snapshot_source s |}.

Definition snapshot_is_empty (s : InventorySnapshot) : bool :=
  bool_decide (snapshot_entities s = []) && bool_decide (length (snapshot_dependencies s) = 0).

(** [Inventory]. *)
Record Inventory := {
  inv_entities : gmap EntityId ManagedEntity;
  inv_graph : DependencyGraph;
  inv_pending : list DependencyEdge
}.

Definition inventory_new : Inventory :=
  {| inv_entities := ∅; inv_graph := graph_new; inv_pending := [] |}.

Definition with_entities (m : gmap EntityId ManagedEntity) (inv : Inventory) : Inventory :=
  {| inv_entities := m; inv_graph := inv_graph inv; inv_pending := inv_pending inv |}.

Definition with_graph (g : DependencyGraph) (inv : Inventory) : Inventory :=
  {| inv_entities := inv_entities inv; inv_graph := g; inv_pending := inv_pending inv |}.

Definition with_pending (es : list DependencyEdge) (inv : Inventory) : Inventory :=
  {| inv_entities := inv_entities inv; inv_graph := inv_graph inv; inv_pending := es |}.

(** [merge_metadata]: a shallow merge of two objects, else the incoming value
    unless it is null. *)
Definition merge_metadata (existing incoming : json) : json :=
  match json_as_object existing, json_as_object incoming with
  | Some old, Some new => json_of_object (new ∪ old)
  | _, _ => if json_is_null incoming then existing else incoming
  end.

(** [merge_into]. *)
Definition merge_into (now : Timestamp) (existing incoming : ManagedEntity) : ManagedEntity :=
  {| entity_eid := entity_eid existing;
     entity_environment := entity_environment existing;
     entity_cluster := match entity_cluster incoming with
                       | Some cluster => Some cluster
                       | None => entity_cluster existing
                       end;
     entity_kind := entity_kind existing;
     canonical_name := canonical_name existing;
     display_name := if String.eqb (display_name incoming) (canonical_name incoming)
                     then display_name existing else display_name incoming;
     entity_labels := entity_labels incoming ∪ entity_labels existing;
     entity_metadata := merge_metadata (entity_metadata existing) (entity_metadata incoming);
     entity_capabilities := entity_capabilities existing ∪ entity_capabilities incoming;
     lifecycle_state := Lifecycle_Active;
     discovery_sources := foldl push_unique (discovery_sources existing) (discovery_sources incoming);
     entity_created_at := entity_created_at existing;
     entity_updated_at := now |}.

Definition has_entity (inv : Inventory) (e : EntityId) : Prop := is_Some (inv_entities inv !! e).

(** Both ends of an edge are known. *)
Definition endpoints_known (inv : Inventory) (e : DependencyEdge) : Prop :=
  has_entity inv (edge_source e) ∧ has_entity inv (edge_target e).

#[global] Instance endpoints_known_dec inv e : Decision (endpoints_known inv e).
Proof. unfold endpoints_known, has_entity. apply _. Defined.

(** [Inventory::offer_edge]. *)
Definition offer_edge (now : Timestamp) (st : Inventory * MergeOutcome) (edge : DependencyEdge) :
    Inventory * MergeOutcome :=
  let '(inv, outcome) := st in
  if decide (endpoints_known inv edge) then
    let first := match list_find (λ e, edge_id e = edge_id edge) (graph_edges (inv_graph inv)) with
                 | Some (_, existing) => first_seen_at existing
                 | None => first_seen_at edge
                 end in
    (with_graph (graph_insert (inv_graph inv) (edge_with_times edge first now)) inv,
     outcome_touch outcome)
  else if existsb (λ e, bool_decide (edge_id e = edge_id edge)) (inv_pending inv) then (inv, outcome)
  else (with_pending (inv_pending inv ++ [edge]) inv, outcome).

(** The pending edges of no [ready] identifier. *)
Definition drop_ready (ready pending : list DependencyEdge) : list DependencyEdge :=
  filter (λ e, edge_id e ∉ map edge_id ready) pending.

(** The loop of [Inventory::resolve_pending]. *)
Fixpoint resolve_pending_loop (now : Timestamp) (fuel : nat) (st : Inventory * MergeOutcome) :
    loop_result (Inventory * MergeOutcome) :=
  let '(inv, outcome) := st in
  match filter (endpoints_known inv) (inv_pending inv) with
  | [] => Finished (inv, outcome)
  | ready =>
      match fuel with
      | O => OutOfFuel
      | S fuel' =>
          resolve_pending_loop now fuel'
            (foldl (offer_edge now) (with_pending (drop_ready ready (inv_pending inv)) inv, outcome)
               ready)
      end
  end.

(** One round leaves no edge with known ends behind: one unit of fuel is enough. *)
Definition resolve_pending (now : Timestamp) (st : Inventory * MergeOutcome) :
    loop_result (Inventory * MergeOutcome) :=
  resolve_pending_loop now 1 st.

(** The body of the loop over the snapshot's entities. *)
Definition merge_entity (now : Timestamp) (st : Inventory * MergeOutcome) (incoming : ManagedEntity) :
    Inventory * MergeOutcome :=
  let '(inv, outcome) := st in
  let id := entity_eid incoming in
  match inv_entities inv !! id with
  | Some existing =>
      (with_entities (<[ id := merge_into now existing incoming ]> (inv_entities inv)) inv,
       outcome_add_updated (entity_eid existing)
         (bool_decide (lifecycle_state existing = Lifecycle_Stale)) outcome)
  | None =>
      (with_entities (<[ id := incoming ]> (inv_entities inv)) inv, outcome_add_added id outcome)
  end.

(** [Inventory::merge]. *)
Definition merge (now : Timestamp) (inv : Inventory) (snapshot : InventorySnapshot) :
    loop_result (Inventory * MergeOutcome) :=
  let st := foldl (merge_entity now) (inv, merge_outcome_default) (snapshot_entities snapshot) in
  let st := foldl (offer_edge now) st (snapshot_dependencies snapshot) in
  match resolve_pending now st with
  | Finished (inv', outcome) => Finished (inv', outcome_set_pending (length (inv_pending inv')) outcome)
  | Panicked => Panicked
  | OutOfFuel => OutOfFuel
  end.

(** Whether [mark_absent_as_stale] marks an entity. *)
Definition gone_stale (source : DiscoverySource) (snapshot : InventorySnapshot) (e : ManagedEntity) : Prop :=
  source ∈ discovery_sources e ∧
  Forall (λ s, s = source) (discovery_sources e) ∧
  (entity_eid e ∉ map entity_eid (snapshot_entities snapshot)) ∧
  lifecycle_state e = Lifecycle_Active.

#[global] Instance gone_stale_dec source snapshot e : Decision (gone_stale source snapshot e).
Proof. unfold gone_stale. apply _. Defined.

(** [Inventory::mark_absent_as_stale]. *)
Definition mark_absent_as_stale (now : Timestamp) (inv : Inventory) (source : DiscoverySource)
    (snapshot : InventorySnapshot) : Inventory * MergeOutcome :=
  (with_entities
     ((λ e, if decide (gone_stale source snapshot e) then set_lifecycle Lifecycle_Stale now e else e)
        <$> inv_entities inv) inv,
   {| added := ∅; updated := ∅;
      marked_stale := list_to_set (map entity_eid
        (filter (gone_stale source snapshot) (btree_values (inv_entities inv))));
      revived := ∅; dependencies_touched := 0; dependencies_pending := 0 |}).

(** [Inventory::retract_absent_dependencies]. *)
Definition retract_absent_dependencies (inv : Inventory) (source : DiscoverySource)
    (snapshot : InventorySnapshot) : Inventory * list Uuid :=
  let '(g, dropped) := retain_from_source (inv_graph inv) source
                         (list_to_set (map edge_id (snapshot_dependencies snapshot))) in
  (with_graph g inv, dropped).

(** [Inventory::insert_entity], [insert_dependency], [get], [find]. *)
Definition insert_entity (e : ManagedEntity) (inv : Inventory) : Inventory :=
  with_entities (<[ entity_eid e := e ]> (inv_entities inv)) inv.

Definition insert_dependency (e : DependencyEdge) (inv : Inventory) : Inventory :=
  with_graph (graph_insert (inv_graph inv) e) inv.

Definition get (inv : Inventory) (id : EntityId) : option ManagedEntity := inv_entities inv !! id.

Definition inventory_find `{UuidApi} (inv : Inventory) (environment : string) (t : EntityType)
    (name : string) : option ManagedEntity :=
  get inv (entity_id_of environment t name).

(** [Inventory::entities], [entities_of_type], [active_entities]. *)
Definition entities (inv : Inventory) : list ManagedEntity := btree_values (inv_entities inv).

Definition inv_entities_of_type (inv : Inventory) (t : EntityType) : list ManagedEntity :=
  filter (λ e, entity_kind e = t) (entities inv).

Definition active_entities (inv : Inventory) : list ManagedEntity :=
  filter (λ e, lifecycle_state e = Lifecycle_Active) (entities inv).
End inventory.
