(* ===== verification/InventorySpec.v ===== *)
(** * Inventory: specification

    Merging a snapshot ends, keeps the inventory well formed, and puts every edge
    in the graph exactly when both of its ends are known, so the topology does
    not depend on the order the providers run in. *)

From S2P Require Import Concrete.
From S2P Require Export Inventory.

Section inventory_spec.
Context `{J : JsonApi}.
Implicit Types (inv : Inventory) (e : DependencyEdge) (es : list DependencyEdge).

(** ** Identifiers of a graph and of a merge *)

Definition has_edge (g : DependencyGraph) (i : Uuid) : Prop := i ∈ map edge_id (graph_edges g).

Lemma map_insert_same_id es i e e' :
  es !! i = Some e' → edge_id e' = edge_id e → map edge_id (<[ i := e ]> es) = map edge_id es.
Proof.
  intros Hi Hid. apply list_eq. intros j. rewrite !list_lookup_fmap.
  destruct (decide (i = j)) as [<-|Hne]; [|by rewrite list_lookup_insert_ne].
  rewrite list_lookup_insert_eq by (by eapply lookup_lt_Some). rewrite Hi. by simpl; rewrite Hid.
Qed.

Lemma graph_insert_has_edge g e i : has_edge (graph_insert g e) i ↔ i = edge_id e ∨ has_edge g i.
Proof.
  unfold has_edge, graph_insert. destruct (list_find _ _) as [[j e']|] eqn:Hf; cbn.
  - apply list_find_Some in Hf as (Hj & Hid & _). rewrite (map_insert_same_id _ _ _ e') by done.
    split; [by right|]. intros [->|?]; [|done]. rewrite <-Hid.
    apply list_elem_of_fmap_2. by eapply list_elem_of_lookup_2.
  - rewrite map_app, elem_of_app. cbn. set_solver.
Qed.

(** ** Well-formed inventories *)

(** The identifier of an edge is derived from its ends and type, so it names its
    ends: [ends] reads them back. *)
Variable ends : Uuid → EntityId * EntityId.

Definition follows e : Prop := ends (edge_id e) = (edge_source e, edge_target e).

Record inventory_wf inv : Prop := {
  inv_wf_ids : ∀ k x, inv_entities inv !! k = Some x → entity_eid x = k;
  inv_wf_graph : graph_wf (inv_graph inv);
  inv_wf_edges : ∀ e, e ∈ graph_edges (inv_graph inv) → follows e ∧ endpoints_known inv e;
  inv_wf_pending : ∀ e, e ∈ inv_pending inv → follows e
}.

Lemma inventory_new_wf : inventory_wf inventory_new.
Proof.
  split; cbn; try (by intros e He; apply elem_of_nil in He).
  - intros k x Hk. by rewrite lookup_empty in Hk.
  - split; intros x; reflexivity.
Qed.

Lemma follows_agree es : (∀ e, e ∈ es → follows e) → edges_agree es.
Proof.
  intros Hf e e' He He' Hid. pose proof (Hf e He) as H1. pose proof (Hf e' He') as H2.
  unfold follows in *. rewrite Hid, H2 in H1. by injection H1 as -> ->.
Qed.

Lemma endpoints_known_dom inv inv' e :
  dom (inv_entities inv) = dom (inv_entities inv') → endpoints_known inv e ↔ endpoints_known inv' e.
Proof. intros Hd. unfold endpoints_known, has_entity. by rewrite <-!elem_of_dom, Hd. Qed.

Lemma same_id_known inv e e' :
  follows e → follows e' → edge_id e = edge_id e' → endpoints_known inv e ↔ endpoints_known inv e'.
Proof.
  unfold follows, endpoints_known. intros He He' Hid. rewrite Hid, He' in He.
  by injection He as -> ->.
Qed.

(** ** Entities *)

Lemma merge_entity_frame now inv out x :
  inv_graph (merge_entity now (inv, out) x).1 = inv_graph inv ∧
  inv_pending (merge_entity now (inv, out) x).1 = inv_pending inv ∧
  dom (inv_entities (merge_entity now (inv, out) x).1) = {[ entity_eid x ]} ∪ dom (inv_entities inv).
Proof.
  unfold merge_entity. destruct (inv_entities inv !! entity_eid x) as [y|] eqn:Hy; cbn;
    (split_and!; [done|done|apply dom_insert_L]).
Qed.

Lemma merge_entity_ids now inv out x :
  (∀ k y, inv_entities inv !! k = Some y → entity_eid y = k) →
  ∀ k y, inv_entities (merge_entity now (inv, out) x).1 !! k = Some y → entity_eid y = k.
Proof.
  intros Hids k y. unfold merge_entity.
  destruct (inv_entities inv !! entity_eid x) as [z|] eqn:Hz; cbn; rewrite lookup_insert;
    case_decide; subst; [intros [= <-]; by apply Hids in Hz|by apply Hids|congruence|by apply Hids].
Qed.

Lemma merge_entities_frame now xs inv out :
  let inv' := (foldl (merge_entity now) (inv, out) xs).1 in
  inv_graph inv' = inv_graph inv ∧ inv_pending inv' = inv_pending inv ∧
  dom (inv_entities inv') = list_to_set (map entity_eid xs) ∪ dom (inv_entities inv) ∧
  (inventory_wf inv → inventory_wf inv').
Proof.
  cbn zeta. revert inv out. induction xs as [|x xs IH]; intros inv out; cbn [foldl].
  { split_and!; [done..| cbn; set_solver | done]. }
  pose proof (merge_entity_frame now inv out x) as (Hg & Hp & Hd).
  pose proof (merge_entity_ids now inv out x) as Hi.
  destruct (merge_entity now (inv, out) x) as [inv1 out1]. cbn [fst] in *.
  destruct (IH inv1 out1) as (-> & -> & -> & Hwf). rewrite Hd. split_and!; [done|done| |].
  - cbn. set_solver.
  - intros [H1 H2 H3 H4]. apply Hwf. split; [by apply Hi | by rewrite Hg | | by rewrite Hp].
    rewrite Hg. intros e He. destruct (H3 e He) as [Hf [Hs Ht]]. split; [done|].
    unfold endpoints_known, has_entity in *. rewrite <-!elem_of_dom in *. rewrite Hd. set_solver.
Qed.

(** ** Edges *)

(** What offering the edges [es] does to the topology. *)
Record offered inv es inv' : Prop := {
  off_entities : inv_entities inv' = inv_entities inv;
  off_graph : ∀ i, has_edge (inv_graph inv') i ↔
    has_edge (inv_graph inv) i ∨ ∃ e, e ∈ es ∧ edge_id e = i ∧ endpoints_known inv e;
  off_pending : ∀ e, e ∈ inv_pending inv' →
    e ∈ inv_pending inv ∨ (e ∈ es ∧ ¬ endpoints_known inv e);
  off_held : ∀ e, e ∈ inv_pending inv ∨ (e ∈ es ∧ ¬ endpoints_known inv e) →
    edge_id e ∈ map edge_id (inv_pending inv');
  off_wf : (∀ e, e ∈ es → follows e) → inventory_wf inv → inventory_wf inv'
}.

Lemma endpoints_known_same inv inv' e :
  inv_entities inv = inv_entities inv' → endpoints_known inv e ↔ endpoints_known inv' e.
Proof. intros Hd. apply endpoints_known_dom. by rewrite Hd. Qed.

Lemma offered_nil inv : offered inv [] inv.
Proof. split; try done; set_solver. Qed.

Lemma offered_trans inv es inv1 es1 inv2 :
  offered inv es inv1 → offered inv1 es1 inv2 → offered inv (es ++ es1) inv2.
Proof.
  intros [E1 G1 P1 H1 W1] [E2 G2 P2 H2 W2].
  assert (∀ e, endpoints_known inv1 e ↔ endpoints_known inv e) as Hk
    by (intros e; by apply endpoints_known_same).
  split.
  - congruence.
  - intros i. rewrite G2, G1. setoid_rewrite elem_of_app. setoid_rewrite Hk. naive_solver.
  - intros e [He|[He Hn]]%P2; [destruct (P1 e He) as [|[? ?]]|]; rewrite ?Hk in *; set_solver.
  - intros e He. destruct (decide (e ∈ inv_pending inv ∨ e ∈ es ∧ ¬ endpoints_known inv e)) as [Hd|Hd].
    + apply H1 in Hd. apply list_elem_of_fmap in Hd as (e1 & Hid & He1). rewrite Hid.
      apply H2. by left.
    + apply H2. right. rewrite Hk. set_solver.
  - intros Hf Hw. apply W2; [|apply W1]; set_solver.
Qed.

Lemma offer_edge_offered now inv out e : offered inv [e] (offer_edge now (inv, out) e).1.
Proof.
  unfold offer_edge. destruct (decide (endpoints_known inv e)) as [Hk|Hk]; cbn [fst].
  - set (e' := edge_with_times e _ now). split; cbn.
    + done.
    + intros i. rewrite graph_insert_has_edge. cbn. set_solver.
    + set_solver.
    + intros e0 [He0|[->%list_elem_of_singleton ?]]; [by apply list_elem_of_fmap_2|done].
    + intros Hf [W1 W2 W3 W4]. assert (follows e') as Hfe by (apply (Hf e); set_solver).
      assert (∀ x, x ∈ e' :: graph_edges (inv_graph inv) → follows x) as Hall.
      { intros x [->|Hx]%elem_of_cons; [done|]. by apply W3. }
      split; cbn; [done| |..|done].
      * apply graph_insert_wf; [by apply follows_agree|done].
      * intros x [->|Hx]%graph_insert_edges; [by split|]. by apply W3.
  - destruct (existsb _ _) eqn:Hex; cbn [fst].
    + apply existsb_exists in Hex as (x & Hx%list_elem_of_In & Hid%bool_decide_eq_true).
      split; [done|set_solver|set_solver| |done].
      intros y [Hy|[->%list_elem_of_singleton _]]; [by apply list_elem_of_fmap_2|].
      rewrite <-Hid. by apply list_elem_of_fmap_2.
    + split; cbn; [done|set_solver|set_solver| |].
      * intros y Hy. rewrite map_app, elem_of_app. cbn.
        destruct Hy as [Hy|[->%list_elem_of_singleton _]]; [left; by apply list_elem_of_fmap_2|set_solver].
      * intros Hf [W1 W2 W3 W4]. split; cbn; try done. set_solver.
Qed.

Lemma offer_edges_offered now es inv out : offered inv es (foldl (offer_edge now) (inv, out) es).1.
Proof.
  revert inv out. induction es as [|e es IH]; intros inv out; cbn [foldl]; [apply offered_nil|].
  pose proof (offer_edge_offered now inv out e) as H1.
  destruct (offer_edge now (inv, out) e) as [inv1 out1]. apply (offered_trans inv [e] inv1 es); [done|].
  apply IH.
Qed.

(** ** Resolving what was held back *)

Lemma resolve_round now inv out :
  let ready := filter (endpoints_known inv) (inv_pending inv) in
  let inv1 := with_pending (drop_ready ready (inv_pending inv)) inv in
  let inv' := (foldl (offer_edge now) (inv1, out) ready).1 in
  filter (endpoints_known inv') (inv_pending inv') = [].
Proof.
  cbn zeta. set (ready := filter (endpoints_known inv) (inv_pending inv)).
  set (inv1 := with_pending _ inv).
  pose proof (offer_edges_offered now ready inv1 out) as [He _ Hp _ _].
  destruct (foldl _ _ _) as [inv' out']. cbn [fst] in *.
  destruct (filter (endpoints_known inv') (inv_pending inv')) as [|e l] eqn:Hf; [done|]. exfalso.
  assert (e ∈ filter (endpoints_known inv') (inv_pending inv')) as Hin by (rewrite Hf; set_solver).
  apply list_elem_of_filter in Hin as [Hk Hin]. apply Hp in Hin as [Hin|[_ Hn]].
  2: by apply Hn, (endpoints_known_same inv' inv1).
  assert (endpoints_known inv e) as Hk0 by (by apply (endpoints_known_same inv' inv)).
  cbn in Hin. unfold drop_ready in Hin. apply list_elem_of_filter in Hin as [Hno Hin].
  apply Hno, list_elem_of_fmap_2, list_elem_of_filter. by split.
Qed.

Lemma resolve_pending_finished now inv out :
  ∃ inv' out', resolve_pending now (inv, out) = Finished (inv', out') ∧
    inv_entities inv' = inv_entities inv ∧
    (∀ e, e ∈ inv_pending inv' → e ∈ inv_pending inv ∧ ¬ endpoints_known inv e) ∧
    (∀ i, has_edge (inv_graph inv') i ↔
       has_edge (inv_graph inv) i ∨ ∃ e, e ∈ inv_pending inv ∧ edge_id e = i ∧ endpoints_known inv e) ∧
    (inventory_wf inv → inventory_wf inv' ∧
      ∀ e, e ∈ inv_pending inv → ¬ endpoints_known inv e → edge_id e ∈ map edge_id (inv_pending inv')).
Proof.
  unfold resolve_pending. cbn [resolve_pending_loop].
  pose proof (resolve_round now inv out) as Hr. cbn zeta in Hr.
  destruct (filter (endpoints_known inv) (inv_pending inv)) as [|e0 l] eqn:Hf.
  - assert (∀ e, e ∈ inv_pending inv → ¬ endpoints_known inv e) as Hno.
    { intros e He Hk. assert (e ∈ filter (endpoints_known inv) (inv_pending inv)) as Hin
        by (by apply list_elem_of_filter). rewrite Hf in Hin. by apply elem_of_nil in Hin. }
    exists inv, out. split_and!; [done|done| | |].
    + intros e He. split; [done|by apply Hno].
    + intros i. split; [by left|]. intros [?|(e & He & _ & Hk)]; [done|]. by apply Hno in Hk.
    + intros Hw. split; [done|]. intros e He _. by apply list_elem_of_fmap_2.
  - rewrite <-Hf in *. clear Hf e0 l. set (ready := filter _ (inv_pending inv)) in *.
    set (inv1 := with_pending (drop_ready ready (inv_pending inv)) inv) in *.
    pose proof (offer_edges_offered now ready inv1 out) as [He Hg Hp Hh Hw].
    destruct (foldl _ _ _) as [inv' out']. cbn [fst] in *. exists inv', out'.
    rewrite Hr. assert (∀ e, endpoints_known inv1 e ↔ endpoints_known inv e) as Hk by done.
    assert (∀ e, e ∈ ready ↔ endpoints_known inv e ∧ e ∈ inv_pending inv) as Hready
      by (intros e; unfold ready, inv1; apply list_elem_of_filter).
    assert (∀ e, e ∈ inv_pending inv1 ↔ (edge_id e ∉ map edge_id ready) ∧ e ∈ inv_pending inv) as Hdrop
      by (intros e; unfold inv1, drop_ready; cbn; by rewrite list_elem_of_filter).
    split_and!; [done|done| | |].
    + intros e [[Hno Hin]%Hdrop|[[Hk' _]%Hready Hn]]%Hp; [|by destruct Hn].
      split; [done|]. intros Hke. apply Hno, list_elem_of_fmap_2, Hready. done.
    + intros i. rewrite Hg. setoid_rewrite Hready. setoid_rewrite Hk. naive_solver.
    + intros Hwf. split.
      * apply Hw; [intros e [_ Hin]%Hready; by apply (inv_wf_pending _ Hwf)|].
        destruct Hwf as [W1 W2 W3 W4]. split; cbn; try done. intros e [_ Hin]%Hdrop. by apply W4.
      * intros e Hin Hn. apply Hh. left. apply Hdrop. split; [|done].
        intros (e' & Hid & [Hk' Hin']%Hready)%list_elem_of_fmap. apply Hn.
        apply (same_id_known inv e e'); by (apply (inv_wf_pending _ Hwf) || done).
Qed.

(** ** What a merge does to the topology *)

Record merged inv (snapshot : InventorySnapshot) inv' : Prop := {
  mrg_entities : dom (inv_entities inv') =
    list_to_set (map entity_eid (snapshot_entities snapshot)) ∪ dom (inv_entities inv);
  mrg_graph : ∀ i, has_edge (inv_graph inv') i ↔
    has_edge (inv_graph inv) i ∨
    ∃ e, e ∈ inv_pending inv ++ snapshot_dependencies snapshot ∧ edge_id e = i ∧ endpoints_known inv' e;
  mrg_pending : ∀ e, e ∈ inv_pending inv' →
    e ∈ inv_pending inv ++ snapshot_dependencies snapshot ∧ ¬ endpoints_known inv' e;
  mrg_held : ∀ e, e ∈ inv_pending inv ++ snapshot_dependencies snapshot → ¬ endpoints_known inv' e →
    edge_id e ∈ map edge_id (inv_pending inv')
}.

Definition snapshot_follows (snapshot : InventorySnapshot) : Prop :=
  ∀ e, e ∈ snapshot_dependencies snapshot → follows e.

Lemma merge_topology now inv snapshot :
  inventory_wf inv → snapshot_follows snapshot →
  ∃ inv' out, merge now inv snapshot = Finished (inv', out) ∧
    inventory_wf inv' ∧ merged inv snapshot inv' ∧
    dependencies_pending out = length (inv_pending inv').
Proof.
  intros Hwf Hs. unfold merge.
  pose proof (merge_entities_frame now (snapshot_entities snapshot) inv merge_outcome_default)
    as (Hg1 & Hp1 & Hd1 & Hw1). cbn zeta in *.
  destruct (foldl (merge_entity now) _ _) as [inv1 out1]. cbn [fst] in *.
  pose proof (offer_edges_offered now (snapshot_dependencies snapshot) inv1 out1) as [He2 Hg2 Hp2 Hh2 Hw2].
  destruct (foldl (offer_edge now) _ _) as [inv2 out2]. cbn [fst] in *.
  destruct (resolve_pending_finished now inv2 out2) as (inv3 & out3 & -> & He3 & Hp3 & Hg3 & Hw3).
  specialize (Hw2 Hs (Hw1 Hwf)). destruct (Hw3 Hw2) as [Hwf3 Hh3].
  assert (∀ e, endpoints_known inv1 e ↔ endpoints_known inv3 e) as K1
    by (intros e; apply endpoints_known_same; congruence).
  assert (∀ e, endpoints_known inv2 e ↔ endpoints_known inv3 e) as K2
    by (intros e; apply endpoints_known_same; congruence).
  do 2 eexists. split; [done|]. split; [done|]. split; [|done]. split.
  - by rewrite He3, He2, Hd1.
  - intros i. rewrite Hg3, Hg2, Hg1. setoid_rewrite K1. setoid_rewrite K2.
    setoid_rewrite elem_of_app. split.
    + intros [[?|?]|(e & Hin & Hid & Hk)]; [naive_solver..|].
      apply Hp2 in Hin. rewrite Hp1, K1 in Hin. naive_solver.
    + intros [?|(e & [Hin|Hin] & Hid & Hk)]; [naive_solver| |naive_solver]. right.
      assert (edge_id e ∈ map edge_id (inv_pending inv2)) as Hheld by (apply Hh2; left; by rewrite Hp1).
      apply list_elem_of_fmap in Hheld as (e' & Hid' & Hin'). exists e'. split; [done|].
      split; [congruence|].
      rewrite <-(same_id_known inv3 e e'); [done|by apply (inv_wf_pending _ Hwf)| |done].
      by apply (inv_wf_pending _ Hw2).
  - intros e [Hin Hn]%Hp3. rewrite K2 in Hn. split; [|done]. apply Hp2 in Hin. rewrite Hp1 in Hin.
    set_solver.
  - intros e Hin Hn. assert (edge_id e ∈ map edge_id (inv_pending inv2)) as Hheld.
    { apply Hh2. rewrite Hp1, K1. set_solver. }
    apply list_elem_of_fmap in Hheld as (e' & Hid' & Hin'). rewrite Hid'. apply Hh3; [done|].
    rewrite K2. intros Hk. apply Hn.
    assert (follows e) as F2 by (apply elem_of_app in Hin as [?|?]; [by apply (inv_wf_pending _ Hwf)|by apply Hs]).
    rewrite (same_id_known inv3 e e'); [done|done|by apply (inv_wf_pending _ Hw2)|done].
Qed.

(** A merge always ends, keeps the inventory well formed, and leaves no
    offered edge behind: each one, from this snapshot or held back by an earlier
    merge, is in the graph when both of its ends are known and held back when
    they are not, and nothing known was lost. *)
Theorem merge_places_edges (now : Timestamp) (inv : Inventory) (snapshot : InventorySnapshot) :
  inventory_wf inv → snapshot_follows snapshot →
  ∃ inv' out, merge now inv snapshot = Finished (inv', out) ∧
    inventory_wf inv' ∧
    dom (inv_entities inv) ⊆ dom (inv_entities inv') ∧
    (∀ e, e ∈ inv_pending inv ++ snapshot_dependencies snapshot →
       if decide (endpoints_known inv' e) then has_edge (inv_graph inv') (edge_id e)
       else edge_id e ∈ map edge_id (inv_pending inv')) ∧
    (∀ e, e ∈ inv_pending inv' → ¬ endpoints_known inv' e) ∧
    (∀ i, has_edge (inv_graph inv) i → has_edge (inv_graph inv') i) ∧
    dependencies_pending out = length (inv_pending inv').
Proof.
  intros Hwf Hs. destruct (merge_topology now inv snapshot Hwf Hs)
    as (inv' & out & Hm & Hwf' & [Hd Hg Hp Hh] & Hl).
  exists inv', out. split_and!; [done|done|set_solver| |intros e He; by apply Hp| |done].
  - intros e He. case_decide; [|by apply Hh]. apply Hg. right. by exists e.
  - intros i Hi. apply Hg. by left.
Qed.

Lemma merge_two now now' inv s s' :
  inventory_wf inv → snapshot_follows s → snapshot_follows s' →
  ∃ a b oa ob, merge now inv s = Finished (a, oa) ∧ merge now' a s' = Finished (b, ob) ∧
    dom (inv_entities b) = list_to_set (map entity_eid (snapshot_entities s)) ∪
      list_to_set (map entity_eid (snapshot_entities s')) ∪ dom (inv_entities inv) ∧
    (∀ i, has_edge (inv_graph b) i ↔ has_edge (inv_graph inv) i ∨
       ∃ e, e ∈ inv_pending inv ++ snapshot_dependencies s ++ snapshot_dependencies s' ∧
         edge_id e = i ∧ endpoints_known b e) ∧
    (∀ i, i ∈ map edge_id (inv_pending b) ↔
       ∃ e, e ∈ inv_pending inv ++ snapshot_dependencies s ++ snapshot_dependencies s' ∧
         edge_id e = i ∧ ¬ endpoints_known b e).
Proof.
  intros Hwf Hs Hs'.
  destruct (merge_topology now inv s Hwf Hs) as (a & oa & Ha & Hwa & [Da Ga Pa Ra] & _).
  destruct (merge_topology now' a s' Hwa Hs') as (b & ob & Hb & Hwb & [Db Gb Pb Rb] & _).
  assert (∀ e, endpoints_known a e → endpoints_known b e) as Hmono.
  { intros e. unfold endpoints_known, has_entity. rewrite <-!elem_of_dom, Db. set_solver. }
  assert (∀ e, e ∈ inv_pending inv ++ snapshot_dependencies s → ¬ endpoints_known a e →
    ∃ e', e' ∈ inv_pending a ∧ edge_id e' = edge_id e ∧
      (endpoints_known b e' ↔ endpoints_known b e)) as Hheld.
  { intros e Hin Hn. apply Ra in Hn; [|done]. apply list_elem_of_fmap in Hn as (e' & Hid & Hin').
    exists e'. split_and!; [done|done|]. apply same_id_known; [by apply (inv_wf_pending _ Hwa)| |done].
    apply elem_of_app in Hin as [?|?]; [by apply (inv_wf_pending _ Hwf)|by apply Hs]. }
  exists a, b, oa, ob. split_and!; [done|done|rewrite Db, Da; set_solver| |].
  - intros i. rewrite Gb, Ga. split.
    + intros [[?|(e & Hin & Hid & Hk)]|(e & [Hin|Hin]%elem_of_app & Hid & Hk)]; [by left|right..];
        exists e; (split; [|by auto]); [|apply Pa in Hin as [Hin _]|]; set_solver.
    + intros [?|(e & Hin & Hid & Hk)]; [by do 2 left|].
      destruct (decide (endpoints_known a e)) as [Hka|Hka],
        (decide (e ∈ snapshot_dependencies s')) as [Hd|Hd].
      1,3: right; exists e; set_solver.
      * left. right. exists e. set_solver.
      * destruct (Hheld e) as (e' & Hin' & Hid' & Hk'); [set_solver|done|].
        right. exists e'. rewrite Hk', Hid'. set_solver.
  - intros i. split.
    + intros (e & -> & [[Hin|Hin]%elem_of_app Hn]%Pb)%list_elem_of_fmap; exists e;
        (split; [|done]); [apply Pa in Hin as [Hin _]|]; set_solver.
    + intros (e & Hin & <- & Hn). destruct (decide (e ∈ snapshot_dependencies s')) as [Hd|Hd].
      * apply Rb; set_solver.
      * destruct (Hheld e) as (e' & Hin' & Hid' & Hk'); [set_solver|by auto|].
        rewrite <-Hid'. apply Rb; [set_solver|by rewrite Hk'].
Qed.

(** The topology does not depend on the order the providers run in: merging
    two snapshots either way round leaves the same entities known, the same
    edges in the graph and the same edges held back. *)
Theorem merge_order_irrelevant (now now' : Timestamp) (inv : Inventory) (s1 s2 : InventorySnapshot) :
  inventory_wf inv → snapshot_follows s1 → snapshot_follows s2 →
  ∃ a b c d oa ob oc od,
    merge now inv s1 = Finished (a, oa) ∧ merge now' a s2 = Finished (b, ob) ∧
    merge now inv s2 = Finished (c, oc) ∧ merge now' c s1 = Finished (d, od) ∧
    dom (inv_entities b) = dom (inv_entities d) ∧
    (∀ i, has_edge (inv_graph b) i ↔ has_edge (inv_graph d) i) ∧
    (∀ i, i ∈ map edge_id (inv_pending b) ↔ i ∈ map edge_id (inv_pending d)).
Proof.
  intros Hwf Hs1 Hs2.
  destruct (merge_two now now' inv s1 s2 Hwf Hs1 Hs2) as (a & b & oa & ob & Ha & Hb & Db & Gb & Pb).
  destruct (merge_two now now' inv s2 s1 Hwf Hs2 Hs1) as (c & d & oc & od & Hc & Hd & Dd & Gd & Pd).
  exists a, b, c, d, oa, ob, oc, od.
  assert (dom (inv_entities b) = dom (inv_entities d)) as Hdom by (rewrite Db, Dd; set_solver).
  pose proof (λ e, endpoints_known_dom b d e Hdom) as Hk.
  split_and!; try done; intros i; rewrite ?Gb, ?Gd, ?Pb, ?Pd; setoid_rewrite Hk;
    setoid_rewrite elem_of_app; setoid_rewrite elem_of_app; naive_solver.
Qed.
End inventory_spec.

(** ** Merging one entity *)

Section merge_one.
Context `{J : JsonApi} `{JL : !JsonLaws}.

Lemma foldl_push_unique_known {A} `{EqDecision A} (l xs : list A) :
  (∀ x, x ∈ xs → x ∈ l) → foldl push_unique l xs = l.
Proof.
  induction xs as [|x xs IH]; intros Hin; cbn; [done|]. unfold push_unique at 2.
  rewrite decide_True by set_solver. apply IH. set_solver.
Qed.

Lemma merge_metadata_again existing incoming :
  merge_metadata (merge_metadata existing incoming) incoming = merge_metadata existing incoming.
Proof.
  unfold merge_metadata. destruct (json_as_object incoming) as [new|] eqn:Hn.
  - destruct (json_as_object existing) as [old|] eqn:Ho.
    + rewrite json_as_object_of, (assoc_L (∪)). by rewrite (idemp_L (∪) new).
    + destruct (json_is_null incoming) eqn:Hnull; [by rewrite Ho|].
      rewrite Hn, (idemp_L (∪) new). symmetry. by apply json_as_object_inv.
  - destruct (json_as_object existing) as [old|] eqn:Ho; destruct (json_is_null incoming) eqn:Hnull;
      rewrite ?Ho, ?Hn; done.
Qed.

(** Merging one provider's report of an entity into another's loses nothing
    and is idempotent: the identity and creation time stay, capabilities,
    sources, labels and metadata keys are united with the incoming value taking
    precedence, the entity is active again, and merging the same report a second
    time changes nothing. *)
Theorem merge_into_unites (now : Timestamp) (a b : ManagedEntity) :
  let m := merge_into now a b in
  entity_eid m = entity_eid a ∧ entity_created_at m = entity_created_at a ∧
  managed_entity_key m = managed_entity_key a ∧ lifecycle_state m = Lifecycle_Active ∧
  (∀ c, c ∈ entity_capabilities m ↔ c ∈ entity_capabilities a ∨ c ∈ entity_capabilities b) ∧
  (∀ s, s ∈ discovery_sources m ↔ s ∈ discovery_sources a ∨ s ∈ discovery_sources b) ∧
  (∀ k, entity_labels m !! k = match entity_labels b !! k with
                               | Some v => Some v
                               | None => entity_labels a !! k
                               end) ∧
  (∀ old new, json_as_object (entity_metadata a) = Some old → json_as_object (entity_metadata b) = Some new →
     ∀ k, json_get (entity_metadata m) k = match new !! k with Some v => Some v | None => old !! k end) ∧
  merge_into now m b = m.
Proof.
  cbn zeta. unfold merge_into at 1 2 3 4 5 6 7 8. cbn.
  split_and!; try done.
  - set_solver.
  - intros s. apply elem_of_foldl_push_unique.
  - intros k. rewrite lookup_union. by destruct (entity_labels b !! k), (entity_labels a !! k).
  - intros old new Ho Hn k. unfold merge_metadata. rewrite Ho, Hn, json_get_object, lookup_union.
    by destruct (new !! k), (old !! k).
  - unfold merge_into. cbn. f_equal.
    + by destruct (entity_cluster b).
    + by destruct (String.eqb _ _).
    + by rewrite (assoc_L (∪)), (idemp_L (∪) (entity_labels b)).
    + apply merge_metadata_again.
    + set_solver.
    + apply foldl_push_unique_known. intros x Hx. apply elem_of_foldl_push_unique. by right.
Qed.

(** Absence makes an entity stale only when nobody else vouches for it:
    nothing is ever deleted, an entity changes exactly when this source alone
    reported it, the snapshot leaves it out and it was active, and those are the
    entities the outcome lists. *)
Theorem mark_absent_as_stale_exact (now : Timestamp) (inv : Inventory) (source : DiscoverySource)
    (snapshot : InventorySnapshot) :
  let '(inv', out) := mark_absent_as_stale now inv source snapshot in
  (∀ k, inv_entities inv' !! k =
     (λ e, if decide (gone_stale source snapshot e) then set_lifecycle Lifecycle_Stale now e else e)
       <$> inv_entities inv !! k) ∧
  inv_graph inv' = inv_graph inv ∧ inv_pending inv' = inv_pending inv ∧
  (∀ id, id ∈ marked_stale out ↔
     ∃ k e, inv_entities inv !! k = Some e ∧ entity_eid e = id ∧ gone_stale source snapshot e) ∧
  (∀ k e s, inv_entities inv !! k = Some e → s ∈ discovery_sources e → s ≠ source →
     inv_entities inv' !! k = Some e).
Proof.
  unfold mark_absent_as_stale. cbn. split_and!; [|done|done| |].
  - intros k. by rewrite lookup_fmap.
  - intros id. rewrite elem_of_list_to_set, list_elem_of_fmap. setoid_rewrite list_elem_of_filter.
    setoid_rewrite elem_of_btree_values. naive_solver.
  - intros k e s Hk Hs Hne. rewrite lookup_fmap, Hk. cbn. rewrite decide_False; [done|].
    intros (_ & Hall & _). rewrite Forall_forall in Hall. by apply Hne, Hall.
Qed.
End merge_one.

(** ** Two providers *)

Section example.
Definition rack_host (name : string) : ManagedEntity := managed_entity_new 0 "prod" Entity_Host name.

(** The configuration declares that n1 uses n2; the scheduler reports n2 only. *)
Definition declared_edge : DependencyEdge :=
  dependency_edge_new 0 (entity_eid (rack_host "n1")) (entity_eid (rack_host "n2")) DependsOn.

Definition config_snapshot : InventorySnapshot :=
  add_dependency (add_entity (snapshot_new StaticConfig) (rack_host "n1")) declared_edge.

Definition slurm_snapshot : InventorySnapshot :=
  add_entity (snapshot_new (Integration "slurm")) (rack_host "n2").

Definition declared_ends (i : Uuid) : EntityId * EntityId :=
  (entity_eid (rack_host "n1"), entity_eid (rack_host "n2")).

Lemma config_snapshot_follows : snapshot_follows declared_ends config_snapshot.
Proof. by intros e ->%list_elem_of_singleton. Qed.

Lemma slurm_snapshot_follows : snapshot_follows declared_ends slurm_snapshot.
Proof. intros e He. by apply elem_of_nil in He. Qed.
End example.

Lemma merge_places_edges_witness :
  inventory_wf declared_ends inventory_new ∧ snapshot_follows declared_ends config_snapshot ∧
  ∃ inv' out, merge 5 inventory_new config_snapshot = Finished (inv', out) ∧
    inventory_wf declared_ends inv' ∧ dependencies_pending out = length (inv_pending inv').
Proof.
  split; [apply inventory_new_wf|]. split; [apply config_snapshot_follows|].
  destruct (merge_places_edges declared_ends 5 inventory_new config_snapshot)
    as (inv' & out & H1 & H2 & _ & _ & _ & _ & H3);
    [apply inventory_new_wf | apply config_snapshot_follows |].
  by exists inv', out.
Defined.

Lemma merge_order_irrelevant_witness :
  inventory_wf declared_ends inventory_new ∧ snapshot_follows declared_ends config_snapshot ∧
  snapshot_follows declared_ends slurm_snapshot ∧
  ∃ a b c d oa ob oc od,
    merge 5 inventory_new config_snapshot = Finished (a, oa) ∧ merge 6 a slurm_snapshot = Finished (b, ob) ∧
    merge 5 inventory_new slurm_snapshot = Finished (c, oc) ∧ merge 6 c config_snapshot = Finished (d, od) ∧
    dom (inv_entities b) = dom (inv_entities d) ∧
    (∀ i, has_edge (inv_graph b) i ↔ has_edge (inv_graph d) i) ∧
    (∀ i, i ∈ map edge_id (inv_pending b) ↔ i ∈ map edge_id (inv_pending d)).
Proof.
  split; [apply inventory_new_wf|]. split; [apply config_snapshot_follows|].
  split; [apply slurm_snapshot_follows|].
  apply (merge_order_irrelevant declared_ends);
    [apply inventory_new_wf | apply config_snapshot_follows | apply slurm_snapshot_follows].
Defined.

Lemma merge_into_unites_witness :
  merge_into 7 (merge_into 7 (rack_host "n1") (with_label (rack_host "n1") "rack" "a"))
    (with_label (rack_host "n1") "rack" "a")
  = merge_into 7 (rack_host "n1") (with_label (rack_host "n1") "rack" "a").
Proof.
  apply (merge_into_unites 7 (rack_host "n1") (with_label (rack_host "n1") "rack" "a")).
Defined.
