(* ===== verification/Store.v ===== *)
(** * Storing the inventory

    [src/persistence/entities.rs]: the tables of entities, their labels,
    capabilities and discovery sources, and of dependencies; what saving,
    reconciling and loading do to them.  The columns no code reads back
    (when a capability or a source was first and last seen, and why a
    capability was resolved) are left out; identifiers, JSON values and times
    are kept as values, the names of enumerations as the text they are stored
    as. *)

From S2P Require Export Inventory External.

Local Open Scope string_scope.

Section store.
Context `{J : JsonApi}.

(** ** Tables *)

(** A row of [entities]. *)
Record EntityRow := mk_entity_row {
  er_environment : string;
  er_cluster : option string;
  er_entity_type : string;
  er_canonical_name : string;
  er_display_name : string;
  er_metadata : json;
  er_lifecycle_state : string;
  er_created_at : Timestamp;
  er_updated_at : Timestamp
}.

(** A row of [dependencies]. *)
Record DependencyRow := mk_dependency_row {
  dr_source : EntityId;
  dr_target : EntityId;
  dr_dependency_type : string;
  dr_criticality : string;
  dr_metadata : json;
  dr_discovery_source : string;
  dr_first_seen_at : Timestamp;
  dr_last_seen_at : Timestamp
}.

(** The tables: [entity_capabilities] keeps the source a capability is
    attributed to. *)
Record InventoryTables := mk_tables {
  t_environments : gset string;
  t_entities : gmap EntityId EntityRow;
  t_labels : gmap (EntityId * string) string;
  t_capabilities : gmap (EntityId * Capability) string;
  t_sources : gmap (EntityId * string) unit;
  t_dependencies : gmap Uuid DependencyRow
}.

Definition set_entity_rows (m : gmap EntityId EntityRow) (t : InventoryTables) : InventoryTables :=
  mk_tables (t_environments t) m (t_labels t) (t_capabilities t) (t_sources t) (t_dependencies t).
Definition set_label_rows (m : gmap (EntityId * string) string) (t : InventoryTables) : InventoryTables :=
  mk_tables (t_environments t) (t_entities t) m (t_capabilities t) (t_sources t) (t_dependencies t).
Definition set_capability_rows (m : gmap (EntityId * Capability) string) (t : InventoryTables) : InventoryTables :=
  mk_tables (t_environments t) (t_entities t) (t_labels t) m (t_sources t) (t_dependencies t).
Definition set_source_rows (m : gmap (EntityId * string) unit) (t : InventoryTables) : InventoryTables :=
  mk_tables (t_environments t) (t_entities t) (t_labels t) (t_capabilities t) m (t_dependencies t).
Definition set_dependency_rows (m : gmap Uuid DependencyRow) (t : InventoryTables) : InventoryTables :=
  mk_tables (t_environments t) (t_entities t) (t_labels t) (t_capabilities t) (t_sources t) m.

(** [ensure_environment] ([src/persistence/sqlite.rs]). *)
Definition ensure_environment (name : string) (t : InventoryTables) : InventoryTables :=
  mk_tables ({[ name ]} ∪ t_environments t) (t_entities t) (t_labels t) (t_capabilities t) (t_sources t)
    (t_dependencies t).

(** ** Saving *)

(** Another row has the natural key: [UNIQUE (environment, entity_type,
    canonical_name)]. *)
Definition natural_key (r : EntityRow) : string * string * string :=
  (er_environment r, er_entity_type r, er_canonical_name r).

Definition natural_key_taken (r : EntityRow) (t : InventoryTables) : bool :=
  existsb (λ r', bool_decide (natural_key r' = natural_key r)) (map snd (map_to_list (t_entities t))).

Definition row_of_entity (e : ManagedEntity) : EntityRow :=
  mk_entity_row (entity_environment e) (entity_cluster e) (entity_type_as_str (entity_kind e))
    (canonical_name e) (display_name e) (entity_metadata e) (lifecycle_as_str (lifecycle_state e))
    (to_micros (entity_created_at e)) (to_micros (entity_updated_at e)).

(** The [INSERT INTO entities .. ON CONFLICT(id) DO UPDATE] of
    [save_entity_tx]. *)
Definition upsert_entity (e : ManagedEntity) (t : InventoryTables) : StoreError + InventoryTables :=
  let new := row_of_entity e in
  match t_entities t !! entity_eid e with
  | Some old =>
      inr (set_entity_rows (<[ entity_eid e :=
        mk_entity_row (er_environment old) (er_cluster new) (er_entity_type old) (er_canonical_name old)
          (er_display_name new) (er_metadata new) (er_lifecycle_state new) (er_created_at old)
          (er_updated_at new) ]> (t_entities t)) t)
  | None =>
      if bool_decide (entity_environment e ∉ t_environments t) || natural_key_taken new t then inl Store_Database
      else inr (set_entity_rows (<[ entity_eid e := new ]> (t_entities t)) t)
  end.

(** Labels are replaced wholesale. *)
Definition replace_labels (e : ManagedEntity) (t : InventoryTables) : InventoryTables :=
  set_label_rows
    (map_fold (λ k v m, <[ (entity_eid e, k) := v ]> m)
       (filter (λ l, l.1.1 ≠ entity_eid e) (t_labels t)) (entity_labels e)) t.

(** The source new capability rows are attributed to. *)
Definition first_source (e : ManagedEntity) : string :=
  match discovery_sources e with s :: _ => discovery_source_as_str s | [] => discovery_source_as_str Manual end.

(** [INSERT .. ON CONFLICT(entity_id, capability) DO UPDATE SET last_seen_at]:
    a row there is keeps its source. *)
Definition insert_capability (id : EntityId) (source : string) (m : gmap (EntityId * Capability) string)
    (c : Capability) : gmap (EntityId * Capability) string :=
  match m !! (id, c) with Some _ => m | None => <[ (id, c) := source ]> m end.

Definition add_capabilities (e : ManagedEntity) (t : InventoryTables) : InventoryTables :=
  set_capability_rows
    (foldl (insert_capability (entity_eid e) (first_source e)) (t_capabilities t)
       (btree_elements (entity_capabilities e))) t.

Definition add_sources (e : ManagedEntity) (t : InventoryTables) : InventoryTables :=
  set_source_rows
    (foldl (λ m s, <[ (entity_eid e, discovery_source_as_str s) := tt ]> m) (t_sources t) (discovery_sources e)) t.

(** [save_entity_tx]. *)
Definition save_entity_tx (t : InventoryTables) (e : ManagedEntity) : StoreError + InventoryTables :=
  sum_bind (λ t, inr (add_sources e (add_capabilities e (replace_labels e t)))) (upsert_entity e t).

(** [save_entity]: an error rolls back. *)
Definition save_entity (t : InventoryTables) (e : ManagedEntity) : StoreError + InventoryTables := save_entity_tx t e.

Definition row_of_edge (e : DependencyEdge) : DependencyRow :=
  mk_dependency_row (edge_source e) (edge_target e) (dependency_type_as_str (dependency_type e))
    (criticality_as_str (criticality e)) (edge_metadata e) (discovery_source_as_str (edge_discovery_source e))
    (to_micros (first_seen_at e)) (to_micros (last_seen_at e)).

(** [UNIQUE (source_entity_id, target_entity_id, dependency_type)]. *)
Definition edge_key (r : DependencyRow) : EntityId * EntityId * string :=
  (dr_source r, dr_target r, dr_dependency_type r).

Definition edge_key_taken (r : DependencyRow) (t : InventoryTables) : bool :=
  existsb (λ r', bool_decide (edge_key r' = edge_key r)) (map snd (map_to_list (t_dependencies t))).

(** [save_dependency_tx]: both ends must be entities. *)
Definition save_dependency_tx (t : InventoryTables) (e : DependencyEdge) : StoreError + InventoryTables :=
  let new := row_of_edge e in
  match t_dependencies t !! edge_id e with
  | Some old =>
      inr (set_dependency_rows (<[ edge_id e :=
        mk_dependency_row (dr_source old) (dr_target old) (dr_dependency_type old) (dr_criticality new)
          (dr_metadata new) (dr_discovery_source new) (dr_first_seen_at old) (dr_last_seen_at new) ]>
        (t_dependencies t)) t)
  | None =>
      if bool_decide (edge_source e ∉ dom (t_entities t)) || bool_decide (edge_target e ∉ dom (t_entities t))
         || edge_key_taken new t
      then inl Store_Database
      else inr (set_dependency_rows (<[ edge_id e := new ]> (t_dependencies t)) t)
  end.

(** [save_inventory]: one transaction, so an error leaves the tables as they
    were. *)
Definition save_inventory (inv : Inventory) (t : InventoryTables) : StoreError + InventoryTables :=
  sum_bind (λ t, try_fold save_dependency_tx t (graph_edges (inv_graph inv)))
    (try_fold save_entity_tx t (entities inv)).

(** ** Reconciling *)

(** [reconcile_dependencies]: the tables and how many rows went. *)
Definition reconcile_dependencies (source : DiscoverySource) (keep : list Uuid) (t : InventoryTables) :
    InventoryTables * nat :=
  let kept := filter (λ r, ¬ (dr_discovery_source r.2 = discovery_source_as_str source ∧ r.1 ∉ keep))
                (t_dependencies t) in
  (set_dependency_rows kept t, (size (t_dependencies t) - size kept)%nat).

(** [reconcile_capabilities]: rows of this source that are not claimed go, and
    every claim is attributed to it; a claim about no entity is refused. *)
Definition reconcile_capabilities (entity : EntityId) (source : DiscoverySource) (cs : CapabilitySet)
    (t : InventoryTables) : StoreError + (InventoryTables * nat) :=
  let kept := filter (λ r, ¬ (r.1.1 = entity ∧ r.2 = discovery_source_as_str source ∧ r.1.2 ∉ cs))
                (t_capabilities t) in
  if bool_decide (cs ≠ ∅) && bool_decide (entity ∉ dom (t_entities t)) then inl Store_Database
  else inr (set_capability_rows
              (foldl (λ m c, <[ (entity, c) := discovery_source_as_str source ]> m) kept (btree_elements cs)) t,
            (size (t_capabilities t) - size kept)%nat).

(** ** Loading *)

Context `{HI : HashIter}.

(** The labels, capabilities and sources of one entity. *)
Definition labels_of (id : EntityId) (t : InventoryTables) : gmap string string :=
  list_to_map (omap (λ l, if decide (l.1.1 = id) then Some (l.1.2, l.2) else None) (map_to_list (t_labels t))).

Definition capabilities_of (id : EntityId) (t : InventoryTables) : CapabilitySet :=
  list_to_set (omap (λ k, if decide (k.1.1 = id) then Some k.1.2 else None) (map_to_list (t_capabilities t))).

Definition sources_of (id : EntityId) (t : InventoryTables) : list DiscoverySource :=
  map discovery_source_parse
    (omap (λ k, if decide (k.1.1 = id) then Some k.1.2 else None) (hash_iter (t_sources t))).

(** One row decoded: an unknown type is an error, an unknown lifecycle is read
    as stale. *)
Definition decode_entity (t : InventoryTables) (row : EntityId * EntityRow) : StoreError + ManagedEntity :=
  let '(id, r) := row in
  match entity_type_parse (er_entity_type r) with
  | None => inl (Store_Decode "entity type" (er_entity_type r))
  | Some kind =>
      inr {| entity_eid := id; entity_environment := er_environment r; entity_cluster := er_cluster r;
             entity_kind := kind; canonical_name := er_canonical_name r; display_name := er_display_name r;
             entity_labels := labels_of id t; entity_metadata := er_metadata r;
             entity_capabilities := capabilities_of id t;
             lifecycle_state := default Lifecycle_Stale (lifecycle_parse (er_lifecycle_state r));
             discovery_sources := sources_of id t;
             entity_created_at := er_created_at r; entity_updated_at := er_updated_at r |}
  end.

(** The rows of an environment, [ORDER BY entity_type, canonical_name]. *)
Definition entity_rows (environment : string) (t : InventoryTables) : list (EntityId * EntityRow) :=
  sort_by_key (λ r, (er_entity_type r.2, er_canonical_name r.2))
    (filter (λ r, er_environment r.2 = environment) (map_to_list (t_entities t))).

(** [load_entities]. *)
Definition load_entities (environment : string) (t : InventoryTables) : StoreError + list ManagedEntity :=
  try_map (decode_entity t) (entity_rows environment t).

Definition decode_edge (row : Uuid * DependencyRow) : DependencyEdge :=
  let '(id, r) := row in
  {| edge_id := id; edge_source := dr_source r; edge_target := dr_target r;
     dependency_type := dependency_type_parse (dr_dependency_type r);
     criticality := default Criticality_Critical (criticality_parse (dr_criticality r));
     edge_metadata := dr_metadata r;
     edge_discovery_source := discovery_source_parse (dr_discovery_source r);
     first_seen_at := dr_first_seen_at r; last_seen_at := dr_last_seen_at r |}.

(** [load_dependencies]: by the environment of the source alone, in no
    particular order. *)
Definition load_dependencies (environment : string) (t : InventoryTables) : list DependencyEdge :=
  map decode_edge
    (filter (λ r, er_environment <$> t_entities t !! dr_source r.2 = Some environment)
       (hash_iter (t_dependencies t))).

(** [load_inventory]. *)
Definition load_inventory (environment : string) (t : InventoryTables) : StoreError + Inventory :=
  sum_bind (λ es, inr (foldl (λ inv e, insert_dependency e inv)
                         (foldl (λ inv e, insert_entity e inv) inventory_new es)
                         (load_dependencies environment t)))
    (load_entities environment t).
End store.
