(* ===== verification/StoreSpec.v ===== *)
(** * Storing the inventory: what the tables guarantee

    What is saved loads back, what is loaded saves back to the same rows, and
    reconciling a source takes exactly that source's claims away. *)

From S2P Require Import Concrete.
From S2P Require Export Store InventorySpec.

Local Open Scope string_scope.

Section store_spec.
Context `{J : JsonApi} `{HI : HashIter}.
Implicit Types (t : InventoryTables) (e : ManagedEntity) (id : EntityId).

(** ** Well-formed tables *)

(** Every enumeration is stored under the name of one of its values, and every
    time to the microsecond. *)
Definition entity_row_wf (r : EntityRow) : Prop :=
  (∃ k, er_entity_type r = entity_type_as_str k) ∧ (∃ l, er_lifecycle_state r = lifecycle_as_str l)
  ∧ to_micros (er_created_at r) = er_created_at r ∧ to_micros (er_updated_at r) = er_updated_at r.

Definition dependency_row_wf (r : DependencyRow) : Prop :=
  (∃ c, dr_criticality r = criticality_as_str c) ∧ (∃ d, dr_discovery_source r = discovery_source_as_str d)
  ∧ to_micros (dr_first_seen_at r) = dr_first_seen_at r ∧ to_micros (dr_last_seen_at r) = dr_last_seen_at r.

Record tables_wf t : Prop := {
  tw_entities : map_Forall (λ _, entity_row_wf) (t_entities t);
  tw_sources : map_Forall (λ k _, ∃ d, k.2 = discovery_source_as_str d) (t_sources t);
  tw_dependencies : map_Forall (λ _, dependency_row_wf) (t_dependencies t)
}.

Lemma row_of_entity_wf e : entity_row_wf (row_of_entity e).
Proof. split_and!; cbn; eauto using to_micros_idem. Qed.

Lemma row_of_edge_wf (e : DependencyEdge) : dependency_row_wf (row_of_edge e).
Proof. split_and!; cbn; eauto using to_micros_idem. Qed.

Lemma dependency_type_text s : dependency_type_as_str (dependency_type_parse s) = s.
Proof.
  unfold dependency_type_parse.
  repeat match goal with |- context [String.eqb s ?n] => destruct (String.eqb_spec s n) as [->|]; [done|] end.
  done.
Qed.

(** ** The rows of one entity *)

Lemma elem_of_capabilities id t c : c ∈ capabilities_of id t ↔ is_Some (t_capabilities t !! (id, c)).
Proof.
  unfold capabilities_of. rewrite elem_of_list_to_set, list_elem_of_omap. split.
  - intros ([[i c'] s] & Hin%elem_of_map_to_list & Hc). cbn in Hc. case_decide; simplify_eq. by exists s.
  - intros [s Hs]. exists ((id, c), s). rewrite elem_of_map_to_list. cbn. by rewrite decide_True.
Qed.

Lemma lookup_labels id t k : labels_of id t !! k = t_labels t !! (id, k).
Proof.
  unfold labels_of. apply option_eq. intros v. rewrite <- elem_of_list_to_map.
  - rewrite list_elem_of_omap. split.
    + intros ([[i k'] v'] & Hin%elem_of_map_to_list & Hk). cbn in Hk. by case_decide; simplify_eq.
    + intros Hv. exists ((id, k), v). rewrite elem_of_map_to_list. cbn. by rewrite decide_True.
  - pose proof (NoDup_map_to_list (t_labels t)) as Hnd. pose proof (NoDup_fst_map_to_list (t_labels t)) as Hk.
    clear Hnd. induction (map_to_list (t_labels t)) as [|[[i k'] v'] l IH]; cbn; [constructor|].
    apply NoDup_cons in Hk as [Hnotin Hk]. case_decide as Hi; cbn; [|by apply IH]. apply NoDup_cons. split; [|by apply IH].
    intros ([k2 v2] & -> & ([[i3 k3] v3] & Hin & Heq)%list_elem_of_omap)%list_elem_of_fmap.
    cbn in Heq. case_decide; simplify_eq. apply Hnotin. apply list_elem_of_fmap. by exists ((id, k2), v2).
Qed.

Lemma elem_of_sources id t d :
  map_Forall (λ k _, ∃ d, k.2 = discovery_source_as_str d) (t_sources t) →
  d ∈ sources_of id t ↔ is_Some (t_sources t !! (id, discovery_source_as_str d)).
Proof.
  intros Hwf. unfold sources_of. rewrite list_elem_of_fmap. split.
  - intros (s & -> & ([[i s'] []] & Hin%elem_of_hash_iter & Hs)%list_elem_of_omap). cbn in Hs.
    case_decide; simplify_eq. destruct (Hwf _ _ Hin) as [d Hd]. cbn in Hd. subst s.
    rewrite discovery_source_roundtrip. by exists tt.
  - intros [[] Hs]. exists (discovery_source_as_str d). split; [by rewrite discovery_source_roundtrip|].
    apply list_elem_of_omap. exists ((id, discovery_source_as_str d), tt). rewrite elem_of_hash_iter. cbn.
    by rewrite decide_True.
Qed.

(** ** Saving one entity *)

Lemma lookup_replace_labels e t i k :
  t_labels (replace_labels e t) !! (i, k) = if decide (i = entity_eid e) then entity_labels e !! k else t_labels t !! (i, k).
Proof.
  unfold replace_labels. cbn [t_labels set_label_rows]. set (base := filter _ _).
  assert (base !! (i, k) = if decide (i = entity_eid e) then None else t_labels t !! (i, k)) as Hb.
  { unfold base. case_decide as Hi.
    - apply map_lookup_filter_None. right. intros v _ Hne. by apply Hne.
    - destruct (t_labels t !! (i, k)) eqn:Hl; [|apply map_lookup_filter_None; by left].
      by apply map_lookup_filter_Some. }
  apply (map_fold_weak_ind (λ m L, m !! (i, k) = if decide (i = entity_eid e) then L !! k else t_labels t !! (i, k))).
  - rewrite Hb. by case_decide.
  - intros k' v L m Hk' IH. destruct (decide ((i, k) = (entity_eid e, k'))) as [[= -> ->]|Hne].
    + rewrite lookup_insert_eq, decide_True by done. by rewrite lookup_insert_eq.
    + rewrite lookup_insert_ne by congruence. rewrite IH. case_decide as Hi; [|done].
      rewrite lookup_insert_ne; [done|]. congruence.
Qed.

Lemma lookup_add_capabilities id source m cs i c :
  foldl (insert_capability id source) m cs !! (i, c)
  = match m !! (i, c) with
    | Some s => Some s
    | None => if decide (i = id ∧ c ∈ cs) then Some source else None
    end.
Proof.
  revert m. induction cs as [|c' cs IH]; intros m; cbn [foldl].
  - destruct (m !! (i, c)); [done|]. rewrite decide_False; [done|]. intros [_ H]. by apply elem_of_nil in H.
  - rewrite IH. unfold insert_capability. destruct (m !! (id, c')) as [s|] eqn:Hm.
    + destruct (m !! (i, c)) eqn:Hic; [done|]. apply decide_ext. rewrite elem_of_cons.
      split; [tauto|]. intros [-> [->|?]]; [congruence|done].
    + destruct (decide ((i, c) = (id, c'))) as [[= -> ->]|Hne].
      * rewrite lookup_insert_eq, Hm. rewrite decide_True; [done|]. split; [done|by left].
      * rewrite lookup_insert_ne by congruence. destruct (m !! (i, c)); [done|].
        apply decide_ext. rewrite elem_of_cons. split; [tauto|]. intros [-> [->|?]]; [done|done].
Qed.

Lemma lookup_add_sources id (m : gmap (EntityId * string) unit) (ds : list DiscoverySource) k :
  is_Some (foldl (λ m s, <[ (id, discovery_source_as_str s) := tt ]> m) m ds !! k)
  ↔ is_Some (m !! k) ∨ ∃ d, d ∈ ds ∧ k = (id, discovery_source_as_str d).
Proof.
  revert m. induction ds as [|d ds IH]; intros m; cbn [foldl].
  - split; [by left|]. intros [?|(d & H & _)]; [done|by apply elem_of_nil in H].
  - rewrite IH. setoid_rewrite elem_of_cons. destruct (decide (k = (id, discovery_source_as_str d))) as [->|Hne].
    + rewrite lookup_insert_eq. naive_solver.
    + rewrite lookup_insert_ne by congruence. naive_solver.
Qed.

(** What [save_entity_tx] leaves where. *)
Lemma save_entity_tables t e t' :
  save_entity_tx t e = inr t' →
  (∃ r, t_entities t' = <[ entity_eid e := r ]> (t_entities t)
     ∧ er_cluster r = entity_cluster e ∧ er_display_name r = display_name e ∧ er_metadata r = entity_metadata e
     ∧ er_lifecycle_state r = lifecycle_as_str (lifecycle_state e)
     ∧ er_updated_at r = to_micros (entity_updated_at e)
     ∧ match t_entities t !! entity_eid e with
       | Some old => natural_key r = natural_key old ∧ er_created_at r = er_created_at old
       | None => natural_key r = natural_key (row_of_entity e) ∧ er_created_at r = to_micros (entity_created_at e)
       end)
  ∧ (∀ i k, t_labels t' !! (i, k) = if decide (i = entity_eid e) then entity_labels e !! k else t_labels t !! (i, k))
  ∧ (∀ i c, t_capabilities t' !! (i, c)
       = match t_capabilities t !! (i, c) with
         | Some s => Some s
         | None => if decide (i = entity_eid e ∧ c ∈ entity_capabilities e) then Some (first_source e) else None
         end)
  ∧ (∀ k, is_Some (t_sources t' !! k)
       ↔ is_Some (t_sources t !! k) ∨ ∃ d, d ∈ discovery_sources e ∧ k = (entity_eid e, discovery_source_as_str d))
  ∧ t_dependencies t' = t_dependencies t ∧ t_environments t' = t_environments t.
Proof.
  unfold save_entity_tx. destruct (upsert_entity e t) as [err|t1] eqn:Hu; cbn [sum_bind]; [done|]. intros [= <-].
  unfold add_sources, add_capabilities.
  cbn [t_entities t_labels t_capabilities t_sources t_dependencies t_environments set_source_rows
       set_capability_rows replace_labels set_label_rows].
  assert (∃ r, t1 = set_entity_rows (<[ entity_eid e := r ]> (t_entities t)) t
    ∧ er_cluster r = entity_cluster e ∧ er_display_name r = display_name e ∧ er_metadata r = entity_metadata e
    ∧ er_lifecycle_state r = lifecycle_as_str (lifecycle_state e)
    ∧ er_updated_at r = to_micros (entity_updated_at e)
    ∧ match t_entities t !! entity_eid e with
      | Some old => natural_key r = natural_key old ∧ er_created_at r = er_created_at old
      | None => natural_key r = natural_key (row_of_entity e) ∧ er_created_at r = to_micros (entity_created_at e)
      end) as (r & -> & Hr).
  { unfold upsert_entity in Hu. destruct (t_entities t !! entity_eid e) as [old|].
    - injection Hu as <-. eexists. split; [done|]. by split_and!.
    - destruct (_ || _); [done|]. injection Hu as <-. eexists. split; [done|]. by split_and!. }
  split; [exists r; split; [done|exact Hr]|].
  cbn [t_labels t_capabilities t_sources t_entities t_dependencies t_environments set_entity_rows].
  split_and!; [|..|done|done].
  - intros i k. exact (lookup_replace_labels e (set_entity_rows (<[ entity_eid e := r ]> (t_entities t)) t) i k).
  - intros i c. rewrite lookup_add_capabilities. destruct (t_capabilities t !! (i, c)); [done|].
    apply decide_ext. by rewrite elem_of_btree_elements.
  - intros k. apply lookup_add_sources.
Qed.

Lemma save_entity_wf t e t' : tables_wf t → save_entity_tx t e = inr t' → tables_wf t'.
Proof.
  intros [We Ws Wd] Hsave. pose proof Hsave as Hu. unfold save_entity_tx, upsert_entity in Hu.
  apply save_entity_tables in Hsave as ((r & He & _ & _ & _ & Hl & Hup & Hold) & _ & _ & Hs & Hd & _). split.
  - rewrite He. apply map_Forall_insert_2; [|done].
    destruct (t_entities t !! entity_eid e) as [old|] eqn:Ho.
    + destruct Hold as [Hk Hc]. destruct (We _ _ Ho) as (Hty & _ & Hcr & _). unfold natural_key in Hk.
      injection Hk as _ Hk _. unfold entity_row_wf. rewrite Hk, Hl, Hup, Hc. split_and!; eauto using to_micros_idem.
    + destruct Hold as [Hk Hc]. injection Hk as _ Hk _. unfold entity_row_wf. rewrite Hk, Hl, Hup, Hc. cbn.
      split_and!; eauto using to_micros_idem.
  - intros k [] Hk. destruct (proj1 (Hs k)) as [[[] Hk']|(d & _ & ->)]; [by exists tt|by apply (Ws _ _ Hk')|by exists d].
  - by rewrite Hd.
Qed.

Lemma save_dependency_wf t (x : DependencyEdge) t' : tables_wf t → save_dependency_tx t x = inr t' → tables_wf t'.
Proof.
  intros [We Ws Wd] Hu. unfold save_dependency_tx in Hu. destruct (t_dependencies t !! edge_id x) as [old|] eqn:Ho.
  - injection Hu as <-. split; [done|done|]. cbn. apply map_Forall_insert_2; [|done].
    destruct (Wd _ _ Ho) as (_ & _ & Hf & _), (row_of_edge_wf x) as (Hc & Hd & _ & Hl). by split_and!.
  - destruct (_ || _); [done|]. injection Hu as <-. split; [done|done|]. cbn.
    apply map_Forall_insert_2; [apply row_of_edge_wf|done].
Qed.

Lemma save_inventory_wf inv t t' : tables_wf t → save_inventory inv t = inr t' → tables_wf t'.
Proof.
  intros Hwf. unfold save_inventory. destruct (try_fold save_entity_tx t (entities inv)) as [err|t1] eqn:H1;
    cbn [sum_bind]; [done|]. intros H2.
  apply (try_fold_invariant tables_wf save_entity_tx) in H1; [|by intros; eapply save_entity_wf|done].
  apply (try_fold_invariant tables_wf save_dependency_tx) in H2; [done|by intros; eapply save_dependency_wf|done].
Qed.

(** ** Loading *)

(** With well-formed tables every row of the environment loads. *)
Lemma decode_entity_total t id r :
  entity_row_wf r → ∃ e, decode_entity t (id, r) = inr e ∧ entity_eid e = id
    ∧ natural_key (row_of_entity e) = natural_key r ∧ entity_environment e = er_environment r.
Proof.
  intros ((k & Hk) & _). unfold decode_entity. rewrite Hk, entity_type_roundtrip. eexists.
  split; [done|]. split; [done|]. split; [|done]. unfold natural_key. cbn. by rewrite Hk.
Qed.

Lemma elem_of_entity_rows env t id r :
  (id, r) ∈ entity_rows env t ↔ t_entities t !! id = Some r ∧ er_environment r = env.
Proof. unfold entity_rows. rewrite elem_of_sort_by_key, list_elem_of_filter, elem_of_map_to_list. cbn. tauto. Qed.

Lemma load_entities_total env t : tables_wf t → ∃ es, load_entities env t = inr es.
Proof.
  intros [We _ _]. unfold load_entities.
  assert (∀ x, x ∈ entity_rows env t → ∃ e, decode_entity t x = inr e) as Hall.
  { intros [id r] [Hr _]%elem_of_entity_rows. destruct (decode_entity_total t id r (We _ _ Hr)) as (e & He & _). by exists e. }
  induction (entity_rows env t) as [|x l IH]; [by exists []|]. cbn [try_map].
  destruct (Hall x) as [e ->]; [by left|]. destruct IH as [es ->]; [intros y Hy; apply Hall; by right|].
  cbn. by eexists.
Qed.

Lemma elem_of_load_entities env t es e :
  load_entities env t = inr es →
  e ∈ es ↔ ∃ r, t_entities t !! entity_eid e = Some r ∧ er_environment r = env ∧ decode_entity t (entity_eid e, r) = inr e.
Proof.
  unfold load_entities. intros Hl%try_map_Forall2. split.
  - intros He. apply list_elem_of_lookup in He as [i Hi].
    destruct (Forall2_lookup_r _ _ _ _ _ Hl Hi) as ([id r] & Hx & Hd). apply list_elem_of_lookup_2 in Hx.
    apply elem_of_entity_rows in Hx as [Hr Henv].
    assert (id = entity_eid e) as ->.
    { unfold decode_entity in Hd. destruct (entity_type_parse _); [|done]. by injection Hd as <-. }
    by exists r.
  - intros (r & Hr & Henv & Hd). assert ((entity_eid e, r) ∈ entity_rows env t) as Hin by (by apply elem_of_entity_rows).
    apply list_elem_of_lookup in Hin as [i Hi]. destruct (Forall2_lookup_l _ _ _ _ _ Hl Hi) as (e' & Hi' & Hd').
    apply list_elem_of_lookup_2 in Hi'. congruence.
Qed.

(** ** Saving what was loaded *)

Lemma try_fold_same {A B} (f : A → B → StoreError + A) a l : (∀ b, b ∈ l → f a b = inr a) → try_fold f a l = inr a.
Proof.
  induction l as [|b l IH]; intros Hl; [done|]. cbn [try_fold]. rewrite Hl by (by left). cbn. apply IH.
  intros b' Hb. apply Hl. by right.
Qed.

Lemma set_rows_same t :
  mk_tables (t_environments t) (t_entities t) (t_labels t) (t_capabilities t) (t_sources t) (t_dependencies t) = t.
Proof. by destruct t. Qed.

Lemma save_loaded_entity t id r e :
  tables_wf t → t_entities t !! id = Some r → decode_entity t (id, r) = inr e → save_entity_tx t e = inr t.
Proof.
  intros [We Ws Wd] Hr Hd. destruct (We _ _ Hr) as ((k & Hk) & (l & Hl) & Hc & Hu).
  unfold decode_entity in Hd. rewrite Hk, entity_type_roundtrip, Hl, lifecycle_roundtrip in Hd. injection Hd as <-.
  unfold save_entity_tx, upsert_entity. cbn [entity_eid]. rewrite Hr. cbn [sum_bind].
  set (e := {| entity_eid := id |}). f_equal.
  assert (set_entity_rows _ t = t) as ->.
  { unfold set_entity_rows. rewrite insert_id; [apply set_rows_same|]. rewrite Hr. f_equal.
    unfold e. cbn. rewrite Hu. destruct r; cbn in *. by rewrite Hl. }
  assert (replace_labels e t = t) as ->.
  { assert (t_labels (replace_labels e t) = t_labels t) as Heq.
    { apply map_eq. intros [i k']. rewrite lookup_replace_labels. unfold e. cbn [entity_eid entity_labels].
      case_decide as Hi; [|done]. subst. apply lookup_labels. }
    unfold replace_labels, set_label_rows in *. cbn [t_labels] in Heq. rewrite Heq. apply set_rows_same. }
  assert (add_capabilities e t = t) as ->.
  { unfold add_capabilities, set_capability_rows. etrans; [|apply set_rows_same]. f_equal.
    apply map_eq. intros [i c]. rewrite lookup_add_capabilities. destruct (t_capabilities t !! (i, c)) eqn:Hcap; [done|].
    apply decide_False. intros [-> Hin%elem_of_btree_elements]. unfold e in *. cbn [entity_eid entity_capabilities] in *.
    apply elem_of_capabilities in Hin as [s Hs]. congruence. }
  unfold add_sources, set_source_rows. etrans; [|apply set_rows_same]. f_equal.
  apply map_eq. intros k'. apply option_eq. intros [].
  set (m := foldl _ _ _). assert (∀ k, is_Some (m !! k) ↔ is_Some (t_sources t !! k)) as Hm.
  { intros k2. unfold m. rewrite lookup_add_sources. split; [|by left]. intros [?|(d & Hd & ->)]; [done|].
    unfold e in *. cbn [entity_eid discovery_sources] in *. by apply elem_of_sources in Hd. }
  specialize (Hm k'). split; intros Hk'.
  - destruct (proj1 Hm) as [[] ?]; [by eexists|done].
  - destruct (proj2 Hm) as [[] ?]; [by eexists|done].
Qed.

Lemma save_loaded_edge t i r :
  tables_wf t → t_dependencies t !! i = Some r → save_dependency_tx t (decode_edge (i, r)) = inr t.
Proof.
  intros [We Ws Wd] Hr. destruct (Wd _ _ Hr) as ((c & Hc) & (d & Hd) & Hf & Hl).
  unfold save_dependency_tx. cbn [decode_edge edge_id]. rewrite Hr. f_equal. unfold set_dependency_rows.
  rewrite insert_id; [apply set_rows_same|]. rewrite Hr. f_equal. cbn [dr_criticality dr_metadata dr_discovery_source
    dr_last_seen_at row_of_edge criticality edge_metadata edge_discovery_source last_seen_at].
  destruct r; cbn in *. rewrite Hc, criticality_roundtrip, Hd, discovery_source_roundtrip, Hl. done.
Qed.

(** *** What is loaded *)

(** The entities of an inventory filed under their identifiers. *)
Lemma entities_keys inv :
  (∀ k x, inv_entities inv !! k = Some x → entity_eid x = k) → map entity_eid (entities inv) = btree_keys (inv_entities inv).
Proof.
  intros Hids. unfold entities, btree_values, btree_keys. rewrite <- list_fmap_compose. apply list_fmap_ext.
  intros i [k x] Hi. apply list_elem_of_lookup_2, elem_of_btree_entries in Hi. by apply Hids.
Qed.

Lemma load_inventory_entities env t inv :
  load_inventory env t = inr inv →
  inv_pending inv = [] ∧ ∀ k e, inv_entities inv !! k = Some e →
    entity_eid e = k ∧ ∃ r, t_entities t !! k = Some r ∧ er_environment r = env ∧ decode_entity t (k, r) = inr e.
Proof.
  unfold load_inventory. destruct (load_entities env t) as [err|es] eqn:Hes; cbn [sum_bind]; [done|]. intros [= <-].
  assert (∀ (xs : list DependencyEdge) inv, let inv' := foldl (λ inv (x : DependencyEdge), insert_dependency x inv) inv xs in
    inv_entities inv' = inv_entities inv ∧ inv_pending inv' = inv_pending inv) as Hdeps.
  { induction xs as [|x xs IH]; intros inv; [done|]. cbn [foldl]. destruct (IH (insert_dependency x inv)) as [-> ->]. done. }
  assert (∀ es inv, let inv' := foldl (λ inv e, insert_entity e inv) inv es in
    inv_pending inv' = inv_pending inv
    ∧ ∀ k e, inv_entities inv' !! k = Some e → inv_entities inv !! k = Some e ∨ e ∈ es ∧ entity_eid e = k) as Hents.
  { clear. induction es as [|e es IH]; intros inv; [split; [done|by left]|]. cbn [foldl].
    destruct (IH (insert_entity e inv)) as [-> Hk]. split; [done|]. intros k e' [He|[He ?]]%Hk; [|right; split; [by right|done]].
    cbn in He. apply lookup_insert_Some in He as [[<- <-]|[_ He]]; [right; split; [by left|done]|by left]. }
  destruct (Hdeps (load_dependencies env t) (foldl (λ inv e, insert_entity e inv) inventory_new es)) as [He Hp].
  destruct (Hents es inventory_new) as [Hp0 Hk]. rewrite He, Hp, Hp0. split; [done|]. intros k e [Hin|[Hin <-]]%Hk.
  - cbn [inventory_new inv_entities] in Hin. by rewrite lookup_empty in Hin.
  - split; [done|]. by apply (elem_of_load_entities env t es e Hes).
Qed.

(** Every row of the environment is there. *)
Lemma load_inventory_complete env t inv id r :
  load_inventory env t = inr inv → t_entities t !! id = Some r → er_environment r = env →
  ∃ l, inv_entities inv !! id = Some l ∧ decode_entity t (id, r) = inr l.
Proof.
  intros Hl Hr Henv. assert (is_Some (inv_entities inv !! id)) as [l Hid].
  { unfold load_inventory in Hl. destruct (load_entities env t) as [err|es] eqn:Hes; cbn [sum_bind] in Hl; [done|]. injection Hl as <-.
    assert (∀ (xs : list DependencyEdge) inv, inv_entities (foldl (λ inv (x : DependencyEdge), insert_dependency x inv) inv xs) = inv_entities inv) as ->.
    { induction xs as [|x xs IH]; intros inv; [done|]. cbn [foldl]. by rewrite IH. }
    assert (∃ e, e ∈ es ∧ entity_eid e = id) as (e & He & Hid).
    { unfold load_entities in Hes. apply try_map_Forall2 in Hes.
      assert ((id, r) ∈ entity_rows env t) as [i Hi]%list_elem_of_lookup by by apply elem_of_entity_rows.
      destruct (Forall2_lookup_l _ _ _ _ _ Hes Hi) as (e & He & Hd). exists e. split; [by apply list_elem_of_lookup_2 in He|].
      unfold decode_entity in Hd. destruct (entity_type_parse _); [|done]. by injection Hd as <-. }
    assert (∀ es inv, is_Some (inv_entities inv !! id) ∨ (∃ e, e ∈ es ∧ entity_eid e = id) →
      is_Some (inv_entities (foldl (λ inv e, insert_entity e inv) inv es) !! id)) as Hgen; [|apply Hgen; right; by exists e].
    clear. induction es as [|x es IH]; intros inv Hor; cbn [foldl].
    - destruct Hor as [?|(e & He & _)]; [done|by apply elem_of_nil in He].
    - apply IH. cbn. rewrite lookup_insert_is_Some'. destruct Hor as [?|(e & [->|He]%elem_of_cons & Hid)]; [tauto|tauto|].
      right. by exists e. }
  exists l. split; [done|]. destruct (proj2 (load_inventory_entities _ _ _ Hl) id l Hid) as (_ & r' & Hr' & _ & Hd).
  rewrite Hr in Hr'. by injection Hr' as <-.
Qed.

Lemma graph_inserts_new (xs : list DependencyEdge) g :
  NoDup (map edge_id xs) → (∀ x y, x ∈ xs → y ∈ graph_edges g → edge_id y ≠ edge_id x) →
  graph_edges (foldl graph_insert g xs) = (graph_edges g ++ xs)%list.
Proof.
  revert g. induction xs as [|x xs IH]; intros g; cbn [foldl map]; [by rewrite app_nil_r|].
  intros [Hnotin Hnd]%NoDup_cons Hnew. assert (graph_edges (graph_insert g x) = (graph_edges g ++ [x])%list) as Hg.
  { unfold graph_insert. destruct (list_find _ _) as [[i y]|] eqn:Hf; [|done]. apply list_find_Some in Hf as (Hi & Hid & _).
    apply list_elem_of_lookup_2 in Hi. by destruct (Hnew x y ltac:(by left) Hi). }
  rewrite IH; [rewrite Hg, <-app_assoc; done|done|]. rewrite Hg. intros x' y Hx' [Hy| ->%list_elem_of_singleton]%elem_of_app.
  - apply Hnew; [by right|done].
  - intros Heq. apply Hnotin. rewrite Heq. by apply list_elem_of_fmap_2.
Qed.

Lemma NoDup_fmap_filter {A B} (f : A → B) (P : A → Prop) `{∀ x, Decision (P x)} l : NoDup (map f l) → NoDup (map f (filter P l)).
Proof.
  induction l as [|x l IH]; [done|]. cbn [map]. intros [Hnotin Hnd]%NoDup_cons. rewrite filter_cons. case_decide; [|by apply IH].
  apply NoDup_cons. split; [|by apply IH]. intros (y & Hy & [_ Hin]%list_elem_of_filter)%list_elem_of_fmap. apply Hnotin. rewrite Hy. by apply list_elem_of_fmap_2.
Qed.

Lemma load_inventory_edges env t inv :
  load_inventory env t = inr inv → graph_edges (inv_graph inv) = load_dependencies env t.
Proof.
  unfold load_inventory. destruct (load_entities env t) as [err|es]; cbn [sum_bind]; [done|]. intros [= <-].
  assert (∀ (xs : list DependencyEdge) inv,
    inv_graph (foldl (λ inv (x : DependencyEdge), insert_dependency x inv) inv xs) = foldl graph_insert (inv_graph inv) xs) as ->.
  { induction xs as [|x xs IH]; intros inv; [done|]. cbn [foldl]. by rewrite IH. }
  assert (∀ es inv, inv_graph (foldl (λ inv e, insert_entity e inv) inv es) = inv_graph inv) as ->.
  { clear. induction es as [|e es IH]; intros inv; [done|]. cbn [foldl]. by rewrite IH. }
  apply graph_inserts_new; [|by intros x y _ ?%elem_of_nil]. unfold load_dependencies.
  assert (∀ l : list (Uuid * DependencyRow), map edge_id (map decode_edge l) = map fst l) as ->
    by (intros l; rewrite map_map; apply map_ext; by intros []).
  assert (NoDup (map fst (hash_iter (t_dependencies t)))) as Hnd.
  { change (map fst ?l) with (l.*1). rewrite (hash_iter_perm (t_dependencies t)). apply NoDup_fst_map_to_list. }
  by apply NoDup_fmap_filter.
Qed.

(** Saving what was loaded changes no row. *)
Lemma save_loaded env t inv : tables_wf t → load_inventory env t = inr inv → save_inventory inv t = inr t.
Proof.
  intros Hwf Hl. unfold save_inventory. rewrite try_fold_same.
  - cbn [sum_bind]. apply try_fold_same. intros x Hx. rewrite (load_inventory_edges _ _ _ Hl) in Hx. unfold load_dependencies in Hx.
    apply list_elem_of_fmap in Hx as ([i r] & -> & [_ Hr%elem_of_hash_iter]%list_elem_of_filter).
    by apply save_loaded_edge.
  - intros e [k He]%elem_of_btree_values. destruct (proj2 (load_inventory_entities _ _ _ Hl) k e He) as (<- & r & Hr & _ & Hd).
    by apply (save_loaded_entity t (entity_eid e) r).
Qed.

(** ** Saving a whole inventory *)

(** The rows of an entity once it was saved over [t]. *)
Record saved_as t e t' : Prop := {
  sa_row : ∃ r, t_entities t' !! entity_eid e = Some r ∧ natural_key r = natural_key (row_of_entity e)
    ∧ er_cluster r = entity_cluster e ∧ er_display_name r = display_name e ∧ er_metadata r = entity_metadata e
    ∧ er_lifecycle_state r = lifecycle_as_str (lifecycle_state e) ∧ er_updated_at r = to_micros (entity_updated_at e)
    ∧ er_created_at r = match t_entities t !! entity_eid e with Some old => er_created_at old | None => to_micros (entity_created_at e) end;
  sa_labels : ∀ k, t_labels t' !! (entity_eid e, k) = entity_labels e !! k;
  sa_capabilities : ∀ c, is_Some (t_capabilities t' !! (entity_eid e, c))
    ↔ c ∈ entity_capabilities e ∨ is_Some (t_capabilities t !! (entity_eid e, c));
  sa_sources : ∀ s, is_Some (t_sources t' !! (entity_eid e, s))
    ↔ (∃ d, d ∈ discovery_sources e ∧ s = discovery_source_as_str d) ∨ is_Some (t_sources t !! (entity_eid e, s))
}.

(** The rows of an entity that was not saved. *)
Definition rows_kept id t t' : Prop :=
  t_entities t' !! id = t_entities t !! id ∧ (∀ k, t_labels t' !! (id, k) = t_labels t !! (id, k))
  ∧ (∀ c, t_capabilities t' !! (id, c) = t_capabilities t !! (id, c))
  ∧ ∀ s, is_Some (t_sources t' !! (id, s)) ↔ is_Some (t_sources t !! (id, s)).

Lemma rows_kept_trans id t1 t2 t3 : rows_kept id t1 t2 → rows_kept id t2 t3 → rows_kept id t1 t3.
Proof.
  intros (E1 & L1 & C1 & S1) (E2 & L2 & C2 & S2). split_and!; [by rewrite E2|intros k; by rewrite L2|intros c; by rewrite C2|].
  intros s. by rewrite S2.
Qed.

(** Stored under the key it has. *)
Definition entity_keyed t e : Prop :=
  ∀ r, t_entities t !! entity_eid e = Some r → natural_key r = natural_key (row_of_entity e).

Lemma save_entity_saved_as t e t' :
  entity_keyed t e → save_entity_tx t e = inr t' → saved_as t e t' ∧ ∀ i, i ≠ entity_eid e → rows_kept i t t'.
Proof.
  intros Hkey Hs. destruct (save_entity_tables _ _ _ Hs) as ((r & He & Hr) & Hlab & Hcap & Hsrc & _). split; [split|].
  - exists r. rewrite He, lookup_insert_eq. split; [done|]. destruct Hr as (Hcl & Hd & Hm & Hl & Hu & Hold).
    destruct (t_entities t !! entity_eid e) as [old|] eqn:Ho; destruct Hold as [Hk Hc]; split_and!; try done.
    rewrite Hk. by apply Hkey.
  - intros k. by rewrite Hlab, decide_True.
  - intros c. rewrite Hcap. destruct (t_capabilities t !! (entity_eid e, c)) as [s|]; [split; [by right|by eexists]|].
    split; [case_decide; [left; tauto|by intros []]|]. intros [Hc|[]]; [|done]. rewrite decide_True by done. by eexists.
  - intros s. rewrite Hsrc. split; [intros [?|(d & ? & [= ->])]; [by right|left; by exists d]|].
    intros [(d & ? & ->)|?]; [right; by exists d|by left].
  - intros i Hi. split_and!.
    + by rewrite He, lookup_insert_ne.
    + intros k. by rewrite Hlab, decide_False.
    + intros c. rewrite Hcap. destruct (t_capabilities t !! (i, c)); [done|]. by rewrite decide_False by naive_solver.
    + intros s. rewrite Hsrc. naive_solver.
Qed.

Lemma saved_as_kept t e t1 t2 : saved_as t e t1 → rows_kept (entity_eid e) t1 t2 → saved_as t e t2.
Proof.
  intros [R L C S] (E & L' & C' & S'). split; [by rewrite E|intros k; by rewrite L'|intros c; by rewrite C'|intros s; by rewrite S'].
Qed.

Lemma kept_saved_as t e t1 t2 : rows_kept (entity_eid e) t t1 → saved_as t1 e t2 → saved_as t e t2.
Proof.
  intros (E & _ & C' & S') [R L C S]. split; [by rewrite <-E|done|intros c; by rewrite C, C'|intros s; by rewrite S, S'].
Qed.

Lemma save_entities_saved_as es t t' :
  NoDup (map entity_eid es) → (∀ e, e ∈ es → entity_keyed t e) → try_fold save_entity_tx t es = inr t' →
  (∀ e, e ∈ es → saved_as t e t') ∧ ∀ i, i ∉ map entity_eid es → rows_kept i t t'.
Proof.
  revert t. induction es as [|x es IH]; intros t; cbn [try_fold map].
  { intros _ _ [= <-]. split; [by intros ? ?%elem_of_nil|]. by intros i _. }
  intros [Hnotin Hnd]%NoDup_cons Hkey. destruct (save_entity_tx t x) as [err|t1] eqn:Hx; cbn [sum_bind]; [done|].
  destruct (save_entity_saved_as _ _ _ (Hkey x ltac:(by left)) Hx) as [Hsx Hkx]. intros Hrest.
  assert (∀ e, e ∈ es → entity_eid e ≠ entity_eid x) as Hne.
  { intros e He Heq. apply Hnotin. rewrite <-Heq. by apply list_elem_of_fmap_2. }
  destruct (IH t1 Hnd) as [Hs Hk]; [|done|].
  { intros e He r Hr. rewrite (proj1 (Hkx _ (Hne e He))) in Hr. apply (Hkey e); [by right|done]. }
  split.
  - intros e [->|He]%elem_of_cons; [by eapply saved_as_kept; [|apply Hk]|].
    eapply kept_saved_as; [apply Hkx; by apply Hne|by apply Hs].
  - intros i [Hi1 Hi2]%not_elem_of_cons. eapply rows_kept_trans; [by apply Hkx|by apply Hk].
Qed.

(** The row of an edge once it was saved over [t]. *)
Definition saved_edge t (x : DependencyEdge) t' : Prop :=
  ∃ r, t_dependencies t' !! edge_id x = Some r ∧ edge_key r = edge_key (row_of_edge x)
    ∧ dr_criticality r = criticality_as_str (criticality x) ∧ dr_metadata r = edge_metadata x
    ∧ dr_discovery_source r = discovery_source_as_str (edge_discovery_source x) ∧ dr_last_seen_at r = to_micros (last_seen_at x)
    ∧ dr_first_seen_at r = match t_dependencies t !! edge_id x with Some old => dr_first_seen_at old | None => to_micros (first_seen_at x) end.

Definition edge_keyed t (x : DependencyEdge) : Prop :=
  ∀ r, t_dependencies t !! edge_id x = Some r → edge_key r = edge_key (row_of_edge x).

Lemma save_dependency_saved_edge t (x : DependencyEdge) t' :
  edge_keyed t x → save_dependency_tx t x = inr t' →
  saved_edge t x t' ∧ (∃ m, t' = set_dependency_rows m t) ∧ ∀ i, i ≠ edge_id x → t_dependencies t' !! i = t_dependencies t !! i.
Proof.
  intros Hkey. unfold save_dependency_tx, saved_edge, edge_keyed in *. destruct (t_dependencies t !! edge_id x) as [old|].
  - intros [= <-]. specialize (Hkey old eq_refl). cbn [t_dependencies set_dependency_rows]. rewrite lookup_insert_eq. split_and!.
    + eexists. split; [done|]. by split_and!.
    + by eexists.
    + intros i Hi. by rewrite lookup_insert_ne.
  - destruct (_ || _); [done|]. intros [= <-]. cbn [t_dependencies set_dependency_rows]. rewrite lookup_insert_eq. split_and!.
    + eexists. split; [done|]. by split_and!.
    + by eexists.
    + intros i Hi. by rewrite lookup_insert_ne.
Qed.

Lemma save_dependencies_saved_edges (xs : list DependencyEdge) t t' :
  NoDup (map edge_id xs) → (∀ x, x ∈ xs → edge_keyed t x) → try_fold save_dependency_tx t xs = inr t' →
  (∀ x, x ∈ xs → saved_edge t x t') ∧ (∃ m, t' = set_dependency_rows m t)
  ∧ ∀ i, i ∉ map edge_id xs → t_dependencies t' !! i = t_dependencies t !! i.
Proof.
  revert t. induction xs as [|x xs IH]; intros t; cbn [try_fold map].
  { intros _ _ [= <-]. split_and!; [by intros ? ?%elem_of_nil|by exists (t_dependencies t); destruct t|done]. }
  intros [Hnotin Hnd]%NoDup_cons Hkey. destruct (save_dependency_tx t x) as [err|t1] eqn:Hx; cbn [sum_bind]; [done|].
  destruct (save_dependency_saved_edge _ _ _ (Hkey x ltac:(by left)) Hx) as (Hsx & [m Hm] & Hkx). intros Hrest.
  assert (∀ y, y ∈ xs → edge_id y ≠ edge_id x) as Hne.
  { intros y He Heq. apply Hnotin. rewrite <-Heq. by apply list_elem_of_fmap_2. }
  destruct (IH t1 Hnd) as (Hs & [m' Hm'] & Hk); [|done|].
  { intros y He r Hr. rewrite (Hkx _ (Hne y He)) in Hr. apply (Hkey y); [by right|done]. }
  split_and!; [| |].
  - intros y [->|He]%elem_of_cons.
    + unfold saved_edge. by rewrite (Hk (edge_id x) Hnotin).
    + specialize (Hs y He). unfold saved_edge in *. by rewrite <-(Hkx _ (Hne y He)).
  - exists m'. subst t1. by rewrite Hm'.
  - intros i [Hi1 Hi2]%not_elem_of_cons. rewrite Hk by done. by apply Hkx.
Qed.

(** An inventory whose identifiers name what the tables hold under them. *)
Record identified inv t : Prop := {
  id_filed : ∀ k e, inv_entities inv !! k = Some e → entity_eid e = k;
  id_entities : ∀ e, e ∈ entities inv → entity_keyed t e;
  id_edges : NoDup (map edge_id (graph_edges (inv_graph inv)));
  id_dependencies : ∀ x, x ∈ graph_edges (inv_graph inv) → edge_keyed t x
}.

Lemma save_inventory_saved_as inv t t' :
  identified inv t → save_inventory inv t = inr t' →
  (∀ e, e ∈ entities inv → saved_as t e t') ∧ (∀ i, i ∉ map entity_eid (entities inv) → rows_kept i t t')
  ∧ (∀ x, x ∈ graph_edges (inv_graph inv) → saved_edge t x t')
  ∧ ∀ i, i ∉ map edge_id (graph_edges (inv_graph inv)) → t_dependencies t' !! i = t_dependencies t !! i.
Proof.
  intros [Hf He Hnd Hx]. unfold save_inventory. destruct (try_fold save_entity_tx t (entities inv)) as [err|t1] eqn:H1; cbn [sum_bind]; [done|].
  intros H2. assert (t_dependencies t1 = t_dependencies t) as Hd.
  { apply (try_fold_invariant (λ t1, t_dependencies t1 = t_dependencies t) save_entity_tx) in H1; [done| |done].
    intros a e b Ha _ Hb. apply save_entity_tables in Hb as (_ & _ & _ & _ & Hb & _). by rewrite Hb. }
  destruct (save_entities_saved_as _ _ _ ltac:(rewrite (entities_keys _ Hf); apply NoDup_btree_keys) He H1) as [Hs Hk].
  assert (∀ x, x ∈ graph_edges (inv_graph inv) → edge_keyed t1 x) as Hx1 by (intros x Hin r Hr; rewrite Hd in Hr; by apply (Hx x)).
  destruct (save_dependencies_saved_edges _ _ _ Hnd Hx1 H2) as (Hse & [m ->] & Hke).
  split_and!.
  - intros e Hin. eapply saved_as_kept; [by apply Hs|]. by split_and!.
  - intros i Hi. eapply rows_kept_trans; [by apply Hk|]. by split_and!.
  - intros x Hin. specialize (Hse x Hin). unfold saved_edge in *. by rewrite <-Hd.
  - intros i Hi. by rewrite Hke, Hd.
Qed.

(** *** What was saved, read back *)

(** An entity as it loads once it was saved over [t]: as it is, times to the
    microsecond, with the capabilities and sources stored before, and first
    seen when it was first stored. *)
Record loads_as t e (l : ManagedEntity) : Prop := {
  la_id : entity_eid l = entity_eid e;
  la_key : managed_entity_key l = managed_entity_key e;
  la_cluster : entity_cluster l = entity_cluster e;
  la_display_name : display_name l = display_name e;
  la_labels : entity_labels l = entity_labels e;
  la_metadata : entity_metadata l = entity_metadata e;
  la_lifecycle : lifecycle_state l = lifecycle_state e;
  la_capabilities : entity_capabilities l = entity_capabilities e ∪ capabilities_of (entity_eid e) t;
  la_sources : ∀ d, d ∈ discovery_sources l ↔ d ∈ discovery_sources e ∨ d ∈ sources_of (entity_eid e) t;
  la_updated_at : entity_updated_at l = to_micros (entity_updated_at e);
  la_created_at : entity_created_at l
    = match t_entities t !! entity_eid e with Some old => er_created_at old | None => to_micros (entity_created_at e) end
}.

Lemma saved_loads_as t e t' r l :
  tables_wf t → tables_wf t' → saved_as t e t' →
  t_entities t' !! entity_eid e = Some r → decode_entity t' (entity_eid e, r) = inr l → loads_as t e l.
Proof.
  intros Hwf Hwf' [(r' & Hr' & Hnk & Hcl & Hdn & Hm & Hlc & Hu & Hc) Hlab Hcap Hsrc] Hr Hl.
  rewrite Hr in Hr'. injection Hr' as <-. unfold natural_key in Hnk. injection Hnk as Hn1 Hn2 Hn3. cbn in Hn1, Hn2, Hn3.
  unfold decode_entity in Hl. rewrite Hn2, entity_type_roundtrip, Hlc, lifecycle_roundtrip in Hl. injection Hl as <-.
  split; cbn [entity_eid entity_cluster display_name entity_labels entity_metadata lifecycle_state entity_capabilities
      discovery_sources entity_created_at entity_updated_at]; try done.
  - unfold managed_entity_key. cbn. by rewrite Hn1, Hn3.
  - apply map_eq. intros k. by rewrite lookup_labels, Hlab.
  - apply set_eq. intros c. by rewrite elem_of_union, !elem_of_capabilities, Hcap.
  - intros d. rewrite (elem_of_sources _ t' d) by apply (tw_sources _ Hwf'). rewrite (elem_of_sources _ t d) by apply (tw_sources _ Hwf).
    rewrite Hsrc. split; (intros [H|?]; [left|by right]).
    + destruct H as (d' & Hd' & Heq). apply (f_equal discovery_source_parse) in Heq. rewrite !discovery_source_roundtrip in Heq. by subst.
    + by exists d.
Qed.

(** The same entity, its sources perhaps in another order. *)
Definition same_entity (e l : ManagedEntity) : Prop :=
  entity_eid l = entity_eid e ∧ managed_entity_key l = managed_entity_key e ∧ entity_cluster l = entity_cluster e
  ∧ display_name l = display_name e ∧ entity_labels l = entity_labels e ∧ entity_metadata l = entity_metadata e
  ∧ entity_capabilities l = entity_capabilities e ∧ lifecycle_state l = lifecycle_state e
  ∧ entity_created_at l = entity_created_at e ∧ entity_updated_at l = entity_updated_at e ∧ ∀ d, d ∈ discovery_sources l ↔ d ∈ discovery_sources e.

Lemma kept_loads_same id t t' r l :
  tables_wf t → tables_wf t' → rows_kept id t t' → decode_entity t' (id, r) = inr l →
  ∃ e, decode_entity t (id, r) = inr e ∧ same_entity e l.
Proof.
  intros Hwf Hwf' (_ & L & C & S). unfold decode_entity. destruct (entity_type_parse _); [|done]. intros [= <-]. eexists. split; [done|].
  assert (labels_of id t' = labels_of id t) as -> by (apply map_eq; intros k; by rewrite !lookup_labels).
  assert (capabilities_of id t' = capabilities_of id t) as -> by (apply set_eq; intros c; by rewrite !elem_of_capabilities, C).
  split_and!; try done. intros d. cbn [discovery_sources]. rewrite (elem_of_sources _ t' d) by apply (tw_sources _ Hwf').
  rewrite (elem_of_sources _ t d) by apply (tw_sources _ Hwf). apply S.
Qed.

(** An edge as it loads once it was saved over [t]. *)
Definition edge_loads_as t (x y : DependencyEdge) : Prop :=
  edge_id y = edge_id x ∧ edge_source y = edge_source x ∧ edge_target y = edge_target x
  ∧ dependency_type y = dependency_type_parse (dependency_type_as_str (dependency_type x))
  ∧ criticality y = criticality x ∧ edge_metadata y = edge_metadata x ∧ edge_discovery_source y = edge_discovery_source x
  ∧ last_seen_at y = to_micros (last_seen_at x)
  ∧ first_seen_at y = match t_dependencies t !! edge_id x with Some old => dr_first_seen_at old | None => to_micros (first_seen_at x) end.

Lemma saved_edge_loads t (x : DependencyEdge) t' r :
  saved_edge t x t' → t_dependencies t' !! edge_id x = Some r → edge_loads_as t x (decode_edge (edge_id x, r)).
Proof.
  intros (r' & Hr' & Hk & Hc & Hm & Hd & Hl & Hf) Hr. rewrite Hr in Hr'. injection Hr' as <-.
  unfold edge_key in Hk. injection Hk as H1 H2 H3. cbn in H1, H2, H3.
  unfold edge_loads_as. cbn [decode_edge edge_id edge_source edge_target dependency_type criticality edge_metadata
    edge_discovery_source first_seen_at last_seen_at]. rewrite H3, Hc, Hd, criticality_roundtrip, discovery_source_roundtrip. by split_and!.
Qed.

(** ** Reconciling *)

Lemma lookup_claims id source m cs i c :
  (foldl (λ m c, <[ (id, c) := source ]> m) m cs : gmap (EntityId * Capability) string) !! (i, c)
  = if decide (i = id ∧ c ∈ cs) then Some source else m !! (i, c).
Proof.
  revert m. induction cs as [|c' cs IH]; intros m; cbn [foldl].
  - rewrite decide_False; [done|]. intros [_ H]. by apply elem_of_nil in H.
  - rewrite IH. destruct (decide ((i, c) = (id, c'))) as [[= -> ->]|Hne].
    + rewrite lookup_insert_eq, (decide_True (P := id = id ∧ c' ∈ c' :: cs)) by (split; [done|by left]). by case_decide.
    + rewrite lookup_insert_ne by congruence. apply decide_ext. rewrite elem_of_cons.
      split; [tauto|]. intros [-> [->|?]]; [done|done].
Qed.

(** The tables a successful reconciliation leaves. *)
Lemma reconcile_tables id source cs t t' n :
  reconcile_capabilities id source cs t = inr (t', n) →
  (∀ i c, t_capabilities t' !! (i, c)
    = if decide (i = id ∧ c ∈ cs) then Some (discovery_source_as_str source)
      else if decide (i = id ∧ t_capabilities t !! (i, c) = Some (discovery_source_as_str source)) then None
      else t_capabilities t !! (i, c))
  ∧ t_entities t' = t_entities t.
Proof.
  unfold reconcile_capabilities. destruct (_ && _); [done|]. intros [= <- _]. split; [|done].
  intros i c. cbn [t_capabilities set_capability_rows]. rewrite lookup_claims.
  rewrite (decide_ext (i = id ∧ c ∈ btree_elements cs) (i = id ∧ c ∈ cs)) by (by rewrite elem_of_btree_elements).
  case_decide as Hc; [done|]. case_decide as Hs.
  - destruct Hs as [-> Hs]. apply map_lookup_filter_None. right. cbn. intros s Hs' Hne. apply Hne. split_and!; [done|congruence|tauto].
  - destruct (t_capabilities t !! (i, c)) as [s|] eqn:Hl; [|apply map_lookup_filter_None; by left].
    apply map_lookup_filter_Some. split; [done|]. cbn. intros (-> & -> & _). by apply Hs.
Qed.

(** Saving moves no row to another environment. *)
Lemma saved_environment inv t t' id r :
  identified inv t → save_inventory inv t = inr t' → t_entities t !! id = Some r →
  ∃ r', t_entities t' !! id = Some r' ∧ er_environment r' = er_environment r.
Proof.
  intros Hid Hs Hr. destruct (save_inventory_saved_as _ _ _ Hid Hs) as (Hsaved & Hkept & _).
  destruct (decide (id ∈ map entity_eid (entities inv))) as [Hin|Hout].
  - apply list_elem_of_fmap in Hin as (e & -> & He). destruct (sa_row _ _ _ (Hsaved e He)) as (r' & Hr' & Hnk & _).
    pose proof (id_entities _ _ Hid e He r Hr) as Hk. rewrite <- Hnk in Hk. exists r'. split; [done|]. by injection Hk as -> _ _.
  - exists r. by rewrite (proj1 (Hkept id Hout)).
Qed.
End store_spec.

(** ** Properties *)

(** C28.  What is stored is what was saved.  When an inventory is saved into
    well-formed tables that hold under its identifiers what these name, loading
    the environment gives back every entity of it as it was saved and every edge
    that starts at one, with what was stored before and not mentioned left as it
    was, and nothing else; and saving what was loaded changes no row, so a
    cycle that finds nothing new writes nothing new. *)
Theorem save_load_settles `{J : JsonApi} `{HI : HashIter} inv env t t' :
  tables_wf t → identified inv t → save_inventory inv t = inr t' →
  ∃ inv', load_inventory env t' = inr inv'
    ∧ (∀ e, e ∈ entities inv → entity_environment e = env →
         ∃ l, inv_entities inv' !! entity_eid e = Some l ∧ loads_as t e l)
    ∧ (∀ id r, t_entities t !! id = Some r → er_environment r = env → id ∉ map entity_eid (entities inv) →
         ∃ e l, decode_entity t (id, r) = inr e ∧ inv_entities inv' !! id = Some l ∧ same_entity e l)
    ∧ (∀ id l, inv_entities inv' !! id = Some l → id ∈ map entity_eid (entities inv) ∨ is_Some (t_entities t !! id))
    ∧ (∀ x s, x ∈ graph_edges (inv_graph inv) → inv_entities inv !! edge_source x = Some s → entity_environment s = env →
         ∃ y, y ∈ graph_edges (inv_graph inv') ∧ edge_loads_as t x y)
    ∧ (∀ id r rs, t_dependencies t !! id = Some r → t_entities t !! dr_source r = Some rs → er_environment rs = env →
         id ∉ map edge_id (graph_edges (inv_graph inv)) → decode_edge (id, r) ∈ graph_edges (inv_graph inv'))
    ∧ (∀ y, y ∈ graph_edges (inv_graph inv') →
         (∃ x, x ∈ graph_edges (inv_graph inv) ∧ edge_loads_as t x y)
         ∨ ∃ r, t_dependencies t !! edge_id y = Some r ∧ y = decode_edge (edge_id y, r))
    ∧ save_inventory inv' t' = inr t'.
Proof.
  intros Hwf Hid Hs. pose proof (save_inventory_wf _ _ _ Hwf Hs) as Hwf'. pose proof (id_filed _ _ Hid) as Hfiled.
  destruct (save_inventory_saved_as _ _ _ Hid Hs) as (Hsaved & Hkept & Hedges & Hkeptx).
  assert (∃ inv', load_inventory env t' = inr inv') as [inv' Hl].
  { unfold load_inventory. destruct (load_entities_total env t' Hwf') as [es ->]. cbn. by eexists. }
  exists inv'. pose proof (load_inventory_edges _ _ _ Hl) as Hg. split_and!; [done|..].
  - intros e He Henv. pose proof (Hsaved e He) as Hsa. destruct (sa_row _ _ _ Hsa) as (r & Hr & Hnk & _).
    assert (er_environment r = env) as Hre by (injection Hnk as Hn _ _; cbn in Hn; by rewrite Hn).
    destruct (load_inventory_complete _ _ _ _ _ Hl Hr Hre) as (l & Hll & Hd). exists l. split; [done|]. by eapply saved_loads_as.
  - intros id r Hr Henv Hout. pose proof (Hkept id Hout) as Hk. rewrite <-(proj1 Hk) in Hr.
    destruct (load_inventory_complete _ _ _ _ _ Hl Hr Henv) as (l & Hll & Hd).
    destruct (kept_loads_same _ _ _ _ _ Hwf Hwf' Hk Hd) as (e & He & Hsame). by exists e, l.
  - intros id l Hll. destruct (decide (id ∈ map entity_eid (entities inv))) as [?|Hout]; [by left|right].
    destruct (proj2 (load_inventory_entities _ _ _ Hl) _ _ Hll) as (_ & r & Hr & _). rewrite (proj1 (Hkept id Hout)) in Hr. by eexists.
  - intros x s Hx Hsrc Henv. pose proof (Hedges x Hx) as Hse. destruct Hse as (r & Hr & Hk & Hrest).
    exists (decode_edge (edge_id x, r)). split; [|eapply saved_edge_loads; [by apply Hedges|done]].
    rewrite Hg. unfold load_dependencies. apply list_elem_of_fmap_2, list_elem_of_filter. rewrite elem_of_hash_iter. split; [|done]. cbn.
    injection Hk as Hk _ _. cbn in Hk. rewrite Hk.
    assert (s ∈ entities inv) as Hins by (apply elem_of_btree_values; by eexists).
    destruct (sa_row _ _ _ (Hsaved s Hins)) as (rs & Hrs & Hnk & _). rewrite <-(Hfiled _ _ Hsrc), Hrs. cbn.
    injection Hnk as Hn _ _. cbn in Hn. by rewrite Hn, Henv.
  - intros id r rs Hr Hrs Henv Hout. rewrite Hg. unfold load_dependencies.
    apply (list_elem_of_fmap_2 decode_edge), list_elem_of_filter. rewrite elem_of_hash_iter. split; [|by rewrite (Hkeptx id Hout)].
    cbn. destruct (saved_environment inv t t' _ _ Hid Hs Hrs) as (rs' & -> & Hre). cbn. by rewrite Hre, Henv.
  - intros y Hy. rewrite Hg in Hy. apply list_elem_of_fmap in Hy as ([i r] & -> & [_ Hr%elem_of_hash_iter]%list_elem_of_filter).
    destruct (decide (i ∈ map edge_id (graph_edges (inv_graph inv)))) as [Hin|Hout].
    + left. apply list_elem_of_fmap in Hin as (x & -> & Hx). exists x. split; [done|]. eapply saved_edge_loads; [by apply Hedges|done].
    + right. exists r. rewrite (Hkeptx i Hout) in Hr. by split.
  - by eapply save_loaded.
Qed.

(** A saved entity loads back with what it was saved with: its names, its
    cluster, its labels and no others, its metadata and its lifecycle are the
    saved ones, and its capabilities and sources are the saved ones with
    those stored before; nothing of another entity changed, its order of
    sources apart. *)
Theorem save_entity_loads_back `{J : JsonApi} `{HI : HashIter} t e t' :
  tables_wf t →
  (∀ r, t_entities t !! entity_eid e = Some r → natural_key r = natural_key (row_of_entity e)) →
  save_entity t e = inr t' →
  (∃ es l, load_entities (entity_environment e) t' = inr es ∧ l ∈ es
     ∧ entity_eid l = entity_eid e ∧ managed_entity_key l = managed_entity_key e
     ∧ entity_cluster l = entity_cluster e ∧ display_name l = display_name e
     ∧ entity_labels l = entity_labels e ∧ entity_metadata l = entity_metadata e
     ∧ lifecycle_state l = lifecycle_state e
     ∧ entity_capabilities l = entity_capabilities e ∪ capabilities_of (entity_eid e) t
     ∧ (∀ d, d ∈ discovery_sources l ↔ d ∈ discovery_sources e ∨ d ∈ sources_of (entity_eid e) t))
  ∧ ∀ i, i ≠ entity_eid e → t_entities t' !! i = t_entities t !! i ∧ labels_of i t' = labels_of i t
      ∧ capabilities_of i t' = capabilities_of i t ∧ ∀ d, d ∈ sources_of i t' ↔ d ∈ sources_of i t.
Proof.
  intros Hwf Hkey Hs. unfold save_entity in Hs. pose proof (save_entity_wf _ _ _ Hwf Hs) as Hwf'.
  destruct (save_entity_saved_as _ _ _ Hkey Hs) as [Hsa Hkept]. split.
  - destruct (load_entities_total (entity_environment e) t' Hwf') as [es Hes].
    destruct (sa_row _ _ _ Hsa) as (r & Hr & Hnk & _).
    destruct (decode_entity_total t' (entity_eid e) r (tw_entities _ Hwf' _ _ Hr)) as (l & Hl & Hid & _).
    exists es, l. split; [done|]. split.
    { apply (elem_of_load_entities _ _ _ _ Hes). exists r. rewrite Hid. split_and!; [done| |done]. by injection Hnk. }
    destruct (saved_loads_as _ _ _ _ _ Hwf Hwf' Hsa Hr Hl). by split_and!.
  - intros i Hi. destruct (Hkept i Hi) as (E & L & C & S). split_and!; [done|apply map_eq; intros k; by rewrite !lookup_labels| |].
    + apply set_eq. intros c. by rewrite !elem_of_capabilities, C.
    + intros d. rewrite (elem_of_sources _ t' d) by apply (tw_sources _ Hwf').
      rewrite (elem_of_sources _ t d) by apply (tw_sources _ Hwf). apply S.
Qed.

(** A source's claims are exactly its latest: after it reconciles an
    entity, the entity has the claimed capabilities, attributed to that source,
    and of the others those attributed to other sources, and no other entity
    is touched. *)
Theorem reconcile_capabilities_exact `{J : JsonApi} id source cs t t' n :
  reconcile_capabilities id source cs t = inr (t', n) →
  (∀ c, c ∈ capabilities_of id t' ↔
     c ∈ cs ∨ c ∈ capabilities_of id t ∧ t_capabilities t !! (id, c) ≠ Some (discovery_source_as_str source))
  ∧ (∀ c, c ∈ cs → t_capabilities t' !! (id, c) = Some (discovery_source_as_str source))
  ∧ ∀ i, i ≠ id → capabilities_of i t' = capabilities_of i t.
Proof.
  intros [Hcap _]%reconcile_tables. split_and!.
  - intros c. rewrite !elem_of_capabilities, Hcap. case_decide as Hc; [split; [left; tauto|by eexists]|].
    case_decide as Hs.
    + split; [by intros [? ?]|]. intros [?|[_ Hne]]; [tauto|]. exfalso. apply Hne, Hs.
    + split; [|intros [?|[? _]]; [tauto|done]]. intros Hsome. right. split; [done|]. intros Heq. by apply Hs; split.
  - intros c Hc. rewrite Hcap. by rewrite decide_True.
  - intros i Hi. apply set_eq. intros c. rewrite !elem_of_capabilities, Hcap.
    rewrite !decide_False by naive_solver. done.
Qed.

(** A capability two sources claim is attributed to the one that reconciled
    last; when that one stops claiming it, it is gone though the other, which
    has said nothing since, still claims it. *)
Lemma shared_claim_is_lost `{J : JsonApi} id a b c t t1 t2 t3 n1 n2 n3 :
  reconcile_capabilities id a {[ c ]} t = inr (t1, n1) →
  reconcile_capabilities id b {[ c ]} t1 = inr (t2, n2) →
  reconcile_capabilities id b ∅ t2 = inr (t3, n3) →
  c ∈ capabilities_of id t1 ∧ c ∉ capabilities_of id t3.
Proof.
  intros [H1 _]%reconcile_tables [H2 _]%reconcile_tables [H3 _]%reconcile_tables.
  specialize (H1 id c). specialize (H2 id c). specialize (H3 id c).
  rewrite decide_True in H1, H2 by (split; [done|by apply elem_of_singleton]).
  rewrite (decide_False (P := id = id ∧ c ∈ ∅)) in H3 by (intros [_ H]; by apply elem_of_empty in H).
  rewrite decide_True in H3 by done. rewrite !elem_of_capabilities, H1, H3.
  split; [by eexists|by intros []].
Qed.

(** *** One host *)

Section example.
Definition sample_host : ManagedEntity :=
  with_discovery_source
    (with_capabilities (with_label (managed_entity_new 5 "prod" Entity_Host "n1") "rack" "r1") {["host.metrics"]})
    AgentRegistration.

Definition empty_tables : InventoryTables := mk_tables {["prod"]} ∅ ∅ ∅ ∅ ∅.

Definition host_tables : InventoryTables :=
  match save_entity empty_tables sample_host with inr t => t | inl _ => empty_tables end.

Lemma empty_tables_wf : tables_wf empty_tables.
Proof. split; apply map_Forall_empty. Qed.

Lemma sample_host_saved : save_entity empty_tables sample_host = inr host_tables.
Proof. reflexivity. Qed.
End example.

(** Two hosts and an edge between them, saved over a table that has the first. *)
Definition other_host : ManagedEntity := managed_entity_new 6 "prod" Entity_Host "n2".

Definition two_hosts : Inventory :=
  insert_dependency (dependency_edge_new 7 (entity_eid sample_host) (entity_eid other_host) DependsOn)
    (insert_entity other_host (insert_entity sample_host inventory_new)).

Definition two_hosts_tables : InventoryTables :=
  match save_inventory two_hosts host_tables with inr t => t | inl _ => empty_tables end.

Lemma two_hosts_saved : save_inventory two_hosts host_tables = inr two_hosts_tables.
Proof.
  assert (match save_inventory two_hosts host_tables with inr _ => true | inl _ => false end = true) as Hok by (vm_compute; reflexivity).
  unfold two_hosts_tables. destruct (save_inventory two_hosts host_tables); [discriminate Hok|reflexivity].
Qed.

Lemma host_tables_wf : tables_wf host_tables.
Proof. eapply save_entity_wf; [exact empty_tables_wf|exact sample_host_saved]. Qed.

Lemma two_hosts_entities :
  inv_entities two_hosts = <[ entity_eid other_host := other_host ]> (<[ entity_eid sample_host := sample_host ]> ∅).
Proof. reflexivity. Qed.

Lemma two_hosts_first : inv_entities two_hosts !! entity_eid sample_host = Some sample_host.
Proof.
  assert (entity_eid other_host ≠ entity_eid sample_host) as Hne by by_computation.
  rewrite two_hosts_entities, lookup_insert_ne by exact Hne. apply lookup_insert_eq.
Qed.

Lemma two_hosts_identified : identified two_hosts host_tables.
Proof.
  split.
  - intros k e He. cbn in He. apply lookup_insert_Some in He as [[<- <-]|[_ He]]; [done|].
    apply lookup_insert_Some in He as [[<- <-]|[_ He]]; [done|]. by rewrite lookup_empty in He.
  - intros e [k He]%elem_of_btree_values r Hr. destruct (save_entity_saved_as empty_tables sample_host host_tables) as [Hsa Hkept];
      [by intros ? ?|exact sample_host_saved|]. destruct (sa_row _ _ _ Hsa) as (r' & Hr' & Hnk & _).
    cbn in He. apply lookup_insert_Some in He as [[<- <-]|[_ He]].
    + assert (entity_eid other_host ≠ entity_eid sample_host) as Hne by by_computation.
      rewrite (proj1 (Hkept _ Hne)) in Hr. change (t_entities empty_tables) with (∅ : gmap EntityId EntityRow) in Hr. by rewrite lookup_empty in Hr.
    + apply lookup_insert_Some in He as [[<- <-]|[_ He]]; [|by rewrite lookup_empty in He].
      rewrite Hr in Hr'. by injection Hr' as ->.
  - apply NoDup_singleton.
  - intros x Hx r Hr. destruct (save_entity_tables _ _ _ sample_host_saved) as (_ & _ & _ & _ & Hd & _).
    rewrite Hd in Hr. change (t_dependencies empty_tables) with (∅ : gmap Uuid DependencyRow) in Hr. by rewrite lookup_empty in Hr.
Qed.

Lemma save_load_settles_witness :
  save_inventory two_hosts host_tables = inr two_hosts_tables ∧
  ∃ inv' l, load_inventory "prod" two_hosts_tables = inr inv' ∧ inv_entities inv' !! entity_eid sample_host = Some l
    ∧ entity_labels l = entity_labels sample_host ∧ length (graph_edges (inv_graph inv')) ≠ 0%nat
    ∧ save_inventory inv' two_hosts_tables = inr two_hosts_tables.
Proof.
  split; [exact two_hosts_saved|].
  destruct (save_load_settles two_hosts "prod" host_tables two_hosts_tables host_tables_wf two_hosts_identified two_hosts_saved)
    as (inv' & Hl & Hents & _ & _ & Hedges & _ & _ & Hs).
  assert (sample_host ∈ entities two_hosts) as Hin by (apply elem_of_btree_values; exists (entity_eid sample_host); exact two_hosts_first).
  destruct (Hents sample_host Hin eq_refl) as (l & Hll & Hload).
  exists inv', l. split; [exact Hl|]. split; [exact Hll|]. split; [apply (la_labels _ _ _ Hload)|]. split; [|exact Hs].
  destruct (Hedges (dependency_edge_new 7 (entity_eid sample_host) (entity_eid other_host) DependsOn) sample_host) as (y & Hy & _);
    [by apply list_elem_of_singleton|exact two_hosts_first|reflexivity|]. intros Hz. apply length_zero_iff_nil in Hz. rewrite Hz in Hy.
  by apply elem_of_nil in Hy.
Defined.

Lemma save_entity_loads_back_witness :
  tables_wf empty_tables ∧ save_entity empty_tables sample_host = inr host_tables ∧
  ∃ es l, load_entities "prod" host_tables = inr es ∧ l ∈ es ∧ entity_labels l = entity_labels sample_host.
Proof.
  split; [apply empty_tables_wf|]. split; [apply sample_host_saved|].
  destruct (save_entity_loads_back empty_tables sample_host host_tables) as [(es & l & H1 & H2 & _ & _ & _ & _ & H3 & _) _];
    [apply empty_tables_wf|done|apply sample_host_saved|].
  exists es, l. split; [exact H1|]. split; [exact H2|exact H3].
Defined.

Definition reconciled_tables : InventoryTables :=
  match reconcile_capabilities (entity_eid sample_host) AgentRegistration {["gpu.nvidia"]} host_tables with
  | inr (t, _) => t | inl _ => empty_tables
  end.

Lemma reconcile_capabilities_exact_witness :
  reconcile_capabilities (entity_eid sample_host) AgentRegistration {["gpu.nvidia"]} host_tables
    = inr (reconciled_tables, 1%nat) ∧
  ∀ c, c ∈ ({["gpu.nvidia"]} : CapabilitySet) →
    t_capabilities reconciled_tables !! (entity_eid sample_host, c) = Some "agent_registration".
Proof.
  assert (reconcile_capabilities (entity_eid sample_host) AgentRegistration {["gpu.nvidia"]} host_tables
    = inr (reconciled_tables, 1%nat)) as Hr by reflexivity.
  split; [exact Hr|]. exact (proj1 (proj2 (reconcile_capabilities_exact _ _ _ _ _ _ Hr))).
Defined.
