(* ===== verification/DiagnosisContext.v ===== *)
(** * What a rule may consult

    [src/diagnosis/context.rs] and [src/diagnosis/investigation.rs]: the newest
    observation per entity, probe and observer, the lookups a rule is allowed,
    and the read-only instructions its conclusions carry. *)

From S2P Require Export Diagnosis Inventory.

Local Open Scope string_scope.

Section observation_index.
Context `{J : JsonApi}.

(** [ObservationIndex]. *)
Record ObservationIndex := {
  index_latest : gmap (EntityId * ProbeId * option EntityId) Observation
}.

Definition observation_index_new : ObservationIndex := {| index_latest := ∅ |}.

(** [ObservationIndex::insert]: the newest per key stays, the later arrival on a tie. *)
Definition index_insert (ix : ObservationIndex) (o : Observation) : ObservationIndex :=
  match index_latest ix !! observation_key o with
  | Some existing =>
      if (finished_at o <? finished_at existing)%Z then ix
      else {| index_latest := <[ observation_key o := o ]> (index_latest ix) |}
  | None => {| index_latest := <[ observation_key o := o ]> (index_latest ix) |}
  end.

(** [ObservationIndex::from_observations]. *)
Definition index_from_observations (os : list Observation) : ObservationIndex :=
  foldl index_insert observation_index_new os.

Context `{HI : HashIter}.

(** The values whose key names the entity and the probe. *)
Definition index_of_probe (ix : ObservationIndex) (e : EntityId) (probe : string) : list Observation :=
  map snd (filter (λ kv : (EntityId * ProbeId * option EntityId) * Observation,
                     kv.1.1.1 = e ∧ kv.1.1.2 = probe)
             (hash_iter (index_latest ix))).

(** [ObservationIndex::latest]. *)
Definition index_latest_of (ix : ObservationIndex) (e : EntityId) (probe : string) : option Observation :=
  max_by_key (λ o, (finished_at o, observer_entity o, observation_id o)) (index_of_probe ix e probe).

(** [ObservationIndex::all]. *)
Definition index_all_of (ix : ObservationIndex) (e : EntityId) (probe : string) : list Observation :=
  sort_by_key observer_entity (index_of_probe ix e probe).

(** [ObservationIndex::for_entity]. *)
Definition for_entity (ix : ObservationIndex) (e : EntityId) : list Observation :=
  map snd (filter (λ kv : (EntityId * ProbeId * option EntityId) * Observation, kv.1.1.1 = e)
             (hash_iter (index_latest ix))).

(** [DiagnosisContext]. *)
Record DiagnosisContext := {
  ctx_environment : string;
  ctx_inventory : Inventory;
  ctx_states : gmap EntityId EntityState;
  ctx_observations : ObservationIndex
}.

(** [DiagnosisContext::entity], [state], [component]. *)
Definition ctx_entity (ctx : DiagnosisContext) (id : EntityId) : option ManagedEntity :=
  get (ctx_inventory ctx) id.

Definition ctx_state (ctx : DiagnosisContext) (id : EntityId) : option EntityState := ctx_states ctx !! id.

Definition ctx_component (ctx : DiagnosisContext) (id : EntityId) (c : StateComponent) : Health :=
  match ctx_states ctx !! id with
  | Some s => component_health s c
  | None => Unknown
  end.

(** [DiagnosisContext::is_healthy], [all_healthy]. *)
Definition ctx_is_healthy (ctx : DiagnosisContext) (id : EntityId) (c : StateComponent) : bool :=
  bool_decide (ctx_component ctx id c = Healthy).

Definition ctx_all_healthy (ctx : DiagnosisContext) (id : EntityId) (cs : list StateComponent) : bool :=
  forallb (ctx_is_healthy ctx id) cs.

(** [DiagnosisContext::entities_of_type]: the active ones, in identifier order. *)
Definition entities_of_type (ctx : DiagnosisContext) (t : EntityType) : list ManagedEntity :=
  filter (λ e, lifecycle_state e = Lifecycle_Active)
    (filter (λ e, entity_kind e = t) (entities (ctx_inventory ctx))).

(** [DiagnosisContext::observation]. *)
Definition ctx_observation (ctx : DiagnosisContext) (e : EntityId) (probe : string) : option Observation :=
  match index_latest_of (ctx_observations ctx) e probe with
  | Some o => if probe_is_conclusive (status o) then Some o else None
  | None => None
  end.

(** [payload_bool], [payload_str], [payload_u64]. *)
Definition payload_bool (ctx : DiagnosisContext) (e : EntityId) (probe field : string) : option bool :=
  o ← ctx_observation ctx e probe; j ← json_get (payload o) field; json_as_bool j.

Definition payload_str (ctx : DiagnosisContext) (e : EntityId) (probe field : string) : option string :=
  o ← ctx_observation ctx e probe; j ← json_get (payload o) field; json_as_str j.

Definition payload_u64 (ctx : DiagnosisContext) (e : EntityId) (probe field : string) : option N :=
  o ← ctx_observation ctx e probe; j ← json_get (payload o) field; json_as_u64 j.

(** [evidence_for], the same function in every rule file. *)
Definition evidence_for (ctx : DiagnosisContext) (e : EntityId) : list ObservationId :=
  map observation_id (for_entity (ctx_observations ctx) e).

(** ** Facts *)

Lemma elem_of_entities_of_type ctx t e :
  e ∈ entities_of_type ctx t ↔
    (∃ k, inv_entities (ctx_inventory ctx) !! k = Some e) ∧ entity_kind e = t ∧
    lifecycle_state e = Lifecycle_Active.
Proof.
  unfold entities_of_type. rewrite !list_elem_of_filter. unfold entities.
  rewrite elem_of_btree_values. tauto.
Qed.

Lemma elem_of_for_entity ix e o :
  o ∈ for_entity ix e ↔ ∃ k, index_latest ix !! k = Some o ∧ k.1.1 = e.
Proof.
  unfold for_entity. rewrite list_elem_of_fmap. split.
  - intros ([k o'] & -> & [Hk Hin]%list_elem_of_filter). exists k.
    by apply elem_of_hash_iter in Hin.
  - intros (k & Hk & He). exists (k, o). split; [done|]. apply list_elem_of_filter.
    by rewrite elem_of_hash_iter.
Qed.

Lemma elem_of_index_of_probe ix e probe o :
  o ∈ index_of_probe ix e probe ↔ ∃ observer, index_latest ix !! (e, probe, observer) = Some o.
Proof.
  unfold index_of_probe. rewrite list_elem_of_fmap. split.
  - intros ([[[e' p'] ob] o'] & -> & [[He Hp] Hin]%list_elem_of_filter). cbn in *. subst.
    exists ob. by apply elem_of_hash_iter in Hin.
  - intros [ob Hk]. exists ((e, probe, ob), o). split; [done|]. apply list_elem_of_filter.
    by rewrite elem_of_hash_iter.
Qed.

Lemma ctx_is_healthy_spec ctx id c :
  ctx_is_healthy ctx id c = true ↔ ctx_component ctx id c = Healthy.
Proof. apply bool_decide_eq_true. Qed.
End observation_index.

(** ** Keeping the newest *)

Section index_spec.
Context `{J : JsonApi}.

(** Every observation is filed under its own target, probe and observer. *)
Definition index_wf (ix : ObservationIndex) : Prop :=
  ∀ k o, index_latest ix !! k = Some o → observation_key o = k.

Lemma index_insert_lookup ix o k :
  index_latest (index_insert ix o) !! k =
    match index_latest ix !! k with
    | Some o' => if decide (observation_key o = k)
                 then if (finished_at o <? finished_at o')%Z then Some o' else Some o else Some o'
    | None => if decide (observation_key o = k) then Some o else None
    end.
Proof.
  unfold index_insert. destruct (decide (observation_key o = k)) as [<-|Hne].
  - destruct (index_latest ix !! observation_key o) as [o'|] eqn:Ho; cbn [index_latest].
    + destruct (finished_at o <? finished_at o')%Z; [done|]. cbn [index_latest].
      by rewrite lookup_insert_eq.
    + by rewrite lookup_insert_eq.
  - destruct (index_latest ix !! observation_key o) as [o'|] eqn:Ho; cbn [index_latest];
      [destruct (finished_at o <? finished_at o')%Z; cbn [index_latest]|];
      rewrite ?lookup_insert_ne by done; by destruct (index_latest ix !! k).
Qed.

(** What the index holds under a key, given what was offered. *)
Definition newest_of (os : list Observation) (k : EntityId * ProbeId * option EntityId)
    (found : option Observation) : Prop :=
  match found with
  | Some o => o ∈ os ∧ observation_key o = k ∧
              ∀ o', o' ∈ os → observation_key o' = k → (finished_at o' ≤ finished_at o)%Z
  | None => ∀ o', o' ∈ os → observation_key o' ≠ k
  end.

Lemma index_insert_newest os k o ix :
  newest_of os k (index_latest ix !! k) →
  newest_of (os ++ [o]) k (index_latest (index_insert ix o) !! k).
Proof.
  rewrite index_insert_lookup. unfold newest_of. destruct (index_latest ix !! k) as [o1|].
  - intros (Hin & Hk & Hnew). destruct (decide (observation_key o = k)) as [Hok|Hok];
      [destruct (finished_at o <? finished_at o1)%Z eqn:Hlt|]; (split_and!; [set_solver|done|]);
      intros o' [Ho'| ->%list_elem_of_singleton]%elem_of_app Hk'; try specialize (Hnew o' Ho' Hk');
      try done; lia.
  - intros Hno. destruct (decide (observation_key o = k)) as [Hok|Hok].
    + split_and!; [set_solver|done|].
      intros o' [Ho'| ->%list_elem_of_singleton]%elem_of_app Hk'; [by apply Hno in Ho'|lia].
    + intros o' [Ho'| ->%list_elem_of_singleton]%elem_of_app; [by apply Hno|done].
Qed.

Lemma index_newest os k : newest_of os k (index_latest (index_from_observations os) !! k).
Proof.
  unfold index_from_observations. induction os as [|o os IH] using rev_ind.
  - cbn [foldl index_latest observation_index_new]. rewrite lookup_empty.
    intros o' Ho'. by apply elem_of_nil in Ho'.
  - rewrite foldl_app. by apply index_insert_newest.
Qed.

(** The index keeps, for every target, probe and observer, one observation
    that was offered under that key and none older than any other offered under
    it: viewpoints never overwrite each other. *)
Theorem index_keeps_newest (os : list Observation) (k : EntityId * ProbeId * option EntityId) :
  match index_latest (index_from_observations os) !! k with
  | Some o => o ∈ os ∧ observation_key o = k ∧
              ∀ o', o' ∈ os → observation_key o' = k → (finished_at o' ≤ finished_at o)%Z
  | None => ∀ o', o' ∈ os → observation_key o' ≠ k
  end.
Proof. apply index_newest. Qed.

Lemma index_from_observations_wf os : index_wf (index_from_observations os).
Proof. intros k o Hk. pose proof (index_newest os k) as H. rewrite Hk in H. by destruct H as (_ & ? & _). Qed.
End index_spec.

(** ** Instructions *)

(** [value.replace('\'', "'\"'\"'")]: a quote becomes the five bytes that close
    the string, quote a quote and open it again. *)
Definition escaped_quote : string :=
  String "'" (String "034" (String "'" (String "034" (String "'" EmptyString)))).

Fixpoint escape_quotes (s : string) : string :=
  match s with
  | EmptyString => ""
  | String a s' => if decide (a = "'"%char) then escaped_quote +:+ escape_quotes s'
                   else String a (escape_quotes s')
  end.

(** [quote]. *)
Definition quote (value : string) : string := "'" +:+ escape_quotes value +:+ "'".

(** [sentinel]. *)
Definition sentinel_command (arguments : string) : string :=
  "sudo -u sentinel sentinel " +:+ arguments.

Definition newline : string := String "010" EmptyString.

(** [step]. *)
Definition step (location check_ command : string) : string :=
  location +:+ "で、" +:+ check_ +:+ "。" +:+ newline +:+ command.

Section guide.
Context `{J : JsonApi}.

Definition quoted_name (e : ManagedEntity) : string :=
  quote (entity_type_as_str (entity_kind e) +:+ "/" +:+ canonical_name e).

(** [entity]. *)
Definition guide_entity (e : ManagedEntity) : string :=
  step "Sentinel controller" "接続先と各項目の状態、観測時刻を確認してください"
    (sentinel_command ("entity show " +:+ quoted_name e +:+ " --json")).

(** [observations]. *)
Definition guide_observations (e : ManagedEntity) (probe check_ : string) : string :=
  step "Sentinel controller" check_
    (sentinel_command ("entity observations " +:+ quoted_name e +:+ " --probe " +:+ quote probe
                       +:+ " --limit 20 --json")).
End guide.

(** ** Shell quoting *)

(** A POSIX shell word made of single-quoted and double-quoted parts: what the
    shell passes on, or [None] if a quote is left open or a byte stands outside
    quotes. *)
Inductive quoting := Outside | InSingle | InDouble.

Fixpoint unquote (q : quoting) (s : string) : option string :=
  match s with
  | EmptyString => match q with Outside => Some "" | _ => None end
  | String a s' =>
      match q with
      | Outside =>
          if decide (a = "'"%char) then unquote InSingle s'
          else if decide (a = "034"%char) then unquote InDouble s' else None
      | InSingle =>
          if decide (a = "'"%char) then unquote Outside s' else String a <$> unquote InSingle s'
      | InDouble =>
          if decide (a = "034"%char) then unquote Outside s' else String a <$> unquote InDouble s'
      end
  end.

Lemma unquote_close rest : unquote InSingle (String "'" rest) = unquote Outside rest.
Proof. reflexivity. Qed.

Lemma unquote_escaped_quote rest :
  unquote InSingle (escaped_quote +:+ rest) = String "'"%char <$> unquote InSingle rest.
Proof. reflexivity. Qed.

Lemma unquote_plain a rest :
  a ≠ "'"%char → unquote InSingle (String a rest) = String a <$> unquote InSingle rest.
Proof. intros Ha. cbn [unquote]. by destruct (decide (a = "'"%char)). Qed.

Lemma unquote_escaped value rest :
  unquote InSingle (escape_quotes value +:+ String "'" rest) = (λ r, value +:+ r) <$> unquote Outside rest.
Proof.
  induction value as [|a value IH].
  - cbn [escape_quotes]. change ("" +:+ String "'" rest) with (String "'" rest).
    rewrite unquote_close. by destruct (unquote Outside rest).
  - cbn [escape_quotes]. destruct (decide (a = "'"%char)) as [->|Hne].
    + rewrite <-string_app_assoc, unquote_escaped_quote, IH. by destruct (unquote Outside rest).
    + change (String a (escape_quotes value) +:+ String "'" rest)
        with (String a (escape_quotes value +:+ String "'" rest)).
      rewrite unquote_plain, IH by done. by destruct (unquote Outside rest).
Qed.

(** A quoted name is one shell word that reads back as the name, whatever
    quotes it holds: no entity name can escape into the command an operator is
    told to run. *)
Theorem quote_roundtrip (value : string) : unquote Outside (quote value) = Some value.
Proof.
  unfold quote. change (unquote InSingle (escape_quotes value +:+ String "'" "") = Some value).
  rewrite unquote_escaped. cbn. by rewrite string_app_nil_r.
Qed.
