(* ===== verification/Rules.v ===== *)
(** * The diagnosis rules and their engine

    [src/diagnosis/rules/] and [src/diagnosis/engine.rs]:
    reachability, services, storage and Slurm, run in turn.  Every rule that
    blames a service demands positive evidence that its host is fine. *)

From S2P Require Export DiagnosisContext.

Local Open Scope string_scope.

(** * Reachability rules

    [src/diagnosis/rules/reachability.rs]: what several viewpoints together can
    justify about a host. *)

(** [crate::probes::network::PROBE_ID]. *)
Definition NETWORK_PROBE : string := "network.tcp".

(** The rule identifiers. *)
Definition RULE_HOST_UNREACHABLE : RuleId := "reachability.host_unreachable".
Definition RULE_PATH_FAILURE : RuleId := "reachability.path_failure".

(** [Verdicts]. *)
Record Verdicts := {
  v_reached : gset EntityId;
  v_connected : gset EntityId;
  v_failed : gset EntityId
}.

(** [Verdicts::default()]. *)
Definition verdicts_default : Verdicts := {| v_reached := ∅; v_connected := ∅; v_failed := ∅ |}.

(** [Verdicts::total]. *)
Definition verdicts_total (v : Verdicts) : nat := size (v_reached v) + size (v_failed v).

(** [Verdicts::unanimously_unreachable]. *)
Definition unanimously_unreachable (v : Verdicts) : bool :=
  (2 <=? size (v_failed v))%nat && bool_decide (v_reached v = ∅).

(** [Verdicts::disagree]. *)
Definition disagree (v : Verdicts) : bool :=
  negb (bool_decide (v_failed v = ∅)) && negb (bool_decide (v_reached v = ∅)).

(** [Verdicts::disagree_about_a_working_path]. *)
Definition disagree_about_a_working_path (v : Verdicts) : bool :=
  disagree v && negb (bool_decide (v_connected v = ∅)).

Section reachability.
Context `{J : JsonApi} `{HI : HashIter} `{PS : Pass}.

(** [reached]. *)
Definition reached (o : Observation) : bool :=
  match json_get (payload o) "host_responded" ≫= json_as_bool with
  | Some responded => responded
  | None => negb (probe_is_bad (status o))
  end.

(** [connected]. *)
Definition connected (o : Observation) : bool :=
  match json_get (payload o) "outcome" ≫= json_as_str with
  | Some outcome => String.eqb outcome "connected"
  | None => negb (probe_is_bad (status o))
  end.

(** The body of the inner loop of [verdicts_by_target]. *)
Definition add_verdict (host : EntityId) (v : Verdicts) (o : Observation) : Verdicts :=
  if negb (String.eqb (probe_id o) NETWORK_PROBE) || negb (probe_is_conclusive (status o)) then v
  else
    match observer_entity o with
    | None => v
    | Some observer =>
        if decide (observer = host) then v
        else if reached o then
          {| v_reached := {[ observer ]} ∪ v_reached v;
             v_connected := if connected o then {[ observer ]} ∪ v_connected v else v_connected v;
             v_failed := v_failed v |}
        else
          {| v_reached := v_reached v; v_connected := v_connected v;
             v_failed := {[ observer ]} ∪ v_failed v |}
    end.

Definition verdicts_of (ctx : DiagnosisContext) (host : EntityId) : Verdicts :=
  foldl (add_verdict host) verdicts_default (for_entity (ctx_observations ctx) host).

(** [verdicts_by_target]. *)
Definition verdicts_by_target (ctx : DiagnosisContext) : gmap EntityId Verdicts :=
  foldl (λ m host,
      let v := verdicts_of ctx (entity_eid host) in
      if (0 <? verdicts_total v)%nat then <[ entity_eid host := v ]> m else m)
    ∅ (entities_of_type ctx Entity_Host).

(** The diagnosis [HostUnreachable] pushes. *)
Definition host_unreachable_diagnosis (ctx : DiagnosisContext) (target : EntityId) (v : Verdicts)
    (e : ManagedEntity) : Diagnosis :=
  conclude HOST_UNREACHABLE RULE_HOST_UNREACHABLE Confidence_High target
    [target] [target] (evidence_for ctx target)
    (canonical_name e +:+ "について、観測した" +:+ show_nat (size (v_failed v))
       +:+ "か所すべてからネットワーク応答を得られていません。電源の状態は、この結果だけでは分かりません。")
    [guide_entity e;
     guide_observations e NETWORK_PROBE "監視元ごとの接続先・ポート・結果・観測時刻を確認してください";
     canonical_name e +:+ "のコンソールやBMCで、電源状態、OSの応答、NICのリンク状態を確認してください。BMCにも接続できない場合は、管理ネットワークや共通のスイッチの状態を確認してください。"].

(** [HostUnreachable::evaluate]. *)
Definition evaluate_host_unreachable (ctx : DiagnosisContext) : list Diagnosis :=
  btree_entries (verdicts_by_target ctx) ≫= λ '(target, v),
    if unanimously_unreachable v then
      match ctx_entity ctx target with
      | Some e => [host_unreachable_diagnosis ctx target v e]
      | None => []
      end
    else [].

(** The names of the entities a set holds, where they are known. *)
Definition names_of (ctx : DiagnosisContext) (ids : list EntityId) : list string :=
  map canonical_name (omap (ctx_entity ctx) ids).

(** The diagnosis [PathSpecificNetworkFailure] pushes. *)
Definition path_failure_diagnosis (ctx : DiagnosisContext) (target : EntityId) (v : Verdicts)
    (e : ManagedEntity) : Diagnosis :=
  let blind := names_of ctx (btree_elements (v_failed v)) in
  let seeing := names_of ctx (btree_elements (v_connected v)) in
  conclude PATH_SPECIFIC_NETWORK_FAILURE RULE_PATH_FAILURE Confidence_High target
    [target] (btree_elements (v_failed v) ++ [target]) (evidence_for ctx target)
    (canonical_name e +:+ "には" +:+ str_join "、" seeing +:+ "から接続できますが、" +:+ str_join "、" blind
       +:+ "からは接続できません。監視元によって結果が異なるため、接続できない側のネットワーク経路を確認してください。")
    [guide_entity e;
     guide_observations e NETWORK_PROBE "接続できる監視元とできない監視元の接続先・ポート・結果・観測時刻を比較してください";
     step "Sentinel controller" "peerの最終応答時刻と監視状態を確認してください" (sentinel_command "peers");
     step ("接続に失敗している監視元（" +:+ str_join "、" blind +:+ "）")
       "IPアドレス、インターフェースの状態、対象ホストへの経路を確認してください"
       ("ip -br address" +:+ newline +:+ "ip route");
     "接続できない監視元から" +:+ canonical_name e +:+ "までのファイアウォール・VLAN・スイッチ設定を、接続できる監視元と比較してください。接続先アドレスとポートは、上の観測結果を使ってください。"].

(** [PathSpecificNetworkFailure::evaluate]. *)
Definition evaluate_path_failure (ctx : DiagnosisContext) : list Diagnosis :=
  btree_entries (verdicts_by_target ctx) ≫= λ '(target, v),
    if disagree_about_a_working_path v then
      match ctx_entity ctx target with
      | Some e => [path_failure_diagnosis ctx target v e]
      | None => []
      end
    else [].

(** ** What the verdicts say *)

(** [o] is [observer]'s conclusive network report on [host]. *)
Definition remote_report (ctx : DiagnosisContext) (host observer : EntityId) (o : Observation) : Prop :=
  (∃ k, index_latest (ctx_observations ctx) !! k = Some o ∧ k.1.1 = host) ∧
  probe_id o = NETWORK_PROBE ∧ probe_is_conclusive (status o) = true ∧
  observer_entity o = Some observer ∧ observer ≠ host.

Definition reports_reached (ctx : DiagnosisContext) (host observer : EntityId) : Prop :=
  ∃ o, remote_report ctx host observer o ∧ reached o = true.

Definition reports_failed (ctx : DiagnosisContext) (host observer : EntityId) : Prop :=
  ∃ o, remote_report ctx host observer o ∧ reached o = false.

Definition counts_for (host observer : EntityId) (o : Observation) : Prop :=
  probe_id o = NETWORK_PROBE ∧ probe_is_conclusive (status o) = true ∧
  observer_entity o = Some observer ∧ observer ≠ host.

Lemma add_verdict_spec host v o observer :
  let v' := add_verdict host v o in
  (observer ∈ v_reached v' ↔ observer ∈ v_reached v ∨ counts_for host observer o ∧ reached o = true) ∧
  (observer ∈ v_failed v' ↔ observer ∈ v_failed v ∨ counts_for host observer o ∧ reached o = false) ∧
  (observer ∈ v_connected v' ↔ observer ∈ v_connected v ∨
     counts_for host observer o ∧ reached o = true ∧ connected o = true).
Proof.
  cbn zeta. unfold add_verdict, counts_for.
  destruct (String.eqb_spec (probe_id o) NETWORK_PROBE) as [Hp|Hp]; cbn [negb orb]; [|naive_solver].
  destruct (probe_is_conclusive (status o)) eqn:Hc; cbn [negb]; [|naive_solver].
  destruct (observer_entity o) as [ob|] eqn:Hob; [|naive_solver].
  destruct (decide (ob = host)) as [->|Hne]; [naive_solver|].
  destruct (reached o) eqn:Hr; cbn [v_reached v_failed v_connected];
    [destruct (connected o) eqn:Hco|]; rewrite ?elem_of_union, ?elem_of_singleton; naive_solver.
Qed.

Lemma add_verdicts_spec host v os observer :
  let v' := foldl (add_verdict host) v os in
  (observer ∈ v_reached v' ↔ observer ∈ v_reached v ∨
     ∃ o, o ∈ os ∧ counts_for host observer o ∧ reached o = true) ∧
  (observer ∈ v_failed v' ↔ observer ∈ v_failed v ∨
     ∃ o, o ∈ os ∧ counts_for host observer o ∧ reached o = false) ∧
  (observer ∈ v_connected v' ↔ observer ∈ v_connected v ∨
     ∃ o, o ∈ os ∧ counts_for host observer o ∧ reached o = true ∧ connected o = true).
Proof.
  cbn zeta. revert v. induction os as [|o os IH]; intros v; cbn [foldl]; [set_solver|].
  destruct (IH (add_verdict host v o)) as (-> & -> & ->). clear IH.
  destruct (add_verdict_spec host v o observer) as (-> & -> & ->).
  rewrite !exists_elem_cons. tauto.
Qed.

Lemma verdicts_of_spec ctx host observer :
  (observer ∈ v_reached (verdicts_of ctx host) ↔ reports_reached ctx host observer) ∧
  (observer ∈ v_failed (verdicts_of ctx host) ↔ reports_failed ctx host observer) ∧
  (observer ∈ v_connected (verdicts_of ctx host) ↔
     ∃ o, remote_report ctx host observer o ∧ reached o = true ∧ connected o = true).
Proof.
  unfold verdicts_of.
  destruct (add_verdicts_spec host verdicts_default (for_entity (ctx_observations ctx) host) observer)
    as (-> & -> & ->).
  unfold reports_reached, reports_failed, remote_report, counts_for.
  cbn [verdicts_default v_reached v_failed v_connected].
  setoid_rewrite elem_of_for_entity. setoid_rewrite elem_of_empty. split_and!; naive_solver.
Qed.

Lemma verdicts_lookup ctx target v :
  verdicts_by_target ctx !! target = Some v ↔
    v = verdicts_of ctx target ∧ (0 < verdicts_total v)%nat ∧
    ∃ e, e ∈ entities_of_type ctx Entity_Host ∧ entity_eid e = target.
Proof.
  unfold verdicts_by_target. generalize (entities_of_type ctx Entity_Host) as hosts.
  intros hosts. induction hosts as [|h hosts IH] using rev_ind; cbn [foldl].
  - rewrite lookup_empty. split; [done|]. intros (_ & _ & e & He & _). by apply elem_of_nil in He.
  - rewrite foldl_app. cbn [foldl]. destruct (Nat.ltb_spec 0 (verdicts_total (verdicts_of ctx (entity_eid h)))).
    + rewrite lookup_insert. destruct (decide (entity_eid h = target)) as [<-|Hne].
      * split; [intros [= <-]; split_and!; [done|lia|exists h; set_solver]|]. by intros (-> & _).
      * rewrite IH. split; intros (-> & Ht & e & He & Heq); (split_and!; [done..|exists e]); [set_solver|].
        apply elem_of_app in He as [?|<-%list_elem_of_singleton]; [done|congruence].
    + rewrite IH. split; intros (-> & Ht & e & He & Heq); (split_and!; [done..|]); [exists e; set_solver|].
      apply elem_of_app in He as [?| ->%list_elem_of_singleton]; [by exists e|]. subst target. lia.
Qed.

Lemma unanimously_unreachable_spec v :
  unanimously_unreachable v = true ↔ (2 ≤ size (v_failed v))%nat ∧ v_reached v = ∅.
Proof. unfold unanimously_unreachable. by rewrite andb_true_iff, Nat.leb_le, bool_decide_eq_true. Qed.

Lemma disagree_spec v : disagree v = true ↔ v_failed v ≠ ∅ ∧ v_reached v ≠ ∅.
Proof. unfold disagree. by rewrite andb_true_iff, !negb_true_iff, !bool_decide_eq_false. Qed.

(** The targets a rule over the verdicts reports. *)
Lemma evaluate_verdicts_elem ctx (P : Verdicts → bool) (mk : EntityId → Verdicts → ManagedEntity → Diagnosis) d :
  d ∈ (btree_entries (verdicts_by_target ctx) ≫= λ '(target, v),
         if P v then match ctx_entity ctx target with Some e => [mk target v e] | None => [] end
         else []) ↔
  ∃ target e, verdicts_by_target ctx !! target = Some (verdicts_of ctx target) ∧
    P (verdicts_of ctx target) = true ∧ ctx_entity ctx target = Some e ∧
    d = mk target (verdicts_of ctx target) e.
Proof.
  rewrite list_elem_of_bind. split.
  - intros ([target v] & Hd & Hin). apply elem_of_btree_entries in Hin.
    pose proof (proj1 (proj1 (verdicts_lookup _ _ _) Hin)) as ->.
    destruct (P (verdicts_of ctx target)) eqn:HP; [|by apply elem_of_nil in Hd].
    destruct (ctx_entity ctx target) as [e|] eqn:He; [|by apply elem_of_nil in Hd].
    apply list_elem_of_singleton in Hd. by exists target, e.
  - intros (target & e & Hv & HP & He & ->). exists (target, verdicts_of ctx target).
    rewrite HP, He. split; [by apply list_elem_of_singleton | by apply elem_of_btree_entries].
Qed.
End reachability.

(** * Service rules

    [src/diagnosis/rules/services.rs]: one thing on a host is broken, and the
    host is not. *)

Definition RULE_AGENT_FAILURE : RuleId := "service.sentinel_agent_failure".
Definition RULE_SSH_FAILURE : RuleId := "service.ssh_failure".

Section services.
Context `{J : JsonApi} `{HI : HashIter} `{PS : Pass}.

(** [is_broken]. *)
Definition is_broken (ctx : DiagnosisContext) (e : EntityId) (c : StateComponent) : bool :=
  match ctx_component ctx e c with Unavailable | Degraded => true | _ => false end.

(** The diagnosis [SentinelAgentFailure] pushes. *)
Definition agent_failure_diagnosis (ctx : DiagnosisContext) (host : ManagedEntity) : Diagnosis :=
  let id := entity_eid host in
  let name := canonical_name host in
  conclude SENTINEL_AGENT_FAILURE RULE_AGENT_FAILURE Confidence_High id [id] [id] (evidence_for ctx id)
    (name +:+ "からネットワーク経由で応答を得ていますが、Sentinel agentから正常な応答を得られていません。ホスト内の状態を取得できない可能性があります。")
    [guide_entity host;
     step name "agentが起動しているか、終了コードや起動失敗を確認してください" "sudo systemctl status sentinel-agent --no-pager -l";
     step name "直近のログで設定の読み込み失敗、認証エラー、待受アドレスを確認してください" "sudo journalctl -u sentinel-agent -n 100 --no-pager";
     step name "controllerに登録されたagentの接続先と実際の待受アドレス・ポートを比較してください" "sudo ss -lntp"].

(** [SentinelAgentFailure::evaluate]. *)
Definition evaluate_agent_failure (ctx : DiagnosisContext) : list Diagnosis :=
  entities_of_type ctx Entity_Host ≫= λ host,
    if negb (is_broken ctx (entity_eid host) Component_Agent) then []
    else if negb (ctx_is_healthy ctx (entity_eid host) Component_Network) then []
    else if is_broken ctx (entity_eid host) Component_Ssh then []
    else [agent_failure_diagnosis ctx host].

(** The diagnosis [SshServiceFailure] pushes. *)
Definition ssh_failure_diagnosis (ctx : DiagnosisContext) (host : ManagedEntity) : Diagnosis :=
  let id := entity_eid host in
  let name := canonical_name host in
  let agent_confirms := ctx_is_healthy ctx id Component_Agent in
  let detail := if agent_confirms then "Sentinel agentからは正常な応答を得られています"
                else "ネットワーク経由でホストからの応答は確認できています" in
  conclude SSH_SERVICE_FAILURE RULE_SSH_FAILURE
    (if agent_confirms then Confidence_High else Confidence_Medium) id [id] [id] (evidence_for ctx id)
    (name +:+ "のSSH接続に失敗しています。" +:+ detail +:+ "。SSHサービスと接続経路を確認してください。")
    [guide_entity host;
     name +:+ "にSSHで入れない場合は、コンソールやBMCからログインしてください。以下のホスト上の確認は、その接続先で行ってください。";
     step name "SSHサービスの状態を確認してください。サービス名がsshの環境ではsshdをsshに置き換えてください" "sudo systemctl status sshd --no-pager -l";
     step name "SSHの起動失敗や接続拒否の記録を確認してください" "sudo journalctl -u sshd -u ssh -n 100 --no-pager";
     step name "実際のSSH待受ポートを確認し、controllerの接続先設定と比較してください" "sudo ss -lntp"].

(** [SshServiceFailure::evaluate]. *)
Definition evaluate_ssh_failure (ctx : DiagnosisContext) : list Diagnosis :=
  entities_of_type ctx Entity_Host ≫= λ host,
    if negb (is_broken ctx (entity_eid host) Component_Ssh) then []
    else if negb (ctx_is_healthy ctx (entity_eid host) Component_Network) then []
    else [ssh_failure_diagnosis ctx host].
End services.

(** * Storage rules

    [src/diagnosis/rules/storage.rs]: a fault at the server against a fault at
    one client. *)

Definition PROBE_CLIENT_MOUNT : string := "nfs.client.mount".
Definition PROBE_CLIENT_IO : string := "nfs.client.io".
Definition PROBE_SERVER_PORT : string := "nfs.server.port".
Definition PROBE_SERVER_EXPORTS : string := "nfs.server.exports".

Definition RULE_STORAGE_SERVICE : RuleId := "storage.service_failure".
Definition RULE_STORAGE_SHARED : RuleId := "storage.shared_failure".
Definition RULE_STORAGE_CLIENT : RuleId := "storage.client_local_failure".

Section storage.
Context `{J : JsonApi} `{HI : HashIter} `{PS : Pass}.

(** [host_looks_healthy], the same function in [rules/slurm.rs]. *)
Definition host_looks_healthy (ctx : DiagnosisContext) (host : EntityId) : bool :=
  ctx_is_healthy ctx host Component_Network
  && (ctx_is_healthy ctx host Component_Agent || ctx_is_healthy ctx host Component_Ssh).

Definition ctx_edges (ctx : DiagnosisContext) : list DependencyEdge := graph_edges (inv_graph (ctx_inventory ctx)).

(** [serves_anyone]. *)
Definition serves_anyone (ctx : DiagnosisContext) (host : EntityId) : bool :=
  let provided := map edge_source
    (filter (λ e, dependency_type e = Provides ∧ edge_target e = host) (ctx_edges ctx)) in
  existsb (λ e, bool_decide (dependency_type e = UsesStorage) && bool_decide (edge_target e ∈ provided)
                && negb (bool_decide (edge_source e = host))) (ctx_edges ctx).

(** [storages_used]; an index that does not fit the edges panics. *)
Definition storages_used (ctx : DiagnosisContext) (host : EntityId) : option (list EntityId) :=
  map edge_target <$> dependencies_of_type (inv_graph (ctx_inventory ctx)) host UsesStorage.

Definition is_host (ctx : DiagnosisContext) (id : EntityId) : bool :=
  match ctx_entity ctx id with
  | Some e => bool_decide (entity_kind e = Entity_Host)
  | None => false
  end.

(** [clients_of]. *)
Definition clients_of (ctx : DiagnosisContext) (storage : EntityId) : gset EntityId :=
  list_to_set (filter (λ id, is_host ctx id = true)
    (map edge_source
      (filter (λ e, dependency_type e = UsesStorage ∧ edge_target e = storage) (ctx_edges ctx)))).

(** [storage_is_impaired]. *)
Definition storage_is_impaired (ctx : DiagnosisContext) (e : EntityId) : bool :=
  match ctx_component ctx e Component_Storage with Degraded | Unavailable => true | _ => false end.

(** The conditions [StorageServiceFailure] derives from the server's probes. *)
Definition port_failed (ctx : DiagnosisContext) (host : EntityId) : bool :=
  match ctx_observation ctx host PROBE_SERVER_PORT with
  | Some o => probe_is_bad (status o)
  | None => false
  end.

Definition port_answers (ctx : DiagnosisContext) (host : EntityId) : bool :=
  match ctx_observation ctx host PROBE_SERVER_PORT with
  | Some o => bool_decide (status o = Probe_Ok)
  | None => false
  end.

Definition exports_empty (ctx : DiagnosisContext) (host : EntityId) : bool :=
  match payload_u64 ctx host PROBE_SERVER_EXPORTS "export_count" with
  | Some count => (count =? 0)%N
  | None => false
  end.

(** The diagnosis [StorageServiceFailure] pushes. *)
Definition storage_service_diagnosis (ctx : DiagnosisContext) (host : ManagedEntity) : Diagnosis :=
  let id := entity_eid host in
  let name := canonical_name host in
  let detail :=
    if port_failed ctx id && exports_empty ctx id
    then "NFSの接続確認に失敗し、公開設定の共有ディレクトリも0件です"
    else if port_failed ctx id then "NFSの接続確認に失敗しています"
    else "NFSのポートから応答を得ていますが、公開設定の共有ディレクトリが0件です。クライアントが共有にアクセスできない可能性があります" in
  let nfs_port := default 2049%N (payload_u64 ctx id PROBE_SERVER_PORT "port") in
  conclude NFS_SERVICE_FAILURE RULE_STORAGE_SERVICE Confidence_High id [id] [id] (evidence_for ctx id)
    (name +:+ "のネットワークとagentまたはSSHから応答を得ています。" +:+ detail +:+ "。")
    [guide_entity host;
     guide_observations host PROBE_SERVER_PORT "NFSの接続先・ポート・結果・観測時刻を確認してください";
     step name "NFSサービスの起動状態を確認してください。サービス名がnfs-kernel-serverの環境ではnfs-serverを置き換えてください" "sudo systemctl status nfs-server --no-pager -l";
     step name "実際に公開されている共有ディレクトリと許可するクライアントを、/etc/exportsと/etc/exports.dの設定に照らして確認してください" "sudo exportfs -v";
     step name "監視対象のNFSポートで待ち受けているプロセスを確認してください" ("sudo ss -lntp 'sport = :" +:+ show_N nfs_port +:+ "'");
     step name "NFSサービスの直近のエラーを確認してください" "sudo journalctl -u nfs-server -u nfs-kernel-server -n 100 --no-pager"].

(** [StorageServiceFailure::evaluate]. *)
Definition evaluate_storage_service (ctx : DiagnosisContext) : list Diagnosis :=
  entities_of_type ctx Entity_Host ≫= λ host,
    let id := entity_eid host in
    let serving_nothing := exports_empty ctx id && port_answers ctx id in
    if negb (port_failed ctx id) && negb serving_nothing then []
    else if negb (serves_anyone ctx id) then []
    else if negb (host_looks_healthy ctx id) then []
    else [storage_service_diagnosis ctx host].

(** The impaired hosts, in identifier order. *)
Definition impaired_hosts (ctx : DiagnosisContext) : list EntityId :=
  map entity_eid
    (filter (λ host, storage_is_impaired ctx (entity_eid host) = true) (entities_of_type ctx Entity_Host)).

(** [by_storage.entry(storage).or_default().insert(host)] for each host. *)
Fixpoint group_by_storage (ctx : DiagnosisContext) (m : gmap EntityId (gset EntityId))
    (hosts : list EntityId) : option (gmap EntityId (gset EntityId)) :=
  match hosts with
  | [] => Some m
  | host :: hosts' =>
      storages ← storages_used ctx host;
      group_by_storage ctx (foldl (λ m storage, group_add m storage host) m storages) hosts'
  end.

Definition entity_names (ctx : DiagnosisContext) (ids : list EntityId) : list string :=
  map canonical_name (omap (ctx_entity ctx) ids).

(** The diagnosis [SharedStorageFailure] pushes for one storage. *)
Definition shared_storage_diagnosis (ctx : DiagnosisContext) (upstream : EntityId)
    (members : gset EntityId) (entity : ManagedEntity) (providers : list EntityId) : Diagnosis :=
  let healthy_clients := filter (λ id, id ∉ members) (btree_elements (clients_of ctx upstream)) in
  let names := entity_names ctx (btree_elements members) in
  conclude SHARED_STORAGE_FAILURE RULE_STORAGE_SHARED
    (if decide (healthy_clients = []) then Confidence_High else Confidence_Medium) upstream
    (btree_elements members ++ [upstream])
    (match providers with [] => [upstream] | _ => providers end)
    (evidence_for ctx upstream ++ (btree_elements members ≫= evidence_for ctx))
    ("共有ストレージ「" +:+ canonical_name entity +:+ "」を使う" +:+ show_nat (size members)
     +:+ "台で、アクセスの異常を検出しています。対象は" +:+ str_join "、" names
     +:+ "です。共有元のサーバーや共通の接続経路を確認してください。")
    [guide_entity entity;
     step "Sentinel controller" "共有ストレージの提供元と影響を受けるホストを確認してください" (sentinel_command "dependency list");
     "提供元ホストのネットワーク・NFSポート・公開設定を確認してください。複数のクライアントから同じ共有に接続できない場合は、共有元と共通のネットワーク経路を調べてください。";
     step ("影響を受けたホスト（" +:+ str_join "、" names +:+ "）") "NFSの接続先とマウント設定を比較してください。異常が報告されていないホストがあれば、その設定とも比較してください" "cat /proc/1/mounts";
     step ("影響を受けたホスト（" +:+ str_join "、" names +:+ "）") "NFSの応答待ち、接続失敗、I/Oエラーの記録を確認してください" "sudo journalctl -k -n 100 --no-pager"].

(** The loop over the groups of [SharedStorageFailure::evaluate]. *)
Fixpoint report_shared (ctx : DiagnosisContext) (groups : list (EntityId * gset EntityId)) :
    option (list Diagnosis) :=
  match groups with
  | [] => Some []
  | (upstream, members) :: groups' =>
      match ctx_entity ctx upstream with
      | None => report_shared ctx groups'
      | Some entity =>
          if decide (entity_kind entity ≠ Entity_Storage) then report_shared ctx groups'
          else
            edges ← dependencies_of (inv_graph (ctx_inventory ctx)) upstream;
            rest ← report_shared ctx groups';
            Some (shared_storage_diagnosis ctx upstream members entity (map edge_target edges) :: rest)
      end
  end.

(** [SharedStorageFailure::evaluate]. *)
Definition evaluate_shared_storage (ctx : DiagnosisContext) : option (list Diagnosis) :=
  let impaired := impaired_hosts ctx in
  if (length impaired <? 2)%nat then Some []
  else
    by_storage ← group_by_storage ctx ∅ impaired;
    report_shared ctx (btree_entries (filter (λ kv, (1 < size kv.2)%nat) by_storage)).

(** The peers a client is compared against: the other users of its storages. *)
Definition storage_peers (ctx : DiagnosisContext) (host : EntityId) (storages : list EntityId) : gset EntityId :=
  foldl (λ peers storage, peers ∪ (clients_of ctx storage ∖ {[ host ]})) ∅ storages.

(** The diagnosis [ClientLocalStorageFailure] pushes. *)
Definition client_storage_diagnosis (ctx : DiagnosisContext) (host : ManagedEntity)
    (storages : list EntityId) (peers : gset EntityId) : Diagnosis :=
  let id := entity_eid host in
  let name := canonical_name host in
  let stuck := match ctx_observation ctx id PROBE_CLIENT_IO with
               | Some o => bool_decide (status o = Probe_Stuck ∨ status o = Probe_Timeout)
               | None => false
               end in
  conclude NFS_CLIENT_FAILURE RULE_STORAGE_CLIENT Confidence_High id [id] [id] (evidence_for ctx id)
    (name +:+ "で共有ストレージ「" +:+ str_join "、" (entity_names ctx storages)
     +:+ "」へのアクセスに異常を検出しています。同じ共有を使う"
     +:+ str_join "、" (entity_names ctx (btree_elements peers))
     +:+ "には、同じ異常が報告されていません。対象ホストのマウント設定と接続経路を確認してください。")
    ([guide_entity host;
      step name "NFSの接続先とマウント設定を、同じ共有を使う他のホストと比較してください" "cat /proc/1/mounts";
      step name "NFSの応答待ち、接続失敗、I/Oエラーの記録を確認してください" "sudo journalctl -k -n 100 --no-pager"]
     ++ if stuck then
          ["I/O検査が完了していません。応答しないマウント先へのlsやdfを繰り返すと、応答待ちのプロセスが増える場合があります。まず以下の情報で待ちの状態を調べてください。";
           step name "STATがDのプロセスと待機先を確認してください" "ps -eo pid,stat,wchan:32,comm";
           step name "待機中のプロセスのスタックを確認してください。<PID>は上で確認した数値に置き換えてください" "sudo cat /proc/<PID>/stack"]
        else []).

(** What the loop of [ClientLocalStorageFailure::evaluate] makes of one host. *)
Definition client_local_at (ctx : DiagnosisContext) (host : ManagedEntity) : option (list Diagnosis) :=
  let id := entity_eid host in
  if negb (storage_is_impaired ctx id) then Some []
  else
    storages ← storages_used ctx id;
    if decide (storages = []) then Some []
    else
      let peers := storage_peers ctx id storages in
      if decide (peers = ∅) then Some []
      else if existsb (storage_is_impaired ctx) (btree_elements peers) then Some []
      else Some [client_storage_diagnosis ctx host storages peers].

(** [ClientLocalStorageFailure::evaluate]. *)
Definition evaluate_client_local (ctx : DiagnosisContext) : option (list Diagnosis) :=
  mjoin <$> mapM (client_local_at ctx) (entities_of_type ctx Entity_Host).
End storage.

(** * Slurm rules

    [src/diagnosis/rules/slurm.rs]: a drained node, a dead daemon, an impaired
    control plane and a wrong configuration, told apart.  Every rule that blames
    a service demands positive evidence that its host is fine. *)

(** [crate::integrations::slurm::observe]. *)
Definition PROBE_NODE : string := "slurm.node".
Definition PROBE_CONTROLLER : string := "slurm.controller".

Definition RULE_SLURM_ONLY : RuleId := "slurm.only_degradation".
Definition RULE_SLURMD : RuleId := "slurm.slurmd_failure".
Definition RULE_CONTROL_PLANE : RuleId := "slurm.control_plane_failure".
Definition RULE_RESOURCE : RuleId := "slurm.resource_mismatch".

Section slurm.
Context `{J : JsonApi} `{U : UuidApi} `{HI : HashIter} `{PS : Pass}.

(** [node_details]. *)
Definition node_details (ctx : DiagnosisContext) (host : ManagedEntity) : string :=
  let name :=
    match payload_str ctx (entity_eid host) PROBE_NODE "node_name" with
    | Some name => name
    | None =>
        default (canonical_name host)
          (slurm ← json_get (entity_metadata host) "slurm";
           name ← json_get slurm "node_name";
           json_as_str name)
    end in
  step "Slurmコマンドを使えるホスト" "State・Reason・ReasonTimeと登録リソースを確認してください"
    ("scontrol show node " +:+ quote name).

Definition node_flag (ctx : DiagnosisContext) (host : EntityId) (field : string) (absent : bool) : bool :=
  default absent (payload_bool ctx host PROBE_NODE field).

(** The diagnosis [SlurmOnlyDegradation] pushes. *)
Definition slurm_only_diagnosis (ctx : DiagnosisContext) (host : ManagedEntity) : Diagnosis :=
  let id := entity_eid host in
  let reason := default "理由の記録なし" (payload_str ctx id PROBE_NODE "reason") in
  let state := default "不明" (payload_str ctx id PROBE_NODE "state") in
  conclude SLURM_ONLY_DEGRADATION RULE_SLURM_ONLY Confidence_High id [id] [id] (evidence_for ctx id)
    (canonical_name host +:+ "のネットワークとagentまたはSSHから応答を得ています。Slurmの状態は" +:+ state
     +:+ "で、新しいジョブの割り当てが停止されています。記録された理由は「" +:+ reason +:+ "」です。")
    [node_details ctx host;
     "ReasonとReasonTimeを計画作業の記録と照合してください。意図したDRAINか、異常を受けたDRAINかを確認してください。";
     guide_entity host;
     step (canonical_name host) "計画作業による停止でなければ、slurmdのログでDRAINの理由に関係するエラーを確認してください" "sudo journalctl -u slurmd -n 100 --no-pager"].

(** [SlurmOnlyDegradation::evaluate]. *)
Definition evaluate_slurm_only (ctx : DiagnosisContext) : list Diagnosis :=
  entities_of_type ctx Entity_Host ≫= λ host,
    let id := entity_eid host in
    let drained := node_flag ctx id "drained" false in
    let not_responding := node_flag ctx id "not_responding" false in
    if negb drained || not_responding then []
    else if negb (host_looks_healthy ctx id) then []
    else [slurm_only_diagnosis ctx host].

(** Whether the observers of a host disagree about reaching it. *)
Definition observers_disagree (ctx : DiagnosisContext) (host : EntityId) : bool :=
  match verdicts_by_target ctx !! host with
  | Some v => disagree v
  | None => false
  end.

(** The diagnosis [SlurmdServiceFailure] pushes. *)
Definition slurmd_diagnosis (ctx : DiagnosisContext) (host : ManagedEntity) : Diagnosis :=
  let id := entity_eid host in
  let name := canonical_name host in
  let service := entity_id_of (ctx_environment ctx) Entity_Service ("slurmd@" +:+ name) in
  let roots := match ctx_entity ctx service with Some _ => [service] | None => [id] end in
  let state := default "不明" (payload_str ctx id PROBE_NODE "state") in
  conclude SLURMD_SERVICE_FAILURE RULE_SLURMD Confidence_High id [id] roots (evidence_for ctx id)
    (name +:+ "のネットワークとagentまたはSSHから応答を得ていますが、Slurmでは" +:+ state
     +:+ "のためジョブを割り当てられません。slurmdの応答・登録状態と、Slurmに記録された理由を確認してください。")
    [node_details ctx host;
     step name "slurmdが起動しているか、終了コードや起動失敗を確認してください" "sudo systemctl status slurmd --no-pager -l";
     step name "controllerへの接続失敗、認証エラー、リソース登録エラーを確認してください" "sudo journalctl -u slurmd -n 100 --no-pager";
     guide_entity host;
     guide_observations host PROBE_NODE "Slurmの状態・理由・応答の有無と観測時刻を確認してください"].

(** [SlurmdServiceFailure::evaluate]. *)
Definition evaluate_slurmd (ctx : DiagnosisContext) : list Diagnosis :=
  entities_of_type ctx Entity_Host ≫= λ host,
    let id := entity_eid host in
    let not_responding := node_flag ctx id "not_responding" false in
    let schedulable := node_flag ctx id "schedulable" true in
    let drained := node_flag ctx id "drained" false in
    let daemon_problem := not_responding || (negb schedulable && negb drained) in
    if negb daemon_problem then []
    else if negb (host_looks_healthy ctx id) then []
    else if observers_disagree ctx id then []
    else [slurmd_diagnosis ctx host].

(** The edges leaving each daemon, one list per daemon. *)
Definition daemon_edges (ctx : DiagnosisContext) (daemons : list EntityId) :
    option (list (list DependencyEdge)) :=
  mapM (dependencies_of (inv_graph (ctx_inventory ctx))) daemons.

(** The names of the hosts a set of edges leads to, in order. *)
Definition controller_hosts (ctx : DiagnosisContext) (edges : list DependencyEdge) : list string :=
  btree_elements
    (list_to_set (map canonical_name
      (filter (λ e, entity_kind e = Entity_Host) (omap (λ e, ctx_entity ctx (edge_target e)) edges)))
     : gset string).

(** The diagnosis [SlurmControlPlaneFailure] pushes. *)
Definition control_plane_diagnosis (ctx : DiagnosisContext) (scheduler : ManagedEntity)
    (daemons : list EntityId) (host_is_fine : bool) (hosts : list string) : Diagnosis :=
  let id := entity_eid scheduler in
  let location := match hosts with
                  | [] => "Slurm controller"
                  | _ => "Slurm controller（" +:+ str_join "、" hosts +:+ "）"
                  end in
  conclude SLURM_CONTROL_PLANE_FAILURE RULE_CONTROL_PLANE
    (if host_is_fine then Confidence_High else Confidence_Medium) id [id]
    (match daemons with [] => [id] | _ => daemons end)
    (evidence_for ctx id ++ (daemons ≫= evidence_for ctx))
    ("Slurmスケジューラ「" +:+ canonical_name scheduler
     +:+ "」から正常な応答を得られていません。ジョブの投入や割り当てに影響する可能性があります。slurmctldと、そのホストへの接続を確認してください。")
    [guide_entity scheduler;
     guide_observations scheduler PROBE_CONTROLLER "controllerの応答結果と観測時刻を確認してください";
     step "Slurmコマンドを使えるホスト" "主系と待機系のcontrollerの応答を確認してください" "scontrol ping";
     step location "ホストに接続できる場合は、slurmctldの起動状態を確認してください" "sudo systemctl status slurmctld --no-pager -l";
     step location "設定の読み込み失敗、認証エラー、接続失敗を確認してください" "sudo journalctl -u slurmctld -n 100 --no-pager";
     "Slurm controllerのホストにも接続できない場合は、コンソールやBMCでホストとネットワークの状態を確認してください。"].

(** What the loop of [SlurmControlPlaneFailure::evaluate] makes of one scheduler.
    The short-circuiting [any] looks at fewer daemons; the [flat_map] after it
    looks at all of them, so a panicking lookup is met either way. *)
Definition control_plane_at (ctx : DiagnosisContext) (scheduler : ManagedEntity) : option (list Diagnosis) :=
  let id := entity_eid scheduler in
  let reachable := payload_bool ctx id PROBE_CONTROLLER "up" in
  let failed := bool_decide (reachable = Some false)
                || bool_decide (ctx_component ctx id Component_Service = Unavailable) in
  if negb failed then Some []
  else
    edges ← dependencies_of (inv_graph (ctx_inventory ctx)) id;
    let daemons := map edge_target edges in
    onward ← daemon_edges ctx daemons;
    let host_is_fine := existsb (existsb (λ e, host_looks_healthy ctx (edge_target e))) onward in
    Some [control_plane_diagnosis ctx scheduler daemons host_is_fine
            (controller_hosts ctx (mjoin onward))].

(** [SlurmControlPlaneFailure::evaluate]. *)
Definition evaluate_control_plane (ctx : DiagnosisContext) : option (list Diagnosis) :=
  mjoin <$> mapM (control_plane_at ctx) (entities_of_type ctx Entity_Scheduler).

(** The comparisons of [ResourceConfigurationMismatch]. *)
Definition differ (a b : option N) : bool :=
  match a, b with Some x, Some y => negb (x =? y)%N | _, _ => false end.

Definition exceeds (a b : option N) : bool :=
  match a, b with Some x, Some y => (y <? x)%N | _, _ => false end.

Definition show_count (n : option N) : string := show_N (default 0%N n).

Definition resource_mismatches (configured_gpus observed_gpus configured_cpus observed_cpus : option N) :
    list string :=
  (if differ configured_gpus observed_gpus
   then ["GPU数はSlurmの設定が" +:+ show_count configured_gpus +:+ "台、ホストの報告が"
         +:+ show_count observed_gpus +:+ "台"] else [])
  ++ (if exceeds configured_cpus observed_cpus
      then ["CPU数はSlurmの設定が" +:+ show_count configured_cpus +:+ "個、ホストの報告が"
            +:+ show_count observed_cpus +:+ "個"] else []).

(** [let diagnosis_type = if .. { .. } else { .. }]. *)
Definition resource_kind (configured_gpus observed_gpus : option N) (mismatches : list string) : DiagnosisType :=
  if bool_decide (is_Some configured_gpus) && bool_decide (is_Some observed_gpus)
     && (length mismatches =? 1)%nat
  then GPU_CONFIGURATION_MISMATCH else RESOURCE_CONFIGURATION_MISMATCH.

(** What the loop of [ResourceConfigurationMismatch::evaluate] makes of one host. *)
Definition resource_mismatch_at (ctx : DiagnosisContext) (host : ManagedEntity) : list Diagnosis :=
  match json_get (entity_metadata host) "hardware" with
  | None => []
  | Some observed =>
      let id := entity_eid host in
      let name := canonical_name host in
      let configured_gpus := payload_u64 ctx id PROBE_NODE "configured_gpu_count" in
      let observed_gpus := json_get observed "gpus" ≫= json_as_u64 in
      let configured_cpus := payload_u64 ctx id PROBE_NODE "cpu_total" in
      let observed_cpus := json_get observed "cpus" ≫= json_as_u64 in
      let mismatches := resource_mismatches configured_gpus observed_gpus configured_cpus observed_cpus in
      match mismatches with
      | [] => []
      | _ =>
          [conclude (resource_kind configured_gpus observed_gpus mismatches) RULE_RESOURCE Confidence_High
             id [id] [id] (evidence_for ctx id)
             (name +:+ "のリソース数に不一致があります。" +:+ str_join "、" mismatches
              +:+ "です。設定と実際の認識状態を照合してください。")
             ([node_details ctx host; guide_entity host]
              ++ (if differ configured_gpus observed_gpus
                  then [step name "認識されているGPUの台数と型番を、SlurmのGres設定・gres.confと比較してください" "nvidia-smi --query-gpu=index,name,uuid --format=csv"]
                  else [])
              ++ (if exceeds configured_cpus observed_cpus
                  then [step name "CPU数とソケット・コア・スレッド構成を、Slurmの設定と比較してください" "lscpu"]
                  else [])
              ++ [step name "リソース登録時の不一致やGPU認識に関するエラーを確認してください" "sudo journalctl -u slurmd -n 100 --no-pager"])]
      end
  end.

(** [ResourceConfigurationMismatch::evaluate]. *)
Definition evaluate_resource_mismatch (ctx : DiagnosisContext) : list Diagnosis :=
  entities_of_type ctx Entity_Host ≫= resource_mismatch_at ctx.

(** [slurm::classification_for]. *)
Definition slurm_classification_for (d : Diagnosis) : option string :=
  if String.eqb (diagnosis_type d) SLURM_ONLY_DEGRADATION then Some SCHEDULER_DEGRADED
  else if String.eqb (diagnosis_type d) SLURMD_SERVICE_FAILURE then Some SERVICE_FAILURE
  else None.
End slurm.

(** * The diagnosis engine

    [src/diagnosis/engine.rs] and [src/diagnosis/rules/mod.rs]: the rules run in
    a fixed order; one that panics is skipped. *)

(** [DiagnosisRule]: evaluating may panic, which is a [None]. *)
Record DiagnosisRule `{JsonApi} := {
  rule_id : RuleId;
  rule_description : string;
  rule_evaluate : DiagnosisContext → option (list Diagnosis)
}.

(** [DiagnosisEngine]. *)
Record DiagnosisEngine `{JsonApi} := { engine_rules : list DiagnosisRule }.

(** The order [sort_by] compares by: confidence descending, then type. *)
Definition diagnosis_key (d : Diagnosis) : N * string :=
  ((3 - confidence_rank (confidence d))%N, diagnosis_type d).

Section engine.
Context `{J : JsonApi}.

(** [DiagnosisEngine::new], [register], [rule_ids]. *)
Definition diagnosis_engine_new : DiagnosisEngine := {| engine_rules := [] |}.

Definition register_rule (eng : DiagnosisEngine) (r : DiagnosisRule) : DiagnosisEngine :=
  {| engine_rules := engine_rules eng ++ [r] |}.

Definition rule_ids (eng : DiagnosisEngine) : list RuleId := map rule_id (engine_rules eng).

(** What [catch_unwind] leaves of one rule. *)
Definition run_rule (ctx : DiagnosisContext) (r : DiagnosisRule) : list Diagnosis :=
  match rule_evaluate r ctx with
  | Some produced => produced
  | None => []
  end.

(** [DiagnosisEngine::diagnose]. *)
Definition diagnose (eng : DiagnosisEngine) (ctx : DiagnosisContext) : list Diagnosis :=
  sort_by_key diagnosis_key (foldl (λ ds r, (ds ++ run_rule ctx r)%list) [] (engine_rules eng)).

Context `{U : UuidApi} `{HI : HashIter} `{PS : Pass}.

(** The structs of the rule files, with their [id] and [description]. *)
Definition HostUnreachable : DiagnosisRule := {|
  rule_id := RULE_HOST_UNREACHABLE;
  rule_description := "no independent observer can reach the host";
  rule_evaluate ctx := Some (evaluate_host_unreachable ctx) |}.

Definition PathSpecificNetworkFailure : DiagnosisRule := {|
  rule_id := RULE_PATH_FAILURE;
  rule_description := "some observers reach the host and others do not, so the path is at fault";
  rule_evaluate ctx := Some (evaluate_path_failure ctx) |}.

Definition SentinelAgentFailure : DiagnosisRule := {|
  rule_id := RULE_AGENT_FAILURE;
  rule_description := "the Sentinel agent is not answering on a host that is otherwise healthy";
  rule_evaluate ctx := Some (evaluate_agent_failure ctx) |}.

Definition SshServiceFailure : DiagnosisRule := {|
  rule_id := RULE_SSH_FAILURE;
  rule_description := "SSH is not answering on a host that is otherwise healthy";
  rule_evaluate ctx := Some (evaluate_ssh_failure ctx) |}.

Definition SlurmOnlyDegradation : DiagnosisRule := {|
  rule_id := RULE_SLURM_ONLY;
  rule_description := "the host is healthy but the scheduler will not schedule work on it";
  rule_evaluate ctx := Some (evaluate_slurm_only ctx) |}.

Definition SlurmdServiceFailure : DiagnosisRule := {|
  rule_id := RULE_SLURMD;
  rule_description := "the scheduler has lost contact with slurmd on a host that is otherwise healthy";
  rule_evaluate ctx := Some (evaluate_slurmd ctx) |}.

Definition SlurmControlPlaneFailure : DiagnosisRule := {|
  rule_id := RULE_CONTROL_PLANE;
  rule_description := "the Slurm control plane is unreachable or its daemon has failed";
  rule_evaluate := evaluate_control_plane |}.

Definition ResourceConfigurationMismatch : DiagnosisRule := {|
  rule_id := RULE_RESOURCE;
  rule_description := "a node's real hardware disagrees with the scheduler's configuration";
  rule_evaluate ctx := Some (evaluate_resource_mismatch ctx) |}.

Definition StorageServiceFailure : DiagnosisRule := {|
  rule_id := RULE_STORAGE_SERVICE;
  rule_description := "a storage server's export service has failed while the host is still up";
  rule_evaluate ctx := Some (evaluate_storage_service ctx) |}.

Definition SharedStorageFailure : DiagnosisRule := {|
  rule_id := RULE_STORAGE_SHARED;
  rule_description := "several clients of the same storage are impaired together";
  rule_evaluate := evaluate_shared_storage |}.

Definition ClientLocalStorageFailure : DiagnosisRule := {|
  rule_id := RULE_STORAGE_CLIENT;
  rule_description := "one client's storage is impaired while others on the same storage are fine";
  rule_evaluate := evaluate_client_local |}.

(** [rules::builtin]. *)
Definition builtin : list DiagnosisRule :=
  [HostUnreachable; PathSpecificNetworkFailure; SentinelAgentFailure; SshServiceFailure;
   SlurmOnlyDegradation; SlurmdServiceFailure; SlurmControlPlaneFailure;
   ResourceConfigurationMismatch; StorageServiceFailure; SharedStorageFailure;
   ClientLocalStorageFailure].

(** [builtin_rules]. *)
Definition builtin_rules : DiagnosisEngine := foldl register_rule diagnosis_engine_new builtin.
End engine.
