(* ===== verification/RulesSpec.v ===== *)
(** * The rules: what they conclude, and when

    Each rule against the table its file opens with, the conclusions no rule may
    draw, and the pairs of conclusions that may not be drawn together. *)

From S2P Require Import Concrete.
From S2P Require Export Rules.

Local Open Scope string_scope.

Section spec.
Context `{J : JsonApi} `{U : UuidApi} `{HI : HashIter} `{PS : Pass}.
Implicit Types (ctx : DiagnosisContext) (d : Diagnosis) (host e : ManagedEntity).

(** ** The engine *)

Lemma run_rules_concat ctx rules ds :
  (foldl (λ ds r, ds ++ run_rule ctx r) ds rules = ds ++ (rules ≫= run_rule ctx))%list.
Proof.
  revert ds. induction rules as [|r rules IH]; intros ds; cbn; [by rewrite app_nil_r|].
  rewrite IH. by rewrite <-app_assoc.
Qed.

Lemma elem_of_diagnose eng ctx d :
  d ∈ diagnose eng ctx ↔ ∃ r ds, r ∈ engine_rules eng ∧ rule_evaluate r ctx = Some ds ∧ d ∈ ds.
Proof.
  unfold diagnose. rewrite elem_of_sort_by_key, run_rules_concat. cbn [app].
  rewrite list_elem_of_bind. unfold run_rule. split.
  - intros (r & Hd & Hr). destruct (rule_evaluate r ctx) as [ds|] eqn:Hds;
      [eauto|by apply elem_of_nil in Hd].
  - intros (r & ds & Hr & Hds & Hd). exists r. by rewrite Hds.
Qed.

(** One broken rule costs the operator none of the other conclusions: a
    diagnosis is reported exactly when some rule that did not panic produced it,
    as often as the rules produced it, the most confident first. *)
Theorem diagnose_isolates_rules (eng : DiagnosisEngine) (ctx : DiagnosisContext) :
  diagnose eng ctx ≡ₚ (engine_rules eng ≫= run_rule ctx) ∧
  StronglySorted (λ a b, (confidence_rank (confidence b) ≤ confidence_rank (confidence a))%N)
    (diagnose eng ctx) ∧
  ∀ r, rule_evaluate r ctx = None → diagnose (register_rule eng r) ctx = diagnose eng ctx.
Proof.
  split_and!.
  - unfold diagnose, sort_by_key. by rewrite stable_sort_perm, run_rules_concat.
  - eapply StronglySorted_impl; [|apply stable_sort_sorted; apply _]. intros a b.
    unfold key_le_on, diagnosis_key. intros [Hle _]. cbn in Hle. unfold N.le in *.
    destruct (confidence a), (confidence b); done.
  - intros r Hr. unfold diagnose, register_rule. cbn [engine_rules]. rewrite foldl_app. cbn [foldl].
    assert (run_rule ctx r = []) as -> by (unfold run_rule; by rewrite Hr). by rewrite app_nil_r.
Qed.

(** ** Membership in a rule's output *)

(** A rule that pushes at most one diagnosis per entity. *)
Lemma elem_of_guarded {A} (l : list A) (guard : A → bool) (mk : A → Diagnosis) d :
  d ∈ (l ≫= λ x, if guard x then [mk x] else []) ↔ ∃ x, x ∈ l ∧ guard x = true ∧ d = mk x.
Proof.
  rewrite list_elem_of_bind. split.
  - intros (x & Hd & Hx). exists x. destruct (guard x); [|by apply elem_of_nil in Hd].
    by apply list_elem_of_singleton in Hd.
  - intros (x & Hx & Hg & ->). exists x. rewrite Hg. split; [by apply list_elem_of_singleton|done].
Qed.

Lemma bind_ext {A B} (f g : A → list B) (l : list A) : (∀ x, f x = g x) → (l ≫= f) = (l ≫= g).
Proof. intros Hfg. induction l as [|x l IH]; cbn; [done|]. by rewrite Hfg, IH. Qed.

(** Turn the chain of guards of a rule into one condition. *)
Ltac guards := let x := fresh "x" in intros x; repeat case_match; try done.

Definition agent_failing ctx (id : EntityId) : bool :=
  is_broken ctx id Component_Agent && ctx_is_healthy ctx id Component_Network
  && negb (is_broken ctx id Component_Ssh).

Definition ssh_failing ctx (id : EntityId) : bool :=
  is_broken ctx id Component_Ssh && ctx_is_healthy ctx id Component_Network.

Definition only_drained ctx (id : EntityId) : bool :=
  node_flag ctx id "drained" false && negb (node_flag ctx id "not_responding" false)
  && host_looks_healthy ctx id.

Definition daemon_failing ctx (id : EntityId) : bool :=
  (node_flag ctx id "not_responding" false
   || (negb (node_flag ctx id "schedulable" true) && negb (node_flag ctx id "drained" false)))
  && host_looks_healthy ctx id && negb (observers_disagree ctx id).

Definition export_failing ctx (id : EntityId) : bool :=
  (port_failed ctx id || (exports_empty ctx id && port_answers ctx id))
  && serves_anyone ctx id && host_looks_healthy ctx id.

Lemma elem_of_agent_failure ctx d :
  d ∈ evaluate_agent_failure ctx ↔ ∃ host, host ∈ entities_of_type ctx Entity_Host ∧
    agent_failing ctx (entity_eid host) = true ∧ d = agent_failure_diagnosis ctx host.
Proof.
  rewrite <-elem_of_guarded. unfold evaluate_agent_failure, agent_failing.
  erewrite bind_ext; [done|]. intros host. cbn beta zeta. by destruct (is_broken _ _ Component_Agent),
    (ctx_is_healthy _ _ Component_Network), (is_broken _ _ Component_Ssh).
Qed.

Lemma elem_of_ssh_failure ctx d :
  d ∈ evaluate_ssh_failure ctx ↔ ∃ host, host ∈ entities_of_type ctx Entity_Host ∧
    ssh_failing ctx (entity_eid host) = true ∧ d = ssh_failure_diagnosis ctx host.
Proof.
  rewrite <-elem_of_guarded. unfold evaluate_ssh_failure, ssh_failing.
  erewrite bind_ext; [done|]. intros host. cbn beta zeta. by destruct (is_broken _ _ Component_Ssh),
    (ctx_is_healthy _ _ Component_Network).
Qed.

Lemma elem_of_slurm_only ctx d :
  d ∈ evaluate_slurm_only ctx ↔ ∃ host, host ∈ entities_of_type ctx Entity_Host ∧
    only_drained ctx (entity_eid host) = true ∧ d = slurm_only_diagnosis ctx host.
Proof.
  rewrite <-elem_of_guarded. unfold evaluate_slurm_only, only_drained.
  erewrite bind_ext; [done|]. intros host. cbn beta zeta. by destruct (node_flag _ _ "drained" _),
    (node_flag _ _ "not_responding" _), (host_looks_healthy _ _).
Qed.

Lemma elem_of_slurmd ctx d :
  d ∈ evaluate_slurmd ctx ↔ ∃ host, host ∈ entities_of_type ctx Entity_Host ∧
    daemon_failing ctx (entity_eid host) = true ∧ d = slurmd_diagnosis ctx host.
Proof.
  rewrite <-elem_of_guarded. unfold evaluate_slurmd, daemon_failing.
  erewrite bind_ext; [done|]. intros host. cbn beta zeta. by destruct (node_flag _ _ "drained" _),
    (node_flag _ _ "not_responding" _), (node_flag _ _ "schedulable" _), (host_looks_healthy _ _),
    (observers_disagree _ _).
Qed.

Lemma elem_of_storage_service ctx d :
  d ∈ evaluate_storage_service ctx ↔ ∃ host, host ∈ entities_of_type ctx Entity_Host ∧
    export_failing ctx (entity_eid host) = true ∧ d = storage_service_diagnosis ctx host.
Proof.
  rewrite <-elem_of_guarded. unfold evaluate_storage_service, export_failing.
  erewrite bind_ext; [done|]. intros host. cbn beta zeta. by destruct (port_failed _ _),
    (exports_empty _ _), (port_answers _ _), (serves_anyone _ _), (host_looks_healthy _ _).
Qed.

Lemma host_looks_healthy_spec ctx id :
  host_looks_healthy ctx id = true ↔ ctx_component ctx id Component_Network = Healthy ∧
    (ctx_component ctx id Component_Agent = Healthy ∨ ctx_component ctx id Component_Ssh = Healthy).
Proof. unfold host_looks_healthy. by rewrite andb_true_iff, orb_true_iff, !ctx_is_healthy_spec. Qed.

(** ** Reachability *)

(** The inventory files each entity under its identifier. *)
Definition ctx_wf ctx : Prop :=
  ∀ k x, inv_entities (ctx_inventory ctx) !! k = Some x → entity_eid x = k.

Definition active_host ctx (id : EntityId) : Prop :=
  ∃ host, host ∈ entities_of_type ctx Entity_Host ∧ entity_eid host = id.

Lemma active_host_entity ctx id : ctx_wf ctx → active_host ctx id → ∃ e, ctx_entity ctx id = Some e.
Proof.
  intros Hwf (host & ((k & Hk) & _)%elem_of_entities_of_type & <-).
  exists host. unfold ctx_entity, get. by rewrite (Hwf k host Hk).
Qed.

Lemma verdicts_recorded ctx id :
  verdicts_by_target ctx !! id = Some (verdicts_of ctx id) ↔
    active_host ctx id ∧ (v_reached (verdicts_of ctx id) ≠ ∅ ∨ v_failed (verdicts_of ctx id) ≠ ∅).
Proof.
  rewrite verdicts_lookup. unfold active_host, verdicts_total.
  assert (∀ s : gset EntityId, s ≠ ∅ ↔ (0 < size s)%nat) as Hsize.
  { intros s. rewrite <-(leibniz_equiv_iff (A := gset EntityId)), <-(size_empty_iff s). lia. }
  rewrite !Hsize. split.
  - intros (_ & Ht & e & He). split; [eauto|lia].
  - intros [[e He] Hv]. split_and!; [done|lia|eauto].
Qed.

(** C9.  [HOST_UNREACHABLE] is concluded about exactly the active hosts that at
    least two distinct other observers failed to reach and none reached. *)
Theorem host_unreachable_iff (ctx : DiagnosisContext) (target : EntityId) :
  ctx_wf ctx →
  (∃ d, d ∈ evaluate_host_unreachable ctx ∧ affected_entities d = [target]) ↔
  active_host ctx target ∧
  (∃ a b, a ≠ b ∧ reports_failed ctx target a ∧ reports_failed ctx target b) ∧
  (∀ o, ¬ reports_reached ctx target o).
Proof.
  intros Hwf. unfold evaluate_host_unreachable. setoid_rewrite evaluate_verdicts_elem.
  assert (∀ t, unanimously_unreachable (verdicts_of ctx t) = true ↔
    (∃ a b, a ≠ b ∧ reports_failed ctx t a ∧ reports_failed ctx t b) ∧
    (∀ o, ¬ reports_reached ctx t o)) as Hspec.
  { intros t. rewrite unanimously_unreachable_spec, two_elements.
    setoid_rewrite (λ o, proj1 (proj2 (verdicts_of_spec ctx t o))).
    setoid_rewrite <-(λ o, proj1 (verdicts_of_spec ctx t o)). set_solver. }
  split.
  - intros (d & (t & e & Hv & Hu & He & ->) & [= ->]).
    apply verdicts_recorded in Hv as [Ha _]. split; [done|]. by apply Hspec.
  - intros (Ha & Hu). destruct (active_host_entity ctx target Hwf Ha) as [e He].
    eexists. split; [exists target, e|].
    + split_and!; [|by apply Hspec|done|done]. apply verdicts_recorded. split; [done|]. right.
      destruct Hu as ((a & b & _ & Hf & _) & _). apply verdicts_of_spec in Hf. set_solver.
    + done.
Qed.

(** [PATH_SPECIFIC_NETWORK_FAILURE] is concluded about exactly the active
    hosts that some observer failed to reach and some other completed a
    connection to, and never together with [HOST_UNREACHABLE]. *)
Theorem path_failure_iff (ctx : DiagnosisContext) (target : EntityId) :
  ctx_wf ctx →
  ((∃ d, d ∈ evaluate_path_failure ctx ∧ affected_entities d = [target]) ↔
   active_host ctx target ∧ (∃ a, reports_failed ctx target a) ∧
   (∃ b o, remote_report ctx target b o ∧ reached o = true ∧ connected o = true)) ∧
  (∀ d d', d ∈ evaluate_path_failure ctx → d' ∈ evaluate_host_unreachable ctx →
     affected_entities d ≠ affected_entities d').
Proof.
  intros Hwf. unfold evaluate_host_unreachable, evaluate_path_failure.
  setoid_rewrite evaluate_verdicts_elem. split.
  - assert (∀ t, disagree_about_a_working_path (verdicts_of ctx t) = true ↔
      (∃ a, reports_failed ctx t a) ∧
      (∃ b o, remote_report ctx t b o ∧ reached o = true ∧ connected o = true)) as Hspec.
    { intros t. unfold disagree_about_a_working_path.
      rewrite andb_true_iff, disagree_spec, negb_true_iff, bool_decide_eq_false.
      setoid_rewrite <-(λ o, proj1 (proj2 (verdicts_of_spec ctx t o))).
      setoid_rewrite <-(λ o, proj2 (proj2 (verdicts_of_spec ctx t o))). split.
      - intros [[Hf _] Hc]. by apply set_choose_L in Hf, Hc.
      - intros [[a Ha] [b Hb]]. pose proof Hb as Hb'. apply verdicts_of_spec in Hb'.
        assert (b ∈ v_reached (verdicts_of ctx t)) by (apply verdicts_of_spec; unfold reports_reached; naive_solver).
        set_solver. }
    split.
    + intros (d & (t & e & Hv & Hu & He & ->) & [= ->]).
      apply verdicts_recorded in Hv as [Ha _]. split; [done|]. by apply Hspec.
    + intros (Ha & Hu). destruct (active_host_entity ctx target Hwf Ha) as [e He].
      eexists. split; [exists target, e|].
      * split_and!; [|by apply Hspec|done|done]. apply verdicts_recorded. split; [done|]. right.
        destruct Hu as ((a & Hf) & _). apply verdicts_of_spec in Hf. set_solver.
      * done.
  - intros d d' (t & e & _ & Hp & _ & ->) (t' & e' & _ & Hu & _ & ->) [= ->].
    unfold disagree_about_a_working_path in Hp. apply andb_true_iff in Hp as [Hd%disagree_spec _].
    apply unanimously_unreachable_spec in Hu. naive_solver.
Qed.

(** ** Storage *)

Definition ctx_graph_wf ctx : Prop := graph_wf (inv_graph (ctx_inventory ctx)).

(** [host] declares that it uses [storage]. *)
Definition uses_storage ctx (host storage : EntityId) : Prop :=
  ∃ edge, edge ∈ ctx_edges ctx ∧ dependency_type edge = UsesStorage ∧
    edge_source edge = host ∧ edge_target edge = storage.

Lemma storages_used_wf ctx (host : EntityId) :
  ctx_graph_wf ctx → ∃ ss, storages_used ctx host = Some ss ∧ ∀ s, s ∈ ss ↔ uses_storage ctx host s.
Proof.
  intros Hwf. unfold storages_used, dependencies_of_type. rewrite dependencies_of_wf by done.
  eexists. split; [done|]. intros s. rewrite list_elem_of_fmap. unfold uses_storage, ctx_edges.
  setoid_rewrite list_elem_of_filter. setoid_rewrite list_elem_of_filter. naive_solver.
Qed.

Lemma elem_of_clients_of ctx storage h :
  h ∈ clients_of ctx storage ↔ uses_storage ctx h storage ∧ is_host ctx h = true.
Proof.
  unfold clients_of, uses_storage. rewrite elem_of_list_to_set, list_elem_of_filter, list_elem_of_fmap.
  setoid_rewrite list_elem_of_filter. naive_solver.
Qed.

Lemma elem_of_storage_peers ctx (host : EntityId) ss h :
  h ∈ storage_peers ctx host ss ↔ h ≠ host ∧ ∃ s, s ∈ ss ∧ h ∈ clients_of ctx s.
Proof.
  unfold storage_peers. assert (∀ acc, h ∈ foldl (λ peers s, peers ∪ (clients_of ctx s ∖ {[host]})) acc ss ↔
    h ∈ acc ∨ (h ≠ host ∧ ∃ s, s ∈ ss ∧ h ∈ clients_of ctx s)) as Hgen; [|rewrite Hgen; set_solver].
  induction ss as [|s ss IH]; intros acc; cbn [foldl]; [set_solver|].
  rewrite IH, exists_elem_cons. set_solver.
Qed.

Lemma elem_of_impaired_hosts ctx h :
  h ∈ impaired_hosts ctx ↔ active_host ctx h ∧ storage_is_impaired ctx h = true.
Proof.
  unfold impaired_hosts, active_host. rewrite list_elem_of_fmap.
  split.
  - intros (y & -> & [Hi Hy]%list_elem_of_filter). split; [by exists y|done].
  - intros [(y & Hy & <-) Hi]. exists y. split; [done|]. by apply list_elem_of_filter.
Qed.

Definition members (m : gmap EntityId (gset EntityId)) (s : EntityId) : gset EntityId := default ∅ (m !! s).

Lemma members_group_add m k h s x :
  x ∈ members (group_add m k h) s ↔ x ∈ members m s ∨ (s = k ∧ x = h).
Proof.
  unfold members, group_add. destruct (decide (k = s)) as [->|Hne].
  - rewrite lookup_insert_eq. cbn. set_solver.
  - rewrite lookup_insert_ne by done. naive_solver.
Qed.

Lemma members_add_all m ss h s x :
  x ∈ members (foldl (λ m s, group_add m s h) m ss) s ↔ x ∈ members m s ∨ (s ∈ ss ∧ x = h).
Proof.
  revert m. induction ss as [|k ss IH]; intros m; cbn [foldl]; [rewrite elem_of_nil; tauto|].
  rewrite IH, members_group_add, elem_of_cons. tauto.
Qed.

Lemma group_by_storage_wf ctx m hosts :
  ctx_graph_wf ctx →
  ∃ m', group_by_storage ctx m hosts = Some m' ∧
    ∀ s h, h ∈ members m' s ↔ h ∈ members m s ∨ (h ∈ hosts ∧ uses_storage ctx h s).
Proof.
  intros Hwf. revert m. induction hosts as [|h0 hosts IH]; intros m; cbn [group_by_storage].
  - eexists. split; [done|]. set_solver.
  - destruct (storages_used_wf ctx h0 Hwf) as (ss & -> & Hss). cbn [mbind option_bind].
    destruct (IH (foldl (λ m s, group_add m s h0) m ss)) as (m' & -> & Hm').
    eexists. split; [done|]. intros s h. rewrite Hm', members_add_all, Hss, elem_of_cons. naive_solver.
Qed.

Lemma report_shared_wf ctx groups :
  ctx_graph_wf ctx →
  ∃ ds, report_shared ctx groups = Some ds ∧
    ∀ d, d ∈ ds ↔ ∃ upstream ms entity, (upstream, ms) ∈ groups ∧ ctx_entity ctx upstream = Some entity ∧
      entity_kind entity = Entity_Storage ∧
      d = shared_storage_diagnosis ctx upstream ms entity
            (map edge_target (filter (λ edge, edge_source edge = upstream) (ctx_edges ctx))).
Proof.
  intros Hwf. induction groups as [|[u ms] groups (ds & IH & Hds)]; cbn [report_shared].
  - eexists. split; [done|]. set_solver.
  - destruct (ctx_entity ctx u) as [e|] eqn:He; [destruct (decide (entity_kind e ≠ Entity_Storage))|].
    1,3: exists ds; split; [done|]; intros d; rewrite Hds; setoid_rewrite elem_of_cons; naive_solver.
    rewrite dependencies_of_wf by done. cbn [mbind option_bind].
    rewrite IH. cbn [mbind option_bind]. eexists. split; [done|]. intros d.
    rewrite elem_of_cons, Hds. setoid_rewrite elem_of_cons. unfold ctx_edges.
    assert (entity_kind e = Entity_Storage) as Hk by (by apply dec_stable). naive_solver.
Qed.

Lemma elem_of_shared_groups (m : gmap EntityId (gset EntityId)) u ms :
  (u, ms) ∈ btree_entries (filter (λ kv, (1 < size kv.2)%nat) m) ↔ m !! u = Some ms ∧ (1 < size ms)%nat.
Proof. rewrite elem_of_btree_entries, map_lookup_filter_Some. done. Qed.

(** The storage failures of a well-formed picture, by storage and members. *)
Lemma evaluate_shared_storage_wf ctx :
  ctx_graph_wf ctx →
  ∃ ds, evaluate_shared_storage ctx = Some ds ∧
    ∀ d, d ∈ ds ↔ ∃ upstream ms entity, ctx_entity ctx upstream = Some entity ∧
      entity_kind entity = Entity_Storage ∧ (2 ≤ size ms)%nat ∧
      (∀ h, h ∈ ms ↔ h ∈ impaired_hosts ctx ∧ uses_storage ctx h upstream) ∧
      d = shared_storage_diagnosis ctx upstream ms entity
            (map edge_target (filter (λ edge, edge_source edge = upstream) (ctx_edges ctx))).
Proof.
  intros Hwf. unfold evaluate_shared_storage.
  destruct (Nat.ltb_spec (length (impaired_hosts ctx)) 2) as [Hfew|Hmany].
  - eexists. split; [done|]. intros d. split; [intros Hd; by apply elem_of_nil in Hd|].
    intros (u & ms & e & _ & _ & Hsize & Hms & _). exfalso.
    assert (ms ⊆ list_to_set (impaired_hosts ctx)) as Hsub by set_solver.
    apply subseteq_size in Hsub. pose proof (size_list_to_set_le (impaired_hosts ctx)). lia.
  - destruct (group_by_storage_wf ctx ∅ (impaired_hosts ctx) Hwf) as (m & -> & Hm). cbn [mbind option_bind].
    destruct (report_shared_wf ctx (btree_entries (filter (λ kv, (1 < size kv.2)%nat) m)) Hwf)
      as (ds & -> & Hds). eexists. split; [done|]. intros d. rewrite Hds.
    setoid_rewrite elem_of_shared_groups.
    assert (∀ u h, h ∈ members m u ↔ h ∈ impaired_hosts ctx ∧ uses_storage ctx h u) as Hmem.
    { intros u h. rewrite Hm. unfold members. rewrite lookup_empty. set_solver. }
    split.
    + intros (u & ms & e & (Hu & Hsz) & He & Hk & ->). exists u, ms, e.
      split_and!; [done|done|lia| |done]. intros h. rewrite <-Hmem. unfold members. by rewrite Hu.
    + intros (u & ms & e & He & Hk & Hsz & Hms & ->). exists u, ms, e. split_and!; try done.
      assert (members m u = ms) as Heq by (apply leibniz_equiv; intros h; by rewrite Hmem, Hms).
      unfold members in Heq. destruct (m !! u) as [ms'|]; cbn in Heq; [by subst|].
      subst ms. rewrite size_empty in Hsz. lia.
Qed.

(** The client-local failures of a well-formed picture. *)
Lemma evaluate_client_local_wf ctx :
  ctx_graph_wf ctx →
  ∃ ds, evaluate_client_local ctx = Some ds ∧
    ∀ d, d ∈ ds → ∃ host ss, host ∈ entities_of_type ctx Entity_Host ∧
      storage_is_impaired ctx (entity_eid host) = true ∧
      (∀ s, s ∈ ss ↔ uses_storage ctx (entity_eid host) s) ∧
      storage_peers ctx (entity_eid host) ss ≠ ∅ ∧
      (∀ p, p ∈ storage_peers ctx (entity_eid host) ss → storage_is_impaired ctx p = false) ∧
      d = client_storage_diagnosis ctx host ss (storage_peers ctx (entity_eid host) ss).
Proof.
  intros Hwf. unfold evaluate_client_local.
  induction (entities_of_type ctx Entity_Host) as [|host hosts IH].
  { eexists. split; [done|]. intros d Hd. by apply elem_of_nil in Hd. }
  destruct IH as (ds & Hds & Hspec). destruct (mapM (client_local_at ctx) hosts) as [dss|] eqn:Hm; [|done].
  injection Hds as <-.
  assert (∃ ds0, client_local_at ctx host = Some ds0 ∧ ∀ d, d ∈ ds0 →
    ∃ ss, storage_is_impaired ctx (entity_eid host) = true ∧
      (∀ s, s ∈ ss ↔ uses_storage ctx (entity_eid host) s) ∧
      storage_peers ctx (entity_eid host) ss ≠ ∅ ∧
      (∀ p, p ∈ storage_peers ctx (entity_eid host) ss → storage_is_impaired ctx p = false) ∧
      d = client_storage_diagnosis ctx host ss (storage_peers ctx (entity_eid host) ss))
    as (ds0 & Hds0 & Hspec0).
  { unfold client_local_at. destruct (storage_is_impaired ctx (entity_eid host)); cbn [negb];
      [|eexists; split; [done|]; set_solver].
    destruct (storages_used_wf ctx (entity_eid host) Hwf) as (ss & -> & Hss). cbn [mbind option_bind].
    destruct (decide (ss = [])); [eexists; split; [done|]; set_solver|].
    destruct (decide (storage_peers ctx (entity_eid host) ss = ∅)); [eexists; split; [done|]; set_solver|].
    destruct (existsb _ _) eqn:Hex; [eexists; split; [done|]; set_solver|].
    eexists. split; [done|]. intros d ->%list_elem_of_singleton. exists ss. split_and!; try done.
    intros p Hp. destruct (storage_is_impaired ctx p) eqn:Hi; [|done]. exfalso.
    apply Bool.diff_true_false. rewrite <-Hex. symmetry. apply existsb_exists. exists p.
    split; [|done]. by apply list_elem_of_In, elem_of_btree_elements. }
  cbn [mapM]. rewrite Hds0. cbn [mbind option_bind]. rewrite Hm. cbn. eexists. split; [done|].
  intros d [Hd|Hd]%elem_of_app.
  - destruct (Hspec0 d Hd) as (ss & H). exists host, ss. set_solver.
  - destruct (Hspec d Hd) as (h & ss & Hin & H). exists h, ss. set_solver.
Qed.

(** [SHARED_STORAGE_FAILURE] is concluded about exactly the known storages
    that at least two active hosts with impaired storage declare they use, and
    it names those hosts. *)
Theorem shared_storage_iff (ctx : DiagnosisContext) (storage : EntityId) :
  ctx_graph_wf ctx →
  ∃ ds, evaluate_shared_storage ctx = Some ds ∧
    ((∃ d, d ∈ ds ∧ last (affected_entities d) = Some storage) ↔
     (∃ entity, ctx_entity ctx storage = Some entity ∧ entity_kind entity = Entity_Storage) ∧
     ∃ a b, a ≠ b ∧ a ∈ impaired_hosts ctx ∧ b ∈ impaired_hosts ctx ∧
       uses_storage ctx a storage ∧ uses_storage ctx b storage) ∧
    (∀ d, d ∈ ds → last (affected_entities d) = Some storage →
       ∀ h, h ≠ storage → h ∈ affected_entities d ↔ h ∈ impaired_hosts ctx ∧ uses_storage ctx h storage).
Proof.
  intros Hwf. destruct (evaluate_shared_storage_wf ctx Hwf) as (ds & -> & Hds).
  exists ds. split; [done|].
  assert (∀ u ms e ps, last (affected_entities (shared_storage_diagnosis ctx u ms e ps)) = Some u) as Hlast
    by (intros; cbn; apply last_snoc).
  split.
  - setoid_rewrite Hds. split.
    + intros (d & (u & ms & e & He & Hk & Hsz & Hms & ->) & Hl). rewrite Hlast in Hl. injection Hl as ->.
      split; [by exists e|]. apply two_elements in Hsz as (a & b & Hab & Ha & Hb).
      apply Hms in Ha, Hb. exists a, b. tauto.
    + intros ((e & He & Hk) & a & b & Hab & Ha & Hb & Hua & Hub).
      destruct (group_by_storage_wf ctx ∅ (impaired_hosts ctx) Hwf) as (m & _ & Hm).
      exists (shared_storage_diagnosis ctx storage (members m storage) e
        (map edge_target (filter (λ edge, edge_source edge = storage) (ctx_edges ctx)))).
      split; [|apply Hlast]. exists storage, (members m storage), e.
      assert (∀ h, h ∈ members m storage ↔ h ∈ impaired_hosts ctx ∧ uses_storage ctx h storage) as Hmem.
      { intros h. rewrite Hm. unfold members. rewrite lookup_empty. set_solver. }
      split_and!; [done|done| |done|done]. apply two_elements. exists a, b. by rewrite !Hmem.
  - intros d (u & ms & e & He & Hk & Hsz & Hms & ->)%Hds Hl h Hne. rewrite Hlast in Hl.
    injection Hl as ->. cbn. rewrite elem_of_app, elem_of_btree_elements, Hms, list_elem_of_singleton.
    tauto.
Qed.

(** A shared outage and a client's own fault are never both told: no host a
    [SHARED_STORAGE_FAILURE] names is also the subject of an
    [NFS_CLIENT_FAILURE], so nobody is sent to a client for a fault its
    neighbours share. *)
Theorem storage_rules_exclusive (ctx : DiagnosisContext) :
  ctx_graph_wf ctx → ctx_wf ctx →
  ∃ shared local, evaluate_shared_storage ctx = Some shared ∧ evaluate_client_local ctx = Some local ∧
    ∀ d d' h, d ∈ shared → d' ∈ local → h ∈ affected_entities d' → h ∉ affected_entities d.
Proof.
  intros Hwf Hids. destruct (evaluate_shared_storage_wf ctx Hwf) as (shared & Hs & Hshared).
  destruct (evaluate_client_local_wf ctx Hwf) as (local & Hl & Hlocal).
  exists shared, local. split_and!; [done|done|].
  intros d d' h (u & ms & e & He & Hk & Hsz & Hms & ->)%Hshared
    (host & ss & Hhost & Hi & Hss & _ & Hok & ->)%Hlocal Hh.
  cbn in Hh. apply list_elem_of_singleton in Hh as ->. cbn. rewrite elem_of_app, elem_of_btree_elements.
  intros [Hin|Heq%list_elem_of_singleton].
  - apply two_elements in Hsz as (a & b & Hab & Ha & Hb).
    assert (∃ p, p ≠ entity_eid host ∧ p ∈ ms) as (p & Hne & Hp)
      by (destruct (decide (a = entity_eid host)); [exists b | exists a]; naive_solver).
    apply Hms in Hp as [Hp Hup], Hin as [_ Hu]. apply elem_of_impaired_hosts in Hp as [Hact Himp].
    rewrite (Hok p) in Himp; [done|]. apply elem_of_storage_peers. split; [done|]. exists u.
    split; [by apply Hss|]. apply elem_of_clients_of. split; [done|]. unfold is_host.
    destruct Hact as (hp & ((k & Hkp) & Hkind & _)%elem_of_entities_of_type & <-).
    unfold ctx_entity, get. rewrite (Hids _ _ Hkp), Hkp. by rewrite Hkind, bool_decide_eq_true_2.
  - apply elem_of_entities_of_type in Hhost as ((k & Hkh) & Hkind & _).
    unfold ctx_entity, get in He. rewrite <-Heq, (Hids _ _ Hkh), Hkh in He. congruence.
Qed.

(** ** What no rule may claim *)

(** A conclusion of one of the [kinds] by the rule [r], short of certainty and
    about somebody. *)
Record drawn (kinds : list DiagnosisType) (r : RuleId) (d : Diagnosis) : Prop := {
  drawn_kind : diagnosis_type d ∈ kinds;
  drawn_rule : diagnosis_rule d = r;
  drawn_confidence : confidence d ≠ Confidence_Confirmed;
  drawn_about : affected_entities d ≠ []
}.

Lemma drawn_conclude t r c about affected roots ev summary actions :
  c ≠ Confidence_Confirmed → affected ≠ [] →
  drawn [t] r (conclude t r c about affected roots ev summary actions).
Proof. intros Hc Ha. split; cbn; [by apply list_elem_of_singleton|done..]. Qed.

Lemma drawn_weaken ks ks' r d : ks ⊆ ks' → drawn ks r d → drawn ks' r d.
Proof. intros Hk [H1 H2 H3 H4]. by split; [apply Hk|..]. Qed.

Lemma Forall_elem {A} (P : A → Prop) l : (∀ x, x ∈ l → P x) → Forall P l.
Proof. apply Forall_forall. Qed.

Lemma drawn_host_unreachable ctx :
  Forall (drawn [HOST_UNREACHABLE] RULE_HOST_UNREACHABLE) (evaluate_host_unreachable ctx).
Proof.
  apply Forall_elem. intros d (t & e & _ & _ & _ & ->)%evaluate_verdicts_elem.
  by apply drawn_conclude.
Qed.

Lemma drawn_path_failure ctx :
  Forall (drawn [PATH_SPECIFIC_NETWORK_FAILURE] RULE_PATH_FAILURE) (evaluate_path_failure ctx).
Proof.
  apply Forall_elem. intros d (t & e & _ & _ & _ & ->)%evaluate_verdicts_elem.
  by apply drawn_conclude.
Qed.

Lemma drawn_agent_failure ctx :
  Forall (drawn [SENTINEL_AGENT_FAILURE] RULE_AGENT_FAILURE) (evaluate_agent_failure ctx).
Proof. apply Forall_elem. intros d (h & _ & _ & ->)%elem_of_agent_failure. by apply drawn_conclude. Qed.

Lemma drawn_ssh_failure ctx :
  Forall (drawn [SSH_SERVICE_FAILURE] RULE_SSH_FAILURE) (evaluate_ssh_failure ctx).
Proof.
  apply Forall_elem. intros d (h & _ & _ & ->)%elem_of_ssh_failure. apply drawn_conclude; [|done].
  by destruct (ctx_is_healthy _ _ _).
Qed.

Lemma drawn_slurm_only ctx :
  Forall (drawn [SLURM_ONLY_DEGRADATION] RULE_SLURM_ONLY) (evaluate_slurm_only ctx).
Proof. apply Forall_elem. intros d (h & _ & _ & ->)%elem_of_slurm_only. by apply drawn_conclude. Qed.

Lemma drawn_slurmd ctx : Forall (drawn [SLURMD_SERVICE_FAILURE] RULE_SLURMD) (evaluate_slurmd ctx).
Proof. apply Forall_elem. intros d (h & _ & _ & ->)%elem_of_slurmd. by apply drawn_conclude. Qed.

Lemma drawn_storage_service ctx :
  Forall (drawn [NFS_SERVICE_FAILURE] RULE_STORAGE_SERVICE) (evaluate_storage_service ctx).
Proof. apply Forall_elem. intros d (h & _ & _ & ->)%elem_of_storage_service. by apply drawn_conclude. Qed.

Lemma drawn_control_plane ctx ds :
  evaluate_control_plane ctx = Some ds →
  Forall (drawn [SLURM_CONTROL_PLANE_FAILURE] RULE_CONTROL_PLANE) ds.
Proof.
  intros Hds. eapply Forall_mjoin_mapM; [done|]. intros s y _. unfold control_plane_at.
  destruct (negb _); [by intros [= <-]|]. destruct (dependencies_of _ _) as [edges|]; cbn; [|done].
  destruct (daemon_edges _ _) as [onward|]; cbn; [|done]. intros [= <-].
  apply Forall_cons. split; [|by apply Forall_nil]. apply drawn_conclude; [|done].
  by destruct (existsb _ _).
Qed.

Lemma drawn_resource_mismatch ctx :
  Forall (drawn [GPU_CONFIGURATION_MISMATCH; RESOURCE_CONFIGURATION_MISMATCH] RULE_RESOURCE)
    (evaluate_resource_mismatch ctx).
Proof.
  apply Forall_elem. intros d (h & Hd & _)%list_elem_of_bind. unfold resource_mismatch_at in Hd.
  destruct (json_get _ _); [|by apply elem_of_nil in Hd]. cbn zeta in Hd.
  destruct (resource_mismatches _ _ _ _); [by apply elem_of_nil in Hd|].
  apply list_elem_of_singleton in Hd as ->. eapply drawn_weaken; [|by apply drawn_conclude].
  unfold resource_kind. destruct (_ && _); set_solver.
Qed.

Lemma drawn_shared_storage ctx ds :
  evaluate_shared_storage ctx = Some ds → Forall (drawn [SHARED_STORAGE_FAILURE] RULE_STORAGE_SHARED) ds.
Proof.
  unfold evaluate_shared_storage. destruct (_ <? _)%nat; [by intros [= <-]|].
  destruct (group_by_storage _ _ _) as [m|]; cbn; [|done]. generalize (btree_entries (filter (λ kv, (1 < size kv.2)%nat) m)).
  intros groups. revert ds. induction groups as [|[u ms] groups IH]; intros ds; cbn [report_shared];
    [by intros [= <-]|].
  destruct (ctx_entity ctx u) as [e|]; [|apply IH]. destruct (decide _); [apply IH|].
  destruct (dependencies_of _ _) as [edges|]; cbn; [|done].
  destruct (report_shared ctx groups) as [rest|]; cbn; [|done]. intros [= <-].
  apply Forall_cons. split; [|by apply IH]. apply drawn_conclude.
  - by destruct (decide (_ = [])).
  - intros [_ Hn]%app_eq_nil. done.
Qed.

Lemma drawn_client_local ctx ds :
  evaluate_client_local ctx = Some ds → Forall (drawn [NFS_CLIENT_FAILURE] RULE_STORAGE_CLIENT) ds.
Proof.
  intros Hds. eapply Forall_mjoin_mapM; [done|]. intros h y _. unfold client_local_at.
  destruct (negb _); [by intros [= <-]|]. destruct (storages_used _ _) as [ss|]; cbn; [|done].
  destruct (decide (ss = [])); [by intros [= <-]|].
  destruct (decide (storage_peers _ _ _ = ∅)); [by intros [= <-]|].
  destruct (existsb _ _); intros [= <-]; [by apply Forall_nil|].
  apply Forall_cons. split; [|by apply Forall_nil]. by apply drawn_conclude.
Qed.

(** The conclusions the built-in rules draw. *)
Definition builtin_kinds : list DiagnosisType :=
  [HOST_UNREACHABLE; PATH_SPECIFIC_NETWORK_FAILURE; SENTINEL_AGENT_FAILURE; SSH_SERVICE_FAILURE;
   SLURM_ONLY_DEGRADATION; SLURMD_SERVICE_FAILURE; SLURM_CONTROL_PLANE_FAILURE;
   GPU_CONFIGURATION_MISMATCH; RESOURCE_CONFIGURATION_MISMATCH; NFS_SERVICE_FAILURE;
   SHARED_STORAGE_FAILURE; NFS_CLIENT_FAILURE].

(** The output of each built-in rule, with what it may conclude. *)
Lemma builtin_cases ctx r ds :
  r ∈ builtin → rule_evaluate r ctx = Some ds →
  ∃ kinds, Forall (drawn kinds (rule_id r)) ds ∧ kinds ⊆ builtin_kinds ∧
    ∀ t out, (t, out) ∈ [(SENTINEL_AGENT_FAILURE, evaluate_agent_failure ctx);
                         (SSH_SERVICE_FAILURE, evaluate_ssh_failure ctx);
                         (SLURM_ONLY_DEGRADATION, evaluate_slurm_only ctx);
                         (SLURMD_SERVICE_FAILURE, evaluate_slurmd ctx);
                         (NFS_SERVICE_FAILURE, evaluate_storage_service ctx)] →
      t ∈ kinds → ds = out.
Proof.
  unfold builtin. rewrite !elem_of_cons, elem_of_nil.
  intros [->|[->|[->|[->|[->|[->|[->|[->|[->|[->|[->|[]]]]]]]]]]]] Hds;
    cbn [rule_evaluate HostUnreachable PathSpecificNetworkFailure SentinelAgentFailure SshServiceFailure
         SlurmOnlyDegradation SlurmdServiceFailure SlurmControlPlaneFailure ResourceConfigurationMismatch
         StorageServiceFailure SharedStorageFailure ClientLocalStorageFailure] in Hds;
    try (injection Hds as <-); eexists;
    (split; [first [apply drawn_host_unreachable | apply drawn_path_failure | apply drawn_agent_failure
                   | apply drawn_ssh_failure | apply drawn_slurm_only | apply drawn_slurmd
                   | exact (drawn_control_plane _ _ Hds) | apply drawn_resource_mismatch
                   | apply drawn_storage_service | exact (drawn_shared_storage _ _ Hds)
                   | exact (drawn_client_local _ _ Hds)]|]).
  all: split; [by_computation|].
  all: intros t out Hin Hk;
    repeat (apply elem_of_cons in Hin as [[= -> ->]|Hin];
            [first [reflexivity | exfalso; revert Hk; by_computation]|]);
    by apply elem_of_nil in Hin.
Qed.

Lemma builtin_engine_rules : engine_rules builtin_rules = builtin.
Proof. done. Qed.

(** The built-in rules never overclaim: no diagnosis is [Confirmed], each is
    of one of twelve kinds, none of which speaks of power, names the rule that
    drew it and at least one affected entity. *)
Theorem builtin_never_overclaims (ctx : DiagnosisContext) (d : Diagnosis) :
  d ∈ diagnose builtin_rules ctx →
  confidence d ≠ Confidence_Confirmed ∧ diagnosis_type d ∈ builtin_kinds ∧
  diagnosis_rule d ∈ rule_ids builtin_rules ∧ affected_entities d ≠ [].
Proof.
  intros (r & ds & Hr & Hds & Hd)%elem_of_diagnose. rewrite builtin_engine_rules in Hr.
  destruct (builtin_cases ctx r ds Hr Hds) as (kinds & Hall & Hsub & _).
  rewrite Forall_forall in Hall. destruct (Hall d Hd) as [Hk Hi Hc Ha].
  split_and!; [done|by apply Hsub| |done]. rewrite Hi. by apply list_elem_of_fmap_2.
Qed.

(** The diagnoses of one of the service kinds come from the rule of that kind. *)
Lemma builtin_of_kind ctx d t out :
  (t, out) ∈ [(SENTINEL_AGENT_FAILURE, evaluate_agent_failure ctx);
              (SSH_SERVICE_FAILURE, evaluate_ssh_failure ctx);
              (SLURM_ONLY_DEGRADATION, evaluate_slurm_only ctx);
              (SLURMD_SERVICE_FAILURE, evaluate_slurmd ctx);
              (NFS_SERVICE_FAILURE, evaluate_storage_service ctx)] →
  d ∈ diagnose builtin_rules ctx → diagnosis_type d = t → d ∈ out.
Proof.
  intros Hin (r & ds & Hr & Hds & Hd)%elem_of_diagnose Ht. rewrite builtin_engine_rules in Hr.
  destruct (builtin_cases ctx r ds Hr Hds) as (kinds & Hall & _ & Hout).
  rewrite Forall_forall in Hall. destruct (Hall d Hd) as [Hk _ _ _].
  rewrite <-(Hout t out Hin); [done|]. by rewrite <-Ht.
Qed.

Ltac of_kind H := eapply builtin_of_kind in H; [| |eassumption]; [|by rewrite !elem_of_cons; eauto 10].

(** A service is blamed only on positive evidence that its host is up: every
    agent, SSH, Slurm node or export diagnosis concerns one active host whose
    network component is healthy, and the last three also need its agent or SSH
    to be healthy. *)
Theorem blame_needs_healthy_host (ctx : DiagnosisContext) (d : Diagnosis) :
  d ∈ diagnose builtin_rules ctx →
  (diagnosis_type d ∈ [SENTINEL_AGENT_FAILURE; SSH_SERVICE_FAILURE; SLURM_ONLY_DEGRADATION;
                       SLURMD_SERVICE_FAILURE; NFS_SERVICE_FAILURE] →
   ∃ id, affected_entities d = [id] ∧ active_host ctx id ∧
     ctx_component ctx id Component_Network = Healthy) ∧
  (diagnosis_type d ∈ [SLURM_ONLY_DEGRADATION; SLURMD_SERVICE_FAILURE; NFS_SERVICE_FAILURE] →
   ∃ id, affected_entities d = [id] ∧
     (ctx_component ctx id Component_Agent = Healthy ∨ ctx_component ctx id Component_Ssh = Healthy)).
Proof.
  intros Hd. split; intros Ht; rewrite !elem_of_cons, elem_of_nil in Ht.
  - destruct Ht as [Ht|[Ht|[Ht|[Ht|[Ht|[]]]]]]; of_kind Hd.
    + apply elem_of_agent_failure in Hd as (h & Hh & Hg & ->). exists (entity_eid h).
      split_and!; [done|by exists h|]. apply andb_true_iff in Hg as [[_ Hn]%andb_true_iff _].
      by apply ctx_is_healthy_spec.
    + apply elem_of_ssh_failure in Hd as (h & Hh & Hg & ->). exists (entity_eid h).
      split_and!; [done|by exists h|]. apply andb_true_iff in Hg as [_ Hn].
      by apply ctx_is_healthy_spec.
    + apply elem_of_slurm_only in Hd as (h & Hh & [_ Hg]%andb_true_iff & ->). exists (entity_eid h).
      apply host_looks_healthy_spec in Hg as [Hn _]. split_and!; [done|by exists h|done].
    + apply elem_of_slurmd in Hd as (h & Hh & [[_ Hg]%andb_true_iff _]%andb_true_iff & ->).
      exists (entity_eid h). apply host_looks_healthy_spec in Hg as [Hn _].
      split_and!; [done|by exists h|done].
    + apply elem_of_storage_service in Hd as (h & Hh & [_ Hg]%andb_true_iff & ->). exists (entity_eid h).
      apply host_looks_healthy_spec in Hg as [Hn _]. split_and!; [done|by exists h|done].
  - destruct Ht as [Ht|[Ht|[Ht|[]]]]; of_kind Hd.
    + apply elem_of_slurm_only in Hd as (h & Hh & [_ Hg]%andb_true_iff & ->). exists (entity_eid h).
      by apply host_looks_healthy_spec in Hg as [_ Hn].
    + apply elem_of_slurmd in Hd as (h & Hh & [[_ Hg]%andb_true_iff _]%andb_true_iff & ->).
      exists (entity_eid h). by apply host_looks_healthy_spec in Hg as [_ Hn].
    + apply elem_of_storage_service in Hd as (h & Hh & [_ Hg]%andb_true_iff & ->). exists (entity_eid h).
      by apply host_looks_healthy_spec in Hg as [_ Hn].
Qed.

(** The operator is never told two contradictory stories about one host: a
    drain and a dead [slurmd] exclude each other, so do a dead agent and a dead
    SSH, and [slurmd] is not blamed while observers disagree about reaching the
    host. *)
Theorem contradictions_excluded (ctx : DiagnosisContext) (d d' : Diagnosis) :
  d ∈ diagnose builtin_rules ctx → d' ∈ diagnose builtin_rules ctx →
  (diagnosis_type d = SLURM_ONLY_DEGRADATION → diagnosis_type d' = SLURMD_SERVICE_FAILURE →
   affected_entities d ≠ affected_entities d') ∧
  (diagnosis_type d = SENTINEL_AGENT_FAILURE → diagnosis_type d' = SSH_SERVICE_FAILURE →
   affected_entities d ≠ affected_entities d') ∧
  (diagnosis_type d = SLURMD_SERVICE_FAILURE →
   ∃ id, affected_entities d = [id] ∧
     ¬ ((∃ a, reports_failed ctx id a) ∧ (∃ b, reports_reached ctx id b))).
Proof.
  intros Hd Hd'. split_and!.
  - intros Ht Ht'. of_kind Hd. of_kind Hd'.
    apply elem_of_slurm_only in Hd as (h & _ & [[H1 H2]%andb_true_iff _]%andb_true_iff & ->).
    apply elem_of_slurmd in Hd' as (h' & _ & [[H3 _]%andb_true_iff _]%andb_true_iff & ->).
    cbn. intros [= Heq]. rewrite <-Heq, H1 in H3. apply negb_true_iff in H2. rewrite H2 in H3.
    by rewrite andb_false_r in H3.
  - intros Ht Ht'. of_kind Hd. of_kind Hd'.
    apply elem_of_agent_failure in Hd as (h & _ & [_ H1]%andb_true_iff & ->).
    apply elem_of_ssh_failure in Hd' as (h' & _ & [H2 _]%andb_true_iff & ->).
    cbn. intros [= Heq]. rewrite Heq, H2 in H1. done.
  - intros Ht. of_kind Hd.
    apply elem_of_slurmd in Hd as (h & Hh & [_ Hg]%andb_true_iff & ->). exists (entity_eid h).
    split; [done|]. intros [[a Ha%verdicts_of_spec] [b Hb%verdicts_of_spec]].
    unfold observers_disagree in Hg.
    assert (verdicts_by_target ctx !! entity_eid h = Some (verdicts_of ctx (entity_eid h))) as Hv.
    { apply verdicts_recorded. split; [by exists h|]. set_solver. }
    rewrite Hv in Hg. apply negb_true_iff in Hg.
    assert (disagree (verdicts_of ctx (entity_eid h)) = true) as Hdis by (apply disagree_spec; set_solver).
    congruence.
Qed.
End spec.

(** ** Concrete pictures *)

Section example.
#[local] Instance sample_pass : Pass := {| pass_uuid r e := as_uuid e; pass_now r e := 0%Z |}.

Definition plain_host (name : string) : ManagedEntity := managed_entity_new 0 "prod" Entity_Host name.
Definition host_id (name : string) : EntityId := entity_eid (plain_host name).
Definition observation_number (n : N) : ObservationId := {| observation_uuid := n |}.

Definition three_hosts : Inventory :=
  foldr (λ name, insert_entity (plain_host name)) inventory_new ["n1"; "n2"; "n3"].

(** n2 and n3 both fail to reach n1. *)
Definition failed_ping (n : N) (observer : string) : Observation :=
  with_observer (observation_new (observation_number n) 10 NETWORK_PROBE (host_id "n1") Probe_Timeout)
    (host_id observer).

Definition silent_host : DiagnosisContext := {|
  ctx_environment := "prod";
  ctx_inventory := three_hosts;
  ctx_states := ∅;
  ctx_observations := index_from_observations [failed_ping 1 "n2"; failed_ping 2 "n3"] |}.

(** n1 answers on the network but not over SSH, and no observation is at hand. *)
Definition known_health (h : Health) : ComponentState := component_state_new 0 h.

Definition locked_out_host : DiagnosisContext := {|
  ctx_environment := "prod";
  ctx_inventory := three_hosts;
  ctx_states := {[ host_id "n1" := set_component 0 Component_Ssh (known_health Unavailable)
                     (set_component 0 Component_Network (known_health Healthy)
                       (entity_state_unknown 0 (host_id "n1"))) ]};
  ctx_observations := observation_index_new |}.

Lemma three_hosts_ids k x : inv_entities three_hosts !! k = Some x → entity_eid x = k.
Proof.
  unfold three_hosts, insert_entity. cbn [foldr inv_entities with_entities inventory_new].
  intros H. repeat (apply lookup_insert_Some in H as [[<- <-]|[_ H]]; [done|]).
  by rewrite lookup_empty in H.
Qed.

Lemma three_hosts_graph_wf : graph_wf (inv_graph three_hosts).
Proof. split; intros x; reflexivity. Qed.

(** A diagnosis can rest on derived state alone: here SSH is blamed and the
    diagnosis lists no observation at all, although its evidence is documented
    as never empty. *)
Theorem diagnosis_without_evidence :
  map (λ d, (diagnosis_type d, diagnosis_evidence d)) (diagnose builtin_rules locked_out_host)
  = [(SSH_SERVICE_FAILURE, [])].
Proof. by_computation. Qed.
End example.

(** Over-configured CPUs on a node whose GPU counts agree are labelled a GPU
    mismatch: one mismatch and both GPU counts known is all the label asks for. *)
Theorem cpu_mismatch_labelled_gpu (gpus configured observed : N) :
  (observed < configured)%N →
  let mismatches := resource_mismatches (Some gpus) (Some gpus) (Some configured) (Some observed) in
  differ (Some gpus) (Some gpus) = false ∧
  resource_kind (Some gpus) (Some gpus) mismatches = GPU_CONFIGURATION_MISMATCH.
Proof.
  intros Hlt. unfold resource_mismatches, differ, exceeds. rewrite N.eqb_refl.
  rewrite (proj2 (N.ltb_lt _ _)) by done. done.
Qed.

Lemma cpu_mismatch_labelled_gpu_witness :
  (8 < 16)%N ∧
  resource_kind (Some 4%N) (Some 4%N)
    (resource_mismatches (Some 4%N) (Some 4%N) (Some 16%N) (Some 8%N)) = GPU_CONFIGURATION_MISMATCH.
Proof. split; [lia|]. apply (cpu_mismatch_labelled_gpu 4 16 8). lia. Defined.

Lemma host_unreachable_iff_witness :
  ctx_wf silent_host ∧
  ((∃ d, d ∈ @evaluate_host_unreachable _ _ sample_pass silent_host ∧ affected_entities d = [host_id "n1"]) ↔
   active_host silent_host (host_id "n1") ∧
   (∃ a b, a ≠ b ∧ reports_failed silent_host (host_id "n1") a ∧ reports_failed silent_host (host_id "n1") b) ∧
   (∀ o, ¬ reports_reached silent_host (host_id "n1") o)) ∧
  map affected_entities (@evaluate_host_unreachable _ _ sample_pass silent_host) = [[host_id "n1"]].
Proof.
  split; [exact three_hosts_ids|]. split; [|by_computation].
  apply (host_unreachable_iff silent_host (host_id "n1")). exact three_hosts_ids.
Defined.

Lemma path_failure_iff_witness :
  ctx_wf silent_host ∧
  ((∃ d, d ∈ @evaluate_path_failure _ _ sample_pass silent_host ∧ affected_entities d = [host_id "n1"]) ↔
   active_host silent_host (host_id "n1") ∧ (∃ a, reports_failed silent_host (host_id "n1") a) ∧
   (∃ b o, remote_report silent_host (host_id "n1") b o ∧ reached o = true ∧ connected o = true)).
Proof.
  split; [exact three_hosts_ids|].
  apply (path_failure_iff silent_host (host_id "n1")). exact three_hosts_ids.
Defined.

Lemma shared_storage_iff_witness :
  ctx_graph_wf silent_host ∧
  ∃ ds, @evaluate_shared_storage _ _ sample_pass silent_host = Some ds ∧
    ((∃ d, d ∈ ds ∧ last (affected_entities d) = Some (host_id "n1")) ↔
     (∃ e, ctx_entity silent_host (host_id "n1") = Some e ∧ entity_kind e = Entity_Storage) ∧
     ∃ a b, a ≠ b ∧ a ∈ impaired_hosts silent_host ∧ b ∈ impaired_hosts silent_host ∧
       uses_storage silent_host a (host_id "n1") ∧ uses_storage silent_host b (host_id "n1")).
Proof.
  split; [exact three_hosts_graph_wf|].
  destruct (@shared_storage_iff _ _ sample_pass silent_host (host_id "n1") three_hosts_graph_wf)
    as (ds & Hds & Hiff & _). exists ds. split; [exact Hds | exact Hiff].
Defined.

Lemma storage_rules_exclusive_witness :
  ctx_graph_wf silent_host ∧ ctx_wf silent_host ∧
  ∃ shared local, @evaluate_shared_storage _ _ sample_pass silent_host = Some shared ∧
    @evaluate_client_local _ _ sample_pass silent_host = Some local ∧
    ∀ d d' h, d ∈ shared → d' ∈ local → h ∈ affected_entities d' → h ∉ affected_entities d.
Proof.
  split; [exact three_hosts_graph_wf|]. split; [exact three_hosts_ids|].
  apply storage_rules_exclusive; [exact three_hosts_graph_wf | exact three_hosts_ids].
Defined.

Lemma silent_host_diagnosed :
  ∃ d, d ∈ @diagnose _ (@builtin_rules _ _ _ sample_pass) silent_host.
Proof.
  destruct (@diagnose _ (@builtin_rules _ _ _ sample_pass) silent_host) as [|d ds] eqn:Hd.
  - assert (length (@diagnose _ (@builtin_rules _ _ _ sample_pass) silent_host) = 1) as Hl by by_computation.
    rewrite Hd in Hl. discriminate Hl.
  - exists d. apply elem_of_cons. by left.
Qed.

Lemma locked_out_host_diagnosed :
  ∃ d, d ∈ @diagnose _ (@builtin_rules _ _ _ sample_pass) locked_out_host ∧
    diagnosis_type d = SSH_SERVICE_FAILURE.
Proof.
  destruct (@diagnose _ (@builtin_rules _ _ _ sample_pass) locked_out_host) as [|d ds] eqn:Hd.
  - assert (length (@diagnose _ (@builtin_rules _ _ _ sample_pass) locked_out_host) = 1) as Hl by by_computation.
    rewrite Hd in Hl. discriminate Hl.
  - exists d. split; [apply elem_of_cons; by left|].
    assert (diagnosis_type <$> head (@diagnose _ (@builtin_rules _ _ _ sample_pass) locked_out_host)
            = Some SSH_SERVICE_FAILURE) as Hh by by_computation.
    rewrite Hd in Hh. by injection Hh.
Qed.

Lemma builtin_never_overclaims_witness :
  ∃ d, d ∈ @diagnose _ (@builtin_rules _ _ _ sample_pass) silent_host ∧
    confidence d ≠ Confidence_Confirmed ∧ diagnosis_type d ∈ builtin_kinds.
Proof.
  destruct silent_host_diagnosed as [d Hd]. exists d. split; [done|].
  destruct (@builtin_never_overclaims _ _ _ sample_pass silent_host d Hd) as (H1 & H2 & _). done.
Defined.

Lemma blame_needs_healthy_host_witness :
  ∃ d, d ∈ @diagnose _ (@builtin_rules _ _ _ sample_pass) locked_out_host ∧
    ∃ id, affected_entities d = [id] ∧ active_host locked_out_host id ∧
      ctx_component locked_out_host id Component_Network = Healthy.
Proof.
  destruct locked_out_host_diagnosed as (d & Hd & Ht). exists d. split; [done|].
  apply (@blame_needs_healthy_host _ _ _ sample_pass locked_out_host d Hd). rewrite Ht.
  rewrite !elem_of_cons. auto.
Defined.

Lemma contradictions_excluded_witness :
  ∃ d, d ∈ @diagnose _ (@builtin_rules _ _ _ sample_pass) locked_out_host ∧
    (diagnosis_type d = SENTINEL_AGENT_FAILURE → diagnosis_type d = SSH_SERVICE_FAILURE →
     affected_entities d ≠ affected_entities d).
Proof.
  destruct locked_out_host_diagnosed as (d & Hd & Ht). exists d. split; [done|].
  apply (@contradictions_excluded _ _ _ sample_pass locked_out_host d d Hd Hd).
Defined.
