(* ===== verification/Slurm.v ===== *)
(** * What [scontrol] prints

    [src/integrations/slurm/parser.rs]: the records of [scontrol show -o], the
    state of a node with its flags, nodes, partitions and pings.  Text is
    worked on bytewise: every boundary the parser looks for is ASCII. *)

From S2P Require Export Hostlist Entity.

Local Open Scope string_scope.

(** ** Records *)

Definition underscore : ascii := "_"%char.
Definition equals : ascii := "="%char.

(** [is_key_start] and [is_key_char]. *)
Definition is_key_start (b : ascii) : bool := is_ascii_alphabetic b || bool_decide (b = underscore).
Definition is_key_char (b : ascii) : bool := is_ascii_alphanumeric b || bool_decide (b = underscore).

(** How far the inner loop of [field_boundaries] gets: the length of the run of
    key bytes. *)
Fixpoint key_length (s : string) : nat :=
  match s with
  | String b s' => if is_key_char b then S (key_length s') else 0
  | EmptyString => 0
  end.

(** The length of the key of a field that starts here, if one does. *)
Definition field_here (s : string) : option nat :=
  match s with
  | String b _ =>
      if is_key_start b then
        if decide (String.get (key_length s) s = Some equals) then Some (key_length s) else None
      else None
  | EmptyString => None
  end.

(** The loop of [field_boundaries] on what is left of the line, at the offset
    [index]: [at_start] says whether a field may start here, [skip] counts the
    bytes up to the end of the [=] of a field just found. *)
Fixpoint boundaries_from (index : nat) (at_start : bool) (skip : nat) (s : string) : list (nat * nat) :=
  match s with
  | EmptyString => []
  | String b s' =>
      match skip with
      | S k => boundaries_from (S index) false k s'
      | O =>
          match (if at_start then field_here s else None) with
          | Some n => (index, index + n)%nat :: boundaries_from (S index) false n s'
          | None => boundaries_from (S index) (is_ascii_whitespace b) 0 s'
          end
      end
  end.

(** [field_boundaries]. *)
Definition field_boundaries (line : string) : list (nat * nat) := boundaries_from 0 true 0 line.

(** [&s[a..b]]. *)
Definition slice (a b : nat) (s : string) : string := String.substring a (b - a) s.

(** The loop of [parse_record]. *)
Fixpoint record_fields (line : string) (boundaries : list (nat * nat)) (fields : gmap string string) :
    gmap string string :=
  match boundaries with
  | [] => fields
  | (start, key_end) :: rest =>
      let key := slice start key_end line in
      let value_start := S key_end in
      if String.eqb key "Reason"
      then <[ key := trim (slice value_start (String.length line) line) ]> fields
      else
        let value_end := match rest with (next, _) :: _ => next | [] => String.length line end in
        record_fields line rest (<[ key := trim (slice value_start value_end line) ]> fields)
  end.

(** [parse_record]. *)
Definition parse_record (line : string) : gmap string string :=
  record_fields line (field_boundaries line) ∅.

(** [optional]. *)
Definition optional (fields : gmap string string) (key : string) : option string :=
  v ← fields !! key;
  let v := trim v in
  if negb (is_empty v) && negb (String.eqb v "(null)") && negb (String.eqb v "N/A") && negb (String.eqb v "None")
  then Some v else None.

(** ** Node states *)

(** [NodeBaseState]. *)
Inductive NodeBaseState :=
  | Base_Idle
  | Base_Allocated
  | Base_Mixed
  | Base_Down
  | Base_Error
  | Base_Future
  | Base_Unknown
  | Base_Other (name : string).

#[export] Instance NodeBaseState_eq_dec : EqDecision NodeBaseState.
Proof. solve_decision. Defined.

(** [NodeBaseState::parse]. *)
Definition base_state_parse (value : string) : NodeBaseState :=
  let v := to_ascii_uppercase value in
  let any (names : list string) := existsb (String.eqb v) names in
  if any ["IDLE"] then Base_Idle
  else if any ["ALLOCATED"; "ALLOC"] then Base_Allocated
  else if any ["MIXED"; "MIX"] then Base_Mixed
  else if any ["DOWN"] then Base_Down
  else if any ["ERROR"; "ERR"] then Base_Error
  else if any ["FUTURE"; "FUTR"] then Base_Future
  else if any ["UNKNOWN"; "UNK"] then Base_Unknown
  else Base_Other v.

(** [NodeBaseState::is_schedulable]. *)
Definition base_is_schedulable (b : NodeBaseState) : bool :=
  match b with Base_Idle | Base_Allocated | Base_Mixed => true | _ => false end.

(** [NodeStateFlag]. *)
Inductive NodeStateFlag :=
  | Flag_Drain
  | Flag_NotResponding
  | Flag_Completing
  | Flag_Maintenance
  | Flag_PowerSave
  | Flag_PoweringUp
  | Flag_PoweringDown
  | Flag_InvalidRegistration
  | Flag_Reserved
  | Flag_Reboot
  | Flag_Planned
  | Flag_Other (name : string).

#[export] Instance NodeStateFlag_eq_dec : EqDecision NodeStateFlag.
Proof. solve_decision. Defined.

(** The order the compiler derives: by variant, then by content. *)
Definition flag_key (f : NodeStateFlag) : N * string :=
  match f with
  | Flag_Drain => (0, "") | Flag_NotResponding => (1, "") | Flag_Completing => (2, "")
  | Flag_Maintenance => (3, "") | Flag_PowerSave => (4, "") | Flag_PoweringUp => (5, "")
  | Flag_PoweringDown => (6, "") | Flag_InvalidRegistration => (7, "") | Flag_Reserved => (8, "")
  | Flag_Reboot => (9, "") | Flag_Planned => (10, "") | Flag_Other s => (11, s)
  end%N.

Definition flag_of_key (k : N * string) : NodeStateFlag :=
  match k with
  | (0, _) => Flag_Drain | (1, _) => Flag_NotResponding | (2, _) => Flag_Completing
  | (3, _) => Flag_Maintenance | (4, _) => Flag_PowerSave | (5, _) => Flag_PoweringUp
  | (6, _) => Flag_PoweringDown | (7, _) => Flag_InvalidRegistration | (8, _) => Flag_Reserved
  | (9, _) => Flag_Reboot | (10, _) => Flag_Planned | (_, s) => Flag_Other s
  end%N.

#[export] Instance flag_key_inj : Inj (=) (=) flag_key.
Proof. intros [] []; simpl; congruence. Qed.

#[export] Instance NodeStateFlag_countable : Countable NodeStateFlag.
Proof. refine (inj_countable' flag_key flag_of_key _). by intros []. Defined.

#[export] Instance NodeStateFlag_key_order : KeyOrder NodeStateFlag := key_order_inj flag_key.

(** [NodeStateFlag::parse]. *)
Definition flag_parse (value : string) : NodeStateFlag :=
  let v := to_ascii_uppercase value in
  let any (names : list string) := existsb (String.eqb v) names in
  if any ["DRAIN"; "DRAINING"; "DRAINED"; "DRNG"; "DRAIN+"] then Flag_Drain
  else if any ["NOT_RESPONDING"; "NO_RESPOND"] then Flag_NotResponding
  else if any ["COMPLETING"; "COMP"] then Flag_Completing
  else if any ["MAINTENANCE"; "MAINT"] then Flag_Maintenance
  else if any ["POWER_SAVE"; "POWERED_DOWN"; "POWER_DOWN"] then Flag_PowerSave
  else if any ["POWERING_UP"; "POWER_UP"] then Flag_PoweringUp
  else if any ["POWERING_DOWN"] then Flag_PoweringDown
  else if any ["INVALID_REG"; "INVAL"] then Flag_InvalidRegistration
  else if any ["RESERVED"; "RESV"] then Flag_Reserved
  else if any ["REBOOT"; "REBOOT_REQUESTED"; "REBOOT_ISSUED"] then Flag_Reboot
  else if any ["PLANNED"; "PLND"] then Flag_Planned
  else Flag_Other v.

(** [NodeState]. *)
Record NodeState := mk_node_state {
  node_base : NodeBaseState;
  node_flags : gset NodeStateFlag;
  node_raw_state : string
}.

#[export] Instance NodeState_eq_dec : EqDecision NodeState.
Proof. solve_decision. Defined.

Definition plus : ascii := "+"%char.

(** The flag a suffix character stands for. *)
Definition suffix_flag (last : ascii) : option NodeStateFlag :=
  if decide (last = "*"%char) then Some Flag_NotResponding
  else if decide (last = "~"%char) then Some Flag_PowerSave
  else if decide (last = "#"%char) then Some Flag_PoweringUp
  else if decide (last = "%"%char) then Some Flag_PoweringDown
  else if decide (last = "$"%char) then Some Flag_Maintenance
  else if decide (last = "@"%char) then Some Flag_Reboot
  else None.

(** The loop over the suffix, on the reversed text: the flags it collects and
    the reversed body it leaves. *)
Fixpoint strip_suffix_flags (reversed : list ascii) (flags : gset NodeStateFlag) :
    list ascii * gset NodeStateFlag :=
  match reversed with
  | last :: rest =>
      match suffix_flag last with
      | Some flag => strip_suffix_flags rest ({[ flag ]} ∪ flags)
      | None => (reversed, flags)
      end
  | [] => ([], flags)
  end.

(** [NodeState::parse]. *)
Definition node_state_parse (value : string) : NodeState :=
  let raw := trim value in
  let '(rest, flags) := strip_suffix_flags (reverse (String.list_ascii_of_string raw)) ∅ in
  let body := String.string_of_list_ascii (reverse rest) in
  match filter (λ p, p ≠ "") (split_char plus body) with
  | [] => mk_node_state Base_Unknown flags raw
  | first :: parts => mk_node_state (base_state_parse first) (list_to_set (map flag_parse parts) ∪ flags) raw
  end.

(** [NodeState::has], [is_drained], [is_not_responding], [is_schedulable]. *)
Definition node_has (s : NodeState) (flag : NodeStateFlag) : bool := bool_decide (flag ∈ node_flags s).
Definition node_is_drained (s : NodeState) : bool := node_has s Flag_Drain.
Definition node_is_not_responding (s : NodeState) : bool := node_has s Flag_NotResponding.
Definition node_is_schedulable (s : NodeState) : bool :=
  base_is_schedulable (node_base s) && negb (node_is_drained s) && negb (node_is_not_responding s).

(** ** Nodes *)

(** [SlurmNode]. *)
Record SlurmNode := mk_node {
  node_name : string;
  node_host_name : option string;
  node_addr : option string;
  node_state : NodeState;
  node_reason : option string;
  node_reason_time : option string;
  node_partitions : list string;
  node_cpu_total : option N;
  node_real_memory_mb : option N;
  node_gres : option string;
  node_cfg_tres : option string;
  node_alloc_tres : option string;
  node_boot_time : option string;
  node_fields : gmap string string
}.

(** What [SlurmNode::parse_line] makes of a record. *)
Definition node_of_fields (fields : gmap string string) : option SlurmNode :=
  name ← fields !! "NodeName";
  if is_empty name then None
  else Some {|
    node_name := name;
    node_host_name := optional fields "NodeHostName";
    node_addr := optional fields "NodeAddr";
    node_state := node_state_parse (default "UNKNOWN" (fields !! "State"));
    node_reason := r ← optional fields "Reason"; if String.eqb r "none" then None else Some r;
    node_reason_time := optional fields "ReasonTime";
    node_partitions := from_option expand [] (fields !! "Partitions");
    node_cpu_total := fields !! "CPUTot" ≫= parse_u32;
    node_real_memory_mb := fields !! "RealMemory" ≫= parse_u64;
    node_gres := optional fields "Gres";
    node_cfg_tres := optional fields "CfgTRES";
    node_alloc_tres := optional fields "AllocTRES";
    node_boot_time := optional fields "BootTime";
    node_fields := fields
  |}.

(** [SlurmNode::parse_line]. *)
Definition node_parse_line (line : string) : option SlurmNode := node_of_fields (parse_record line).

(** [SlurmNode::host_name]. *)
Definition host_name (n : SlurmNode) : string := default (node_name n) (node_host_name n).

(** [strip_parenthesised]. *)
Fixpoint strip_from (depth : nat) (s : string) : string :=
  match s with
  | EmptyString => ""
  | String ch s' =>
      if decide (ch = "("%char) then strip_from (S depth) s'
      else if decide (ch = ")"%char) then strip_from (pred depth) s'
      else match depth with
           | O => String ch (strip_from depth s')
           | S _ => strip_from depth s'
           end
  end.
Definition strip_parenthesised (value : string) : string := strip_from 0 value.

(** The count one item of [Gres] contributes, if it is about GPUs. *)
Definition gres_item_count (item : string) : option N :=
  match split_char ":"%char item with
  | "gpu" :: parts => Some (default 1 (last parts ≫= parse_u32))%N
  | _ => None
  end.

(** [u32 + u32] as an optimised build adds: modulo 2^32. *)
Definition add_u32 (x y : N) : N := ((x + y) mod (u32_max + 1))%N.

(** [SlurmNode::configured_gpu_count]: a sum beyond [u32::MAX] wraps (an
    unoptimised build panics instead). *)
Definition configured_gpu_count (n : SlurmNode) : option N :=
  gres ← node_gres n;
  if String.eqb gres "(null)" then Some 0%N
  else
    match omap gres_item_count (split_char comma_char (strip_parenthesised gres)) with
    | [] => None
    | counts => Some (foldl add_u32 0%N counts)
    end.

(** [parse_nodes]. *)
Definition parse_nodes (output : string) : list SlurmNode := omap node_parse_line (lines output).

(** ** Partitions *)

(** [SlurmPartition]. *)
Record SlurmPartition := mk_partition {
  partition_name : string;
  partition_nodes : list string;
  partition_state : option string;
  partition_is_default : bool;
  partition_fields : gmap string string
}.

(** [SlurmPartition::parse_line]. *)
Definition partition_parse_line (line : string) : option SlurmPartition :=
  let fields := parse_record line in
  name ← fields !! "PartitionName";
  if is_empty name then None
  else Some {|
    partition_name := name;
    partition_nodes := from_option expand [] (fields !! "Nodes");
    partition_state := optional fields "State";
    partition_is_default := from_option (λ d, eq_ignore_ascii_case d "YES") false (fields !! "Default");
    partition_fields := fields
  |}.

(** [parse_partitions]. *)
Definition parse_partitions (output : string) : list SlurmPartition := omap partition_parse_line (lines output).

(** ** Pings *)

(** [ControllerPing]. *)
Record ControllerPing := mk_ping { ping_host : string; ping_up : bool; ping_role : string }.

#[export] Instance ControllerPing_eq_dec : EqDecision ControllerPing.
Proof. solve_decision. Defined.

Definition slash : ascii := "/"%char.

(** The second piece of [s.split(p)], if there is one. *)
Definition second_piece (p s : string) : option string :=
  '(_, rest) ← split_once p s;
  Some (from_option fst rest (split_once p rest)).

(** The inner loop of [parse_ping]: the hosts of a line, by position. *)
Fixpoint ping_hosts (index : nat) (roles statuses hosts : list string) : list ControllerPing :=
  match hosts with
  | [] => []
  | host :: rest =>
      let host := trim host in
      let later := ping_hosts (S index) roles statuses rest in
      if is_empty host || eq_ignore_ascii_case host "(null)" then later
      else mk_ping host
             (from_option (λ s, eq_ignore_ascii_case (trim s) "UP") false (statuses !! index))
             (trim (default "unknown" (roles !! index))) :: later
  end.

(** What one line of [scontrol ping] says. *)
Definition ping_line (line : string) : list ControllerPing :=
  let line := trim line in
  if negb (starts_with "Slurmctld" line) then []
  else default [] (
    '(_, rest) ← split_once "(" line;
    '(roles, _) ← split_once ")" rest;
    after_at ← second_piece " at " line;
    '(hosts, statuses) ← match split_once " is " after_at with
                         | Some parts => Some parts
                         | None => split_once " are " after_at
                         end;
    Some (ping_hosts 0 (split_char slash roles) (split_char slash (trim statuses))
            (split_char slash (trim hosts)))).

(** [parse_ping]. *)
Definition parse_ping (output : string) : list ControllerPing := lines output ≫= ping_line.
