(* ===== verification/SlurmSpec.v ===== *)
(** * What [scontrol] prints: what the parser guarantees

    Records, nodes and states printed the way Slurm prints them are read back
    as they were; lines that are none cost nothing. *)

From S2P Require Export Slurm.

Local Open Scope string_scope.

(** ** Records *)

(** A field as Slurm prints it: a key, [=], a value. *)
Abbreviation Field := (string * string)%type (only parsing).
Definition print_field (f : Field) : string := f.1 +:+ "=" +:+ f.2.
Definition print_fields (fs : list Field) : string := str_join " " (map print_field fs).

(** A record may end in free text. *)
Definition print_record (fs : list Field) (reason : option string) : string :=
  print_fields (fs ++ match reason with Some r => [("Reason", r)] | None => [] end).

(** What reading it should give: of two fields with one key the later. *)
Definition fields_map (fs : list Field) : gmap string string :=
  foldl (λ m f, <[ f.1 := f.2 ]> m) ∅ fs.

Definition key_wf (k : string) : bool :=
  match k with String b _ => is_key_start b && all_bytes is_key_char k | EmptyString => false end.

(** No byte of the text, where a field may start, does start one. *)
Fixpoint quiet (at_start : bool) (s : string) : bool :=
  match s with
  | EmptyString => true
  | String b s' =>
      (if at_start then match field_here s with Some _ => false | None => true end else true)
      && quiet (is_ascii_whitespace b) s'
  end.

Definition value_wf (v : string) : bool := String.eqb (trim v) v && quiet false v.

Definition field_wf (f : Field) : bool :=
  key_wf f.1 && negb (String.eqb f.1 "Reason") && value_wf f.2.

(** *** The scanner *)

Lemma app_cons a s t : String a s +:+ t = String a (s +:+ t).
Proof. done. Qed.

Lemma key_length_field k s :
  all_bytes is_key_char k = true → key_length (k +:+ String equals s) = String.length k.
Proof.
  induction k as [|b k IH]; [done|]. intros [Hb Hk]%andb_true_iff. rewrite app_cons. cbn [key_length String.length].
  by rewrite Hb, IH.
Qed.

Lemma get_app_eq k a s : String.get (String.length k) (k +:+ String a s) = Some a.
Proof. induction k as [|b k IH]; [done|]. exact IH. Qed.

Lemma field_here_field k s : key_wf k = true → field_here (k +:+ String equals s) = Some (String.length k).
Proof.
  destruct k as [|b k]; [done|]. unfold key_wf. intros [Hb Hk]%andb_true_iff.
  pose proof (key_length_field _ s Hk) as Hl. pose proof (get_app_eq (String b k) equals s) as Hg.
  rewrite app_cons in *. unfold field_here. rewrite Hb, Hl. by rewrite decide_True by exact Hg.
Qed.

(** What a key stops at. *)
Definition no_key_byte (s : string) : Prop :=
  match s with String b _ => is_key_char b = false ∧ b ≠ equals | EmptyString => True end.

Lemma key_length_app v r :
  no_key_byte r → key_length (v +:+ r) = key_length v
  ∧ (String.get (key_length v) (v +:+ r) = Some equals → String.get (key_length v) v = Some equals).
Proof.
  intros Hr. induction v as [|b v [IHl IHg]].
  - destruct r as [|a r]; [done|]. destruct Hr as [Ha Hne]. change ("" +:+ String a r) with (String a r).
    cbn [key_length]. rewrite Ha. split; [done|]. intros [= ?]. congruence.
  - rewrite app_cons. cbn [key_length]. destruct (is_key_char b); [|done]. rewrite IHl. split; [done|]. exact IHg.
Qed.

Lemma field_here_app v r : v ≠ "" → no_key_byte r → field_here v = None → field_here (v +:+ r) = None.
Proof.
  intros Hv Hr. destruct v as [|b v]; [done|]. destruct (key_length_app (String b v) r Hr) as [Hl Hg].
  rewrite app_cons in *. unfold field_here. destruct (is_key_start b); [|done]. rewrite Hl.
  case_decide as H1; [done|]. intros _. rewrite decide_False; [done|]. tauto.
Qed.

Lemma boundaries_skip i p r :
  boundaries_from i false (String.length p) (p +:+ r) = boundaries_from (i + String.length p) false 0 r.
Proof.
  revert i. induction p as [|b p IH]; intros i; cbn [String.length].
  - by rewrite Nat.add_0_r.
  - rewrite app_cons. cbn [boundaries_from]. rewrite IH. f_equal. lia.
Qed.

(** A field is found where it starts. *)
Lemma boundaries_field i k s :
  key_wf k = true →
  boundaries_from i true 0 (k +:+ String equals s)
  = (i, i + String.length k)%nat :: boundaries_from (i + S (String.length k)) false 0 s.
Proof.
  intros Hk. pose proof (field_here_field k s Hk) as Hf. destruct k as [|b k]; [done|].
  rewrite app_cons in *. cbn [boundaries_from]. rewrite Hf. f_equal.
  replace (k +:+ String equals s) with ((k +:+ "=") +:+ s) by (by rewrite <- string_app_assoc).
  replace (String.length (String b k)) with (String.length (k +:+ "="))
    by (rewrite string_length_app; cbn [String.length]; lia).
  rewrite boundaries_skip. rewrite string_length_app. f_equal. cbn [String.length]. lia.
Qed.

(** A quiet value is passed over, up to the end or to the space after it. *)
Lemma boundaries_quiet i b v : quiet b v = true → boundaries_from i b 0 v = [].
Proof.
  revert i b. induction v as [|a v IH]; intros i b; [done|]. cbn [quiet boundaries_from].
  intros [Ha Hv]%andb_true_iff. destruct b; [destruct (field_here (String a v)); [done|]|]; by apply IH.
Qed.

Lemma boundaries_quiet_space i b v r :
  quiet b v = true →
  boundaries_from i b 0 (v +:+ String " " r) = boundaries_from (i + S (String.length v)) true 0 r.
Proof.
  revert i b. induction v as [|a v IH]; intros i b.
  - intros _. change ("" +:+ String " " r) with (String " " r). cbn [boundaries_from field_here String.length].
    replace (i + 1)%nat with (S i) by lia. by destruct b.
  - cbn [quiet]. intros [Ha Hv]%andb_true_iff. rewrite app_cons. cbn [boundaries_from].
    assert ((if b then field_here (String a (v +:+ String " " r)) else None) = None) as ->.
    { destruct b; [|done]. destruct (field_here (String a v)) eqn:Hf; [done|].
      by apply (field_here_app (String a v) (String " " r)). }
    rewrite IH by done. f_equal. cbn [String.length]. lia.
Qed.

(** *** Slices *)

Lemma substring_app p v s :
  String.substring (String.length p) (String.length v) (p +:+ v +:+ s) = v.
Proof.
  induction p as [|a p IH]; [|exact IH]. cbn [String.length].
  induction v as [|a v IH]; [by destruct s|]. change ("" +:+ (String a v +:+ s)) with (String a (v +:+ s)).
  cbn [String.length String.substring]. f_equal. exact IH.
Qed.

Lemma slice_app p v s a b :
  a = String.length p → b = (a + String.length v)%nat → slice a b (p +:+ v +:+ s) = v.
Proof.
  intros -> ->. unfold slice. replace (_ + String.length v - _)%nat with (String.length v) by lia.
  apply substring_app.
Qed.

(** A free text after the last field is taken whole. *)
Lemma record_reason p r bs m :
  let line := p +:+ print_field ("Reason", r) in
  record_fields line ((String.length p, String.length p + 6)%nat :: bs) m = <[ "Reason" := trim r ]> m.
Proof.
  intros line. cbn [record_fields].
  assert (slice (String.length p) (String.length p + 6) line = "Reason") as ->.
  { unfold line, print_field. cbn [fst snd]. by apply slice_app. }
  cbn [String.eqb Ascii.eqb Bool.eqb]. do 2 f_equal.
  assert (line = (p +:+ "Reason=") +:+ r +:+ "") as ->.
  { unfold line, print_field. cbn [fst snd]. by rewrite string_app_nil_r, <- !string_app_assoc. }
  apply slice_app; rewrite !string_length_app; cbn [String.length]; lia.
Qed.

(** One field read, and the rest of the record after it. *)
Lemma record_field p k v s start next rest bs m :
  k ≠ "Reason" → value_wf v = true → start = String.length p →
  (s = "" ∧ bs = [] ∨ s = String " " rest ∧ ∃ e bs', next = (start + String.length k + String.length v + 2)%nat
     ∧ bs = (next, e) :: bs') →
  let line := p +:+ print_field (k, v) +:+ s in
  record_fields line ((start, start + String.length k)%nat :: bs) m = record_fields line bs (<[ k := v ]> m).
Proof.
  intros Hk [Hv%String.eqb_eq _]%andb_true_iff -> Hs line. cbn [record_fields].
  assert (slice (String.length p) (String.length p + String.length k) line = k) as ->.
  { unfold line, print_field. cbn [fst snd]. rewrite <- string_app_assoc. by apply slice_app. }
  destruct (String.eqb_spec k "Reason"); [done|]. do 2 f_equal.
  destruct Hs as [[-> ->]|(-> & e & bs' & -> & ->)].
  - assert (line = (p +:+ k +:+ "=") +:+ v +:+ "") as ->.
    { unfold line, print_field. cbn [fst snd]. by rewrite !string_app_nil_r, <- !string_app_assoc. }
    rewrite slice_app; [exact Hv|..]; rewrite !string_length_app; cbn [String.length]; lia.
  - assert (line = (p +:+ k +:+ "=") +:+ (v +:+ " ") +:+ rest) as ->.
    { unfold line, print_field. cbn [fst snd]. rewrite <- !string_app_assoc. done. }
    rewrite slice_app; [by rewrite trim_space|..]; rewrite !string_length_app; cbn [String.length]; lia.
Qed.

Lemma print_fields_cons k v fs :
  print_fields ((k, v) :: fs)
  = k +:+ String equals (v +:+ match fs with [] => "" | _ => String " " (print_fields fs) end).
Proof.
  unfold print_fields. destruct fs as [|f fs]; cbn [map str_join print_field fst snd].
  - by rewrite string_app_nil_r.
  - unfold print_field at 1. cbn [fst snd]. rewrite <- !string_app_assoc. done.
Qed.

Lemma boundaries_print i k v fs :
  key_wf k = true →
  boundaries_from i true 0 (print_fields ((k, v) :: fs))
  = (i, i + String.length k)%nat
    :: boundaries_from (i + S (String.length k)) false 0
         (v +:+ match fs with [] => "" | _ => String " " (print_fields fs) end).
Proof. intros Hk. rewrite print_fields_cons. by apply boundaries_field. Qed.

(** The loop over the boundaries of a printed record, from its offset in the
    line. *)
Lemma record_fields_print p fs reason m :
  forallb field_wf fs = true → (∀ r, reason = Some r → trim r = r) →
  record_fields (p +:+ print_record fs reason)
    (boundaries_from (String.length p) true 0 (print_record fs reason)) m
  = foldl (λ m f, <[ f.1 := f.2 ]> m) m (fs ++ match reason with Some r => [("Reason", r)] | None => [] end).
Proof.
  intros Hfs Hr. unfold print_record. set (last := match reason with Some r => _ | None => _ end).
  revert p m. induction fs as [|[k v] fs IH]; intros p m.
  - destruct reason as [r|]; [|done]. unfold last. cbn [app]. rewrite boundaries_print by done.
    unfold print_fields. cbn [map str_join]. rewrite record_reason, Hr by done. done.
  - apply andb_true_iff in Hfs as [Hf Hfs]. specialize (IH Hfs).
    unfold field_wf in Hf. cbn [fst snd] in Hf. rewrite !andb_true_iff, negb_true_iff in Hf.
    destruct Hf as [[Hk Hne%String.eqb_neq] Hv]. pose proof Hv as [_ Hq]%andb_true_iff.
    cbn [app foldl fst snd]. rewrite boundaries_print by done.
    destruct (fs ++ last)%list as [|[k' v'] rest] eqn:Hrest.
    + rewrite string_app_nil_r, boundaries_quiet by done. unfold print_fields. cbn [map str_join].
      rewrite <- (string_app_nil_r (print_field (k, v))).
      rewrite (record_field p k v "" _ 0 ""); [done|done|done|done|by left].
    + assert (key_wf k' = true) as Hk'.
      { destruct fs as [|f' fs].
        - unfold last in Hrest. destruct reason; [|done]. by injection Hrest as <- _ _.
        - injection Hrest as -> _. apply andb_true_iff in Hfs as [Hf' _]. unfold field_wf in Hf'.
          cbn [fst] in Hf'. rewrite !andb_true_iff in Hf'. tauto. }
      rewrite boundaries_quiet_space by done. set (text := print_fields ((k', v') :: rest)) in *.
      assert (p +:+ print_fields ((k, v) :: (k', v') :: rest)
              = p +:+ print_field (k, v) +:+ String " " text) as ->.
      { unfold text. rewrite print_fields_cons. unfold print_field. cbn [fst snd].
        by rewrite <- !string_app_assoc. }
      rewrite (record_field p k v (String " " text) _ (String.length p + String.length k + String.length v + 2) text);
        [|done..|].
      * assert (p +:+ print_field (k, v) +:+ String " " text = (p +:+ print_field (k, v) +:+ " ") +:+ text) as ->
          by (rewrite <- !string_app_assoc; done).
        replace (String.length p + S (String.length k) + S (String.length v))%nat
          with (String.length (p +:+ print_field (k, v) +:+ " ")).
        { apply IH. }
        unfold print_field. cbn [fst snd]. rewrite !string_length_app. cbn [String.length]. lia.
      * right. split; [done|]. unfold text. rewrite boundaries_print by done. do 2 eexists. split; [done|].
        replace (String.length p + S (String.length k) + S (String.length v))%nat
          with (String.length p + String.length k + String.length v + 2)%nat by lia. done.
Qed.

Lemma parse_record_print fs reason :
  forallb field_wf fs = true → (∀ r, reason = Some r → trim r = r) →
  parse_record (print_record fs reason)
  = fields_map (fs ++ match reason with Some r => [("Reason", r)] | None => [] end).
Proof. intros Hfs Hr. exact (record_fields_print "" fs reason ∅ Hfs Hr). Qed.

(** ** Lines *)

Definition line_feed : ascii := "010"%char.
Definition carriage_return : string := String "013"%char "".

(** Lines as a program prints them, each with its line feed. *)
Fixpoint print_lines (ls : list string) : string :=
  match ls with
  | [] => ""
  | l :: rest => l +:+ String line_feed (print_lines rest)
  end.

(** A text that is one line. *)
Definition line_ok (l : string) : bool :=
  bool_decide (count_char line_feed l = 0%nat) && negb (ends_with carriage_return l).

Lemma split_print_lines ls :
  Forall (λ l, line_ok l = true) ls → split_char line_feed (print_lines ls) = (ls ++ [""])%list.
Proof.
  induction 1 as [|l ls [Hl _]%andb_true_iff _ IH]; [done|]. cbn [print_lines].
  rewrite (split_char_app line_feed l _ l) by (apply split_char_free; by apply bool_decide_eq_true in Hl).
  by rewrite IH.
Qed.

Lemma lines_print_lines ls : Forall (λ l, line_ok l = true) ls → lines (print_lines ls) = ls.
Proof.
  intros Hls. unfold lines. rewrite split_print_lines by done. unfold drop_last_empty.
  rewrite reverse_snoc, reverse_involutive. rewrite <- (map_id ls) at 2. apply map_ext_in.
  intros l Hl%list_elem_of_In. rewrite Forall_forall in Hls. apply Hls in Hl as [_ Hl]%andb_true_iff.
  unfold chomp_cr. apply negb_true_iff in Hl. unfold carriage_return in Hl. by rewrite Hl.
Qed.

(** A line of output: a record, or a text in which no field starts. *)
Inductive row := Row (fs : list Field) (reason : option string) | Noise (text : string).

Definition print_row (r : row) : string :=
  match r with Row fs reason => print_record fs reason | Noise text => text end.

Definition row_fields (r : row) : gmap string string :=
  match r with
  | Row fs reason => fields_map (fs ++ match reason with Some r => [("Reason", r)] | None => [] end)
  | Noise _ => ∅
  end.

Definition row_wf (r : row) : bool :=
  line_ok (print_row r) &&
  match r with
  | Row fs reason => forallb field_wf fs && match reason with Some r => String.eqb (trim r) r | None => true end
  | Noise text => quiet true text
  end.

Lemma parse_record_row r : row_wf r = true → parse_record (print_row r) = row_fields r.
Proof.
  unfold row_wf. intros [_ Hr]%andb_true_iff. destruct r as [fs reason|text]; cbn [print_row row_fields].
  - apply andb_true_iff in Hr as [Hfs Hr]. apply parse_record_print; [done|].
    intros r ->. by apply String.eqb_eq.
  - unfold parse_record, field_boundaries. by rewrite boundaries_quiet.
Qed.

Lemma omap_map_ext {A B C} (f : B → option C) (g : A → B) (h : A → option C) l :
  (∀ x, x ∈ l → f (g x) = h x) → omap f (map g l) = omap h l.
Proof.
  induction l as [|x l IH]; intros Hfg; [done|]. cbn [map omap list_omap].
  rewrite (Hfg x) by (by left). rewrite IH; [done|]. intros y Hy. apply Hfg. by right.
Qed.

Lemma lines_print_rows rows :
  Forall (λ r, row_wf r = true) rows → lines (print_lines (map print_row rows)) = map print_row rows.
Proof.
  intros Hrows. apply lines_print_lines, Forall_map. eapply Forall_impl; [exact Hrows|].
  intros r Hr. unfold row_wf in Hr. apply andb_true_iff in Hr. tauto.
Qed.

(** ** Node states *)

(** A state as Slurm prints it: a base word, further words and flag characters. *)
Record printed_state := mk_printed { base_word : string; flag_words : list string; suffix : list ascii }.

Definition print_state (p : printed_state) : string :=
  str_join "+" (base_word p :: flag_words p) +:+ String.string_of_list_ascii (suffix p).

(** A byte of a word: printable, neither [+] nor a flag character. *)
Definition word_byte (a : ascii) : bool :=
  graphic a && negb (bool_decide (a = plus)) && match suffix_flag a with Some _ => false | None => true end.

Definition word_wf (w : string) : bool := negb (is_empty w) && all_bytes word_byte w.

Definition printed_wf (p : printed_state) : bool :=
  word_wf (base_word p) && forallb word_wf (flag_words p)
  && forallb (λ a, match suffix_flag a with Some _ => true | None => false end) (suffix p).

(** What it says. *)
Definition printed_flags (p : printed_state) : gset NodeStateFlag :=
  list_to_set (map flag_parse (flag_words p)) ∪ list_to_set (omap suffix_flag (suffix p)).

Lemma strip_suffix_flags_spec l r F :
  forallb (λ a, match suffix_flag a with Some _ => true | None => false end) l = true →
  strip_suffix_flags (l ++ r)%list F = strip_suffix_flags r (list_to_set (omap suffix_flag l) ∪ F).
Proof.
  revert F. induction l as [|a l IH]; intros F; cbn [forallb app strip_suffix_flags omap list_omap].
  - intros _. f_equal. set_solver.
  - intros [Ha Hl]%andb_true_iff. destruct (suffix_flag a) as [f|]; [|done]. rewrite IH by done.
    f_equal. cbn [list_to_set]. set_solver.
Qed.

Lemma list_ascii_app s t :
  String.list_ascii_of_string (s +:+ t) = (String.list_ascii_of_string s ++ String.list_ascii_of_string t)%list.
Proof. induction s as [|a s IH]; [done|]. rewrite app_cons. cbn. by rewrite IH. Qed.

Lemma all_bytes_list p s : all_bytes p s = true ↔ Forall (λ a, p a = true) (String.list_ascii_of_string s).
Proof.
  induction s as [|a s IH]; cbn [all_bytes String.list_ascii_of_string]; [by split|].
  rewrite andb_true_iff, Forall_cons. tauto.
Qed.

Lemma suffix_graphic a f : suffix_flag a = Some f → graphic a = true.
Proof. unfold suffix_flag. repeat (case_decide; [by subst|]). done. Qed.

Lemma word_byte_graphic a : word_byte a = true → graphic a = true.
Proof. unfold word_byte. rewrite !andb_true_iff. tauto. Qed.

Lemma word_byte_no_flag a : word_byte a = true → suffix_flag a = None.
Proof. unfold word_byte. destruct (suffix_flag a); [by rewrite andb_false_r|done]. Qed.

Lemma word_absent w : word_wf w = true → split_char plus w = [w] ∧ w ≠ "".
Proof.
  unfold word_wf. intros [Hne Hw]%andb_true_iff. split.
  - apply split_char_free, (count_char_excluded _ word_byte); [done|exact Hw].
  - by destruct w.
Qed.

Lemma all_bytes_str_join p sep l :
  all_bytes p sep = true → Forall (λ s, all_bytes p s = true) l → all_bytes p (str_join sep l) = true.
Proof.
  intros Hsep. induction 1 as [|s l Hs Hl IH]; [done|]. destruct l as [|s' l]; [done|].
  rewrite str_join_cons by done. by rewrite !all_bytes_app, Hs, Hsep, IH.
Qed.

Lemma printed_graphic p : printed_wf p = true → trim (print_state p) = print_state p.
Proof.
  unfold printed_wf. rewrite !andb_true_iff, !forallb_forall. intros [[Hb Hf] Hs].
  apply trim_graphic. unfold print_state. rewrite all_bytes_app. apply andb_true_iff. split.
  - apply all_bytes_str_join; [done|]. apply Forall_forall. intros w Hw%list_elem_of_In.
    assert (word_wf w = true) as [_ Hw']%andb_true_iff by (destruct Hw as [<-|Hw]; auto).
    by apply (all_bytes_impl word_byte); [apply word_byte_graphic|].
  - apply all_bytes_list. rewrite String.list_ascii_of_string_of_list_ascii. apply Forall_forall.
    intros a Ha%list_elem_of_In%Hs. destruct (suffix_flag a) eqn:Hfa; [|done]. by apply suffix_graphic in Hfa.
Qed.

(** A body ends in a byte of a word. *)
Lemma words_end l :
  l ≠ [] → Forall (λ w, word_wf w = true) l →
  ∃ a r, reverse (String.list_ascii_of_string (str_join "+" l)) = a :: r ∧ suffix_flag a = None.
Proof.
  intros Hne Hl. assert (Forall (λ a, suffix_flag a = None) (option_list (last (String.list_ascii_of_string (str_join "+" l))))
    ∧ str_join "+" l ≠ "") as [Hlast Hnn].
  { induction Hl as [|w l Hw Hl IH]; [done|].
    assert (w ≠ "" ∧ Forall (λ a, suffix_flag a = None) (option_list (last (String.list_ascii_of_string w)))) as [Hwn Hwl].
    { apply andb_true_iff in Hw as [Hwn Hw]. split; [by destruct w|]. apply all_bytes_list in Hw.
      destruct (last (String.list_ascii_of_string w)) as [a|] eqn:Ha; [|constructor]. apply last_Some_elem_of in Ha.
      rewrite Forall_forall in Hw. apply Hw in Ha. apply Forall_singleton. by apply word_byte_no_flag. }
    destruct l as [|w' l]; [done|]. rewrite str_join_cons by done. destruct IH as [IH IHn]; [done|].
    split; [|by destruct w]. rewrite !list_ascii_app, !last_app.
    destruct (last (String.list_ascii_of_string (str_join "+" (w' :: l)))) eqn:Hj; [done|].
    apply last_None in Hj. by destruct (str_join "+" (w' :: l)). }
  destruct (reverse (String.list_ascii_of_string (str_join "+" l))) as [|a r] eqn:Hr.
  - exfalso. apply (f_equal length) in Hr. rewrite length_reverse in Hr. by destruct (str_join "+" l).
  - exists a, r. split; [done|]. apply (f_equal reverse) in Hr. rewrite reverse_involutive, reverse_cons in Hr.
    rewrite Hr, last_snoc in Hlast. by inversion Hlast.
Qed.

Lemma node_state_parse_print p :
  printed_wf p = true →
  node_state_parse (print_state p) = mk_node_state (base_state_parse (base_word p)) (printed_flags p) (print_state p).
Proof.
  intros Hp. unfold node_state_parse. rewrite printed_graphic by done.
  unfold printed_wf in Hp. rewrite !andb_true_iff in Hp. destruct Hp as [[Hb Hf] Hs].
  assert (Forall (λ w, word_wf w = true) (base_word p :: flag_words p)) as Hw.
  { constructor; [done|]. apply Forall_forall. intros w Hw%list_elem_of_In. rewrite forallb_forall in Hf. auto. }
  destruct (words_end (base_word p :: flag_words p)) as (a & r & Hr & Ha); [done|done|].
  unfold print_state. rewrite list_ascii_app, String.list_ascii_of_string_of_list_ascii, reverse_app.
  rewrite strip_suffix_flags_spec.
  2:{ apply forallb_forall. intros x Hx%list_elem_of_In. rewrite elem_of_reverse in Hx.
      rewrite forallb_forall in Hs. by apply Hs, list_elem_of_In. }
  rewrite Hr. cbn [strip_suffix_flags]. rewrite Ha. rewrite <- Hr, reverse_involutive, String.string_of_list_ascii_of_string.
  rewrite (split_char_join plus) by (done || (eapply Forall_impl; [exact Hw|]; intros w Hww; by apply word_absent)).
  rewrite filter_all by (intros w Hin; rewrite Forall_forall in Hw; by apply word_absent, Hw).
  f_equal. unfold printed_flags. apply set_eq. intros f. rewrite !elem_of_union, !elem_of_list_to_set, elem_of_empty.
  assert (f ∈ omap suffix_flag (reverse (suffix p)) ↔ f ∈ omap suffix_flag (suffix p)) as ->; [|tauto].
  rewrite !list_elem_of_omap. by setoid_rewrite elem_of_reverse.
Qed.

(** ** Resources *)

(** An item of [Gres] as Slurm prints it: a name, a model, a count and an
    annotation in parentheses. *)
Record gres_item := mk_gres {
  gres_name : string; gres_model : option string; gres_count : option N; gres_note : option string
}.

Definition print_gres_body (g : gres_item) : string :=
  str_join ":" (gres_name g :: option_list (gres_model g) ++ option_list (show_N <$> gres_count g)).

Definition print_gres_item (g : gres_item) : string :=
  print_gres_body g +:+ match gres_note g with Some n => "(" +:+ n +:+ ")" | None => "" end.

Definition print_gres (gs : list gres_item) : string := str_join "," (map print_gres_item gs).

(** A byte of a name or a model. *)
Definition gres_byte (a : ascii) : bool := is_ascii_alphanumeric a || bool_decide (a ∈ ["_"; "-"; "."]%char).

Definition gres_word (w : string) : bool := all_bytes gres_byte w.

Definition note_byte (a : ascii) : bool := negb (bool_decide (a ∈ ["("; ")"]%char)).

(** A model without a count must not read as a number. *)
Definition gres_wf (g : gres_item) : bool :=
  gres_word (gres_name g) && from_option gres_word true (gres_model g)
  && from_option (λ n, n <=? u32_max)%N true (gres_count g)
  && from_option (all_bytes note_byte) true (gres_note g)
  && match gres_model g, gres_count g with
     | Some m, None => match parse_u32 m with Some _ => false | None => true end
     | _, _ => true
     end.

(** The GPUs it stands for. *)
Definition gres_gpus (g : gres_item) : option N :=
  if String.eqb (gres_name g) "gpu" then Some (default 1%N (gres_count g)) else None.

Lemma strip_free p s t :
  (∀ a, p a = true → note_byte a = true) → all_bytes p s = true → strip_from 0 (s +:+ t) = s +:+ strip_from 0 t.
Proof.
  intros Hp. induction s as [|a s IH]; [done|]. intros [Ha%Hp Hs]%andb_true_iff. rewrite !app_cons. cbn [strip_from].
  unfold note_byte in Ha. rewrite negb_true_iff, bool_decide_eq_false, !not_elem_of_cons in Ha.
  rewrite !decide_False by tauto. by rewrite IH.
Qed.

Lemma strip_note n t : all_bytes note_byte n = true → strip_from 1 (n +:+ String ")" t) = strip_from 0 t.
Proof.
  induction n as [|a n IH]; [done|]. intros [Ha Hn]%andb_true_iff. rewrite app_cons. cbn [strip_from].
  unfold note_byte in Ha. rewrite negb_true_iff, bool_decide_eq_false, !not_elem_of_cons in Ha.
  rewrite !decide_False by tauto. by apply IH.
Qed.

Lemma show_N_digits_byte n : all_bytes gres_byte (show_N n) = true.
Proof.
  apply (all_bytes_impl is_ascii_digit); [|apply all_digits_show_N].
  intros a Ha. unfold gres_byte, is_ascii_alphanumeric. rewrite Ha. by rewrite orb_true_r.
Qed.

(** The pieces of a body hold no separator. *)
Lemma gres_pieces g :
  gres_wf g = true →
  Forall (λ w, all_bytes gres_byte w = true) (gres_name g :: option_list (gres_model g) ++ option_list (show_N <$> gres_count g)).
Proof.
  unfold gres_wf. rewrite !andb_true_iff. intros [[[[Hn Hm] _] _] _]. constructor; [done|]. apply Forall_app. split.
  - destruct (gres_model g); [by apply Forall_singleton|constructor].
  - destruct (gres_count g); [apply Forall_singleton, show_N_digits_byte|constructor].
Qed.

Definition body_byte (a : ascii) : bool := gres_byte a || bool_decide (a = ":"%char).

Lemma gres_byte_free a : body_byte a = true → note_byte a = true ∧ a ≠ comma_char.
Proof.
  unfold body_byte, gres_byte, note_byte, is_ascii_alphanumeric, is_ascii_alphabetic, is_ascii_uppercase,
    is_ascii_lowercase, is_ascii_digit.
  rewrite !orb_true_iff, !byte_in_spec, !bool_decide_eq_true, negb_true_iff, bool_decide_eq_false.
  intros H. split.
  - rewrite !elem_of_cons, elem_of_nil. intros [->|[->|[]]]; revert H; rewrite !elem_of_cons, elem_of_nil; vm_compute;
      naive_solver.
  - intros ->. revert H. rewrite !elem_of_cons, elem_of_nil. vm_compute. naive_solver.
Qed.

Lemma print_gres_body_bytes g : gres_wf g = true → all_bytes body_byte (print_gres_body g) = true.
Proof.
  intros Hg. apply all_bytes_str_join; [done|]. eapply Forall_impl; [by apply gres_pieces|].
  intros w. apply all_bytes_impl. intros a Ha. unfold body_byte. by rewrite Ha.
Qed.

Lemma strip_item g t : gres_wf g = true → strip_from 0 (print_gres_item g +:+ t) = print_gres_body g +:+ strip_from 0 t.
Proof.
  intros Hg. unfold print_gres_item. rewrite <- string_app_assoc.
  rewrite (strip_free body_byte) by (by apply print_gres_body_bytes || (intros a Ha; by apply gres_byte_free)). f_equal.
  destruct (gres_note g) as [n|] eqn:Hnote; [|done].
  assert (("(" +:+ n +:+ ")") +:+ t = String "(" (n +:+ String ")" t)) as -> by (by rewrite <- !string_app_assoc).
  cbn [strip_from]. rewrite decide_True by done. apply strip_note.
  unfold gres_wf in Hg. rewrite Hnote, !andb_true_iff in Hg. tauto.
Qed.

Lemma strip_print_gres gs :
  Forall (λ g, gres_wf g = true) gs → strip_parenthesised (print_gres gs) = str_join "," (map print_gres_body gs).
Proof.
  unfold strip_parenthesised, print_gres. induction 1 as [|g gs Hg Hgs IH]; [done|].
  destruct gs as [|g' gs]; cbn [map].
  - cbn [str_join]. rewrite <- (string_app_nil_r (print_gres_item g)), strip_item by done. apply string_app_nil_r.
  - rewrite (str_join_cons "," (print_gres_item g)), (str_join_cons "," (print_gres_body g)) by done.
    rewrite strip_item by done. f_equal. cbn [map] in IH. rewrite <- IH. done.
Qed.

Lemma gres_item_count_print g : gres_wf g = true → gres_item_count (print_gres_body g) = gres_gpus g.
Proof.
  intros Hg. unfold gres_item_count, print_gres_body, gres_gpus. rewrite (split_char_join ":"%char); [|done|].
  2:{ eapply Forall_impl; [by apply gres_pieces|]. intros w Hw. apply split_char_free.
      by apply (count_char_excluded _ gres_byte). }
  destruct (String.eqb_spec (gres_name g) "gpu") as [->|Hne].
  - f_equal. unfold gres_wf in Hg. rewrite !andb_true_iff in Hg. destruct Hg as [[[_ Hc] _] Hm].
    destruct (gres_count g) as [n|]; cbn [fmap option_fmap option_map option_list from_option default] in *.
    + apply N.leb_le in Hc. change (option_list (Some (show_N n))) with [show_N n]. rewrite last_snoc.
      cbn [mbind option_bind]. unfold parse_u32. by rewrite parse_uint_show.
    + rewrite app_nil_r. destruct (gres_model g) as [m|]; [|done]. cbn. by destruct (parse_u32 m).
  - destruct (gres_name g) as [|a s] eqn:Hn; [done|].
    repeat (match goal with |- context [match ?x with _ => _ end] => destruct x; try done end).
Qed.

(** The sum of an optimised build: exact modulo 2^32, so exact while it fits. *)
Lemma foldl_add_u32 l acc :
  (acc ≤ u32_max)%N → foldl add_u32 acc l = ((acc + foldr N.add 0 l) mod (u32_max + 1))%N.
Proof.
  revert acc. induction l as [|n l IH]; intros acc Hacc; cbn [foldl foldr].
  - rewrite N.add_0_r, N.mod_small by (unfold u32_max in *; lia). done.
  - rewrite IH.
    + unfold add_u32. rewrite N.Div0.add_mod_idemp_l. f_equal. lia.
    + unfold add_u32. pose proof (N.mod_lt (acc + n) (u32_max + 1)). unfold u32_max in *. lia.
Qed.

Lemma split_print_gres gs :
  gs ≠ [] → Forall (λ g, gres_wf g = true) gs →
  split_char comma_char (strip_parenthesised (print_gres gs)) = map print_gres_body gs.
Proof.
  intros Hne Hgs. rewrite strip_print_gres by done. apply (split_char_join comma_char); [by destruct gs|].
  apply Forall_map. eapply Forall_impl; [exact Hgs|]. intros g Hg. apply split_char_free.
  apply (count_char_excluded _ (λ a, body_byte a && negb (bool_decide (a = comma_char))));
    [by rewrite bool_decide_eq_true_2, andb_false_r|].
  apply (all_bytes_impl body_byte); [|by apply print_gres_body_bytes].
  intros a Ha. rewrite Ha, bool_decide_eq_false_2; [done|]. by apply gres_byte_free.
Qed.

(** ** Properties *)

(** The output of [scontrol show nodes -o] is read back exactly: of any
    sequence of lines, each printed from a record of fields with an optional
    free-text reason at its end or holding no field at all, the nodes parsed
    are those of the records that name one, in order, each with every field
    of its record, known to the program or not, and the lines that are no
    records cost nothing. *)
Theorem parse_nodes_print rows :
  Forall (λ r, row_wf r = true) rows →
  parse_nodes (print_lines (map print_row rows)) = omap (λ r, node_of_fields (row_fields r)) rows
  ∧ ∀ n, n ∈ parse_nodes (print_lines (map print_row rows)) →
      ∃ r, r ∈ rows ∧ node_fields n = row_fields r ∧ row_fields r !! "NodeName" = Some (node_name n).
Proof.
  intros Hrows.
  assert (parse_nodes (print_lines (map print_row rows)) = omap (λ r, node_of_fields (row_fields r)) rows) as Heq.
  { unfold parse_nodes. rewrite lines_print_rows by done. apply omap_map_ext. intros r Hr.
    rewrite Forall_forall in Hrows. unfold node_parse_line. by rewrite parse_record_row by auto. }
  split; [done|]. intros n. rewrite Heq. intros (r & Hr & Hn)%list_elem_of_omap. exists r. split; [done|].
  unfold node_of_fields in Hn. destruct (row_fields r !! "NodeName") as [name|] eqn:Hname; cbn in Hn; [|done].
  destruct (is_empty name); [done|]. by injection Hn as <-.
Qed.

(** A [State=] value reads back whatever words and flag characters it is
    made of: the first word is the base state, every other word and every
    flag character is a flag, and the text is kept. *)
Theorem node_state_roundtrip p :
  printed_wf p = true →
  node_state_parse (print_state p)
  = mk_node_state (base_state_parse (base_word p)) (printed_flags p) (print_state p).
Proof. apply node_state_parse_print. Qed.

(** The GPUs a node is configured with are the counts of the [gpu] items
    of its [Gres], one where an item states none, whatever models and index
    annotations surround them; their sum is exact modulo 2^32 and so exact
    as long as it fits a [u32], and a node without such an item says nothing. *)
Theorem configured_gpu_count_print n gs :
  gs ≠ [] → Forall (λ g, gres_wf g = true) gs → node_gres n = Some (print_gres gs) →
  print_gres gs ≠ "(null)" →
  configured_gpu_count n
  = (if decide (omap gres_gpus gs = []) then None
     else Some (foldr N.add 0 (omap gres_gpus gs) mod (u32_max + 1)))%N.
Proof.
  intros Hne Hgs Hn Hnull. unfold configured_gpu_count. rewrite Hn. cbn.
  destruct (String.eqb_spec (print_gres gs) "(null)"); [done|].
  rewrite split_print_gres by done.
  rewrite (omap_map_ext gres_item_count print_gres_body gres_gpus).
  2:{ intros g Hg. rewrite Forall_forall in Hgs. by apply gres_item_count_print, Hgs. }
  destruct (omap gres_gpus gs) as [|c cs]; [by rewrite decide_True|]. rewrite decide_False by done.
  change (foldl add_u32 (add_u32 0 c) cs) with (foldl add_u32 0%N (c :: cs)).
  rewrite foldl_add_u32 by done. by rewrite N.add_0_l.
Qed.

(** Counts that do not fit wrap around. *)
Lemma gpu_count_wraps :
  configured_gpu_count <$> node_parse_line "NodeName=n1 State=IDLE Gres=gpu:4294967295,gpu:2" = Some (Some 1%N).
Proof. by vm_compute. Qed.

(** A state or a flag the program does not know is kept in upper case, not as
    it was written. *)
Lemma unknown_state_upper_cased :
  node_base (node_state_parse "Some_New_State") = Base_Other "SOME_NEW_STATE".
Proof. by vm_compute. Qed.

(** No word between plus signs is ["DRAIN+"]: that name of the flag is never
    met. *)
Lemma drain_plus_unreachable s w : w ∈ split_char plus s → to_ascii_uppercase w ≠ "DRAIN+".
Proof.
  assert (∀ c s, Forall (λ w, count_char c w = 0%nat) (split_char c s)) as Hfree.
  { intros c. clear. induction s as [|a s IH]; cbn [split_char]; [by repeat constructor|].
    case_decide as Ha; [by constructor|]. destruct (split_char c s) as [|v vs].
    { apply Forall_singleton. cbn [count_char]. by rewrite decide_False. }
    inversion IH as [|? ? Hv Hvs]; subst. constructor; [|done]. cbn [count_char]. by rewrite decide_False. }
  intros Hw Hup. specialize (Hfree plus s). rewrite Forall_forall in Hfree. apply Hfree in Hw.
  assert (∀ a, a ≠ plus → to_upper a ≠ plus) as Hkeep.
  { intros a Ha. unfold to_upper, is_ascii_lowercase. destruct (byte_in 97 122 a) eqn:Hl; [|done].
    apply byte_in_spec in Hl. intros He. apply (f_equal N_of_ascii) in He. rewrite N_ascii_embedding in He by lia.
    change (N_of_ascii plus) with 43%N in He. lia. }
  assert (∀ w, count_char plus w = 0%nat → count_char plus (to_ascii_uppercase w) = 0%nat) as Hcount.
  { clear -Hkeep. induction w as [|a w IH]; [done|]. cbn [count_char to_ascii_uppercase].
    destruct (decide (a = plus)) as [->|Ha]; [done|]. intros Hw. rewrite decide_False by auto. by apply IH. }
  apply Hcount in Hw. by rewrite Hup in Hw.
Qed.

(** *** A cluster of two nodes *)

Definition two_nodes : list row :=
  [Row [("NodeName", "n1"); ("CPUTot", "64"); ("OS", "Linux 5.15.0 #1 SMP"); ("Future_Field", "a=b")] (Some "NHC: x=y z");
   Noise "slurm_load error, retrying"; Row [("NodeName", "n2"); ("Gres", "gpu:2")] None].

Lemma two_nodes_wf : Forall (λ r, row_wf r = true) two_nodes.
Proof. repeat constructor; by vm_compute. Qed.

Lemma parse_nodes_print_witness :
  Forall (λ r, row_wf r = true) two_nodes ∧
  parse_nodes (print_lines (map print_row two_nodes)) = omap (λ r, node_of_fields (row_fields r)) two_nodes.
Proof. split; [apply two_nodes_wf|]. apply (parse_nodes_print two_nodes), two_nodes_wf. Defined.

Definition drained_down : printed_state := mk_printed "DOWN" ["DRAIN"; "INVALID_REG"] ["*"%char].

Lemma node_state_roundtrip_witness :
  printed_wf drained_down = true ∧ print_state drained_down = "DOWN+DRAIN+INVALID_REG*" ∧
  node_state_parse "DOWN+DRAIN+INVALID_REG*"
  = mk_node_state Base_Down (printed_flags drained_down) "DOWN+DRAIN+INVALID_REG*".
Proof.
  split; [by vm_compute|]. split; [done|]. apply (node_state_roundtrip drained_down). by vm_compute.
Defined.

Definition sample_gres : list gres_item :=
  [mk_gres "gpu" (Some "a100") (Some 8%N) (Some "IDX:0-7"); mk_gres "mps" None (Some 100%N) None;
   mk_gres "gpu" None None None].

Definition gpu_node : SlurmNode :=
  mk_node "n1" None None (node_state_parse "IDLE") None None [] None None (Some (print_gres sample_gres)) None None None ∅.

Lemma configured_gpu_count_print_witness :
  print_gres sample_gres = "gpu:a100:8(IDX:0-7),mps:100,gpu" ∧ configured_gpu_count gpu_node = Some 9%N.
Proof.
  split; [by vm_compute|].
  rewrite (configured_gpu_count_print gpu_node sample_gres); [by vm_compute|done| |done|by vm_compute].
  repeat constructor; by vm_compute.
Defined.
