(* ===== verification/SlurmView.v ===== *)
(** * What Slurm contributes

    [src/integrations/slurm/observe.rs] and [src/inventory/slurm.rs]: what one
    cycle of [scontrol] queries shows, the observations it gives and the
    inventory it describes.  The queries themselves are in [Discovery]. *)

From S2P Require Export Slurm Inventory Rules.

Local Open Scope string_scope.

(** [PROVIDER]. *)
Definition SLURM_PROVIDER : string := "slurm".

(** [well_known::SLURM_COMPUTE] and [SLURM_CONTROLLER]. *)
Definition SLURM_COMPUTE : Capability := "slurm.compute".
Definition SLURM_CONTROLLER : Capability := "slurm.controller".

(** [SlurmView]. *)
Record SlurmView := mk_view {
  view_nodes : list SlurmNode;
  view_partitions : list SlurmPartition;
  view_controllers : list ControllerPing
}.

(** [InventoryError::Unavailable]. *)
Record Unavailable := mk_unavailable { unavailable_provider : string; unavailable_detail : string }.

(** ** Observations *)

(** [node_status]. *)
Definition node_status (n : SlurmNode) : ProbeStatus :=
  let s := node_state n in
  if node_has s Flag_PowerSave || node_has s Flag_PoweringUp || node_has s Flag_PoweringDown
  then Probe_NotApplicable
  else if node_is_schedulable s then Probe_Ok
  else if base_is_schedulable (node_base s) && node_is_drained s && negb (node_is_not_responding s)
  then Probe_Degraded
  else Probe_Failed.

Section view.
Context `{J : JsonApi} `{U : UuidApi}.

(** [json!({ ... })] and the conversions it applies. *)
Definition json_object (fields : list (string * json)) : json := json_of_object (list_to_map fields).
Definition json_strings (l : list string) : json := json_of_array (map json_of_str l).
Definition json_opt_str : option string → json := json_of_option json_of_str.
Definition json_opt_u64 : option N → json := json_of_option json_of_u64.

(** The payload of a node's observation. *)
Definition node_payload (n : SlurmNode) : json :=
  let s := node_state n in
  json_object [
    ("node_name", json_of_str (node_name n));
    ("state", json_of_str (node_raw_state s));
    ("schedulable", json_of_bool (node_is_schedulable s));
    ("drained", json_of_bool (node_is_drained s));
    ("not_responding", json_of_bool (node_is_not_responding s));
    ("reason", json_opt_str (node_reason n));
    ("partitions", json_strings (node_partitions n));
    ("configured_gpu_count", json_opt_u64 (configured_gpu_count n));
    ("cpu_total", json_opt_u64 (node_cpu_total n));
    ("real_memory_mb", json_opt_u64 (node_real_memory_mb n))].

Definition ping_payload (p : ControllerPing) : json :=
  json_object [("host", json_of_str (ping_host p)); ("role", json_of_str (ping_role p));
               ("up", json_of_bool (ping_up p))].

Definition slurmd_name (host : string) : string := "slurmd@" +:+ host.
Definition slurmctld_name (host : string) : string := "slurmctld@" +:+ host.

(** An observation before it is given its identifier and its time. *)
Definition Draft : Type := ProbeId * EntityId * ProbeStatus * json.

(** The drafts of a node and of a controller. *)
Definition node_draft (environment : string) (n : SlurmNode) : Draft :=
  (PROBE_NODE, entity_id_of environment Entity_Host (host_name n), node_status n, node_payload n).

Definition ping_drafts (environment scheduler_name : string) (p : ControllerPing) : list Draft :=
  let status := if ping_up p then Probe_Ok else Probe_Failed in
  [(PROBE_CONTROLLER, entity_id_of environment Entity_Service (slurmctld_name (ping_host p)), status, ping_payload p);
   (PROBE_CONTROLLER, entity_id_of environment Entity_Scheduler scheduler_name, status, ping_payload p)].

(** [observations_from_view]: [ids] and [clock] are what the successive calls
    of [Observation::new] draw and read. *)
Definition observations_from_view (ids : nat → ObservationId) (clock : nat → Timestamp)
    (environment scheduler_name : string) (v : SlurmView) : list Observation :=
  imap (λ i d, let '(probe, target, status, payload) := d in
               with_payload (observation_new (ids i) (clock i) probe target status) payload)
    (map (node_draft environment) (view_nodes v)
     ++ (view_controllers v ≫= ping_drafts environment scheduler_name)).

(** ** Inventory *)

(** [entity.metadata = ..]. *)
Definition with_metadata (m : json) (e : ManagedEntity) : ManagedEntity :=
  {| entity_eid := entity_eid e; entity_environment := entity_environment e;
     entity_cluster := entity_cluster e; entity_kind := entity_kind e;
     canonical_name := canonical_name e; display_name := display_name e;
     entity_labels := entity_labels e; entity_metadata := m;
     entity_capabilities := entity_capabilities e; lifecycle_state := lifecycle_state e;
     discovery_sources := discovery_sources e;
     entity_created_at := entity_created_at e; entity_updated_at := entity_updated_at e |}.

(** The serialised form of a base state and of a flag. *)
Definition json_base (b : NodeBaseState) : json :=
  match b with
  | Base_Idle => json_of_str "idle" | Base_Allocated => json_of_str "allocated"
  | Base_Mixed => json_of_str "mixed" | Base_Down => json_of_str "down"
  | Base_Error => json_of_str "error" | Base_Future => json_of_str "future"
  | Base_Unknown => json_of_str "unknown"
  | Base_Other s => json_object [("other", json_of_str s)]
  end.

Definition json_flag (f : NodeStateFlag) : json :=
  match f with
  | Flag_Drain => json_of_str "drain" | Flag_NotResponding => json_of_str "not_responding"
  | Flag_Completing => json_of_str "completing" | Flag_Maintenance => json_of_str "maintenance"
  | Flag_PowerSave => json_of_str "power_save" | Flag_PoweringUp => json_of_str "powering_up"
  | Flag_PoweringDown => json_of_str "powering_down"
  | Flag_InvalidRegistration => json_of_str "invalid_registration"
  | Flag_Reserved => json_of_str "reserved" | Flag_Reboot => json_of_str "reboot"
  | Flag_Planned => json_of_str "planned"
  | Flag_Other s => json_object [("other", json_of_str s)]
  end.

(** [slurm_node_metadata]. *)
Definition slurm_node_metadata (n : SlurmNode) : json :=
  let s := node_state n in
  json_object [
    ("node_name", json_of_str (node_name n));
    ("node_host_name", json_opt_str (node_host_name n));
    ("node_addr", json_opt_str (node_addr n));
    ("state", json_of_str (node_raw_state s));
    ("state_base", json_base (node_base s));
    ("state_flags", json_of_array (map json_flag (btree_elements (node_flags s))));
    ("reason", json_opt_str (node_reason n));
    ("reason_time", json_opt_str (node_reason_time n));
    ("partitions", json_strings (node_partitions n));
    ("cfg_tres", json_opt_str (node_cfg_tres n));
    ("alloc_tres", json_opt_str (node_alloc_tres n));
    ("cpu_total", json_opt_u64 (node_cpu_total n));
    ("real_memory_mb", json_opt_u64 (node_real_memory_mb n));
    ("gres", json_opt_str (node_gres n));
    ("configured_gpu_count", json_opt_u64 (configured_gpu_count n));
    ("boot_time", json_opt_str (node_boot_time n));
    ("schedulable", json_of_bool (node_is_schedulable s))].

(** The body of the loop over the nodes. *)
Definition add_node (now : Timestamp) (environment scheduler_name : string) (s : InventorySnapshot) (n : SlurmNode) :
    InventorySnapshot :=
  let name := host_name n in
  let host_id := entity_id_of environment Entity_Host name in
  let scheduler_id := entity_id_of environment Entity_Scheduler scheduler_name in
  let service_id := entity_id_of environment Entity_Service (slurmd_name name) in
  let host := with_metadata (json_object [("slurm", slurm_node_metadata n)])
                (with_capabilities (managed_entity_new now environment Entity_Host name) {[ SLURM_COMPUTE ]}) in
  let service := with_metadata (json_object [("unit", json_of_str "slurmd.service");
                                             ("slurm", json_object [("node_name", json_of_str (node_name n))])])
                   (managed_entity_new now environment Entity_Service (slurmd_name name)) in
  let s := add_entity s host in
  let s := add_entity s service in
  let s := add_dependency s (dependency_edge_new now service_id host_id HostedOn) in
  add_dependency s (edge_with_criticality (dependency_edge_new now host_id scheduler_id UsesScheduler)
                      Criticality_Important).

(** The body of the loop over the controllers. *)
Definition add_controller (now : Timestamp) (environment scheduler_name : string) (s : InventorySnapshot)
    (p : ControllerPing) : InventorySnapshot :=
  let host_id := entity_id_of environment Entity_Host (ping_host p) in
  let scheduler_id := entity_id_of environment Entity_Scheduler scheduler_name in
  let service_id := entity_id_of environment Entity_Service (slurmctld_name (ping_host p)) in
  let host := with_capabilities (managed_entity_new now environment Entity_Host (ping_host p)) {[ SLURM_CONTROLLER ]} in
  let service := with_metadata (json_object [("unit", json_of_str "slurmctld.service");
                                             ("slurm", json_object [("role", json_of_str (ping_role p));
                                                                    ("reachable", json_of_bool (ping_up p))])])
                   (managed_entity_new now environment Entity_Service (slurmctld_name (ping_host p))) in
  let s := add_entity s host in
  let s := add_entity s service in
  let s := add_dependency s (dependency_edge_new now service_id host_id HostedOn) in
  add_dependency s (dependency_edge_new now scheduler_id service_id Provides).

(** [snapshot_from_view]. *)
Definition snapshot_from_view (now : Timestamp) (environment scheduler_name : string) (v : SlurmView) :
    InventorySnapshot :=
  let scheduler := with_metadata
    (json_object [("slurm", json_object [("partitions", json_strings (map partition_name (view_partitions v)));
                                         ("node_count", json_of_u64 (N.of_nat (length (view_nodes v))))])])
    (managed_entity_new now environment Entity_Scheduler scheduler_name) in
  let s := add_entity (snapshot_new (Integration SLURM_PROVIDER)) scheduler in
  let s := foldl (add_node now environment scheduler_name) s (view_nodes v) in
  foldl (add_controller now environment scheduler_name) s (view_controllers v).
End view.
