(* ===== verification/SlurmViewSpec.v ===== *)
(** * What Slurm contributes: what it guarantees

    The scheduler's verdict on a node, what the rules read of it, and an
    inventory without loose ends. *)

From S2P Require Import Concrete.
From S2P Require Export SlurmSpec SlurmView InventorySpec.

Local Open Scope string_scope.

(** ** The verdict *)

Definition power_flag (f : NodeStateFlag) : Prop :=
  f = Flag_PowerSave ∨ f = Flag_PoweringUp ∨ f = Flag_PoweringDown.

Section view.
Context `{J : JsonApi} `{U : UuidApi}.

(** ** The snapshot *)

Definition snapshot_ids (s : InventorySnapshot) : list EntityId := map entity_eid (snapshot_entities s).

(** Both ends of every edge are entities of the snapshot. *)
Definition snapshot_closed (s : InventorySnapshot) : Prop :=
  ∀ e, e ∈ snapshot_dependencies s → edge_source e ∈ snapshot_ids s ∧ edge_target e ∈ snapshot_ids s.

Lemma snapshot_ids_add_entity s e : snapshot_ids (add_entity s e) = (snapshot_ids s ++ [entity_eid e])%list.
Proof. unfold snapshot_ids, add_entity. cbn. rewrite map_app. by destruct (snapshot_source s). Qed.

Lemma snapshot_ids_add_dependency s e : snapshot_ids (add_dependency s e) = snapshot_ids s.
Proof. done. Qed.

Lemma elem_of_add_dependency s e x :
  x ∈ snapshot_dependencies (add_dependency s e) →
  x ∈ snapshot_dependencies s ∨ edge_source x = edge_source e ∧ edge_target x = edge_target e.
Proof.
  unfold add_dependency. cbn. rewrite elem_of_app, list_elem_of_singleton.
  intros [?| ->]; [by left|right]. by destruct (snapshot_source s).
Qed.

Lemma snapshot_closed_add_entity s e : snapshot_closed s → snapshot_closed (add_entity s e).
Proof. intros Hs x Hx. rewrite snapshot_ids_add_entity. destruct (Hs x Hx). rewrite !elem_of_app. tauto. Qed.

Lemma snapshot_closed_add_dependency s e :
  snapshot_closed s → edge_source e ∈ snapshot_ids s → edge_target e ∈ snapshot_ids s →
  snapshot_closed (add_dependency s e).
Proof.
  intros Hs Hsrc Htgt x Hx%elem_of_add_dependency. rewrite snapshot_ids_add_dependency.
  destruct Hx as [Hx|[-> ->]]; [by apply Hs|done].
Qed.

(** What the entities of one node and of one controller are. *)
Definition node_ids (env : string) (n : SlurmNode) : list EntityId :=
  [entity_id_of env Entity_Host (host_name n); entity_id_of env Entity_Service (slurmd_name (host_name n))].

Definition ping_ids (env : string) (p : ControllerPing) : list EntityId :=
  [entity_id_of env Entity_Host (ping_host p); entity_id_of env Entity_Service (slurmctld_name (ping_host p))].

Ltac grow :=
  repeat match goal with
  | |- snapshot_closed (add_dependency _ _) => apply snapshot_closed_add_dependency
  | |- snapshot_closed (add_entity _ _) => apply snapshot_closed_add_entity
  | |- snapshot_closed _ => assumption
  end;
  rewrite ?snapshot_ids_add_dependency, ?snapshot_ids_add_entity, ?elem_of_app, ?list_elem_of_singleton;
  repeat first [ done | right; done | left ].

Lemma add_node_spec now env scheduler s n :
  snapshot_closed s → entity_id_of env Entity_Scheduler scheduler ∈ snapshot_ids s →
  snapshot_closed (add_node now env scheduler s n)
  ∧ snapshot_ids (add_node now env scheduler s n) = (snapshot_ids s ++ node_ids env n)%list.
Proof.
  intros Hs Hsched. unfold add_node. split.
  - grow.
  - rewrite !snapshot_ids_add_dependency, !snapshot_ids_add_entity. by rewrite <- app_assoc.
Qed.

Lemma add_controller_spec now env scheduler s p :
  snapshot_closed s → entity_id_of env Entity_Scheduler scheduler ∈ snapshot_ids s →
  snapshot_closed (add_controller now env scheduler s p)
  ∧ snapshot_ids (add_controller now env scheduler s p) = (snapshot_ids s ++ ping_ids env p)%list.
Proof.
  intros Hs Hsched. unfold add_controller. split.
  - grow.
  - rewrite !snapshot_ids_add_dependency, !snapshot_ids_add_entity. by rewrite <- app_assoc.
Qed.

(** A loop whose every turn keeps a snapshot closed and adds entities. *)
Lemma snapshot_fold {A} (step : InventorySnapshot → A → InventorySnapshot) (ids : A → list EntityId) id l s :
  (∀ s x, snapshot_closed s → id ∈ snapshot_ids s →
     snapshot_closed (step s x) ∧ snapshot_ids (step s x) = (snapshot_ids s ++ ids x)%list) →
  snapshot_closed s → id ∈ snapshot_ids s →
  snapshot_closed (foldl step s l) ∧ snapshot_ids (foldl step s l) = (snapshot_ids s ++ (l ≫= ids))%list.
Proof.
  intros Hstep. revert s. induction l as [|x l IH]; intros s Hs Hid; cbn [foldl].
  - split; [done|]. cbn. by rewrite app_nil_r.
  - destruct (Hstep s x Hs Hid) as [Hs' Hids]. destruct (IH (step s x)) as [Hc Hi]; [done|rewrite Hids; apply elem_of_app; by left|].
    split; [done|]. rewrite Hi, Hids. cbn. by rewrite <- app_assoc.
Qed.

Lemma snapshot_from_view_spec now env scheduler v :
  snapshot_closed (snapshot_from_view now env scheduler v)
  ∧ snapshot_ids (snapshot_from_view now env scheduler v)
    = (entity_id_of env Entity_Scheduler scheduler
       :: (view_nodes v ≫= node_ids env) ++ (view_controllers v ≫= ping_ids env))%list.
Proof.
  unfold snapshot_from_view. set (id := entity_id_of env Entity_Scheduler scheduler).
  set (s0 := add_entity _ _).
  assert (snapshot_closed s0) as H0 by (intros e He; by apply elem_of_nil in He).
  assert (snapshot_ids s0 = [id]) as Hi0 by done.
  destruct (snapshot_fold (add_node now env scheduler) (node_ids env) id (view_nodes v) s0) as [H1 Hi1];
    [by intros; apply add_node_spec|done|rewrite Hi0; by left|].
  destruct (snapshot_fold (add_controller now env scheduler) (ping_ids env) id (view_controllers v)
    (foldl (add_node now env scheduler) s0 (view_nodes v))) as [H2 Hi2];
    [by intros; apply add_controller_spec|done|rewrite Hi1, Hi0; by left|].
  split; [done|]. rewrite Hi2, Hi1, Hi0. by rewrite <- app_assoc.
Qed.

Lemma elem_of_observations ids clock env scheduler v o :
  o ∈ observations_from_view ids clock env scheduler v →
  (∃ n, n ∈ view_nodes v ∧ probe_id o = PROBE_NODE ∧ status o = node_status n ∧ payload o = node_payload n
        ∧ target_entity o = entity_id_of env Entity_Host (host_name n))
  ∨ ∃ p, p ∈ view_controllers v ∧ probe_id o = PROBE_CONTROLLER
        ∧ target_entity o ∈ [entity_id_of env Entity_Service (slurmctld_name (ping_host p));
                             entity_id_of env Entity_Scheduler scheduler].
Proof.
  unfold observations_from_view. intros (i & [[[probe target] st] pl] & -> & Hd)%elem_of_lookup_imap_1.
  apply list_elem_of_lookup_2 in Hd. apply elem_of_app in Hd as [(n & [= -> -> -> ->] & Hn)%list_elem_of_fmap|Hd].
  - left. exists n. by split_and!.
  - right. apply list_elem_of_bind in Hd as (p & Hp & Hin). exists p. split; [done|].
    unfold ping_drafts in Hp. rewrite !elem_of_cons, elem_of_nil in Hp.
    destruct Hp as [[= -> -> -> ->]|[[= -> -> -> ->]|[]]]; (split; [done|]); cbn [target_entity with_payload observation_new]; [by left|by right; left].
Qed.

(** What the rules read of a node's observation is what the parser found. *)
Lemma node_payload_reads `{!JsonLaws} n :
  json_get (node_payload n) "drained" ≫= json_as_bool = Some (node_is_drained (node_state n))
  ∧ json_get (node_payload n) "not_responding" ≫= json_as_bool = Some (node_is_not_responding (node_state n))
  ∧ json_get (node_payload n) "node_name" ≫= json_as_str = Some (node_name n)
  ∧ json_get (node_payload n) "state" ≫= json_as_str = Some (node_raw_state (node_state n))
  ∧ json_get (node_payload n) "reason" ≫= json_as_str = node_reason n.
Proof.
  unfold node_payload, json_object. rewrite !json_get_object.
  split_and!; cbn [list_to_map foldr uncurry]; rewrite ?lookup_insert_ne by done; rewrite ?lookup_insert_eq;
    cbn; rewrite ?json_as_bool_of, ?json_as_str_of; [done..|].
  unfold json_opt_str. destruct (node_reason n); cbn; [apply json_as_str_of|apply json_as_str_null].
Qed.
End view.

(** ** Properties *)

(** The verdict on a node follows the words and flag characters of its
    state: a node that is powered down, or changing power, says nothing; else
    it is fine exactly when its base state takes work and it is neither
    drained nor out of contact, degraded exactly when it is only drained, and
    failed when the base state takes no work or the controller has lost it. *)
Theorem node_status_table n p :
  printed_wf p = true → node_state n = node_state_parse (print_state p) →
  let power := ∃ f, f ∈ printed_flags p ∧ power_flag f in
  let takes_work := base_is_schedulable (base_state_parse (base_word p)) = true in
  let drained := Flag_Drain ∈ printed_flags p in
  let lost := Flag_NotResponding ∈ printed_flags p in
  (node_status n = Probe_NotApplicable ↔ power)
  ∧ (node_status n = Probe_Ok ↔ ¬ power ∧ takes_work ∧ ¬ drained ∧ ¬ lost)
  ∧ (node_status n = Probe_Degraded ↔ ¬ power ∧ takes_work ∧ drained ∧ ¬ lost)
  ∧ (node_status n = Probe_Failed ↔ ¬ power ∧ (¬ takes_work ∨ lost)).
Proof.
  intros Hp Hn. unfold node_status. rewrite Hn, node_state_parse_print by done.
  unfold node_is_schedulable, node_is_drained, node_is_not_responding, node_has.
  cbn [node_base node_flags]. set (F := printed_flags p). set (b := base_is_schedulable _). cbn zeta.
  assert ((∃ f, f ∈ F ∧ power_flag f) ↔ Flag_PowerSave ∈ F ∨ Flag_PoweringUp ∈ F ∨ Flag_PoweringDown ∈ F) as ->.
  { unfold power_flag. naive_solver. }
  destruct (bool_decide_reflect (Flag_PowerSave ∈ F)), (bool_decide_reflect (Flag_PoweringUp ∈ F)),
    (bool_decide_reflect (Flag_PoweringDown ∈ F)), (bool_decide_reflect (Flag_Drain ∈ F)),
    (bool_decide_reflect (Flag_NotResponding ∈ F)); destruct b; cbn [orb andb negb];
    split_and!; intuition congruence.
Qed.

(** What Slurm describes has no loose ends: whatever a view holds, a merge
    of its snapshot into a well-formed inventory ends with every edge of the
    snapshot in the graph, none of it held back, and with every entity known
    that an observation of the same view is about, so that none of them is
    about a stranger. *)
Theorem slurm_view_self_contained `{J : JsonApi} `{U : UuidApi} ends ids clock now now' env scheduler v inv :
  inventory_wf ends inv → snapshot_follows ends (snapshot_from_view now env scheduler v) →
  ∃ inv' out, merge now' inv (snapshot_from_view now env scheduler v) = Finished (inv', out)
    ∧ inventory_wf ends inv'
    ∧ (∀ e, e ∈ snapshot_dependencies (snapshot_from_view now env scheduler v) →
         has_edge (inv_graph inv') (edge_id e))
    ∧ (∀ o, o ∈ observations_from_view ids clock env scheduler v → has_entity inv' (target_entity o)).
Proof.
  intros Hwf Hf. destruct (snapshot_from_view_spec now env scheduler v) as [Hclosed Hids].
  destruct (merge_topology ends now' inv _ Hwf Hf) as (inv' & out & Hm & Hwf' & [Hd Hg _ _] & _).
  fold (snapshot_ids (snapshot_from_view now env scheduler v)) in Hd.
  assert (∀ x, x ∈ snapshot_ids (snapshot_from_view now env scheduler v) → has_entity inv' x) as Hknown.
  { intros x Hx. unfold has_entity. rewrite <- elem_of_dom, Hd, elem_of_union, elem_of_list_to_set. by left. }
  exists inv', out. split; [done|]. split; [done|]. split.
  - intros e He. apply Hg. right. exists e. rewrite elem_of_app. destruct (Hclosed e He).
    split; [by right|]. split; [done|]. split; by apply Hknown.
  - intros o Ho. apply Hknown. rewrite Hids.
    destruct (elem_of_observations _ _ _ _ _ _ Ho) as [(n & Hn & _ & _ & _ & ->)|(p & Hp & _ & Ht)].
    + right. apply elem_of_app. left. apply list_elem_of_bind. exists n. split; [by left|done].
    + rewrite !elem_of_cons, elem_of_nil in Ht. destruct Ht as [->|[->|[]]]; [|by left].
      right. apply elem_of_app. right. apply list_elem_of_bind. exists p. split; [by right; left|done].
Qed.

(** *** One drained node and its controller *)

Section example.
Definition drained_node : SlurmNode :=
  mk_node "n1" None None (node_state_parse "IDLE+DRAIN") (Some "planned") None [] None None None None None None ∅.

Definition sample_view : SlurmView := mk_view [drained_node] [] [mk_ping "ctl" true "primary"].

(** The ends of its edges, read off the snapshot. *)
Definition sample_ends (i : Uuid) : EntityId * EntityId :=
  match list_find (λ e, edge_id e = i)
          (snapshot_dependencies (snapshot_from_view 0 "prod" "slurm" sample_view)) with
  | Some (_, e) => (edge_source e, edge_target e)
  | None => ({| as_uuid := 0%N |}, {| as_uuid := 0%N |})
  end.

Lemma sample_view_follows : snapshot_follows sample_ends (snapshot_from_view 0 "prod" "slurm" sample_view).
Proof.
  assert (forallb (λ e, bool_decide (sample_ends (edge_id e) = (edge_source e, edge_target e)))
    (snapshot_dependencies (snapshot_from_view 0 "prod" "slurm" sample_view)) = true) as Hall by (by vm_compute).
  intros e He%list_elem_of_In. rewrite forallb_forall in Hall. apply Hall in He.
  by apply bool_decide_eq_true in He.
Qed.
End example.

Lemma slurm_view_self_contained_witness :
  inventory_wf sample_ends inventory_new ∧
  snapshot_follows sample_ends (snapshot_from_view 0 "prod" "slurm" sample_view) ∧
  ∃ inv' out, merge 5 inventory_new (snapshot_from_view 0 "prod" "slurm" sample_view) = Finished (inv', out)
    ∧ (∀ e, e ∈ snapshot_dependencies (snapshot_from_view 0 "prod" "slurm" sample_view) →
         has_edge (inv_graph inv') (edge_id e)).
Proof.
  split; [apply inventory_new_wf|]. split; [apply sample_view_follows|].
  destruct (slurm_view_self_contained sample_ends (λ i, {| observation_uuid := N.of_nat i |}) (λ _, 0%Z) 0 5
    "prod" "slurm" sample_view inventory_new) as (inv' & out & Hm & _ & He & _);
    [apply inventory_new_wf|apply sample_view_follows|].
  exists inv', out. split; [exact Hm|exact He].
Defined.

Definition idle_drained : printed_state := mk_printed "IDLE" ["DRAIN"] [].

Lemma node_status_table_witness :
  printed_wf idle_drained = true ∧ print_state idle_drained = "IDLE+DRAIN" ∧
  node_status drained_node = Probe_Degraded.
Proof.
  split; [by vm_compute|]. split; [done|].
  apply (node_status_table drained_node idle_drained); [by vm_compute|done|].
  split_and!; [|by vm_compute|by vm_compute|by vm_compute].
  intros (f & Hf & Hpow). assert (printed_flags idle_drained = {[ Flag_Drain ]}) as E by (by vm_compute).
  rewrite E in Hf. apply elem_of_singleton in Hf as ->. by destruct Hpow as [|[|]].
Defined.
