(* ===== verification/Incident.v ===== *)
(** * Incidents

    [src/incident/mod.rs]: the lifecycle of an incident, its severity and
    timeline, and how diagnoses fold into it.  The clock and the random
    identifier are arguments. *)

From S2P Require Export Diagnosis.

Local Open Scope string_scope.

(** [IncidentStatus]. *)
Inductive IncidentStatus :=
  | Status_Open
  | Status_Acknowledged
  | Status_Recovering
  | Status_Resolved
  | Status_Reset
  | Status_Suppressed.

#[export] Instance IncidentStatus_eq_dec : EqDecision IncidentStatus.
Proof. solve_decision. Defined.

Definition incident_status_as_str (s : IncidentStatus) : string :=
  match s with
  | Status_Open => "open"
  | Status_Acknowledged => "acknowledged"
  | Status_Recovering => "recovering"
  | Status_Resolved => "resolved"
  | Status_Reset => "reset"
  | Status_Suppressed => "suppressed"
  end.

Definition incident_status_parse (s : string) : option IncidentStatus :=
  if String.eqb s "open" then Some Status_Open
  else if String.eqb s "acknowledged" then Some Status_Acknowledged
  else if String.eqb s "recovering" then Some Status_Recovering
  else if String.eqb s "resolved" then Some Status_Resolved
  else if String.eqb s "reset" then Some Status_Reset
  else if String.eqb s "suppressed" then Some Status_Suppressed
  else None.

(** [IncidentStatus::is_active]. *)
Definition status_is_active (s : IncidentStatus) : bool :=
  match s with Status_Open | Status_Acknowledged | Status_Recovering => true | _ => false end.

(** [Severity]. *)
Inductive Severity := Severity_Info | Severity_Warning | Severity_Critical.

#[export] Instance Severity_eq_dec : EqDecision Severity.
Proof. solve_decision. Defined.

(** The order [Severity] derives. *)
Definition severity_level (s : Severity) : N :=
  match s with Severity_Info => 0 | Severity_Warning => 1 | Severity_Critical => 2 end.

#[export] Instance severity_level_inj : Inj (=) (=) severity_level.
Proof. by intros [] []. Qed.

Definition severity_as_str (s : Severity) : string :=
  match s with
  | Severity_Info => "info"
  | Severity_Warning => "warning"
  | Severity_Critical => "critical"
  end.

Definition severity_parse (s : string) : option Severity :=
  if String.eqb s "info" then Some Severity_Info
  else if String.eqb s "warning" then Some Severity_Warning
  else if String.eqb s "critical" then Some Severity_Critical
  else None.

(** [TimelineEvent]. *)
Record TimelineEvent := {
  event_at : Timestamp;
  event_kind : string;
  event_detail : string;
  event_entity : option EntityId
}.

(** [TimelineEvent::new] and [about]. *)
Definition timeline_event_new (now : Timestamp) (kind detail : string) : TimelineEvent :=
  {| event_at := now; event_kind := kind; event_detail := detail; event_entity := None |}.

Definition event_about (e : TimelineEvent) (entity : EntityId) : TimelineEvent :=
  {| event_at := event_at e; event_kind := event_kind e; event_detail := event_detail e;
     event_entity := Some entity |}.

(** [Incident]. *)
Record Incident := {
  incident_id : Uuid;
  incident_fingerprint : string;
  incident_status : IncidentStatus;
  incident_severity : Severity;
  incident_started_at : Timestamp;
  ended_at : option Timestamp;
  incident_affected : list EntityId;
  incident_roots : list EntityId;
  incident_diagnoses : list Diagnosis;
  incident_evidence : list ObservationId;
  timeline : list TimelineEvent
}.

(** [Incident::open]. *)
Definition incident_open (id : Uuid) (now : Timestamp) (fp : string) (s : Severity) : Incident :=
  {| incident_id := id; incident_fingerprint := fp; incident_status := Status_Open;
     incident_severity := s; incident_started_at := now; ended_at := None;
     incident_affected := []; incident_roots := []; incident_diagnoses := [];
     incident_evidence := []; timeline := [] |}.

(** The assignments the operations make. *)
Definition with_status (s : IncidentStatus) (i : Incident) : Incident :=
  {| incident_id := incident_id i; incident_fingerprint := incident_fingerprint i;
     incident_status := s; incident_severity := incident_severity i; incident_started_at :=
     incident_started_at i; ended_at := ended_at i; incident_affected := incident_affected i;
     incident_roots := incident_roots i; incident_diagnoses := incident_diagnoses i;
     incident_evidence := incident_evidence i; timeline := timeline i |}.

Definition with_severity (s : Severity) (i : Incident) : Incident :=
  {| incident_id := incident_id i; incident_fingerprint := incident_fingerprint i;
     incident_status := incident_status i; incident_severity := s; incident_started_at :=
     incident_started_at i; ended_at := ended_at i; incident_affected := incident_affected i;
     incident_roots := incident_roots i; incident_diagnoses := incident_diagnoses i;
     incident_evidence := incident_evidence i; timeline := timeline i |}.

Definition with_ended_at (t : option Timestamp) (i : Incident) : Incident :=
  {| incident_id := incident_id i; incident_fingerprint := incident_fingerprint i;
     incident_status := incident_status i; incident_severity := incident_severity i;
     incident_started_at := incident_started_at i; ended_at := t; incident_affected :=
     incident_affected i; incident_roots := incident_roots i; incident_diagnoses :=
     incident_diagnoses i; incident_evidence := incident_evidence i; timeline := timeline i |}.

Definition with_diagnoses (ds : list Diagnosis) (i : Incident) : Incident :=
  {| incident_id := incident_id i; incident_fingerprint := incident_fingerprint i;
     incident_status := incident_status i; incident_severity := incident_severity i;
     incident_started_at := incident_started_at i; ended_at := ended_at i; incident_affected :=
     incident_affected i; incident_roots := incident_roots i; incident_diagnoses := ds;
     incident_evidence := incident_evidence i; timeline := timeline i |}.

(** [self.timeline.push(TimelineEvent::new(kind, detail))]. *)
Definition push_event (now : Timestamp) (kind detail : string) (i : Incident) : Incident :=
  {| incident_id := incident_id i; incident_fingerprint := incident_fingerprint i;
     incident_status := incident_status i; incident_severity := incident_severity i;
     incident_started_at := incident_started_at i; ended_at := ended_at i; incident_affected :=
     incident_affected i; incident_roots := incident_roots i; incident_diagnoses :=
     incident_diagnoses i; incident_evidence := incident_evidence i; timeline := timeline i ++
     [timeline_event_new now kind detail] |}.

(** [Incident::MAX_EVIDENCE]. *)
Definition MAX_EVIDENCE : nat := 200.

(** The evidence loop of [merge_diagnosis], with its [break]. *)
Fixpoint add_evidence (ev os : list ObservationId) : list ObservationId :=
  match os with
  | [] => ev
  | o :: os' => if (MAX_EVIDENCE <=? length ev)%nat then ev else add_evidence (push_unique ev o) os'
  end.

(** [Incident::merge_diagnosis]. *)
Definition merge_diagnosis (i : Incident) (d : Diagnosis) : Incident :=
  {| incident_id := incident_id i; incident_fingerprint := incident_fingerprint i;
     incident_status := incident_status i; incident_severity := incident_severity i;
     incident_started_at := incident_started_at i; ended_at := ended_at i; incident_affected :=
     foldl push_unique (incident_affected i) (affected_entities d); incident_roots := foldl
     push_unique (incident_roots i) (suspected_root_entities d); incident_diagnoses :=
     incident_diagnoses i ++ [d]; incident_evidence := add_evidence (incident_evidence i)
     (diagnosis_evidence d); timeline := timeline i |}.

(** [Incident::add_diagnosis]. *)
Definition add_diagnosis (now : Timestamp) (i : Incident) (d : Diagnosis) : Incident :=
  merge_diagnosis
    (push_event now "diagnosis_added"
       (diagnosis_type d +:+ " (" +:+ confidence_as_str (confidence d) +:+ ")") i) d.

(** [Incident::primary_diagnosis], [has_diagnosis]. *)
Definition primary_diagnosis (i : Incident) : option Diagnosis := last (incident_diagnoses i).

Definition has_diagnosis (i : Incident) (t : string) : bool :=
  existsb (λ d, diagnosis_is d t) (incident_diagnoses i).

(** [Incident::escalate]: the incident, and whether its severity rose. *)
Definition escalate (now : Timestamp) (s : Severity) (i : Incident) : Incident * bool :=
  if (severity_level (incident_severity i) <? severity_level s)%N then
    (push_event now "severity_escalated"
       (severity_as_str (incident_severity i) +:+ " -> " +:+ severity_as_str s) (with_severity s i), true)
  else (i, false).

(** [Incident::resolve]. *)
Definition resolve (now : Timestamp) (i : Incident) : Incident :=
  push_event now "resolved" "all involved entities recovered"
    (with_ended_at (Some now) (with_status Status_Resolved i)).

(** [Incident::duration]. *)
Definition incident_duration (now : Timestamp) (i : Incident) : Duration :=
  (default now (ended_at i) - incident_started_at i)%Z.

(** ** Facts *)

Lemma incident_status_roundtrip s : incident_status_parse (incident_status_as_str s) = Some s.
Proof. by destruct s. Qed.

Lemma severity_roundtrip s : severity_parse (severity_as_str s) = Some s.
Proof. by destruct s. Qed.

Lemma add_evidence_prefix ev os : ev `prefix_of` add_evidence ev os.
Proof.
  revert ev. induction os as [|o os IH]; intros ev; cbn [add_evidence]; [done|].
  destruct (_ <=? _)%nat; [done|]. transitivity (push_unique ev o); [|apply IH].
  unfold push_unique. destruct (decide _); [done|by eexists].
Qed.

Lemma add_evidence_bound ev os : (length ev ≤ MAX_EVIDENCE)%nat → (length (add_evidence ev os) ≤ MAX_EVIDENCE)%nat.
Proof.
  revert ev. induction os as [|o os IH]; intros ev Hl; cbn [add_evidence]; [done|].
  destruct (Nat.leb_spec MAX_EVIDENCE (length ev)); [done|]. apply IH.
  unfold push_unique. destruct (decide _); [done|]. rewrite length_app. cbn. lia.
Qed.

Lemma add_evidence_NoDup ev os : NoDup ev → NoDup (add_evidence ev os).
Proof.
  revert ev. induction os as [|o os IH]; intros ev Hl; cbn [add_evidence]; [done|].
  destruct (_ <=? _)%nat; [done|]. by apply IH, NoDup_push_unique.
Qed.

Lemma elem_of_add_evidence ev os o : o ∈ add_evidence ev os → o ∈ ev ∨ o ∈ os.
Proof.
  revert ev. induction os as [|o' os IH]; intros ev; cbn [add_evidence]; [by left|].
  destruct (_ <=? _)%nat; [by left|]. intros [Ho|Ho]%IH; [|set_solver].
  apply elem_of_push_unique in Ho. set_solver.
Qed.

(** ** The invariant of an incident *)

Record incident_wf (i : Incident) : Prop := {
  iwf_affected : NoDup (incident_affected i);
  iwf_roots : NoDup (incident_roots i);
  iwf_evidence : NoDup (incident_evidence i);
  iwf_bound : (length (incident_evidence i) ≤ MAX_EVIDENCE)%nat;
  iwf_resolved : incident_status i = Status_Resolved → is_Some (ended_at i);
  iwf_active : status_is_active (incident_status i) = true → ended_at i = None
}.

Lemma incident_open_wf id now fp s : incident_wf (incident_open id now fp s).
Proof. split; cbn; try done; try apply NoDup_nil_2. lia. Qed.

Lemma push_event_wf now k d i : incident_wf i → incident_wf (push_event now k d i).
Proof. by intros []. Qed.

Lemma with_severity_wf s i : incident_wf i → incident_wf (with_severity s i).
Proof. by intros []. Qed.

Lemma with_diagnoses_wf ds i : incident_wf i → incident_wf (with_diagnoses ds i).
Proof. by intros []. Qed.

Lemma merge_diagnosis_wf i d : incident_wf i → incident_wf (merge_diagnosis i d).
Proof.
  intros []. split; cbn; auto using NoDup_foldl_push_unique, add_evidence_NoDup, add_evidence_bound.
Qed.

Lemma add_diagnosis_wf now i d : incident_wf i → incident_wf (add_diagnosis now i d).
Proof. intros Hi. by apply merge_diagnosis_wf, push_event_wf. Qed.

Lemma escalate_wf now s i : incident_wf i → incident_wf (escalate now s i).1.
Proof. intros Hi. unfold escalate. destruct (_ <? _)%N; [by apply push_event_wf, with_severity_wf|done]. Qed.

Lemma resolve_wf now i : incident_wf i → incident_wf (resolve now i).
Proof. intros []. by split. Qed.

(** An active incident may move between the active statuses. *)
Lemma with_active_status_wf s i :
  status_is_active s = true → ended_at i = None → incident_wf i → incident_wf (with_status s i).
Proof. intros Hs He []. split; cbn; try done. intros ->. done. Qed.

#[export] Hint Resolve incident_open_wf push_event_wf with_severity_wf with_diagnoses_wf
  merge_diagnosis_wf add_diagnosis_wf escalate_wf resolve_wf : sentinel.
