(* ===== verification/IncidentEngine.v ===== *)
(** * The incident engine

    [src/incident/engine.rs]: correlating diagnoses into incidents by the cause
    they blame, and the lifecycle a pass drives.  The engine's map is keyed by
    fingerprint and iterated in key order; the random identifier and the clock
    are read once per fingerprint ([IncidentPass]); a graph lookup that panics
    makes the whole pass [None]. *)

From S2P Require Export Graph Incident.

Local Open Scope string_scope.

(** [REOPEN_WINDOW_MINUTES]. *)
Definition REOPEN_WINDOW_MINUTES : Z := 30.

(** [IncidentUpdate]. *)
Record IncidentUpdate := {
  opened : list Incident;
  updated : list Incident;
  recovering : list Incident;
  resolved : list Incident
}.

(** [IncidentUpdate::default]. *)
Definition update_default : IncidentUpdate :=
  {| opened := []; updated := []; recovering := []; resolved := [] |}.

(** [IncidentUpdate::is_empty]. *)
Definition update_is_empty (u : IncidentUpdate) : bool :=
  match opened u, updated u, recovering u, resolved u with [], [], [], [] => true | _, _, _, _ => false end.

(** [IncidentUpdate::all]. *)
Definition update_all (u : IncidentUpdate) : list Incident :=
  (opened u ++ updated u ++ recovering u ++ resolved u)%list.

(** Which list of the update an incident is pushed on. *)
Inductive Change := Change_Opened | Change_Updated | Change_Recovering | Change_Resolved.

Definition bucket (c : Change) (u : IncidentUpdate) : list Incident :=
  match c with
  | Change_Opened => opened u
  | Change_Updated => updated u
  | Change_Recovering => recovering u
  | Change_Resolved => resolved u
  end.

Definition push_change (c : Change) (i : Incident) (u : IncidentUpdate) : IncidentUpdate :=
  match c with
  | Change_Opened => {| opened := opened u ++ [i]; updated := updated u; recovering := recovering u;
                        resolved := resolved u |}
  | Change_Updated => {| opened := opened u; updated := updated u ++ [i]; recovering := recovering u;
                         resolved := resolved u |}
  | Change_Recovering => {| opened := opened u; updated := updated u; recovering := recovering u ++ [i];
                            resolved := resolved u |}
  | Change_Resolved => {| opened := opened u; updated := updated u; recovering := recovering u;
                          resolved := resolved u ++ [i] |}
  end.

(** What one pass draws for the incident of a fingerprint. *)
Class IncidentPass := {
  fresh_id : string → Uuid;
  clock : string → Timestamp
}.

(** ** Fingerprints and severity *)

Section fingerprint.
Context `{U : UuidApi}.

(** The entities a diagnosis is filed by: its roots, or what it affects. *)
Definition scope_entities (d : Diagnosis) : list EntityId :=
  match suspected_root_entities d with [] => affected_entities d | roots => roots end.

Definition fingerprint_scope (d : Diagnosis) : string :=
  match suspected_root_entities d with [] => "affects" | _ => "cause" end.

(** [fingerprint]. *)
Definition fingerprint (d : Diagnosis) : string :=
  let roots : gset string := list_to_set (map (λ e, uuid_to_string (as_uuid e)) (scope_entities d)) in
  fingerprint_scope d +:+ ":" +:+ str_join "," (btree_elements roots).
End fingerprint.

(** [base_severity]. *)
Definition base_severity (d : Diagnosis) : Severity :=
  let t := diagnosis_type d in
  if String.eqb t HOST_UNREACHABLE || String.eqb t SHARED_STORAGE_FAILURE
     || String.eqb t SLURM_CONTROL_PLANE_FAILURE then Severity_Critical
  else if String.eqb t RESOURCE_CONFIGURATION_MISMATCH || String.eqb t GPU_CONFIGURATION_MISMATCH
          || String.eqb t CLOCK_SKEW then Severity_Info
  else if String.eqb t SLURM_ONLY_DEGRADATION || String.eqb t HOST_REBOOTED then Severity_Info
  else Severity_Warning.

Section severity.
Context `{J : JsonApi}.

(** The largest of the counts, 0 for none. *)
Definition max_nat (l : list nat) : nat := foldr Nat.max 0%nat l.

(** How many entities depend on the most depended-on suspected cause. *)
Definition fan_out (d : Diagnosis) (g : DependencyGraph) : option nat :=
  max_nat <$> mapM (λ root, length <$> downstream g root None) (suspected_root_entities d).

(** [severity_for]. *)
Definition severity_for (d : Diagnosis) (g : DependencyGraph) : option Severity :=
  let severity := base_severity d in
  if decide (confidence d = Confidence_Low) then Some Severity_Info
  else
    n ← fan_out d g;
    if ((3 <=? n)%nat && (severity_level severity <? severity_level Severity_Critical)%N)%bool
    then Some Severity_Critical
    else if ((1 <=? n)%nat && (severity_level severity <? severity_level Severity_Warning)%N)%bool
    then Some Severity_Warning
    else Some severity.

(** [diagnoses.iter().map(..).max().unwrap_or(Warning)]. *)
Definition group_severity (ds : list Diagnosis) (g : DependencyGraph) : option Severity :=
  ss ← mapM (λ d, severity_for d g) ds;
  Some (default Severity_Warning (max_by_key severity_level ss)).
End severity.

(** ** The lifecycle of one incident *)

(** [within_reopen_window]. *)
Definition within_reopen_window (now : Timestamp) (i : Incident) : bool :=
  match ended_at i with
  | None => true
  | Some t => bool_decide (now - t < minutes REOPEN_WINDOW_MINUTES)%Z
  end.

(** [open_incident]. *)
Definition open_incident (id : Uuid) (now : Timestamp) (fp : string) (s : Severity)
    (ds : list Diagnosis) : Incident :=
  foldl (add_diagnosis now)
    (push_event now "opened" ("severity " +:+ severity_as_str s) (incident_open id now fp s)) ds.

(** The set of diagnosis types, as [refresh] compares them. *)
Definition diagnosis_types (ds : list Diagnosis) : gset string := list_to_set (map diagnosis_type ds).

(** [join]. *)
Definition join_values (s : gset string) : string :=
  if decide (s = ∅) then "nothing" else str_join ", " (btree_elements s).

(** [refresh]. *)
Definition refresh (now : Timestamp) (i : Incident) (ds : list Diagnosis) : Incident :=
  let previous := diagnosis_types (incident_diagnoses i) in
  let current := diagnosis_types ds in
  let i := if decide (previous = current) then i
           else push_event now "diagnosis_changed"
                  (join_values previous +:+ " -> " +:+ join_values current) i in
  foldl merge_diagnosis (with_diagnoses [] i) ds.

(** The two status changes of a fault that is diagnosed again. *)
Definition reopen (now : Timestamp) (i : Incident) : Incident :=
  let i := if decide (incident_status i = Status_Recovering)
           then push_event now "recovery_failed" "the fault is diagnosed again" (with_status Status_Open i)
           else i in
  if decide (incident_status i = Status_Resolved)
  then push_event now "reopened" "the fault returned" (with_ended_at None (with_status Status_Open i))
  else i.

(** The body of the loop over the groups of diagnoses. *)
Definition reconcile_diagnosed (id : Uuid) (now : Timestamp) (fp : string) (s : Severity)
    (ds : list Diagnosis) (old : option Incident) : Change * Incident :=
  match old with
  | Some existing =>
      if (bool_decide (incident_status existing = Status_Resolved)
          && negb (within_reopen_window now existing))%bool
      then (Change_Opened, open_incident id now fp s ds)
      else (Change_Updated, refresh now (escalate now s (reopen now existing)).1 ds)
  | None => (Change_Opened, open_incident id now fp s ds)
  end.

(** The body of the loop over the incidents no longer diagnosed. *)
Definition reconcile_undiagnosed (now : Timestamp) (recovered : Incident → bool * bool)
    (i : Incident) : Change * Incident :=
  let '(root_recovered, fully_recovered) := recovered i in
  if fully_recovered : bool then (Change_Resolved, resolve now i)
  else if (root_recovered && negb (bool_decide (incident_status i = Status_Recovering)))%bool
  then (Change_Recovering,
        push_event now "recovering" "the root recovered; dependent recovery is not yet confirmed"
          (with_status Status_Recovering i))
  else
    (Change_Updated,
     if (negb root_recovered && bool_decide (incident_status i = Status_Recovering))%bool
     then push_event now "recovery_failed" "root recovery can no longer be confirmed"
            (with_status Status_Open i)
     else i).

(** ** The engine *)

(** [IncidentEngine]. *)
Record IncidentEngine := { incidents : gmap string Incident }.

(** [IncidentEngine::new]. *)
Definition incident_engine_new : IncidentEngine := {| incidents := ∅ |}.

(** The accessors [incidents], [active], [get], [len] and [is_empty]. *)
Definition engine_incidents (e : IncidentEngine) : list Incident := btree_values (incidents e).
Definition engine_active (e : IncidentEngine) : list Incident :=
  filter (λ i, status_is_active (incident_status i)) (btree_values (incidents e)).
Definition engine_get (e : IncidentEngine) (fp : string) : option Incident := incidents e !! fp.
Definition engine_len (e : IncidentEngine) : nat := size (incidents e).
Definition engine_is_empty (e : IncidentEngine) : bool := bool_decide (size (incidents e) = 0%nat).

(** The test of [seed]: the incident already held is the one to keep. *)
Definition keep_existing (existing incident : Incident) : bool :=
  (status_is_active (incident_status existing) && negb (status_is_active (incident_status incident)))
  || (Bool.eqb (status_is_active (incident_status existing)) (status_is_active (incident_status incident))
      && bool_decide (incident_started_at incident ≤ incident_started_at existing)%Z).

Definition seed_one (m : gmap string Incident) (i : Incident) : gmap string Incident :=
  match m !! incident_fingerprint i with
  | Some existing => if keep_existing existing i then m else <[ incident_fingerprint i := i ]> m
  | None => <[ incident_fingerprint i := i ]> m
  end.

(** [IncidentEngine::seed]. *)
Definition engine_seed (e : IncidentEngine) (l : list Incident) : IncidentEngine :=
  {| incidents := foldl seed_one (incidents e) l |}.

Section engine.
Context `{U : UuidApi} `{J : JsonApi}.

(** [grouped.entry(fingerprint(diagnosis)).or_default().push(diagnosis)]. *)
Definition group_push (m : gmap string (list Diagnosis)) (d : Diagnosis) : gmap string (list Diagnosis) :=
  <[ fingerprint d := (default [] (m !! fingerprint d) ++ [d])%list ]> m.

Definition grouped (ds : list Diagnosis) : gmap string (list Diagnosis) := foldl group_push ∅ ds.

Context `{P : IncidentPass}.

(** [for (fingerprint, diagnoses) in &grouped]. *)
Fixpoint diagnosed_loop (g : DependencyGraph) (l : list (string * list Diagnosis))
    (m : gmap string Incident) (u : IncidentUpdate) : option (gmap string Incident * IncidentUpdate) :=
  match l with
  | [] => Some (m, u)
  | (fp, ds) :: l' =>
      s ← group_severity ds g;
      let '(c, i) := reconcile_diagnosed (fresh_id fp) (clock fp) fp s ds (m !! fp) in
      diagnosed_loop g l' (<[ fp := i ]> m) (push_change c i u)
  end.

(** [for (fingerprint, incident) in self.incidents.iter_mut()]. *)
Fixpoint undiagnosed_loop (groups : gmap string (list Diagnosis)) (recovered : Incident → bool * bool)
    (l : list (string * Incident)) (m : gmap string Incident) (u : IncidentUpdate) :
    gmap string Incident * IncidentUpdate :=
  match l with
  | [] => (m, u)
  | (fp, incident) :: l' =>
      if (bool_decide (is_Some (groups !! fp)) || negb (status_is_active (incident_status incident)))%bool
      then undiagnosed_loop groups recovered l' m u
      else
        let '(c, i) := reconcile_undiagnosed (clock fp) recovered incident in
        undiagnosed_loop groups recovered l' (<[ fp := i ]> m) (push_change c i u)
  end.

(** [IncidentEngine::reconcile_verified]. *)
Definition reconcile_verified (e : IncidentEngine) (ds : list Diagnosis) (g : DependencyGraph)
    (recovered : Incident → bool * bool) : option (IncidentEngine * IncidentUpdate) :=
  let groups := grouped ds in
  '(m, u) ← diagnosed_loop g (btree_entries groups) (incidents e) update_default;
  let '(m', u') := undiagnosed_loop groups recovered (btree_entries m) m u in
  Some ({| incidents := m' |}, u').

(** The recovery verdict [reconcile] draws from the derived states. *)
Definition all_overall_healthy (states : gmap EntityId EntityState) (es : list EntityId) : bool :=
  match es with
  | [] => false
  | _ => forallb (λ e, match states !! e with
                       | Some s => bool_decide (overall s = Healthy)
                       | None => false
                       end) es
  end.

Definition recovered_by_state (states : gmap EntityId EntityState) (i : Incident) : bool * bool :=
  let root_healthy := all_overall_healthy states (incident_roots i) in
  (root_healthy,
   all_overall_healthy states (incident_affected i)
   && (match incident_roots i with [] => true | _ => false end || root_healthy)).

(** [IncidentEngine::reconcile]. *)
Definition reconcile (e : IncidentEngine) (ds : list Diagnosis) (g : DependencyGraph)
    (states : gmap EntityId EntityState) : option (IncidentEngine * IncidentUpdate) :=
  reconcile_verified e ds g (recovered_by_state states).
End engine.
