(* ===== verification/IncidentSpec.v ===== *)
(** * What the incident engine guarantees

    The theorems about [IncidentEngine].  A pass evolves every incident on its
    own ([evolves]); the properties follow from what that step does to one
    incident. *)

From S2P Require Import Concrete.
From S2P Require Export GraphSpec IncidentEngine.

Local Open Scope string_scope.

(** ** Continuing an incident

    What every operation preserves: the identity, and everything already
    recorded. *)

Record continues (i i' : Incident) : Prop := {
  cont_id : incident_id i' = incident_id i;
  cont_fingerprint : incident_fingerprint i' = incident_fingerprint i;
  cont_started : incident_started_at i' = incident_started_at i;
  cont_severity : (severity_level (incident_severity i) ≤ severity_level (incident_severity i'))%N;
  cont_timeline : timeline i `prefix_of` timeline i';
  cont_affected : incident_affected i `prefix_of` incident_affected i';
  cont_roots : incident_roots i `prefix_of` incident_roots i';
  cont_evidence : incident_evidence i `prefix_of` incident_evidence i'
}.

#[export] Instance continues_preorder : PreOrder continues.
Proof.
  split.
  - intros i. by split.
  - intros i j k [] []. split; try congruence; try (by etrans); lia.
Qed.

Lemma push_event_continues now k d i : continues i (push_event now k d i).
Proof. split; try done. by eexists. Qed.

Lemma with_status_continues s i : continues i (with_status s i).
Proof. by split. Qed.

Lemma with_ended_at_continues t i : continues i (with_ended_at t i).
Proof. by split. Qed.

Lemma with_diagnoses_continues ds i : continues i (with_diagnoses ds i).
Proof. by split. Qed.

Lemma merge_diagnosis_continues i d : continues i (merge_diagnosis i d).
Proof. split; try done; first [apply foldl_push_unique_prefix | apply add_evidence_prefix]. Qed.

Lemma merge_diagnoses_continues i ds : continues i (foldl merge_diagnosis i ds).
Proof.
  revert i. induction ds as [|d ds IH]; intros i; cbn [foldl]; [done|].
  etrans; [apply merge_diagnosis_continues | apply IH].
Qed.

Lemma escalate_continues now s i : continues i (escalate now s i).1.
Proof.
  unfold escalate. destruct (N.ltb_spec (severity_level (incident_severity i)) (severity_level s)); [|done].
  split; try done; cbn; [lia | by eexists].
Qed.

Lemma escalate_level now s i :
  (severity_level s ≤ severity_level (incident_severity (escalate now s i).1))%N.
Proof. unfold escalate. case_match eqn:Hlt; cbn; [lia|]. by apply N.ltb_ge in Hlt. Qed.

Lemma reopen_continues now i : continues i (reopen now i).
Proof.
  unfold reopen. cbn zeta.
  assert (∀ j, continues j (if decide (incident_status j = Status_Resolved)
            then push_event now "reopened" "the fault returned" (with_ended_at None (with_status Status_Open j))
            else j)) as Hresolved.
  { intros j. case_decide; [|done]. etrans; [|apply push_event_continues].
    etrans; [apply with_status_continues | apply with_ended_at_continues]. }
  etrans; [|apply Hresolved]. case_decide; [|done].
  etrans; [apply with_status_continues | apply push_event_continues].
Qed.

Lemma refresh_continues now i ds : continues i (refresh now i ds).
Proof.
  unfold refresh. cbn zeta. etrans; [|apply merge_diagnoses_continues].
  etrans; [|apply with_diagnoses_continues]. case_decide; [done | apply push_event_continues].
Qed.

Lemma resolve_continues now i : continues i (resolve now i).
Proof.
  unfold resolve. etrans; [|apply push_event_continues].
  etrans; [apply with_status_continues | apply with_ended_at_continues].
Qed.

#[export] Hint Resolve push_event_continues with_status_continues with_ended_at_continues
  with_diagnoses_continues merge_diagnosis_continues escalate_continues reopen_continues
  refresh_continues resolve_continues : sentinel.

(** ** Merging a group of diagnoses *)

Lemma merge_diagnoses_list i ds :
  incident_diagnoses (foldl merge_diagnosis i ds) = (incident_diagnoses i ++ ds)%list.
Proof.
  revert i. induction ds as [|d ds IH]; intros i; cbn [foldl]; [by rewrite app_nil_r|].
  rewrite IH. cbn. by rewrite <-(assoc (++)%list).
Qed.

Lemma merge_diagnoses_status i ds : incident_status (foldl merge_diagnosis i ds) = incident_status i.
Proof. revert i. induction ds as [|d ds IH]; intros i; cbn [foldl]; [done|]. by rewrite IH. Qed.

Lemma merge_diagnoses_timeline i ds : timeline (foldl merge_diagnosis i ds) = timeline i.
Proof. revert i. induction ds as [|d ds IH]; intros i; cbn [foldl]; [done|]. by rewrite IH. Qed.

Lemma merge_diagnoses_severity i ds : incident_severity (foldl merge_diagnosis i ds) = incident_severity i.
Proof. revert i. induction ds as [|d ds IH]; intros i; cbn [foldl]; [done|]. by rewrite IH. Qed.

(** What an incident says about a diagnosis folded into it. *)
Definition accounts_for (i : Incident) (d : Diagnosis) : Prop :=
  affected_entities d ⊆ incident_affected i ∧ suspected_root_entities d ⊆ incident_roots i.

Lemma accounts_for_continues i i' d : continues i i' → accounts_for i d → accounts_for i' d.
Proof.
  intros [_ _ _ _ _ [? Ha] [? Hr] _] [H1 H2]. split; [rewrite Ha | rewrite Hr]; set_solver.
Qed.

Lemma merge_accounts_for i d : accounts_for (merge_diagnosis i d) d.
Proof. split; intros x Hx; cbn; apply elem_of_foldl_push_unique; by right. Qed.

Lemma merge_diagnoses_account i ds d : d ∈ ds → accounts_for (foldl merge_diagnosis i ds) d.
Proof.
  revert i. induction ds as [|d' ds IH]; intros i Hd; [set_solver|].
  cbn [foldl]. apply elem_of_cons in Hd as [->|Hd]; [|by apply IH].
  eapply accounts_for_continues; [apply merge_diagnoses_continues | apply merge_accounts_for].
Qed.

(** [add_diagnosis] is [merge_diagnosis] with a line on the timeline. *)
Lemma add_diagnoses_list now i ds :
  incident_diagnoses (foldl (add_diagnosis now) i ds) = (incident_diagnoses i ++ ds)%list.
Proof.
  revert i. induction ds as [|d ds IH]; intros i; cbn [foldl]; [by rewrite app_nil_r|].
  rewrite IH. cbn. by rewrite <-(assoc (++)%list).
Qed.

Lemma add_diagnosis_continues now i d : continues i (add_diagnosis now i d).
Proof. unfold add_diagnosis. etrans; [apply push_event_continues | apply merge_diagnosis_continues]. Qed.

Lemma add_diagnoses_continues now i ds : continues i (foldl (add_diagnosis now) i ds).
Proof.
  revert i. induction ds as [|d ds IH]; intros i; cbn [foldl]; [done|].
  etrans; [apply add_diagnosis_continues | apply IH].
Qed.

Lemma add_diagnoses_frame now i ds :
  incident_status (foldl (add_diagnosis now) i ds) = incident_status i
  ∧ ended_at (foldl (add_diagnosis now) i ds) = ended_at i
  ∧ incident_severity (foldl (add_diagnosis now) i ds) = incident_severity i.
Proof.
  revert i. induction ds as [|d ds IH]; intros i; cbn [foldl]; [done|].
  destruct (IH (add_diagnosis now i d)) as (-> & -> & ->). done.
Qed.

Lemma add_diagnoses_account now i ds d : d ∈ ds → accounts_for (foldl (add_diagnosis now) i ds) d.
Proof.
  revert i. induction ds as [|d' ds IH]; intros i Hd; [set_solver|].
  cbn [foldl]. apply elem_of_cons in Hd as [->|Hd]; [|by apply IH].
  eapply accounts_for_continues; [apply add_diagnoses_continues | apply merge_accounts_for].
Qed.

(** A new incident. *)
Lemma open_incident_spec id now fp s ds :
  let i := open_incident id now fp s ds in
  incident_id i = id ∧ incident_fingerprint i = fp ∧ incident_status i = Status_Open
  ∧ incident_severity i = s ∧ incident_started_at i = now ∧ ended_at i = None
  ∧ incident_diagnoses i = ds ∧ ∀ d, d ∈ ds → accounts_for i d.
Proof.
  cbn zeta. unfold open_incident. set (i0 := push_event _ _ _ _).
  destruct (add_diagnoses_continues now i0 ds) as [Hid Hfp Hst _ _ _ _ _].
  destruct (add_diagnoses_frame now i0 ds) as (Hs & He & Hsev).
  rewrite Hid, Hfp, Hst, Hs, He, Hsev, add_diagnoses_list. split_and!; try done.
  intros d. apply add_diagnoses_account.
Qed.

Lemma open_incident_wf id now fp s ds : incident_wf (open_incident id now fp s ds).
Proof.
  unfold open_incident. assert (incident_wf (push_event now "opened" ("severity " +:+ severity_as_str s)
    (incident_open id now fp s))) as Hwf by auto with sentinel.
  revert Hwf. generalize (push_event now "opened" ("severity " +:+ severity_as_str s)
    (incident_open id now fp s)).
  induction ds as [|d ds IH]; intros i Hi; cbn [foldl]; auto with sentinel.
Qed.

Lemma merge_diagnoses_wf i ds : incident_wf i → incident_wf (foldl merge_diagnosis i ds).
Proof. revert i. induction ds as [|d ds IH]; intros i Hi; cbn [foldl]; auto with sentinel. Qed.

(** ** One incident through a pass *)

Lemma reopen_wf now i : incident_wf i → incident_wf (reopen now i).
Proof.
  intros Hi. unfold reopen. cbn zeta. destruct (decide (incident_status i = Status_Recovering)) as [Hr|Hr].
  - cbn [incident_status push_event with_status]. rewrite decide_False by done.
    apply push_event_wf, with_active_status_wf; [done| |done]. apply (iwf_active i Hi). by rewrite Hr.
  - case_decide; [|done]. apply push_event_wf. destruct Hi. by split.
Qed.

Lemma reopen_status now i :
  incident_status (reopen now i) =
    match incident_status i with
    | Status_Recovering | Status_Resolved => Status_Open
    | s => s
    end.
Proof.
  unfold reopen. cbn zeta. destruct (decide (incident_status i = Status_Recovering)) as [->|Hr]; [done|].
  case_decide as Hs; [by rewrite Hs|]. by destruct (incident_status i).
Qed.

Lemma escalate_frame now s i :
  incident_status (escalate now s i).1 = incident_status i
  ∧ incident_diagnoses (escalate now s i).1 = incident_diagnoses i.
Proof. unfold escalate. by case_match. Qed.

Lemma reopen_diagnoses now i : incident_diagnoses (reopen now i) = incident_diagnoses i.
Proof. unfold reopen. cbn zeta. repeat case_decide; done. Qed.

Lemma refresh_wf now i ds : incident_wf i → incident_wf (refresh now i ds).
Proof.
  intros Hi. unfold refresh. cbn zeta. apply merge_diagnoses_wf, with_diagnoses_wf.
  case_decide; auto with sentinel.
Qed.

Lemma refresh_frame now i ds :
  incident_status (refresh now i ds) = incident_status i
  ∧ incident_severity (refresh now i ds) = incident_severity i
  ∧ incident_diagnoses (refresh now i ds) = ds.
Proof.
  unfold refresh. cbn zeta. rewrite merge_diagnoses_list, merge_diagnoses_status, merge_diagnoses_severity.
  by case_decide.
Qed.

Lemma refresh_account now i ds d : d ∈ ds → accounts_for (refresh now i ds) d.
Proof. unfold refresh. cbn zeta. apply merge_diagnoses_account. Qed.

(** An incident that already lists diagnoses of these types records nothing. *)
Lemma refresh_quiet now i ds :
  diagnosis_types (incident_diagnoses i) = diagnosis_types ds → timeline (refresh now i ds) = timeline i.
Proof.
  intros Heq. unfold refresh. cbn zeta. rewrite merge_diagnoses_timeline. by rewrite decide_True.
Qed.

(** What a group of diagnoses makes of the incident filed under its
    fingerprint. *)
Lemma reconcile_diagnosed_spec id now fp s ds old c i' :
  reconcile_diagnosed id now fp s ds old = (c, i') →
  incident_diagnoses i' = ds ∧ (∀ d, d ∈ ds → accounts_for i' d)
  ∧ (severity_level s ≤ severity_level (incident_severity i'))%N
  ∧ incident_status i' ≠ Status_Resolved ∧ incident_status i' ≠ Status_Recovering
  ∧ match old with
    | Some i =>
        (c = Change_Updated ∧ continues i i'
         ∧ incident_status i' = match incident_status i with
                                | Status_Recovering | Status_Resolved => Status_Open
                                | s => s
                                end)
        ∨ (c = Change_Opened ∧ incident_id i' = id ∧ incident_fingerprint i' = fp
           ∧ incident_status i' = Status_Open ∧ incident_status i = Status_Resolved
           ∧ within_reopen_window now i = false)
    | None => c = Change_Opened ∧ incident_id i' = id ∧ incident_fingerprint i' = fp
              ∧ incident_status i' = Status_Open
    end.
Proof.
  pose proof (open_incident_spec id now fp s ds) as (Hid & Hfp & Hst & Hsev & _ & _ & Hds & Hacc).
  unfold reconcile_diagnosed. destruct old as [i|]; [destruct (_ && _)%bool eqn:Hout|]; intros [= <- <-].
  - apply andb_true_iff in Hout as [Hres%bool_decide_eq_true Hwin%negb_true_iff].
    rewrite Hds, Hsev, Hst. split_and!; try done. by right.
  - destruct (refresh_frame now (escalate now s (reopen now i)).1 ds) as (Hs & Hv & Hd).
    destruct (escalate_frame now s (reopen now i)) as [He _].
    rewrite Hd, Hs, Hv, He, reopen_status. split_and!; try done.
    + intros d. apply refresh_account.
    + apply escalate_level.
    + by destruct (incident_status i).
    + by destruct (incident_status i).
    + left. split_and!; try done. etrans; [apply reopen_continues|].
      etrans; [apply (escalate_continues now s) | apply refresh_continues].
  - rewrite Hds, Hsev, Hst. split_and!; done.
Qed.

Lemma reconcile_diagnosed_wf id now fp s ds old c i' :
  reconcile_diagnosed id now fp s ds old = (c, i') →
  (∀ i, old = Some i → incident_wf i ∧ incident_fingerprint i = fp) →
  incident_wf i' ∧ incident_fingerprint i' = fp.
Proof.
  intros Hr Hold. split.
  - unfold reconcile_diagnosed in Hr. repeat case_match; simplify_eq; try apply open_incident_wf.
    apply refresh_wf, escalate_wf, reopen_wf. by apply Hold.
  - apply reconcile_diagnosed_spec in Hr as (_ & _ & _ & _ & _ & Hold'). destruct old as [i|].
    + destruct Hold' as [(_ & Hc & _)|(_ & _ & Hfp & _)]; [|done].
      rewrite (cont_fingerprint _ _ Hc). by apply Hold.
    + by destruct Hold' as (_ & _ & Hfp & _).
Qed.

(** What the absence of a diagnosis makes of an active incident. *)
Lemma reconcile_undiagnosed_spec now recovered i c i' :
  reconcile_undiagnosed now recovered i = (c, i') →
  continues i i' ∧ incident_diagnoses i' = incident_diagnoses i
  ∧ match c with
    | Change_Opened => False
    | Change_Resolved => (recovered i).2 = true ∧ incident_status i' = Status_Resolved ∧ ended_at i' = Some now
    | Change_Recovering => (recovered i).1 = true ∧ (recovered i).2 = false
                           ∧ incident_status i ≠ Status_Recovering ∧ incident_status i' = Status_Recovering
    | Change_Updated => (recovered i).2 = false
                        ∧ (incident_status i' = incident_status i
                           ∨ incident_status i = Status_Recovering ∧ (recovered i).1 = false
                             ∧ incident_status i' = Status_Open)
    end.
Proof.
  unfold reconcile_undiagnosed. destruct (recovered i) as [root full]. cbn [fst snd].
  destruct full; [|destruct (root && _)%bool eqn:Hroot; [|destruct (negb root && _)%bool eqn:Hlost]];
    intros [= <- <-].
  - split_and!; auto with sentinel.
  - apply andb_true_iff in Hroot as [-> Hs%negb_true_iff%bool_decide_eq_false].
    split_and!; try done. etrans; [apply with_status_continues | apply push_event_continues].
  - apply andb_true_iff in Hlost as [->%negb_true_iff Hs%bool_decide_eq_true].
    split_and!; try done; [|by right]. etrans; [apply with_status_continues | apply push_event_continues].
  - split_and!; try done. by left.
Qed.

Lemma reconcile_undiagnosed_wf now recovered i c i' :
  reconcile_undiagnosed now recovered i = (c, i') →
  status_is_active (incident_status i) = true → incident_wf i → incident_wf i'.
Proof.
  unfold reconcile_undiagnosed. intros Hr Ha Hi. pose proof (iwf_active i Hi Ha) as He.
  repeat case_match; simplify_eq; auto using with_active_status_wf with sentinel.
Qed.

(** ** A pass evolves each incident on its own *)

Section pass.
Context `{U : UuidApi} `{J : JsonApi} `{P : IncidentPass}.
Implicit Types m : gmap string Incident.
Implicit Types u : IncidentUpdate.

(** The diagnoses filed under a fingerprint, in the order they were drawn. *)
Definition filed_under (fp : string) (ds : list Diagnosis) : list Diagnosis :=
  filter (λ d, fingerprint d = fp) ds.

Lemma elem_of_filed_under fp ds d : d ∈ filed_under fp ds ↔ d ∈ ds ∧ fingerprint d = fp.
Proof. unfold filed_under. rewrite list_elem_of_filter. tauto. Qed.

Definition non_empty {A} (l : list A) : option (list A) := match l with [] => None | _ => Some l end.

Lemma grouped_lookup fp ds : grouped ds !! fp = non_empty (filed_under fp ds).
Proof.
  unfold grouped, filed_under.
  enough (∀ m : gmap string (list Diagnosis), foldl group_push m ds !! fp =
    match filter (λ d, fingerprint d = fp) ds with
    | [] => m !! fp
    | l => Some (default [] (m !! fp) ++ l)%list
    end) as Hgen.
  { rewrite Hgen, lookup_empty. by destruct (filter _ ds). }
  induction ds as [|d ds IH]; intros m; cbn [foldl]; [done|]. rewrite IH. unfold group_push.
  rewrite filter_cons. case_decide as Hfp.
  - subst. rewrite lookup_insert_eq. cbn. destruct (filter _ ds); [done|].
    by rewrite <-(assoc (++)%list).
  - rewrite lookup_insert_ne by done. done.
Qed.

(** One incident's evolution, by what is diagnosed and how it stood. *)
Inductive evolves (g : DependencyGraph) (ds : list Diagnosis) (recovered : Incident → bool * bool)
    (fp : string) : option Incident → option (Change * Incident) → Prop :=
  | evolves_diagnosed old s c i' :
      filed_under fp ds ≠ [] → group_severity (filed_under fp ds) g = Some s →
      reconcile_diagnosed (fresh_id fp) (clock fp) fp s (filed_under fp ds) old = (c, i') →
      evolves g ds recovered fp old (Some (c, i'))
  | evolves_undiagnosed i c i' :
      filed_under fp ds = [] → status_is_active (incident_status i) = true →
      reconcile_undiagnosed (clock fp) recovered i = (c, i') →
      evolves g ds recovered fp (Some i) (Some (c, i'))
  | evolves_idle old :
      filed_under fp ds = [] → (∀ i, old = Some i → status_is_active (incident_status i) = false) →
      evolves g ds recovered fp old None.

(** What is stored after the evolution. *)
Definition stored (old : option Incident) (ch : option (Change * Incident)) : option Incident :=
  match ch with Some (_, i) => Some i | None => old end.

Lemma elem_of_push_change c c' i i' u :
  i' ∈ bucket c' (push_change c i u) ↔ i' ∈ bucket c' u ∨ (c' = c ∧ i' = i).
Proof. destruct c, c'; cbn; rewrite ?elem_of_app, ?list_elem_of_singleton; naive_solver. Qed.

(** The loop over the groups. *)
Lemma diagnosed_loop_spec g l m u m' u' :
  NoDup l.*1 → diagnosed_loop g l m u = Some (m', u') →
  (∀ fp, fp ∉ l.*1 → m' !! fp = m !! fp)
  ∧ (∀ fp ds, (fp, ds) ∈ l → ∃ s c i', group_severity ds g = Some s
       ∧ reconcile_diagnosed (fresh_id fp) (clock fp) fp s ds (m !! fp) = (c, i')
       ∧ m' !! fp = Some i' ∧ i' ∈ bucket c u')
  ∧ (∀ c i', i' ∈ bucket c u' → i' ∈ bucket c u ∨ ∃ fp ds s, (fp, ds) ∈ l ∧ group_severity ds g = Some s
       ∧ reconcile_diagnosed (fresh_id fp) (clock fp) fp s ds (m !! fp) = (c, i'))
  ∧ (∀ c i', i' ∈ bucket c u → i' ∈ bucket c u').
Proof.
  revert m u. induction l as [|[fp ds] l IH]; intros m u Hnd Hl; cbn [diagnosed_loop] in Hl.
  { injection Hl as <- <-. split_and!; [done|set_solver|by left|done]. }
  apply NoDup_cons in Hnd as [Hfp Hnd]. cbn [fst] in Hfp.
  destruct (group_severity ds g) as [s|] eqn:Hs; cbn in Hl; [|done].
  destruct (reconcile_diagnosed (fresh_id fp) (clock fp) fp s ds (m !! fp)) as [c i] eqn:Hr.
  destruct (IH _ _ Hnd Hl) as (Hout & Hin & Hfrom & Hkeep).
  assert (∀ fp', fp' ∈ l.*1 → <[ fp := i ]> m !! fp' = m !! fp') as Hother.
  { intros fp' Hfp'. apply lookup_insert_ne. by intros ->. }
  assert (∀ fp' (ds' : list Diagnosis), (fp', ds') ∈ l → fp' ∈ l.*1) as Hfst.
  { intros fp' ds' Hin'. apply list_elem_of_fmap. by exists (fp', ds'). }
  split_and!.
  - intros fp' Hfp'. rewrite Hout by set_solver. apply lookup_insert_ne. set_solver.
  - intros fp' ds' [[= -> ->]|Hin']%elem_of_cons.
    + exists s, c, i. split_and!; try done; [by rewrite Hout, lookup_insert_eq|].
      apply Hkeep, elem_of_push_change. by right.
    + rewrite <-Hother by eauto. by apply Hin.
  - intros c' i' Hi'. destruct (Hfrom _ _ Hi') as [Hu|(fp' & ds' & s' & Hin' & Hs' & Hr')].
    + apply elem_of_push_change in Hu as [Hu|[-> ->]]; [by left|]. right. exists fp, ds, s.
      split_and!; [by left|done..].
    + rewrite Hother in Hr' by eauto. right. exists fp', ds', s'. split_and!; [by right|done..].
  - intros c' i' Hi'. apply Hkeep, elem_of_push_change. by left.
Qed.

(** Which incidents the second loop looks at. *)
Definition undiagnosed (groups : gmap string (list Diagnosis)) (fp : string) (i : Incident) : bool :=
  negb (bool_decide (is_Some (groups !! fp)) || negb (status_is_active (incident_status i))).

Lemma undiagnosed_loop_spec groups recovered l m u m' u' :
  NoDup l.*1 → undiagnosed_loop groups recovered l m u = (m', u') →
  (∀ fp, fp ∉ l.*1 → m' !! fp = m !! fp)
  ∧ (∀ fp i, (fp, i) ∈ l →
       if undiagnosed groups fp i
       then ∃ c i', reconcile_undiagnosed (clock fp) recovered i = (c, i')
              ∧ m' !! fp = Some i' ∧ i' ∈ bucket c u'
       else m' !! fp = m !! fp)
  ∧ (∀ c i', i' ∈ bucket c u' → i' ∈ bucket c u ∨ ∃ fp i, (fp, i) ∈ l ∧ undiagnosed groups fp i = true
       ∧ reconcile_undiagnosed (clock fp) recovered i = (c, i'))
  ∧ (∀ c i', i' ∈ bucket c u → i' ∈ bucket c u').
Proof.
  revert m u. induction l as [|[fp i] l IH]; intros m u Hnd Hl; cbn [undiagnosed_loop] in Hl.
  { injection Hl as <- <-. split_and!; [done|set_solver|by left|done]. }
  apply NoDup_cons in Hnd as [Hfp Hnd]. cbn [fst] in Hfp.
  assert (∀ fp' (j : Incident), (fp', j) ∈ l → fp' ≠ fp) as Hne.
  { intros fp' j Hj ->. apply Hfp, list_elem_of_fmap. by exists (fp, j). }
  unfold undiagnosed. destruct (_ || _)%bool eqn:Hskip.
  { destruct (IH _ _ Hnd Hl) as (Hout & Hin & Hfrom & Hkeep). split_and!; [set_solver| | |done].
    - intros fp' j [[= -> ->]|Hj]%elem_of_cons; [rewrite Hskip; by apply Hout | by apply Hin].
    - intros c' i' Hi'. destruct (Hfrom _ _ Hi') as [|(fp' & j & Hj & Hrest)]; [by left|].
      right. exists fp', j. split; [by right|done]. }
  destruct (reconcile_undiagnosed (clock fp) recovered i) as [c i1] eqn:Hr.
  destruct (IH _ _ Hnd Hl) as (Hout & Hin & Hfrom & Hkeep). split_and!.
  - intros fp' Hfp'. rewrite Hout by set_solver. apply lookup_insert_ne. set_solver.
  - intros fp' j [[= -> ->]|Hj]%elem_of_cons.
    + rewrite Hskip. exists c, i1. split_and!; try done; [by rewrite Hout, lookup_insert_eq|].
      apply Hkeep, elem_of_push_change. by right.
    + specialize (Hin _ _ Hj). unfold undiagnosed in Hin.
      rewrite lookup_insert_ne in Hin by (symmetry; eauto). done.
  - intros c' i' Hi'. destruct (Hfrom _ _ Hi') as [Hu|(fp' & j & Hj & Hrest)].
    + apply elem_of_push_change in Hu as [Hu|[-> ->]]; [by left|]. right. exists fp, i.
      rewrite Hskip. split_and!; [by left|done..].
    + right. exists fp', j. split; [by right|done].
  - intros c' i' Hi'. apply Hkeep, elem_of_push_change. by left.
Qed.
Lemma grouped_entries fp gs ds : (fp, gs) ∈ btree_entries (grouped ds) ↔ gs = filed_under fp ds ∧ gs ≠ [].
Proof.
  rewrite elem_of_btree_entries, grouped_lookup. unfold non_empty.
  destruct (filed_under fp ds); naive_solver.
Qed.

Lemma not_in_btree_keys {V} (m : gmap string V) k : m !! k = None → k ∉ (btree_entries m).*1.
Proof. intros Hk Hin. apply (elem_of_btree_keys m k) in Hin as [? ?]. congruence. Qed.

Lemma undiagnosed_spec ds fp i :
  undiagnosed (grouped ds) fp i = true ↔ filed_under fp ds = [] ∧ status_is_active (incident_status i) = true.
Proof.
  unfold undiagnosed. rewrite grouped_lookup, negb_true_iff, orb_false_iff, negb_false_iff, bool_decide_eq_false.
  unfold non_empty. destruct (filed_under fp ds); rewrite <-?not_eq_None_Some; naive_solver.
Qed.

(** A pass is the simultaneous evolution of all incidents, and the update lists
    exactly the incidents that evolved, each under what became of it. *)
Lemma reconcile_evolves e ds g recovered e' u :
  reconcile_verified e ds g recovered = Some (e', u) →
  (∀ fp, ∃ ch, evolves g ds recovered fp (incidents e !! fp) ch
     ∧ incidents e' !! fp = stored (incidents e !! fp) ch
     ∧ ∀ c i, ch = Some (c, i) → i ∈ bucket c u)
  ∧ (∀ c i, i ∈ bucket c u → ∃ fp, evolves g ds recovered fp (incidents e !! fp) (Some (c, i))
       ∧ incidents e' !! fp = Some i).
Proof.
  unfold reconcile_verified. cbn zeta.
  destruct (diagnosed_loop g (btree_entries (grouped ds)) (incidents e) update_default)
    as [[m1 u1]|] eqn:H1; cbn [mbind option_bind]; [|done].
  destruct (undiagnosed_loop (grouped ds) recovered (btree_entries m1) m1 u1) as [m2 u2] eqn:H2.
  intros [= <- <-]. cbn [incidents].
  destruct (diagnosed_loop_spec _ _ _ _ _ _ (NoDup_btree_keys _) H1) as (Hout1 & Hin1 & Hfrom1 & _).
  destruct (undiagnosed_loop_spec _ _ _ _ _ _ _ (NoDup_btree_keys _) H2) as (Hout2 & Hin2 & Hfrom2 & Hkeep2).
  assert (∀ fp, filed_under fp ds = [] → m1 !! fp = incidents e !! fp) as Hsame1.
  { intros fp Hfp. apply Hout1, not_in_btree_keys. by rewrite grouped_lookup, Hfp. }
  assert (∀ fp i, m1 !! fp = Some i → undiagnosed (grouped ds) fp i = false → m2 !! fp = m1 !! fp) as Hsame2.
  { intros fp i Hi Hu. specialize (Hin2 fp i). rewrite elem_of_btree_entries, Hu in Hin2. auto. }
  split.
  - intros fp. destruct (decide (filed_under fp ds = [])) as [Hfp|Hfp].
    + destruct (m1 !! fp) as [i|] eqn:Hi.
      * destruct (undiagnosed (grouped ds) fp i) eqn:Hu.
        -- specialize (Hin2 fp i). rewrite elem_of_btree_entries, Hu in Hin2.
           destruct (Hin2 Hi) as (c & i' & Hr & Hm & Hb). exists (Some (c, i')).
           apply undiagnosed_spec in Hu as [_ Ha]. rewrite <-Hsame1, Hi by done.
           split_and!; [by eapply evolves_undiagnosed|done|]. by intros ? ? [= <- <-].
        -- exists None. rewrite (Hsame2 _ _ Hi Hu), Hsame1 by done. split_and!; [|done|done].
           apply evolves_idle; [done|]. intros j Hj. rewrite <-Hsame1, Hi in Hj by done. injection Hj as <-.
           destruct (status_is_active _) eqn:Ha; [|done].
           by rewrite (proj2 (undiagnosed_spec ds fp i) (conj Hfp Ha)) in Hu.
      * exists None. rewrite Hout2 by (by apply not_in_btree_keys). rewrite <-Hsame1, Hi by done.
        split_and!; [by apply evolves_idle|done|done].
    + destruct (Hin1 fp (filed_under fp ds)) as (s & c & i' & Hs & Hr & Hm & Hb);
        [by apply grouped_entries|]. exists (Some (c, i')).
      rewrite (Hsame2 _ _ Hm), Hm.
      * split_and!; [by eapply evolves_diagnosed|done|]. intros ? ? [= <- <-]. by apply Hkeep2.
      * destruct (undiagnosed _ _ _) eqn:Hu; [|done]. by apply undiagnosed_spec in Hu as [? _].
  - intros c i' Hi'. destruct (Hfrom2 _ _ Hi') as [Hu1|(fp & i & Hin & Hu & Hr)].
    + destruct (Hfrom1 _ _ Hu1) as [Hu0|(fp & gs & s & Hin & Hs & Hr)]; [by destruct c; apply not_elem_of_nil in Hu0|].
      pose proof Hin as Hin'. apply grouped_entries in Hin' as [-> Hne]. exists fp.
      split; [by eapply evolves_diagnosed|].
      destruct (Hin1 _ _ Hin) as (s' & c' & j & Hs' & Hr' & Hm & _). simplify_eq.
      rewrite Hr in Hr'. injection Hr' as <- <-. rewrite (Hsame2 _ _ Hm); [done|].
      destruct (undiagnosed _ _ _) eqn:Hu; [|done]. by apply undiagnosed_spec in Hu as [? _].
    + specialize (Hin2 _ _ Hin). rewrite Hu in Hin2. destruct Hin2 as (c2 & j & Hr2 & Hm & _).
      rewrite Hr in Hr2. injection Hr2 as <- <-. exists fp. split; [|done].
      apply elem_of_btree_entries in Hin. apply undiagnosed_spec in Hu as [Hfp Ha].
      rewrite <-Hsame1, Hin by done. by eapply evolves_undiagnosed.
Qed.
End pass.

(** ** Severity *)

Section severity.
Context `{J : JsonApi}.

(** [x] transitively depends on [root]. *)
Definition depends_on_root (g : DependencyGraph) (root x : EntityId) : Prop :=
  x ≠ root ∧ rtc (hop g Downstream (λ _, true)) root x.

(** At least [n] entities do. *)
Definition dependents_at_least (g : DependencyGraph) (root : EntityId) (n : nat) : Prop :=
  ∃ l : list EntityId, NoDup l ∧ n = length l ∧ ∀ x, x ∈ l → depends_on_root g root x.

Lemma downstream_count g root n :
  graph_wf g → ∃ out, downstream g root None = Some out ∧ ((n ≤ length out)%nat ↔ dependents_at_least g root n).
Proof.
  intros Hwf. destruct (walk_finishes g root None Downstream (λ _, true) Hwf) as (st & Hw & Hok).
  exists (walk_out st). split; [done|].
  pose proof (walk_out_spec g root None Downstream (λ _, true) st Hwf Hok) as Hout.
  assert (∀ x, x ∈ map reached_entity (walk_out st) ↔ depends_on_root g root x) as Hmem.
  { intros x. rewrite list_elem_of_fmap. split.
    - intros (r & -> & (Hne & _ & Hp & _)%Hout). split; [done|]. by eapply rtc_nsteps_2.
    - intros [Hne [m Hm]%rtc_nsteps_1].
      destruct (walk_complete g None Downstream (λ _, true) root Hwf st m x Hok Hm I) as (s & Hin & Heq & _).
      exists s. split; [done|]. apply elem_of_cons in Hin as [->|Hin]; [by destruct Hne|done]. }
  pose proof (wok_end _ _ _ _ _ _ _ Hok) as [b Hb]. pose proof (ok_nodup _ _ _ _ _ _ _ Hb) as Hnd.
  apply NoDup_cons in Hnd as [_ Hnd].
  change (NoDup (map reached_entity (walk_out st))) in Hnd. rewrite <-(length_map reached_entity). split.
  - intros Hle. exists (take n (map reached_entity (walk_out st))). split_and!.
    + rewrite <-(take_drop n (map reached_entity (walk_out st))) in Hnd. by apply NoDup_app in Hnd as [? _].
    + rewrite length_take. lia.
    + intros x Hx. apply Hmem. revert Hx. apply subseteq_take.
  - intros (l & Hl & -> & Hall). apply submseteq_length, NoDup_submseteq; [done|].
    intros x Hx. by apply Hmem, Hall.
Qed.

Lemma le_max_nat n l : (0 < n)%nat → (n ≤ max_nat l)%nat ↔ ∃ m, m ∈ l ∧ (n ≤ m)%nat.
Proof.
  intros Hn. unfold max_nat. induction l as [|m l IH]; cbn [foldr].
  - split; [lia|set_solver].
  - rewrite exists_elem_cons, <-IH. lia.
Qed.

Lemma fan_out_spec g d :
  graph_wf g →
  ∃ n, fan_out d g = Some n ∧ ∀ k, (0 < k)%nat →
    (k ≤ n)%nat ↔ ∃ root, root ∈ suspected_root_entities d ∧ dependents_at_least g root k.
Proof.
  intros Hwf. unfold fan_out. set (roots := suspected_root_entities d). clearbody roots.
  enough (∃ ns, mapM (λ root, length <$> downstream g root None) roots = Some ns ∧ ∀ k, (0 < k)%nat →
    (∃ m, m ∈ ns ∧ (k ≤ m)%nat) ↔ ∃ root, root ∈ roots ∧ dependents_at_least g root k) as (ns & -> & Hns).
  { exists (max_nat ns). split; [done|]. intros k Hk. by rewrite le_max_nat, Hns. }
  induction roots as [|r roots IH]; cbn; [exists []; split; [done|set_solver]|].
  destruct (downstream_count g r 0 Hwf) as (out & Hout & _). rewrite Hout. cbn.
  destruct IH as (ns & -> & Hns). cbn. exists (length out :: ns). split; [done|]. intros k Hk.
  rewrite !exists_elem_cons, Hns by done.
  destruct (downstream_count g r k Hwf) as (out' & Hout' & Hc). simplify_eq. by rewrite Hc.
Qed.

Lemma severity_for_total g d : graph_wf g → is_Some (severity_for d g).
Proof.
  intros Hwf. unfold severity_for. cbn zeta. case_decide; [done|].
  destruct (fan_out_spec g d Hwf) as (n & -> & _). cbn [mbind option_bind]. by repeat case_match.
Qed.

Lemma group_severity_total g ds : graph_wf g → is_Some (group_severity ds g).
Proof.
  intros Hwf. unfold group_severity.
  destruct (mapM (λ d, severity_for d g) ds) as [ss|] eqn:Hm; [by eexists|]. exfalso.
  assert (is_Some (mapM (λ d, severity_for d g) ds)) as [? ?]; [|congruence].
  apply mapM_is_Some. apply Forall_forall. intros d _. by apply severity_for_total.
Qed.

(** A group is at least as severe as each of its diagnoses. *)
Lemma group_severity_ge g ds s d :
  group_severity ds g = Some s → d ∈ ds →
  ∃ s', severity_for d g = Some s' ∧ (severity_level s' ≤ severity_level s)%N.
Proof.
  unfold group_severity. destruct (mapM (λ d, severity_for d g) ds) as [ss|] eqn:Hm; cbn; [|done].
  intros [= <-] Hd. apply mapM_Some in Hm.
  apply list_elem_of_lookup in Hd as [k Hk].
  destruct (Forall2_lookup_l _ _ _ _ _ Hm Hk) as (s' & Hs' & Hsev). apply list_elem_of_lookup_2 in Hs'.
  exists s'. split; [done|].
  destruct (max_by_key severity_level ss) as [t|] eqn:Ht; cbn.
  - apply max_by_key_Some in Ht as [_ Hmax]. by apply (Hmax s').
  - apply max_by_key_None in Ht as ->. set_solver.
Qed.
End severity.

(** Severity follows the confidence and the topology.  On a well-formed graph
    [severity_for] never panics; a low-confidence guess is only ever
    informational; otherwise the diagnosis is critical exactly when its kind is,
    or at least three distinct entities transitively depend on one suspected
    cause, and informational exactly when its kind is and nothing depends on
    any suspected cause. *)
Theorem severity_follows_topology `{J : JsonApi} (g : DependencyGraph) (d : Diagnosis) :
  graph_wf g →
  ∃ s, severity_for d g = Some s
    ∧ (confidence d = Confidence_Low → s = Severity_Info)
    ∧ (confidence d ≠ Confidence_Low →
       (s = Severity_Critical ↔ base_severity d = Severity_Critical
          ∨ ∃ root, root ∈ suspected_root_entities d ∧ dependents_at_least g root 3)
       ∧ (s = Severity_Info ↔ base_severity d = Severity_Info
          ∧ ∀ root x, root ∈ suspected_root_entities d → ¬ depends_on_root g root x)).
Proof.
  intros Hwf. unfold severity_for. cbn zeta. destruct (fan_out_spec g d Hwf) as (n & -> & Hn).
  case_decide as Hlow; [by exists Severity_Info|]. cbn [mbind option_bind].
  assert ((∀ root x, root ∈ suspected_root_entities d → ¬ depends_on_root g root x) ↔ ¬ (1 <= n)%nat) as Hnone.
  { rewrite (Hn 1%nat) by lia. split.
    - intros Hno (root & Hr & [|x l] & _ & Hlen & Hall); [done|].
      apply (Hno root x); [done|]. apply Hall. by left.
    - intros Hno root x Hr Hx. apply Hno. exists root. split; [done|]. exists [x].
      split_and!; [apply NoDup_singleton|done|]. by intros y ->%list_elem_of_singleton. }
  pose proof (Hn 3%nat ltac:(lia)) as Hmany.
  destruct (Nat.leb_spec 3 n), (Nat.leb_spec 1 n); destruct (base_severity d); cbn;
    eexists; (split; [done|]); (split; [done|]); intros _; rewrite Hnone, <-Hmany; clear Hn Hnone Hmany;
    split; split; intros; destruct_or?; destruct_and?; try done; try (by left); try (right; lia); try lia;
    try (split; [done|lia]).
Qed.

(** ** The properties of a pass *)

Section properties.
Context `{U : UuidApi} `{J : JsonApi}.

(** On a well-formed graph the loop over the groups does not panic. *)
Lemma diagnosed_loop_total `{P : IncidentPass} g l m u : graph_wf g → is_Some (diagnosed_loop g l m u).
Proof.
  intros Hwf. revert m u. induction l as [|[fp ds] l IH]; intros m u; cbn [diagnosed_loop]; [done|].
  destruct (group_severity_total g ds Hwf) as [s ->]. cbn [mbind option_bind].
  destruct (reconcile_diagnosed _ _ _ _ _ _) as [c i]. apply IH.
Qed.

Lemma reconcile_verified_total `{P : IncidentPass} e ds g recovered :
  graph_wf g → is_Some (reconcile_verified e ds g recovered).
Proof.
  intros Hwf. unfold reconcile_verified. cbn zeta.
  destruct (diagnosed_loop_total g (btree_entries (grouped ds)) (incidents e) update_default Hwf) as [[m u] ->].
  cbn [mbind option_bind]. by destruct (undiagnosed_loop _ _ _ _ _).
Qed.

(** Every incident held before a pass is held after it, continued or replaced. *)
Lemma evolves_keeps `{P : IncidentPass} g ds recovered fp i ch :
  evolves g ds recovered fp (Some i) ch →
  ∃ i', stored (Some i) ch = Some i' ∧
    (continues i i'
     ∨ (filed_under fp ds ≠ [] ∧ incident_status i = Status_Resolved
        ∧ within_reopen_window (clock fp) i = false ∧ incident_id i' = fresh_id fp
        ∧ ch = Some (Change_Opened, i'))).
Proof.
  intros Hev. inversion Hev as [old s c i' Hne Hs Hr Ho|j c i' Hno Ha Hr Hj Hc|old Hno Hidle Ho]; subst; cbn [stored].
  - exists i'. split; [done|]. apply reconcile_diagnosed_spec in Hr as (_ & _ & _ & _ & _ & Hold).
    destruct Hold as [(_ & Hc & _)|(-> & Hid & _ & _ & Hres & Hwin)]; [by left|]. right. done.
  - exists i'. split; [done|]. left. by apply reconcile_undiagnosed_spec in Hr as [? _].
  - exists i. split; [done|]. by left.
Qed.

(** The engine files each incident under its fingerprint. *)
Definition engine_wf (e : IncidentEngine) : Prop :=
  ∀ fp i, incidents e !! fp = Some i → incident_wf i ∧ incident_fingerprint i = fp.

Lemma evolves_wf `{P : IncidentPass} g ds recovered fp old ch i' :
  evolves g ds recovered fp old ch →
  (∀ i, old = Some i → incident_wf i ∧ incident_fingerprint i = fp) →
  stored old ch = Some i' → incident_wf i' ∧ incident_fingerprint i' = fp.
Proof.
  intros Hev Hold Hst. destruct Hev as [old s c i1 Hne Hs Hr|i c i1 Hno Ha Hr|old Hno Hidle]; cbn [stored] in Hst.
  - injection Hst as <-. by eapply reconcile_diagnosed_wf.
  - injection Hst as <-. destruct (Hold i eq_refl) as [Hwf Hfp]. split.
    + by eapply reconcile_undiagnosed_wf.
    + apply reconcile_undiagnosed_spec in Hr as [Hc _]. by rewrite (cont_fingerprint _ _ Hc).
  - by apply Hold.
Qed.

Lemma seed_one_wf m i :
  incident_wf i → (∀ fp j, m !! fp = Some j → incident_wf j ∧ incident_fingerprint j = fp) →
  ∀ fp j, seed_one m i !! fp = Some j → incident_wf j ∧ incident_fingerprint j = fp.
Proof.
  intros Hi Hm fp j. unfold seed_one.
  assert (<[incident_fingerprint i := i]> m !! fp = Some j → incident_wf j ∧ incident_fingerprint j = fp) as Hins.
  { intros [[<- <-]|[_ Hj]]%lookup_insert_Some; [done|by apply Hm]. }
  destruct (m !! incident_fingerprint i); [case_match|]; auto.
Qed.

(** The histories of an engine: a new one, resumed incidents, passes. *)
Inductive incident_reachable : IncidentEngine → Prop :=
  | ireach_new : incident_reachable incident_engine_new
  | ireach_seed e l :
      incident_reachable e → Forall incident_wf l → incident_reachable (engine_seed e l)
  | ireach_pass e (P : IncidentPass) ds g recovered e' u :
      incident_reachable e → reconcile_verified e ds g recovered = Some (e', u) → incident_reachable e'.
End properties.

(** Every incident an engine ever holds is well formed: its entity and
    evidence lists hold no duplicates, the evidence stays within the cap of
    200, an active incident has no end and a resolved one has; and it is filed
    under its own fingerprint.  This holds after any sequence of resumptions
    and passes. *)
Theorem incident_engine_invariant `{U : UuidApi} `{J : JsonApi} (e : IncidentEngine) :
  incident_reachable e → engine_wf e.
Proof.
  induction 1 as [|e l He IH Hl|e P ds g recovered e' u He IH Hr]; intros fp i Hi.
  - cbn [incidents incident_engine_new] in Hi. by rewrite lookup_empty in Hi.
  - revert fp i Hi. cbn [incidents engine_seed]. unfold engine_wf in IH. revert IH. generalize (incidents e).
    induction Hl as [|j l Hj Hl IHl]; intros m Hm; cbn [foldl]; [exact Hm|].
    apply IHl. by apply seed_one_wf.
  - destruct (reconcile_evolves _ _ _ _ _ _ Hr) as [Hev _]. destruct (Hev fp) as (ch & Hch & Hst & _).
    rewrite Hst in Hi. eapply evolves_wf; [done| |done]. intros j. apply IH.
Qed.

(** No diagnosis is lost.  On a well-formed graph a pass does not panic, and
    afterwards the incident filed under a diagnosis's fingerprint lists exactly
    the current diagnoses of that fingerprint, names every entity they affect
    or suspect, is at least as severe as each of them, is neither resolved nor
    recovering, and is reported as opened or updated. *)
Theorem diagnoses_accounted_for `{U : UuidApi} `{J : JsonApi} `{P : IncidentPass} (e : IncidentEngine)
    (ds : list Diagnosis) (g : DependencyGraph) (recovered : Incident → bool * bool) :
  graph_wf g →
  ∃ e' u, reconcile_verified e ds g recovered = Some (e', u) ∧ ∀ d, d ∈ ds →
    ∃ i s, incidents e' !! fingerprint d = Some i
      ∧ incident_diagnoses i = filed_under (fingerprint d) ds ∧ accounts_for i d
      ∧ severity_for d g = Some s ∧ (severity_level s ≤ severity_level (incident_severity i))%N
      ∧ incident_status i ≠ Status_Resolved ∧ incident_status i ≠ Status_Recovering
      ∧ (i ∈ opened u ∨ i ∈ updated u).
Proof.
  intros Hwf. destruct (reconcile_verified_total e ds g recovered Hwf) as [[e' u] Hr].
  exists e', u. split; [done|]. intros d Hd. destruct (reconcile_evolves _ _ _ _ _ _ Hr) as [Hev _].
  destruct (Hev (fingerprint d)) as (ch & Hch & Hst & Hb).
  assert (d ∈ filed_under (fingerprint d) ds) as Hin by (by apply elem_of_filed_under).
  inversion Hch as [old s c i' Hne Hs Hrd Ho|j c i' Hno|old Hno]; subst; try (rewrite Hno in Hin; set_solver).
  destruct (group_severity_ge _ _ _ _ Hs Hin) as (s' & Hs' & Hle).
  apply reconcile_diagnosed_spec in Hrd as (Hds & Hacc & Hsev & Hn1 & Hn2 & Hold).
  exists i', s'. cbn [stored] in Hst. split_and!; try done; [by apply Hacc|lia|].
  specialize (Hb _ _ eq_refl).
  assert (c = Change_Opened ∨ c = Change_Updated) as [-> | ->]; [|by left|by right].
  destruct (incidents e !! fingerprint d); naive_solver.
Qed.

(** C14.  Recovery is proved, never assumed.  In a pass over the derived states an
    active incident becomes resolved exactly when nothing is diagnosed under
    its fingerprint any more, it names at least one affected entity, and every
    entity it affects or suspects has a state whose overall health is Healthy;
    an unknown or missing state is not enough. *)
Theorem resolution_needs_recovery `{U : UuidApi} `{J : JsonApi} `{P : IncidentPass} (e e' : IncidentEngine)
    (ds : list Diagnosis) (g : DependencyGraph) (states : gmap EntityId EntityState)
    (u : IncidentUpdate) (fp : string) (i : Incident) :
  reconcile e ds g states = Some (e', u) →
  incidents e !! fp = Some i → status_is_active (incident_status i) = true →
  ∃ i', incidents e' !! fp = Some i' ∧
    (incident_status i' = Status_Resolved ↔
       filed_under fp ds = [] ∧ incident_affected i ≠ []
       ∧ ∀ x, x ∈ incident_affected i ∨ x ∈ incident_roots i →
           ∃ st, states !! x = Some st ∧ overall st = Healthy).
Proof.
  intros Hr Hi Ha. destruct (reconcile_evolves _ _ _ _ _ _ Hr) as [Hev _].
  destruct (Hev fp) as (ch & Hch & Hst & _). rewrite Hi in Hch, Hst.
  assert (∀ es, all_overall_healthy states es = true ↔
    es ≠ [] ∧ ∀ x, x ∈ es → ∃ st, states !! x = Some st ∧ overall st = Healthy) as Hall.
  { intros es. unfold all_overall_healthy. destruct es as [|x0 es]; [naive_solver|].
    rewrite forallb_forall. setoid_rewrite <-list_elem_of_In. split.
    - intros Hf. split; [done|]. intros x Hx. specialize (Hf x Hx). case_match; [|done].
      apply bool_decide_eq_true in Hf. eauto.
    - intros [_ Hf] x Hx. destruct (Hf x Hx) as (st & -> & Hh). by apply bool_decide_eq_true. }
  assert ((recovered_by_state states i).2 = true ↔ incident_affected i ≠ []
    ∧ ∀ x, x ∈ incident_affected i ∨ x ∈ incident_roots i → ∃ st, states !! x = Some st ∧ overall st = Healthy)
    as Hfull.
  { cbn [recovered_by_state snd]. rewrite andb_true_iff, orb_true_iff, !Hall.
    destruct (incident_roots i) as [|r rs]; split.
    - intros [[Hne Ha'] _]. split; [done|]. intros x [Hx|Hx]; [by apply Ha'|by apply elem_of_nil in Hx].
    - intros [Hne Ha']. split; [|by left]. split; [done|]. intros x Hx. apply Ha'. by left.
    - intros [[Hne Ha'] [Hr0|[_ Hroots]]]; [done|]. split; [done|]. intros x [Hx|Hx]; [by apply Ha'|by apply Hroots].
    - intros [Hne Ha']. split; [split; [done|]; intros x Hx; apply Ha'; by left|]. right. split; [done|].
      intros x Hx. apply Ha'. by right. }
  inversion Hch as [old s c i' Hne Hs Hrd Ho|j c i' Hno Hj Hru Ho Hc|old Hno Hidle Ho]; subst; cbn [stored] in Hst.
  - exists i'. split; [done|]. apply reconcile_diagnosed_spec in Hrd as (_ & _ & _ & Hn & _). tauto.
  - exists i'. split; [done|]. apply reconcile_undiagnosed_spec in Hru as (_ & _ & Hc).
    rewrite <-Hfull. destruct c; [done|..].
    + destruct Hc as [Hf Hs]. rewrite Hf. split; [|naive_solver]. intros Hres.
      destruct Hs as [Hs|(_ & _ & Hs)]; rewrite Hs in Hres; [by rewrite Hres in Ha|done].
    + destruct Hc as (_ & Hf & _ & Hs). rewrite Hf, Hs. split; [done|naive_solver].
    + destruct Hc as (Hf & Hs & _). by rewrite Hf, Hs.
  - specialize (Hidle i eq_refl). by rewrite Hidle in Ha.
Qed.

(** C15.  An incident keeps its identity.  After a pass every incident that was
    held is still held under its fingerprint: the same incident, with its
    severity no lower and its timeline, entities and evidence only extended
    (its current diagnoses are those of the pass); or, when it had been resolved outside the reopening window and is diagnosed
    again, a new one with a fresh identifier.  Only such incidents, and those
    of fingerprints never seen before, are reported as opened. *)
Theorem incident_identity `{U : UuidApi} `{J : JsonApi} `{P : IncidentPass} (e e' : IncidentEngine)
    (ds : list Diagnosis) (g : DependencyGraph) (recovered : Incident → bool * bool) (u : IncidentUpdate) :
  reconcile_verified e ds g recovered = Some (e', u) →
  (∀ fp i, incidents e !! fp = Some i → ∃ i', incidents e' !! fp = Some i' ∧
     (continues i i'
      ∨ (incident_status i = Status_Resolved ∧ within_reopen_window (clock fp) i = false
         ∧ filed_under fp ds ≠ [] ∧ incident_id i' = fresh_id fp ∧ i' ∈ opened u)))
  ∧ (∀ i', i' ∈ opened u → ∃ fp, incidents e' !! fp = Some i' ∧ filed_under fp ds ≠ []
       ∧ ∀ i, incidents e !! fp = Some i →
           incident_status i = Status_Resolved ∧ within_reopen_window (clock fp) i = false).
Proof.
  intros Hr. destruct (reconcile_evolves _ _ _ _ _ _ Hr) as [Hev Hback]. split.
  - intros fp i Hi. destruct (Hev fp) as (ch & Hch & Hst & Hb). rewrite Hi in Hch, Hst.
    destruct (evolves_keeps _ _ _ _ _ _ Hch) as (i' & Hi' & Hcase). exists i'. rewrite Hst, Hi'. split; [done|].
    destruct Hcase as [|(Hne & Hres & Hwin & Hid & ->)]; [by left|]. right. split_and!; try done.
    by apply (Hb Change_Opened).
  - intros i' Hi'. destruct (Hback Change_Opened i' Hi') as (fp & Hch & Hst). exists fp. split; [done|].
    inversion Hch as [old s c j Hne Hs Hrd Ho Hc|j c j' Hno Ha Hru Hj Hc|]; subst.
    + split; [done|]. intros i Hi. rewrite Hi in Hrd.
      apply reconcile_diagnosed_spec in Hrd as (_ & _ & _ & _ & _ & Hold). naive_solver.
    + by apply reconcile_undiagnosed_spec in Hru as (_ & _ & ?).
Qed.

(** Nothing that needs attention drops out of sight.  Every incident a pass
    leaves active is in the pass's update exactly as it is stored, whether or
    not anything about it changed, and every incident in the update is one the
    engine holds; so an opening that could not be sent yet is offered again. *)
Theorem active_incidents_offered `{U : UuidApi} `{J : JsonApi} `{P : IncidentPass} (e e' : IncidentEngine)
    (ds : list Diagnosis) (g : DependencyGraph) (recovered : Incident → bool * bool) (u : IncidentUpdate) :
  reconcile_verified e ds g recovered = Some (e', u) →
  (∀ i, i ∈ engine_active e' → i ∈ update_all u) ∧ (∀ i, i ∈ update_all u → i ∈ engine_incidents e').
Proof.
  intros Hr. destruct (reconcile_evolves _ _ _ _ _ _ Hr) as [Hev Hback].
  assert (∀ i, i ∈ update_all u ↔ ∃ c, i ∈ bucket c u) as Hall.
  { intros i. unfold update_all. rewrite !elem_of_app. split.
    - intros [?|[?|[?|?]]]; [by exists Change_Opened|by exists Change_Updated|by exists Change_Recovering|
        by exists Change_Resolved].
    - intros [[] Hc]; cbn in Hc; tauto. }
  split.
  - intros i. unfold engine_active. rewrite list_elem_of_filter. intros [Ha [fp Hi]%elem_of_btree_values].
    apply Is_true_true in Ha. destruct (Hev fp) as (ch & Hch & Hst & Hb). rewrite Hst in Hi. apply Hall.
    destruct Hch as [old s c i' Hne Hs Hrd|j c i' Hno Hj Hru|old Hno Hidle]; cbn [stored] in Hi.
    + injection Hi as <-. exists c. by apply Hb.
    + injection Hi as <-. exists c. by apply Hb.
    + by rewrite (Hidle i Hi) in Ha.
  - intros i [c Hc]%Hall. destruct (Hback c i Hc) as (fp & _ & Hi). apply elem_of_btree_values. by exists fp.
Qed.

(** Diagnosed the same way again, an incident only has its diagnoses replaced. *)
Lemma reconcile_diagnosed_again id now fp s ds i :
  incident_diagnoses i = ds → (severity_level s ≤ severity_level (incident_severity i))%N →
  incident_status i ≠ Status_Resolved → incident_status i ≠ Status_Recovering →
  ∃ i', reconcile_diagnosed id now fp s ds (Some i) = (Change_Updated, i')
    ∧ continues i i' ∧ incident_status i' = incident_status i
    ∧ incident_severity i' = incident_severity i ∧ timeline i' = timeline i.
Proof.
  intros Hds Hsev Hn1 Hn2. exists (refresh now i ds).
  assert (reopen now i = i) as Hopen by
    (unfold reopen; cbn zeta; destruct (decide (incident_status i = Status_Recovering)); [done|by rewrite decide_False]).
  assert (escalate now s i = (i, false)) as Hesc.
  { unfold escalate. destruct (N.ltb_spec (severity_level (incident_severity i)) (severity_level s)); [lia|done]. }
  destruct (refresh_frame now i ds) as (Hs & Hv & _).
  unfold reconcile_diagnosed. rewrite bool_decide_eq_false_2, Hopen, Hesc by done. cbn [andb fst].
  split_and!; try done; [apply refresh_continues|]. apply refresh_quiet. by rewrite Hds.
Qed.

(** A fault that persists is quiet.  When the same diagnoses are drawn in two
    passes in a row, the second opens nothing, and each diagnosed incident
    continues with its status, severity and timeline: not one line is added. *)
Lemma persistent_fault_is_quiet `{U : UuidApi} `{J : JsonApi} (P1 P2 : IncidentPass)
    (e e1 e2 : IncidentEngine) (ds : list Diagnosis) (g : DependencyGraph)
    (recovered1 recovered2 : Incident → bool * bool) (u1 u2 : IncidentUpdate) :
  reconcile_verified (P := P1) e ds g recovered1 = Some (e1, u1) →
  reconcile_verified (P := P2) e1 ds g recovered2 = Some (e2, u2) →
  opened u2 = []
  ∧ ∀ d, d ∈ ds → ∃ i1 i2, incidents e1 !! fingerprint d = Some i1 ∧ incidents e2 !! fingerprint d = Some i2
     ∧ continues i1 i2 ∧ incident_status i2 = incident_status i1
     ∧ incident_severity i2 = incident_severity i1 ∧ timeline i2 = timeline i1.
Proof.
  intros Hr1 Hr2. destruct (reconcile_evolves (P := P1) _ _ _ _ _ _ Hr1) as [Hev1 _].
  destruct (reconcile_evolves (P := P2) _ _ _ _ _ _ Hr2) as [Hev2 Hback2].
  assert (∀ fp, filed_under fp ds ≠ [] → ∃ i1 i2 s, group_severity (filed_under fp ds) g = Some s
    ∧ incidents e1 !! fp = Some i1 ∧ incidents e2 !! fp = Some i2
    ∧ reconcile_diagnosed (fresh_id (IncidentPass := P2) fp) (clock (IncidentPass := P2) fp) fp s
        (filed_under fp ds) (Some i1) = (Change_Updated, i2)
    ∧ continues i1 i2 ∧ incident_status i2 = incident_status i1
    ∧ incident_severity i2 = incident_severity i1 ∧ timeline i2 = timeline i1) as Hquiet.
  { intros fp Hfp. destruct (Hev1 fp) as (ch1 & Hch1 & Hst1 & _). destruct (Hev2 fp) as (ch2 & Hch2 & Hst2 & _).
    inversion Hch1 as [old s c i1 Hne Hs Hrd Ho| |]; [subst|by destruct Hfp..]. cbn [stored] in Hst1. rewrite Hst1 in Hch2.
    inversion Hch2 as [old' s' c2 i2 _ Hs' Hrd2 Ho'| |]; [subst|by destruct Hfp..]. cbn [stored] in Hst2. simplify_eq.
    apply reconcile_diagnosed_spec in Hrd as (Hds & _ & Hsev & Hn1 & Hn2 & _).
    destruct (reconcile_diagnosed_again (fresh_id (IncidentPass := P2) fp) (clock (IncidentPass := P2) fp) fp
      _ _ _ Hds Hsev Hn1 Hn2) as (i2' & Heq & Hrest).
    rewrite Hrd2 in Heq. injection Heq as -> ->. exists i1, i2', s. split_and!; try done; apply Hrest. }
  split.
  - destruct (opened u2) as [|i2 l] eqn:Hop; [done|].
    assert (i2 ∈ bucket Change_Opened u2) as Hin by (cbn; rewrite Hop; by left).
    destruct (Hback2 _ _ Hin) as (fp & Hch & _).
    inversion Hch as [old s c j Hne Hs Hrd Ho Hc|j c j' Hno Ha Hru Hj Hc|]; subst.
    + destruct (Hquiet fp Hne) as (i1 & i2' & s' & Hs' & Hi1 & _ & Hrd' & _). rewrite Hi1 in Hrd. simplify_eq.
      congruence.
    + by apply reconcile_undiagnosed_spec in Hru as (_ & _ & ?).
  - intros d Hd. destruct (Hquiet (fingerprint d)) as (i1 & i2 & s & _ & Hi1 & Hi2 & _ & Hrest).
    { assert (d ∈ filed_under (fingerprint d) ds) as Hin by (by apply elem_of_filed_under).
      intros Hnil. rewrite Hnil in Hin. by apply elem_of_nil in Hin. }
    by exists i1, i2.
Qed.

(** ** Resuming *)

(** What [seed] prefers: activity first, then the later start. *)
Definition seed_rank (i : Incident) : N * Z :=
  ((if status_is_active (incident_status i) then 1 else 0)%N, incident_started_at i).

Lemma keep_existing_spec x i : keep_existing x i = true ↔ key_le (seed_rank i) (seed_rank x).
Proof.
  unfold keep_existing, seed_rank. cbn. unfold pair_le. cbn [fst snd].
  destruct (status_is_active (incident_status x)), (status_is_active (incident_status i)); cbn;
    rewrite ?bool_decide_eq_true; (split; [intros|intros [? Hs]]); try done; try lia; try (split; [lia|intros; lia]).
  all: by apply Hs.
Qed.

(** Offering one incident leaves the better of the two. *)
Lemma seed_one_spec m i fp :
  (∀ j, m !! fp = Some j ∨ (j = i ∧ incident_fingerprint i = fp) →
     ∃ k, seed_one m i !! fp = Some k ∧ key_le (seed_rank j) (seed_rank k))
  ∧ ∀ k, seed_one m i !! fp = Some k → m !! fp = Some k ∨ (k = i ∧ incident_fingerprint i = fp).
Proof.
  unfold seed_one. destruct (decide (incident_fingerprint i = fp)) as [<-|Hne].
  - destruct (m !! incident_fingerprint i) as [x|] eqn:Hx; [destruct (keep_existing x i) eqn:Hk|].
    + apply keep_existing_spec in Hk. rewrite Hx. split; [|intros k Hk'; by left]. intros j Hj. exists x.
      split; [done|]. destruct Hj as [[= <-]|[-> _]]; [reflexivity|done].
    + assert (key_le (seed_rank x) (seed_rank i)) as Hle.
      { destruct (total key_le (seed_rank x) (seed_rank i)) as [|Hle]; [done|].
        apply keep_existing_spec in Hle. congruence. }
      rewrite lookup_insert_eq. split; [|intros k [= <-]; by right]. intros j Hj. exists i. split; [done|].
      destruct Hj as [[= <-]|[-> _]]; [done|reflexivity].
    + rewrite lookup_insert_eq. split; [|intros k [= <-]; by right]. intros j [|[-> _]]; [done|]. exists i.
      split; [done|reflexivity].
  - assert ((match m !! incident_fingerprint i with
             | Some existing => if keep_existing existing i then m else <[incident_fingerprint i := i]> m
             | None => <[incident_fingerprint i := i]> m
             end) !! fp = m !! fp) as ->.
    { destruct (m !! incident_fingerprint i); [case_match|]; try done; by rewrite lookup_insert_ne. }
    split; [|intros k Hk; by left]. intros j [Hj|[_ ?]]; [|done]. exists j. split; [done|reflexivity].
Qed.

Lemma seed_all_spec m l fp j :
  (m !! fp = Some j ∨ (j ∈ l ∧ incident_fingerprint j = fp)) →
  ∃ i, foldl seed_one m l !! fp = Some i
    ∧ (m !! fp = Some i ∨ (i ∈ l ∧ incident_fingerprint i = fp)) ∧ key_le (seed_rank j) (seed_rank i).
Proof.
  revert m j. induction l as [|x l IH]; intros m j Hj; cbn [foldl].
  { destruct Hj as [Hj|[Hj _]]; [|by apply elem_of_nil in Hj]. exists j. split_and!; [done|by left|reflexivity]. }
  destruct (seed_one_spec m x fp) as [Hbest Hfrom].
  assert (∃ k, (seed_one m x !! fp = Some k ∨ (k ∈ l ∧ incident_fingerprint k = fp))
    ∧ key_le (seed_rank j) (seed_rank k)) as (k & Hk & Hjk).
  { destruct Hj as [Hj|[[->|Hj]%elem_of_cons Hfp]].
    - destruct (Hbest j (or_introl Hj)) as (k & Hk & Hle). exists k. split; [by left|done].
    - destruct (Hbest x (or_intror (conj eq_refl Hfp))) as (k & Hk & Hle). exists k. split; [by left|done].
    - exists j. split; [by right|reflexivity]. }
  destruct (IH _ _ Hk) as (i & Hi & Hi' & Hle). exists i. split_and!; [done| |by etrans].
  destruct Hi' as [[Hm|[-> Hfp]]%Hfrom|[Hl Hfp]]; [by left|right; split; [by left|done]|right; split; [by right|done]].
Qed.

(** Resuming keeps the incident that matters.  Of the incidents offered for a
    fingerprint, the one already held included, [seed] keeps one of them, and
    it is active if any of them is, and no other of the same activity started
    later. *)
Theorem seed_keeps_the_current (e : IncidentEngine) (l : list Incident) (fp : string) (j : Incident) :
  incidents e !! fp = Some j ∨ (j ∈ l ∧ incident_fingerprint j = fp) →
  ∃ i, incidents (engine_seed e l) !! fp = Some i
    ∧ (incidents e !! fp = Some i ∨ (i ∈ l ∧ incident_fingerprint i = fp))
    ∧ (status_is_active (incident_status j) = true → status_is_active (incident_status i) = true)
    ∧ (status_is_active (incident_status j) = status_is_active (incident_status i) →
         (incident_started_at j ≤ incident_started_at i)%Z).
Proof.
  intros Hj. destruct (seed_all_spec _ _ _ _ Hj) as (i & Hi & Hfrom & Hact & Hstart). exists i.
  cbn [fst snd seed_rank] in Hact, Hstart. split_and!; [done|done| |].
  - intros Hj'. rewrite Hj' in Hact. cbn in Hact. destruct (status_is_active (incident_status i)); [done|lia].
  - intros Heq. apply Hstart. by rewrite Heq.
Qed.

(** ** Fingerprints *)

Lemma split_char_single c s : string_mem c s = false → split_char c s = [s].
Proof.
  induction s as [|a s IH]; cbn [string_mem split_char]; [done|].
  intros [Ha%bool_decide_eq_false Hs]%orb_false_iff. rewrite decide_False by done. by rewrite IH.
Qed.

(** Joined pieces without separators, none of them empty, can be told apart. *)
Lemma str_join_inj c l1 l2 :
  (∀ s, s ∈ (l1 ++ l2)%list → string_mem c s = false ∧ s ≠ "") →
  str_join (String c "") l1 = str_join (String c "") l2 → l1 = l2.
Proof.
  intros Hall Heq.
  assert (∀ l : list string, l ⊆ (l1 ++ l2)%list → l ≠ [] → split_char c (str_join (String c "") l) = l) as Hsplit.
  { intros l Hl Hne. apply split_char_join; [done|]. apply Forall_forall. intros s Hs.
    apply split_char_single. by apply Hall, Hl. }
  assert (∀ l : list string, l ⊆ (l1 ++ l2)%list → str_join (String c "") l = "" → l = []) as Hempty.
  { intros [|s [|s' l]] Hl Hnil; [done| |].
    - cbn in Hnil. subst. destruct (Hall "") as [_ ?]; [|done]. apply Hl. by left.
    - rewrite str_join_cons in Hnil by done. destruct s; [|done]. destruct (Hall "") as [_ ?]; [|done]. apply Hl. by left. }
  assert (l1 ⊆ (l1 ++ l2)%list ∧ l2 ⊆ (l1 ++ l2)%list) as [H1 H2] by (split; intros s Hs; apply elem_of_app; tauto).
  destruct (decide (l1 = [])) as [->|Hn1]; [by rewrite (Hempty l2)|].
  destruct (decide (l2 = [])) as [->|Hn2]; [by rewrite (Hempty l1)|].
  rewrite <-(Hsplit l1), <-(Hsplit l2) by done. by rewrite Heq.
Qed.

Lemma btree_elements_inj (s t : gset string) : btree_elements s = btree_elements t → s = t.
Proof.
  intros Heq. apply leibniz_equiv. intros x. by rewrite <-!elem_of_btree_elements, Heq.
Qed.

(** Incidents are told apart by cause.  Two diagnoses share a fingerprint
    exactly when both name suspected causes or neither does, and the entities
    they are filed by, their causes or else what they affect, are the same set,
    whatever the order, the repetitions, the symptoms or the rules. *)
Theorem fingerprint_is_the_cause `{U : UuidApi} `{!UuidLaws} (d1 d2 : Diagnosis) :
  fingerprint d1 = fingerprint d2 ↔
    (suspected_root_entities d1 = [] ↔ suspected_root_entities d2 = [])
    ∧ ∀ x, x ∈ scope_entities d1 ↔ x ∈ scope_entities d2.
Proof.
  set (name := λ e : EntityId, uuid_to_string (as_uuid e)).
  assert (Inj (=) (=) name) as Hname by (intros [a] [b] Hab; apply (inj uuid_to_string) in Hab; cbn in Hab; congruence).
  assert (∀ d, (∃ r, fingerprint_scope d = String "c" r ∧ suspected_root_entities d ≠ [] ∧ fingerprint_scope d = "cause")
    ∨ (∃ r, fingerprint_scope d = String "a" r ∧ suspected_root_entities d = [] ∧ fingerprint_scope d = "affects")) as Hscope.
  { intros d. unfold fingerprint_scope. destruct (suspected_root_entities d); [right|left]; by eexists. }
  set (names := λ d, list_to_set (map name (scope_entities d)) : gset string).
  assert (∀ d x, x ∈ scope_entities d ↔ name x ∈ names d) as Hmem.
  { intros d x. unfold names. rewrite elem_of_list_to_set, list_elem_of_fmap. split; [by exists x|].
    by intros (y & ->%(inj name) & Hy). }
  assert (fingerprint d1 = fingerprint d2 ↔
    fingerprint_scope d1 = fingerprint_scope d2 ∧ names d1 = names d2) as ->.
  { unfold fingerprint. cbn zeta. fold name. fold (names d1) (names d2). split; [|by intros [-> ->]]. intros Heq.
    assert (str_join "," (btree_elements (names d1)) = str_join "," (btree_elements (names d2))
      ∧ fingerprint_scope d1 = fingerprint_scope d2) as [Hj Hs].
    { destruct (Hscope d1) as [(r1 & H1 & _ & Hs1)|(r1 & H1 & _ & Hs1)],
        (Hscope d2) as [(r2 & H2 & _ & Hs2)|(r2 & H2 & _ & Hs2)];
        rewrite Hs1, Hs2 in Heq |- *; cbn in Heq; try done; injection Heq as Heq; done. }
    split; [done|]. apply btree_elements_inj, (str_join_inj ","%char); [|done].
    intros s [Hs'|Hs']%elem_of_app; apply elem_of_btree_elements in Hs'; unfold names in Hs';
      apply elem_of_list_to_set, list_elem_of_fmap in Hs' as (x & -> & _);
      (split; [apply uuid_to_string_no_comma | apply uuid_to_string_nonempty]). }
  assert (names d1 = names d2 ↔ ∀ x, x ∈ scope_entities d1 ↔ x ∈ scope_entities d2) as ->.
  { split; [intros Heq x; by rewrite !Hmem, Heq|]. intros Heq. apply leibniz_equiv. intros s. unfold names.
    rewrite !elem_of_list_to_set, !list_elem_of_fmap. by setoid_rewrite Heq. }
  apply and_iff_compat_r.
  destruct (Hscope d1) as [(r1 & _ & Hs1 & ->)|(r1 & _ & Hs1 & ->)],
    (Hscope d2) as [(r2 & _ & Hs2 & ->)|(r2 & _ & Hs2 & ->)]; split; try done; intros Heq; exfalso; tauto.
Qed.

(** ** A small incident *)

Section example.
Definition sample_diagnosis : Diagnosis :=
  {| diagnosis_id := 5; diagnosis_type := NFS_SERVICE_FAILURE; affected_entities := [sample_entity 3];
     suspected_root_entities := [sample_entity 3]; confidence := Confidence_High; diagnosis_evidence := [];
     diagnosis_rule := "storage.service"; diagnosis_summary := ""; recommended_actions := [];
     diagnosis_created_at := 0%Z |}.

Definition sample_pass (n : N) : IncidentPass := {| fresh_id _ := n; clock _ := Z.of_N n |}.

Definition sample_open_incident : Incident :=
  open_incident 1 0%Z (fingerprint sample_diagnosis) Severity_Warning [sample_diagnosis].

Definition sample_engine : IncidentEngine := engine_seed incident_engine_new [sample_open_incident].

Definition sample_states : gmap EntityId EntityState :=
  {[ sample_entity 3 := set_component 0 Component_Network (component_state_new 0 Healthy)
                          (entity_state_unknown 0 (sample_entity 3)) ]}.

Lemma sample_engine_lookup : incidents sample_engine !! fingerprint sample_diagnosis = Some sample_open_incident.
Proof. vm_compute. reflexivity. Qed.
End example.

Lemma severity_follows_topology_witness :
  graph_wf sample_graph ∧
  ∃ s, severity_for sample_diagnosis sample_graph = Some s
    ∧ (confidence sample_diagnosis = Confidence_Low → s = Severity_Info)
    ∧ (confidence sample_diagnosis ≠ Confidence_Low →
       (s = Severity_Critical ↔ base_severity sample_diagnosis = Severity_Critical
          ∨ ∃ root, root ∈ suspected_root_entities sample_diagnosis ∧ dependents_at_least sample_graph root 3)
       ∧ (s = Severity_Info ↔ base_severity sample_diagnosis = Severity_Info
          ∧ ∀ root x, root ∈ suspected_root_entities sample_diagnosis → ¬ depends_on_root sample_graph root x)).
Proof. split; [apply sample_graph_wf | apply (severity_follows_topology _ _ sample_graph_wf)]. Defined.

Lemma incident_engine_invariant_witness : incident_reachable sample_engine ∧ engine_wf sample_engine.
Proof.
  assert (incident_reachable sample_engine) as Hr.
  { apply ireach_seed; [apply ireach_new|]. apply Forall_singleton, open_incident_wf. }
  split; [exact Hr | exact (incident_engine_invariant _ Hr)].
Defined.

Lemma diagnoses_accounted_for_witness :
  graph_wf sample_graph ∧
  ∃ e' u, reconcile_verified (P := sample_pass 9) sample_engine [sample_diagnosis] sample_graph (λ _, (false, false))
      = Some (e', u) ∧ ∀ d, d ∈ [sample_diagnosis] →
    ∃ i s, incidents e' !! fingerprint d = Some i
      ∧ incident_diagnoses i = filed_under (fingerprint d) [sample_diagnosis] ∧ accounts_for i d
      ∧ severity_for d sample_graph = Some s ∧ (severity_level s ≤ severity_level (incident_severity i))%N
      ∧ incident_status i ≠ Status_Resolved ∧ incident_status i ≠ Status_Recovering
      ∧ (i ∈ opened u ∨ i ∈ updated u).
Proof.
  split; [apply sample_graph_wf|].
  exact (diagnoses_accounted_for (P := sample_pass 9) _ _ _ _ sample_graph_wf).
Defined.

Lemma resolution_needs_recovery_witness :
  ∃ e' u, reconcile (P := sample_pass 9) sample_engine [] sample_graph sample_states = Some (e', u)
  ∧ incidents sample_engine !! fingerprint sample_diagnosis = Some sample_open_incident
  ∧ status_is_active (incident_status sample_open_incident) = true
  ∧ ∃ i', incidents e' !! fingerprint sample_diagnosis = Some i' ∧
    (incident_status i' = Status_Resolved ↔
       filed_under (fingerprint sample_diagnosis) [] = [] ∧ incident_affected sample_open_incident ≠ []
       ∧ ∀ x, x ∈ incident_affected sample_open_incident ∨ x ∈ incident_roots sample_open_incident →
           ∃ st, sample_states !! x = Some st ∧ overall st = Healthy).
Proof.
  destruct (reconcile_verified_total (P := sample_pass 9) sample_engine [] sample_graph
    (recovered_by_state sample_states) sample_graph_wf) as [[e' u] Hr].
  exists e', u. split; [exact Hr|]. split; [exact sample_engine_lookup|]. split; [reflexivity|].
  exact (resolution_needs_recovery (P := sample_pass 9) _ _ _ _ _ _ _ _ Hr sample_engine_lookup eq_refl).
Defined.

Lemma incident_identity_witness :
  ∃ e' u, reconcile_verified (P := sample_pass 9) sample_engine [sample_diagnosis] sample_graph
      (λ _, (false, false)) = Some (e', u)
  ∧ (∀ fp i, incidents sample_engine !! fp = Some i → ∃ i', incidents e' !! fp = Some i' ∧
     (continues i i'
      ∨ (incident_status i = Status_Resolved
         ∧ within_reopen_window (clock (IncidentPass := sample_pass 9) fp) i = false
         ∧ filed_under fp [sample_diagnosis] ≠ []
         ∧ incident_id i' = fresh_id (IncidentPass := sample_pass 9) fp ∧ i' ∈ opened u)))
  ∧ (∀ i', i' ∈ opened u → ∃ fp, incidents e' !! fp = Some i' ∧ filed_under fp [sample_diagnosis] ≠ []
       ∧ ∀ i, incidents sample_engine !! fp = Some i →
           incident_status i = Status_Resolved
           ∧ within_reopen_window (clock (IncidentPass := sample_pass 9) fp) i = false).
Proof.
  destruct (reconcile_verified_total (P := sample_pass 9) sample_engine [sample_diagnosis] sample_graph
    (λ _, (false, false)) sample_graph_wf) as [[e' u] Hr].
  exists e', u. split; [exact Hr|]. exact (incident_identity (P := sample_pass 9) _ _ _ _ _ _ Hr).
Defined.

Lemma active_incidents_offered_witness :
  ∃ e' u, reconcile_verified (P := sample_pass 9) sample_engine [] sample_graph (λ _, (false, false))
      = Some (e', u)
  ∧ (∀ i, i ∈ engine_active e' → i ∈ update_all u) ∧ (∀ i, i ∈ update_all u → i ∈ engine_incidents e').
Proof.
  destruct (reconcile_verified_total (P := sample_pass 9) sample_engine [] sample_graph
    (λ _, (false, false)) sample_graph_wf) as [[e' u] Hr].
  exists e', u. split; [exact Hr|]. exact (active_incidents_offered (P := sample_pass 9) _ _ _ _ _ _ Hr).
Defined.

Lemma seed_keeps_the_current_witness :
  let l := [incident_open 1 5%Z "cause:7" Severity_Warning; resolve 9 (incident_open 2 8%Z "cause:7" Severity_Info)] in
  let j := resolve 9 (incident_open 2 8%Z "cause:7" Severity_Info) in
  (incidents incident_engine_new !! "cause:7" = Some j ∨ (j ∈ l ∧ incident_fingerprint j = "cause:7"))
  ∧ ∃ i, incidents (engine_seed incident_engine_new l) !! "cause:7" = Some i
    ∧ (incidents incident_engine_new !! "cause:7" = Some i ∨ (i ∈ l ∧ incident_fingerprint i = "cause:7"))
    ∧ (status_is_active (incident_status j) = true → status_is_active (incident_status i) = true)
    ∧ (status_is_active (incident_status j) = status_is_active (incident_status i) →
         (incident_started_at j ≤ incident_started_at i)%Z).
Proof.
  intros l j.
  assert (incidents incident_engine_new !! "cause:7" = Some j ∨ (j ∈ l ∧ incident_fingerprint j = "cause:7")) as Hj.
  { right. split; [|reflexivity]. apply elem_of_cons. right. apply elem_of_cons. by left. }
  split; [exact Hj | exact (seed_keeps_the_current _ _ _ _ Hj)].
Defined.

Lemma fingerprint_is_the_cause_witness :
  fingerprint sample_diagnosis = fingerprint (affecting sample_diagnosis [sample_entity 1]) ↔
    (suspected_root_entities sample_diagnosis = []
       ↔ suspected_root_entities (affecting sample_diagnosis [sample_entity 1]) = [])
    ∧ ∀ x, x ∈ scope_entities sample_diagnosis
           ↔ x ∈ scope_entities (affecting sample_diagnosis [sample_entity 1]).
Proof. exact (fingerprint_is_the_cause _ _). Defined.
