(* ===== verification/Notification.v ===== *)
(** * What is worth telling, and when

    [src/notification/mod.rs], [dedup.rs] and [maintenance.rs]: the messages,
    the record of those delivered, and the windows that hold them back. *)

From S2P Require Export DiagnosisContext IncidentEngine Entity.

Local Open Scope string_scope.

(** * Notifications

    [src/notification/mod.rs]: the messages an incident's lifecycle makes worth
    sending, their identity, and the candidates an update offers. *)

(** [Trigger]. *)
Inductive Trigger :=
  | Trigger_Opened
  | Trigger_Escalated
  | Trigger_DiagnosisChanged
  | Trigger_Recovering
  | Trigger_Resolved.

#[export] Instance Trigger_eq_dec : EqDecision Trigger.
Proof. solve_decision. Defined.

(** The order [Trigger] derives. *)
Definition trigger_index (t : Trigger) : N :=
  match t with
  | Trigger_Opened => 0
  | Trigger_Escalated => 1
  | Trigger_DiagnosisChanged => 2
  | Trigger_Recovering => 3
  | Trigger_Resolved => 4
  end.

#[export] Instance trigger_index_inj : Inj (=) (=) trigger_index.
Proof. by intros [] []. Qed.
#[export] Instance Trigger_key_order : KeyOrder Trigger := key_order_inj trigger_index.

(** [Trigger::as_str] and [Trigger::is_recovery]. *)
Definition trigger_as_str (t : Trigger) : string :=
  match t with
  | Trigger_Opened => "opened"
  | Trigger_Escalated => "escalated"
  | Trigger_DiagnosisChanged => "diagnosis_changed"
  | Trigger_Recovering => "recovering"
  | Trigger_Resolved => "resolved"
  end.

Definition is_recovery (t : Trigger) : bool :=
  match t with Trigger_Recovering | Trigger_Resolved => true | _ => false end.

(** [Notification]. *)
Record Notification := {
  notif_incident_id : string;
  notif_fingerprint : string;
  notif_trigger : Trigger;
  notif_severity : Severity;
  notif_title : string;
  notif_body : string;
  notif_actions : list string;
  notif_created_at : Timestamp;
  notif_event_id : option string
}.

#[export] Instance Notification_eq_dec : EqDecision Notification.
Proof. solve_decision. Defined.

(** The key of a record made before events had identities. *)
Definition legacy_key (n : Notification) : string :=
  notif_fingerprint n +:+ ":" +:+ trigger_as_str (notif_trigger n).

(** [Notification::deduplication_key]. *)
Definition deduplication_key (n : Notification) : string :=
  match notif_event_id n with
  | Some event =>
      notif_fingerprint n +:+ ":event:" +:+ notif_incident_id n +:+ ":" +:+ event +:+ ":"
        +:+ trigger_as_str (notif_trigger n)
  | None => legacy_key n
  end.

(** [heading_for]. *)
Definition heading_for (t : Trigger) (s : Severity) : string :=
  let level := match s with
               | Severity_Critical => "重大"
               | Severity_Warning => "警告"
               | Severity_Info => "情報"
               end in
  match t with
  | Trigger_Opened => "障害発生（" +:+ level +:+ "）"
  | Trigger_Escalated => "重大度上昇（" +:+ level +:+ "）"
  | Trigger_DiagnosisChanged => "診断更新（" +:+ level +:+ "）"
  | Trigger_Recovering => "復旧途中"
  | Trigger_Resolved => "復旧確認"
  end.

(** U+3000, as its three UTF-8 bytes. *)
Definition ideographic_space : string :=
  String "227" (String "128" (String "128" EmptyString)).

(** [summary_of]. *)
Definition summary_of (i : Incident) : string :=
  match primary_diagnosis i with
  | Some d => diagnosis_summary d
  | None => "障害 " +:+ incident_fingerprint i
  end.

(** The timeline entries that announce a trigger. *)
Definition event_kinds (t : Trigger) : list string :=
  match t with
  | Trigger_Opened => ["opened"; "reopened"; "recovery_failed"]
  | Trigger_Escalated => ["severity_escalated"]
  | Trigger_DiagnosisChanged => ["diagnosis_changed"]
  | Trigger_Recovering => ["recovering"]
  | Trigger_Resolved => ["resolved"]
  end.

(** [event_for]: the latest of them. *)
Definition event_for (i : Incident) (t : Trigger) : option TimelineEvent :=
  find (λ e, existsb (String.eqb (event_kind e)) (event_kinds t)) (reverse (timeline i)).

(** When the event happened: what the notification is dated. *)
Definition event_time (i : Incident) (t : Trigger) : Timestamp :=
  match event_for i t with Some e => event_at e | None => incident_started_at i end.

(** The words for a confidence and a status in the body. *)
Definition confidence_word (c : Confidence) : string :=
  match c with
  | Confidence_Low => "低"
  | Confidence_Medium => "中"
  | Confidence_High => "高"
  | Confidence_Confirmed => "直接の証拠で確認済み"
  end.

Definition status_word (s : IncidentStatus) : string :=
  match s with
  | Status_Open => "未解決"
  | Status_Acknowledged => "確認済み・対応中"
  | Status_Recovering => "復旧途中"
  | Status_Resolved => "復旧確認済み"
  | Status_Reset => "初期化で終了"
  | Status_Suppressed => "通知を抑止中"
  end.

Definition body_intro (t : Trigger) : string :=
  match t with
  | Trigger_Recovering => "原因と考えられる対象の復旧を確認しました。影響を受けた対象すべての復旧は、まだ確認できていません。" +:+ newline +:+ newline +:+ "発生時の診断" +:+ newline
  | Trigger_Resolved => "原因と考えられる対象と、影響を受けた対象すべての復旧を確認しました。" +:+ newline +:+ newline +:+ "発生時の診断" +:+ newline
  | Trigger_DiagnosisChanged => "観測結果の更新により、障害の診断が変わりました。最新の対象と確認手順を確認してください。" +:+ newline +:+ newline
  | _ => ""
  end.

Definition body_diagnosis (d : Diagnosis) : string :=
  label (diagnosis_type d) +:+ newline +:+ "診断の確度" +:+ ideographic_space +:+ confidence_word (confidence d)
    +:+ newline +:+ newline +:+ diagnosis_summary d +:+ newline +:+ newline.

Section notification.
Context `{U : UuidApi} `{T : TimeApi}.

(** [event_identity]. *)
Definition event_identity (i : Incident) (t : Trigger) : string :=
  let text := match event_for i t with
              | Some e => rfc3339_micros (event_at e) +:+ ":" +:+ event_kind e +:+ ":" +:+ event_detail e
              | None => rfc3339_micros (incident_started_at i)
              end in
  uuid_to_string (uuid_new_v5 (incident_id i) text).

Definition notification_body (i : Incident) (t : Trigger) : string :=
  foldl (λ body d, body +:+ body_diagnosis d) (body_intro t) (incident_diagnoses i)
    +:+ "障害ID" +:+ ideographic_space +:+ uuid_to_string (incident_id i) +:+ newline
    +:+ "状態" +:+ ideographic_space +:+ status_word (incident_status i) +:+ newline
    +:+ "根拠となる観測" +:+ ideographic_space +:+ show_nat (length (incident_evidence i)) +:+ "件" +:+ newline.

(** The commands worth running, each once, none of the diagnoses' own once the
    incident is resolved. *)
Definition notification_actions (i : Incident) (t : Trigger) : list string :=
  step "Sentinel controller"
    (if decide (t = Trigger_Resolved) then "障害の履歴と復旧時刻を確認してください"
     else "原因の候補、影響を受けた対象、根拠となる観測と履歴を確認してください")
    (sentinel_command ("incident show " +:+ uuid_to_string (incident_id i)))
  :: (if decide (t = Trigger_Resolved) then []
      else foldl push_unique [] (mjoin (map recommended_actions (incident_diagnoses i)))).

(** [Notification::for_incident]. *)
Definition for_incident (i : Incident) (t : Trigger) : Notification :=
  let summary :=
    if is_recovery t
    then match primary_diagnosis i with Some d => label (diagnosis_type d) | None => "障害" end
    else summary_of i in
  {| notif_incident_id := uuid_to_string (incident_id i);
     notif_fingerprint := incident_fingerprint i;
     notif_trigger := t;
     notif_severity := incident_severity i;
     notif_title := heading_for t (incident_severity i) +:+ " / " +:+ summary;
     notif_body := notification_body i t;
     notif_actions := notification_actions i t;
     notif_created_at := event_time i t;
     notif_event_id := Some (event_identity i t) |}.

(** [rposition]: the last position whose entry satisfies the test. *)
Fixpoint last_position {A} (p : A → bool) (l : list A) : option nat :=
  match l with
  | [] => None
  | x :: l' =>
      match last_position p l' with
      | Some k => Some (S k)
      | None => if p x then Some 0%nat else None
      end
  end.

(** Where the current stretch of the outage starts. *)
Definition lifecycle_start (i : Incident) : option nat :=
  last_position (λ e, existsb (String.eqb (event_kind e)) ["opened"; "reopened"; "recovery_failed"]) (timeline i).

(** Whether an event of this kind happened since. *)
Definition happened_since (start : option nat) (kind : string) (tl : list TimelineEvent) : bool :=
  existsb (λ ie : nat * TimelineEvent,
             String.eqb (event_kind ie.2) kind
             && match start with None => true | Some s => (s <=? ie.1)%nat end)
    (imap pair tl).

(** [notifications_for_incident]. *)
Definition notifications_for_incident (i : Incident) : list Notification :=
  match incident_status i with
  | Status_Resolved => [for_incident i Trigger_Resolved]
  | Status_Recovering => [for_incident i Trigger_Recovering]
  | Status_Suppressed | Status_Reset => []
  | Status_Open | Status_Acknowledged =>
      let start := lifecycle_start i in
      (for_incident i Trigger_Opened
       :: (if happened_since start "severity_escalated" (timeline i) then [for_incident i Trigger_Escalated] else [])
       ++ (if happened_since start "diagnosis_changed" (timeline i)
           then [for_incident i Trigger_DiagnosisChanged] else []))%list
  end.

(** What candidates are sorted by. *)
Definition notification_order (n : Notification) : Z * Trigger := (notif_created_at n, notif_trigger n).

(** [notifications_for]: one candidate per key, the last offered, by time. *)
Definition notifications_for (u : IncidentUpdate) : list Notification :=
  let by_key : gmap string Notification :=
    foldl (λ m n, <[ deduplication_key n := n ]> m) ∅
      (mjoin (map notifications_for_incident (update_all u))) in
  sort_by_key notification_order (btree_values by_key).
End notification.

(** ** Facts *)

(** A key ends with its trigger, whatever its other parts hold. *)
Lemma deduplication_key_ends n p :
  (String.length p ≤ String.length (":" +:+ trigger_as_str (notif_trigger n)))%nat →
  ends_with p (deduplication_key n) = ends_with p (":" +:+ trigger_as_str (notif_trigger n)).
Proof.
  unfold deduplication_key, legacy_key. generalize (":" +:+ trigger_as_str (notif_trigger n)).
  intros w Hp. destruct (notif_event_id n); by rewrite !ends_with_app_short by (rewrite ?string_length_app; lia).
Qed.

(** * Maintenance windows

    [src/notification/maintenance.rs]: periods during which notifications about
    an entity, or about everything, are held back.  The clock and the random
    identifier are arguments. *)

(** [MaintenanceWindow]. *)
Record MaintenanceWindow := {
  window_id : Uuid;
  window_entity : option EntityId;
  window_reason : string;
  starts_at : Timestamp;
  ends_at : option Timestamp;
  created_by : option string
}.

(** [MaintenanceWindow::for_entity] and [for_environment]. *)
Definition window_for_entity (id : Uuid) (now : Timestamp) (e : EntityId) (reason : string) : MaintenanceWindow :=
  {| window_id := id; window_entity := Some e; window_reason := reason; starts_at := now; ends_at := None;
     created_by := None |}.

Definition window_for_environment (id : Uuid) (now : Timestamp) (reason : string) : MaintenanceWindow :=
  let w := window_for_entity id now {| as_uuid := 0 |} reason in
  {| window_id := window_id w; window_entity := None; window_reason := window_reason w;
     starts_at := starts_at w; ends_at := ends_at w; created_by := created_by w |}.

(** The builders [until], [from] and [by]. *)
Definition window_until (w : MaintenanceWindow) (t : Timestamp) : MaintenanceWindow :=
  {| window_id := window_id w; window_entity := window_entity w; window_reason := window_reason w;
     starts_at := starts_at w; ends_at := Some t; created_by := created_by w |}.

Definition window_from (w : MaintenanceWindow) (t : Timestamp) : MaintenanceWindow :=
  {| window_id := window_id w; window_entity := window_entity w; window_reason := window_reason w;
     starts_at := t; ends_at := ends_at w; created_by := created_by w |}.

Definition window_by (w : MaintenanceWindow) (actor : string) : MaintenanceWindow :=
  {| window_id := window_id w; window_entity := window_entity w; window_reason := window_reason w;
     starts_at := starts_at w; ends_at := ends_at w; created_by := Some actor |}.

(** [MaintenanceWindow::is_active_at]. *)
Definition is_active_at (w : MaintenanceWindow) (at_ : Timestamp) : bool :=
  (starts_at w <=? at_)%Z && match ends_at w with None => true | Some t => (at_ <? t)%Z end.

(** [MaintenanceWindow::covers]. *)
Definition covers (w : MaintenanceWindow) (e : EntityId) : bool :=
  match window_entity w with None => true | Some c => bool_decide (c = e) end.

(** [MaintenanceWindows]. *)
Record MaintenanceWindows := { windows : list MaintenanceWindow }.

Definition windows_new : MaintenanceWindows := {| windows := [] |}.

(** [MaintenanceWindows::from_windows] and [add]. *)
Definition from_windows (l : list MaintenanceWindow) : MaintenanceWindows := {| windows := l |}.

Definition window_add (ws : MaintenanceWindows) (w : MaintenanceWindow) : MaintenanceWindows :=
  {| windows := (windows ws ++ [w])%list |}.

(** [MaintenanceWindows::suppresses] and [suppresses_all]. *)
Definition suppresses (now : Timestamp) (ws : MaintenanceWindows) (e : EntityId) : bool :=
  existsb (λ w, is_active_at w now && covers w e) (windows ws).

Definition suppresses_all (now : Timestamp) (ws : MaintenanceWindows) (es : list EntityId) : bool :=
  match es with [] => false | _ => forallb (suppresses now ws) es end.

(** [MaintenanceWindows::active], [len] and [is_empty]. *)
Definition active_windows (now : Timestamp) (ws : MaintenanceWindows) : list MaintenanceWindow :=
  filter (λ w, is_active_at w now) (windows ws).
Definition windows_len (ws : MaintenanceWindows) : nat := length (windows ws).
Definition windows_is_empty (ws : MaintenanceWindows) : bool :=
  match windows ws with [] => true | _ => false end.

(** ** Facts *)

Lemma suppresses_spec now ws e :
  suppresses now ws e = true ↔
    ∃ w, w ∈ windows ws ∧ (starts_at w ≤ now)%Z ∧ (∀ t, ends_at w = Some t → (now < t)%Z)
      ∧ (window_entity w = None ∨ window_entity w = Some e).
Proof.
  unfold suppresses. rewrite existsb_exists. setoid_rewrite <-list_elem_of_In.
  split; intros (w & Hw & H); exists w; (split; [done|]).
  - apply andb_true_iff in H as [[Hs He]%andb_true_iff Hc]. unfold covers in Hc. split_and!.
    + by apply Z.leb_le.
    + intros t Ht. rewrite Ht in He. by apply Z.ltb_lt.
    + destruct (window_entity w); [|by left]. apply bool_decide_eq_true in Hc as ->. by right.
  - destruct H as (Hs & He & Hc). unfold is_active_at, covers. rewrite !andb_true_iff. split_and!.
    + by apply Z.leb_le.
    + destruct (ends_at w); [|done]. by apply Z.ltb_lt, He.
    + destruct Hc as [-> | ->]; [done|]. by apply bool_decide_eq_true.
Qed.

Lemma suppresses_all_spec now ws es :
  suppresses_all now ws es = true ↔ es ≠ [] ∧ ∀ e, e ∈ es → suppresses now ws e = true.
Proof.
  unfold suppresses_all. destruct es as [|e es]; [naive_solver|].
  rewrite forallb_forall. setoid_rewrite <-list_elem_of_In. naive_solver.
Qed.

(** * Notification deduplication

    [src/notification/dedup.rs]: the record of what was delivered, and whether a
    candidate is still news.  The clock is an argument; [last_attempt], a
    monotonic clock reading that only spaces deliveries out, is left out. *)

(** [DEFAULT_LEASE_MINUTES]. *)
Definition DEFAULT_LEASE_MINUTES : Z := 60.

(** [NotificationRecord]. *)
Record NotificationRecord := {
  record_incident_id : string;
  record_key : string;
  record_provider : string;
  record_sent_at : Timestamp
}.

(** [is_opening]. *)
Definition is_opening (key : string) : bool := ends_with (":" +:+ trigger_as_str Trigger_Opened) key.

(** [Deduplicator]: per provider and key, when it was sent and for which
    incident. *)
Record Deduplicator := {
  sent : gmap (string * string) (Timestamp * string);
  lease_minutes : Z
}.

(** [Deduplicator::new] and [with_lease_minutes]. *)
Definition deduplicator_new : Deduplicator := {| sent := ∅; lease_minutes := DEFAULT_LEASE_MINUTES |}.

Definition with_lease_minutes (d : Deduplicator) (m : Z) : Deduplicator :=
  {| sent := sent d; lease_minutes := m |}.

Definition with_sent (d : Deduplicator) (m : gmap (string * string) (Timestamp * string)) : Deduplicator :=
  {| sent := m; lease_minutes := lease_minutes d |}.

(** [Deduplicator::seed]. *)
Definition dedup_seed (d : Deduplicator) (records : list NotificationRecord) : Deduplicator :=
  with_sent d
    (foldl (λ m r, <[ (record_provider r, record_key r) := (record_sent_at r, record_incident_id r) ]> m)
       (sent d) records).

(** The record of an earlier version covers this event. *)
Definition legacy_covers (d : Deduplicator) (n : Notification) (provider : string) : bool :=
  match notif_event_id n, sent d !! (provider, legacy_key n) with
  | Some _, Some (sent_at, id) => String.eqb id (notif_incident_id n) && (notif_created_at n <=? sent_at)%Z
  | _, _ => false
  end.

(** [Deduplicator::should_send]. *)
Definition should_send (now : Timestamp) (d : Deduplicator) (n : Notification) (provider : string) : bool :=
  if legacy_covers d n provider then false
  else
    match sent d !! (provider, deduplication_key n) with
    | None => true
    | Some (sent_at, _) =>
        if is_opening (deduplication_key n) || contains ":event:" (deduplication_key n) then false
        else bool_decide (minutes (lease_minutes d) ≤ now - sent_at)%Z
    end.

(** The keys [forget_opening] keeps. *)
Definition keeps_opening (fingerprint existing : string) : bool :=
  negb (String.eqb existing (fingerprint +:+ (":" +:+ trigger_as_str Trigger_Opened)))
  && negb (starts_with (fingerprint +:+ ":event:") existing && is_opening existing).

(** [Deduplicator::forget_opening]: the keys dropped come in the order the table
    is iterated. *)
Definition forget_opening `{HashIter} (d : Deduplicator) (fingerprint : string) : Deduplicator * list string :=
  (with_sent d (filter (λ kv, keeps_opening fingerprint kv.1.2) (sent d)),
   map (λ kv : (string * string) * (Timestamp * string), kv.1.2)
     (filter (λ kv, negb (keeps_opening fingerprint kv.1.2)) (hash_iter (sent d)))).

(** [Deduplicator::record]. *)
Definition record (now : Timestamp) (d : Deduplicator) (n : Notification) (provider : string) :
    Deduplicator * NotificationRecord :=
  (with_sent d (<[ (provider, deduplication_key n) := (now, notif_incident_id n) ]> (sent d)),
   {| record_incident_id := notif_incident_id n; record_key := deduplication_key n;
      record_provider := provider; record_sent_at := now |}).

(** [Deduplicator::filter]; each test reads the clock. *)
Definition dedup_filter (now : Notification → Timestamp) (d : Deduplicator) (ns : list Notification)
    (provider : string) : list Notification :=
  filter (λ n, should_send (now n) d n provider) ns.

(** [Deduplicator::len] and [is_empty]. *)
Definition dedup_len (d : Deduplicator) : nat := size (sent d).
Definition dedup_is_empty (d : Deduplicator) : bool := bool_decide (size (sent d) = 0%nat).

(** The keys of the events that can still be offered. *)
Definition candidate_keys (ns : list Notification) : gset string :=
  list_to_set (mjoin (map (λ n, [deduplication_key n; legacy_key n]) ns)).

(** [Deduplicator::retain_candidates]. *)
Definition retain_candidates (d : Deduplicator) (ns : list Notification) : Deduplicator :=
  with_sent d (filter (λ kv, kv.1.2 ∈ candidate_keys ns) (sent d)).

(** The records [prune] keeps. *)
Definition prune_keeps (cutoff : Timestamp) (kv : (string * string) * (Timestamp * string)) : bool :=
  is_opening kv.1.2 || contains ":event:" kv.1.2 || (cutoff <=? kv.2.1)%Z.

(** [Deduplicator::prune]: what is left, and how many were dropped. *)
Definition prune (now : Timestamp) (d : Deduplicator) : Deduplicator * nat :=
  let kept := filter (prune_keeps (now - minutes (lease_minutes d * 2))%Z) (sent d) in
  (with_sent d kept, (size (sent d) - size kept)%nat).

(** ** Facts *)

(** A key announces an opening exactly when its trigger does. *)
Lemma is_opening_spec n : is_opening (deduplication_key n) = true ↔ notif_trigger n = Trigger_Opened.
Proof.
  unfold is_opening. 
  rewrite deduplication_key_ends by (destruct (notif_trigger n); vm_compute; lia).
  by destruct (notif_trigger n); vm_compute.
Qed.

Lemma event_key_marked n e : notif_event_id n = Some e → contains ":event:" (deduplication_key n) = true.
Proof. intros He. unfold deduplication_key. rewrite He. apply contains_app. Qed.

(** Once recorded, an event is never news again, at any time. *)
Lemma should_send_recorded now d n e provider :
  notif_event_id n = Some e → is_Some (sent d !! (provider, deduplication_key n)) →
  should_send now d n provider = false.
Proof.
  intros He [[at_ id] Hs]. unfold should_send. rewrite Hs, (event_key_marked _ _ He), orb_true_r.
  by destruct (legacy_covers d n provider).
Qed.

Lemma record_recorded now d n p : sent (record now d n p).1 !! (p, deduplication_key n) = Some (now, notif_incident_id n).
Proof. apply lookup_insert_eq. Qed.

Lemma record_keeps now d n p k : is_Some (sent d !! k) → is_Some (sent (record now d n p).1 !! k).
Proof. intros Hk. cbn. destruct (decide (k = (p, deduplication_key n))) as [->|Hne].
  - by rewrite lookup_insert_eq.
  - by rewrite lookup_insert_ne.
Qed.

Lemma seed_keeps d rs k : is_Some (sent d !! k) → is_Some (sent (dedup_seed d rs) !! k).
Proof.
  cbn. generalize (sent d). induction rs as [|r rs IH]; intros m Hk; cbn [foldl]; [done|].
  apply IH. destruct (decide (k = (record_provider r, record_key r))) as [->|Hne].
  - by rewrite lookup_insert_eq.
  - by rewrite lookup_insert_ne.
Qed.

Lemma seed_recorded d rs r :
  r ∈ rs → is_Some (sent (dedup_seed d rs) !! (record_provider r, record_key r)).
Proof.
  cbn. generalize (sent d). induction rs as [|r' rs IH]; intros m Hr; [by apply elem_of_nil in Hr|].
  cbn [foldl]. apply elem_of_cons in Hr as [->|Hr]; [|by apply IH].
  pose proof (seed_keeps (with_sent d (<[(record_provider r', record_key r') := (record_sent_at r',
    record_incident_id r')]> m)) rs (record_provider r', record_key r')) as Hk.
  apply Hk. cbn. by rewrite lookup_insert_eq.
Qed.

Lemma prune_keeps_event now d p key :
  is_opening key || contains ":event:" key = true →
  is_Some (sent d !! (p, key)) → is_Some (sent (prune now d).1 !! (p, key)).
Proof.
  intros He [v Hv]. exists v. cbn. apply map_lookup_filter_Some. split; [done|].
  apply Is_true_true. unfold prune_keeps. cbn [fst snd]. by rewrite He.
Qed.

Lemma retain_keeps d ns n p :
  n ∈ ns → is_Some (sent d !! (p, deduplication_key n)) →
  is_Some (sent (retain_candidates d ns) !! (p, deduplication_key n)).
Proof.
  intros Hn [v Hv]. exists v. cbn. apply map_lookup_filter_Some. split; [done|]. cbn.
  unfold candidate_keys. apply elem_of_list_to_set, list_elem_of_join.
  exists [deduplication_key n; legacy_key n]. split; [by left|]. apply list_elem_of_fmap. by exists n.
Qed.
