(* ===== verification/Notify.v ===== *)
(** * Delivering notifications

    [src/controller/notify.rs] and the delivery loop of
    [src/controller/server.rs]: the filters between an incident and a message,
    and the worker that offers the stored candidates until they are delivered.

    What the store, the providers and the clock answer during a pass is a
    parameter ([NotifyWorld]); an answer of [None] is an error.  A pass asks
    about pairs of a notification and a provider one after the other, so the
    answers about a pair are indexed by its number.  The waiting between two
    deliveries ([min_interval]) is not modelled: nothing but time passes. *)

From S2P Require Export Notification.

Local Open Scope string_scope.

(** [NotifyOutcome]. *)
Record NotifyOutcome := {
  out_sent : nat;
  out_deduplicated : nat;
  out_suppressed : nat;
  out_below_threshold : nat;
  out_failed : nat
}.

Definition outcome_default : NotifyOutcome :=
  {| out_sent := 0; out_deduplicated := 0; out_suppressed := 0; out_below_threshold := 0; out_failed := 0 |}.

#[export] Instance NotifyOutcome_eq_dec : EqDecision NotifyOutcome.
Proof. solve_decision. Defined.

(** [NotifyOutcome::is_empty]. *)
Definition outcome_is_empty (o : NotifyOutcome) : bool := bool_decide (o = outcome_default).

(** [outcome.field += 1]. *)
Inductive OutcomeField := F_sent | F_deduplicated | F_suppressed | F_below_threshold | F_failed.

Definition bump (f : OutcomeField) (o : NotifyOutcome) : NotifyOutcome :=
  let inc g n := match f, g with
                 | F_sent, F_sent | F_deduplicated, F_deduplicated | F_suppressed, F_suppressed
                 | F_below_threshold, F_below_threshold | F_failed, F_failed => S n
                 | _, _ => n
                 end in
  {| out_sent := inc F_sent (out_sent o); out_deduplicated := inc F_deduplicated (out_deduplicated o);
     out_suppressed := inc F_suppressed (out_suppressed o);
     out_below_threshold := inc F_below_threshold (out_below_threshold o);
     out_failed := inc F_failed (out_failed o) |}.

(** [min_severity], of the configured floor. *)
Definition min_severity (configured : string) : Severity := default Severity_Warning (severity_parse configured).

(** What a pass is answered. *)
Class NotifyWorld := {
  (** [SqliteStore::notification_candidates] and [load_incident]. *)
  nw_candidates : option (list Notification);
  nw_incident : string → option (option Incident);
  (** The clock the maintenance check of the [j]-th notification reads. *)
  nw_notice_clock : nat → Timestamp;
  (** About the [k]-th pair: the clock [should_send] reads,
      [is_notification_current], [load_maintenance_windows] and the clock of
      that check, whether the provider accepted, and the clock of the record. *)
  nw_news_clock : nat → Timestamp;
  nw_current : nat → option bool;
  nw_windows : nat → option (list MaintenanceWindow);
  nw_window_clock : nat → Timestamp;
  nw_accepted : nat → bool;
  nw_sent_at : nat → Timestamp
}.

(** The variables of a pass; [ns_log] is what the providers accepted. *)
Record NotifyState := {
  ns_dedup : Deduplicator;
  ns_outcome : NotifyOutcome;
  ns_pair : nat;
  ns_log : list (string * Notification)
}.

(** The pair is done with: count it and go on. *)
Definition skip_pair (st : NotifyState) (f : option OutcomeField) : NotifyState :=
  {| ns_dedup := ns_dedup st;
     ns_outcome := match f with Some f => bump f (ns_outcome st) | None => ns_outcome st end;
     ns_pair := S (ns_pair st); ns_log := ns_log st |}.

Definition count_notice (st : NotifyState) (f : OutcomeField) : NotifyState :=
  {| ns_dedup := ns_dedup st; ns_outcome := bump f (ns_outcome st); ns_pair := ns_pair st; ns_log := ns_log st |}.

Section notify.
Context `{U : UuidApi} `{T : TimeApi} `{W : NotifyWorld}.

(** [NotificationDispatcher::is_under_maintenance]. *)
Definition is_under_maintenance (now : Timestamp) (n : Notification) (u : IncidentUpdate)
    (ws : MaintenanceWindows) : bool :=
  match find (λ i, String.eqb (uuid_to_string (incident_id i)) (notif_incident_id n)) (update_all u) with
  | None => false
  | Some i => suppresses_all now ws (incident_affected i)
  end.

Variables (ids : list string) (effective : IncidentUpdate).

(** Whether the window refreshed before the delivery holds it back. *)
Definition newly_suppressed (k : nat) (n : Notification) : bool :=
  match ids, nw_windows k with
  | [], Some ws => is_under_maintenance (nw_window_clock k) n effective (from_windows ws)
  | _, _ => false
  end.

(** The body of [for provider in providers]; [inr] is the early return of [?]. *)
Definition notify_pair (n : Notification) (provider : string) (st : NotifyState) : NotifyState + NotifyState :=
  let k := ns_pair st in
  if negb (should_send (nw_news_clock k) (ns_dedup st) n provider) then inl (skip_pair st (Some F_deduplicated))
  else
    match (if decide (notif_incident_id n ∈ ids) then Some true else nw_current k) with
    | None => inr st
    | Some false => inl (skip_pair st None)
    | Some true =>
        if newly_suppressed k n then inl (skip_pair st (Some F_suppressed))
        else if nw_accepted k then
          inl {| ns_dedup := (record (nw_sent_at k) (ns_dedup st) n provider).1;
                 ns_outcome := bump F_sent (ns_outcome st);
                 ns_pair := S k; ns_log := (ns_log st ++ [(provider, n)])%list |}
        else inl (skip_pair st (Some F_failed))
    end.

Fixpoint notify_providers (n : Notification) (providers : list string) (st : NotifyState) :
    NotifyState + NotifyState :=
  match providers with
  | [] => inl st
  | p :: providers' =>
      match notify_pair n p st with
      | inl st' => notify_providers n providers' st'
      | inr st' => inr st'
      end
  end.

Variables (floor : Severity) (maintenance : MaintenanceWindows) (providers : list string).

(** A notification below the floor is still heard when it is a recovery. *)
Definition below_floor (n : Notification) : bool :=
  (severity_level (notif_severity n) <? severity_level floor)%N && negb (is_recovery (notif_trigger n)).

(** The body of [for notification in &notifications], the [j]-th. *)
Definition notify_one (j : nat) (n : Notification) (st : NotifyState) : NotifyState + NotifyState :=
  if below_floor n then inl (count_notice st F_below_threshold)
  else if is_under_maintenance (nw_notice_clock j) n effective maintenance
  then inl (count_notice st F_suppressed)
  else notify_providers n providers st.

Fixpoint notify_loop (j : nat) (ns : list Notification) (st : NotifyState) : NotifyState + NotifyState :=
  match ns with
  | [] => inl st
  | n :: ns' =>
      match notify_one j n st with
      | inl st' => notify_loop (S j) ns' st'
      | inr st' => inr st'
      end
  end.
End notify.

Section pass.
Context `{U : UuidApi} `{T : TimeApi} `{W : NotifyWorld}.

(** Loading the incidents the stored candidates are about. *)
Fixpoint load_effective (ns : list Notification) (u : IncidentUpdate) : option IncidentUpdate :=
  match ns with
  | [] => Some u
  | n :: ns' =>
      if existsb (λ i, String.eqb (uuid_to_string (incident_id i)) (notif_incident_id n)) (update_all u)
      then load_effective ns' u
      else
        loaded ← nw_incident (notif_incident_id n);
        load_effective ns' (match loaded with Some i => push_change Change_Updated i u | None => u end)
  end.

Definition notify_start (d : Deduplicator) : NotifyState :=
  {| ns_dedup := d; ns_outcome := outcome_default; ns_pair := 0; ns_log := [] |}.

(** The incidents of the update, by the identifiers notifications carry. *)
Definition update_ids (u : IncidentUpdate) : list string :=
  map (λ i, uuid_to_string (incident_id i)) (update_all u).

(** Stored candidates, replaced by what the update offers, by time. *)
Definition pass_notifications (stored : list Notification) (u : IncidentUpdate) : list Notification :=
  sort_by_key notification_order
    (filter (λ n, notif_incident_id n ∉ update_ids u) stored ++ notifications_for u)%list.

(** [NotificationDispatcher::notify]. *)
Definition notify (floor : Severity) (u : IncidentUpdate) (providers : list string) (d : Deduplicator)
    (maintenance : MaintenanceWindows) : NotifyState + NotifyState :=
  match providers with
  | [] => inl (notify_start d)
  | _ =>
      match nw_candidates with
      | None => inr (notify_start d)
      | Some stored =>
          let ns := pass_notifications stored u in
          match load_effective ns u with
          | None => inr (notify_start d)
          | Some effective =>
              notify_loop (update_ids u) effective floor maintenance providers 0 ns (notify_start d)
          end
      end
  end.

(** The state a pass leaves behind, however it ended. *)
Definition pass_end (r : NotifyState + NotifyState) : NotifyState :=
  match r with inl st | inr st => st end.
End pass.

(** ** The delivery worker *)

(** What one tick of the delivery loop reads besides the pass itself. *)
Record Tick := {
  tick_world : NotifyWorld;
  tick_floor : Severity;
  tick_maintenance : MaintenanceWindows;
  tick_history : option (list NotificationRecord);
  tick_candidates : option (list Notification)
}.

Section worker.
Context `{U : UuidApi} `{T : TimeApi}.

(** One turn of the loop: merge the delivery history, deliver, and forget what
    can no longer be offered. *)
Definition delivery_tick (providers : list string) (t : Tick) (d : Deduplicator) :
    Deduplicator * list (string * Notification) :=
  let d := match tick_history t with Some rs => dedup_seed d rs | None => d end in
  let st := pass_end (notify (W := tick_world t) (tick_floor t) update_default providers d (tick_maintenance t)) in
  (match tick_candidates t with Some cs => retain_candidates (ns_dedup st) cs | None => ns_dedup st end,
   ns_log st).

Fixpoint delivery_run (providers : list string) (ts : list Tick) (d : Deduplicator) :
    Deduplicator * list (string * Notification) :=
  match ts with
  | [] => (d, [])
  | t :: ts' =>
      let '(d', log) := delivery_tick providers t d in
      let '(d'', log') := delivery_run providers ts' d' in
      (d'', (log ++ log')%list)
  end.
End worker.
