(* ===== verification/NotifySpec.v ===== *)
(** * What notification guarantees

    The theorems about [Notification] and [Notify]: which
    candidates an incident offers, that what was delivered stays delivered, that
    what was not is offered again, and what each filter may hold back. *)

From S2P Require Import Concrete.
From S2P Require Export IncidentSpec Notify.

Local Open Scope string_scope.

(** ** Candidates *)

Section candidates.
Context `{U : UuidApi} `{T : TimeApi}.

Lemma last_position_spec {A} (p : A → bool) (l : list A) :
  match last_position p l with
  | Some s => (∃ x, l !! s = Some x ∧ p x = true) ∧ ∀ k y, l !! k = Some y → (s < k)%nat → p y = false
  | None => ∀ k y, l !! k = Some y → p y = false
  end.
Proof.
  induction l as [|x l IH]; cbn [last_position]; [done|].
  destruct (last_position p l) as [s|].
  - destruct IH as [Hs Hlater]. split; [exact Hs|]. intros [|k] y Hy Hlt; [lia|]. apply (Hlater k y Hy). lia.
  - destruct (p x) eqn:Hx.
    + split; [by exists x|]. intros [|k] y Hy Hlt; [lia|]. by apply (IH k).
    + intros [|k] y Hy; [by injection Hy as <-|]. by apply (IH k).
Qed.

(** The kinds of event that start a stretch of the outage. *)
Definition starts_outage (e : TimelineEvent) : bool :=
  existsb (String.eqb (event_kind e)) ["opened"; "reopened"; "recovery_failed"].

(** An event of this kind happened and no new stretch started after it. *)
Definition current_event (kind : string) (tl : list TimelineEvent) : Prop :=
  ∃ k e, tl !! k = Some e ∧ event_kind e = kind
    ∧ ∀ k' e', tl !! k' = Some e' → (k < k')%nat → starts_outage e' = false.

Lemma elem_of_imap_pair (tl : list TimelineEvent) k e : (k, e) ∈ imap pair tl ↔ tl !! k = Some e.
Proof.
  rewrite list_elem_of_lookup. setoid_rewrite list_lookup_imap. split.
  - intros [j Hj]. destruct (tl !! j) as [e'|] eqn:He; cbn in Hj; [|done]. by injection Hj as -> ->.
  - intros He. exists k. by rewrite He.
Qed.

Lemma happened_since_spec i kind :
  starts_outage {| event_at := 0%Z; event_kind := kind; event_detail := ""; event_entity := None |} = false →
  happened_since (lifecycle_start i) kind (timeline i) = true ↔ current_event kind (timeline i).
Proof.
  intros Hkind. unfold happened_since, lifecycle_start, current_event. fold starts_outage.
  pose proof (last_position_spec starts_outage (timeline i)) as Hlast.
  change (λ e : TimelineEvent, existsb (String.eqb (event_kind e)) ["opened"; "reopened"; "recovery_failed"])
    with starts_outage.
  rewrite existsb_exists. setoid_rewrite <-list_elem_of_In. split.
  - intros ([k e] & Hin & [Hk%String.eqb_eq Hs]%andb_true_iff). apply elem_of_imap_pair in Hin. cbn in Hk, Hs.
    exists k, e. split_and!; [done..|]. intros k' e' Hk' Hlt.
    destruct (last_position _ _) as [s|]; [|by eapply Hlast].
    apply (proj2 Hlast k'); [done|]. apply Nat.leb_le in Hs. lia.
  - intros (k & e & Hk & He & Hafter). exists (k, e). split; [by apply elem_of_imap_pair|]. cbn.
    rewrite He, String.eqb_refl. cbn. destruct (last_position _ _) as [s|]; [|done].
    destruct Hlast as [(x & Hx & Hp) _]. apply Nat.leb_le. destruct (decide (s ≤ k)%nat); [done|].
    rewrite (Hafter s x Hx) in Hp by lia. done.
Qed.

Lemma elem_of_candidates i n :
  n ∈ notifications_for_incident i ↔ ∃ t, n = for_incident i t ∧
    match incident_status i with
    | Status_Resolved => t = Trigger_Resolved
    | Status_Recovering => t = Trigger_Recovering
    | Status_Suppressed | Status_Reset => False
    | Status_Open | Status_Acknowledged =>
        t = Trigger_Opened
        ∨ (t = Trigger_Escalated ∧ current_event "severity_escalated" (timeline i))
        ∨ (t = Trigger_DiagnosisChanged ∧ current_event "diagnosis_changed" (timeline i))
    end.
Proof.
  pose proof (happened_since_spec i "severity_escalated" eq_refl) as He.
  pose proof (happened_since_spec i "diagnosis_changed" eq_refl) as Hd.
  unfold notifications_for_incident. cbn zeta.
  destruct (incident_status i); try (rewrite list_elem_of_singleton; naive_solver);
    try (rewrite elem_of_nil; naive_solver).
  all: setoid_rewrite <-He; setoid_rewrite <-Hd; rewrite elem_of_cons, elem_of_app;
    destruct (happened_since _ "severity_escalated" _), (happened_since _ "diagnosis_changed" _);
    rewrite ?list_elem_of_singleton, ?elem_of_nil; naive_solver.
Qed.

(** Candidates carry an event identity. *)
Lemma candidate_event i n : n ∈ notifications_for_incident i → is_Some (notif_event_id n).
Proof. intros (t & -> & _)%elem_of_candidates. by eexists. Qed.

(** What a candidate's key depends on. *)
Lemma candidate_keys_frame i i' :
  incident_id i' = incident_id i → incident_fingerprint i' = incident_fingerprint i →
  incident_status i' = incident_status i → incident_started_at i' = incident_started_at i →
  timeline i' = timeline i →
  map deduplication_key (notifications_for_incident i') = map deduplication_key (notifications_for_incident i).
Proof.
  intros Hid Hfp Hs Hst Htl.
  assert (∀ t, deduplication_key (for_incident i' t) = deduplication_key (for_incident i t)) as Hkey.
  { intros t. unfold deduplication_key. cbn [notif_event_id for_incident notif_fingerprint notif_incident_id notif_trigger].
    unfold event_identity, event_for. by rewrite Hid, Hfp, Hst, Htl. }
  unfold notifications_for_incident, lifecycle_start. rewrite Hs, Htl.
  destruct (incident_status i); cbn [map]; rewrite ?map_app, ?Hkey; try done; repeat case_match; cbn [map];
    by rewrite ?Hkey.
Qed.
End candidates.

(** The message fits the moment.  An incident offers exactly the news of its
    current state: its resolution once resolved, the partial recovery while
    recovering, nothing when reset or suppressed, and while it is open or
    acknowledged its opening, with an escalation or a changed diagnosis exactly
    when one happened in the current stretch of the outage.  So good and bad
    news are never offered together, and a recovery cannot follow an outage
    that has returned. *)
Theorem candidates_follow_the_status `{U : UuidApi} `{T : TimeApi} (i : Incident) :
  (∀ t, (∃ n, n ∈ notifications_for_incident i ∧ notif_trigger n = t) ↔
     match incident_status i with
     | Status_Resolved => t = Trigger_Resolved
     | Status_Recovering => t = Trigger_Recovering
     | Status_Suppressed | Status_Reset => False
     | Status_Open | Status_Acknowledged =>
         t = Trigger_Opened
         ∨ (t = Trigger_Escalated ∧ current_event "severity_escalated" (timeline i))
         ∨ (t = Trigger_DiagnosisChanged ∧ current_event "diagnosis_changed" (timeline i))
     end)
  ∧ ∀ n n', n ∈ notifications_for_incident i → n' ∈ notifications_for_incident i →
      is_recovery (notif_trigger n) = is_recovery (notif_trigger n').
Proof.
  split.
  - intros t. split.
    + intros (n & (t' & -> & Ht)%elem_of_candidates & <-). exact Ht.
    + intros Ht. exists (for_incident i t). split; [|done]. apply elem_of_candidates. by exists t.
  - intros n n' (t & -> & Ht)%elem_of_candidates (t' & -> & Ht')%elem_of_candidates. cbn.
    destruct (incident_status i); naive_solver.
Qed.

(** ** One pass *)

Section pass.
Context `{U : UuidApi} `{T : TimeApi} `{W : NotifyWorld}.
Variables (ids : list string) (effective : IncidentUpdate) (floor : Severity)
  (maintenance : MaintenanceWindows).

(** How one pair is dealt with. *)
Lemma notify_pair_cases n p st :
  let k := ns_pair st in
  (∃ f, notify_pair ids effective n p st = inl (skip_pair st f)
     ∧ (should_send (nw_news_clock k) (ns_dedup st) n p = false
        ∨ ((notif_incident_id n ∉ ids) ∧ nw_current k = Some false)
        ∨ newly_suppressed ids effective k n = true ∨ nw_accepted k = false))
  ∨ (notify_pair ids effective n p st = inr st ∧ nw_current k = None)
  ∨ (should_send (nw_news_clock k) (ns_dedup st) n p = true ∧ nw_accepted k = true
     ∧ newly_suppressed ids effective k n = false
     ∧ notify_pair ids effective n p st =
         inl {| ns_dedup := (record (nw_sent_at k) (ns_dedup st) n p).1;
                ns_outcome := bump F_sent (ns_outcome st);
                ns_pair := S k; ns_log := (ns_log st ++ [(p, n)])%list |}).
Proof.
  cbn zeta. unfold notify_pair. cbn zeta.
  destruct (should_send _ _ n p) eqn:Hnews; cbn [negb]; [|left; eexists; split; [done|by left]].
  destruct (decide (notif_incident_id n ∈ ids)) as [Hid|Hid];
    [|destruct (nw_current (ns_pair st)) as [[]|] eqn:Hcur].
  1, 2: destruct (newly_suppressed ids effective (ns_pair st) n) eqn:Hsup;
    [left; eexists; split; [done|tauto]|];
    destruct (nw_accepted (ns_pair st)) eqn:Hacc; [right; right; by split_and!|left; eexists; split; [done|tauto]].
  - left. eexists. split; [done|tauto].
  - right. left. done.
Qed.

(** What every pair and every count preserves, and an error leaves as it is, the
    loops preserve. *)
Section induction.
Variables (I : NotifyState → Prop) (ns : list Notification) (providers : list string).
Hypothesis I_skip : ∀ st f, I st → I (skip_pair st f).
Hypothesis I_count : ∀ st f, I st → I (count_notice st f).
Hypothesis I_deliver : ∀ st n p, I st → n ∈ ns → p ∈ providers →
  should_send (nw_news_clock (ns_pair st)) (ns_dedup st) n p = true →
  nw_accepted (ns_pair st) = true → below_floor floor n = false →
  (∃ j, is_under_maintenance (nw_notice_clock j) n effective maintenance = false) →
  I {| ns_dedup := (record (nw_sent_at (ns_pair st)) (ns_dedup st) n p).1;
       ns_outcome := bump F_sent (ns_outcome st);
       ns_pair := S (ns_pair st); ns_log := (ns_log st ++ [(p, n)])%list |}.

Lemma notify_providers_ind n ps st :
  n ∈ ns → ps ⊆ providers → below_floor floor n = false →
  (∃ j, is_under_maintenance (nw_notice_clock j) n effective maintenance = false) →
  I st → I (pass_end (notify_providers ids effective n ps st)).
Proof.
  intros Hn Hps Hfloor Hmaint. revert st. induction ps as [|p ps IH]; intros st Hst; cbn [notify_providers]; [done|].
  destruct (notify_pair_cases n p st) as [(f & -> & _)|[(-> & _)|(Hnews & Hacc & _ & ->)]].
  - apply IH; [set_solver|auto].
  - done.
  - apply IH; [set_solver|]. apply I_deliver; auto. set_solver.
Qed.

Lemma notify_loop_ind j l st :
  l ⊆ ns → I st → I (pass_end (notify_loop ids effective floor maintenance providers j l st)).
Proof.
  revert j st. induction l as [|n l IH]; intros j st Hl Hst; cbn [notify_loop]; [done|].
  unfold notify_one. destruct (below_floor floor n) eqn:Hfloor; [apply IH; [set_solver|auto]|].
  destruct (is_under_maintenance _ n effective maintenance) eqn:Hm; [apply IH; [set_solver|auto]|].
  pose proof (notify_providers_ind n providers st ltac:(set_solver) ltac:(done) Hfloor ltac:(by exists j) Hst) as Hp.
  destruct (notify_providers ids effective n providers st); cbn in Hp |- *; [|done]. apply IH; [set_solver|done].
Qed.
End induction.

(** The record of a pass: what it delivered is recorded, was not before, and no
    event twice; nothing already recorded is lost. *)
Definition event_key (pn : string * Notification) : string * string := (pn.1, deduplication_key pn.2).

Definition is_event (pn : string * Notification) : bool := bool_decide (is_Some (notif_event_id pn.2)).

Record pass_ok (d0 : Deduplicator) (st : NotifyState) : Prop := {
  pok_recorded : ∀ pn, pn ∈ ns_log st → is_Some (sent (ns_dedup st) !! event_key pn);
  pok_kept : ∀ k, is_Some (sent d0 !! k) → is_Some (sent (ns_dedup st) !! k);
  pok_new : ∀ pn, pn ∈ ns_log st → is_event pn = true → sent d0 !! event_key pn = None;
  pok_once : NoDup (map event_key (filter is_event (ns_log st)));
  pok_from : ∀ k, is_Some (sent (ns_dedup st) !! k) →
    is_Some (sent d0 !! k) ∨ ∃ pn, pn ∈ ns_log st ∧ event_key pn = k
}.

Lemma notify_start_ok d : pass_ok d (notify_start d).
Proof.
  split; cbn; [by intros ? ?%elem_of_nil|done|by intros ? ?%elem_of_nil|apply NoDup_nil_2|by left].
Qed.

Lemma notify_loop_pass_ok providers ns d :
  pass_ok d (pass_end (notify_loop ids effective floor maintenance providers 0 ns (notify_start d))).
Proof.
  apply (notify_loop_ind (pass_ok d) ns providers); [by intros ? ? []|by intros ? ? []| |done|].
  - intros st n p [Hrec Hkept Hnew Honce Hfrom] _ _ Hnews _ _ _. split; cbn [ns_log ns_dedup].
    + intros pn [Hin| ->%list_elem_of_singleton]%elem_of_app.
      * apply record_keeps. auto.
      * eexists. apply record_recorded.
    + intros k Hk. apply record_keeps. auto.
    + intros pn [Hin| ->%list_elem_of_singleton]%elem_of_app He; [auto|].
      destruct (sent d !! event_key (p, n)) eqn:Hs; [|done].
      apply bool_decide_eq_true in He as [e He].
      rewrite (should_send_recorded _ _ n e) in Hnews; [done|done|]. apply (Hkept (event_key (p, n))). by eexists.
    + rewrite filter_app, map_app. rewrite filter_cons, filter_nil. case_decide as He; cbn [map]; [|by rewrite app_nil_r].
      apply NoDup_app. split_and!; [done| |apply NoDup_singleton].
      intros x Hx ->%list_elem_of_singleton. apply list_elem_of_fmap in Hx as (pn & Heq & [_ Hin]%list_elem_of_filter).
      apply Is_true_true in He. apply bool_decide_eq_true in He as [e He].
      rewrite (should_send_recorded _ _ n e) in Hnews; [done|done|].
      change (p, deduplication_key n) with (event_key (p, n)). rewrite Heq. by apply Hrec.
    + intros k Hk. destruct (decide (k = event_key (p, n))) as [->|Hne].
      * right. exists (p, n). split; [apply elem_of_app; right; by apply list_elem_of_singleton|done].
      * assert (is_Some (sent (ns_dedup st) !! k)) as Hk'.
        { revert Hk. unfold record. cbn [fst sent with_sent]. by rewrite lookup_insert_ne. }
        destruct (Hfrom k Hk') as [|(pn & Hin & Hpn)]; [by left|]. right. exists pn.
        split; [apply elem_of_app; by left|done].
  - apply notify_start_ok.
Qed.

(** Once a pair's key is recorded it stays recorded to the end of the pass. *)
Lemma notify_providers_keeps n ps st k :
  is_Some (sent (ns_dedup st) !! k) →
  is_Some (sent (ns_dedup (pass_end (notify_providers ids effective n ps st))) !! k).
Proof.
  revert st. induction ps as [|p ps IH]; intros st Hk; cbn [notify_providers]; [done|].
  destruct (notify_pair_cases n p st) as [(f & -> & _)|[(-> & _)|(_ & _ & _ & ->)]]; [by apply IH|done|].
  apply IH. cbn [ns_dedup]. by apply record_keeps.
Qed.

Lemma notify_loop_keeps providers j l st k :
  is_Some (sent (ns_dedup st) !! k) →
  is_Some (sent (ns_dedup (pass_end (notify_loop ids effective floor maintenance providers j l st))) !! k).
Proof.
  revert j st. induction l as [|n l IH]; intros j st Hk; cbn [notify_loop]; [done|].
  unfold notify_one. destruct (below_floor floor n); [by apply IH|].
  destruct (is_under_maintenance _ n effective maintenance); [by apply IH|].
  pose proof (notify_providers_keeps n providers st k Hk) as Hp.
  destruct (notify_providers ids effective n providers st); cbn in Hp |- *; [by apply IH|done].
Qed.
End pass.

(** ** A whole pass *)

Section notify.
Context `{U : UuidApi} `{T : TimeApi}.

Lemma notify_pass_ok `{W : NotifyWorld} floor u providers d m :
  pass_ok d (pass_end (notify floor u providers d m)).
Proof.
  unfold notify. destruct providers as [|p ps]; [apply notify_start_ok|].
  destruct nw_candidates as [stored|]; [|apply notify_start_ok].
  cbn zeta. destruct (load_effective _ u); [|apply notify_start_ok]. apply notify_loop_pass_ok.
Qed.

(** A record in memory silences a tick, and survives it while the event remains
    a candidate. *)
Lemma tick_respects_record providers t d p n :
  is_Some (sent d !! (p, deduplication_key n)) →
  (∀ n', is_Some (notif_event_id n') → deduplication_key n' = deduplication_key n →
     (p, n') ∉ (delivery_tick providers t d).2)
  ∧ ((∀ cs, tick_candidates t = Some cs → n ∈ cs) →
     is_Some (sent (delivery_tick providers t d).1 !! (p, deduplication_key n))).
Proof.
  intros Hd. unfold delivery_tick. cbn zeta.
  set (d1 := match tick_history t with Some rs => dedup_seed d rs | None => d end).
  assert (is_Some (sent d1 !! (p, deduplication_key n))) as Hd1.
  { unfold d1. destruct (tick_history t); [by apply seed_keeps|done]. }
  pose proof (notify_pass_ok (W := tick_world t) (tick_floor t) update_default providers d1 (tick_maintenance t))
    as [_ Hkept Hnew _ _].
  cbn [fst snd]. split.
  - intros n' He Hkey Hin. specialize (Hnew _ Hin). unfold is_event in Hnew. cbn [snd] in Hnew.
    rewrite bool_decide_eq_true_2 in Hnew by done. specialize (Hnew eq_refl).
    unfold event_key in Hnew. cbn [fst snd] in Hnew. rewrite Hkey in Hnew. rewrite Hnew in Hd1. by destruct Hd1.
  - intros Hcs. destruct (tick_candidates t) as [cs|]; [|by apply Hkept].
    apply retain_keeps; [by apply Hcs|by apply Hkept].
Qed.

Lemma run_respects_record providers ts d p n :
  is_Some (sent d !! (p, deduplication_key n)) →
  (∀ t cs, t ∈ ts → tick_candidates t = Some cs → n ∈ cs) →
  ∀ n', is_Some (notif_event_id n') → deduplication_key n' = deduplication_key n →
    (p, n') ∉ (delivery_run providers ts d).2.
Proof.
  revert d. induction ts as [|t ts IH]; intros d Hd Hcs n' He Hkey; cbn [delivery_run]; [apply not_elem_of_nil|].
  destruct (tick_respects_record providers t d p n Hd) as [Hno Hkeep].
  specialize (Hno n' He Hkey). specialize (Hkeep (λ cs, Hcs t cs (list_elem_of_here _ _))).
  destruct (delivery_tick providers t d) as [d' log]. cbn [fst snd] in *.
  specialize (IH d' Hkeep (λ t' cs Ht', Hcs t' cs (list_elem_of_further _ _ _ Ht')) n' He Hkey).
  destruct (delivery_run providers ts d') as [d'' log']. cbn [fst snd] in *. rewrite elem_of_app. tauto.
Qed.
End notify.

(** C16.  Nobody is told twice.  Within a tick of the delivery worker no provider
    accepts the same event twice; once a provider has accepted an event, no
    later tick sends it that event again while the event remains a candidate;
    and a tick that reads the delivery from the stored history does not send
    it again even from a worker that has just restarted. *)
Theorem delivered_event_never_repeated `{U : UuidApi} `{T : TimeApi} (providers : list string) (t : Tick)
    (ts : list Tick) (d : Deduplicator) (p : string) (n : Notification) :
  is_Some (notif_event_id n) → (p, n) ∈ (delivery_tick providers t d).2 →
  NoDup (map event_key (filter is_event (delivery_tick providers t d).2))
  ∧ ((∀ t' cs, t' ∈ t :: ts → tick_candidates t' = Some cs → n ∈ cs) →
     ∀ n', is_Some (notif_event_id n') → deduplication_key n' = deduplication_key n →
       (p, n') ∉ (delivery_run providers ts (delivery_tick providers t d).1).2)
  ∧ ∀ t' d' rs r n', tick_history t' = Some rs → r ∈ rs → record_provider r = p →
      record_key r = deduplication_key n → is_Some (notif_event_id n') →
      deduplication_key n' = deduplication_key n → (p, n') ∉ (delivery_tick providers t' d').2.
Proof.
  intros He Hin.
  pose proof (notify_pass_ok (W := tick_world t) (tick_floor t) update_default providers
    (match tick_history t with Some rs => dedup_seed d rs | None => d end) (tick_maintenance t)) as Hok.
  split_and!.
  - apply (pok_once _ _ Hok).
  - intros Hcs. apply run_respects_record; [|intros t' cs Ht'; apply Hcs; by right].
    unfold delivery_tick in Hin |- *. cbn zeta in Hin |- *. cbn [fst snd] in Hin |- *.
    pose proof (pok_recorded _ _ Hok _ Hin) as Hrec. unfold event_key in Hrec. cbn [fst snd] in Hrec.
    destruct (tick_candidates t) as [cs|] eqn:Hc; [|done].
    apply retain_keeps; [|done]. by apply (Hcs t cs (list_elem_of_here _ _)).
  - intros t' d' rs r n' Hh Hr <- Hkey He' Hkey'.
    unfold delivery_tick. cbn zeta. cbn [snd]. rewrite Hh. intros Hbad.
    pose proof (notify_pass_ok (W := tick_world t') (tick_floor t') update_default providers (dedup_seed d' rs)
      (tick_maintenance t')) as [_ _ Hnew _ _].
    specialize (Hnew _ Hbad). unfold is_event in Hnew. cbn [snd] in Hnew.
    rewrite bool_decide_eq_true_2 in Hnew by done. specialize (Hnew eq_refl). unfold event_key in Hnew.
    cbn [fst snd] in Hnew. rewrite Hkey', <-Hkey in Hnew. destruct (seed_recorded d' rs r Hr) as [v Hv]. congruence.
Qed.

(** Whoever is told should be.  Everything a pass delivers goes to a configured
    provider and is one of the pass's notifications; it is at or above the
    configured floor unless it is a recovery; and the incident it is about,
    where known, affects nothing at all or at least one entity that no
    maintenance window in force covers. *)
Theorem deliveries_are_justified `{U : UuidApi} `{T : TimeApi} `{W : NotifyWorld} (floor : Severity)
    (u : IncidentUpdate) (providers : list string) (d : Deduplicator) (m : MaintenanceWindows)
    (p : string) (n : Notification) :
  (p, n) ∈ ns_log (pass_end (notify floor u providers d m)) →
  ∃ stored effective, nw_candidates = Some stored
    ∧ load_effective (pass_notifications stored u) u = Some effective
    ∧ n ∈ pass_notifications stored u ∧ p ∈ providers
    ∧ ((severity_level floor ≤ severity_level (notif_severity n))%N ∨ is_recovery (notif_trigger n) = true)
    ∧ ∃ j, ∀ i, find (λ i, String.eqb (uuid_to_string (incident_id i)) (notif_incident_id n)) (update_all effective)
                = Some i →
        incident_affected i = [] ∨ ∃ e, e ∈ incident_affected i ∧
          ∀ w, w ∈ windows m → is_active_at w (nw_notice_clock j) = true → covers w e = false.
Proof.
  unfold notify. destruct providers as [|p0 ps]; [by intros ?%elem_of_nil|].
  destruct nw_candidates as [stored|]; [|by intros ?%elem_of_nil]. cbn zeta.
  destruct (load_effective _ u) as [effective|] eqn:Heff; [|by intros ?%elem_of_nil].
  intros Hin. exists stored, effective. split; [done|]. split; [done|].
  pose (justified := λ pn : string * Notification, pn.2 ∈ pass_notifications stored u ∧ pn.1 ∈ p0 :: ps
    ∧ below_floor floor pn.2 = false
    ∧ ∃ j, is_under_maintenance (nw_notice_clock j) pn.2 effective m = false).
  assert (∀ pn, pn ∈ ns_log (pass_end (notify_loop (update_ids u) effective floor m (p0 :: ps) 0
    (pass_notifications stored u) (notify_start d))) → justified pn) as Hall.
  { apply (notify_loop_ind (update_ids u) effective floor m (λ st, ∀ pn, pn ∈ ns_log st → justified pn)
      (pass_notifications stored u) (p0 :: ps)); [done|done| |done|by intros ? ?%elem_of_nil].
    intros st n' p' IH Hn' Hp' _ _ Hfloor Hmaint pn. cbn [ns_log].
    intros [Hpn| ->%list_elem_of_singleton]%elem_of_app; [by apply IH|]. by split_and!. }
  destruct (Hall _ Hin) as (Hn & Hp & Hfloor & j & Hmaint). cbn [fst snd] in *. split_and!; [done|done| |].
  - unfold below_floor in Hfloor. apply andb_false_iff in Hfloor as [Hf|Hf].
    + left. by apply N.ltb_ge.
    + right. by apply negb_false_iff.
  - exists j. intros i Hi. unfold is_under_maintenance in Hmaint. rewrite Hi in Hmaint.
    destruct (incident_affected i) as [|e0 es]; [by left|]. right. cbn [suppresses_all] in Hmaint.
    destruct (forallb_forall (suppresses (nw_notice_clock j) m) (e0 :: es)) as [_ Hback].
    destruct (decide (Exists (λ e, suppresses (nw_notice_clock j) m e = false) (e0 :: es))) as [Hex|Hno].
    + apply Exists_exists in Hex as (e & He & Hs). exists e. split; [done|]. intros w Hw Hact.
      destruct (covers w e) eqn:Hc; [|done]. unfold suppresses in Hs.
      rewrite <-not_true_iff_false, existsb_exists in Hs. destruct Hs. exists w.
      split; [by apply list_elem_of_In|]. by rewrite Hact, Hc.
    + rewrite <-not_true_iff_false in Hmaint. destruct Hmaint. apply Hback. intros e He.
      destruct (suppresses _ m e) eqn:Hs; [done|]. destruct Hno. apply Exists_exists. exists e.
      split; [by apply list_elem_of_In|done].
Qed.

(** ** Nothing is lost *)

(** The deduplicator knows the event, under its key or that of an earlier
    version. *)
Definition told (d : Deduplicator) (p : string) (n : Notification) : Prop :=
  is_Some (sent d !! (p, deduplication_key n)) ∨ is_Some (sent d !! (p, legacy_key n)).

Lemma should_send_false now d n p : should_send now d n p = false → told d p n.
Proof.
  unfold should_send, legacy_covers, told.
  destruct (sent d !! (p, legacy_key n)) as [[? ?]|]; [intros _; by right|].
  destruct (sent d !! (p, deduplication_key n)) as [[? ?]|]; [intros _; by left|]. by destruct (notif_event_id n).
Qed.

Section nothing_lost.
Context `{U : UuidApi} `{T : TimeApi} `{W : NotifyWorld}.
Variables (ids : list string) (effective : IncidentUpdate) (floor : Severity)
  (maintenance : MaintenanceWindows).

(** Why the [k]-th pair was not delivered: the store said the event was no longer
    current, a window had started, or the provider refused. *)
Definition held_back (k : nat) (n : Notification) : Prop :=
  ((notif_incident_id n ∉ ids) ∧ nw_current k = Some false) ∨ newly_suppressed ids effective k n = true ∨ nw_accepted k = false.

(** The pairs a pass has to ask about, in order: whoever is above the floor and
    not under maintenance, to every provider. *)
Fixpoint offered (providers : list string) (j : nat) (ns : list Notification) : list (string * Notification) :=
  match ns with
  | [] => []
  | n :: ns' =>
      ((if (below_floor floor n || is_under_maintenance (nw_notice_clock j) n effective maintenance)%bool then []
        else map (λ p, (p, n)) providers) ++ offered providers (S j) ns')%list
  end.

Lemma elem_of_offered providers p n j ns :
  n ∈ ns → p ∈ providers → below_floor floor n = false →
  (∀ j, is_under_maintenance (nw_notice_clock j) n effective maintenance = false) → (p, n) ∈ offered providers j ns.
Proof.
  intros Hn Hp Hfloor Hm. revert j. induction ns as [|n0 ns IH]; intros j; [by apply elem_of_nil in Hn|].
  cbn [offered]. apply elem_of_app. apply elem_of_cons in Hn as [<-|Hn]; [left|right; by apply IH].
  rewrite Hfloor, Hm. cbn [orb]. by apply (list_elem_of_fmap_2 (λ p, (p, n))).
Qed.

Lemma told_keeps_providers n ps st p n' :
  told (ns_dedup st) p n' → told (ns_dedup (pass_end (notify_providers ids effective n ps st))) p n'.
Proof. intros [Ht|Ht]; [left|right]; by apply notify_providers_keeps. Qed.

Lemma told_keeps_loop providers j l st p n' :
  told (ns_dedup st) p n' →
  told (ns_dedup (pass_end (notify_loop ids effective floor maintenance providers j l st))) p n'.
Proof. intros [Ht|Ht]; [left|right]; by apply notify_loop_keeps. Qed.

Lemma offered_to_nobody j ns : offered [] j ns = [].
Proof. revert j. induction ns as [|n ns IH]; intros j; cbn [offered]; [done|]. rewrite IH. by destruct (_ || _). Qed.

Lemma notify_providers_pairs n ps st st' :
  notify_providers ids effective n ps st = inl st' → ns_pair st' = (ns_pair st + length ps)%nat
  ∧ ∀ k p, ps !! k = Some p → told (ns_dedup st') p n ∨ held_back (ns_pair st + k) n.
Proof.
  revert st. induction ps as [|p ps IH]; intros st Hst; cbn [notify_providers length] in *.
  { injection Hst as <-. split; [lia|done]. }
  assert (∀ st1, told (ns_dedup st1) p n → notify_providers ids effective n ps st1 = inl st' → told (ns_dedup st') p n) as Hkeep.
  { intros st1 Ht H1. pose proof (told_keeps_providers n ps st1 p n Ht) as H2. by rewrite H1 in H2. }
  destruct (notify_pair_cases ids effective n p st) as [(f & Heq & Hwhy)|[(Heq & _)|(_ & _ & _ & Heq)]];
    rewrite Heq in Hst; [|done|]; destruct (IH _ Hst) as [Hlen Hps]; cbn [ns_pair skip_pair] in Hlen, Hps.
  all: split; [lia|]; intros [|k] p' Hp'; [injection Hp' as <-; rewrite Nat.add_0_r|rewrite <-Nat.add_succ_comm; by apply Hps].
  - destruct Hwhy as [Hnews|Hheld]; [left|by right]. eapply Hkeep; [|done]. by eapply should_send_false.
  - left. eapply Hkeep; [|done]. left. eexists. apply record_recorded.
Qed.

Lemma notify_loop_pairs providers j l st st' :
  notify_loop ids effective floor maintenance providers j l st = inl st' →
  ∀ k p n, offered providers j l !! k = Some (p, n) → told (ns_dedup st') p n ∨ held_back (ns_pair st + k) n.
Proof.
  revert j st. induction l as [|n0 l IH]; intros j st Hst k p n; [done|]. cbn [notify_loop offered] in *.
  destruct (notify_one _ _ _ _ _ _ n0 st) as [st1|] eqn:H1; [|done]. unfold notify_one in H1.
  assert (∀ p n, told (ns_dedup st1) p n → told (ns_dedup st') p n) as Hkeep.
  { intros p' n' Ht. pose proof (told_keeps_loop providers (S j) l st1 p' n' Ht) as H2. by rewrite Hst in H2. }
  destruct (below_floor floor n0); [injection H1 as <-; exact (IH _ _ Hst k p n)|].
  destruct (is_under_maintenance _ n0 effective maintenance); [injection H1 as <-; exact (IH _ _ Hst k p n)|].
  cbn [orb]. destruct (notify_providers_pairs _ _ _ _ H1) as [Hlen Hpairs].
  intros [Hk|[Hlt Hk]]%lookup_app_Some.
  - rewrite list_lookup_fmap in Hk. destruct (providers !! k) as [p'|] eqn:Hp; [|done]. injection Hk as <- <-.
    destruct (Hpairs k p' Hp); [left; by apply Hkeep|by right].
  - rewrite length_map in Hlt, Hk. destruct (IH _ _ Hst _ _ _ Hk) as [?|Hh]; [by left|right]. rewrite Hlen in Hh.
    by replace (ns_pair st + k)%nat with (ns_pair st + length providers + (k - length providers))%nat by lia.
Qed.
End nothing_lost.

(** C17.  Nothing is lost.  A pass that ends without a store error has asked about
    every notification that is worth sending, not below the floor and not under
    maintenance, for every configured provider; and of each of these pairs, the
    [k]-th asked about, the provider has been told, in this pass or before,
    unless at that very delivery the store said the event was no longer
    current, a maintenance window had just started, or the provider refused: a
    refusal excuses nothing but the pair that was refused.  Only accepted
    deliveries leave a record, so a later pass offers a refused one again. *)
Theorem nothing_is_lost `{U : UuidApi} `{T : TimeApi} `{W : NotifyWorld} (floor : Severity)
    (u effective : IncidentUpdate) (providers : list string) (d : Deduplicator) (m : MaintenanceWindows)
    (st : NotifyState) (stored : list Notification) :
  notify floor u providers d m = inl st → nw_candidates = Some stored →
  load_effective (pass_notifications stored u) u = Some effective →
  let asked := offered effective floor m providers 0 (pass_notifications stored u) in
  (∀ p n, n ∈ pass_notifications stored u → p ∈ providers → below_floor floor n = false →
     (∀ j, is_under_maintenance (nw_notice_clock j) n effective m = false) → (p, n) ∈ asked)
  ∧ (∀ k p n, asked !! k = Some (p, n) → told (ns_dedup st) p n ∨ held_back (update_ids u) effective k n)
  ∧ ∀ k, is_Some (sent (ns_dedup st) !! k) →
      is_Some (sent d !! k) ∨ ∃ pn, pn ∈ ns_log st ∧ event_key pn = k.
Proof.
  intros Hst Hc Heff asked. split_and!; [intros; by apply elem_of_offered| |].
  2: { pose proof (notify_pass_ok floor u providers d m) as Hok. rewrite Hst in Hok. apply (pok_from _ _ Hok). }
  unfold notify in Hst. rewrite Hc in Hst. cbn zeta in Hst. rewrite Heff in Hst. intros k p n Hk.
  destruct providers as [|p0 ps]; [|by apply (notify_loop_pairs _ _ _ _ _ _ _ _ _ Hst k p n Hk)].
  unfold asked in Hk. by rewrite offered_to_nobody in Hk.
Qed.

(** ** From diagnosis to silence *)

(** A fault that persists is announced once.  When the same diagnoses are
    drawn in two passes in a row, nothing is opened by the second, and for an
    operator whose provider has been given every candidate of the first pass's
    incident, no candidate of the incident as the second pass leaves it is
    news, at any later time. *)
Theorem persistent_fault_announced_once `{U : UuidApi} `{T : TimeApi} `{J : JsonApi} (P1 P2 : IncidentPass)
    (e e1 e2 : IncidentEngine) (ds : list Diagnosis) (g : DependencyGraph)
    (recovered1 recovered2 : Incident → bool * bool) (u1 u2 : IncidentUpdate) (dd : Deduplicator) (p : string)
    (d : Diagnosis) :
  reconcile_verified (P := P1) e ds g recovered1 = Some (e1, u1) →
  reconcile_verified (P := P2) e1 ds g recovered2 = Some (e2, u2) → d ∈ ds →
  opened u2 = [] ∧ ∃ i1 i2, incidents e1 !! fingerprint d = Some i1 ∧ incidents e2 !! fingerprint d = Some i2
    ∧ ((∀ n, n ∈ notifications_for_incident i1 → is_Some (sent dd !! (p, deduplication_key n))) →
       ∀ n now, n ∈ notifications_for_incident i2 → should_send now dd n p = false).
Proof.
  intros Hr1 Hr2 Hd. destruct (persistent_fault_is_quiet _ _ _ _ _ _ _ _ _ _ _ Hr1 Hr2) as [Hop Hall].
  split; [done|]. destruct (Hall d Hd) as (i1 & i2 & Hi1 & Hi2 & Hc & Hs & _ & Htl).
  exists i1, i2. split_and!; [done..|]. intros Hsent n now Hn.
  destruct (candidate_event _ _ Hn) as [ev Hev]. apply (should_send_recorded _ _ _ ev); [done|].
  assert (deduplication_key n ∈ map deduplication_key (notifications_for_incident i1)) as Hkey.
  { rewrite <-(candidate_keys_frame i1 i2); [by apply list_elem_of_fmap_2| |by apply Hc|done| |done]; apply Hc. }
  apply list_elem_of_fmap in Hkey as (n1 & Heq & Hn1). rewrite Heq. by apply Hsent.
Qed.

(** ** A delivery *)

Section example.
Definition sample_notification : Notification := for_incident sample_open_incident Trigger_Opened.

(** A store that offers the opening and a provider that accepts it. *)
Definition sample_world : NotifyWorld :=
  {| nw_candidates := Some [sample_notification]; nw_incident _ := Some (Some sample_open_incident);
     nw_notice_clock _ := 3%Z; nw_news_clock _ := 3%Z; nw_current _ := Some true; nw_windows _ := Some [];
     nw_window_clock _ := 3%Z; nw_accepted _ := true; nw_sent_at _ := 4%Z |}.

(** Work on another machine. *)
Definition sample_maintenance : MaintenanceWindows := from_windows [window_for_entity 1 0%Z (sample_entity 9) "disk"].

Definition sample_tick : Tick :=
  {| tick_world := sample_world; tick_floor := Severity_Warning; tick_maintenance := sample_maintenance;
     tick_history := None; tick_candidates := Some [sample_notification] |}.

Lemma sample_tick_log : (delivery_tick ["ops"] sample_tick deduplicator_new).2 = [("ops", sample_notification)].
Proof. vm_compute. reflexivity. Qed.

Lemma sample_tick_delivers : ("ops", sample_notification) ∈ (delivery_tick ["ops"] sample_tick deduplicator_new).2.
Proof. rewrite sample_tick_log. by apply list_elem_of_singleton. Qed.

Definition sample_effective : IncidentUpdate :=
  {| opened := []; updated := [sample_open_incident]; recovering := []; resolved := [] |}.

Definition sample_pass_end : NotifyState :=
  pass_end (notify (W := sample_world) Severity_Warning update_default ["ops"] deduplicator_new sample_maintenance).

Lemma sample_pass_ends :
  notify (W := sample_world) Severity_Warning update_default ["ops"] deduplicator_new sample_maintenance
    = inl sample_pass_end.
Proof.
  assert (match notify (W := sample_world) Severity_Warning update_default ["ops"] deduplicator_new
    sample_maintenance with inl _ => true | inr _ => false end = true) as Hended by (vm_compute; reflexivity).
  unfold sample_pass_end. revert Hended. by destruct (notify _ _ _ _ _).
Qed.

Lemma sample_notifications : pass_notifications [sample_notification] update_default = [sample_notification].
Proof. vm_compute. reflexivity. Qed.

Lemma sample_effective_loaded :
  load_effective (W := sample_world) (pass_notifications [sample_notification] update_default) update_default
    = Some sample_effective.
Proof. vm_compute. reflexivity. Qed.

Lemma sample_not_below_floor : below_floor Severity_Warning sample_notification = false.
Proof. vm_compute. reflexivity. Qed.

Lemma sample_not_under_maintenance j :
  is_under_maintenance (nw_notice_clock (NotifyWorld := sample_world) j) sample_notification sample_effective
    sample_maintenance = false.
Proof. vm_compute. reflexivity. Qed.
End example.

Lemma delivered_event_never_repeated_witness :
  is_Some (notif_event_id sample_notification)
  ∧ ("ops", sample_notification) ∈ (delivery_tick ["ops"] sample_tick deduplicator_new).2
  ∧ NoDup (map event_key (filter is_event (delivery_tick ["ops"] sample_tick deduplicator_new).2))
  ∧ ((∀ t' cs, t' ∈ [sample_tick; sample_tick] → tick_candidates t' = Some cs → sample_notification ∈ cs) →
     ∀ n', is_Some (notif_event_id n') → deduplication_key n' = deduplication_key sample_notification →
       ("ops", n') ∉ (delivery_run ["ops"] [sample_tick] (delivery_tick ["ops"] sample_tick deduplicator_new).1).2)
  ∧ ∀ t' d' rs r n', tick_history t' = Some rs → r ∈ rs → record_provider r = "ops" →
      record_key r = deduplication_key sample_notification → is_Some (notif_event_id n') →
      deduplication_key n' = deduplication_key sample_notification →
      ("ops", n') ∉ (delivery_tick ["ops"] t' d').2.
Proof.
  assert (is_Some (notif_event_id sample_notification)) as He by (eexists; reflexivity).
  split; [exact He|]. split; [exact sample_tick_delivers|].
  exact (delivered_event_never_repeated ["ops"] sample_tick [sample_tick] deduplicator_new "ops" sample_notification
    He sample_tick_delivers).
Defined.

Lemma deliveries_are_justified_witness :
  ("ops", sample_notification) ∈ ns_log (pass_end (notify (W := sample_world) Severity_Warning update_default ["ops"]
    deduplicator_new sample_maintenance))
  ∧ ∃ stored effective, nw_candidates (NotifyWorld := sample_world) = Some stored
    ∧ load_effective (W := sample_world) (pass_notifications stored update_default) update_default = Some effective
    ∧ sample_notification ∈ pass_notifications stored update_default ∧ "ops" ∈ ["ops"]
    ∧ ((severity_level Severity_Warning ≤ severity_level (notif_severity sample_notification))%N
       ∨ is_recovery (notif_trigger sample_notification) = true)
    ∧ ∃ j, ∀ i, find (λ i, String.eqb (uuid_to_string (incident_id i)) (notif_incident_id sample_notification))
                  (update_all effective) = Some i →
        incident_affected i = [] ∨ ∃ e, e ∈ incident_affected i ∧
          ∀ w, w ∈ windows sample_maintenance → is_active_at w (nw_notice_clock (NotifyWorld := sample_world) j) = true →
            covers w e = false.
Proof.
  split; [exact sample_tick_delivers|].
  exact (deliveries_are_justified (W := sample_world) Severity_Warning update_default ["ops"] deduplicator_new
    sample_maintenance "ops" sample_notification sample_tick_delivers).
Defined.

Lemma nothing_is_lost_witness :
  ("ops", sample_notification) ∈ offered (W := sample_world) sample_effective Severity_Warning sample_maintenance ["ops"] 0
                                   (pass_notifications [sample_notification] update_default)
  ∧ (told (ns_dedup sample_pass_end) "ops" sample_notification
     ∨ held_back (W := sample_world) (update_ids update_default) sample_effective 0 sample_notification).
Proof.
  destruct (nothing_is_lost (W := sample_world) Severity_Warning update_default sample_effective ["ops"]
    deduplicator_new sample_maintenance sample_pass_end [sample_notification]
    sample_pass_ends eq_refl sample_effective_loaded) as (Hasked & Htold & _). split.
  - apply Hasked; [rewrite sample_notifications; by apply list_elem_of_singleton|by apply list_elem_of_singleton|
      exact sample_not_below_floor|exact sample_not_under_maintenance].
  - apply (Htold 0%nat). vm_compute. reflexivity.
Defined.

Lemma persistent_fault_announced_once_witness :
  ∃ e1 u1 e2 u2,
    reconcile_verified (P := sample_pass 9) sample_engine [sample_diagnosis] sample_graph (λ _, (false, false))
      = Some (e1, u1)
    ∧ reconcile_verified (P := sample_pass 10) e1 [sample_diagnosis] sample_graph (λ _, (false, false))
      = Some (e2, u2)
    ∧ sample_diagnosis ∈ [sample_diagnosis]
    ∧ opened u2 = [] ∧ ∃ i1 i2, incidents e1 !! fingerprint sample_diagnosis = Some i1
      ∧ incidents e2 !! fingerprint sample_diagnosis = Some i2
      ∧ ((∀ n, n ∈ notifications_for_incident i1 →
            is_Some (sent deduplicator_new !! ("ops", deduplication_key n))) →
         ∀ n now, n ∈ notifications_for_incident i2 → should_send now deduplicator_new n "ops" = false).
Proof.
  destruct (reconcile_verified_total (P := sample_pass 9) sample_engine [sample_diagnosis] sample_graph
    (λ _, (false, false)) sample_graph_wf) as [[e1 u1] Hr1].
  destruct (reconcile_verified_total (P := sample_pass 10) e1 [sample_diagnosis] sample_graph
    (λ _, (false, false)) sample_graph_wf) as [[e2 u2] Hr2].
  exists e1, u1, e2, u2. split; [exact Hr1|]. split; [exact Hr2|].
  assert (sample_diagnosis ∈ [sample_diagnosis]) as Hin by (by apply list_elem_of_singleton).
  split; [exact Hin|].
  exact (persistent_fault_announced_once _ _ _ _ _ _ _ _ _ _ _ _ _ _ Hr1 Hr2 Hin).
Defined.
