(* ===== verification/Peers.v ===== *)
(** * Peer assignment

    [src/controller/peers.rs] and [src/controller/assignments.rs]: who watches
    whom.  Every target gets observers unlike each other: one that shares its
    dependency domain, one in another domain, one that depends on nothing, and
    then whoever is left, up to the degree. *)

From S2P Require Export Inventory.

(** ** Data *)

Definition DEFAULT_DEGREE : N := 3.

Inductive ObserverRole := SameDomain | DifferentDomain | Independent | Filler.

#[export] Instance ObserverRole_eq_dec : EqDecision ObserverRole.
Proof. solve_decision. Defined.
(** The order of the declaration, as the derived [Ord] has it. *)
Definition role_rank (r : ObserverRole) : nat :=
  match r with SameDomain => 0 | DifferentDomain => 1 | Independent => 2 | Filler => 3 end.

Definition role_of_rank (n : nat) : ObserverRole :=
  match n with 0 => SameDomain | 1 => DifferentDomain | 2 => Independent | _ => Filler end.

#[export] Instance ObserverRole_countable : Countable ObserverRole.
Proof. apply (inj_countable' role_rank role_of_rank). by intros []. Defined.

Record Observer := mk_observer { observer_id : EntityId; observer_role : ObserverRole }.

Record PeerAssignment := {
  assigned_target : EntityId;
  observers : list Observer
}.

Record AssignmentPlan := {
  plan_revision_of : N;
  assignments : list PeerAssignment
}.

#[export] Instance Observer_eq_dec : EqDecision Observer.
Proof. solve_decision. Defined.
#[export] Instance PeerAssignment_eq_dec : EqDecision PeerAssignment.
Proof. solve_decision. Defined.
#[export] Instance AssignmentPlan_eq_dec : EqDecision AssignmentPlan.
Proof. solve_decision. Defined.

(** [PeerAssignment::observer_ids]. *)
Definition observer_ids (a : PeerAssignment) : list EntityId := map observer_id (observers a).

(** [PeerAssignment::is_observed_by]. *)
Definition is_observed_by (a : PeerAssignment) (entity : EntityId) : bool :=
  existsb (λ o, bool_decide (observer_id o = entity)) (observers a).

(** [PeerAssignment::independent_viewpoints]: the number of different roles. *)
Definition independent_viewpoints (a : PeerAssignment) : nat :=
  size (list_to_set (map observer_role (observers a)) : gset ObserverRole).

(** [AssignmentPlan::targets_for]. *)
Definition targets_for (plan : AssignmentPlan) (observer : EntityId) : list EntityId :=
  map assigned_target (filter (λ a, is_observed_by a observer = true) (assignments plan)).

(** [AssignmentPlan::for_target]. *)
Definition for_target (plan : AssignmentPlan) (target : EntityId) : option PeerAssignment :=
  snd <$> list_find (λ a, assigned_target a = target) (assignments plan).

(** ** Building a plan *)

(** The mutable variables of one target's turn. *)
Record Picks := { picked : list Observer; chosen : gset EntityId }.

Definition no_picks : Picks := {| picked := []; chosen := ∅ |}.

(** [x as u32] of a length. *)
Definition as_u32 (n : nat) : N := (N.of_nat n mod (u32_max + 1))%N.

(** [observers.len() as u32 >= degree]. *)
Definition enough (degree : N) (p : Picks) : bool := (degree <=? as_u32 (length (picked p)))%N.

Definition pick (p : Picks) (candidate : EntityId) (role : ObserverRole) : Picks :=
  {| picked := picked p ++ [mk_observer candidate role]; chosen := {[ candidate ]} ∪ chosen p |}.

(** The first loop: one of each kind, in order, until the degree is reached. *)
Fixpoint pick_one_each (degree : N) (buckets : list (list EntityId * ObserverRole)) (p : Picks) : Picks :=
  match buckets with
  | [] => p
  | (bucket, role) :: rest =>
      if enough degree p then p
      else pick_one_each degree rest
             match list_find (λ c, c ∉ chosen p) bucket with
             | Some (_, candidate) => pick p candidate role
             | None => p
             end
  end.

(** The inner loop of the second: fill from one bucket. *)
Fixpoint fill_from (degree : N) (bucket : list EntityId) (p : Picks) : Picks :=
  match bucket with
  | [] => p
  | candidate :: rest =>
      if enough degree p then p
      else fill_from degree rest
             (if decide (candidate ∈ chosen p) then p else pick p candidate Filler)
  end.

(** [rotate]: by the target's position, modulo the length. *)
Definition rotate_ids (items : list EntityId) (by_ : nat) : list EntityId :=
  match items with
  | [] => []
  | _ =>
      let k := by_ mod length items in
      drop k items ++ take k items
  end.

Record Buckets := {
  same : list EntityId;
  different : list EntityId;
  independent : list EntityId
}.

(** Which bucket a candidate goes to, from the two dependency domains. *)
Definition kind_of (candidate_domain target_domain : gset EntityId) : ObserverRole :=
  if bool_decide (candidate_domain = ∅) && bool_decide (target_domain = ∅) then Independent
  else if bool_decide (candidate_domain ## target_domain) then
    if bool_decide (candidate_domain = ∅) then Independent else DifferentDomain
  else SameDomain.

(** One turn of the partition loop: the target itself is skipped. *)
Definition partition_step (target : EntityId) (domains : gmap EntityId (gset EntityId))
    (target_domain : gset EntityId) (b : Buckets) (candidate : EntityId) : Buckets :=
  if decide (candidate = target) then b
  else
    match kind_of (default ∅ (domains !! candidate)) target_domain with
    | Independent => {| same := same b; different := different b; independent := independent b ++ [candidate] |}
    | DifferentDomain => {| same := same b; different := different b ++ [candidate]; independent := independent b |}
    | _ => {| same := same b ++ [candidate]; different := different b; independent := independent b |}
    end.

Definition partition_candidates (target : EntityId) (domains : gmap EntityId (gset EntityId))
    (target_domain : gset EntityId) (candidates : list EntityId) : Buckets :=
  foldl (partition_step target domains target_domain)
    {| same := []; different := []; independent := [] |} candidates.

(** The observers of one target, from its three buckets and its position. *)
Definition choose_observers (degree : N) (index : nat) (b : Buckets) : list Observer :=
  let same := rotate_ids (same b) index in
  let different := rotate_ids (different b) index in
  let independent := rotate_ids (independent b) index in
  let p := pick_one_each degree
             [(same, SameDomain); (different, DifferentDomain); (independent, Independent)] no_picks in
  picked (fill_from degree independent (fill_from degree different (fill_from degree same p))).

Section assign.
Context `{J : JsonApi}.

(** [observer_candidates]. *)
Definition may_observe (e : ManagedEntity) : Prop :=
  entity_kind e = Entity_Host ∧ lifecycle_state e = Lifecycle_Active
  ∧ OBSERVER_PEER ∈ entity_capabilities e.

#[global] Instance may_observe_dec e : Decision (may_observe e).
Proof. unfold may_observe. apply _. Defined.

Definition observer_candidates (es : list ManagedEntity) : list EntityId :=
  sort_by_key id (map entity_eid (filter may_observe es)).

(** [domain_of]: everything an entity transitively needs. *)
Definition domain_of (g : DependencyGraph) (entity : EntityId) : option (gset EntityId) :=
  upstream_set g None entity.

(** The [domains] map of [assign]. *)
Definition candidate_domains (g : DependencyGraph) (candidates : list EntityId) :
    option (gmap EntityId (gset EntityId)) :=
  list_to_map <$> mapM (λ c, pair c <$> domain_of g c) candidates.

(** The turn of one target. *)
Definition assign_target (g : DependencyGraph) (candidates : list EntityId)
    (domains : gmap EntityId (gset EntityId)) (degree : N) (index : nat) (target : EntityId) :
    option PeerAssignment :=
  target_domain ← domain_of g target;
  Some {| assigned_target := target;
          observers := choose_observers degree index
            (partition_candidates target domains target_domain candidates) |}.

(** The loop over [targets.iter().enumerate()]. *)
Fixpoint assign_loop (g : DependencyGraph) (candidates : list EntityId)
    (domains : gmap EntityId (gset EntityId)) (degree : N) (index : nat) (targets : list EntityId) :
    option (list PeerAssignment) :=
  match targets with
  | [] => Some []
  | target :: rest =>
      a ← assign_target g candidates domains degree index target;
      cons a <$> assign_loop g candidates domains degree (S index) rest
  end.

(** [assign]. *)
Definition assign (targets candidates : list EntityId) (g : DependencyGraph) (degree revision : N) :
    option AssignmentPlan :=
  domains ← candidate_domains g candidates;
  l ← assign_loop g candidates domains degree 0 targets;
  Some {| plan_revision_of := revision; assignments := l |}.

(** ** The plan's revision *)

(** The bytes of a [Uuid], most significant first, and of a [u32], least
    significant first. *)
Definition nth_byte (n : N) (k : nat) : N := N.land (N.shiftr n (8 * N.of_nat k)) 255.
Definition uuid_bytes (u : Uuid) : list N := map (nth_byte u) (reverse (seq 0 16)).
Definition u32_le_bytes (n : N) : list N := map (nth_byte n) (seq 0 4).

(** [mix]: one byte of the FNV-1a hash. *)
Definition mix_byte (hash byte : N) : N := wrapping_mul_u64 (N.lxor hash byte) 0x00000100000001b3.
Definition mix (hash : N) (bytes : list N) : N := foldl mix_byte hash bytes.

(** [plan_revision]. *)
Definition plan_revision (targets candidates : list EntityId) (degree : N) : N :=
  let hash := foldl (λ h id, mix h (uuid_bytes (as_uuid id))) 0xcbf29ce484222325%N targets in
  let hash := foldl (λ h id, mix h (uuid_bytes (as_uuid id))) hash candidates in
  mix hash (u32_le_bytes degree).

(** The active hosts, in inventory order. *)
Definition plan_targets (inv : Inventory) : list EntityId :=
  map entity_eid (filter (λ e, entity_kind e = Entity_Host ∧ lifecycle_state e = Lifecycle_Active)
                    (entities inv)).

(** [Controller::assignment_plan], on the inventory it loads and the
    configured degree. *)
Definition assignment_plan (inv : Inventory) (degree : N) : option AssignmentPlan :=
  let targets := plan_targets inv in
  let candidates := observer_candidates (entities inv) in
  assign targets candidates (inv_graph inv) degree (plan_revision targets candidates degree).
End assign.
