(* ===== verification/PeersSpec.v ===== *)
(** * Peer assignment: what a plan guarantees

    The two greedy loops of [assign] against a one-line reference, and from it
    the promises of a plan: distinct observers, never the target, as many as
    there can be, of as many kinds as there are. *)

From S2P Require Import Concrete.
From S2P Require Export Peers.

(** ** The reference

    The head of every bucket with its role, then everyone else as a filler,
    cut at the degree. *)

Definition head_of (b : list EntityId * ObserverRole) : option Observer :=
  match b.1 with c :: _ => Some (mk_observer c b.2) | [] => None end.

Definition fillers_of (b : list EntityId * ObserverRole) : list Observer :=
  map (λ c, mk_observer c Filler) (tail b.1).

Definition rotated (index : nat) (b : Buckets) : list (list EntityId * ObserverRole) :=
  [(rotate_ids (same b) index, SameDomain); (rotate_ids (different b) index, DifferentDomain);
   (rotate_ids (independent b) index, Independent)].

Definition ranked_observers (bs : list (list EntityId * ObserverRole)) : list Observer :=
  omap head_of bs ++ (bs ≫= fillers_of).

Definition reference_observers (degree : N) (index : nat) (b : Buckets) : list Observer :=
  take (N.to_nat degree) (ranked_observers (rotated index b)).

(** ** The loops *)

Lemma as_u32_small n : (N.of_nat n ≤ u32_max)%N → as_u32 n = N.of_nat n.
Proof. intros Hn. unfold as_u32. apply N.mod_small. lia. Qed.

(** What the two variables of a turn agree on. *)
Definition picks_ok (p : Picks) : Prop := chosen p = list_to_set (map observer_id (picked p)).

Lemma picks_ok_pick p c r : picks_ok p → picks_ok (pick p c r).
Proof.
  unfold picks_ok, pick. cbn. intros ->. apply set_eq. intros x. rewrite map_app.
  rewrite list_to_set_app. set_solver.
Qed.

Lemma enough_spec degree p :
  (N.of_nat (length (picked p)) ≤ u32_max)%N →
  enough degree p = true ↔ N.to_nat degree ≤ length (picked p).
Proof. intros Hl. unfold enough. rewrite as_u32_small by done. rewrite N.leb_le. lia. Qed.

Lemma fill_from_enough degree bucket p : enough degree p = true → fill_from degree bucket p = p.
Proof. intros He. by destruct bucket; cbn; [|rewrite He]. Qed.

Lemma fill_from_app degree b1 b2 p :
  fill_from degree b2 (fill_from degree b1 p) = fill_from degree (b1 ++ b2) p.
Proof.
  revert p. induction b1 as [|c b1 IH]; intros p; [done|]. cbn [fill_from app].
  destruct (enough degree p) eqn:He; [by apply fill_from_enough|apply IH].
Qed.

(** The second loop appends the bucket's unchosen candidates up to the degree. *)
Lemma fill_from_spec degree bucket p :
  NoDup bucket → picks_ok p →
  (N.of_nat (length (picked p) + length (filter (λ c, c ∉ chosen p) bucket)) ≤ u32_max)%N →
  picked (fill_from degree bucket p)
  = picked p ++ take (N.to_nat degree - length (picked p))
      (map (λ c, mk_observer c Filler) (filter (λ c, c ∉ chosen p) bucket)).
Proof.
  intros Hnd. revert p. induction Hnd as [|c bucket Hc Hnd IH]; intros p Hok Hlen.
  - cbn. by rewrite firstn_nil, app_nil_r.
  - cbn [fill_from]. destruct (enough degree p) eqn:He.
    + apply enough_spec in He; [|lia]. replace (_ - _) with 0 by lia. by rewrite app_nil_r.
    + assert (¬ N.to_nat degree ≤ length (picked p)) as Hlt.
      { rewrite <- enough_spec by lia. by rewrite He. }
      rewrite filter_cons in Hlen |- *. destruct (decide (c ∈ chosen p)) as [Hin|Hin].
      * rewrite decide_False in Hlen |- * by tauto. by apply IH.
      * rewrite decide_True in Hlen |- * by done. cbn [length] in Hlen.
        assert (filter (λ c', c' ∉ chosen (pick p c Filler)) bucket
                = filter (λ c', c' ∉ chosen p) bucket) as Hf.
        { apply filter_ext_elem. intros c' Hc'. cbn [pick chosen]. set_solver. }
        rewrite IH; [|by apply picks_ok_pick|].
        2: { rewrite Hf. cbn [pick picked]. rewrite length_app. cbn. lia. }
        rewrite Hf. cbn [pick picked map]. rewrite length_app. cbn [length].
        replace (N.to_nat degree - length (picked p)) with (S (N.to_nat degree - (length (picked p) + 1))) by lia.
        by rewrite <- app_assoc.
Qed.

(** The first loop appends the buckets' heads up to the degree. *)
Lemma pick_one_each_spec degree bs p :
  NoDup (bs ≫= fst) → (∀ c, c ∈ bs ≫= fst → c ∉ chosen p) → picks_ok p →
  (N.of_nat (length (picked p) + length (bs ≫= fst)) ≤ u32_max)%N →
  picks_ok (pick_one_each degree bs p)
  ∧ picked (pick_one_each degree bs p)
    = picked p ++ take (N.to_nat degree - length (picked p)) (omap head_of bs).
Proof.
  revert p. induction bs as [|[bucket role] bs IH]; intros p Hnd Hfresh Hok Hlen.
  - cbn. by rewrite firstn_nil, app_nil_r.
  - cbn [pick_one_each mbind list_bind fst] in *. rewrite length_app in Hlen.
    apply NoDup_app in Hnd as (Hb & Hdisj & Hnd). destruct (enough degree p) eqn:He.
    + split; [done|]. apply enough_spec in He; [|lia].
      replace (_ - _) with 0 by lia. by rewrite app_nil_r.
    + assert (¬ N.to_nat degree ≤ length (picked p)) as Hlt.
      { rewrite <- enough_spec by lia. by rewrite He. }
      destruct bucket as [|c bucket]; [apply IH; [done|set_solver|done|cbn in Hlen; lia]|].
      cbn [list_find]. rewrite decide_True by (apply Hfresh; set_solver).
      destruct (IH (pick p c role)) as [IHok ->]; [done|set_solver|by apply picks_ok_pick| |].
      { cbn [pick picked]. rewrite length_app. cbn in Hlen |- *. lia. }
      split; [done|]. cbn [pick picked omap list_omap head_of fst snd]. rewrite length_app. cbn [length].
      replace (N.to_nat degree - length (picked p)) with (S (N.to_nat degree - (length (picked p) + 1))) by lia.
      by rewrite <- app_assoc.
Qed.

(** The candidates that are not heads are the tails. *)
Lemma filter_heads bs (X : gset EntityId) :
  NoDup (bs ≫= fst) →
  (∀ c, c ∈ bs ≫= fst → c ∈ X ↔ c ∈ map observer_id (omap head_of bs)) →
  map (λ c, mk_observer c Filler) (filter (λ c, c ∉ X) (bs ≫= fst)) = bs ≫= fillers_of.
Proof.
  induction bs as [|[bucket role] bs IH]; intros Hnd HX; [done|].
  cbn [mbind list_bind fst] in *. apply NoDup_app in Hnd as (Hb & Hdisj & Hnd).
  assert (∀ c, c ∈ map observer_id (omap head_of bs) → c ∈ bs ≫= fst) as Hheads.
  { intros c (o & -> & ([l r] & Ho & Hlr)%list_elem_of_omap)%list_elem_of_fmap.
    apply list_elem_of_bind. exists (l, r). split; [|done]. destruct l; cbn in Hlr; [done|].
    injection Hlr as <-. by left. }
  rewrite filter_app, map_app. rewrite IH; [|done|].
  2: { intros c Hc. rewrite HX by set_solver. destruct bucket as [|b bucket]; [done|].
       cbn [omap list_omap head_of fst snd map]. rewrite elem_of_cons. cbn [observer_id]. set_solver. }
  f_equal. unfold fillers_of. cbn [fst]. f_equal. destruct bucket as [|b bucket]; [done|].
  cbn [tail]. cbn [omap list_omap head_of fst snd map] in HX.
  assert (filter (λ c, c ∉ X) bucket = bucket) as Hrest.
  { apply filter_all. intros c Hc. rewrite HX by set_solver. cbn [observer_id].
    apply NoDup_cons in Hb as [Hb _]. set_solver. }
  rewrite filter_cons, Hrest, decide_False; [done|].
  intros Hn. apply Hn. apply HX; set_solver.
Qed.

Lemma head_of_length bs : length (omap head_of bs) ≤ length (bs ≫= fst).
Proof.
  induction bs as [|[[|c l] r] bs IH]; cbn [omap list_omap head_of fst snd mbind list_bind length app]; [lia|done|].
  rewrite length_app. lia.
Qed.

Lemma heads_and_tails bs : length (omap head_of bs) + length (bs ≫= fillers_of) ≤ length (bs ≫= fst).
Proof.
  induction bs as [|[[|c l] r] bs IH]; cbn [omap list_omap head_of fst snd mbind list_bind length app]; [lia|done|].
  rewrite !length_app. unfold fillers_of at 1. rewrite length_map. cbn. lia.
Qed.

(** A take of an append that is all used up by its first part. *)
Lemma take_app_split {A} (n : nat) (l1 l2 : list A) :
  take n (l1 ++ l2) = take n l1 ++ take (n - length l1) l2.
Proof. apply firstn_app. Qed.

(** The greedy loops are the reference. *)
Lemma greedy_is_reference degree bs :
  NoDup (bs ≫= fst) → (N.of_nat (length (bs ≫= fst)) ≤ u32_max)%N →
  picked (fill_from degree (bs ≫= fst) (pick_one_each degree bs no_picks))
  = take (N.to_nat degree) (ranked_observers bs).
Proof.
  intros Hnd Hlen. set (p := pick_one_each degree bs no_picks).
  destruct (pick_one_each_spec degree bs no_picks) as [Hok Hp];
    [done|intros c _; apply not_elem_of_empty|done|done|].
  fold p in Hok, Hp. cbn [no_picks picked length app] in Hp. rewrite Nat.sub_0_r in Hp.
  unfold ranked_observers. rewrite take_app_split.
  destruct (decide (N.to_nat degree ≤ length (omap head_of bs))) as [Hle|Hgt].
  - assert (length (picked p) = N.to_nat degree) as Hl by (rewrite Hp, length_firstn; lia).
    rewrite fill_from_enough.
    + replace (_ - _) with 0 by lia. by rewrite Hp, firstn_O, app_nil_r.
    + apply enough_spec; [|lia]. pose proof (head_of_length bs). lia.
  - rewrite firstn_all2 in Hp |- * by lia. pose proof (head_of_length bs).
    assert (∀ c, c ∈ bs ≫= fst → c ∈ chosen p ↔ c ∈ map observer_id (omap head_of bs)) as Hc.
    { intros c _. by rewrite Hok, Hp, elem_of_list_to_set. }
    pose proof (filter_heads bs (chosen p) Hnd Hc) as Hf.
    assert (length (omap head_of bs) + length (filter (λ c, c ∉ chosen p) (bs ≫= fst)) ≤ length (bs ≫= fst)).
    { rewrite <- (length_map (λ c, mk_observer c Filler)), Hf. apply heads_and_tails. }
    rewrite fill_from_spec; [by rewrite Hf, Hp|done|done|]. rewrite Hp. lia.
Qed.

(** ** The buckets *)

Lemma rotate_ids_perm l n : rotate_ids l n ≡ₚ l.
Proof.
  destruct l as [|x l]; [done|]. unfold rotate_ids. set (k := _ mod _).
  rewrite Permutation_app_comm. by rewrite take_drop.
Qed.

Lemma kind_of_not_filler cd td : kind_of cd td ≠ Filler.
Proof. unfold kind_of. by repeat destruct (_ : bool). Qed.

Section buckets.
Context (target : EntityId) (domains : gmap EntityId (gset EntityId)) (target_domain : gset EntityId).

(** A candidate that belongs in the bucket of a role. *)
Definition belongs (role : ObserverRole) (c : EntityId) : Prop :=
  c ≠ target ∧ kind_of (default ∅ (domains !! c)) target_domain = role.

#[local] Instance belongs_dec role c : Decision (belongs role c).
Proof. unfold belongs. apply _. Defined.

Lemma filter_belongs_target role cs : filter (belongs role) (target :: cs) = filter (belongs role) cs.
Proof. rewrite filter_cons, decide_False; [done|]. by intros [? _]. Qed.

Lemma filter_belongs_cons role k c cs :
  c ≠ target → kind_of (default ∅ (domains !! c)) target_domain = k →
  filter (belongs role) (c :: cs)
  = if bool_decide (k = role) then c :: filter (belongs role) cs else filter (belongs role) cs.
Proof.
  intros Hne Hk. rewrite filter_cons.
  destruct (decide (belongs role c)) as [[_ Hb]|Hb]; case_bool_decide as Hkr; [done|congruence| |done].
  exfalso. apply Hb. split; [done|congruence].
Qed.

Lemma partition_spec cs b :
  foldl (partition_step target domains target_domain) b cs
  = {| same := same b ++ filter (belongs SameDomain) cs;
       different := different b ++ filter (belongs DifferentDomain) cs;
       independent := independent b ++ filter (belongs Independent) cs |}.
Proof.
  revert b. induction cs as [|c cs IH]; intros b; cbn [foldl].
  - cbn. rewrite !app_nil_r. by destruct b.
  - rewrite IH. unfold partition_step.
    destruct (decide (c = target)) as [->|Hne]; [by rewrite !filter_belongs_target|].
    rewrite !(filter_belongs_cons _ _ c cs Hne eq_refl).
    destruct (kind_of _ target_domain) eqn:Hk; cbn [same different independent bool_decide];
      rewrite <- ?app_assoc; try done. by apply kind_of_not_filler in Hk.
Qed.

Lemma partition_candidates_spec cs :
  partition_candidates target domains target_domain cs
  = {| same := filter (belongs SameDomain) cs; different := filter (belongs DifferentDomain) cs;
       independent := filter (belongs Independent) cs |}.
Proof. apply partition_spec. Qed.

Lemma buckets_perm cs :
  filter (belongs SameDomain) cs ++ filter (belongs DifferentDomain) cs ++ filter (belongs Independent) cs
  ≡ₚ filter (λ c, c ≠ target) cs.
Proof.
  induction cs as [|c cs IH]; [done|]. rewrite (filter_cons (λ c, c ≠ target)).
  destruct (decide (c = target)) as [->|Hne].
  - rewrite !filter_belongs_target, decide_False by tauto. done.
  - rewrite !(filter_belongs_cons _ _ c cs Hne eq_refl), decide_True by done. rewrite <- IH.
    destruct (kind_of _ target_domain) eqn:Hk;
      rewrite ?bool_decide_eq_true_2 by done; rewrite ?bool_decide_eq_false_2 by done;
      [done|..|by apply kind_of_not_filler in Hk].
    + by rewrite Permutation_middle.
    + by rewrite !app_assoc, Permutation_middle.
Qed.

Lemma rotated_perm index cs :
  rotated index (partition_candidates target domains target_domain cs) ≫= fst
  ≡ₚ filter (λ c, c ≠ target) cs.
Proof.
  rewrite partition_candidates_spec. unfold rotated. cbn [mbind list_bind fst same different independent].
  rewrite !rotate_ids_perm, app_nil_r. apply buckets_perm.
Qed.

Lemma elem_of_rotated index cs l role :
  (l, role) ∈ rotated index (partition_candidates target domains target_domain cs) →
  ∀ c, c ∈ l → c ∈ cs ∧ belongs role c.
Proof.
  rewrite partition_candidates_spec. unfold rotated. cbn [same different independent].
  intros Hin c. rewrite !elem_of_cons, elem_of_nil in Hin.
  destruct Hin as [[= -> ->]|[[= -> ->]|[[= -> ->]|[]]]];
    rewrite rotate_ids_perm, list_elem_of_filter; tauto.
Qed.
End buckets.

(** The observers a turn chooses are the reference's. *)
Lemma choose_reference degree index target domains target_domain cs :
  NoDup cs → (N.of_nat (length cs) ≤ u32_max)%N →
  choose_observers degree index (partition_candidates target domains target_domain cs)
  = reference_observers degree index (partition_candidates target domains target_domain cs).
Proof.
  intros Hnd Hlen. set (b := partition_candidates target domains target_domain cs).
  pose proof (rotated_perm target domains target_domain index cs) as Hperm. fold b in Hperm.
  unfold reference_observers. rewrite <- greedy_is_reference.
  - unfold choose_observers. rewrite !fill_from_app. unfold rotated. cbn [mbind list_bind fst].
    by rewrite app_nil_r, app_assoc.
  - rewrite Hperm. by apply NoDup_filter.
  - rewrite Hperm. pose proof (length_filter (λ c, c ≠ target) cs). lia.
Qed.

(** *** What the reference gives *)

Lemma ranked_ids bs : map observer_id (ranked_observers bs) ≡ₚ bs ≫= fst.
Proof.
  unfold ranked_observers. rewrite map_app.
  induction bs as [|[[|c l] r] bs IH]; [done|..]; cbn [omap list_omap head_of fst snd mbind list_bind map app].
  - done.
  - cbn [observer_id]. rewrite <- IH. rewrite map_app. unfold fillers_of at 1. cbn [fst tail].
    rewrite map_map. cbn [observer_id]. rewrite map_id. apply Permutation_cons; [done|].
    by rewrite !app_assoc, (Permutation_app_comm _ l).
Qed.

Lemma elem_of_ranked bs o :
  o ∈ ranked_observers bs → observer_role o = Filler ∨ ∃ l, (l, observer_role o) ∈ bs ∧ observer_id o ∈ l.
Proof.
  unfold ranked_observers. rewrite elem_of_app, list_elem_of_omap, list_elem_of_bind.
  intros [([l r] & Hin & Ho)|([l r] & Ho & Hin)].
  - right. exists l. destruct l as [|c l]; cbn in Ho; [done|]. injection Ho as <-. cbn.
    split; [done|by left].
  - left. unfold fillers_of in Ho. by apply list_elem_of_fmap in Ho as (c & -> & _).
Qed.

Lemma take_elem {A} n (l : list A) x : x ∈ take n l → x ∈ l.
Proof. apply subseteq_take. Qed.

(** Every bucket with a candidate is represented when the degree allows three. *)
Lemma reference_variety degree bs l role :
  length bs ≤ N.to_nat degree → (l, role) ∈ bs → l ≠ [] →
  ∃ o, o ∈ take (N.to_nat degree) (ranked_observers bs) ∧ observer_role o = role ∧ observer_id o ∈ l.
Proof.
  intros Hdeg Hin Hne. destruct l as [|c l]; [done|]. exists (mk_observer c role).
  split; [|by split; [|left]]. unfold ranked_observers. rewrite take_app_split, elem_of_app. left.
  rewrite firstn_all2.
  - apply list_elem_of_omap. by exists (c :: l, role).
  - pose proof (length_omap_le head_of bs). lia.
Qed.

(** ** Whole plans *)

Section plan.
Context `{J : JsonApi} (g : DependencyGraph).

(** What the role of an observer says about it and the target. *)
Definition role_holds (target : EntityId) (o : Observer) : Prop :=
  match observer_role o with
  | SameDomain => ∃ y, upstream_of g None (observer_id o) y ∧ upstream_of g None target y
  | DifferentDomain =>
      (∃ y, upstream_of g None (observer_id o) y)
      ∧ ∀ y, upstream_of g None (observer_id o) y → ¬ upstream_of g None target y
  | Independent => ∀ y, ¬ upstream_of g None (observer_id o) y
  | Filler => True
  end.

Lemma candidate_domains_spec cs :
  graph_wf g →
  ∃ D, candidate_domains g cs = Some D
    ∧ ∀ c, c ∈ cs → ∃ d, D !! c = Some d ∧ ∀ y, y ∈ d ↔ upstream_of g None c y.
Proof.
  intros Hwf. unfold candidate_domains.
  assert (∃ l, mapM (λ c, pair c <$> domain_of g c) cs = Some l ∧ l.*1 = cs
    ∧ Forall (λ cd, domain_of g cd.1 = Some cd.2) l) as (l & -> & Hfst & Hall).
  { induction cs as [|c cs (l & Hl & Hfst & Hall)]; [by exists []|].
    destruct (upstream_set_spec g None c Hwf) as (d & Hd & _). exists ((c, d) :: l).
    change (upstream_set g None c) with (domain_of g c) in Hd. cbn [mapM]. rewrite Hd. cbn.
    rewrite Hl. cbn. rewrite Hfst. split_and!; [done|done|]. by constructor. }
  cbn. eexists. split; [done|]. intros c Hc. rewrite <- Hfst in Hc.
  apply list_elem_of_fmap in Hc as ([c' d] & -> & Hin). cbn.
  destruct (list_to_map l !! c') as [d'|] eqn:Hd'.
  - exists d'. split; [done|]. apply elem_of_list_to_map_2 in Hd'.
    rewrite Forall_forall in Hall. apply Hall in Hd'. cbn in Hd'.
    destruct (upstream_set_spec g None c' Hwf) as (s & Hs & Hspec). unfold domain_of in Hd'.
    by replace d' with s by congruence.
  - apply not_elem_of_list_to_map in Hd'. exfalso. apply Hd'. apply list_elem_of_fmap. by exists (c', d).
Qed.

(** Each assignment is one target's turn. *)
Lemma assign_loop_spec cs D degree index ts :
  graph_wf g →
  ∃ l, assign_loop g cs D degree index ts = Some l
    ∧ Forall2 (λ t a, ∃ i td, (∀ y, y ∈ td ↔ upstream_of g None t y)
        ∧ a = {| assigned_target := t;
                 observers := choose_observers degree i (partition_candidates t D td cs) |}) ts l.
Proof.
  intros Hwf. revert index. induction ts as [|t ts IH]; intros index; [by exists []|].
  cbn [assign_loop]. unfold assign_target, domain_of.
  destruct (upstream_set_spec g None t Hwf) as (td & -> & Htd). cbn.
  destruct (IH (S index)) as (l & -> & Hl). cbn. eexists. split; [done|]. constructor; [|done]. eauto.
Qed.

(** The bucket of a candidate tells its role truly. *)
Lemma belongs_role_holds D td t c role :
  (∃ d, D !! c = Some d ∧ ∀ y, y ∈ d ↔ upstream_of g None c y) →
  (∀ y, y ∈ td ↔ upstream_of g None t y) →
  belongs t D td role c → role_holds t (mk_observer c role).
Proof.
  intros (d & Hd & Hup) Htd [_ Hk]. rewrite Hd in Hk. cbn in Hk. unfold kind_of in Hk.
  unfold role_holds. cbn [observer_role observer_id]. subst role. case_bool_decide as Hce; cbn [andb].
  - assert (∀ y, ¬ upstream_of g None c y) by (intros y Hy%Hup; set_solver).
    case_bool_decide; [done|]. by rewrite bool_decide_eq_true_2 by set_solver.
  - case_bool_decide as Hdis.
    + split; [|intros y Hy%Hup Hy'%Htd; set_solver].
      apply set_choose_L in Hce as [y Hy]. exists y. by apply Hup.
    + destruct (set_choose_or_empty (d ∩ td)) as [[y Hy]|Hno]; [|set_solver].
      exists y. apply elem_of_intersection in Hy as [Hy Hy']. split; [by apply Hup|by apply Htd].
Qed.

(** What the plan promises of one target. *)
Definition assignment_ok (cs : list EntityId) (degree : N) (t : EntityId) (a : PeerAssignment) : Prop :=
  assigned_target a = t
  ∧ NoDup (observer_ids a)
  ∧ (∀ c, c ∈ observer_ids a → c ∈ cs ∧ c ≠ t)
  ∧ length (observer_ids a) = N.to_nat degree `min` length (filter (λ c, c ≠ t) cs)
  ∧ Forall (role_holds t) (observers a).

(** A kind of observer is on offer for a target. *)
Definition on_offer (cs : list EntityId) (t : EntityId) (role : ObserverRole) : Prop :=
  ∃ c, c ∈ cs ∧ c ≠ t ∧ role_holds t (mk_observer c role).

Section turn.
Context (cs : list EntityId) (D : gmap EntityId (gset EntityId)) (t : EntityId) (td : gset EntityId).
Context (HD : ∀ c, c ∈ cs → ∃ d, D !! c = Some d ∧ ∀ y, y ∈ d ↔ upstream_of g None c y).
Context (Htd : ∀ y, y ∈ td ↔ upstream_of g None t y).
Context (Hnd : NoDup cs) (Hlen : (N.of_nat (length cs) ≤ u32_max)%N).

Lemma turn_ok degree i :
  assignment_ok cs degree t
    {| assigned_target := t;
       observers := choose_observers degree i (partition_candidates t D td cs) |}.
Proof.
  pose proof (rotated_perm t D td i cs) as Hperm.
  unfold assignment_ok, observer_ids. cbn [assigned_target observers].
  rewrite choose_reference by done. unfold reference_observers. rewrite <- firstn_map.
  pose proof (ranked_ids (rotated i (partition_candidates t D td cs))) as Hids. rewrite Hperm in Hids.
  split; [done|]. split; [|split; [|split]].
  - apply NoDup_take_prefix. rewrite Hids. by apply NoDup_filter.
  - intros c Hc%take_elem. rewrite Hids, list_elem_of_filter in Hc. tauto.
  - by rewrite length_take, Hids.
  - apply Forall_forall. intros [c r] Ho%take_elem%elem_of_ranked. cbn in Ho.
    destruct Ho as [->|(l & Hl & Hc)]; [done|].
    destruct (elem_of_rotated t D td i cs l r Hl c Hc) as [Hin Hb].
    by apply (belongs_role_holds D td); [apply HD| |].
Qed.

(** Roles exclude each other, so a role that holds is the bucket's. *)
Lemma role_holds_belongs c role :
  c ∈ cs → c ≠ t → role ≠ Filler → role_holds t (mk_observer c role) → belongs t D td role c.
Proof.
  intros Hc Hne Hnf Hrole. split; [done|].
  set (k := kind_of (default ∅ (D !! c)) td).
  assert (k ≠ Filler) as Hk by apply kind_of_not_filler.
  assert (role_holds t (mk_observer c k)) as Hholds by (by apply (belongs_role_holds D td); [apply HD|..]).
  revert Hrole Hholds. unfold role_holds. cbn [observer_role observer_id].
  destruct role, k; try done; intros H1 H2; exfalso.
  - destruct H1 as (y & Hy & Hty), H2 as [_ H2]. by apply (H2 y).
  - destruct H1 as (y & Hy & _). by apply (H2 y).
  - destruct H2 as (y & Hy & Hty), H1 as [_ H1]. by apply (H1 y).
  - destruct H1 as [(y & Hy) _]. by apply (H2 y).
  - destruct H2 as (y & Hy & _). by apply (H1 y).
  - destruct H2 as [(y & Hy) _]. by apply (H1 y).
Qed.

Lemma turn_variety degree i role :
  (3 ≤ degree)%N → role ≠ Filler → on_offer cs t role →
  ∃ o, o ∈ choose_observers degree i (partition_candidates t D td cs) ∧ observer_role o = role.
Proof.
  intros Hdeg Hnf (c & Hc & Hne & Hrole).
  pose proof (role_holds_belongs c role Hc Hne Hnf Hrole) as Hb.
  rewrite choose_reference by done. unfold reference_observers.
  assert (∃ l, (l, role) ∈ rotated i (partition_candidates t D td cs) ∧ c ∈ l) as (l & Hl & Hcl).
  { rewrite partition_candidates_spec. unfold rotated. cbn [same different independent].
    destruct role; [..|done]; eexists; (split; [by repeat first [left|right]|]);
      by rewrite rotate_ids_perm, list_elem_of_filter. }
  destruct (reference_variety degree (rotated i (partition_candidates t D td cs)) l role)
    as (o & Ho & Hor & _); [cbn; lia|done|by intros ->; apply elem_of_nil in Hcl|].
  by exists o.
Qed.
End turn.
End plan.

(** ** Properties *)

(** The two greedy loops of a target's turn give what the reference does:
    the head of each rotated bucket in the order same, different, independent,
    then everyone else in that order, cut at the degree. *)
Theorem observers_are_ranked degree index target domains target_domain cs :
  NoDup cs → (N.of_nat (length cs) ≤ u32_max)%N →
  let b := partition_candidates target domains target_domain cs in
  choose_observers degree index b = reference_observers degree index b.
Proof. intros Hnd Hlen. by apply choose_reference. Qed.

(** On a well-formed graph a plan never panics and has one assignment per
    target, in order; each has distinct observers, all candidates and never the
    target itself, exactly as many as the degree allows and the candidates
    provide; and the role recorded for each is true of the graph. *)
Theorem assign_sound `{J : JsonApi} g targets cs degree revision :
  graph_wf g → NoDup cs → (N.of_nat (length cs) ≤ u32_max)%N →
  ∃ plan, assign targets cs g degree revision = Some plan
    ∧ plan_revision_of plan = revision
    ∧ Forall2 (assignment_ok g cs degree) targets (assignments plan).
Proof.
  intros Hwf Hnd Hlen. unfold assign. destruct (candidate_domains_spec g cs Hwf) as (D & -> & HD). cbn.
  destruct (assign_loop_spec g cs D degree 0 targets Hwf) as (l & -> & Hl). cbn.
  eexists. split_and!; [done|done|]. cbn. eapply Forall2_impl; [apply Hl|].
  intros t a (i & td & Htd & ->). by apply turn_ok.
Qed.

(** Variety before quantity: with a degree of at least three, a target has
    an observer of every kind some candidate is of: one that shares its
    dependencies, one in another domain, one that depends on nothing. *)
Theorem assign_variety `{J : JsonApi} g targets cs degree revision plan t a role :
  graph_wf g → NoDup cs → (N.of_nat (length cs) ≤ u32_max)%N → (3 ≤ degree)%N →
  assign targets cs g degree revision = Some plan → a ∈ assignments plan → assigned_target a = t →
  role ≠ Filler → on_offer g cs t role →
  ∃ o, o ∈ observers a ∧ observer_role o = role.
Proof.
  intros Hwf Hnd Hlen Hdeg. unfold assign.
  destruct (candidate_domains_spec g cs Hwf) as (D & -> & HD). cbn.
  destruct (assign_loop_spec g cs D degree 0 targets Hwf) as (l & -> & Hl). cbn.
  intros [= <-] Ha Ht Hnf Hoff. cbn in Ha.
  apply list_elem_of_lookup in Ha as [k Hk].
  destruct (Forall2_lookup_r _ _ _ _ _ Hl Hk) as (t' & _ & i & td & Htd & ->). cbn in Ht |- *. subst t'.
  by apply (turn_variety g).
Qed.

(** *** A cluster of five *)

Section example.
(** Hosts 1 and 2 mount storage 3; host 5 depends on nothing, 6 on 7. *)
Definition peer_graph : DependencyGraph :=
  graph_from_edges [sample_edge 1 3; sample_edge 2 3; sample_edge 6 7; sample_edge 8 3].

Definition peer_candidates : list EntityId := map sample_entity [1; 2; 5; 6; 8]%N.

Lemma peer_graph_wf : graph_wf peer_graph.
Proof.
  apply graph_from_edges_wf. intros e e' He He' Hid.
  repeat (apply elem_of_cons in He as [->|He]; [|]); try by apply elem_of_nil in He.
  all: repeat (apply elem_of_cons in He' as [->|He']; [|]); try by apply elem_of_nil in He'.
  all: vm_compute in Hid; try done.
Qed.

Lemma peer_candidates_ok : NoDup peer_candidates ∧ (N.of_nat (length peer_candidates) ≤ u32_max)%N.
Proof. split; by_computation. Qed.

Definition peer_plan : AssignmentPlan :=
  {| plan_revision_of := 9;
     assignments := [{| assigned_target := sample_entity 1;
                        observers := [mk_observer (sample_entity 2) SameDomain;
                                      mk_observer (sample_entity 6) DifferentDomain;
                                      mk_observer (sample_entity 5) Independent;
                                      mk_observer (sample_entity 8) Filler] |}] |}.

Lemma peer_plan_assigned : assign [sample_entity 1] peer_candidates peer_graph 4 9 = Some peer_plan.
Proof. by_computation. Qed.
End example.

Lemma observers_are_ranked_witness :
  NoDup peer_candidates ∧ (N.of_nat (length peer_candidates) ≤ u32_max)%N ∧
  let b := partition_candidates (sample_entity 1) ∅ ∅ peer_candidates in
  choose_observers 3 0 b = reference_observers 3 0 b.
Proof.
  destruct peer_candidates_ok as [Hnd Hlen]. split; [done|]. split; [done|].
  by apply observers_are_ranked.
Defined.

Lemma assign_sound_witness :
  graph_wf peer_graph ∧ NoDup peer_candidates ∧
  ∃ plan, assign [sample_entity 1] peer_candidates peer_graph 4 9 = Some plan
    ∧ plan_revision_of plan = 9%N
    ∧ Forall2 (assignment_ok peer_graph peer_candidates 4) [sample_entity 1] (assignments plan).
Proof.
  destruct peer_candidates_ok as [Hnd Hlen]. split; [apply peer_graph_wf|]. split; [done|].
  apply assign_sound; [apply peer_graph_wf|done|done].
Defined.

Lemma isolated_host_on_offer : on_offer peer_graph peer_candidates (sample_entity 1) Independent.
Proof.
  exists (sample_entity 5). split; [by_computation|]. split; [done|].
  unfold role_holds. cbn [observer_role observer_id]. intros y Hy.
  destruct (upstream_set_spec peer_graph None (sample_entity 5) peer_graph_wf) as (s & Hs & Hspec).
  assert (upstream_set peer_graph None (sample_entity 5) = Some ∅) as He by by_computation.
  rewrite Hs in He. injection He as ->. by apply Hspec, elem_of_empty in Hy.
Qed.

Lemma assign_variety_witness :
  on_offer peer_graph peer_candidates (sample_entity 1) Independent ∧
  ∃ a o, a ∈ assignments peer_plan ∧ o ∈ observers a ∧ observer_role o = Independent.
Proof.
  split; [apply isolated_host_on_offer|]. destruct peer_candidates_ok as [Hnd Hlen].
  eexists. destruct (assign_variety peer_graph [sample_entity 1] peer_candidates 4 9 peer_plan
    (sample_entity 1) _ Independent peer_graph_wf Hnd Hlen ltac:(done) peer_plan_assigned
    (list_elem_of_here _ _) eq_refl ltac:(done) isolated_host_on_offer) as (o & Ho & Hr).
  exists o. split; [apply list_elem_of_here|done].
Defined.

(** The revision is blind to the graph: the same targets, candidates and
    degree, and so the same revision, with other observers. *)
Lemma plan_revision_misses_the_graph :
  let ts := [sample_entity 1] in let cs := map sample_entity [5; 2]%N in
  let revision := plan_revision ts cs 1 in
  ∃ p p', assign ts cs graph_new 1 revision = Some p ∧ assign ts cs peer_graph 1 revision = Some p'
    ∧ map observer_ids (assignments p) = [[sample_entity 5]]
    ∧ map observer_ids (assignments p') = [[sample_entity 2]].
Proof. cbn zeta. do 2 eexists. split_and!; by vm_compute. Qed.

(** Two observers behind the same storage count as two viewpoints when the
    second is a filler. *)
Lemma same_domain_counted_twice :
  let cs := map sample_entity [2; 8]%N in
  ∃ a, assignments <$> assign [sample_entity 1] cs peer_graph 3 0 = Some [a]
    ∧ observers a = [mk_observer (sample_entity 2) SameDomain; mk_observer (sample_entity 8) Filler]
    ∧ domain_of peer_graph (sample_entity 2) = domain_of peer_graph (sample_entity 8)
    ∧ independent_viewpoints a = 2.
Proof. cbn zeta. eexists. split_and!; by vm_compute. Qed.
