(* ===== verification/Spool.v ===== *)
(** * The agent's spool

    [src/agent/spool.rs]: the bounded on-disk queue an agent keeps observations
    in until the controller has confirmed them.  The table is a finite map from
    the primary key to the other columns (see [Database]). *)

From S2P Require Export Observation External.

Local Open Scope string_scope.

(** ** Numbers *)

(** [x as i64] of a [u64]. *)
Definition as_i64 (n : N) : Z :=
  if (n <? 2 ^ 63)%N then Z.of_N n else (Z.of_N n - 2 ^ 64)%Z.

Definition i64_max : Z := 9223372036854775807%Z.

(** ** Data *)

(** [SpoolLimits]; the age is in nanoseconds. *)
Record SpoolLimits := mk_limits { max_age : N; max_rows : N; max_bytes : N }.

Definition spool_limits_default : SpoolLimits :=
  mk_limits (24 * 60 * 60 * 1000000000) 100000 (64 * 1024 * 1024).

Record EvictionOutcome := mk_eviction { aged_out : N; over_row_limit : N; over_byte_limit : N }.

Definition eviction_total (o : EvictionOutcome) : N := (aged_out o + over_row_limit o + over_byte_limit o)%N.

(** The columns of [spooled_observations] besides the primary key. *)
Record SpoolRow := mk_row {
  row_recorded_at : string;
  row_priority : Z;
  row_size_bytes : N;
  row_payload : string
}.

#[export] Instance SpoolRow_eq_dec : EqDecision SpoolRow.
Proof. solve_decision. Defined.

(** The table, by [id]. *)
Abbreviation SpoolTable := (gmap string SpoolRow) (only parsing).
Abbreviation Entry := (string * SpoolRow)%type (only parsing).

(** ** The statements *)

(** [ORDER BY priority ASC, recorded_at ASC, id ASC]. *)
Definition eviction_key (e : Entry) : Z * (string * string) :=
  (row_priority e.2, (row_recorded_at e.2, e.1)).

Definition eviction_order (t : SpoolTable) : list Entry := sort_by_key eviction_key (map_to_list t).

(** [ORDER BY priority DESC, recorded_at ASC, id ASC]. *)
Definition replay_key (e : Entry) : Z * (string * string) :=
  ((- row_priority e.2)%Z, (row_recorded_at e.2, e.1)).

Definition replay_order (t : SpoolTable) : list Entry := sort_by_key replay_key (map_to_list t).

(** [DELETE ... WHERE id IN (...)], with [rows_affected()]. *)
Definition delete_ids (ids : list string) (t : SpoolTable) : SpoolTable :=
  filter (λ e, e.1 ∉ ids) t.

Definition rows_affected (before after : SpoolTable) : N := N.of_nat (size before - size after).

(** [SELECT COALESCE(SUM(size_bytes), 0)]. *)
Definition sum_sizes (l : list Entry) : N := foldr (λ e acc, row_size_bytes e.2 + acc)%N 0%N l.
Definition size_bytes (t : SpoolTable) : N := sum_sizes (map_to_list t).

(** [SELECT COUNT( * )], read as [i64] and cast. *)
Definition spool_len (t : SpoolTable) : N := N.of_nat (size t).

(** [LIMIT MAX(0, (SELECT COUNT( * ) ...) - ?)]: a difference outside the 64-bit
    range becomes a real number, which [LIMIT] refuses. *)
Definition row_excess (t : SpoolTable) (limits : SpoolLimits) : option N :=
  let excess := (Z.of_nat (size t) - as_i64 (max_rows limits))%Z in
  if (excess <=? i64_max)%Z then Some (Z.to_N excess) else None.

(** [DELETE ... WHERE id IN (SELECT id ... ORDER BY ... LIMIT n)]. *)
Definition delete_least (n : N) (t : SpoolTable) : SpoolTable :=
  delete_ids (map fst (take (N.to_nat n) (eviction_order t))) t.

(** [DELETE ... WHERE recorded_at < ?]: text is compared bytewise. *)
Definition delete_before (cutoff : string) (t : SpoolTable) : SpoolTable :=
  filter (λ e, key_le cutoff (row_recorded_at e.2)) t.

(** The [while] loop on the byte limit: 64 rows a turn, until it fits or a turn
    removes nothing.  Every other turn removes a row, so the rows and one more
    are enough fuel. *)
Fixpoint byte_loop (fuel : nat) (max : N) (t : SpoolTable) (removed_so_far : N) :
    loop_result (SpoolTable * N) :=
  if (max <? size_bytes t)%N then
    match fuel with
    | O => OutOfFuel
    | S f =>
        let t' := delete_least 64 t in
        let removed := rows_affected t t' in
        if (removed =? 0)%N then Finished (t', removed_so_far)
        else byte_loop f max t' (removed_so_far + removed)%N
    end
  else Finished (t, removed_so_far).

Section spool.
Context `{J : JsonApi} `{U : UuidApi} `{T : TimeApi} `{C : ChronoApi}.

(** [serde_json::to_string] and [from_str] of an observation; the error is its
    message. *)
Class ObservationCodec := {
  encode_observation : Observation → string + string;
  decode_observation : string → string + Observation
}.

Context `{OC : ObservationCodec}.

(** The cutoff of [evict]: a subtraction out of range panics. *)
Definition spool_cutoff (limits : SpoolLimits) (now : Timestamp) : option Timestamp :=
  datetime_sub now (default delta_max (delta_from_std (max_age limits))).

(** [Spool::evict] at the time [now]. *)
Definition evict (limits : SpoolLimits) (now : Timestamp) (t : SpoolTable) :
    SpoolTable * outcome EvictionOutcome :=
  match spool_cutoff limits now with
  | None => (t, Panic)
  | Some cutoff =>
      let t1 := delete_before (rfc3339_micros cutoff) t in
      match row_excess t1 limits with
      | None => (t1, Failure Store_Database)
      | Some excess =>
          let t2 := delete_least excess t1 in
          match byte_loop (S (size t2)) (max_bytes limits) t2 0 with
          | Finished (t3, removed) =>
              (t3, Success (mk_eviction (rows_affected t t1) (rows_affected t1 t2) removed))
          | _ => (t2, Panic)
          end
      end
  end.

Definition PROBE_BOOT : string := "host.boot".

(** [priority_of]. *)
Definition priority_of (o : Observation) : Z :=
  match status o with
  | Probe_Failed | Probe_Timeout | Probe_Stuck => 2
  | Probe_Degraded => 1
  | _ => if String.eqb (probe_id o) PROBE_BOOT then 2 else 0
  end.

Definition observation_id_text (o : Observation) : string := uuid_to_string (observation_uuid (observation_id o)).

(** [payload.len()]. *)
Definition row_of (o : Observation) (payload : string) : SpoolRow :=
  mk_row (rfc3339_micros (finished_at o)) (priority_of o) (N.of_nat (String.length payload)) payload.

(** [INSERT ... ON CONFLICT(id) DO NOTHING]. *)
Definition insert_row (id : string) (r : SpoolRow) (t : SpoolTable) : SpoolTable :=
  match t !! id with Some _ => t | None => <[ id := r ]> t end.

(** The loop of [push] inside its transaction. *)
Fixpoint insert_all (os : list Observation) (t : SpoolTable) : StoreError + SpoolTable :=
  match os with
  | [] => inr t
  | o :: rest =>
      match encode_observation o with
      | inl e => inl (Store_Decode "observation" e)
      | inr payload => insert_all rest (insert_row (observation_id_text o) (row_of o payload) t)
      end
  end.

(** [Spool::push]: an error inside the transaction rolls it back. *)
Definition push (limits : SpoolLimits) (now : Timestamp) (os : list Observation) (t : SpoolTable) :
    SpoolTable * outcome EvictionOutcome :=
  match insert_all os t with
  | inl e => (t, Failure e)
  | inr t' => evict limits now t'
  end.

(** [Spool::peek]. *)
Fixpoint decode_rows (l : list Entry) : StoreError + list Observation :=
  match l with
  | [] => inr []
  | e :: rest =>
      match decode_observation (row_payload e.2) with
      | inl m => inl (Store_Decode "spooled observation" m)
      | inr o => match decode_rows rest with inl e' => inl e' | inr os => inr (o :: os) end
      end
  end.

Definition peek (limit : N) (t : SpoolTable) : StoreError + list Observation :=
  decode_rows (take (N.to_nat limit) (replay_order t)).

(** [Spool::acknowledge]: one deletion per identifier. *)
Definition acknowledge (ids : list string) (t : SpoolTable) : SpoolTable * N :=
  foldl (λ '(t, removed) id, let t' := delete_ids [id] t in (t', removed + rows_affected t t')%N) (t, 0%N) ids.

(** [Spool::oldest]. *)
Definition oldest (t : SpoolTable) : outcome (option Timestamp) :=
  match sort_by_key id (map (λ e, row_recorded_at e.2) (map_to_list t)) with
  | [] => Success None
  | v :: _ =>
      match parse_rfc3339 v with
      | Some ts => Success (Some ts)
      | None => Failure (Store_Decode "spool timestamp" "")
      end
  end.
End spool.
