(* ===== verification/SpoolSpec.v ===== *)
(** * The spool: what it promises

    The table of [Spool] refines a queue: a list of rows in order of value,
    from which eviction drops a prefix.  From that: the bounds, which rows go
    first, the end of the byte loop, and draining by peek and acknowledge. *)

From S2P Require Import Concrete.
From S2P Require Export Spool.


(** ** Ordered views of the table *)

(** Splitting a list with distinct identifiers splits its identifiers. *)
Lemma elem_of_drop_ids (l : list Entry) n e :
  NoDup (map fst l) → e ∈ drop n l ↔ e ∈ l ∧ e.1 ∉ map fst (take n l).
Proof.
  intros Hnd. rewrite <- (take_drop n l) in Hnd at 1. rewrite map_app in Hnd.
  apply NoDup_app in Hnd as (_ & Hdisj & _).
  assert (∀ e', e' ∈ drop n l → e'.1 ∉ map fst (take n l)) as Hd.
  { intros e' He' Hin. apply (Hdisj _ Hin). by apply list_elem_of_fmap_2. }
  rewrite <- (take_drop n l) at 2. rewrite elem_of_app. split.
  - intros He. split; [by right|by apply Hd].
  - intros [[He|He] Hn]; [|done]. exfalso. apply Hn. by apply list_elem_of_fmap_2.
Qed.

Lemma delete_ids_perm (t : SpoolTable) l n :
  l ≡ₚ map_to_list t → map_to_list (delete_ids (map fst (take n l)) t) ≡ₚ drop n l.
Proof.
  intros Hl. assert (NoDup (map fst l)) as Hnd.
  { change (map fst l) with (l.*1). rewrite Hl. apply NoDup_fst_map_to_list. }
  apply NoDup_Permutation.
  - apply NoDup_map_to_list.
  - apply (NoDup_fmap_1 fst). change (drop n l).*1 with (map fst (drop n l)). rewrite <- skipn_map.
    rewrite <- (take_drop n (map fst l)) in Hnd. by apply NoDup_app in Hnd as (_ & _ & ?).
  - intros [i r]. rewrite elem_of_drop_ids by done.
    assert ((i, r) ∈ l ↔ t !! i = Some r) as -> by (by rewrite Hl, elem_of_map_to_list).
    rewrite elem_of_map_to_list. unfold delete_ids. by rewrite map_lookup_filter_Some.
Qed.

Lemma eviction_key_id e e' : eviction_key e = eviction_key e' → e.1 = e'.1.
Proof. by intros [= _ _ ?]. Qed.

Lemma replay_key_id e e' : replay_key e = replay_key e' → e.1 = e'.1.
Proof. by intros [= _ _ ?]. Qed.

(** Deleting the first rows of an order leaves the rest, in that order. *)
Lemma delete_prefix {K} `{KeyOrder K} (key : Entry → K) (t : SpoolTable) n :
  (∀ e e', key e = key e' → e.1 = e'.1) →
  sort_by_key key (map_to_list (delete_ids (map fst (take n (sort_by_key key (map_to_list t)))) t))
  = drop n (sort_by_key key (map_to_list t)).
Proof.
  intros Hid. symmetry. apply sort_by_key_unique.
  - by apply map_entries_key_inj.
  - symmetry. apply delete_ids_perm, sort_by_key_perm.
  - apply (StronglySorted_sublist _ _ (sort_by_key key (map_to_list t))); [apply sublist_drop|].
    apply sort_by_key_sorted.
Qed.

Lemma eviction_order_delete_least n t :
  eviction_order (delete_least n t) = drop (N.to_nat n) (eviction_order t).
Proof. apply delete_prefix, eviction_key_id. Qed.

Lemma length_eviction_order t : length (eviction_order t) = size t.
Proof. unfold eviction_order. rewrite sort_by_key_perm. apply length_map_to_list. Qed.

Lemma sum_sizes_perm l l' : l ≡ₚ l' → sum_sizes l = sum_sizes l'.
Proof. unfold sum_sizes. induction 1; cbn [foldr]; [done|lia|lia|congruence]. Qed.

Lemma size_bytes_order t : size_bytes t = sum_sizes (eviction_order t).
Proof. symmetry. apply sum_sizes_perm, sort_by_key_perm. Qed.

Lemma eviction_order_before cutoff t :
  eviction_order (delete_before cutoff t)
  = filter (λ e, key_le cutoff (row_recorded_at e.2)) (eviction_order t).
Proof.
  unfold eviction_order, delete_before. rewrite <- sort_by_key_filter
    by (apply map_entries_key_inj, eviction_key_id).
  apply sort_by_key_proper; [|apply map_to_list_filter_perm].
  intros x y [_ Hx]%list_elem_of_filter [_ Hy]%list_elem_of_filter.
  by apply (map_entries_key_inj eviction_key t eviction_key_id).
Qed.

(** ** The queue a table refines

    What eviction makes of the rows in order of value: rows recorded before
    the cutoff go, then the least valuable ones beyond the row limit, then
    batches of 64 until the rest fits, and no more batches than needed. *)

Definition evicted (limits : SpoolLimits) (cutoff : string) (l l' : list Entry) : Prop :=
  let l1 := filter (λ e, key_le cutoff (row_recorded_at e.2)) l in
  let l2 := drop (length l1 - N.to_nat (max_rows limits)) l1 in
  ∃ k, l' = drop (64 * k) l2
    ∧ (sum_sizes l' ≤ max_bytes limits)%N
    ∧ ∀ j, j < k → (max_bytes limits < sum_sizes (drop (64 * j) l2))%N.

Lemma size_delete_least n t : size (delete_least n t) = size t - N.to_nat n.
Proof. by rewrite <- !length_eviction_order, eviction_order_delete_least, length_skipn. Qed.

Lemma byte_loop_spec fuel max t removed :
  size t < fuel →
  ∃ t' k, byte_loop fuel max t removed = Finished (t', removed + N.of_nat (size t - size t'))%N
    ∧ size t' ≤ size t
    ∧ eviction_order t' = drop (64 * k) (eviction_order t)
    ∧ (size_bytes t' ≤ max)%N
    ∧ ∀ j, j < k → (max < sum_sizes (drop (64 * j) (eviction_order t)))%N.
Proof.
  revert t removed. induction fuel as [|fuel IH]; intros t removed Hfuel; [lia|].
  cbn [byte_loop]. destruct (N.ltb_spec max (size_bytes t)) as [Hgt|Hle].
  - assert (size t ≠ 0) as Hne.
    { intros Hz. rewrite size_bytes_order in Hgt. rewrite <- length_eviction_order in Hz.
      apply length_zero_iff_nil in Hz. rewrite Hz in Hgt. cbn in Hgt. lia. }
    pose proof (size_delete_least 64 t) as Hsize. unfold rows_affected.
    destruct (N.eqb_spec (N.of_nat (size t - size (delete_least 64 t))) 0) as [He|_]; [lia|].
    destruct (IH (delete_least 64 t) (removed + N.of_nat (size t - size (delete_least 64 t)))%N)
      as (t' & k & -> & Hs & Hord & Hfit & Hmin); [lia|].
    exists t', (S k). rewrite eviction_order_delete_least in Hord, Hmin. split_and!; [|lia| |done|].
    + do 2 f_equal. lia.
    + rewrite Hord, skipn_skipn. f_equal. lia.
    + intros [|j] Hj; [by rewrite Nat.mul_0_r, skipn_O, <- size_bytes_order|].
      specialize (Hmin j ltac:(lia)). rewrite skipn_skipn in Hmin.
      by replace (64 * S j) with (64 * j + N.to_nat 64) by lia.
  - exists t, 0. rewrite Nat.mul_0_r, skipn_O, Nat.sub_diag, N.add_0_r. split_and!; [done..|lia].
Qed.

Lemma size_delete_before cutoff t : size (delete_before cutoff t) ≤ size t.
Proof.
  rewrite <- !length_eviction_order, eviction_order_before. apply length_filter.
Qed.

(** A row limit a signed word can hold is read as it is. *)
Lemma row_excess_small t limits :
  (max_rows limits < 2 ^ 63)%N → (Z.of_nat (size t) ≤ i64_max)%Z →
  row_excess t limits = Some (N.of_nat (size t) - max_rows limits)%N.
Proof.
  intros Hmax Hsize. unfold row_excess, as_i64. rewrite (proj2 (N.ltb_lt _ _)) by done.
  destruct (Z.leb_spec (Z.of_nat (size t) - Z.of_N (max_rows limits)) i64_max); [|lia].
  f_equal. lia.
Qed.

Section evict.
Context `{J : JsonApi} `{U : UuidApi} `{T : TimeApi} `{C : ChronoApi}.

Lemma evict_spec limits now t cutoff :
  spool_cutoff limits now = Some cutoff →
  (max_rows limits < 2 ^ 63)%N → (Z.of_nat (size t) ≤ i64_max)%Z →
  ∃ t' o, evict limits now t = (t', Success o)
    ∧ evicted limits (rfc3339_micros cutoff) (eviction_order t) (eviction_order t')
    ∧ N.of_nat (size t) = (N.of_nat (size t') + eviction_total o)%N.
Proof.
  intros Hcut Hmax Hsize. unfold evict. rewrite Hcut.
  set (c := rfc3339_micros cutoff). set (t1 := delete_before c t).
  pose proof (size_delete_before c t) as Hs1. fold t1 in Hs1.
  rewrite row_excess_small by (done || lia).
  set (t2 := delete_least (N.of_nat (size t1) - max_rows limits) t1).
  pose proof (size_delete_least (N.of_nat (size t1) - max_rows limits) t1) as Hs2. fold t2 in Hs2.
  destruct (byte_loop_spec (S (size t2)) (max_bytes limits) t2 0 ltac:(lia))
    as (t' & k & -> & Hs & Hord & Hfit & Hmin).
  do 2 eexists. split; [done|]. split.
  - exists k. unfold c. rewrite <- eviction_order_before. fold c t1.
    assert (eviction_order t2 = drop (length (eviction_order t1) - N.to_nat (max_rows limits)) (eviction_order t1))
      as Ht2.
    { unfold t2. rewrite eviction_order_delete_least, length_eviction_order. f_equal. lia. }
    rewrite <- Ht2. split_and!; [done|by rewrite <- size_bytes_order|done].
  - unfold eviction_total, rows_affected. cbn [aged_out over_row_limit over_byte_limit]. lia.
Qed.
End evict.

(** ** What follows from the refinement *)

Section consequences.
Context (limits : SpoolLimits) (cutoff : string) (l l' : list Entry).
Context (Hl : StronglySorted (key_le_on eviction_key) l) (He : evicted limits cutoff l l').

Let l1 := filter (λ e, key_le cutoff (row_recorded_at e.2)) l.

Lemma evicted_suffix : ∃ n, l' = drop n l1.
Proof. destruct He as (k & -> & _). eexists. fold l1. by rewrite skipn_skipn. Qed.

Lemma evicted_rows : length l' ≤ N.to_nat (max_rows limits).
Proof. destruct He as (k & -> & _). fold l1. rewrite !length_skipn. lia. Qed.

Lemma evicted_bytes : (sum_sizes l' ≤ max_bytes limits)%N.
Proof. by destruct He as (k & _ & ? & _). Qed.

Lemma evicted_fresh e : e ∈ l' → e ∈ l ∧ key_le cutoff (row_recorded_at e.2).
Proof.
  destruct evicted_suffix as [n ->]. intros Hin. apply (subseteq_drop n) in Hin.
  unfold l1 in Hin. apply list_elem_of_filter in Hin. tauto.
Qed.

(** Whatever the limits evicted was worth no more than what they kept. *)
Lemma evicted_least_first e e' :
  e ∈ l → key_le cutoff (row_recorded_at e.2) → e ∉ l' → e' ∈ l' →
  key_le (eviction_key e) (eviction_key e').
Proof.
  destruct evicted_suffix as [n ->]. intros Hin Hfresh Hout Hkept.
  assert (e ∈ l1) as H1 by (unfold l1; by apply list_elem_of_filter).
  rewrite <- (take_drop n l1) in H1. apply elem_of_app in H1 as [H1|?]; [|done].
  assert (StronglySorted (key_le_on eviction_key) l1) as Hs.
  { apply (StronglySorted_sublist _ _ l); [apply sublist_filter|done]. }
  rewrite <- (take_drop n l1) in Hs.
  by apply (StronglySorted_app_1_elem_of (key_le_on eviction_key) (take n l1) (drop n l1) e e' Hs).
Qed.
End consequences.

Lemma eviction_order_sorted t : StronglySorted (key_le_on eviction_key) (eviction_order t).
Proof. apply sort_by_key_sorted. Qed.

Lemma elem_of_eviction_order t i r : (i, r) ∈ eviction_order t ↔ t !! i = Some r.
Proof. unfold eviction_order. by rewrite elem_of_sort_by_key, elem_of_map_to_list. Qed.

Lemma elem_of_replay_order t i r : (i, r) ∈ replay_order t ↔ t !! i = Some r.
Proof. unfold replay_order. by rewrite elem_of_sort_by_key, elem_of_map_to_list. Qed.

(** ** Peeking and acknowledging *)

Lemma delete_ids_app ids ids' t : delete_ids (ids ++ ids') t = delete_ids ids' (delete_ids ids t).
Proof.
  apply map_eq. intros i. unfold delete_ids. apply option_eq. intros r.
  rewrite !map_lookup_filter_Some. cbn. rewrite elem_of_app. tauto.
Qed.

Lemma delete_ids_nil t : delete_ids [] t = t.
Proof.
  apply map_eq. intros i. unfold delete_ids. apply option_eq. intros r.
  rewrite map_lookup_filter_Some. cbn. set_solver.
Qed.

Lemma acknowledge_fst ids t : (acknowledge ids t).1 = delete_ids ids t.
Proof.
  unfold acknowledge. generalize 0%N. revert t. induction ids as [|id ids IH]; intros t n; cbn [foldl].
  - by rewrite delete_ids_nil.
  - rewrite IH. by rewrite (delete_ids_app [id] ids).
Qed.

Lemma replay_order_acknowledge n t :
  replay_order (delete_ids (map fst (take n (replay_order t))) t) = drop n (replay_order t).
Proof. apply delete_prefix, replay_key_id. Qed.

Lemma length_replay_order t : length (replay_order t) = size t.
Proof. unfold replay_order. rewrite sort_by_key_perm. apply length_map_to_list. Qed.

Section codec.
Context `{J : JsonApi} `{U : UuidApi} `{T : TimeApi} `{C : ChronoApi} `{OC : !ObservationCodec}.

(** Reading back gives what was written. *)
Class CodecLaws := {
  decode_encode o p : encode_observation o = inr p → decode_observation p = inr o
}.

(** Every row holds an observation, filed under its own identifier. *)
Definition row_ok (e : Entry) : Prop :=
  ∃ o, decode_observation (row_payload e.2) = inr o ∧ observation_id_text o = e.1
       ∧ row_priority e.2 = priority_of o ∧ row_recorded_at e.2 = rfc3339_micros (finished_at o).

Definition spool_ok (t : SpoolTable) : Prop := ∀ i r, t !! i = Some r → row_ok (i, r).

Lemma spool_ok_filter (P : Entry → Prop) `{∀ e, Decision (P e)} t : spool_ok t → spool_ok (filter P t).
Proof. intros Hok i r [Hr _]%map_lookup_filter_Some. by apply Hok. Qed.

Lemma spool_ok_byte_loop fuel max t removed t' n :
  byte_loop fuel max t removed = Finished (t', n) → spool_ok t → spool_ok t'.
Proof.
  revert t removed. induction fuel as [|fuel IH]; intros t removed; cbn [byte_loop];
    destruct (max <? size_bytes t)%N; try by intros [= -> _].
  destruct (_ =? 0)%N; [intros [= <- _] Hok|intros Hl Hok; apply (IH _ _ Hl)];
    by apply spool_ok_filter.
Qed.

Lemma spool_ok_evict limits now t : spool_ok t → spool_ok (evict limits now t).1.
Proof.
  intros Hok. unfold evict. destruct (spool_cutoff _ _) as [cutoff|]; [|done].
  assert (spool_ok (delete_before (rfc3339_micros cutoff) t)) as H1 by (by apply spool_ok_filter).
  destruct (row_excess _ _) as [n|]; [|done].
  assert (spool_ok (delete_least n (delete_before (rfc3339_micros cutoff) t))) as H2 by (by apply spool_ok_filter).
  destruct (byte_loop _ _ _ _) as [[t3 removed]| |] eqn:Hl; [|done|done].
  by apply (spool_ok_byte_loop _ _ _ _ _ _ Hl).
Qed.

Lemma insert_all_ok os t t' `{!CodecLaws} : insert_all os t = inr t' → spool_ok t → spool_ok t'.
Proof.
  revert t. induction os as [|o os IH]; intros t; cbn [insert_all]; [by intros [= ->]|].
  destruct (encode_observation o) as [e|p] eqn:He; [done|]. intros Hins Hok. apply (IH _ Hins).
  unfold insert_row. destruct (t !! observation_id_text o); [done|].
  intros i r [[<- <-]|[_ Hr]]%lookup_insert_Some; [|by apply Hok].
  exists o. cbn. split_and!; [by apply decode_encode|done..].
Qed.

(** What is already spooled is never overwritten. *)
Lemma insert_all_keeps os t t' i r : insert_all os t = inr t' → t !! i = Some r → t' !! i = Some r.
Proof.
  revert t. induction os as [|o os IH]; intros t; cbn [insert_all]; [by intros [= ->]|].
  destruct (encode_observation o) as [e|p]; [done|]. intros Hins Hr. apply (IH _ Hins).
  unfold insert_row. destruct (t !! observation_id_text o) eqn:Ho; [done|].
  rewrite lookup_insert_ne; [done|]. intros <-. congruence.
Qed.

(** Every observation pushed is in the table afterwards. *)
Lemma insert_all_all os t t' o : insert_all os t = inr t' → o ∈ os → is_Some (t' !! observation_id_text o).
Proof.
  revert t. induction os as [|o' os IH]; intros t; cbn [insert_all]; [by intros _ ?%elem_of_nil|].
  destruct (encode_observation o') as [e|p]; [done|]. intros Hins [->|Hin]%elem_of_cons; [|by apply (IH _ Hins)].
  assert (is_Some (insert_row (observation_id_text o') (row_of o' p) t !! observation_id_text o')) as [r Hr].
  { unfold insert_row. destruct (t !! observation_id_text o') eqn:Ho; [by rewrite Ho|].
    rewrite lookup_insert_eq. by eexists. }
  exists r. by apply (insert_all_keeps _ _ _ _ _ Hins).
Qed.

(** What a table holds once a list was pushed into it: every row it had, and for
    an identifier it had none of, the first observation pushed under it. *)
Definition holds_pushed (os : list Observation) (t t' : SpoolTable) : Prop :=
  (∀ i r, t !! i = Some r → t' !! i = Some r)
  ∧ ∀ i, t !! i = None →
      match head (filter (λ o, observation_id_text o = i) os) with
      | Some o => ∃ p, encode_observation o = inr p ∧ t' !! i = Some (row_of o p)
      | None => t' !! i = None
      end.

Lemma insert_all_pushed os t t' : insert_all os t = inr t' → holds_pushed os t t'.
Proof.
  intros Hins. split; [intros i r; by eapply insert_all_keeps|]. revert t Hins.
  induction os as [|o os IH]; intros t; cbn [insert_all]; [by intros [= ->]|].
  destruct (encode_observation o) as [e|p] eqn:He; [done|]. intros Hins i Hi. rewrite filter_cons.
  destruct (decide (observation_id_text o = i)) as [<-|Hne]; cbn [head].
  - exists p. split; [done|]. apply (insert_all_keeps _ _ _ _ _ Hins). unfold insert_row. by rewrite Hi, lookup_insert_eq.
  - apply (IH _ Hins). unfold insert_row. destruct (t !! observation_id_text o); [done|]. by rewrite lookup_insert_ne.
Qed.

(** Peeking a well-formed spool reads the first rows of the replay order. *)
Lemma decode_rows_ok (l : list Entry) :
  Forall row_ok l →
  ∃ os, decode_rows l = inr os ∧ map observation_id_text os = map fst l
    ∧ Forall2 (λ e o, decode_observation (row_payload e.2) = inr o) l os.
Proof.
  induction 1 as [|e l (o & Hd & Hi & _) Hl (os & IH & Hids & Hall)]; [by exists []|].
  exists (o :: os). cbn. rewrite Hd, IH, Hi, Hids. split_and!; [done|done|by constructor].
Qed.

Lemma replay_rows_ok t : spool_ok t → Forall row_ok (replay_order t).
Proof. intros Hok. apply Forall_forall. intros [i r] Hin. apply Hok. by apply elem_of_replay_order. Qed.

Lemma peek_exact n t :
  spool_ok t →
  ∃ os, peek n t = inr os
    ∧ Forall2 (λ e o, e.1 = observation_id_text o ∧ decode_observation (row_payload e.2) = inr o)
        (take (N.to_nat n) (replay_order t)) os.
Proof.
  intros Hok. destruct (decode_rows_ok (take (N.to_nat n) (replay_order t))) as (os & Hos & Hids & Hall).
  - by apply Forall_take, replay_rows_ok.
  - exists os. split; [exact Hos|]. clear Hos. revert Hids. induction Hall as [|e o l os Ho _ IH]; [constructor|].
    intros [= Hid Hids]. constructor; [by split|by apply IH].
Qed.

Lemma peek_ok n t :
  spool_ok t →
  ∃ os, peek n t = inr os ∧ map observation_id_text os = map fst (take (N.to_nat n) (replay_order t)).
Proof.
  intros Hok. destruct (decode_rows_ok (take (N.to_nat n) (replay_order t))) as (os & Hos & Hids & _).
  - by apply Forall_take, replay_rows_ok.
  - by exists os.
Qed.
End codec.

(** ** Properties *)

Section properties.
Context `{J : JsonApi} `{U : UuidApi} `{T : TimeApi} `{C : ChronoApi} `{OC : !ObservationCodec}.

(** A push whose observations all serialize inserts them and evicts. *)
Lemma insert_all_succeeds os t :
  (∀ o, o ∈ os → ∃ p, encode_observation o = inr p) → ∃ t', insert_all os t = inr t' ∧ size t' ≤ size t + length os.
Proof.
  revert t. induction os as [|o os IH]; intros t Henc; [exists t; cbn; split; [done|lia]|].
  cbn [insert_all length]. destruct (Henc o ltac:(by left)) as [p ->].
  destruct (IH (insert_row (observation_id_text o) (row_of o p) t)) as (t' & Ht' & Hs).
  { intros o' Ho'. apply Henc. by right. }
  exists t'. split; [done|]. revert Hs. unfold insert_row.
  destruct (t !! observation_id_text o) eqn:Ho; [lia|]. rewrite map_size_insert_None by done. lia.
Qed.

Lemma size_bytes_evicted limits cutoff t t' :
  evicted limits cutoff (eviction_order t) (eviction_order t') →
  (N.of_nat (size t') ≤ max_rows limits)%N ∧ (size_bytes t' ≤ max_bytes limits)%N
  ∧ ∀ i r, t' !! i = Some r → t !! i = Some r ∧ key_le cutoff (row_recorded_at r).
Proof.
  intros He. split; [|split].
  - pose proof (evicted_rows limits cutoff _ _ He) as Hr. rewrite length_eviction_order in Hr. lia.
  - rewrite size_bytes_order. by apply (evicted_bytes limits cutoff (eviction_order t)).
  - intros i r Hr. apply elem_of_eviction_order in Hr.
    apply (evicted_fresh limits cutoff _ _ He) in Hr as [Hr Hf].
    by apply elem_of_eviction_order in Hr.
Qed.
End properties.

(** Eviction refines the abstract queue: with the rows in order of value,
    those recorded before the cutoff go first, then the least valuable ones
    beyond the row limit, then batches of 64 from the bottom until the rest
    fits the byte limit, and not one batch more; and the outcome counts exactly
    the rows that went.  In particular the byte loop ends. *)
Theorem evict_refines `{JsonApi} `{UuidApi} `{TimeApi} `{ChronoApi} limits now t cutoff :
  spool_cutoff limits now = Some cutoff →
  (max_rows limits < 2 ^ 63)%N → (Z.of_nat (size t) ≤ i64_max)%Z →
  ∃ t' o, evict limits now t = (t', Success o)
    ∧ evicted limits (rfc3339_micros cutoff) (eviction_order t) (eviction_order t')
    ∧ N.of_nat (size t) = (N.of_nat (size t') + eviction_total o)%N.
Proof. apply evict_spec. Qed.

(** Pushing keeps the spool within its limits: whatever was spooled and
    however much is pushed, afterwards there are at most [max_rows] rows and
    [max_bytes] bytes, none recorded before the cutoff; and no row left was
    altered by the push. *)
Theorem push_bounded `{JsonApi} `{UuidApi} `{TimeApi} `{ChronoApi} `{!ObservationCodec} limits now os t cutoff :
  (∀ o, o ∈ os → ∃ p, encode_observation o = inr p) →
  spool_cutoff limits now = Some cutoff →
  (max_rows limits < 2 ^ 63)%N → (Z.of_nat (size t + length os) ≤ i64_max)%Z →
  ∃ t' o, push limits now os t = (t', Success o)
    ∧ (N.of_nat (size t') ≤ max_rows limits)%N ∧ (size_bytes t' ≤ max_bytes limits)%N
    ∧ (∀ i r, t' !! i = Some r → key_le (rfc3339_micros cutoff) (row_recorded_at r))
    ∧ (∀ i r r', t !! i = Some r → t' !! i = Some r' → r' = r).
Proof.
  intros Henc Hcut Hmax Hsize. unfold push.
  destruct (insert_all_succeeds os t Henc) as (t1 & Hins & Hs1). rewrite Hins.
  destruct (evict_spec limits now t1 cutoff Hcut Hmax ltac:(lia)) as (t' & o & -> & He & _).
  apply size_bytes_evicted in He as (Hr & Hb & Hf).
  do 2 eexists. split_and!; [done|done|done|by intros i r []%Hf|].
  intros i r r' Hr0 [Hr1 _]%Hf. apply (insert_all_keeps _ _ _ _ _ Hins) in Hr0. congruence.
Qed.

(** Important rows are evicted last: of the rows recent enough to stay,
    one the limits removed has no higher priority than any row kept, and among
    equal priorities was recorded no later. *)
Theorem evict_least_valuable `{JsonApi} `{UuidApi} `{TimeApi} `{ChronoApi} limits now t t' o cutoff i r i' r' :
  spool_cutoff limits now = Some cutoff →
  (max_rows limits < 2 ^ 63)%N → (Z.of_nat (size t) ≤ i64_max)%Z →
  evict limits now t = (t', Success o) →
  t !! i = Some r → key_le (rfc3339_micros cutoff) (row_recorded_at r) → t' !! i = None →
  t' !! i' = Some r' →
  (row_priority r ≤ row_priority r')%Z
  ∧ (row_priority r = row_priority r' → key_le (row_recorded_at r) (row_recorded_at r')).
Proof.
  intros Hcut Hmax Hsize Hev Hi Hf Hout Hi'.
  destruct (evict_spec limits now t cutoff Hcut Hmax Hsize) as (t2 & o2 & Hev2 & He & _).
  rewrite Hev in Hev2. injection Hev2 as <- <-.
  assert (key_le (eviction_key (i, r)) (eviction_key (i', r'))) as [Hle Heq].
  { apply (evicted_least_first limits (rfc3339_micros cutoff) _ _ (eviction_order_sorted t) He).
    - by apply elem_of_eviction_order.
    - done.
    - rewrite elem_of_eviction_order. congruence.
    - by apply elem_of_eviction_order. }
  split; [exact Hle|]. intros Hp. by destruct (Heq Hp) as [? _].
Qed.

(** C26.  What is spooled comes back as it was.  Pushing observations into a table
    whose rows are observations filed under their own identifiers succeeds and
    leaves such a table: the rows there were and, for every new identifier, the
    first observation pushed under it, less the rows the limits evict, those
    before the cutoff and then the least valuable.  Peeking always succeeds and
    reads the first rows of the replay order, each as the observation it was
    pushed as; and acknowledging takes away the rows acknowledged and no other. *)
Theorem spool_never_poisoned `{JsonApi} `{UuidApi} `{TimeApi} `{ChronoApi} `{!ObservationCodec} `{!CodecLaws} limits now os t cutoff :
  spool_ok t → (∀ o, o ∈ os → ∃ p, encode_observation o = inr p) →
  spool_cutoff limits now = Some cutoff →
  (max_rows limits < 2 ^ 63)%N → (Z.of_nat (size t + length os) ≤ i64_max)%Z →
  ∃ t1 t' out, push limits now os t = (t', Success out)
    ∧ holds_pushed os t t1
    ∧ evicted limits (rfc3339_micros cutoff) (eviction_order t1) (eviction_order t')
    ∧ spool_ok t'
    ∧ (∀ n, ∃ read, peek n t' = inr read
         ∧ Forall2 (λ e o, e.1 = observation_id_text o ∧ decode_observation (row_payload e.2) = inr o)
             (take (N.to_nat n) (replay_order t')) read)
    ∧ (∀ o row, head (filter (λ o', observation_id_text o' = observation_id_text o) os) = Some o →
         t !! observation_id_text o = None → t' !! observation_id_text o = Some row →
         decode_observation (row_payload row) = inr o)
    ∧ ∀ ids i, (acknowledge ids t').1 !! i = if decide (i ∈ ids) then None else t' !! i.
Proof.
  intros Hok Henc Hcut Hmax Hsize. unfold push.
  destruct (insert_all_succeeds os t Henc) as (t1 & Hins & Hs1). rewrite Hins.
  pose proof (spool_ok_evict limits now t1 (insert_all_ok _ _ _ Hins Hok)) as Hok'.
  destruct (evict_spec limits now t1 cutoff Hcut Hmax ltac:(lia)) as (t' & out & Hev & He & _). rewrite Hev in Hok' |- *.
  apply insert_all_pushed in Hins. exists t1, t', out. split_and!; [done|done|done|done|intros n; by apply peek_exact| |].
  - intros o row Hfirst Hnew Hrow. apply size_bytes_evicted in He as (_ & _ & Hf). apply Hf in Hrow as [Hrow _].
    destruct Hins as [_ Hp]. specialize (Hp _ Hnew). rewrite Hfirst in Hp. destruct Hp as (p & Henco & Hp).
    rewrite Hrow in Hp. injection Hp as ->. by apply decode_encode.
  - intros ids i. rewrite acknowledge_fst. unfold delete_ids. destruct (decide (i ∈ ids)) as [Hin|Hout].
    + apply map_lookup_filter_None_2. right. intros r _. cbn. tauto.
    + destruct (t' !! i) as [r|] eqn:Hr; [by apply map_lookup_filter_Some_2|]. apply map_lookup_filter_None_2. by left.
Qed.

(** A row limit beyond the signed range is read as a negative one: with
    such a limit, however generous it looks, eviction deletes every row; the
    largest of them all, [u64::MAX], leaves the spool empty. *)
Theorem oversized_row_limit_empties `{JsonApi} `{UuidApi} `{TimeApi} `{ChronoApi} limits now t cutoff :
  spool_cutoff limits now = Some cutoff →
  (2 ^ 63 ≤ max_rows limits ≤ u64_max)%N →
  (Z.of_nat (size t) + (2 ^ 64 - Z.of_N (max_rows limits)) ≤ i64_max)%Z →
  (evict limits now t).1 = ∅.
Proof.
  intros Hcut [Hlo Hhi] Hsize. unfold evict. rewrite Hcut.
  set (t1 := delete_before _ t). pose proof (size_delete_before (rfc3339_micros cutoff) t) as Hs1. fold t1 in Hs1.
  assert (row_excess t1 limits = Some (Z.to_N (Z.of_nat (size t1) + (2 ^ 64 - Z.of_N (max_rows limits))))) as ->.
  { unfold row_excess, as_i64. destruct (N.ltb_spec (max_rows limits) (2 ^ 63)); [lia|].
    destruct (Z.leb_spec (Z.of_nat (size t1) - (Z.of_N (max_rows limits) - 2 ^ 64)) i64_max); [|lia].
    do 2 f_equal. lia. }
  set (t2 := delete_least _ t1). assert (size t2 = 0) as Hz.
  { unfold t2. rewrite size_delete_least. unfold u64_max in Hhi. lia. }
  apply map_size_empty_inv in Hz. rewrite Hz. cbn [byte_loop].
  change (size_bytes ∅) with 0%N. by destruct (N.ltb_spec (max_bytes limits) 0); [lia|].
Qed.

(** *** A small spool *)

Section example.
Definition sample_row (at_ : string) (priority : Z) (bytes : N) : SpoolRow := mk_row at_ priority bytes "0".

(** A failure, a routine row older than it, and a newer routine row. *)
Definition sample_spool : SpoolTable :=
  <[ "a"%string := sample_row "102" 2 10 ]>
    (<[ "b"%string := sample_row "101" 0 10 ]> (<[ "c"%string := sample_row "103" 0 10 ]> ∅)).

Definition two_rows : SpoolLimits := mk_limits 100 2 1000.

Definition sample_now : Timestamp := 200%Z.

Lemma sample_cutoff : spool_cutoff two_rows sample_now = Some 100%Z.
Proof. by vm_compute. Qed.

Lemma sample_evicted :
  evict two_rows sample_now sample_spool = (delete "b"%string sample_spool, Success (mk_eviction 0 1 0)).
Proof. by vm_compute. Qed.

(** Replay is by priority and then age, eviction by priority and then age as
    well: neither oldest first, nor each other's reverse. *)
Lemma spool_orders :
  map fst (replay_order sample_spool) = ["a"; "b"; "c"]%string
  ∧ map fst (eviction_order sample_spool) = ["b"; "c"; "a"]%string.
Proof. split; by vm_compute. Qed.

(** A codec for the observations of the example. *)
Definition sample_observation (n : N) (s : ProbeStatus) : Observation :=
  observation_new {| observation_uuid := n |} 150 "host.load"%string {| as_uuid := 7 |} s.

Definition sample_observations : list Observation :=
  [sample_observation 1 Probe_Ok; sample_observation 2 Probe_Failed; sample_observation 3 Probe_Ok].

Definition sample_codec : ObservationCodec := {|
  encode_observation o :=
    match list_find (λ o', o' = o) sample_observations with
    | Some (i, _) => inr (show_N (N.of_nat i))
    | None => inl "not one of the samples"%string
    end;
  decode_observation s :=
    match parse_u64 s ≫= λ n, sample_observations !! N.to_nat n with
    | Some o => inr o
    | None => inl "not a sample"%string
    end
|}.

Lemma sample_codec_laws : @CodecLaws _ sample_codec.
Proof.
  split. intros o p. cbn [encode_observation decode_observation sample_codec].
  destruct (list_find _ _) as [[i o']|] eqn:Hf; [|done]. intros [= <-].
  apply list_find_Some in Hf as (Hi & -> & _).
  assert (i < 3) as Hlt by (by apply lookup_lt_Some in Hi).
  rewrite parse_u64_show by (unfold u64_max; lia). cbn [mbind option_bind]. by rewrite Nat2N.id, Hi.
Qed.
End example.

Lemma evict_refines_witness :
  spool_cutoff two_rows sample_now = Some 100%Z ∧
  ∃ t' o, evict two_rows sample_now sample_spool = (t', Success o)
    ∧ evicted two_rows (rfc3339_micros 100) (eviction_order sample_spool) (eviction_order t').
Proof.
  split; [apply sample_cutoff|].
  destruct (evict_refines two_rows sample_now sample_spool 100 sample_cutoff ltac:(done) ltac:(by vm_compute))
    as (t' & o & He & Hr & _).
  exists t', o. exact (conj He Hr).
Defined.

Lemma evict_least_valuable_witness :
  evict two_rows sample_now sample_spool = (delete "b"%string sample_spool, Success (mk_eviction 0 1 0))
  ∧ (row_priority (sample_row "101" 0 10) ≤ row_priority (sample_row "102" 2 10))%Z.
Proof.
  split; [apply sample_evicted|].
  refine (proj1 (evict_least_valuable two_rows sample_now sample_spool _ _ 100 "b" _ "a" _ sample_cutoff
    _ _ sample_evicted _ _ _ _)); by vm_compute.
Defined.

Lemma oversized_row_limit_empties_witness :
  (evict (mk_limits 100 u64_max u64_max) sample_now sample_spool).1 = ∅.
Proof.
  apply (oversized_row_limit_empties (mk_limits 100 u64_max u64_max) sample_now sample_spool 100);
    [by vm_compute|by vm_compute|by vm_compute].
Defined.

Lemma push_bounded_witness :
  ∃ t' o, @push _ _ _ _ sample_codec two_rows sample_now sample_observations sample_spool = (t', Success o)
    ∧ (N.of_nat (size t') ≤ 2)%N.
Proof.
  destruct (@push_bounded _ _ _ _ sample_codec two_rows sample_now sample_observations sample_spool 100)
    as (t' & o & He & Hr & _).
  - intros o Ho. repeat (apply elem_of_cons in Ho as [->|Ho]; [eexists; by vm_compute|]).
    by apply elem_of_nil in Ho.
  - apply sample_cutoff.
  - done.
  - by vm_compute.
  - exists t', o. exact (conj He Hr).
Defined.

Lemma spool_never_poisoned_witness :
  ∃ t', (@push _ _ _ _ sample_codec two_rows sample_now [sample_observation 2 Probe_Failed] ∅).1 = t'
    ∧ ∀ row, t' !! "2"%string = Some row →
        @decode_observation _ sample_codec (row_payload row) = inr (sample_observation 2 Probe_Failed).
Proof.
  destruct (@spool_never_poisoned _ _ _ _ sample_codec sample_codec_laws two_rows sample_now [sample_observation 2 Probe_Failed] ∅ 100)
    as (t1 & t' & out & Hp & _ & _ & _ & _ & Hread & _).
  - intros i r Hr. by rewrite lookup_empty in Hr.
  - intros o Ho. apply list_elem_of_singleton in Ho as ->. eexists. by vm_compute.
  - apply sample_cutoff.
  - reflexivity.
  - by vm_compute.
  - exists t'. split; [by rewrite Hp|]. intros row Hrow.
    exact (Hread (sample_observation 2 Probe_Failed) row eq_refl (lookup_empty _) Hrow).
Defined.

(** The fallback for an age too long to represent never works where the
    calendar is shorter than the longest duration: subtracting it panics. *)
Lemma fallback_age_panics `{JsonApi} `{UuidApi} `{TimeApi} `{ChronoApi} limits now t :
  delta_from_std (max_age limits) = None → datetime_sub now delta_max = None →
  evict limits now t = (t, Panic).
Proof. intros Hd Hs. unfold evict, spool_cutoff. rewrite Hd. cbn. by rewrite Hs. Qed.
