(* ===== verification/Ingest.v ===== *)
(** * Ingesting observations

    What happens to a batch that reaches the controller:
    [src/persistence/observations.rs] stores what is new and applies it to the
    state engine in one transaction, [src/controller/discovery.rs] adds the
    views storage domains get of their provider's probes, and
    [src/controller/registration.rs] turns down what is about no known entity.

    The [observations] table is a map from the primary key; its columns hold
    text forms of the fields, which are kept here as the fields.  The clock is
    read several times: each reading is an argument.  This is what a transaction
    does that the schema admits; [Controller] has the references it checks and
    what a refusal leaves. *)

From S2P Require Export StateEngineSpec Inventory Rules.

Local Open Scope string_scope.

(** ** The observation store *)

Section ingest.
Context `{J : JsonApi} `{HI : HashIter} `{U : UuidApi}.

(** A row of [observations]. *)
Record ObservationRow := { row_observation : Observation; row_ingested_at : Timestamp }.

Abbreviation ObservationTable := (gmap ObservationId ObservationRow) (only parsing).

(** [IngestOutcome]. *)
Record IngestOutcome := { inserted : nat; duplicates : nat; inserted_ids : list ObservationId }.

Definition ingest_outcome_default : IngestOutcome := {| inserted := 0; duplicates := 0; inserted_ids := [] |}.

(** One turn of the loop of [ingest_observations_in]. *)
Definition ingest_one (ingested_at : Timestamp) (st : ObservationTable * IngestOutcome) (o : Observation) :
    ObservationTable * IngestOutcome :=
  let '(t, out) := st in
  match t !! observation_id o with
  | Some _ =>
      (t, {| inserted := inserted out; duplicates := S (duplicates out); inserted_ids := inserted_ids out |})
  | None =>
      (<[ observation_id o := {| row_observation := o; row_ingested_at := ingested_at |} ]> t,
       {| inserted := S (inserted out); duplicates := duplicates out;
          inserted_ids := inserted_ids out ++ [observation_id o] |})
  end.

(** [ingest_observations_in]. *)
Definition ingest_observations_in (ingested_at : Timestamp) (os : list Observation) (t : ObservationTable) :
    ObservationTable * IngestOutcome :=
  foldl (ingest_one ingested_at) (t, ingest_outcome_default) os.

(** [o.finished_at <= latest_valid_time]. *)
Definition not_future (valid_at : Timestamp) (o : Observation) : bool :=
  (finished_at o <=? valid_at + seconds MAX_FUTURE_SKEW_SECONDS)%Z.

(** The filter on the observations: stored by this transaction, not from the
    future, and the first of its identifier to get that far. *)
Fixpoint admit_first (accepted : gset ObservationId) (valid_at : Timestamp) (seen : gset ObservationId)
    (os : list Observation) : list Observation :=
  match os with
  | [] => []
  | o :: rest =>
      if bool_decide (observation_id o ∈ accepted) && not_future valid_at o
      then if decide (observation_id o ∈ seen) then admit_first accepted valid_at seen rest
           else o :: admit_first accepted valid_at ({[ observation_id o ]} ∪ seen) rest
      else admit_first accepted valid_at seen rest
  end.

(** The filter on the views. *)
Definition admit_views (accepted : gset ObservationId) (valid_at : Timestamp) (views : list Observation) :
    list Observation :=
  filter (λ o, bool_decide (observation_id o ∈ accepted) && not_future valid_at o = true) views.

(** [apply_observations] up to the saving of the engine: the table, the
    outcome, the engine and the transitions to save. *)
Definition apply_observations (valid_at ingested_at now : Timestamp) (fresh : EntityId → StateComponent → Uuid)
    (os views : list Observation) (t : ObservationTable) (eng : StateEngine) :
    ObservationTable * IngestOutcome * StateEngine * list StateTransition :=
  let '(t', out) := ingest_observations_in ingested_at os t in
  let accepted : gset ObservationId := list_to_set (inserted_ids out) in
  let '(eng1, ts1) := ingest_all now fresh (admit_first accepted valid_at ∅ os) eng in
  let '(eng2, ts2) := ingest_all now fresh (admit_views accepted valid_at views) eng1 in
  (t', out, eng2, (ts1 ++ ts2)%list).

(** ** Storage views *)

(** [storage_providers]: which storage entities each host provides. *)
Definition storage_providers (inv : Inventory) : gmap EntityId (list EntityId) :=
  foldl (λ by_host edge,
    if decide (dependency_type edge = Provides) then
      match get inv (edge_source edge), get inv (edge_target edge) with
      | Some storage, Some host =>
          if decide (entity_kind storage = Entity_Storage ∧ entity_kind host = Entity_Host)
          then <[ entity_eid host := (default [] (by_host !! entity_eid host) ++ [entity_eid storage])%list ]> by_host
          else by_host
      | _, _ => by_host
      end
    else by_host) ∅ (graph_edges (inv_graph inv)).

Definition SERVER_PROBES : list string := [PROBE_SERVER_PORT; PROBE_SERVER_EXPORTS].

(** [view.target_entity = *storage] on a clone. *)
Definition with_target (o : Observation) (target : EntityId) : Observation :=
  {| observation_id := observation_id o; probe_id := probe_id o; target_entity := target;
     observer_entity := observer_entity o; agent_session := agent_session o;
     started_at := started_at o; finished_at := finished_at o; duration_ms := duration_ms o;
     status := status o; payload := payload o; observation_evidence := observation_evidence o;
     error_code := error_code o; error_message := error_message o |}.

(** [Controller::storage_views]. *)
Fixpoint storage_views_from (providers : gmap EntityId (list EntityId)) (seen : gset ObservationId)
    (os : list Observation) : list Observation :=
  match os with
  | [] => []
  | o :: rest =>
      if decide (observation_id o ∈ seen) then storage_views_from providers seen rest
      else
        let views :=
          if decide (probe_id o ∈ SERVER_PROBES)
          then map (with_target o) (default [] (providers !! target_entity o))
          else [] in
        (views ++ storage_views_from providers ({[ observation_id o ]} ∪ seen) rest)%list
  end.

Definition storage_views (providers : gmap EntityId (list EntityId)) (os : list Observation) : list Observation :=
  storage_views_from providers ∅ os.

(** ** The controller *)

(** The part of the controller a batch reads and writes. *)
Record Ingestor := {
  ing_known : gset EntityId;
  ing_providers : gmap EntityId (list EntityId);
  ing_table : ObservationTable;
  ing_engine : StateEngine
}.

(** The readings of the clock and of the random source in one ingestion. *)
Record Readings := {
  valid_at : Timestamp;
  ingested_at : Timestamp;
  engine_now : Timestamp;
  fresh_id : EntityId → StateComponent → Uuid
}.

(** [Controller::ingest_observations_recorded], up to the references the schema
    checks and the saving of the engine ([Controller.store_observations]). *)
Definition ingest_observations_recorded (r : Readings) (os : list Observation) (c : Ingestor) :
    Ingestor * IngestOutcome * list StateTransition :=
  let views := storage_views (ing_providers c) os in
  let '(t', out, eng', ts) :=
    apply_observations (valid_at r) (ingested_at r) (engine_now r) (fresh_id r) os views
      (ing_table c) (ing_engine c) in
  ({| ing_known := ing_known c; ing_providers := ing_providers c; ing_table := t'; ing_engine := eng' |},
   out, ts).

(** [RejectedObservation] and [ObservationBatchResponse]. *)
Record RejectedObservation := { rejected_id : string; rejected_reason : string }.

Record BatchResponse := {
  resp_accepted : nat;
  resp_duplicates : nat;
  resp_rejected : list RejectedObservation
}.

(** What a batch comes to when the schema admits what is accepted of it and the
    engine is saved: the reference [Controller.store_batch] is held to. *)
Definition admit_batch (r : Readings) (batch : list Observation) (c : Ingestor) :
    Ingestor * BatchResponse :=
  let accepted := filter (λ o, target_entity o ∈ ing_known c) batch in
  let rejected := filter (λ o, target_entity o ∉ ing_known c) batch in
  let '(c', out, _) := ingest_observations_recorded r accepted c in
  (c', {| resp_accepted := inserted out; resp_duplicates := duplicates out;
          resp_rejected := map (λ o,
            {| rejected_id := uuid_to_string (observation_uuid (observation_id o));
               rejected_reason := "unknown target entity " +:+ entity_id_to_string (target_entity o) |})
            rejected |}).
End ingest.
