(* ===== verification/IngestSpec.v ===== *)
(** * Ingesting observations: each counts once

    The identifiers an agent gives its observations make ingestion idempotent:
    whatever is delivered again changes neither the store nor any state. *)

From S2P Require Import Concrete.
From S2P Require Export Ingest.

Section store.
Context `{J : JsonApi} `{HI : HashIter} `{U : UuidApi}.
Implicit Types t : gmap ObservationId ObservationRow.

(** An observation the table does not hold. *)
Definition is_new t (o : Observation) : Prop := t !! observation_id o = None.

#[global] Instance is_new_dec t o : Decision (is_new t o).
Proof. unfold is_new. apply _. Defined.

(** The first of each identifier the table does not hold. *)
Fixpoint first_new t (os : list Observation) : list Observation :=
  match os with
  | [] => []
  | o :: rest =>
      if decide (is_new t o)
      then o :: first_new (<[ observation_id o := {| row_observation := o; row_ingested_at := 0 |} ]> t) rest
      else first_new t rest
  end.

Definition add_outcome (out : IngestOutcome) (os new : list Observation) : IngestOutcome :=
  {| inserted := inserted out + length new; duplicates := duplicates out + (length os - length new);
     inserted_ids := inserted_ids out ++ map observation_id new |}.

Definition add_rows (at_ : Timestamp) (new : list Observation) t : gmap ObservationId ObservationRow :=
  foldl (λ t o, <[ observation_id o := {| row_observation := o; row_ingested_at := at_ |} ]> t) t new.

(** [first_new] depends on the table through its identifiers only. *)
Lemma first_new_dom t t' os : dom t = dom t' → first_new t os = first_new t' os.
Proof.
  revert t t'. induction os as [|o os IH]; intros t t' Hd; [done|]. cbn [first_new].
  assert (is_new t o ↔ is_new t' o) as Hn.
  { unfold is_new. by rewrite <- !not_elem_of_dom, Hd. }
  destruct (decide (is_new t o)), (decide (is_new t' o)); try tauto; [|by apply IH].
  f_equal. apply IH. by rewrite !dom_insert_L, Hd.
Qed.

Lemma length_first_new t os : length (first_new t os) ≤ length os.
Proof.
  revert t. induction os as [|o os IH]; intros t; [done|]. cbn [first_new].
  case_decide; cbn [length]; [|specialize (IH t); lia].
  match goal with |- context [first_new ?t' os] => specialize (IH t') end. lia.
Qed.

(** The loop inserts the first of each new identifier and counts the rest. *)
Lemma ingest_loop_spec at_ os t out :
  foldl (ingest_one at_) (t, out) os = (add_rows at_ (first_new t os) t, add_outcome out os (first_new t os)).
Proof.
  revert t out. induction os as [|o os IH]; intros t out.
  - cbn. unfold add_outcome. cbn. rewrite !Nat.add_0_r, app_nil_r. by destruct out.
  - cbn [foldl first_new ingest_one]. destruct (decide (is_new t o)) as [Hn|Hn]; unfold is_new in Hn.
    + rewrite Hn, IH.
      rewrite (first_new_dom (<[ observation_id o := {| row_observation := o; row_ingested_at := at_ |} ]> t)
                 (<[ observation_id o := {| row_observation := o; row_ingested_at := 0 |} ]> t))
        by (by rewrite !dom_insert_L).
      set (new := first_new _ os). cbn [add_rows foldl]. f_equal. unfold add_outcome.
      cbn [inserted duplicates inserted_ids length map]. rewrite <- app_assoc. f_equal. lia.
    + destruct (t !! observation_id o) as [row|] eqn:Ho; [|done]. rewrite IH. f_equal. unfold add_outcome.
      cbn [inserted duplicates inserted_ids length].
      pose proof (length_first_new t os). f_equal. lia.
Qed.

Lemma ingest_observations_spec at_ os t :
  ingest_observations_in at_ os t
  = (add_rows at_ (first_new t os) t, add_outcome ingest_outcome_default os (first_new t os)).
Proof. apply ingest_loop_spec. Qed.

Lemma elem_of_first_new t os o : o ∈ first_new t os → o ∈ os ∧ is_new t o.
Proof.
  revert t. induction os as [|o' os IH]; intros t; cbn [first_new]; [by intros ?%elem_of_nil|].
  case_decide as Hn.
  - intros [->|Hin]%elem_of_cons; [split; [by left|done]|]. apply IH in Hin as [Hin Hnew].
    split; [by right|]. unfold is_new in *. by apply lookup_insert_None in Hnew as [? _].
  - intros Hin. apply IH in Hin as [? ?]. split; [by right|done].
Qed.

Lemma NoDup_first_new t os : NoDup (map observation_id (first_new t os)).
Proof.
  revert t. induction os as [|o os IH]; intros t; cbn [first_new]; [constructor|].
  case_decide as Hn; [|done]. cbn [map]. constructor; [|done].
  intros (o' & Heq & Hin)%list_elem_of_fmap. apply elem_of_first_new in Hin as [_ Hnew].
  unfold is_new in Hnew. rewrite <- Heq, lookup_insert_eq in Hnew. done.
Qed.

(** Every identifier offered is either held or inserted. *)
Lemma first_new_covers t os o : o ∈ os → is_new t o → observation_id o ∈ map observation_id (first_new t os).
Proof.
  revert t. induction os as [|o' os IH]; intros t; [by intros ?%elem_of_nil|]. cbn [first_new].
  intros [->|Hin]%elem_of_cons Hn.
  - rewrite decide_True by done. cbn. by left.
  - case_decide; [|by apply IH]. cbn [map].
    destruct (decide (observation_id o = observation_id o')) as [->|Hne]; [by left|].
    right. apply IH; [done|]. unfold is_new in *. by rewrite lookup_insert_ne.
Qed.

Lemma dom_add_rows at_ new t : dom (add_rows at_ new t) = dom t ∪ list_to_set (map observation_id new).
Proof.
  revert t. induction new as [|o new IH]; intros t; cbn [add_rows foldl map list_to_set]; [set_solver|].
  unfold add_rows in IH. rewrite IH, dom_insert_L. set_solver.
Qed.

Lemma add_rows_keeps at_ new t i row :
  Forall (is_new t) new → t !! i = Some row → add_rows at_ new t !! i = Some row.
Proof.
  intros Hnew Hi. assert (i ∉ map observation_id new) as Hni.
  { intros (o & -> & Ho)%list_elem_of_fmap. rewrite Forall_forall in Hnew. apply Hnew in Ho.
    unfold is_new in Ho. congruence. }
  clear Hnew. revert t Hi. induction new as [|o new IH]; intros t Hi; [done|]. cbn [add_rows foldl].
  apply IH; [set_solver|]. rewrite lookup_insert_ne; [done|set_solver].
Qed.
End store.

(** ** Only what is new matters *)

Section once.
Context `{J : JsonApi} `{HI : HashIter} `{U : UuidApi}.
Implicit Types t : gmap ObservationId ObservationRow.

Lemma first_new_filter t os : first_new t (filter (is_new t) os) = first_new t os.
Proof.
  enough (∀ t', dom t ⊆ dom t' → first_new t' (filter (is_new t) os) = first_new t' os) as H by (by apply H).
  induction os as [|o os IH]; intros t' Hd; [done|]. rewrite filter_cons.
  destruct (decide (is_new t o)) as [Hn|Hn]; cbn [first_new].
  - case_decide; [|by apply IH]. f_equal. apply IH. rewrite dom_insert_L. set_solver.
  - rewrite IH by done. rewrite decide_False; [done|]. unfold is_new in *. intros Hn'. apply Hn.
    apply not_elem_of_dom. apply not_elem_of_dom in Hn'. set_solver.
Qed.

(** What [accepted] tells of an observation of the batch. *)
Definition accepted_of t (os : list Observation) : gset ObservationId :=
  list_to_set (map observation_id (first_new t os)).

Lemma elem_of_accepted t os o : o ∈ os → observation_id o ∈ accepted_of t os ↔ is_new t o.
Proof.
  intros Hin. unfold accepted_of. rewrite elem_of_list_to_set. split.
  - intros (o' & Heq & [_ Hnew]%elem_of_first_new)%list_elem_of_fmap. unfold is_new in *. by rewrite Heq.
  - intros Hn. by apply first_new_covers.
Qed.

Lemma admit_first_filter (P : Observation → Prop) `{∀ o, Decision (P o)} A v seen os :
  (∀ o, o ∈ os → observation_id o ∈ A ↔ P o) →
  admit_first A v seen (filter P os) = admit_first A v seen os.
Proof.
  revert seen. induction os as [|o os IH]; intros seen HP; [done|]. rewrite filter_cons.
  pose proof (HP o ltac:(by left)) as Ho.
  assert (∀ seen, admit_first A v seen (filter P os) = admit_first A v seen os) as IH'.
  { intros s. apply IH. intros o' Ho'. apply HP. by right. }
  destruct (decide (P o)) as [Hp|Hp]; cbn [admit_first].
  - by rewrite !IH'.
  - rewrite bool_decide_eq_false_2 by tauto. cbn [andb]. apply IH'.
Qed.

Lemma admit_views_app A v l1 l2 : admit_views A v (l1 ++ l2) = admit_views A v l1 ++ admit_views A v l2.
Proof. unfold admit_views. apply filter_app. Qed.

Lemma admit_views_none A v o targets :
  observation_id o ∉ A → admit_views A v (map (with_target o) targets) = [].
Proof.
  intros Ho. unfold admit_views. induction targets as [|x targets IH]; [done|]. cbn [map]. rewrite filter_cons.
  rewrite decide_False; [done|]. cbn [with_target observation_id]. by rewrite bool_decide_eq_false_2.
Qed.

(** The views of observations that are not new are not applied. *)
Lemma storage_views_filter (P : Observation → Prop) `{∀ o, Decision (P o)} A v providers seen seen' os :
  (∀ o o', observation_id o = observation_id o' → P o → P o') →
  (∀ o, o ∈ os → observation_id o ∈ A ↔ P o) →
  (∀ o, P o → observation_id o ∈ seen ↔ observation_id o ∈ seen') →
  admit_views A v (storage_views_from providers seen (filter P os))
  = admit_views A v (storage_views_from providers seen' os).
Proof.
  intros Hid. revert seen seen'. induction os as [|o os IH]; intros seen seen' HP Hseen; [done|].
  rewrite filter_cons. pose proof (HP o ltac:(by left)) as Ho.
  assert (∀ o', o' ∈ os → observation_id o' ∈ A ↔ P o') as HP' by (intros o' Ho'; apply HP; by right).
  destruct (decide (P o)) as [Hp|Hp]; cbn [storage_views_from].
  - specialize (Hseen _ Hp) as Hs.
    destruct (decide (observation_id o ∈ seen)), (decide (observation_id o ∈ seen')); try tauto; [by apply IH|].
    rewrite !admit_views_app. f_equal. apply IH; [done|]. intros o' Ho'. specialize (Hseen o' Ho'). set_solver.
  - destruct (decide (observation_id o ∈ seen')); [by apply IH|].
    rewrite admit_views_app.
    assert (admit_views A v (if decide (probe_id o ∈ SERVER_PROBES)
              then map (with_target o) (default [] (providers !! target_entity o)) else []) = []) as ->.
    { case_decide; [|done]. apply admit_views_none. tauto. }
    apply IH; [done|]. intros o' Ho'. specialize (Hseen o' Ho').
    assert (observation_id o' ≠ observation_id o) by (intros Heq; apply Hp; by apply (Hid o')). set_solver.
Qed.

Definition only_new (c : Ingestor) (os : list Observation) : list Observation :=
  filter (is_new (ing_table c)) os.

Lemma is_new_same_id t o o' : observation_id o = observation_id o' → is_new t o → is_new t o'.
Proof. unfold is_new. by intros ->. Qed.

(** Leaving out what the store already holds changes neither the controller
    nor the transitions. *)
Lemma ingest_only_new r os c :
  let '(c1, out1, ts1) := ingest_observations_recorded r os c in
  let '(c2, out2, ts2) := ingest_observations_recorded r (only_new c os) c in
  c1 = c2 ∧ ts1 = ts2 ∧ inserted out1 = inserted out2.
Proof.
  unfold ingest_observations_recorded, apply_observations. rewrite !ingest_observations_spec.
  unfold only_new. rewrite first_new_filter. cbn [add_outcome inserted_ids ingest_outcome_default app].
  fold (accepted_of (ing_table c) os). set (A := accepted_of (ing_table c) os).
  assert (∀ o, o ∈ os → observation_id o ∈ A ↔ is_new (ing_table c) o) as HA
    by (intros o; apply elem_of_accepted).
  rewrite (admit_first_filter (is_new (ing_table c)) A) by done.
  unfold storage_views.
  rewrite (storage_views_filter (is_new (ing_table c)) A (valid_at r) (ing_providers c) ∅ ∅ os)
    by (done || apply is_new_same_id).
  destruct (ingest_all _ _ (admit_first _ _ _ _) _) as [eng1 ts1].
  by destruct (ingest_all _ _ (admit_views _ _ _) _) as [eng2 ts2].
Qed.

Lemma ingest_nothing r c :
  ingest_observations_recorded r [] c = (c, ingest_outcome_default, []).
Proof. unfold ingest_observations_recorded. cbn. by destruct c. Qed.
End once.

(** ** Batches *)

Section batches.
Context `{J : JsonApi} `{HI : HashIter} `{U : UuidApi}.

(** The store after an ingestion, and the observations it now holds. *)
Lemma ingest_recorded_table r os c :
  ing_table (ingest_observations_recorded r os c).1.1
  = add_rows (ingested_at r) (first_new (ing_table c) os) (ing_table c).
Proof.
  unfold ingest_observations_recorded, apply_observations. rewrite ingest_observations_spec.
  destruct (ingest_all _ _ (admit_first _ _ _ _) _) as [eng1 ts1].
  by destruct (ingest_all _ _ (admit_views _ _ _) _) as [eng2 ts2].
Qed.

Lemma ingest_recorded_frame r os c :
  ing_known (ingest_observations_recorded r os c).1.1 = ing_known c
  ∧ ing_providers (ingest_observations_recorded r os c).1.1 = ing_providers c
  ∧ (ingest_observations_recorded r os c).1.2
    = add_outcome ingest_outcome_default os (first_new (ing_table c) os).
Proof.
  unfold ingest_observations_recorded, apply_observations. rewrite ingest_observations_spec.
  destruct (ingest_all _ _ (admit_first _ _ _ _) _) as [eng1 ts1].
  by destruct (ingest_all _ _ (admit_views _ _ _) _) as [eng2 ts2].
Qed.

Lemma ingested_not_new r os c o : o ∈ os → ¬ is_new (ing_table (ingest_observations_recorded r os c).1.1) o.
Proof.
  intros Ho. rewrite ingest_recorded_table. unfold is_new. rewrite <- not_elem_of_dom.
  intros Hn. apply Hn. rewrite dom_add_rows, elem_of_union, elem_of_list_to_set, elem_of_dom.
  destruct (decide (is_new (ing_table c) o)) as [Hnew|Hold].
  - right. by apply first_new_covers.
  - left. unfold is_new in Hold. by destruct (ing_table c !! observation_id o).
Qed.

Lemma first_new_none t os : (∀ o, o ∈ os → ¬ is_new t o) → first_new t os = [].
Proof.
  induction os as [|o os IH]; intros Hno; [done|]. cbn [first_new].
  rewrite decide_False by (apply Hno; by left). apply IH. intros o' Ho'. apply Hno. by right.
Qed.

(** Offering only what the store holds changes nothing. *)
Lemma ingest_known_again r os c :
  (∀ o, o ∈ os → ¬ is_new (ing_table c) o) →
  ingest_observations_recorded r os c
  = (c, {| inserted := 0; duplicates := length os; inserted_ids := [] |}, []).
Proof.
  intros Hold. pose proof (ingest_only_new r os c) as Hn.
  assert (only_new c os = []) as Hno by (by apply filter_none).
  rewrite Hno, ingest_nothing in Hn.
  destruct (ingest_recorded_frame r os c) as (_ & _ & Hout).
  destruct (ingest_observations_recorded r os c) as [[c1 out] ts] eqn:He. cbn in Hout.
  destruct Hn as (-> & -> & _). rewrite Hout, (first_new_none (ing_table c) os) by done.
  unfold add_outcome. cbn. by rewrite Nat.sub_0_r.
Qed.

(** The entities an observation must be about for a batch to be stored. *)
Definition known_part (c : Ingestor) (b : list Observation) : list Observation :=
  filter (λ o, target_entity o ∈ ing_known c) b.

Lemma admit_batch_fst r b c :
  (admit_batch r b c).1 = (ingest_observations_recorded r (known_part c b) c).1.1.
Proof.
  unfold admit_batch, known_part.
  by destruct (ingest_observations_recorded r _ c) as [[c' out] ts].
Qed.

(** What was stored stays stored. *)
Lemma ingested_keeps r os c i row :
  ing_table c !! i = Some row → ing_table (ingest_observations_recorded r os c).1.1 !! i = Some row.
Proof.
  intros Hi. rewrite ingest_recorded_table. apply add_rows_keeps; [|done].
  apply Forall_forall. by intros o [_ ?]%elem_of_first_new.
Qed.

Lemma admit_batch_keeps r b c i row : ing_table c !! i = Some row → ing_table (admit_batch r b c).1 !! i = Some row.
Proof. rewrite admit_batch_fst. apply ingested_keeps. Qed.

Lemma admit_batch_stores r b c o :
  o ∈ b → target_entity o ∈ ing_known c → is_Some (ing_table (admit_batch r b c).1 !! observation_id o).
Proof.
  intros Ho Hk. rewrite admit_batch_fst.
  pose proof (ingested_not_new r (known_part c b) c o ltac:(by apply list_elem_of_filter)) as Hn.
  unfold is_new in Hn. by destruct (_ !! observation_id o).
Qed.

(** Who is rejected: the observations about unknown entities. *)
Lemma admit_batch_rejects r b c :
  map rejected_id (resp_rejected (admit_batch r b c).2)
  = map (λ o, uuid_to_string (observation_uuid (observation_id o))) (filter (λ o, target_entity o ∉ ing_known c) b).
Proof.
  unfold admit_batch. destruct (ingest_observations_recorded _ _ _) as [[c' out] ts].
  cbn [snd resp_rejected]. by rewrite map_map.
Qed.

Lemma batch_accounting r b c :
  let resp := (admit_batch r b c).2 in
  resp_accepted resp + resp_duplicates resp + length (resp_rejected resp) = length b.
Proof.
  unfold admit_batch. set (acc := filter (λ o, target_entity o ∈ ing_known c) b).
  pose proof (ingest_recorded_frame r acc c) as (_ & _ & Hout).
  destruct (ingest_observations_recorded r acc c) as [[c' out] ts]. cbn in Hout |- *. rewrite Hout. cbn.
  rewrite length_map. pose proof (length_first_new (ing_table c) acc).
  assert (length acc + length (filter (λ o, target_entity o ∉ ing_known c) b) = length b) as Hlen.
  { unfold acc. clear. induction b as [|o b IH]; [done|]. rewrite !filter_cons.
    destruct (decide (target_entity o ∈ ing_known c)) as [Hk|Hk].
    - rewrite decide_False by tauto. cbn [length]. lia.
    - rewrite decide_True by done. cbn [length]. lia. }
  lia.
Qed.
End batches.

(** ** Properties *)

(** Ingestion is exactly-once: delivering a batch, or any part of one,
    again changes neither the store nor the state engine, records no
    transition, and is answered with no new observation, every known one a
    duplicate, and the same ones turned down. *)
Theorem batch_redelivery `{JsonApi} `{HashIter} `{UuidApi} r r' b b' c :
  b' ⊆ b →
  let c1 := (admit_batch r b c).1 in
  (admit_batch r' b' c1).1 = c1
  ∧ resp_accepted (admit_batch r' b' c1).2 = 0
  ∧ resp_duplicates (admit_batch r' b' c1).2 = length (known_part c b')
  ∧ (ingest_observations_recorded r' (known_part c b') c1).2 = [].
Proof.
  intros Hsub c1.
  destruct (ingest_recorded_frame r (known_part c b) c) as (Hknown & _ & _).
  assert (ing_known c1 = ing_known c) as Hk by (unfold c1; by rewrite admit_batch_fst).
  assert (known_part c1 b' = known_part c b') as Hkp by (unfold known_part; by rewrite Hk).
  assert (∀ o, o ∈ known_part c b' → ¬ is_new (ing_table c1) o) as Hold.
  { intros o [Ho Hin]%list_elem_of_filter. unfold c1. rewrite admit_batch_fst.
    apply ingested_not_new. apply list_elem_of_filter. split; [done|]. by apply Hsub. }
  pose proof (ingest_known_again r' (known_part c b') c1 Hold) as Hag.
  unfold admit_batch. fold (known_part c1 b'). rewrite Hkp, Hag. cbn. done.
Qed.

(** Only what is new matters: a batch mixed with any number of
    observations the store already holds leaves the store and the state engine
    exactly as the new ones alone would, whatever their order. *)
Theorem batch_only_new `{JsonApi} `{HashIter} `{UuidApi} r b c :
  (admit_batch r b c).1 = (admit_batch r (only_new c b) c).1
  ∧ resp_accepted (admit_batch r b c).2 = resp_accepted (admit_batch r (only_new c b) c).2.
Proof.
  unfold admit_batch. fold (known_part c b) (known_part c (only_new c b)).
  assert (known_part c (only_new c b) = only_new c (known_part c b)) as ->.
  { unfold known_part, only_new. rewrite !list_filter_filter. apply list_filter_iff. tauto. }
  pose proof (ingest_only_new r (known_part c b) c) as Hn.
  destruct (ingest_observations_recorded r (known_part c b) c) as [[c1 out1] ts1].
  destruct (ingest_observations_recorded r (only_new c (known_part c b)) c) as [[c2 out2] ts2].
  by destruct Hn as (-> & _ & ?).
Qed.

(** Nothing is lost between the answer and the store: every observation
    of a batch is accepted, a duplicate or turned down; the ones about known
    entities are all in the store afterwards, and what the store held before
    is unchanged: the first report of an identifier wins. *)
Theorem batch_accounted `{JsonApi} `{HashIter} `{UuidApi} r b c :
  let '(c1, resp) := admit_batch r b c in
  resp_accepted resp + resp_duplicates resp + length (resp_rejected resp) = length b
  ∧ (∀ o, o ∈ b → target_entity o ∈ ing_known c → is_Some (ing_table c1 !! observation_id o))
  ∧ (∀ i row, ing_table c !! i = Some row → ing_table c1 !! i = Some row).
Proof.
  pose proof (batch_accounting r b c) as Hacc. pose proof (admit_batch_fst r b c) as Hfst.
  destruct (admit_batch r b c) as [c1 resp]. cbn in Hacc, Hfst. split; [done|]. subst c1. split.
  - intros o Ho Hk. pose proof (ingested_not_new r (known_part c b) c o) as Hn.
    destruct (ing_table _ !! observation_id o) eqn:Hl; [by eexists|].
    exfalso. apply Hn; [|done]. by apply list_elem_of_filter.
  - intros i row Hi. rewrite ingest_recorded_table. apply add_rows_keeps; [|done].
    apply Forall_forall. intros o [_ ?]%elem_of_first_new. done.
Qed.

(** ** Views and future timestamps *)

Section views.
Context `{J : JsonApi} `{HI : HashIter} `{U : UuidApi}.

Lemma elem_of_storage_views_from providers seen os v :
  v ∈ storage_views_from providers seen os →
  ∃ o, o ∈ os ∧ probe_id o ∈ SERVER_PROBES ∧ target_entity v ∈ default [] (providers !! target_entity o)
    ∧ v = with_target o (target_entity v).
Proof.
  revert seen. induction os as [|o os IH]; intros seen; cbn [storage_views_from]; [by intros ?%elem_of_nil|].
  case_decide as Hseen; [intros (o' & ? & ?)%IH; exists o'; split; [by right|done]|].
  intros [Hv|(o' & ? & ?)%IH]%elem_of_app; [|exists o'; split; [by right|done]].
  case_decide as Hp; [|by apply elem_of_nil in Hv].
  apply list_elem_of_fmap in Hv as (s & -> & Hs). exists o. split; [by left|]. done.
Qed.

(** The provider map lists, under a host, the storage domains that an edge of
    the graph says it provides. *)
Lemma storage_providers_sound inv h s :
  s ∈ default [] (storage_providers inv !! h) →
  ∃ e storage host, e ∈ graph_edges (inv_graph inv) ∧ dependency_type e = Provides
    ∧ get inv (edge_source e) = Some storage ∧ get inv (edge_target e) = Some host
    ∧ entity_kind storage = Entity_Storage ∧ entity_kind host = Entity_Host
    ∧ entity_eid storage = s ∧ entity_eid host = h.
Proof.
  unfold storage_providers. set (f := λ (m : gmap EntityId (list EntityId)) e, _).
  enough (∀ es m, es ⊆ graph_edges (inv_graph inv) →
    s ∈ default [] (foldl f m es !! h) → s ∈ default [] (m !! h) ∨ ∃ e storage host,
      e ∈ graph_edges (inv_graph inv) ∧ dependency_type e = Provides
      ∧ get inv (edge_source e) = Some storage ∧ get inv (edge_target e) = Some host
      ∧ entity_kind storage = Entity_Storage ∧ entity_kind host = Entity_Host
      ∧ entity_eid storage = s ∧ entity_eid host = h) as Hall.
  { intros Hs. destruct (Hall _ ∅ ltac:(done) Hs) as [Hn|?]; [|done].
    rewrite lookup_empty in Hn. by apply elem_of_nil in Hn. }
  induction es as [|e es IH]; intros m Hsub; [by left|]. cbn [foldl].
  intros [Hs|?]%IH; [|by right|set_solver].
  unfold f in Hs. destruct (decide (dependency_type e = Provides)) as [Hd|]; [|by left].
  destruct (get inv (edge_source e)) as [storage|] eqn:Hst; [|by left].
  destruct (get inv (edge_target e)) as [host|] eqn:Hho; [|by left].
  destruct (decide _) as [[Hks Hkh]|]; [|by left].
  destruct (decide (entity_eid host = h)) as [<-|Hne].
  - rewrite lookup_insert_eq in Hs. cbn in Hs. apply elem_of_app in Hs as [?|Hs]; [by left|].
    apply list_elem_of_singleton in Hs as ->. right. exists e, storage, host. split_and!; try done. set_solver.
  - rewrite lookup_insert_ne in Hs by done. by left.
Qed.

Lemma admit_first_none A v seen os :
  (∀ o, o ∈ os → not_future v o = false) → admit_first A v seen os = [].
Proof.
  revert seen. induction os as [|o os IH]; intros seen Hno; [done|]. cbn [admit_first].
  rewrite (Hno o) by (by left). rewrite andb_false_r. apply IH. intros o' Ho'. apply Hno. by right.
Qed.
End views.

(** Storage domains are shown only what is theirs: every view is a copy
    of a server-side storage observation of the batch, with nothing changed but
    its target, which is a storage entity that an edge of the inventory says
    the observed host provides. *)
Theorem storage_views_sound `{JsonApi} inv os v :
  v ∈ storage_views (storage_providers inv) os →
  ∃ o e storage host, o ∈ os ∧ probe_id o ∈ SERVER_PROBES ∧ v = with_target o (entity_eid storage)
    ∧ e ∈ graph_edges (inv_graph inv) ∧ dependency_type e = Provides
    ∧ get inv (edge_source e) = Some storage ∧ get inv (edge_target e) = Some host
    ∧ entity_kind storage = Entity_Storage ∧ entity_kind host = Entity_Host
    ∧ entity_eid host = target_entity o.
Proof.
  intros (o & Ho & Hp & Ht & Hv)%elem_of_storage_views_from.
  apply storage_providers_sound in Ht as (e & st & ho & He & Hd & Hst & Hho & Hk & Hk' & Hs & Hh).
  exists o, e, st, ho. by rewrite Hs.
Qed.

(** Clocks that run ahead cannot move state: observations dated more than
    the allowed skew into the future are stored, but neither they nor the
    storage views of them reach the state engine, and being duplicates from
    then on they never will. *)
Theorem future_stored_not_applied `{JsonApi} `{HashIter} `{UuidApi} r os c :
  (∀ o, o ∈ os → not_future (valid_at r) o = false) →
  let '(c1, _, ts) := ingest_observations_recorded r os c in
  ing_engine c1 = ing_engine c ∧ ts = []
  ∧ (∀ o, o ∈ os → is_Some (ing_table c1 !! observation_id o))
  ∧ ∀ r', (ingest_observations_recorded r' os c1).1.1 = c1.
Proof.
  intros Hno. pose proof (ingested_not_new r os c) as Hst.
  assert (∀ A, admit_views A (valid_at r) (storage_views (ing_providers c) os) = []) as Hviews.
  { intros A. apply filter_none. intros v (o & Ho & _ & _ & ->)%elem_of_storage_views_from.
    apply Hno in Ho. unfold not_future in *. cbn [with_target finished_at observation_id]. rewrite Ho.
    by rewrite andb_false_r. }
  destruct (ingest_observations_recorded r os c) as [[c1 out] ts] eqn:Hr. cbn in Hst.
  assert (∀ o, o ∈ os → ¬ is_new (ing_table c1) o) as Hold by (intros o; apply Hst).
  unfold ingest_observations_recorded, apply_observations in Hr. rewrite ingest_observations_spec in Hr.
  rewrite admit_first_none, Hviews in Hr by done. cbn in Hr. injection Hr as <- <- <-. split_and!; [done|done|..].
  - intros o Ho. apply Hold in Ho. unfold is_new in Ho. by destruct (_ !! observation_id o).
  - intros r'. by rewrite (ingest_known_again r' os) by done.
Qed.

(** *** A small controller *)

Section example.
Definition load_observation (n : N) (at_ : Timestamp) : Observation :=
  observation_new {| observation_uuid := n |} at_ PROBE_SERVER_PORT (sample_entity 7) Probe_Failed.

Definition small_ingestor : Ingestor :=
  {| ing_known := {[ sample_entity 7 ]}; ing_providers := ∅; ing_table := ∅; ing_engine := state_engine_new |}.

Definition sample_readings : Readings :=
  {| valid_at := 100; ingested_at := 100; engine_now := 100; fresh_id := λ _ _, 1%N |}.

Definition two_loads : list Observation := [load_observation 1 90; load_observation 2 95].

(** A host that provides one storage domain. *)
Definition view_host : ManagedEntity := managed_entity_new 0 "lab"%string Entity_Host "fs1"%string.
Definition view_storage : ManagedEntity := managed_entity_new 0 "lab"%string Entity_Storage "scratch"%string.

Definition view_inventory : Inventory :=
  insert_dependency (dependency_edge_new 0 (entity_eid view_storage) (entity_eid view_host) Provides)
    (insert_entity view_storage (insert_entity view_host inventory_new)).

Definition port_observation : Observation :=
  observation_new {| observation_uuid := 1 |} 90 PROBE_SERVER_PORT (entity_eid view_host) Probe_Failed.

Lemma view_of_port :
  with_target port_observation (entity_eid view_storage)
  ∈ storage_views (storage_providers view_inventory) [port_observation].
Proof. by_computation. Qed.
End example.

Lemma batch_redelivery_witness :
  [load_observation 2 95] ⊆ two_loads
  ∧ resp_accepted (admit_batch sample_readings [load_observation 2 95]
      (admit_batch sample_readings two_loads small_ingestor).1).2 = 0.
Proof.
  assert ([load_observation 2 95] ⊆ two_loads) as Hsub.
  { intros o ->%list_elem_of_singleton. by right; left. }
  split; [exact Hsub|].
  exact (proj1 (proj2 (batch_redelivery sample_readings sample_readings two_loads
    [load_observation 2 95] small_ingestor Hsub))).
Defined.

Lemma storage_views_sound_witness :
  ∃ o, o ∈ [port_observation] ∧ probe_id o ∈ SERVER_PROBES.
Proof.
  destruct (storage_views_sound view_inventory [port_observation] _ view_of_port)
    as (o & _ & _ & _ & Ho & Hp & _).
  by exists o.
Defined.

Lemma future_stored_not_applied_witness :
  ing_engine (ingest_observations_recorded sample_readings [load_observation 3 (seconds 200)] small_ingestor).1.1
  = state_engine_new.
Proof.
  pose proof (future_stored_not_applied sample_readings [load_observation 3 (seconds 200)] small_ingestor) as Hf.
  destruct (ingest_observations_recorded sample_readings [load_observation 3 (seconds 200)] small_ingestor)
    as [[c1 out] ts].
  apply Hf. intros o ->%list_elem_of_singleton. by vm_compute.
Defined.
