(* ===== verification/Delivery.v ===== *)
(** * Delivering observations

    The agent's side of the controller protocol: [src/agent/mod.rs]
    ([AgentStatus], [register], [heartbeat], [record], [flush]) and the errors
    of [src/agent/client.rs].  The HTTP exchange is outside the program: what
    comes back for a request is a function of the state of the world, which the
    exchange may change. *)

From S2P Require Export SpoolSpec Ingest.

Local Open Scope string_scope.

(** ** The client's errors *)

Inductive ClientError :=
  | Client_Unreachable (endpoint detail : string)
  | Client_Unauthorized
  | Client_ProtocolMismatch (detail : string)
  | Client_Rejected (http_status : N) (detail : string)
  | Client_Decode (detail : string)
  | Client_Configuration (detail : string).

(** [ClientError::is_transient]. *)
Definition is_transient (e : ClientError) : bool :=
  match e with
  | Client_Unreachable _ _ => true
  | Client_Rejected s _ => (500 <=? s)%N || (s =? 429)%N
  | _ => false
  end.

(** [format!("{e}")]. *)
Definition client_error_to_string (e : ClientError) : string :=
  match e with
  | Client_Unreachable endpoint detail => "cannot reach controller at " +:+ endpoint +:+ ": " +:+ detail
  | Client_Unauthorized => "controller rejected our credential"
  | Client_ProtocolMismatch detail => "controller refused our protocol version: " +:+ detail
  | Client_Rejected s detail => "controller returned " +:+ show_N s +:+ ": " +:+ detail
  | Client_Decode detail => "cannot decode controller response: " +:+ detail
  | Client_Configuration detail => "client configuration: " +:+ detail
  end.

(** The error branch of [ControllerClient::decode]: a status that is no
    success, and the body. *)
Definition refusal (http_status : N) (detail : string) : ClientError :=
  if (http_status =? 401)%N || (http_status =? 403)%N then Client_Unauthorized
  else if (http_status =? 400)%N && contains "protocol_version_mismatch" detail
  then Client_ProtocolMismatch detail
  else Client_Rejected http_status detail.

(** ** The agent *)

(** [MAX_BATCH]. *)
Definition MAX_BATCH : N := 500.

(** [AgentStatus]. *)
Record AgentStatus := {
  registered : bool;
  agent_id : option Uuid;
  session_id : option Uuid;
  spooled : N;
  clock_skew_ms : option Z;
  last_error : option string
}.

(** [AgentStatus::default()]. *)
Definition agent_status_default : AgentStatus :=
  {| registered := false; agent_id := None; session_id := None; spooled := 0;
     clock_skew_ms := None; last_error := None |}.

Definition set_registered (b : bool) (s : AgentStatus) : AgentStatus :=
  {| registered := b; agent_id := agent_id s; session_id := session_id s; spooled := spooled s;
     clock_skew_ms := clock_skew_ms s; last_error := last_error s |}.

Definition set_identity (a sess : Uuid) (s : AgentStatus) : AgentStatus :=
  {| registered := registered s; agent_id := Some a; session_id := Some sess; spooled := spooled s;
     clock_skew_ms := clock_skew_ms s; last_error := last_error s |}.

Definition set_spooled (n : N) (s : AgentStatus) : AgentStatus :=
  {| registered := registered s; agent_id := agent_id s; session_id := session_id s; spooled := n;
     clock_skew_ms := clock_skew_ms s; last_error := last_error s |}.

Definition set_skew (ms : Z) (s : AgentStatus) : AgentStatus :=
  {| registered := registered s; agent_id := agent_id s; session_id := session_id s; spooled := spooled s;
     clock_skew_ms := Some ms; last_error := last_error s |}.

Definition set_last_error (e : option string) (s : AgentStatus) : AgentStatus :=
  {| registered := registered s; agent_id := agent_id s; session_id := session_id s; spooled := spooled s;
     clock_skew_ms := clock_skew_ms s; last_error := e |}.

(** What the agent reads of a [RegisterResponse] and a [HeartbeatResponse]. *)
Record RegisterReply := { reply_agent : Uuid; reply_session : Uuid }.
Record HeartbeatReply := { reply_skew_ms : Z; reply_reregister : bool }.

(** [Agent::register], on the client's answer. *)
Definition agent_register (answer : ClientError + RegisterReply) (s : AgentStatus) :
    AgentStatus * (ClientError + unit) :=
  match answer with
  | inr r => (set_last_error None (set_identity (reply_agent r) (reply_session r) (set_registered true s)), inr tt)
  | inl e => (set_last_error (Some (client_error_to_string e)) (set_registered false s), inl e)
  end.

(** [Agent::heartbeat]: [register] is the answer a registration gets, should
    the agent have to register. *)
Definition agent_heartbeat (answer : ClientError + HeartbeatReply) (register : ClientError + RegisterReply)
    (s : AgentStatus) : AgentStatus * (ClientError + unit) :=
  match agent_id s, session_id s with
  | Some _, Some _ =>
      match answer with
      | inr r =>
          let s' := set_last_error None (set_skew (reply_skew_ms r) s) in
          if reply_reregister r then agent_register register s' else (s', inr tt)
      | inl e =>
          let s' := set_last_error (Some (client_error_to_string e)) s in
          (if is_transient e then s' else set_registered false s', inl e)
      end
  | _, _ => agent_register register s
  end.

Section flush.
Context `{J : JsonApi} `{U : UuidApi} `{T : TimeApi} `{C : ChronoApi} `{OC : !ObservationCodec}.
(** The world, and what sending a batch does to it and answers. *)
Context {W : Type} (send : list Observation → W → W * (ClientError + BatchResponse)).

(** The observations of a batch the response does not reject. *)
Definition confirmed (batch : list Observation) (r : BatchResponse) : list string :=
  map observation_id_text
    (filter (λ o, observation_id_text o ∉ map rejected_id (resp_rejected r)) batch).

(** The variables of the loop of [flush]. *)
Record FlushState := {
  fl_world : W;
  fl_spool : gmap string SpoolRow;
  fl_status : AgentStatus;
  fl_delivered : nat
}.

(** One turn: the state after it, and whether the loop goes on; a spool that
    cannot be read ends it with an error. *)
Definition flush_turn (s : FlushState) : FlushState * (StoreError + bool) :=
  match peek MAX_BATCH (fl_spool s) with
  | inl e => (s, inl e)
  | inr [] => (s, inr false)
  | inr batch =>
      let '(w', answer) := send batch (fl_world s) in
      match answer with
      | inr r =>
          ({| fl_world := w';
              fl_spool := (acknowledge (confirmed batch r) (fl_spool s)).1;
              fl_status := set_last_error None (fl_status s);
              fl_delivered := fl_delivered s + resp_accepted r |},
           inr (match resp_rejected r with [] => true | _ => false end))
      | inl e =>
          ({| fl_world := w'; fl_spool := fl_spool s;
              fl_status := set_last_error (Some (client_error_to_string e)) (fl_status s);
              fl_delivered := fl_delivered s |}, inr false)
      end
  end.

(** The loop: every turn that goes on has acknowledged a whole batch. *)
Fixpoint flush_loop (fuel : nat) (s : FlushState) : loop_result (FlushState * option StoreError) :=
  match flush_turn s with
  | (s', inl e) => Finished (s', Some e)
  | (s', inr false) => Finished (s', None)
  | (s', inr true) =>
      match fuel with
      | O => OutOfFuel
      | S f => flush_loop f s'
      end
  end.

Definition restart (s : FlushState) : FlushState :=
  {| fl_world := fl_world s; fl_spool := fl_spool s; fl_status := fl_status s; fl_delivered := 0 |}.

(** [Agent::flush]. *)
Definition flush (s : FlushState) : option (FlushState * (StoreError + nat)) :=
  match agent_id (fl_status s), session_id (fl_status s) with
  | Some _, Some _ =>
      match flush_loop (size (fl_spool s)) (restart s) with
      | Finished (s', Some e) => Some (s', inl e)
      | Finished (s', None) =>
          Some ({| fl_world := fl_world s'; fl_spool := fl_spool s';
                   fl_status := set_spooled (spool_len (fl_spool s')) (fl_status s');
                   fl_delivered := fl_delivered s' |}, inr (fl_delivered s'))
      | _ => None
      end
  | _, _ =>
      Some ({| fl_world := fl_world s; fl_spool := fl_spool s;
               fl_status := set_spooled (spool_len (fl_spool s)) (fl_status s);
               fl_delivered := 0 |}, inr 0)
  end.

(** [Agent::record]: into the spool first, then a flush. *)
Definition record_observations (limits : SpoolLimits) (now : Timestamp) (os : list Observation) (s : FlushState) :
    option (FlushState * (StoreError + nat)) :=
  let '(t', pushed) := push limits now os (fl_spool s) in
  let s' := {| fl_world := fl_world s; fl_spool := t'; fl_status := fl_status s; fl_delivered := 0 |} in
  match pushed with
  | Success _ => flush s'
  | Failure e => Some (s', inl e)
  | Panic => None
  end.
End flush.

Arguments FlushState W : clear implicits.

(** ** A network between the agent and the controller *)

(** What becomes of one request: it arrives and is answered, it is lost, or it
    arrives and the answer is lost. *)
Inductive Fate := Arrives | RequestLost | ReplyLost.

Definition unreachable : ClientError := Client_Unreachable "controller" "no answer".
