(* ===== verification/DeliverySpec.v ===== *)
(** * Delivery: what a flush does whatever answers it

    What a peek reads, that the loop ends, and what it preserves.  What comes of
    delivering to the controller itself is said in [Delivered]. *)

From S2P Require Import Concrete.
From S2P Require Export Delivery IngestSpec.

(** ** One turn *)

Section turn.
Context `{J : JsonApi} `{U : UuidApi} `{T : TimeApi} `{C : ChronoApi} `{OC : !ObservationCodec}.

(** The observations a peek reads, each from its row. *)
Definition read_from (t : gmap string SpoolRow) (o : Observation) : Prop :=
  ∃ r, t !! observation_id_text o = Some r ∧ decode_observation (row_payload r) = inr o.

Lemma peek_reads n t :
  spool_ok t →
  ∃ os, peek n t = inr os
    ∧ map observation_id_text os = map fst (take (N.to_nat n) (replay_order t))
    ∧ Forall (read_from t) os.
Proof.
  intros Hok. destruct (decode_rows_ok (take (N.to_nat n) (replay_order t))) as (os & Hos & Hids & Hall).
  { by apply Forall_take, replay_rows_ok. }
  exists os. split_and!; [done|done|].
  assert (∀ e, e ∈ take (N.to_nat n) (replay_order t) → t !! e.1 = Some e.2) as Hrow.
  { intros [i r] He. apply subseteq_take in He. by apply elem_of_replay_order in He. }
  clear Hos. revert os Hids Hall. induction (take (N.to_nat n) (replay_order t)) as [|e l IH];
    intros [|o os] Hids Hall; try done. injection Hids as Hid Hids.
  apply Forall2_cons in Hall as [Hd Hall]. constructor.
  - exists e.2. rewrite Hid. split; [apply Hrow; by left|done].
  - apply IH; [|done|done]. intros e' He'. apply Hrow. by right.
Qed.

Lemma peek_nil n t :
  spool_ok t → (0 < n)%N → peek n t = inr [] → t = ∅.
Proof.
  intros Hok Hn. destruct (peek_ok n t Hok) as (os & -> & Hids). intros [= ->]. cbn in Hids.
  apply (f_equal length) in Hids. rewrite length_map, length_take, length_replay_order in Hids.
  cbn in Hids. apply map_size_empty_inv. lia.
Qed.

(** A batch confirmed whole leaves the rest of the replay order. *)
Lemma confirmed_all batch r : resp_rejected r = [] → confirmed batch r = map observation_id_text batch.
Proof.
  intros Hr. unfold confirmed. rewrite Hr. f_equal. apply filter_all. intros o _. cbn. apply not_elem_of_nil.
Qed.

Lemma acknowledge_peeked n t :
  replay_order (acknowledge (map fst (take (N.to_nat n) (replay_order t))) t).1
  = drop (N.to_nat n) (replay_order t).
Proof. by rewrite acknowledge_fst, replay_order_acknowledge. Qed.

Context {W : Type} (send : list Observation → W → W * (ClientError + BatchResponse)).
Implicit Types s : FlushState W.

Lemma flush_turn_spool s :
  spool_ok (fl_spool s) →
  ∃ s' go, flush_turn send s = (s', inr go) ∧ spool_ok (fl_spool s')
    ∧ (go = true → size (fl_spool s') < size (fl_spool s)).
Proof.
  intros Hok. unfold flush_turn. destruct (peek_reads MAX_BATCH (fl_spool s) Hok) as (os & -> & Hids & _).
  destruct os as [|o os]; [by exists s, false|]. destruct (send (o :: os) (fl_world s)) as [w' [e|r]].
  - by eexists _, false.
  - eexists _, _. split; [done|]. cbn [fl_spool]. split.
    + rewrite acknowledge_fst. by apply spool_ok_filter.
    + destruct (resp_rejected r) eqn:Hr; [intros _|done]. rewrite confirmed_all by done. rewrite Hids.
      rewrite <- !length_replay_order, acknowledge_peeked, length_skipn.
      apply (f_equal length) in Hids. rewrite !length_map, length_take in Hids. cbn [length] in Hids. lia.
Qed.

(** The rows bound the turns. *)
Lemma flush_loop_ends fuel s :
  spool_ok (fl_spool s) → size (fl_spool s) ≤ fuel →
  ∃ s', flush_loop send fuel s = Finished (s', None) ∧ spool_ok (fl_spool s').
Proof.
  revert s. induction fuel as [|fuel IH]; intros s Hok Hf;
    destruct (flush_turn_spool s Hok) as (s' & go & Ht & Hok' & Hgo); cbn [flush_loop]; rewrite Ht;
    destruct go; try by exists s'.
  - specialize (Hgo eq_refl). lia.
  - specialize (Hgo eq_refl). apply IH; [done|lia].
Qed.

(** A flush of a well-formed spool completes. *)
Lemma flush_completes s :
  spool_ok (fl_spool s) → ∃ s' n, flush send s = Some (s', inr n) ∧ spool_ok (fl_spool s').
Proof.
  intros Hok. unfold flush. destruct (agent_id (fl_status s)); [|by eexists _, _].
  destruct (session_id (fl_status s)); [|by eexists _, _].
  destruct (flush_loop_ends (size (fl_spool s)) (restart s) Hok ltac:(done)) as (s' & -> & Hok').
  by eexists _, _.
Qed.

(** Whatever a turn preserves holds at the end of the loop. *)
Lemma flush_loop_invariant (P : FlushState W → Prop) fuel s s' e :
  (∀ s1 s2 res, P s1 → flush_turn send s1 = (s2, res) → P s2) →
  P s → flush_loop send fuel s = Finished (s', e) → P s'.
Proof.
  intros Hturn. revert s. induction fuel as [|fuel IH]; intros s HP; cbn [flush_loop];
    destruct (flush_turn send s) as [s1 [e1|[|]]] eqn:Ht; try done.
  1, 2, 3, 5: intros [= <- _]; by apply (Hturn s s1 _ HP Ht).
  apply IH. by apply (Hturn s s1 _ HP Ht).
Qed.
End turn.

(** ** Properties *)

(** C18.  Flushing always ends, whatever the controller answers: the loop takes
    at most one turn per spooled row and one more, and it never fails on a
    well-formed spool, which it leaves well formed. *)
Theorem flush_terminates `{JsonApi} `{UuidApi} `{TimeApi} `{ChronoApi} `{!ObservationCodec} {W}
    (send : list Observation → W → W * (ClientError + BatchResponse)) s :
  spool_ok (fl_spool s) →
  ∃ s' n, flush send s = Some (s', inr n) ∧ spool_ok (fl_spool s').
Proof.
  apply flush_completes.
Qed.

(** *** An agent with one observation to deliver *)

Section example.
#[local] Existing Instance sample_codec.

Definition spooled_failure : SpoolRow := row_of (sample_observation 2 Probe_Failed) "1".

Definition one_spooled : gmap string SpoolRow := {[ "2"%string := spooled_failure ]}.

Lemma spooled_failure_decodes :
  decode_observation (row_payload spooled_failure) = inr (sample_observation 2 Probe_Failed).
Proof. apply (SpoolSpec.decode_encode (CodecLaws := sample_codec_laws)). by vm_compute. Qed.

Lemma one_spooled_ok : spool_ok one_spooled.
Proof.
  intros i r. unfold one_spooled. intros [<- <-]%lookup_singleton_Some. exists (sample_observation 2 Probe_Failed).
  split_and!; [apply spooled_failure_decodes|done..].
Qed.

Definition registered_status : AgentStatus := set_identity 1 2 agent_status_default.

(** A world that takes whatever it is sent. *)
Definition takes_everything (os : list Observation) (w : unit) : unit * (ClientError + BatchResponse) :=
  (w, inr {| resp_accepted := length os; resp_duplicates := 0; resp_rejected := [] |}).

Definition undelivered : FlushState unit :=
  {| fl_world := tt; fl_spool := one_spooled; fl_status := registered_status; fl_delivered := 0 |}.

Lemma one_spooled_known i row o :
  one_spooled !! i = Some row → decode_observation (row_payload row) = inr o →
  o = sample_observation 2 Probe_Failed.
Proof.
  unfold one_spooled. intros [_ <-]%lookup_singleton_Some. rewrite spooled_failure_decodes. by intros [= <-].
Qed.

Lemma flush_terminates_witness :
  spool_ok one_spooled ∧
  ∃ s' n, flush takes_everything undelivered = Some (s', inr n) ∧ spool_ok (fl_spool s').
Proof. split; [apply one_spooled_ok|apply flush_terminates, one_spooled_ok]. Defined.
End example.
