(* ===== verification/Agents.v ===== *)
(** * Agent sessions

    [src/controller/agents.rs]: the registry that tells a restart, a reconnect
    and a reboot apart, and its end of the heartbeat
    ([src/controller/api.rs]).  The random session identifiers and the clock
    are arguments. *)

From S2P Require Import Concrete.
From S2P Require Export Delivery.

Local Open Scope string_scope.

Definition AGENT_NAMESPACE : Uuid := 0x2b91c4a788f35d619c047ae35bd12f88%N.

(** [AgentSession]. *)
Record AgentSession := mk_session {
  sess_agent_id : Uuid;
  sess_id : Uuid;
  sess_entity : EntityId;
  sess_version : string;
  sess_boot_id : option string;
  sess_started_at : Timestamp;
  sess_last_seen : Timestamp
}.

#[export] Instance AgentSession_eq_dec : EqDecision AgentSession.
Proof. solve_decision. Defined.

(** [HeartbeatOutcome]. *)
Record HeartbeatOutcome := mk_heartbeat { out_reregister : bool; out_revision : N }.

Inductive RegistrationKind := Reg_New | Reg_AgentRestart | Reg_HostRebooted.

(** [AgentRegistry]. *)
Record AgentRegistry := mk_registry { sessions : gmap Uuid AgentSession; assignment_revision : N }.

(** [AgentRegistry::new]. *)
Definition registry_new : AgentRegistry := mk_registry ∅ 0.

(** [HeartbeatRequest] ([src/protocol/mod.rs]), its clock and its counter
    apart. *)
Record HeartbeatRequest := mk_beat { beat_agent : Uuid; beat_session : Uuid; beat_boot_id : option string }.

Section agents.
Context `{J : JsonApi} `{U : UuidApi}.

(** [RegisterRequest] ([src/protocol/mod.rs]). *)
Record RegisterRequest := mk_register {
  req_protocol_version : N;
  req_version : string;
  req_environment : string;
  req_hostname : string;
  req_fqdn : option string;
  req_boot_id : option string;
  req_addresses : list string;
  req_ports : gmap string N;
  req_capabilities : CapabilitySet;
  req_hardware : json;
  req_roles : list string
}.

(** [AgentRegistry::agent_id_for]. *)
Definition agent_id_for (environment hostname : string) : Uuid :=
  uuid_new_v5 AGENT_NAMESPACE (environment +:+ unit_separator +:+ hostname).

Definition request_agent (q : RegisterRequest) : Uuid :=
  agent_id_for (req_environment q) (req_hostname q).

(** [AgentRegistry::register]. *)
Definition registry_register (session : Uuid) (now : Timestamp) (q : RegisterRequest) (entity : EntityId)
    (r : AgentRegistry) : AgentRegistry * AgentSession :=
  let s := mk_session (request_agent q) session entity (req_version q) (req_boot_id q) now now in
  (mk_registry (<[ request_agent q := s ]> (sessions r)) (assignment_revision r), s).

(** [AgentRegistry::classify]. *)
Definition classify_registration (q : RegisterRequest) (r : AgentRegistry) : RegistrationKind :=
  match sessions r !! request_agent q with
  | None => Reg_New
  | Some existing =>
      match sess_boot_id existing, req_boot_id q with
      | Some before, Some after => if decide (before ≠ after) then Reg_HostRebooted else Reg_AgentRestart
      | _, _ => Reg_AgentRestart
      end
  end.

Definition see_session (at_ : Timestamp) (s : AgentSession) : AgentSession :=
  mk_session (sess_agent_id s) (sess_id s) (sess_entity s) (sess_version s) (sess_boot_id s) (sess_started_at s) at_.

(** [AgentRegistry::heartbeat]. *)
Definition registry_heartbeat (q : HeartbeatRequest) (at_ : Timestamp) (r : AgentRegistry) :
    AgentRegistry * HeartbeatOutcome :=
  match sessions r !! beat_agent q with
  | Some s =>
      if decide (sess_id s = beat_session q)
      then (mk_registry (<[ beat_agent q := see_session at_ s ]> (sessions r)) (assignment_revision r),
            mk_heartbeat false (assignment_revision r))
      else (r, mk_heartbeat true (assignment_revision r))
  | None => (r, mk_heartbeat true (assignment_revision r))
  end.

(** [AgentRegistry::touch]. *)
Definition registry_touch (agent : Uuid) (at_ : Timestamp) (r : AgentRegistry) : AgentRegistry :=
  match sessions r !! agent with
  | Some s => mk_registry (<[ agent := see_session at_ s ]> (sessions r)) (assignment_revision r)
  | None => r
  end.

(** [AgentRegistry::get], [len], [stale_since]. *)
Definition registry_get (agent : Uuid) (r : AgentRegistry) : option AgentSession := sessions r !! agent.
Definition registry_len (r : AgentRegistry) : nat := size (sessions r).

Definition stale_since `{HashIter} (cutoff : Timestamp) (r : AgentRegistry) : list AgentSession :=
  filter (λ s, (sess_last_seen s < cutoff)%Z) (hash_values (sessions r)).

(** [AgentRegistry::bump_assignment_revision]. *)
Definition bump_assignment_revision (r : AgentRegistry) : AgentRegistry * N :=
  let r' := mk_registry (sessions r) (assignment_revision r + 1) in (r', assignment_revision r').

(** [num_milliseconds] of a signed duration: toward zero. *)
Definition num_milliseconds (d : Duration) : Z := Z.quot d 1000000.

(** The [heartbeat] and [register] handlers, past authentication and the
    version check, seen from the agent: what it is answered. *)
Definition handle_heartbeat (q : HeartbeatRequest) (agent_time server_time : Timestamp) (r : AgentRegistry) :
    AgentRegistry * HeartbeatReply :=
  let '(r', out) := registry_heartbeat q server_time r in
  (r', {| reply_skew_ms := num_milliseconds (agent_time - server_time); reply_reregister := out_reregister out |}).

Definition handle_register (session : Uuid) (now : Timestamp) (q : RegisterRequest) (entity : EntityId)
    (r : AgentRegistry) : AgentRegistry * RegisterReply :=
  let '(r', s) := registry_register session now q entity r in
  (r', {| reply_agent := sess_agent_id s; reply_session := sess_id s |}).

(** One heartbeat of an agent answered by the registry: the registration is
    carried out only when the agent asks for one. *)
Definition heartbeat_round (session : Uuid) (agent_time server_time : Timestamp) (q : RegisterRequest)
    (entity : EntityId) (s : AgentStatus) (r : AgentRegistry) : AgentStatus * AgentRegistry :=
  let registering (r : AgentRegistry) := handle_register session server_time q entity r in
  match agent_id s, session_id s with
  | Some a, Some sess =>
      let '(r1, reply) := handle_heartbeat (mk_beat a sess (req_boot_id q)) agent_time server_time r in
      if reply_reregister reply
      then let '(r2, registered) := registering r1 in
           ((agent_heartbeat (inr reply) (inr registered) s).1, r2)
      else ((agent_heartbeat (inr reply) (inl unreachable) s).1, r1)
  | _, _ =>
      let '(r1, registered) := registering r in
      ((agent_heartbeat (inl unreachable) (inr registered) s).1, r1)
  end.

(** ** Facts *)

(** The session the agent uses is the one the registry has. *)
Definition in_session (s : AgentStatus) (r : AgentRegistry) : Prop :=
  ∃ a sess session, agent_id s = Some a ∧ session_id s = Some sess
    ∧ sessions r !! a = Some session ∧ sess_id session = sess.

Ltac registered_session := do 3 eexists; split_and!; [done|done|cbn; apply lookup_insert_eq|done].

(** An agent and a controller that can talk agree again after one
    heartbeat: whatever each remembered (a controller that restarted and lost
    its sessions, an agent with an old session or none), afterwards the agent
    is registered under the session the registry holds, and the heartbeat
    after that is accepted without another registration. *)
Theorem heartbeat_converges session session' t1 t2 t3 t4 q entity (s : AgentStatus) (r : AgentRegistry) :
  let '(s1, r1) := heartbeat_round session t1 t2 q entity s r in
  in_session s1 r1 ∧ last_error s1 = None
  ∧ let '(s2, r2) := heartbeat_round session' t3 t4 q entity s1 r1 in
    agent_id s2 = agent_id s1 ∧ session_id s2 = session_id s1 ∧ in_session s2 r2
    ∧ clock_skew_ms s2 = Some (num_milliseconds (t3 - t4)).
Proof.
  assert (∀ s r, let '(s1, r1) := heartbeat_round session t1 t2 q entity s r in
    in_session s1 r1 ∧ last_error s1 = None) as Hone.
  { clear s r. intros s r. unfold heartbeat_round.
    destruct (agent_id s) as [a|] eqn:Ha; unfold agent_heartbeat; rewrite Ha;
      [|split; [registered_session|done]].
    destruct (session_id s) as [sess|] eqn:Hs; [|split; [registered_session|done]].
    unfold handle_heartbeat, registry_heartbeat. cbn [beat_agent beat_session].
    destruct (sessions r !! a) as [session0|] eqn:Hr; [case_decide as Hsame|]; cbn [reply_reregister out_reregister];
      [|split; [registered_session|done]..].
    split; [|done]. exists a, sess. eexists. split_and!; [done|done|apply lookup_insert_eq|done]. }
  specialize (Hone s r). destruct (heartbeat_round session t1 t2 q entity s r) as [s1 r1].
  destruct Hone as [Hin Herr]. split; [done|]. split; [done|].
  destruct Hin as (a & sess & session0 & Ha & Hs & Hr & Hid).
  unfold heartbeat_round. rewrite Ha, Hs. unfold handle_heartbeat, registry_heartbeat. cbn [beat_agent beat_session].
  rewrite Hr, decide_True by done. cbn [reply_reregister out_reregister]. unfold agent_heartbeat. rewrite Ha, Hs. cbn.
  split_and!; [done|done| |done]. exists a, sess. eexists. split_and!; [done|done|apply lookup_insert_eq|done].
Qed.

(** A reboot is reported when, and only when, it is known: the host has
    registered before, and both that registration and this one carried a boot
    identifier, and they differ; an agent that cannot read its boot identifier
    only ever restarts. *)
Theorem reboot_iff_boot_id_changed (q : RegisterRequest) (r : AgentRegistry) :
  (classify_registration q r = Reg_New ↔ sessions r !! request_agent q = None)
  ∧ (classify_registration q r = Reg_HostRebooted ↔
       ∃ s before after, sessions r !! request_agent q = Some s ∧ sess_boot_id s = Some before
         ∧ req_boot_id q = Some after ∧ before ≠ after).
Proof.
  unfold classify_registration. destruct (sessions r !! request_agent q) as [s|] eqn:Hs.
  - destruct (sess_boot_id s) as [before|] eqn:Hb, (req_boot_id q) as [after|] eqn:Ha; try case_decide;
      (split; [done|]); (split; [try done|]); try (intros (? & ? & ? & [= <-] & ? & ? & ?); congruence).
    intros _. by exists s, before, after.
  - split; [done|]. split; [done|]. by intros (? & ? & ? & ? & _).
Qed.

(** Outside its own tests nothing advances the registry's revision: no handler
    does, so the revision in a heartbeat's answer never changes. *)
Lemma handlers_keep_revision session t1 t2 q entity s r :
  assignment_revision (heartbeat_round session t1 t2 q entity s r).2 = assignment_revision r.
Proof.
  unfold heartbeat_round, handle_heartbeat, registry_heartbeat.
  destruct (agent_id s) as [a|]; [|done]. destruct (session_id s) as [sess|]; [|done].
  cbn [beat_agent beat_session]. destruct (sessions r !! a); [case_decide|]; done.
Qed.

(** The boot identifier of a heartbeat, sent so that a reboot is visible even
    if a registration was missed, is not looked at. *)
Lemma heartbeat_ignores_boot_id a sess boot boot' at_ r :
  registry_heartbeat (mk_beat a sess boot) at_ r = registry_heartbeat (mk_beat a sess boot') at_ r.
Proof. done. Qed.
End agents.
