(* ===== verification/Registration.v ===== *)
(** * Registering an agent

    [src/controller/registration.rs], the part of [src/controller/discovery.rs]
    that takes a snapshot in, and the probes [src/controller/mod.rs] declares:
    what a registration says about a host, how it reaches the inventory and the
    engine, and when it shows that the host has rebooted.  [Controller] saves the
    engine after it and has the refusals of the schema. *)

From S2P Require Export Agents Store SlurmView Ingest.

Local Open Scope string_scope.

(** ** The built-in probes *)

Definition PROBE_SSH : string := "ssh.service".
Definition PROBE_RPC : string := "sentinel.agent".
Definition PROBE_SYSTEMD : string := "systemd.unit".
Definition PROBE_HOST : string := "host.metrics".
Definition PROBE_GPU : string := "gpu.nvidia".
Definition PROBE_JOURNAL : string := "journal.events".

(** [storage_probe_ids]. *)
Definition storage_probe_ids : list string :=
  [PROBE_CLIENT_MOUNT; PROBE_CLIENT_IO; PROBE_SERVER_PORT; PROBE_SERVER_EXPORTS].

(** [well_known::GPU_NVIDIA]. *)
Definition GPU_NVIDIA : Capability := "gpu.nvidia".

Definition policy_of (warning critical recovery : N) : DebouncePolicy :=
  {| warning_threshold := warning; critical_threshold := critical; recovery_threshold := recovery |}.

(** [register_builtin_probes]. *)
Definition register_builtin_probes `{JsonApi} (eng : StateEngine) : StateEngine :=
  let eng := register PROBE_NODE (probe_mapping_immediate Component_Scheduler) eng in
  let eng := register PROBE_CONTROLLER (probe_mapping_immediate Component_Service) eng in
  let eng := register NETWORK_PROBE (probe_mapping_new Component_Network) eng in
  let eng := register PROBE_SSH (probe_mapping_new Component_Ssh) eng in
  let eng := register PROBE_RPC (probe_mapping_new Component_Agent) eng in
  let eng := register PROBE_SYSTEMD (probe_mapping_new Component_Service) eng in
  let eng := register PROBE_HOST (mapping_with_policy (probe_mapping_new Component_Host) (policy_of 3 5 2)) eng in
  let eng := foldl (λ eng probe, register probe (probe_mapping_new Component_Storage) eng) eng storage_probe_ids in
  let eng := register PROBE_GPU (probe_mapping_new Component_Accelerator) eng in
  let eng := register PROBE_JOURNAL (mapping_with_policy (probe_mapping_new Component_Host) (policy_of 2 6 2)) eng in
  register PROBE_BOOT (mapping_informational (probe_mapping_immediate Component_Host)) eng.

Section registration.
Context `{J : JsonApi} `{U : UuidApi} `{HI : HashIter}.

(** ** What a registration says *)

Definition add_capability (c : Capability) (e : ManagedEntity) : ManagedEntity :=
  with_capabilities e ({[ c ]} ∪ entity_capabilities e).

(** The metadata of a registered host. *)
Definition registration_metadata (q : RegisterRequest) : json :=
  json_object [
    ("agent", json_object [
       ("version", json_of_str (req_version q));
       ("protocol_version", json_of_u64 (req_protocol_version q));
       ("gpu_nvidia_monitoring", json_of_bool (bool_decide (GPU_NVIDIA ∈ req_capabilities q)))]);
    ("host", json_object [
       ("fqdn", json_opt_str (req_fqdn q));
       ("boot_id", json_opt_str (req_boot_id q));
       ("addresses", json_strings (req_addresses q))]);
    ("ports", json_of_object (json_of_u64 <$> req_ports q));
    ("hardware", req_hardware q)].

(** The host a registration describes. *)
Definition registered_host (now : Timestamp) (q : RegisterRequest) : ManagedEntity :=
  let e := managed_entity_new now (req_environment q) Entity_Host (req_hostname q) in
  let e := foldl (λ e c, add_capability c e) e (btree_elements (req_capabilities q)) in
  let e := add_capability SENTINEL_AGENT e in
  let e := foldl (λ e role, with_label e ("role." +:+ role) "true") e (req_roles q) in
  with_metadata (registration_metadata q) e.

(** [snapshot_from_registration]. *)
Definition snapshot_from_registration (now : Timestamp) (q : RegisterRequest) : InventorySnapshot :=
  add_entity (snapshot_new AgentRegistration) (registered_host now q).

(** ** Taking a snapshot in *)

(** The part of the controller a registration reads and writes. *)
Record Registrar := mk_registrar {
  reg_environment : string;
  reg_tables : InventoryTables;
  reg_providers : gmap EntityId (list EntityId);
  reg_observations : gmap ObservationId ObservationRow;
  reg_engine : StateEngine
}.

Definition set_tables (t : InventoryTables) (c : Registrar) : Registrar :=
  mk_registrar (reg_environment c) t (reg_providers c) (reg_observations c) (reg_engine c).

(** The ingestion of observations sees the entities of the environment as
    known. *)
Definition known_entities (environment : string) (t : InventoryTables) : gset EntityId :=
  list_to_set (map fst (entity_rows environment t)).

Definition ingestor_of (c : Registrar) : Ingestor :=
  {| ing_known := known_entities (reg_environment c) (reg_tables c); ing_providers := reg_providers c;
     ing_table := reg_observations c; ing_engine := reg_engine c |}.

(** [configure_gpu_monitoring]. *)
Definition configure_gpu_monitoring (now : Timestamp) (fresh : EntityId → StateComponent → Uuid)
    (eng : StateEngine) (e : ManagedEntity) : StateEngine * option StateTransition :=
  if bool_decide (entity_kind e ≠ Entity_Host) || bool_decide (AgentRegistration ∉ discovery_sources e)
  then (eng, None)
  else
    let stated := agent ← json_get (entity_metadata e) "agent";
                  flag ← json_get agent "gpu_nvidia_monitoring";
                  json_as_bool flag in
    let enabled := default (bool_decide (GPU_NVIDIA ∈ entity_capabilities e)) stated in
    set_probe_enabled now fresh (entity_eid e) PROBE_GPU enabled eng.

(** The loop over the entities of the snapshot. *)
Definition configure_all (now : Timestamp) (fresh : EntityId → StateComponent → Uuid) (es : list ManagedEntity)
    (eng : StateEngine) : StateEngine * list StateTransition :=
  foldl (λ st e, let '(eng, ts) := st in
                 let '(eng', t) := configure_gpu_monitoring now fresh eng e in
                 (eng', ts ++ option_list t)%list) (eng, []) es.

(** [reconcile_snapshot_capabilities]: each entity in a transaction of its
    own, so an error keeps those before it. *)
Fixpoint reconcile_entities (source : DiscoverySource) (es : list ManagedEntity) (t : InventoryTables) :
    InventoryTables * (StoreError + unit) :=
  match es with
  | [] => (t, inr tt)
  | e :: rest =>
      match reconcile_capabilities (entity_eid e) source (entity_capabilities e) t with
      | inl err => (t, inl err)
      | inr (t', _) => reconcile_entities source rest t'
      end
  end.

Definition reconcile_snapshot_capabilities (s : InventorySnapshot) (t : InventoryTables) :
    InventoryTables * (StoreError + unit) :=
  match snapshot_source s with
  | None => (t, inr tt)
  | Some source => reconcile_entities source (snapshot_entities s) t
  end.

(** [Controller::ingest_snapshot]; the merge always ends. *)
Definition ingest_snapshot (now : Timestamp) (fresh : EntityId → StateComponent → Uuid) (s : InventorySnapshot)
    (c : Registrar) : Registrar * outcome Inventory :=
  match load_inventory (reg_environment c) (reg_tables c) with
  | inl err => (c, Failure err)
  | inr inv =>
      match merge now inv s with
      | Finished (inv', _) =>
          match save_inventory inv' (reg_tables c) with
          | inl err => (c, Failure err)
          | inr t1 =>
              match reconcile_snapshot_capabilities s t1 with
              | (t2, inl err) => (set_tables t2 c, Failure err)
              | (t2, inr _) =>
                  (mk_registrar (reg_environment c) t2 (storage_providers inv') (reg_observations c)
                     (configure_all now fresh (snapshot_entities s) (reg_engine c)).1, Success inv')
              end
          end
      | _ => (c, Panic)
      end
  end.

(** ** Registration *)

(** [Controller::stored_boot_id]. *)
Definition stored_boot_id (id : EntityId) (c : Registrar) : StoreError + option string :=
  sum_bind (λ es, inr (
      e ← head (filter (λ e, entity_eid e = id) es);
      host ← json_get (entity_metadata e) "host";
      boot ← json_get host "boot_id";
      json_as_str boot))
    (load_entities (reg_environment c) (reg_tables c)).

(** [Registration]. *)
Record Registration := mk_registration { registered_entity : EntityId; rebooted : bool }.

(** The observation of a reboot. *)
Definition boot_observation (id : ObservationId) (now : Timestamp) (target : EntityId) (before after : option string) :
    Observation :=
  with_payload (observation_new id now PROBE_BOOT target Probe_Ok)
    (json_object [("event", json_of_str "host_rebooted"); ("previous_boot_id", json_opt_str before);
                  ("boot_id", json_opt_str after)]).

(** [(Some(before), Some(after)) => before != after]. *)
Definition boot_changed (before after : option string) : bool :=
  match before, after with Some b, Some a => negb (String.eqb b a) | _, _ => false end.

(** [Controller::register_agent]: [oid] is the identifier drawn for the
    observation of a reboot. *)
Definition register_agent (r : Readings) (oid : ObservationId) (q : RegisterRequest) (c : Registrar) :
    Registrar * outcome Registration :=
  let id := entity_id_of (req_environment q) Entity_Host (req_hostname q) in
  match stored_boot_id id c with
  | inl err => (c, Failure err)
  | inr previous =>
      match ingest_snapshot (engine_now r) (fresh_id r) (snapshot_from_registration (engine_now r) q) c with
      | (c1, Failure err) => (c1, Failure err)
      | (c1, Panic) => (c1, Panic)
      | (c1, Success _) =>
          if boot_changed previous (req_boot_id q) then
            let '(g, _, _) := ingest_observations_recorded r
                                [boot_observation oid (engine_now r) id previous (req_boot_id q)] (ingestor_of c1) in
            (mk_registrar (reg_environment c1) (reg_tables c1) (reg_providers c1) (ing_table g) (ing_engine g),
             Success (mk_registration id true))
          else (c1, Success (mk_registration id false))
      end
  end.
End registration.
