(* ===== verification/RegistrationSpec.v ===== *)
(** * Registering an agent: what a registration guarantees

    The controller remembers what the latest registration said of a host, a
    reboot is announced exactly when two boot identifiers in a row differ, and
    a capability the agent no longer reports is given up. *)

From S2P Require Import Concrete.
From S2P Require Export Registration StoreSpec.

Local Open Scope string_scope.

(** ** Saving a whole inventory *)

Section save.
Context `{J : JsonApi} `{HI : HashIter}.

(** The rows of one entity are the same. *)
Definition same_rows (id : EntityId) (t t' : InventoryTables) : Prop :=
  t_entities t' !! id = t_entities t !! id ∧ ∀ c, t_capabilities t' !! (id, c) = t_capabilities t !! (id, c).

(** What saving an entity does to its own rows. *)
Definition entity_saved (e : ManagedEntity) (t t' : InventoryTables) : Prop :=
  (∃ r, t_entities t' !! entity_eid e = Some r ∧ er_metadata r = entity_metadata e
     ∧ natural_key r = match t_entities t !! entity_eid e with
                       | Some old => natural_key old
                       | None => natural_key (row_of_entity e)
                       end)
  ∧ ∀ c, t_capabilities t' !! (entity_eid e, c)
       = match t_capabilities t !! (entity_eid e, c) with
         | Some s => Some s
         | None => if decide (c ∈ entity_capabilities e) then Some (first_source e) else None
         end.

Lemma save_entity_saved t e t' : save_entity_tx t e = inr t' → entity_saved e t t'.
Proof.
  intros ((r & He & _ & _ & Hm & _ & _ & Hold) & _ & Hcap & _)%save_entity_tables. split.
  - exists r. rewrite He, lookup_insert_eq. split; [done|]. split; [done|].
    destruct (t_entities t !! entity_eid e); by destruct Hold.
  - intros c. rewrite Hcap. destruct (t_capabilities t !! _); [done|]. apply decide_ext. naive_solver.
Qed.

Lemma save_entity_same t e t' id : save_entity_tx t e = inr t' → id ≠ entity_eid e → same_rows id t t'.
Proof.
  intros ((r & He & _) & _ & Hcap & _)%save_entity_tables Hne. split.
  - by rewrite He, lookup_insert_ne.
  - intros c. rewrite Hcap. destruct (t_capabilities t !! _); [done|]. by rewrite decide_False by naive_solver.
Qed.

Lemma save_entities_same t es t' id :
  try_fold save_entity_tx t es = inr t' → id ∉ map entity_eid es → same_rows id t t'.
Proof.
  revert t. induction es as [|e es IH]; intros t; cbn [try_fold map]; [by intros [= <-]|].
  destruct (save_entity_tx t e) as [err|t1] eqn:He; cbn [sum_bind]; [done|].
  intros Hrest [Hne Hin]%not_elem_of_cons. destruct (save_entity_same _ _ _ id He Hne) as [E1 C1].
  destruct (IH t1 Hrest Hin) as [E2 C2]. split; [by rewrite E2|]. intros c. by rewrite C2.
Qed.

Lemma save_entities_saved t es t' e :
  try_fold save_entity_tx t es = inr t' → NoDup (map entity_eid es) → e ∈ es → entity_saved e t t'.
Proof.
  revert t. induction es as [|x es IH]; intros t; cbn [try_fold map]; [by intros _ _ He%elem_of_nil|].
  destruct (save_entity_tx t x) as [err|t1] eqn:Hx; cbn [sum_bind]; [done|].
  intros Hrest [Hnotin Hnd]%NoDup_cons [->|He]%elem_of_cons.
  - destruct (save_entity_saved _ _ _ Hx) as [(r & Hr & Hm) Hc], (save_entities_same _ _ _ _ Hrest Hnotin) as [E C].
    split; [exists r; by rewrite E|]. intros c. by rewrite C.
  - destruct (IH t1 Hrest Hnd He) as [(r & Hr & Hm & Hk) Hc].
    assert (entity_eid e ≠ entity_eid x) as Hne.
    { intros Heq. apply Hnotin. rewrite <- Heq. by apply list_elem_of_fmap_2. }
    destruct (save_entity_same _ _ _ _ Hx Hne) as [E C]. split.
    + exists r. split; [done|]. split; [done|]. by rewrite Hk, E.
    + intros c. by rewrite Hc, C.
Qed.

Lemma save_dependencies_same t (xs : list DependencyEdge) t' id :
  try_fold save_dependency_tx t xs = inr t' → same_rows id t t'.
Proof.
  intros H. apply (try_fold_invariant (same_rows id t) save_dependency_tx) in H; [done| |done].
  intros t1 x t2 [E C] _ Hs. unfold save_dependency_tx in Hs.
  destruct (t_dependencies t1 !! edge_id x); [by injection Hs as <-|].
  destruct (_ || _); [done|]. by injection Hs as <-.
Qed.

(** Every entity of an inventory filed under its identifiers is saved. *)
Lemma save_inventory_saved inv t t' id e :
  save_inventory inv t = inr t' → (∀ k x, inv_entities inv !! k = Some x → entity_eid x = k) →
  inv_entities inv !! id = Some e → entity_saved e t t'.
Proof.
  unfold save_inventory. destruct (try_fold save_entity_tx t (entities inv)) as [err|t1] eqn:H1; cbn [sum_bind]; [done|].
  intros H2 Hids He. destruct (save_dependencies_same _ _ _ (entity_eid e) H2) as [E C].
  pose proof (entities_keys inv Hids) as Hkeys.
  destruct (save_entities_saved _ _ _ e H1) as [(r & Hr & Hm & Hk) Hc].
  - rewrite Hkeys. apply NoDup_btree_keys.
  - unfold entities. apply elem_of_btree_values. by exists id.
  - split; [exists r; by rewrite E|]. intros c. by rewrite C.
Qed.
End save.

Section registration_spec.
Context `{J : JsonApi} `{U : UuidApi} `{HI : HashIter}.

(** ** From the tables to the merged host *)

(** Merging a snapshot of one entity. *)
Definition merged_entity (now : Timestamp) (inv : Inventory) (e : ManagedEntity) : ManagedEntity :=
  match inv_entities inv !! entity_eid e with Some old => merge_into now old e | None => e end.

Lemma resolve_nothing now inv out : inv_pending inv = [] → resolve_pending now (inv, out) = Finished (inv, out).
Proof. intros Hp. unfold resolve_pending, resolve_pending_loop. by rewrite Hp. Qed.

Lemma merge_single now inv source e inv' out :
  inv_pending inv = [] →
  merge now inv (add_entity (snapshot_new source) e) = Finished (inv', out) →
  inv_entities inv' = <[ entity_eid e := merged_entity now inv (with_discovery_source e source) ]> (inv_entities inv).
Proof.
  intros Hp. unfold merge, merged_entity. cbn [add_entity snapshot_new snapshot_entities snapshot_dependencies snapshot_source app foldl].
  unfold merge_entity. change (entity_eid (with_discovery_source e source)) with (entity_eid e).
  destruct (inv_entities inv !! entity_eid e) as [old|]; rewrite resolve_nothing by done; by intros [= <- _].
Qed.

(** The host of a registration: its capabilities and its boot identifier. *)
Lemma capabilities_fold cs e :
  let e' := foldl (λ e c, add_capability c e) e cs in
  entity_capabilities e' = entity_capabilities e ∪ list_to_set cs ∧ entity_eid e' = entity_eid e
  ∧ managed_entity_key e' = managed_entity_key e.
Proof.
  revert e. induction cs as [|c cs IH]; intros e; cbn [foldl]; [split; [set_solver|done]|].
  destruct (IH (add_capability c e)) as (-> & -> & ->). split; [|done]. cbn. set_solver.
Qed.

Lemma labels_fold roles e :
  let e' := foldl (λ e role, with_label e ("role." +:+ role) "true") e roles in
  entity_capabilities e' = entity_capabilities e ∧ entity_eid e' = entity_eid e
  ∧ managed_entity_key e' = managed_entity_key e.
Proof. revert e. induction roles as [|x roles IH]; intros e; [done|]. cbn [foldl]. apply (IH (with_label e _ _)). Qed.

Definition registration_id (q : RegisterRequest) : EntityId :=
  entity_id_of (req_environment q) Entity_Host (req_hostname q).

(** What a registration claims for its host. *)
Definition claims (q : RegisterRequest) : CapabilitySet := {[ SENTINEL_AGENT ]} ∪ req_capabilities q.

Lemma registered_host_spec now q :
  entity_eid (registered_host now q) = registration_id q
  ∧ entity_capabilities (registered_host now q) = claims q
  ∧ managed_entity_key (registered_host now q)
    = {| key_environment := req_environment q; key_entity_type := Entity_Host; key_canonical_name := req_hostname q |}
  ∧ entity_metadata (registered_host now q) = registration_metadata q.
Proof.
  unfold registered_host. set (e0 := managed_entity_new now _ _ _).
  destruct (capabilities_fold (btree_elements (req_capabilities q)) e0) as (C1 & I1 & K1).
  set (e1 := foldl _ e0 _) in *.
  destruct (labels_fold (req_roles q) (add_capability SENTINEL_AGENT e1)) as (C2 & I2 & K2).
  set (e2 := foldl _ (add_capability SENTINEL_AGENT e1) _) in *.
  change (entity_eid (with_metadata _ e2)) with (entity_eid e2).
  change (entity_capabilities (with_metadata _ e2)) with (entity_capabilities e2).
  change (managed_entity_key (with_metadata _ e2)) with (managed_entity_key e2).
  rewrite C2, I2, K2. change (entity_eid (add_capability SENTINEL_AGENT e1)) with (entity_eid e1).
  change (managed_entity_key (add_capability SENTINEL_AGENT e1)) with (managed_entity_key e1). rewrite I1, K1.
  split_and!; [done| |done|done]. cbn [add_capability with_capabilities entity_capabilities]. rewrite C1.
  unfold claims. apply set_eq. intros c. rewrite !elem_of_union, elem_of_list_to_set, elem_of_btree_elements.
  cbn [e0 managed_entity_new entity_capabilities]. rewrite elem_of_empty. tauto.
Qed.

(** Where the boot identifier is read. *)
Definition boot_id_of (m : json) : option string :=
  host ← json_get m "host"; boot ← json_get host "boot_id"; json_as_str boot.

(** A field of a registration is read back, also over what the host had. *)
Lemma registration_field `{!JsonLaws} old q m key v :
  m = registration_metadata q ∨ m = merge_metadata old (registration_metadata q) →
  json_get (registration_metadata q) key = Some v → json_get m key = Some v.
Proof.
  intros [->| ->]; [done|]. unfold registration_metadata, json_object at 1 4. set (fields := list_to_map _ : gmap string json).
  rewrite json_get_object. intros Hv. unfold merge_metadata. rewrite json_as_object_of.
  destruct (json_as_object old) as [o|].
  - rewrite json_get_object. by apply lookup_union_Some_l.
  - destruct (json_is_null (json_of_object fields)) eqn:Hn; [|by rewrite json_get_object].
    apply json_is_null_spec in Hn. pose proof (json_as_object_of fields) as Hf. rewrite Hn, json_as_object_null in Hf. done.
Qed.

Lemma registration_boot_id `{!JsonLaws} old q m :
  m = registration_metadata q ∨ m = merge_metadata old (registration_metadata q) → boot_id_of m = req_boot_id q.
Proof.
  intros Hm. assert (json_get (registration_metadata q) "host" = Some (json_object [
    ("fqdn", json_opt_str (req_fqdn q)); ("boot_id", json_opt_str (req_boot_id q)); ("addresses", json_strings (req_addresses q))])) as Hh.
  { unfold registration_metadata, json_object at 1. rewrite json_get_object. cbn [list_to_map foldr uncurry fst snd].
    by rewrite lookup_insert_ne, lookup_insert_eq by done. }
  unfold boot_id_of. rewrite (registration_field old q m "host" _ Hm Hh).
  cbn [mbind option_bind]. unfold json_object. rewrite json_get_object. cbn [list_to_map foldr uncurry fst snd].
  rewrite lookup_insert_ne, lookup_insert_eq by done. cbn [mbind option_bind].
  unfold json_opt_str. destruct (req_boot_id q); cbn [json_of_option]; [apply json_as_str_of|apply json_as_str_null].
Qed.

(** ** One registration *)

(** The row filed under the host's identifier, if any, is the host's row in the
    controller's environment. *)
Definition own_row (c : Registrar) (q : RegisterRequest) : Prop :=
  req_environment q = reg_environment c
  ∧ ∀ r, t_entities (reg_tables c) !! registration_id q = Some r → er_environment r = reg_environment c.

(** The host after a merge is the stored one with the registration over it, or
    the registration's. *)
Lemma merged_host now c q inv :
  tables_wf (reg_tables c) → own_row c q → load_inventory (reg_environment c) (reg_tables c) = inr inv →
  let e := merged_entity now inv (with_discovery_source (registered_host now q) AgentRegistration) in
  entity_eid e = registration_id q
  ∧ (∃ old, entity_metadata e = registration_metadata q
            ∨ entity_metadata e = merge_metadata old (registration_metadata q))
  ∧ entity_environment e = reg_environment c
  ∧ ∀ x, x ∈ entity_capabilities e ↔ x ∈ claims q ∨ x ∈ capabilities_of (registration_id q) (reg_tables c)
                                      ∧ is_Some (inv_entities inv !! registration_id q).
Proof.
  intros Hwf [Henv Hrow] Hl. destruct (load_inventory_entities _ _ _ Hl) as [_ Hinv].
  destruct (registered_host_spec now q) as (Hid & Hcs & Hkey & Hm). unfold merged_entity.
  change (entity_eid (with_discovery_source _ _)) with (entity_eid (registered_host now q)). rewrite Hid.
  destruct (inv_entities inv !! registration_id q) as [old|] eqn:Hold.
  - destruct (Hinv _ _ Hold) as (Ho & r & Hr & He & Hd). cbn [merge_into entity_eid entity_metadata entity_environment entity_capabilities].
    split; [done|]. split; [exists (entity_metadata old); right; by rewrite <- Hm|].
    unfold decode_entity in Hd. destruct (entity_type_parse _); [|done]. injection Hd as <-.
    cbn [entity_environment entity_capabilities]. split; [done|]. intros x.
    change (entity_capabilities (with_discovery_source _ _)) with (entity_capabilities (registered_host now q)).
    rewrite Hcs, elem_of_union. split; [intros [?|?]; [right; split; [done|by eexists]|by left]|intros [?|[? _]]; [by right|by left]].
  - split; [done|]. split; [exists json_null; left; done|].
    change (entity_environment (with_discovery_source _ _)) with (key_environment (managed_entity_key (registered_host now q))).
    change (entity_capabilities (with_discovery_source _ _)) with (entity_capabilities (registered_host now q)).
    rewrite Hkey, Hcs. split; [done|]. intros x. split; [by left|]. intros [?|[_ []%is_Some_None]]; done.
Qed.

(** What taking a registration in leaves in the inventory. *)
Lemma ingest_registration_inventory now fresh q c c' inv' :
  ingest_snapshot now fresh (snapshot_from_registration now q) c = (c', Success inv') →
  ∃ inv, load_inventory (reg_environment c) (reg_tables c) = inr inv
    ∧ inv_entities inv' = <[ registration_id q := merged_entity now inv (with_discovery_source (registered_host now q) AgentRegistration) ]>
                            (inv_entities inv).
Proof.
  unfold ingest_snapshot. destruct (load_inventory _ _) as [err|inv] eqn:Hl; [done|].
  destruct (merge now inv _) as [[inv1 out]| |] eqn:Hmerge; [|done|done].
  destruct (save_inventory inv1 _) as [err|t1]; [done|].
  destruct (reconcile_snapshot_capabilities _ _) as [t2 [err|]]; [done|]. intros [= _ <-].
  exists inv. split; [done|]. destruct (load_inventory_entities _ _ _ Hl) as [Hpend _].
  apply merge_single in Hmerge; [|done]. by rewrite (proj1 (registered_host_spec now q)) in Hmerge.
Qed.

(** What taking a registration in leaves in the tables. *)
Lemma ingest_registration_tables now fresh q c c' inv' :
  tables_wf (reg_tables c) → own_row c q →
  ingest_snapshot now fresh (snapshot_from_registration now q) c = (c', Success inv') →
  tables_wf (reg_tables c') ∧ reg_environment c' = reg_environment c
  ∧ (∃ r old, t_entities (reg_tables c') !! registration_id q = Some r ∧ er_environment r = reg_environment c
      ∧ (er_metadata r = registration_metadata q ∨ er_metadata r = merge_metadata old (registration_metadata q)))
  ∧ ∀ x, t_capabilities (reg_tables c') !! (registration_id q, x)
       = if decide (x ∈ claims q) then Some (discovery_source_as_str AgentRegistration)
         else if decide (t_capabilities (reg_tables c) !! (registration_id q, x)
                         = Some (discovery_source_as_str AgentRegistration)) then None
         else t_capabilities (reg_tables c) !! (registration_id q, x).
Proof.
  intros Hwf Hown. unfold ingest_snapshot.
  destruct (load_inventory _ _) as [err|inv] eqn:Hl; [done|].
  destruct (merge now inv _) as [[inv1 out]| |] eqn:Hmerge; [|done|done].
  destruct (save_inventory inv1 _) as [err|t1] eqn:Hsave; [done|].
  destruct (load_inventory_entities _ _ _ Hl) as [Hpend Hinv].
  apply merge_single in Hmerge; [|done].
  destruct (merged_host now c q inv Hwf Hown Hl) as (Hid & [old Hm] & Hke & Hcs).
  destruct (registered_host_spec now q) as (Hrid & Hrc & _). rewrite Hrid in Hmerge.
  set (e := merged_entity now inv _) in *.
  assert (∀ k x, inv_entities inv1 !! k = Some x → entity_eid x = k) as Hids.
  { intros k x. rewrite Hmerge. intros [[<- <-]|[_ Hx]]%lookup_insert_Some; [done|]. by apply Hinv in Hx as [? _]. }
  destruct (save_inventory_saved inv1 _ t1 (registration_id q) e Hsave Hids) as [(r & Hr & Hrm & Hrk) Hcap];
    [by rewrite Hmerge, lookup_insert_eq|]. rewrite Hid in Hr, Hrk, Hcap.
  pose proof (save_inventory_wf _ _ _ Hwf Hsave) as Hwf1.
  unfold reconcile_snapshot_capabilities, snapshot_from_registration. cbn [add_entity snapshot_new snapshot_source snapshot_entities app reconcile_entities].
  change (entity_eid (with_discovery_source _ _)) with (entity_eid (registered_host now q)).
  change (entity_capabilities (with_discovery_source _ _)) with (entity_capabilities (registered_host now q)).
  rewrite Hrid, Hrc. destruct (reconcile_capabilities _ _ _ t1) as [err|[t2 n]] eqn:Hrec; [done|].
  intros [= <- _]. cbn [reg_tables reg_environment].
  destruct (reconcile_tables _ _ _ _ _ _ Hrec) as [Hcap2 He2].
  assert (tables_wf t2) as Hwf2.
  { revert Hrec. unfold reconcile_capabilities. destruct (_ && _); [done|]. intros [= <- _]. by destruct Hwf1. }
  split; [done|]. split; [done|]. split.
  - exists r, old. rewrite He2. split; [done|]. split; [|by rewrite Hrm].
    destruct (t_entities (reg_tables c) !! registration_id q) as [o|] eqn:Ho.
    + apply (f_equal (λ k, k.1.1)) in Hrk. cbn in Hrk. rewrite Hrk. by apply Hown.
    + apply (f_equal (λ k, k.1.1)) in Hrk. cbn in Hrk. by rewrite Hrk.
  - intros x. rewrite Hcap2, Hcap. rewrite (decide_ext (registration_id q = registration_id q ∧ x ∈ claims q) (x ∈ claims q)) by tauto.
    case_decide as Hx; [done|]. destruct (t_capabilities (reg_tables c) !! (registration_id q, x)) as [s|] eqn:Hs.
    + apply decide_ext. tauto.
    + rewrite (decide_False (P := x ∈ entity_capabilities e)).
      * by rewrite !decide_False by naive_solver.
      * rewrite Hcs, elem_of_capabilities, Hs. intros [?|[[]%is_Some_None _]]; done.
Qed.

(** The boot identifier read back from the host's row. *)
Lemma stored_boot_id_row c q r :
  tables_wf (reg_tables c) → t_entities (reg_tables c) !! registration_id q = Some r →
  er_environment r = reg_environment c → stored_boot_id (registration_id q) c = inr (boot_id_of (er_metadata r)).
Proof.
  intros Hwf Hr Henv. unfold stored_boot_id. destruct (load_entities_total (reg_environment c) _ Hwf) as [es Hes].
  rewrite Hes. cbn [sum_bind]. f_equal.
  assert (∀ e, e ∈ filter (λ e, entity_eid e = registration_id q) es ↔ entity_eid e = registration_id q ∧ decode_entity (reg_tables c) (registration_id q, r) = inr e) as Hin.
  { intros e. rewrite list_elem_of_filter, (elem_of_load_entities _ _ _ _ Hes). split.
    - intros (Hid & r' & Hr' & _ & Hd). rewrite Hid in Hr', Hd. rewrite Hr in Hr'. injection Hr' as ->. done.
    - intros [Hid Hd]. rewrite Hid. split; [done|]. by exists r. }
  destruct (decode_entity_total (reg_tables c) (registration_id q) r (tw_entities _ Hwf _ _ Hr)) as (e & Hd & Hid & _).
  assert (e ∈ filter (λ e, entity_eid e = registration_id q) es) as He by (by apply Hin).
  destruct (filter _ es) as [|x xs]; [by apply elem_of_nil in He|]. cbn [head mbind option_bind].
  assert (decode_entity (reg_tables c) (registration_id q, r) = inr x) as Hx by (apply Hin; by left).
  unfold decode_entity in Hx. destruct (entity_type_parse _); [|done]. by injection Hx as <-.
Qed.

(** A registration that succeeded. *)
Lemma register_agent_outcome `{!JsonLaws} r oid q c c' g :
  tables_wf (reg_tables c) → own_row c q → register_agent r oid q c = (c', Success g) →
  registered_entity g = registration_id q ∧ tables_wf (reg_tables c') ∧ own_row c' q
  ∧ (∃ before, stored_boot_id (registration_id q) c = inr before ∧ rebooted g = boot_changed before (req_boot_id q))
  ∧ stored_boot_id (registration_id q) c' = inr (req_boot_id q)
  ∧ ∀ x, t_capabilities (reg_tables c') !! (registration_id q, x)
       = if decide (x ∈ claims q) then Some (discovery_source_as_str AgentRegistration)
         else if decide (t_capabilities (reg_tables c) !! (registration_id q, x)
                         = Some (discovery_source_as_str AgentRegistration)) then None
         else t_capabilities (reg_tables c) !! (registration_id q, x).
Proof.
  intros Hwf Hown. unfold register_agent. fold (registration_id q).
  destruct (stored_boot_id (registration_id q) c) as [err|before] eqn:Hb; [done|].
  destruct (ingest_snapshot _ _ _ c) as [c1 [inv1|err|]] eqn:Hi; [|done|done].
  destruct (ingest_registration_tables _ _ _ _ _ _ Hwf Hown Hi) as (Hwf1 & Henv1 & (row & old & Hr & Hre & Hrm) & Hcap).
  assert (stored_boot_id (registration_id q) c1 = inr (req_boot_id q)) as Hb1.
  { rewrite (stored_boot_id_row c1 q row) by (done || by rewrite Henv1). f_equal.
    by apply (registration_boot_id old q). }
  assert (own_row c1 q) as Hown1.
  { destruct Hown as [He _]. split; [by rewrite Henv1|]. intros r' Hr'. rewrite Hr in Hr'. injection Hr' as <-. by rewrite Henv1. }
  destruct (boot_changed before (req_boot_id q)) eqn:Hc.
  - destruct (ingest_observations_recorded _ _ _) as [[g1 ?] ?]. intros [= <- <-]. cbn [rebooted registered_entity reg_tables].
    split_and!; try done. by exists before.
  - intros [= <- <-]. cbn [rebooted registered_entity]. split_and!; try done. by exists before.
Qed.

(** A host that has registered is known to the ingestion of observations. *)
Lemma register_agent_known r oid q c c' g :
  tables_wf (reg_tables c) → own_row c q → register_agent r oid q c = (c', Success g) →
  registration_id q ∈ known_entities (reg_environment c') (reg_tables c').
Proof.
  intros Hwf Hown. unfold register_agent. destruct (stored_boot_id _ c) as [err|before]; [done|].
  destruct (ingest_snapshot _ _ _ c) as [c1 [inv1|err|]] eqn:Hi; [|done|done].
  destruct (ingest_registration_tables _ _ _ _ _ _ Hwf Hown Hi) as (_ & Henv & (row & old & Hr & Hre & _) & _).
  assert (registration_id q ∈ known_entities (reg_environment c1) (reg_tables c1)) as Hknown.
  { unfold known_entities. rewrite elem_of_list_to_set, list_elem_of_fmap. exists (registration_id q, row). split; [done|].
    apply elem_of_entity_rows. split; [done|by rewrite Henv]. }
  destruct (boot_changed before (req_boot_id q)).
  - destruct (ingest_observations_recorded _ _ _) as [[g1 ?] ?]. by intros [= <- <-].
  - by intros [= <- <-].
Qed.
End registration_spec.

(** ** Properties *)

(** A reboot is announced exactly when two registrations in a row both know
    the boot identifier and it changed: what the second is compared with is
    what the first said, through the merge, the tables and back. *)
Theorem registrations_compare_boot_ids `{JsonLaws} `{U : UuidApi} `{HI : HashIter} r1 r2 o1 o2 q1 q2 c c1 c2 g1 g2 :
  tables_wf (reg_tables c) → own_row c q1 →
  req_environment q2 = req_environment q1 → req_hostname q2 = req_hostname q1 →
  register_agent r1 o1 q1 c = (c1, Success g1) → register_agent r2 o2 q2 c1 = (c2, Success g2) →
  registered_entity g2 = registered_entity g1 ∧
  (rebooted g2 = true ↔ ∃ b a, req_boot_id q1 = Some b ∧ req_boot_id q2 = Some a ∧ b ≠ a).
Proof.
  intros Hwf Hown He Hh H1 H2.
  destruct (register_agent_outcome _ _ _ _ _ _ Hwf Hown H1) as (I1 & Hwf1 & [Ho1 Ho2] & _ & Hb1 & _).
  assert (registration_id q2 = registration_id q1) as Hid by (unfold registration_id; congruence).
  destruct (register_agent_outcome r2 o2 q2 c1 c2 g2 Hwf1 ltac:(split; [congruence|by rewrite Hid]) H2)
    as (I2 & _ & _ & (before & Hb2 & Hg2) & _).
  split; [congruence|]. rewrite Hid, Hb1 in Hb2. injection Hb2 as <-. rewrite Hg2.
  destruct (req_boot_id q1) as [b|], (req_boot_id q2) as [a|]; cbn [boot_changed].
  - rewrite negb_true_iff, String.eqb_neq. naive_solver.
  - split; [done|naive_solver].
  - split; [done|naive_solver].
  - split; [done|naive_solver].
Qed.

(** After a registration the host has the capabilities it reported and the
    agent's own, all attributed to the registration, and of those it had
    before exactly the ones another source claimed: what the agent stopped
    reporting is given up. *)
Theorem registration_claims_exact `{JsonLaws} `{U : UuidApi} `{HI : HashIter} r oid q c c' g :
  tables_wf (reg_tables c) → own_row c q → register_agent r oid q c = (c', Success g) →
  (∀ x, x ∈ capabilities_of (registered_entity g) (reg_tables c') ↔
     x ∈ req_capabilities q ∨ x = SENTINEL_AGENT
     ∨ x ∈ capabilities_of (registered_entity g) (reg_tables c)
       ∧ t_capabilities (reg_tables c) !! (registered_entity g, x) ≠ Some (discovery_source_as_str AgentRegistration))
  ∧ ∀ x, x ∈ req_capabilities q →
      t_capabilities (reg_tables c') !! (registered_entity g, x) = Some (discovery_source_as_str AgentRegistration).
Proof.
  intros Hwf Hown Hr. destruct (register_agent_outcome _ _ _ _ _ _ Hwf Hown Hr) as (-> & _ & _ & _ & _ & Hcap).
  assert (∀ x, x ∈ claims q ↔ x ∈ req_capabilities q ∨ x = SENTINEL_AGENT) as Hcl.
  { intros x. unfold claims. rewrite elem_of_union, elem_of_singleton. tauto. }
  split; intros x.
  - rewrite !elem_of_capabilities, Hcap. case_decide as Hx; [rewrite Hcl in Hx; split; [tauto|by eexists]|].
    rewrite Hcl in Hx. case_decide as Hs; [split; [by intros []|tauto]|tauto].
  - intros Hx. rewrite Hcap, decide_True; [done|]. rewrite Hcl. by left.
Qed.

(** A registration that does not know the boot identifier erases the stored
    one: a host that reboots around it is never seen to. *)
Lemma reboot_around_unknown_boot_id_is_missed `{JsonLaws} `{U : UuidApi} `{HI : HashIter}
    r1 r2 r3 o1 o2 o3 q1 q2 q3 c c1 c2 c3 g1 g2 g3 :
  tables_wf (reg_tables c) → own_row c q1 →
  req_environment q2 = req_environment q1 → req_hostname q2 = req_hostname q1 →
  req_environment q3 = req_environment q1 → req_hostname q3 = req_hostname q1 →
  req_boot_id q2 = None →
  register_agent r1 o1 q1 c = (c1, Success g1) → register_agent r2 o2 q2 c1 = (c2, Success g2) →
  register_agent r3 o3 q3 c2 = (c3, Success g3) → rebooted g2 = false ∧ rebooted g3 = false.
Proof.
  intros Hwf Hown E2 N2 E3 N3 Hnone H1 H2 H3.
  assert (registration_id q2 = registration_id q1 ∧ registration_id q3 = registration_id q2) as [I2 I3]
    by (unfold registration_id; split; congruence).
  destruct (register_agent_outcome _ _ _ _ _ _ Hwf Hown H1) as (_ & Hwf1 & [Ho Ho1] & _ & _ & _).
  destruct (register_agent_outcome r2 o2 q2 c1 c2 g2 Hwf1 ltac:(split; [congruence|by rewrite I2]) H2)
    as (_ & Hwf2 & [Hp Hp1] & (b & _ & ->) & Hb2 & _).
  destruct (register_agent_outcome r3 o3 q3 c2 c3 g3 Hwf2 ltac:(split; [congruence|by rewrite I3]) H3)
    as (_ & _ & _ & (b' & Hb3 & ->) & _ & _).
  rewrite Hnone. rewrite I3, Hb2, Hnone in Hb3. injection Hb3 as <-. by destruct b.
Qed.

(** *** One host *)

Definition node_request (boot : option string) (cs : CapabilitySet) : RegisterRequest :=
  {| req_protocol_version := 1; req_version := "1.0"; req_environment := "prod"; req_hostname := "n1";
     req_fqdn := None; req_boot_id := boot; req_addresses := []; req_ports := ∅; req_capabilities := cs;
     req_hardware := json_null; req_roles := [] |}.

Definition fresh_registrar : Registrar := mk_registrar "prod" empty_tables ∅ ∅ state_engine_new.

Definition registration_readings : Readings :=
  {| valid_at := 100; ingested_at := 100; engine_now := 100; fresh_id := λ _ _, 1%N |}.

Definition sample_oid : ObservationId := {| observation_uuid := 9 |}.

Definition first_run := register_agent registration_readings sample_oid (node_request (Some "boot-1") {["gpu.nvidia"]}) fresh_registrar.
Definition second_run := register_agent registration_readings sample_oid (node_request (Some "boot-2") ∅) first_run.1.

Lemma run_pair {A B} (p : A * B) b : p.2 = b → p = (p.1, b).
Proof. destruct p. by intros [= ->]. Qed.

Definition node_id : EntityId := registration_id (node_request None ∅).

Lemma first_run_succeeds :
  register_agent registration_readings sample_oid (node_request (Some "boot-1") {["gpu.nvidia"]}) fresh_registrar
  = (first_run.1, Success (mk_registration node_id false)).
Proof. apply (run_pair first_run). by vm_compute. Qed.

Lemma second_run_succeeds :
  register_agent registration_readings sample_oid (node_request (Some "boot-2") ∅) first_run.1
  = (second_run.1, Success (mk_registration node_id true)).
Proof. apply (run_pair second_run). by vm_compute. Qed.

Lemma fresh_own_row boot cs : own_row fresh_registrar (node_request boot cs).
Proof. split; [done|]. intros r Hr. cbn [fresh_registrar reg_tables empty_tables t_entities] in Hr. by rewrite lookup_empty in Hr. Qed.

Lemma registrations_compare_boot_ids_witness :
  rebooted (mk_registration node_id true) = true
  ∧ ∃ b a, req_boot_id (node_request (Some "boot-1") {["gpu.nvidia"]}) = Some b
      ∧ req_boot_id (node_request (Some "boot-2") ∅) = Some a ∧ b ≠ a.
Proof.
  split; [reflexivity|].
  exact (proj1 (proj2 (registrations_compare_boot_ids registration_readings registration_readings
    sample_oid sample_oid (node_request (Some "boot-1") {["gpu.nvidia"]}) (node_request (Some "boot-2") ∅)
    fresh_registrar first_run.1 second_run.1 _ _
    empty_tables_wf (fresh_own_row _ _) eq_refl eq_refl first_run_succeeds second_run_succeeds)) eq_refl).
Defined.

Lemma registration_claims_exact_witness :
  t_capabilities (reg_tables first_run.1) !! (node_id, "gpu.nvidia") = Some "agent_registration".
Proof.
  refine (proj2 (registration_claims_exact registration_readings sample_oid
    (node_request (Some "boot-1") {["gpu.nvidia"]}) fresh_registrar first_run.1 _ empty_tables_wf (fresh_own_row _ _)
    first_run_succeeds) "gpu.nvidia" _).
  by apply elem_of_singleton.
Defined.
