(* ===== verification/EngineStore.v ===== *)
(** * Storing the engine, and resuming from it

    The rest of [src/persistence/observations.rs] and the start of a controller
    in [src/controller/mod.rs]: what is written of the state engine with every
    batch, what a controller that starts finds again, and the queries on the
    history of observations and transitions. *)

From S2P Require Import Concrete.
From S2P Require Export Registration.

Local Open Scope string_scope.

(** ** The tables *)

(** A row of [entity_states]; its key is the entity and the component's name. *)
Record ComponentRow := mk_component_row {
  cr_health : string;
  cr_since : Timestamp;
  cr_failures : N;
  cr_successes : N;
  cr_evidence : list ObservationId;
  cr_updated_at : Timestamp
}.

(** A row of [entity_overall_states]. *)
Record OverallRow := mk_overall_row {
  or_health : string;
  or_classifications : list string;
  or_since : Timestamp;
  or_updated_at : Timestamp
}.

(** A row of [state_transitions]. *)
Record TransitionRow := mk_transition_row {
  tr_entity : EntityId;
  tr_component : option string;
  tr_from : string;
  tr_to : string;
  tr_at : Timestamp;
  tr_evidence : list ObservationId
}.

Record EngineTables := mk_engine_tables {
  et_streams : gmap string string;
  et_components : gmap (EntityId * string) ComponentRow;
  et_overall : gmap EntityId OverallRow;
  et_transitions : gmap Uuid TransitionRow;
  et_resets : gmap string Timestamp
}.

Definition set_stream_rows (m : gmap string string) (t : EngineTables) : EngineTables :=
  mk_engine_tables m (et_components t) (et_overall t) (et_transitions t) (et_resets t).
Definition set_component_rows (m : gmap (EntityId * string) ComponentRow) (t : EngineTables) : EngineTables :=
  mk_engine_tables (et_streams t) m (et_overall t) (et_transitions t) (et_resets t).
Definition set_overall_rows (m : gmap EntityId OverallRow) (t : EngineTables) : EngineTables :=
  mk_engine_tables (et_streams t) (et_components t) m (et_transitions t) (et_resets t).
Definition set_transition_rows (m : gmap Uuid TransitionRow) (t : EngineTables) : EngineTables :=
  mk_engine_tables (et_streams t) (et_components t) (et_overall t) m (et_resets t).

(** What [serde_json] makes of the streams. *)
Class StreamCodec := {
  encode_streams : list StateStream → string + string;
  decode_streams : string → string + list StateStream
}.

Class StreamLaws `{StreamCodec} := {
  decode_encoded ss p : encode_streams ss = inr p → decode_streams p = inr ss
}.

Section engine_store.
Context `{J : JsonApi} `{U : UuidApi} `{HI : HashIter} `{SC : StreamCodec}.

(** ** Saving *)

Definition component_row (updated_at : Timestamp) (c : ComponentState) : ComponentRow :=
  mk_component_row (health_as_str (health c)) (to_micros (since c)) (state_consecutive_failures c)
    (state_consecutive_successes c) (evidence c) (to_micros updated_at).

(** The [INSERT .. ON CONFLICT DO UPDATE] of one component. *)
Definition save_component (inv : InventoryTables) (st : EntityState) (t : EngineTables)
    (c : StateComponent * ComponentState) : StoreError + EngineTables :=
  if bool_decide (state_entity st ∉ dom (t_entities inv)) then inl Store_Database
  else inr (set_component_rows
              (<[ (state_entity st, component_as_str c.1) := component_row (state_updated_at st) c.2 ]>
                 (et_components t)) t).

(** The one of the overall state: [since] is kept while the health is. *)
Definition save_overall (inv : InventoryTables) (st : EntityState) (t : EngineTables) : StoreError + EngineTables :=
  if bool_decide (state_entity st ∉ dom (t_entities inv)) then inl Store_Database
  else
    let at_ := to_micros (state_updated_at st) in
    let kept := match et_overall t !! state_entity st with
                | Some old => if String.eqb (or_health old) (health_as_str (overall st)) then or_since old else at_
                | None => at_
                end in
    inr (set_overall_rows
           (<[ state_entity st := mk_overall_row (health_as_str (overall st)) (classifications st) kept at_ ]>
              (et_overall t)) t).

(** [save_entity_state_in]. *)
Definition save_entity_state (inv : InventoryTables) (t : EngineTables) (st : EntityState) :
    StoreError + EngineTables :=
  sum_bind (save_overall inv st) (try_fold (save_component inv st) t (btree_entries (components st))).

(** [save_state_transition_in]. *)
Definition save_state_transition (inv : InventoryTables) (t : EngineTables) (tr : StateTransition) :
    StoreError + EngineTables :=
  match et_transitions t !! transition_id tr with
  | Some _ => inr t
  | None =>
      if bool_decide (transition_entity tr ∉ dom (t_entities inv)) then inl Store_Database
      else inr (set_transition_rows
                  (<[ transition_id tr :=
                        mk_transition_row (transition_entity tr) (component_as_str <$> transition_component tr)
                          (health_as_str (from_health tr)) (health_as_str (to_health tr))
                          (to_micros (transition_at tr)) (transition_evidence tr) ]> (et_transitions t)) t)
  end.

(** [save_state_streams_in]. *)
Definition save_state_streams (inv : InventoryTables) (environment : string) (eng : StateEngine) (t : EngineTables) :
    StoreError + EngineTables :=
  match encode_streams (hash_values (streams eng)) with
  | inl detail => inl (Store_Decode "state streams" detail)
  | inr payload =>
      if bool_decide (environment ∉ t_environments inv) then inl Store_Database
      else inr (set_stream_rows (<[ environment := payload ]> (et_streams t)) t)
  end.

(** [save_engine]: one transaction. *)
Definition save_engine (inv : InventoryTables) (environment : string) (eng : StateEngine)
    (transitions : list StateTransition) (t : EngineTables) : StoreError + EngineTables :=
  sum_bind (λ t, sum_bind (λ t, try_fold (save_state_transition inv) t transitions)
                   (try_fold (save_entity_state inv) t (btree_values (states eng))))
    (save_state_streams inv environment eng t).

(** ** Loading *)

(** [load_state_streams]. *)
Definition load_state_streams (environment : string) (t : EngineTables) : StoreError + list StateStream :=
  match et_streams t !! environment with
  | None => inr []
  | Some payload =>
      match decode_streams payload with
      | inl detail => inl (Store_Decode "state streams" detail)
      | inr ss => inr ss
      end
  end.

(** [JOIN entities e .. WHERE e.environment = ?]. *)
Definition in_environment (inv : InventoryTables) (environment : string) (e : EntityId) : Prop :=
  er_environment <$> t_entities inv !! e = Some environment.

#[export] Instance in_environment_dec inv environment e : Decision (in_environment inv environment e).
Proof. unfold in_environment. apply _. Defined.

Definition decode_overall (e : EntityId) (r : OverallRow) : EntityState :=
  {| state_entity := e; components := ∅; overall := default Unknown (health_parse (or_health r));
     classifications := or_classifications r; state_updated_at := or_updated_at r |}.

Definition decode_component (r : ComponentRow) : ComponentState :=
  {| health := default Unknown (health_parse (cr_health r)); evidence := cr_evidence r; since := cr_since r;
     state_consecutive_failures := cr_failures r; state_consecutive_successes := cr_successes r |}.

(** [state.components.insert], which leaves the stored overall health alone. *)
Definition put_component (c : StateComponent) (cs : ComponentState) (st : EntityState) : EntityState :=
  {| state_entity := state_entity st; components := <[ c := cs ]> (components st); overall := overall st;
     classifications := classifications st; state_updated_at := state_updated_at st |}.

(** The loop over [entity_states]. *)
Definition load_component (now : Timestamp) (m : gmap EntityId EntityState)
    (row : (EntityId * string) * ComponentRow) : gmap EntityId EntityState :=
  let '((e, name), r) := row in
  match component_parse name with
  | None => m
  | Some c => <[ e := put_component c (decode_component r) (default (entity_state_unknown now e) (m !! e)) ]> m
  end.

(** [load_entity_states]. *)
Definition load_entity_states (now : Timestamp) (inv : InventoryTables) (environment : string) (t : EngineTables) :
    gmap EntityId EntityState :=
  foldl (load_component now)
    (map_imap (λ e r, if decide (in_environment inv environment e) then Some (decode_overall e r) else None)
       (et_overall t))
    (filter (λ row, in_environment inv environment row.1.1) (hash_iter (et_components t))).

(** ** The history *)

Context `{T : TimeApi}.

(** [ORDER BY finished_at DESC, id DESC LIMIT ?]. *)
Definition observation_order (r : ObservationRow) : string * string :=
  (rfc3339_micros (finished_at (row_observation r)), uuid_to_string (observation_uuid (observation_id (row_observation r)))).

Definition newest_rows (limit : N) (rows : list ObservationRow) : list Observation :=
  map row_observation (take (N.to_nat limit) (reverse (sort_by_key observation_order rows))).

(** [recent_observations] and [recent_observations_for_probe]. *)
Definition recent_observations (entity : EntityId) (limit : N) (rows : list ObservationRow) : list Observation :=
  newest_rows limit (filter (λ r, target_entity (row_observation r) = entity) rows).

Definition recent_observations_for_probe (entity : EntityId) (probe : ProbeId) (limit : N)
    (rows : list ObservationRow) : list Observation :=
  newest_rows limit
    (filter (λ r, target_entity (row_observation r) = entity ∧ probe_id (row_observation r) = probe) rows).

(** [observation_count]. *)
Definition observation_count (entity : EntityId) (rows : list ObservationRow) : nat :=
  length (filter (λ r, target_entity (row_observation r) = entity) rows).

(** Whether one observer's measurement of one probe is that of a row. *)
Definition same_stream (target : EntityId) (probe : ProbeId) (observer : option EntityId) (r : ObservationRow) : Prop :=
  target_entity (row_observation r) = target ∧ probe_id (row_observation r) = probe
  ∧ observer_entity (row_observation r) = observer.

#[export] Instance same_stream_dec target probe observer r : Decision (same_stream target probe observer r).
Proof. unfold same_stream. apply _. Defined.

(** SQLite's [julianday(a) <= julianday(b) + skew], in floating point. *)
Variable julianday_within : Timestamp → Timestamp → Z → bool.

(** The conditions inside the seek: not finished after [latest], not from the
    future when it arrived, nothing from before the cutoff ([""] when there is
    none, which is below every time). *)
Definition usable (latest : Timestamp) (cutoff : option Timestamp) (r : ObservationRow) : Prop :=
  let o := row_observation r in
  key_le (rfc3339_micros (finished_at o)) (rfc3339_micros latest)
  ∧ julianday_within (finished_at o) (row_ingested_at r) MAX_FUTURE_SKEW_SECONDS = true
  ∧ key_le (default "" (rfc3339_micros <$> cutoff)) (rfc3339_micros (finished_at o))
  ∧ key_le (default "" (rfc3339_micros <$> cutoff)) (rfc3339_micros (row_ingested_at r)).

#[export] Instance usable_dec latest cutoff r : Decision (usable latest cutoff r).
Proof. unfold usable. apply _. Defined.

(** The row a stream's seek finds: the latest, and of several the last stored.
    The rows come in the order of their [rowid]. *)
Definition newest_row (rows : list ObservationRow) : option ObservationRow :=
  last (sort_by_key (λ r, rfc3339_micros (finished_at (row_observation r))) rows).

(** [SELECT DISTINCT probe_id, observer], in no particular order. *)
Definition stream_names (target : EntityId) (rows : list ObservationRow) : gmap (ProbeId * option EntityId) unit :=
  list_to_map (map (λ r, ((probe_id (row_observation r), observer_entity (row_observation r)), tt))
    (filter (λ r, target_entity (row_observation r) = target) rows)).

(** [latest_observations_since]: [now] is the clock. *)
Definition latest_observations_since (now : Timestamp) (target : EntityId) (cutoff : option Timestamp)
    (rows : list ObservationRow) : list Observation :=
  omap (λ k, row_observation <$>
      newest_row (filter (λ r, same_stream target k.1.1 k.1.2 r
                              ∧ usable (now + seconds MAX_FUTURE_SKEW_SECONDS)%Z cutoff r) rows))
    (hash_iter (stream_names target rows)).

(** [probe_last_seen]: the latest time of each entity and probe. *)
Definition probe_last_seen (inv : InventoryTables) (environment : string) (rows : list ObservationRow) :
    gmap (EntityId * ProbeId) Timestamp :=
  foldl (λ m r, let o := row_observation r in
      let at_ := to_micros (finished_at o) in
      <[ (target_entity o, probe_id o) :=
           match m !! (target_entity o, probe_id o) with
           | Some best => if decide (key_le (rfc3339_micros best) (rfc3339_micros at_)) then at_ else best
           | None => at_
           end ]> m) ∅
    (filter (λ r, in_environment inv environment (target_entity (row_observation r))) rows).

Definition decode_transition (row : Uuid * TransitionRow) : StateTransition :=
  let '(id, r) := row in
  {| transition_id := id; transition_entity := tr_entity r;
     transition_component := tr_component r ≫= component_parse;
     from_health := default Unknown (health_parse (tr_from r));
     to_health := default Unknown (health_parse (tr_to r));
     transition_at := tr_at r; transition_evidence := tr_evidence r |}.

(** [recent_transitions]. *)
Definition recent_transitions (entity : EntityId) (limit : N) (t : EngineTables) : list StateTransition :=
  map decode_transition (take (N.to_nat limit)
    (reverse (sort_by_key (λ row : Uuid * TransitionRow, (rfc3339_micros (tr_at row.2), uuid_to_string row.1))
       (filter (λ row, tr_entity row.2 = entity) (map_to_list (et_transitions t)))))).

(** ** Starting *)

(** [Controller::new], as far as it is about the engine: the engine and the
    transitions its configuration made. *)
Definition start_engine (now : Timestamp) (fresh : EntityId → StateComponent → Uuid) (environment : string)
    (rows : list ObservationRow) (inv : InventoryTables) (t : EngineTables) :
    StoreError + (StateEngine * list StateTransition) :=
  let eng := set_observation_cutoff (et_resets t !! environment) (register_builtin_probes state_engine_new) in
  let eng := foldl (λ eng st, seed st eng) eng (btree_values (load_entity_states now inv environment t)) in
  sum_bind (λ inventory,
    let '(eng, transitions) := configure_all now fresh (entities inventory) eng in
    sum_bind (λ ss, inr (
        match ss with
        | [] => foldl (λ eng e, (ingest_all now fresh
                  (latest_observations_since now (entity_eid e) (observation_cutoff eng) rows) eng).1)
                  eng (entities inventory)
        | _ => seed_streams now fresh ss eng
        end, transitions)) (load_state_streams environment t))
    (load_inventory environment inv).

(** The saving of those transitions. *)
Definition start_controller (now : Timestamp) (fresh : EntityId → StateComponent → Uuid) (environment : string)
    (rows : list ObservationRow) (inv : InventoryTables) (t : EngineTables) :
    StoreError + (StateEngine * InventoryTables * EngineTables) :=
  let inv := ensure_environment environment inv in
  sum_bind (λ '(eng, transitions),
    match transitions with
    | [] => inr (eng, inv, t)
    | _ => sum_bind (λ t', inr (eng, inv, t')) (save_engine inv environment eng transitions t)
    end) (start_engine now fresh environment rows inv t).
End engine_store.
