(* ===== verification/EngineStoreSpec.v ===== *)
(** * Storing the engine: nothing is lost by a restart

    A controller that starts from what the last one saved shows the same of
    every entity, and goes on from the same streams. *)

From S2P Require Import Concrete.
From S2P Require Export EngineStore Settled RegistrationSpec.

Local Open Scope string_scope.

Section saving.
Context `{J : JsonApi} `{U : UuidApi} `{HI : HashIter} `{SC : StreamCodec}.
Implicit Types (inv : InventoryTables) (t : EngineTables) (st : EntityState) (e : EntityId).

(** ** What a save leaves in the tables *)

(** The components of one entity, by their names. *)
Definition named_component (cs : gmap StateComponent ComponentState) (name : string) : option ComponentState :=
  component_parse name ≫= λ c, cs !! c.

Lemma save_components inv st l t t' :
  NoDup l.*1 → try_fold (save_component inv st) t l = inr t' →
  (∀ e name, et_components t' !! (e, name)
     = match (if decide (e = state_entity st) then named_component (list_to_map l) name else None) with
       | Some c => Some (component_row (state_updated_at st) c)
       | None => et_components t !! (e, name)
       end)
  ∧ et_overall t' = et_overall t ∧ et_streams t' = et_streams t ∧ et_resets t' = et_resets t.
Proof.
  revert t. induction l as [|[c cs] l IH]; intros t Hnd; cbn [try_fold].
  { intros [= <-]. split; [|done]. intros e name. unfold named_component.
    destruct (decide (e = state_entity st)), (component_parse name); cbn; by rewrite ?lookup_empty. }
  apply NoDup_cons in Hnd as [Hc Hnd]. destruct (save_component inv st t (c, cs)) as [err|t1] eqn:H1; cbn [sum_bind]; [done|].
  intros (Hcomp & Ho & Hs & Hr)%IH; [|done]. unfold save_component in H1. case_bool_decide; [done|]. injection H1 as <-. split; [|done]. intros e name. rewrite Hcomp.
  cbn [et_components set_component_rows fst snd]. unfold named_component. cbn [list_to_map foldr uncurry fst snd].
  destruct (decide (e = state_entity st)) as [->|He].
  - destruct (component_parse name) as [c'|] eqn:Hp; cbn [mbind option_bind].
    + apply component_parse_Some in Hp as ->. destruct (decide (c' = c)) as [->|Hne].
      * rewrite (lookup_insert_eq (list_to_map l)).
        rewrite (not_elem_of_list_to_map_1 l c Hc). by rewrite lookup_insert_eq.
      * rewrite (lookup_insert_ne (list_to_map l)) by done. destruct (_ !! c'); [done|].
        apply lookup_insert_ne. intros [= Heq]. apply (f_equal component_parse) in Heq. rewrite !component_roundtrip in Heq. congruence.
    + apply lookup_insert_ne. intros [= <-]. by rewrite component_roundtrip in Hp.
  - apply lookup_insert_ne. congruence.
Qed.

(** One entity's state. *)
Definition state_saved (st : EntityState) t t' : Prop :=
  (∀ name, et_components t' !! (state_entity st, name)
     = match named_component (components st) name with
       | Some c => Some (component_row (state_updated_at st) c)
       | None => et_components t !! (state_entity st, name)
       end)
  ∧ ∃ r, et_overall t' !! state_entity st = Some r ∧ or_health r = health_as_str (overall st)
      ∧ or_classifications r = classifications st.

Definition other_states (e : EntityId) t t' : Prop :=
  (∀ name, et_components t' !! (e, name) = et_components t !! (e, name)) ∧ et_overall t' !! e = et_overall t !! e.

Lemma save_entity_state_saved inv t st t' :
  save_entity_state inv t st = inr t' →
  state_saved st t t' ∧ (∀ e, e ≠ state_entity st → other_states e t t')
  ∧ et_streams t' = et_streams t ∧ et_resets t' = et_resets t ∧ is_Some (t_entities inv !! state_entity st).
Proof.
  unfold save_entity_state. destruct (try_fold _ _ _) as [err|t1] eqn:H1; cbn [sum_bind]; [done|].
  apply save_components in H1 as (Hc & Ho & Hs & Hr); [|apply NoDup_btree_keys].
  assert ((list_to_map (btree_entries (components st)) : gmap StateComponent ComponentState) = components st) as Hmap.
  { rewrite (list_to_map_proper _ (map_to_list (components st))); [apply list_to_map_to_list|apply NoDup_btree_keys|apply btree_entries_perm]. }
  rewrite Hmap in Hc. unfold save_overall. case_bool_decide as Hin; [done|]. intros [= <-].
  assert (is_Some (t_entities inv !! state_entity st)) as Hent by (by apply elem_of_dom).
  unfold state_saved, other_states. cbn [et_components et_overall et_streams et_resets set_overall_rows].
  split; [split|split; [|by split_and!]].
  - intros name. by rewrite Hc, decide_True.
  - eexists. split; [apply lookup_insert_eq|done].
  - intros e He. split; [intros name; by rewrite Hc, decide_False|]. by rewrite lookup_insert_ne, Ho.
Qed.

Lemma save_states_other inv sts t t' e :
  try_fold (save_entity_state inv) t sts = inr t' → e ∉ map state_entity sts → other_states e t t'.
Proof.
  revert t. induction sts as [|st sts IH]; intros t; cbn [try_fold map]; [by intros [= <-]|].
  destruct (save_entity_state inv t st) as [err|t1] eqn:H1; cbn [sum_bind]; [done|].
  intros H2 [Hne Hin]%not_elem_of_cons. apply save_entity_state_saved in H1 as (_ & Ho & _).
  destruct (Ho e Hne) as [Hc1 Ho1], (IH t1 H2 Hin) as [Hc2 Ho2]. split; [intros name; by rewrite Hc2, Hc1|congruence].
Qed.

Lemma save_states_saved inv sts t t' st :
  try_fold (save_entity_state inv) t sts = inr t' → NoDup (map state_entity sts) → st ∈ sts → state_saved st t t'.
Proof.
  revert t. induction sts as [|x sts IH]; intros t; cbn [try_fold map]; [by intros _ _ ?%elem_of_nil|].
  destruct (save_entity_state inv t x) as [err|t1] eqn:H1; cbn [sum_bind]; [done|].
  apply save_entity_state_saved in H1 as ([Hc (r & Hr & Hh)] & Ho & _). intros H2 [Hx Hnd]%NoDup_cons [->|Hst]%elem_of_cons.
  - destruct (save_states_other _ _ _ _ _ H2 Hx) as [Hc2 Ho2]. split; [intros name; rewrite Hc2; apply Hc|].
    exists r. by rewrite Ho2.
  - destruct (IH t1 H2 Hnd Hst) as [Hc2 Ho2]. split; [|done].
    assert (state_entity st ≠ state_entity x) as Hne.
    { intros Heq. apply Hx. rewrite <- Heq. by apply list_elem_of_fmap_2. }
    destruct (Ho _ Hne) as [Hc1 _]. intros name. rewrite Hc2, Hc1. by destruct (named_component _ _).
Qed.

Lemma save_states_frame inv sts t t' :
  try_fold (save_entity_state inv) t sts = inr t' → et_streams t' = et_streams t ∧ et_resets t' = et_resets t.
Proof.
  intros H. apply (try_fold_invariant (λ x, et_streams x = et_streams t ∧ et_resets x = et_resets t)) in H; [done| |done].
  intros a st b [Hs Hr] _ Hb. apply save_entity_state_saved in Hb as (_ & _ & -> & -> & _). done.
Qed.

Lemma save_transitions_frame inv trs t t' :
  try_fold (save_state_transition inv) t trs = inr t' →
  et_streams t' = et_streams t ∧ et_resets t' = et_resets t ∧ et_components t' = et_components t ∧ et_overall t' = et_overall t.
Proof.
  intros H. apply (try_fold_invariant (λ x, et_streams x = et_streams t ∧ et_resets x = et_resets t
    ∧ et_components x = et_components t ∧ et_overall x = et_overall t)) in H; [done| |done].
  intros a tr b Ha _ Hb. unfold save_state_transition in Hb. destruct (et_transitions a !! _); [by injection Hb as <-|].
  case_bool_decide; [done|]. by injection Hb as <-.
Qed.

(** The whole engine. *)
Lemma save_engine_saved inv env eng trs t t' :
  engine_wf eng → save_engine inv env eng trs t = inr t' →
  (∃ p, encode_streams (hash_values (streams eng)) = inr p ∧ et_streams t' !! env = Some p)
  ∧ et_resets t' = et_resets t
  ∧ (∀ e st, states eng !! e = Some st → state_saved st t t')
  ∧ (∀ e, states eng !! e = None → other_states e t t').
Proof.
  intros Hwf. unfold save_engine, save_state_streams.
  destruct (encode_streams _) as [err|p] eqn:Hp; [done|]. case_bool_decide; [done|]. cbn [sum_bind].
  set (t0 := set_stream_rows _ t). destruct (try_fold (save_entity_state inv) t0 _) as [err|t1] eqn:H1; cbn [sum_bind]; [done|].
  intros (Hs2 & Hr2 & Hc2 & Ho2)%save_transitions_frame. pose proof (save_states_frame _ _ _ _ H1) as [Hs1 Hr1].
  assert (map state_entity (btree_values (states eng)) = btree_keys (states eng)) as Hkeys.
  { unfold btree_values, btree_keys. rewrite <- list_fmap_compose. apply list_fmap_ext. intros i [e st] Hi.
    apply list_elem_of_lookup_2, elem_of_btree_entries in Hi. cbn. by apply (wf_states _ Hwf). }
  split_and!.
  - exists p. split; [done|]. rewrite Hs2, Hs1. cbn. apply lookup_insert_eq.
  - by rewrite Hr2, Hr1.
  - intros e st Hst. destruct (save_states_saved inv _ t0 t1 st H1) as [Hc Ho].
    + rewrite Hkeys. apply NoDup_btree_keys.
    + apply elem_of_btree_values. by exists e.
    + split; [|by rewrite Ho2]. intros name. by rewrite Hc2, Hc.
  - intros e He. destruct (save_states_other inv _ t0 t1 e H1) as [Hc Ho].
    + rewrite Hkeys, elem_of_btree_keys, He. by intros []%is_Some_None.
    + split; [intros name; by rewrite Hc2, Hc|by rewrite Ho2, Ho].
Qed.
End saving.

(** ** What a controller that starts finds *)

Section loading.
Context `{J : JsonApi} `{U : UuidApi} `{HI : HashIter} `{SC : StreamCodec}.
Implicit Types (inv : InventoryTables) (t : EngineTables) (e : EntityId) (c : StateComponent).

Lemma decode_component_row u cs : forget_since (decode_component (component_row u cs)) = forget_since cs.
Proof. unfold decode_component. cbn. by rewrite health_roundtrip. Qed.

Lemma load_components_spec now l m e st :
  m !! e = Some st → NoDup l.*1 →
  ∃ st', foldl (load_component now) m l !! e = Some st' ∧ state_entity st' = state_entity st
    ∧ overall st' = overall st ∧ classifications st' = classifications st
    ∧ ∀ c, components st' !! c
         = match (list_to_map l : gmap (EntityId * string) ComponentRow) !! (e, component_as_str c) with
           | Some r => Some (decode_component r)
           | None => components st !! c
           end.
Proof.
  revert m st. induction l as [|[[x name] r] l IH]; intros m st Hm Hnd; cbn [foldl].
  { exists st. by split_and!. }
  apply NoDup_cons in Hnd as [Hx Hnd]. cbn [list_to_map foldr uncurry fst snd].
  assert (load_component now m (x, name, r) = match component_parse name with
    | None => m
    | Some c => <[ x := put_component c (decode_component r) (default (entity_state_unknown now x) (m !! x)) ]> m
    end) as -> by done.
  assert (∀ c, (e, component_as_str c) ≠ (x, name) →
    (<[ (x, name) := r ]> (list_to_map l) : gmap (EntityId * string) ComponentRow) !! (e, component_as_str c)
    = (list_to_map l : gmap (EntityId * string) ComponentRow) !! (e, component_as_str c)) as Hother
    by (intros c Hne; by rewrite lookup_insert_ne).
  destruct (component_parse name) as [c'|] eqn:Hp.
  - apply component_parse_Some in Hp as ->. destruct (decide (x = e)) as [->|Hne].
    + rewrite Hm. cbn [default from_option id]. destruct (IH (<[ e := put_component c' (decode_component r) st ]> m) (put_component c' (decode_component r) st))
        as (st' & -> & He & Ho & Hc & Hcs); [apply lookup_insert_eq|done|].
      exists st'. split_and!; try done. intros c. rewrite Hcs. cbn [components put_component].
      destruct (decide (c = c')) as [->|Hcc].
      * rewrite !lookup_insert_eq. by rewrite (not_elem_of_list_to_map_1 l _ Hx).
      * rewrite Hother, (lookup_insert_ne (components st)) by (congruence || intros [= Heq%(f_equal component_parse)];
          rewrite !component_roundtrip in Heq; congruence). done.
    + destruct (IH (<[ x := put_component c' (decode_component r) (default (entity_state_unknown now x) (m !! x)) ]> m) st)
        as (st' & -> & He & Ho & Hc & Hcs); [by rewrite lookup_insert_ne|done|].
      exists st'. split_and!; try done. intros c. rewrite Hcs, Hother; [done|congruence].
  - destruct (IH m st Hm Hnd) as (st' & -> & He & Ho & Hc & Hcs). exists st'. split_and!; try done.
    intros c. rewrite Hcs, Hother; [done|]. intros [= _ <-]. by rewrite component_roundtrip in Hp.
Qed.

Lemma load_components_dom now l m e st :
  foldl (load_component now) m l !! e = Some st →
  is_Some (m !! e) ∨ ∃ c r, ((e, component_as_str c), r) ∈ l.
Proof.
  revert m. induction l as [|[[x name] r] l IH]; intros m; cbn [foldl]; [by left; eexists|].
  intros [Hm|(c & r' & Hin)]%IH; [|right; exists c, r'; by right]. unfold load_component in Hm.
  destruct (component_parse name) as [c|] eqn:Hp; [|by left]. apply component_parse_Some in Hp as ->.
  destruct (decide (x = e)) as [->|Hne]; [right; exists c, r; by left|]. left. by rewrite lookup_insert_ne in Hm.
Qed.

(** The tables hold nothing of an environment that the engine does not know. *)
Definition covered inv env eng t : Prop :=
  (∀ e c r, in_environment inv env e → et_components t !! (e, component_as_str c) = Some r → is_Some (component_of eng e c))
  ∧ ∀ e r, in_environment inv env e → et_overall t !! e = Some r → is_Some (states eng !! e).

(** A loaded state is the saved one, but for the times. *)
Definition same_state (st st' : EntityState) : Prop :=
  state_entity st' = state_entity st ∧ overall st' = overall st ∧ classifications st' = classifications st
  ∧ ∀ c, forget_since <$> components st' !! c = forget_since <$> components st !! c.

Lemma loaded_states now inv env eng t t' :
  engine_wf eng → covered inv env eng t →
  (∀ e st, states eng !! e = Some st → state_saved st t t') → (∀ e, states eng !! e = None → other_states e t t') →
  ∀ e, match load_entity_states now inv env t' !! e with
       | Some st' => in_environment inv env e ∧ ∃ st, states eng !! e = Some st ∧ same_state st st'
       | None => in_environment inv env e → states eng !! e = None
       end.
Proof.
  intros Hwf [Hcov Hcov'] Hsaved Hother e. unfold load_entity_states.
  set (m0 := map_imap _ (et_overall t')). set (l := filter _ (hash_iter (et_components t'))).
  assert (NoDup l.*1) as Hnd.
  { apply (sublist_NoDup _ (hash_iter (et_components t')).*1); [apply NoDup_hash_keys|].
    apply fmap_sublist, sublist_filter. }
  assert (∀ e' name r, ((e', name), r) ∈ l ↔ in_environment inv env e' ∧ et_components t' !! (e', name) = Some r) as Hl.
  { intros e' name r. unfold l. by rewrite list_elem_of_filter, elem_of_hash_iter. }
  assert (∀ e', m0 !! e' = if decide (in_environment inv env e') then decode_overall e' <$> et_overall t' !! e' else None) as Hm0.
  { intros e'. unfold m0. rewrite map_lookup_imap. destruct (et_overall t' !! e'); cbn; by case_decide. }
  destruct (states eng !! e) as [st|] eqn:Hst.
  - destruct (Hsaved e st Hst) as [Hc (r & Hr & Hh & Hcl)].
    assert (state_entity st = e) as He by (by apply (wf_states _ Hwf)). rewrite He in Hc, Hr.
    destruct (decide (in_environment inv env e)) as [Hin|Hin].
    + destruct (load_components_spec now l m0 e (decode_overall e r)) as (st' & -> & He' & Ho' & Hcl' & Hcs');
        [by rewrite Hm0, decide_True, Hr|done|].
      split; [done|]. exists st. split; [done|]. split; [by rewrite He', He|]. split; [|split].
      * rewrite Ho'. cbn. by rewrite Hh, health_roundtrip.
      * rewrite Hcl'. done.
      * intros c. rewrite Hcs'. specialize (Hc (component_as_str c)). unfold named_component in Hc.
        rewrite component_roundtrip in Hc. cbn [mbind option_bind] in Hc.
        destruct (list_to_map l !! (e, component_as_str c)) as [row|] eqn:Hrow.
        -- apply elem_of_list_to_map_2, Hl in Hrow as [_ Hrow]. rewrite Hrow in Hc.
           destruct (components st !! c) as [cs|] eqn:Hcs.
           ++ injection Hc as ->. cbn. f_equal. apply decode_component_row.
           ++ symmetry in Hc. apply (Hcov e c row Hin) in Hc as [cs Hcs2]. unfold component_of in Hcs2.
              rewrite Hst in Hcs2. cbn in Hcs2. congruence.
        -- apply not_elem_of_list_to_map_2 in Hrow. destruct (components st !! c) as [cs|] eqn:Hcs; [|done].
           exfalso. apply Hrow, list_elem_of_fmap. exists ((e, component_as_str c), component_row (state_updated_at st) cs).
           split; [done|]. by apply Hl.
    + destruct (foldl _ m0 l !! e) as [st'|] eqn:Hf; [|done]. exfalso.
      apply load_components_dom in Hf as [[x Hx]|(c & row & [? _]%Hl)]; [|done]. by rewrite Hm0, decide_False in Hx.
  - destruct (Hother e Hst) as [Hc Ho]. destruct (foldl _ m0 l !! e) as [st'|] eqn:Hf; [|done]. exfalso.
    apply load_components_dom in Hf as [[x Hx]|(c & row & [Hin Hrow]%Hl)].
    + rewrite Hm0 in Hx. case_decide as Hin; [|done]. rewrite Ho in Hx. destruct (et_overall t !! e) as [row|] eqn:Hrow; [|done].
      destruct (Hcov' e row Hin Hrow). congruence.
    + rewrite Hc in Hrow. apply (Hcov e c row Hin) in Hrow as [cs Hcs]. unfold component_of in Hcs. by rewrite Hst in Hcs.
Qed.
End loading.

(** ** Starting *)

Lemma insert_values {K V} `{Countable K} (key : V → K) (l : list (K * V)) (m0 : gmap K V) :
  NoDup l.*1 → (∀ k v, (k, v) ∈ l → key v = k) →
  foldl (λ m v, <[ key v := v ]> m) m0 l.*2 = list_to_map l ∪ m0.
Proof.
  revert m0. induction l as [|[k v] l IH]; intros m0 Hnd Hkey; cbn [foldl fmap list_fmap fst snd].
  { by rewrite list_to_map_nil, map_empty_union. }
  apply NoDup_cons in Hnd as [Hk Hnd]. rewrite (Hkey k v) by (by left). rewrite IH; [|done|].
  - rewrite list_to_map_cons. rewrite <- insert_union_r by (by apply not_elem_of_list_to_map_1). by rewrite insert_union_l.
  - intros k' v' Hin. apply Hkey. by right.
Qed.

(** Values filed under their own keys, put back in any order. *)
Lemma insert_own_values {K V} `{Countable K} (key : V → K) (M : gmap K V) (l : list (K * V)) :
  l ≡ₚ map_to_list M → (∀ k v, M !! k = Some v → key v = k) →
  foldl (λ m v, <[ key v := v ]> m) ∅ l.*2 = M.
Proof.
  intros Hl Hkey. rewrite insert_values.
  - rewrite map_union_empty. rewrite (list_to_map_proper _ (map_to_list M)); [apply list_to_map_to_list| |done].
    rewrite Hl. apply NoDup_fst_map_to_list.
  - rewrite Hl. apply NoDup_fst_map_to_list.
  - intros k v Hin. apply Hkey. rewrite Hl in Hin. by apply elem_of_map_to_list.
Qed.

(** What a roll-up depends on. *)
Lemma rollup_same (cs cs' : gmap StateComponent ComponentState) :
  (∀ c, forget_since <$> cs' !! c = forget_since <$> cs !! c) → rollup_of cs' = rollup_of cs.
Proof.
  intros Hsame.
  assert (∀ cs cs' : gmap StateComponent ComponentState, (∀ c, forget_since <$> cs' !! c = forget_since <$> cs !! c) →
    ∀ h, h ∈ filter (λ h, h ≠ NotApplicable) (map health (btree_values cs')) →
         h ∈ filter (λ h, h ≠ NotApplicable) (map health (btree_values cs))) as Hsub.
  { clear. intros cs cs' Hs h. rewrite !rollup_elem. intros (Hh & c & st & Hc & <-). split; [done|].
    specialize (Hs c). rewrite Hc in Hs. destruct (cs !! c) as [st'|] eqn:Hc'; [|done]. exists c, st'.
    split; [done|]. by injection Hs. }
  assert (∀ h, h ∈ filter (λ h, h ≠ NotApplicable) (map health (btree_values cs'))
             ↔ h ∈ filter (λ h, h ≠ NotApplicable) (map health (btree_values cs))) as Heq by (split; by apply Hsub).
  unfold rollup_of. f_equal.
  destruct (max_by_key severity_rank (filter _ (map health (btree_values cs')))) as [x|] eqn:Hx;
  destruct (max_by_key severity_rank (filter _ (map health (btree_values cs)))) as [y|] eqn:Hy; [| | |done].
  - apply max_by_key_Some in Hx as [Hx1 Hx2], Hy as [Hy1 Hy2]. f_equal. apply (inj severity_rank).
    apply (anti_symm key_le); [apply Hy2; by apply Heq|apply Hx2; by apply Heq].
  - apply max_by_key_Some in Hx as [Hx%Heq _]. apply max_by_key_None in Hy. rewrite Hy in Hx. by apply elem_of_nil in Hx.
  - apply max_by_key_Some in Hy as [Hy%Heq _]. apply max_by_key_None in Hx. rewrite Hx in Hy. by apply elem_of_nil in Hy.
Qed.

Section starting.
Context `{J : JsonApi} `{U : UuidApi} `{HI : HashIter} `{SC : StreamCodec}.
Implicit Types (inv : InventoryTables) (t : EngineTables) (e : EntityId) (c : StateComponent).

(** Seeding the loaded states. *)
Lemma seed_all (M : gmap EntityId EntityState) eng :
  states eng = ∅ → (∀ e st, M !! e = Some st → state_entity st = e) →
  foldl (λ eng st, seed st eng) eng (btree_values M) = with_states M eng.
Proof.
  intros Hempty Hkey. assert (∀ l eng, foldl (λ eng st, seed st eng) eng l
    = with_states (foldl (λ m st, <[ state_entity st := st ]> m) (states eng) l) eng) as Hfold.
  { clear. induction l as [|st l IH]; intros eng; [by destruct eng|]. cbn [foldl]. rewrite IH. by destruct eng. }
  rewrite Hfold, Hempty. f_equal. apply insert_own_values; [apply btree_entries_perm|done].
Qed.

(** The hosts whose GPU monitoring an inventory turns off. *)
Definition gpu_off (x : ManagedEntity) : Prop :=
  entity_kind x = Entity_Host ∧ AgentRegistration ∈ discovery_sources x ∧
  default (bool_decide (GPU_NVIDIA ∈ entity_capabilities x))
    (agent ← json_get (entity_metadata x) "agent"; flag ← json_get agent "gpu_nvidia_monitoring"; json_as_bool flag) = false.

#[local] Instance gpu_off_dec x : Decision (gpu_off x).
Proof. unfold gpu_off. apply _. Defined.

(** Recomputing keeps an entity's labels; its overall health moves only with
    its components. *)
Definition kept (st st' : EntityState) : Prop :=
  classifications st' = classifications st ∧ (overall st' = overall st ∨ components st' ≠ ∅)
  ∧ (components st ≠ ∅ → components st' ≠ ∅).

Lemma kept_refl st : kept st st.
Proof. split_and!; [done|by left|done]. Qed.

Lemma kept_trans st1 st2 st3 : kept st1 st2 → kept st2 st3 → kept st1 st3.
Proof. intros (C1 & [O1|O1] & N1) (C2 & [O2|O2] & N2); (split; [congruence|]); (split; [|tauto]); [left; congruence|tauto..]. Qed.

(** What configuring leaves of an engine without streams. *)
Record configured (es : list ManagedEntity) eng eng' : Prop := {
  conf_wf : engine_wf eng';
  conf_settled : settled eng';
  conf_streams : streams eng' = ∅;
  conf_mappings : mappings eng' = mappings eng;
  conf_cutoff : observation_cutoff eng' = observation_cutoff eng;
  conf_disabled e p : (e, p) ∈ disabled eng' ↔ (e, p) ∈ disabled eng ∨ p = PROBE_GPU ∧ ∃ x, x ∈ es ∧ entity_eid x = e ∧ gpu_off x;
  conf_component e c : component_of eng' e c = component_of eng e c
    ∨ muted eng' e c ∧ is_Some (component_of eng e c) ∧ is_Some (component_of eng' e c);
  conf_states e st : states eng !! e = Some st → ∃ st', states eng' !! e = Some st' ∧ kept st st'
}.

Lemma recompute_states now fresh e c eng e' st :
  states eng !! e' = Some st → ∃ st', states (recompute now fresh e c eng).1 !! e' = Some st' ∧ kept st st'.
Proof.
  intros Hst. unfold recompute. cbn [fst states with_states]. destruct (decide (e' = e)) as [->|Hne].
  - rewrite lookup_insert_eq. eexists. split; [done|]. unfold state_or_unknown. rewrite Hst. cbn.
    split; [done|]. split; [right|intros _]; apply insert_non_empty.
  - rewrite lookup_insert_ne by done. exists st. split; [done|apply kept_refl].
Qed.

Lemma configure_one now fresh x eng m :
  engine_wf eng → settled eng → streams eng = ∅ → mappings eng !! PROBE_GPU = Some m →
  (entity_eid x, PROBE_GPU) ∉ disabled eng →
  configured [x] eng (configure_gpu_monitoring now fresh eng x).1.
Proof.
  intros Hwf Hset Hstr Hm Hd. unfold configure_gpu_monitoring.
  assert (configured [x] eng eng ∨ gpu_off x) as Hsame.
  { destruct (decide (gpu_off x)) as [Ho|Ho]; [by right|left]. split; try done; [|by left|].
    - intros e p. split; [by left|]. intros [?|(_ & y & ->%list_elem_of_singleton & _ & ?)]; done.
    - intros e st Hst. exists st. split; [done|apply kept_refl]. }
  set (flag := default _ _). destruct (_ || _) eqn:Hguard; [|destruct flag eqn:Hflag].
  - destruct Hsame as [Hc|(Hk & Hs & _)]; [done|]. apply orb_true_iff in Hguard as [Hg|Hg]; by apply bool_decide_eq_true in Hg.
  - destruct Hsame as [Hc|(_ & _ & Hf)]; [|unfold flag in Hflag; congruence]. unfold set_probe_enabled. rewrite Hm.
    by rewrite bool_decide_false.
  - apply orb_false_iff in Hguard as [Hg1 Hg2]. apply bool_decide_eq_false in Hg1, Hg2. apply dec_stable in Hg1, Hg2.
    pose proof (set_probe_enabled_wf now fresh (entity_eid x) PROBE_GPU false eng Hwf) as Hwf'.
    pose proof (set_probe_enabled_settled now fresh (entity_eid x) PROBE_GPU false eng Hwf Hset) as Hset'.
    revert Hwf' Hset'. unfold set_probe_enabled. rewrite Hm, bool_decide_true by done.
    set (eng1 := with_disabled _ eng). intros Hwf' Hset'.
    assert (∀ e p, (e, p) ∈ disabled eng1 ↔ (e, p) ∈ disabled eng ∨ p = PROBE_GPU ∧ ∃ y, y ∈ [x] ∧ entity_eid y = e ∧ gpu_off y) as Hdis.
    { intros e p. cbn [disabled with_disabled eng1]. rewrite elem_of_union, elem_of_singleton. split.
      - intros [[= -> ->]|?]; [|by left]. right. split; [done|]. exists x. split; [by left|]. split; [done|]. by split_and!.
      - intros [?|(-> & y & ->%list_elem_of_singleton & <- & _)]; [by right|by left]. }
    assert (muted eng1 (entity_eid x) (mapping_component m)) as Hmuted.
    { exists PROBE_GPU, m. split_and!; [|done|done]. cbn. set_solver. }
    assert (engine_wf eng1) as Hwf1 by (by destruct Hwf).
    destruct (states eng1 !! entity_eid x) as [st|] eqn:Hst; [destruct (decide _) as [Hc|Hc]|].
    + split; try done.
      * intros e c. destruct (recompute_component now fresh (entity_eid x) (mapping_component m) eng1 e c)
          as [[[= -> ->] (cs & Hcs & _)]|[_ Heq]]; [right|by left].
        split; [done|]. split; [|by eexists]. unfold component_of. change (states eng) with (states eng1). by rewrite Hst.
      * intros e st'. apply (recompute_states now fresh _ _ eng1).
    + split; try done; [by left|]. intros e st' Hst'. exists st'. split; [done|apply kept_refl].
    + split; try done; [by left|]. intros e st' Hst'. exists st'. split; [done|apply kept_refl].
Qed.

Lemma configured_nil eng : engine_wf eng → settled eng → streams eng = ∅ → configured [] eng eng.
Proof.
  intros Hwf Hset Hstr. split; try done; [|by left|].
  - intros e p. split; [by left|]. intros [?|(_ & y & Hy%elem_of_nil & _)]; done.
  - intros e st Hst. exists st. split; [done|apply kept_refl].
Qed.

Lemma configured_cons x es eng1 eng2 eng3 :
  configured [x] eng1 eng2 → configured es eng2 eng3 → configured (x :: es) eng1 eng3.
Proof.
  intros [W1 S1 R1 M1 K1 D1 C1 T1] [W2 S2 R2 M2 K2 D2 C2 T2]. split; [done|done|done|congruence|congruence| | |].
  - intros e p. rewrite D2, D1. split.
    + intros [[?|(-> & y & ->%list_elem_of_singleton & Hy)]|(-> & y & Hy & ?)]; [by left|right|right]; (split; [done|]).
      * exists x. split; [by left|done].
      * exists y. split; [by right|done].
    + intros [?|(-> & y & [->|Hy]%elem_of_cons & ?)]; [by left; left|left; right|right]; (split; [done|]).
      * exists x. split; [by left|done].
      * by exists y.
  - intros e c. assert (muted eng2 e c → muted eng3 e c) as Hmono.
    { intros (p & m & Hp & Hm & Hc). exists p, m. split_and!; [apply D2; by left|by rewrite M2|done]. }
    destruct (C2 e c) as [->|(Hmu & [a Ha] & Hb)], (C1 e c) as [E|(Hmu' & Hx & [y Hy])]; rewrite ?E.
    + by left.
    + right. split; [by apply Hmono|]. split; [done|by eexists].
    + right. split_and!; [done| |done]. rewrite <- E. by eexists.
    + by right.
  - intros e st (st2 & Hst2 & Hk2)%T1. destruct (T2 e st2 Hst2) as (st3 & Hst3 & Hk3).
    exists st3. split; [done|]. by apply (kept_trans _ st2).
Qed.

Lemma configure_all_configured now fresh es eng m :
  engine_wf eng → settled eng → streams eng = ∅ → mappings eng !! PROBE_GPU = Some m →
  NoDup (map entity_eid es) → (∀ x, x ∈ es → (entity_eid x, PROBE_GPU) ∉ disabled eng) →
  configured es eng (configure_all now fresh es eng).1.
Proof.
  unfold configure_all. generalize (@nil StateTransition). revert eng.
  induction es as [|x es IH]; intros eng ts Hwf Hset Hstr Hm Hnd Hen; cbn [foldl]; [by apply configured_nil|].
  apply NoDup_cons in Hnd as [Hx Hnd].
  assert (configured [x] eng (configure_gpu_monitoring now fresh eng x).1) as Hone
    by (apply (configure_one now fresh x eng m); [done..|apply Hen; by left]).
  destruct (configure_gpu_monitoring now fresh eng x) as [eng1 tr]. cbn [fst] in Hone.
  apply (configured_cons x es eng eng1); [done|]. destruct Hone as [W S R M _ D _ _]. apply IH; [done..|by rewrite M|done|].
  intros y Hy [Hd|(_ & z & ->%list_elem_of_singleton & Heq & _)]%D.
  - apply (Hen y); [by right|done].
  - apply Hx. rewrite Heq. by apply list_elem_of_fmap_2.
Qed.

(** ** Restarting *)

(** The probes the inventory disables are the ones the engine has disabled. *)
Definition agreed_monitoring env inv eng : Prop :=
  ∀ inventory, load_inventory env inv = inr inventory →
  ∀ e p, (e, p) ∈ disabled eng ↔ p = PROBE_GPU ∧ ∃ x, x ∈ entities inventory ∧ entity_eid x = e ∧ gpu_off x.

(** What the engine shows of an entity, but for the times. *)
Definition shows_same eng eng' e : Prop :=
  ∀ st, states eng !! e = Some st → ∃ st', states eng' !! e = Some st' ∧ same_state st st'.

Lemma recompute_all_states now fresh ecs eng e st :
  states eng !! e = Some st → ∃ st', states (recompute_all now fresh ecs eng).1 !! e = Some st' ∧ kept st st'.
Proof.
  intros Hst. apply (recompute_all_invariant now fresh (λ eng', ∃ st', states eng' !! e = Some st' ∧ kept st st')).
  - exists st. split; [done|apply kept_refl].
  - intros e' c' eng1 (st1 & H1 & Hk1). destruct (recompute_states now fresh e' c' eng1 e st1 H1) as (st2 & H2 & Hk2).
    exists st2. split; [done|]. by apply (kept_trans _ st1).
Qed.

Lemma idle_probes : idle (register_builtin_probes state_engine_new).
Proof. by split_and!. Qed.

Lemma loaded_engine_frame (M : gmap EntityId EntityState) cutoff eng :
  let eng' := with_states M (set_observation_cutoff cutoff eng) in
  mappings eng' = mappings eng ∧ streams eng' = streams eng ∧ disabled eng' = disabled eng ∧ states eng' = M
  ∧ observation_cutoff eng' = cutoff.
Proof. done. Qed.

Lemma cutoff_states cutoff eng : states (set_observation_cutoff cutoff eng) = states eng.
Proof. done. Qed.

Lemma gpu_mapping : ∃ m, mappings (register_builtin_probes state_engine_new) !! PROBE_GPU = Some m.
Proof. eexists. reflexivity. Qed.

(** An engine with states and nothing else is settled. *)
Lemma loaded_engine_settled (M : gmap EntityId EntityState) cutoff :
  (∀ e st, M !! e = Some st → state_entity st = e ∧ overall_ok st) →
  let eng := with_states M (set_observation_cutoff cutoff (register_builtin_probes state_engine_new)) in
  engine_wf eng ∧ settled eng.
Proof.
  intros HM eng. split; split.
  - intros k s Hs. cbn in Hs. by rewrite lookup_empty in Hs.
  - intros e st Hst. by apply HM.
  - intros e st Hst. by apply (HM e).
  - intros k s m Hs. cbn in Hs. by rewrite lookup_empty in Hs.
  - intros e c (k & s & Hs & _). cbn in Hs. by rewrite lookup_empty in Hs.
  - intros e c cs _ [(k & s & Hs & _)|(p & m & Hp & _)]; [cbn in Hs; by rewrite lookup_empty in Hs|].
    cbn in Hp. by apply elem_of_empty in Hp.
Qed.

(** What the streams of a settled engine make of a configured one. *)
Lemma seeded_streams es eng eng1 eng2 :
  engine_wf eng → configured es eng1 eng2 →
  foldl (λ m s, <[ stream_key s := s ]> m) (streams eng2) (hash_values (streams eng)) = streams eng.
Proof.
  intros Hwf [_ _ R2 _ _ _ _ _]. rewrite R2. apply insert_own_values; [apply hash_iter_perm|apply (wf_streams _ Hwf)].
Qed.

Lemma seeded_components eng e c :
  (e, c) ∈ btree_elements (list_to_set (map (λ s, (stream_entity s, stream_component s)) (hash_values (streams eng)))
                            : gset (EntityId * StateComponent)) ↔ fed eng e c.
Proof.
  rewrite elem_of_btree_elements, elem_of_list_to_set, list_elem_of_fmap. split.
  - intros (s & [= -> ->] & [k Hk]%elem_of_hash_values). by exists k, s.
  - intros (k & s & Hk & <- & <-). exists s. split; [done|]. apply elem_of_hash_values. by exists k.
Qed.

(** Without streams feeding it, a component is nobody's. *)
Lemma unfed_recomputed eng eng' e c :
  engine_wf eng → engine_wf eng' → ¬ fed eng e c → ¬ fed eng' e c → recomputed eng' e c = recomputed eng e c.
Proof.
  intros Hwf Hwf' Hn Hn'. apply recomputed_same; [done|done|]. intros s.
  split; intros [Hk (He & Hc & _)]; exfalso; [apply Hn'|apply Hn]; by exists (stream_key s), s.
Qed.

Lemma resume_settled now fresh es eng eng1 eng2 :
  engine_wf eng → settled eng → configured es eng1 eng2 → mappings eng2 = mappings eng →
  settled (seed_streams now fresh (hash_values (streams eng)) eng2).
Proof.
  intros Hwf Hset Hconf Hm. unfold seed_streams. rewrite (seeded_streams es eng eng1 eng2 Hwf Hconf).
  destruct Hconf as [W2 S2 R2 _ _ _ _ _]. set (eng2' := with_streams (streams eng) eng2).
  assert (engine_wf eng2') as W2' by (apply with_streams_wf; [done|apply (wf_streams _ Hwf)]).
  assert (∀ e c, fed eng2' e c ↔ fed eng e c) as Hfed by done.
  apply recompute_all_settled.
  - intros k s m Hs Hmp. apply (settled_coherent _ Hset k s m Hs). by rewrite <- Hm.
  - intros e c Hx Hf%Hfed. exfalso. by apply Hx, seeded_components.
  - intros e c cs Hx Hcs Hor. assert (¬ fed eng e c) as Hnf by (by rewrite <- seeded_components).
    destruct Hor as [Hf%Hfed|Hmu]; [done|].
    rewrite (unfed_recomputed eng2 eng2'); [|done|done| |by rewrite Hfed].
    + apply (settled_resolved _ S2); [done|by right].
    + intros (k & s & Hk & _). by rewrite R2, lookup_empty in Hk.
Qed.

(** Putting the streams of a settled engine into a configured one. *)
Lemma resume_streams now fresh es eng eng1 eng2 :
  engine_wf eng → settled eng → configured es eng1 eng2 → mappings eng2 = mappings eng → disabled eng2 = disabled eng →
  let eng3 := seed_streams now fresh (hash_values (streams eng)) eng2 in
  streams eng3 = streams eng ∧ disabled eng3 = disabled eng ∧ observation_cutoff eng3 = observation_cutoff eng2
  ∧ ∀ e c, forget_since <$> component_of eng1 e c = forget_since <$> component_of eng e c →
      forget_since <$> component_of eng3 e c = forget_since <$> component_of eng e c.
Proof.
  intros Hwf Hset Hconf Hm Hd. unfold seed_streams. rewrite (seeded_streams es eng eng1 eng2 Hwf Hconf).
  destruct Hconf as [W2 S2 R2 _ _ _ C2 _]. set (eng2' := with_streams (streams eng) eng2). set (ecs := btree_elements _).
  cbn zeta. split; [by rewrite recompute_all_streams|]. split.
  { by apply (recompute_all_invariant now fresh (λ x, disabled x = disabled eng)). }
  split; [by apply (recompute_all_invariant now fresh (λ x, observation_cutoff x = observation_cutoff eng2))|].
  intros e c Hloaded. destruct (recompute_all_component now fresh ecs eng2' e c) as [Hin Hout].
  destruct (decide ((e, c) ∈ ecs)) as [Hx|Hx].
  - destruct (Hin Hx) as (cs & -> & Hf). apply seeded_components in Hx. destruct (settled_present _ Hset e c Hx) as [cs' Hcs'].
    rewrite Hcs'. cbn. f_equal. rewrite Hf, (settled_resolved _ Hset e c cs' Hcs' (or_introl Hx)).
    by apply recomputed_frame.
  - rewrite Hout by done. change (component_of eng2') with (component_of eng2).
    assert (¬ fed eng e c) as Hnf by (by rewrite <- seeded_components).
    destruct (C2 e c) as [->|(Hmu & [a Ha] & [b Hb])]; [done|]. rewrite Hb. rewrite Ha in Hloaded.
    destruct (component_of eng e c) as [cs|] eqn:Hcs; [|done]. cbn. f_equal.
    assert (muted eng e c) as Hmu'.
    { destruct Hmu as (p & m & Hp & Hpm & Hc). exists p, m. by rewrite <- Hd, <- Hm. }
    rewrite (settled_resolved _ S2 e c b Hb (or_intror Hmu)), (settled_resolved _ Hset e c cs Hcs (or_intror Hmu')).
    apply unfed_recomputed; [done|done|done|]. intros (k & s & Hk & _). by rewrite R2, lookup_empty in Hk.
Qed.

(** Two states with the same components, of well-formed engines. *)
Lemma shows_same_states eng eng1 eng3 e st :
  engine_wf eng → engine_wf eng3 → states eng !! e = Some st →
  (∃ st1, states eng1 !! e = Some st1 ∧ same_state st st1 ∧ ∃ st3, states eng3 !! e = Some st3 ∧ kept st1 st3) →
  (∀ c, forget_since <$> component_of eng3 e c = forget_since <$> component_of eng e c) →
  ∃ st', states eng3 !! e = Some st' ∧ same_state st st'.
Proof.
  intros Hwf Hwf3 Hst (st1 & Hst1 & (Hid & Ho & Hcl & Hcs) & st3 & Hst3 & Hcl3 & Ho3 & _) Hcomp.
  assert (∀ c, forget_since <$> components st3 !! c = forget_since <$> components st !! c) as Hcs3.
  { intros c. specialize (Hcomp c). unfold component_of in Hcomp. by rewrite Hst, Hst3 in Hcomp. }
  exists st3. split; [done|]. split; [by rewrite (wf_states _ Hwf3 e st3 Hst3), (wf_states _ Hwf e st Hst)|].
  split; [|split; [congruence|done]].
  destruct (decide (components st3 = ∅)) as [Hz|Hne].
  - destruct Ho3 as [Ho3|?]; [congruence|done].
  - rewrite (wf_overall _ Hwf3 e st3 Hst3 Hne). assert (components st ≠ ∅) as Hne'.
    { intros Hz. apply Hne, map_empty. intros c. specialize (Hcs3 c). rewrite Hz, lookup_empty in Hcs3.
      by destruct (components st3 !! c). }
    rewrite (wf_overall _ Hwf e st Hst Hne'). by apply rollup_same.
Qed.
(** Seeding keeps what there was of a state. *)
Lemma seed_streams_states now fresh ss eng e st :
  states eng !! e = Some st → ∃ st', states (seed_streams now fresh ss eng) !! e = Some st' ∧ kept st st'.
Proof. intros Hst. unfold seed_streams. by apply recompute_all_states. Qed.

(** What the tables hold is a state per entity, of the overall health its
    components have. *)
Lemma loaded_states_wf `{T : TimeApi} now inv env eng t t' e st' :
  engine_wf eng →
  (∀ e, match load_entity_states now inv env t' !! e with
        | Some st' => in_environment inv env e ∧ ∃ st, states eng !! e = Some st ∧ same_state st st'
        | None => in_environment inv env e → states eng !! e = None
        end) →
  load_entity_states now inv env t' !! e = Some st' → state_entity st' = e ∧ overall_ok st'.
Proof.
  intros Hwf HM HMe. specialize (HM e). rewrite HMe in HM. destruct HM as (_ & st & Hst & Hid & Ho & _ & Hcs).
  split; [by rewrite Hid, (wf_states _ Hwf e st Hst)|]. intros Hz. rewrite Ho.
  assert (components st ≠ ∅) as Hz'.
  { intros Hz'. apply Hz, map_empty. intros c. specialize (Hcs c). rewrite Hz', lookup_empty in Hcs. by destruct (components st' !! c). }
  rewrite (wf_overall _ Hwf e st Hst Hz'). unfold rollup. symmetry. by apply rollup_same.
Qed.

(** The engine of a controller that starts, before the streams come back: the
    loaded states, configured for the entities of the inventory. *)
Lemma configured_at_start `{T : TimeApi} now fresh env inv inventory cutoff (M : gmap EntityId EntityState) :
  (∀ e st, M !! e = Some st → state_entity st = e ∧ overall_ok st) → load_inventory env inv = inr inventory →
  let eng1 := with_states M (set_observation_cutoff cutoff (register_builtin_probes state_engine_new)) in
  configured (entities inventory) eng1 (configure_all now fresh (entities inventory) eng1).1.
Proof.
  intros HM Hinv eng1. destruct (loaded_engine_settled M cutoff HM) as [W1 S1]. fold eng1 in W1, S1.
  destruct gpu_mapping as [m Hm].
  destruct (loaded_engine_frame M cutoff (register_builtin_probes state_engine_new)) as (Hm1 & Hstr1 & Hdis1 & _ & _).
  fold eng1 in Hm1, Hstr1, Hdis1. destruct idle_probes as (Hi1 & Hi2 & Hi3). rewrite Hi1 in Hstr1. rewrite Hi3 in Hdis1. rewrite <- Hm1 in Hm.
  apply (configure_all_configured now fresh (entities inventory) eng1 m W1 S1 Hstr1 Hm).
  - rewrite entities_keys; [apply NoDup_btree_keys|]. intros k x Hx. by apply (load_inventory_entities _ _ _ Hinv) in Hx as [? _].
  - intros x _. rewrite Hdis1. apply not_elem_of_empty.
Qed.
End starting.

(** C11.  A restart forgets nothing: a controller that starts from what the last
    one saved has the same streams, disabled probes and observation boundary,
    and shows of every entity of its environment the same health, component by
    component and overall, with the same evidence, counters and labels. *)
Theorem restart_resumes `{JsonApi} `{UuidApi} `{HashIter} `{TimeApi} `{StreamCodec} `{!StreamLaws}
    julianday_within now fresh env rows inv (eng : StateEngine) trs t t' :
  tables_wf inv → engine_wf eng → settled eng → streams eng ≠ ∅ →
  mappings eng = mappings (register_builtin_probes state_engine_new) →
  observation_cutoff eng = et_resets t !! env →
  covered inv env eng t → agreed_monitoring env inv eng →
  save_engine inv env eng trs t = inr t' →
  ∃ eng' trs', start_engine julianday_within now fresh env rows inv t' = inr (eng', trs')
    ∧ engine_wf eng' ∧ settled eng' ∧ streams eng' = streams eng ∧ disabled eng' = disabled eng
    ∧ observation_cutoff eng' = observation_cutoff eng
    ∧ ∀ e, in_environment inv env e → shows_same eng eng' e.
Proof.
  intros Htwf Hwf Hset Hne Hmap Hcut Hcov Hmon Hsave.
  destruct (save_engine_saved _ _ _ _ _ _ Hwf Hsave) as ((p & Hp & Hrow) & Hres & Hsaved & Hother).
  pose proof (loaded_states now inv env eng t t' Hwf Hcov Hsaved Hother) as HM.
  pose proof (λ e st', loaded_states_wf now inv env eng t t' e st' Hwf HM) as HMwf. set (M := load_entity_states now inv env t') in *.
  assert (∃ inventory, load_inventory env inv = inr inventory) as [inventory Hinv].
  { unfold load_inventory. destruct (load_entities_total env inv Htwf) as [es ->]. cbn. by eexists. }
  set (eng0 := set_observation_cutoff (et_resets t' !! env) (register_builtin_probes state_engine_new)).
  destruct (loaded_engine_frame M (et_resets t' !! env) (register_builtin_probes state_engine_new)) as (Hm1 & _ & Hdis1 & Hst1 & Hk1).
  pose proof (configured_at_start now fresh env inv inventory (et_resets t' !! env) M HMwf Hinv) as Hconf.
  fold eng0 in Hm1, Hdis1, Hst1, Hk1, Hconf. set (eng1 := with_states M eng0) in *. cbn zeta in Hconf.
  destruct idle_probes as (_ & _ & Hi3). rewrite Hi3 in Hdis1.
  unfold start_engine. fold eng0. fold M.
  rewrite (seed_all M eng0) by (first [by unfold eng0; rewrite cutoff_states|intros e st Hst; by apply HMwf]).
  fold eng1. rewrite Hinv. cbn [sum_bind].
  destruct (configure_all now fresh (entities inventory) eng1) as [eng2 trs'] eqn:Hca. cbn [fst] in Hconf.
  unfold load_state_streams. rewrite Hrow, (decode_encoded _ _ Hp). cbn [sum_bind].
  assert (mappings eng2 = mappings eng) as Hm2 by (by rewrite (conf_mappings _ _ _ Hconf), Hm1, Hmap).
  assert (disabled eng2 = disabled eng) as Hd2.
  { apply set_eq. intros [e q]. rewrite (conf_disabled _ _ _ Hconf), (Hmon inventory Hinv). split; [|by right].
    intros [Hd|?]; [|done]. rewrite Hdis1 in Hd. by apply elem_of_empty in Hd. }
  destruct (resume_streams now fresh _ eng eng1 eng2 Hwf Hset Hconf Hm2 Hd2) as (Hs3 & Hd3 & Hk3 & Hc3).
  pose proof (resume_settled now fresh _ eng eng1 eng2 Hwf Hset Hconf Hm2) as S3.
  pose proof (seed_streams_wf now fresh (hash_values (streams eng)) eng2 (conf_wf _ _ _ Hconf)) as W3.
  exists (seed_streams now fresh (hash_values (streams eng)) eng2), trs'. split.
  { destruct (hash_values (streams eng)) as [|s ss] eqn:Hss; [|done]. exfalso. apply Hne, map_empty. intros k.
    apply eq_None_not_Some. intros [s Hs]. assert (s ∈ hash_values (streams eng)) as Hin by (apply elem_of_hash_values; by exists k).
    rewrite Hss in Hin. by apply elem_of_nil in Hin. }
  split; [done|]. split; [done|]. split; [done|]. split; [done|]. split.
  { by rewrite Hk3, (conf_cutoff _ _ _ Hconf), Hcut, Hk1, Hres. }
  intros e Henv st Hst. pose proof (HM e) as HMe. destruct (M !! e) as [st1|] eqn:HM1; [|by rewrite (HMe Henv) in Hst].
  destruct HMe as (_ & st0 & Hst0 & Hsame). rewrite Hst in Hst0. injection Hst0 as <-.
  apply (shows_same_states eng eng1 _ e st Hwf W3 Hst).
  - exists st1. split; [by rewrite Hst1|]. split; [done|].
    destruct (conf_states _ _ _ Hconf e st1 ltac:(by rewrite Hst1)) as (st2 & Hst2 & Hkept2).
    destruct (seed_streams_states now fresh (hash_values (streams eng)) eng2 e st2 Hst2) as (st3 & Hst3 & Hkept3).
    exists st3. split; [done|]. by apply (kept_trans _ st2).
  - intros c. apply Hc3. unfold component_of. rewrite Hst1, HM1, Hst. cbn. apply Hsame.
Qed.

(** ** The latest observations *)

Section latest.
Context `{J : JsonApi} `{HI : HashIter} `{T : TimeApi}.
Variable julianday_within : Timestamp → Timestamp → Z → bool.

Definition finished_text (r : ObservationRow) : string := rfc3339_micros (finished_at (row_observation r)).

Lemma newest_row_spec rows r :
  newest_row rows = Some r → r ∈ rows ∧ ∀ r', r' ∈ rows → key_le (finished_text r') (finished_text r).
Proof.
  unfold newest_row. intros Hl. set (f := λ r, rfc3339_micros (finished_at (row_observation r))) in *.
  pose proof (sort_by_key_perm f rows) as Hp. pose proof (sort_by_key_sorted f rows) as Hs.
  apply last_Some in Hl as [l Hl]. rewrite Hl in Hp, Hs. split.
  - rewrite <- Hp. apply elem_of_app. right. by apply list_elem_of_singleton.
  - intros r' Hr'. rewrite <- Hp in Hr'. apply elem_of_app in Hr' as [Hr'|Hr'].
    + apply (StronglySorted_app_1_elem_of (key_le_on f) l [r] r' r Hs Hr'). by apply list_elem_of_singleton.
    + apply list_elem_of_singleton in Hr' as ->. reflexivity.
Qed.

Lemma newest_row_Some rows r : r ∈ rows → ∃ r', newest_row rows = Some r'.
Proof.
  intros Hr. unfold newest_row. destruct (last (sort_by_key _ rows)) as [r'|] eqn:Hl; [by exists r'|].
  apply last_None in Hl. set (f := λ r, rfc3339_micros (finished_at (row_observation r))) in *.
  pose proof (sort_by_key_perm f rows) as Hp. rewrite Hl in Hp. apply Permutation_nil in Hp as ->. by apply elem_of_nil in Hr.
Qed.

Lemma stream_names_elem target rows k :
  k ∈ map fst (hash_iter (stream_names target rows)) ↔
  ∃ r, r ∈ rows ∧ same_stream target k.1 k.2 r.
Proof.
  rewrite list_elem_of_fmap. destruct k as [p ob]. split.
  - intros ([k u] & -> & Hk%elem_of_hash_iter). apply elem_of_list_to_map_2 in Hk.
    apply list_elem_of_fmap in Hk as (r & [= -> _] & [Ht Hr]%list_elem_of_filter). by exists r.
  - intros (r & Hr & Ht & Hp & Ho). exists ((p, ob), tt). split; [done|]. apply elem_of_hash_iter.
    destruct (stream_names target rows !! (p, ob)) as [[]|] eqn:Hs; [done|]. exfalso.
    apply not_elem_of_list_to_map_2 in Hs. apply Hs, list_elem_of_fmap. exists ((p, ob), tt). split; [done|].
    apply list_elem_of_fmap. exists r. split; [cbn in Hp, Ho; by rewrite <- Hp, <- Ho|].
    by apply list_elem_of_filter.
Qed.

(** Every stream's answer is its newest usable row. *)
Lemma elem_of_latest now target cutoff rows o :
  o ∈ latest_observations_since julianday_within now target cutoff rows →
  ∃ r, r ∈ rows ∧ o = row_observation r ∧ same_stream target (probe_id o) (observer_entity o) r
    ∧ usable julianday_within (now + seconds MAX_FUTURE_SKEW_SECONDS)%Z cutoff r
    ∧ ∀ r', r' ∈ rows → same_stream target (probe_id o) (observer_entity o) r' →
        usable julianday_within (now + seconds MAX_FUTURE_SKEW_SECONDS)%Z cutoff r' →
        key_le (finished_text r') (finished_text r).
Proof.
  intros ([[p ob] u] & Hk & Ho)%list_elem_of_omap. cbn [fst snd] in Ho.
  destruct (newest_row _) as [r|] eqn:Hn; [|done]. injection Ho as <-.
  apply newest_row_spec in Hn as [[[Hss Hu] Hr]%list_elem_of_filter Hmax]. exists r.
  destruct Hss as (Ht & Hp & Hob). rewrite Hp, Hob.
  split; [done|]. split; [done|]. split; [by split_and!|]. split; [done|].
  intros r' Hr' Hss' Hu'. apply Hmax, list_elem_of_filter. done.
Qed.

Lemma latest_complete now target cutoff rows r :
  r ∈ rows → usable julianday_within (now + seconds MAX_FUTURE_SKEW_SECONDS)%Z cutoff r →
  target_entity (row_observation r) = target →
  ∃ o, o ∈ latest_observations_since julianday_within now target cutoff rows
    ∧ same_stream target (probe_id o) (observer_entity o) r.
Proof.
  intros Hr Hok Ht.
  assert ((probe_id (row_observation r), observer_entity (row_observation r))
            ∈ map fst (hash_iter (stream_names target rows))) as Hk by (apply stream_names_elem; by exists r).
  apply list_elem_of_fmap in Hk as ([[p ob] u] & Heq & Hk). injection Heq as Hp Hob.
  destruct (newest_row_Some (filter (λ r, same_stream target p ob r
     ∧ usable julianday_within (now + seconds MAX_FUTURE_SKEW_SECONDS)%Z cutoff r) rows) r) as [r' Hn].
  { apply list_elem_of_filter. by rewrite <- Hp, <- Hob. }
  pose proof (newest_row_spec _ _ Hn) as [[[(Ht' & Hp' & Hob') _] _]%list_elem_of_filter _].
  exists (row_observation r'). split.
  - apply list_elem_of_omap. exists ((p, ob), u). split; [done|]. cbn [fst snd]. by rewrite Hn.
  - by rewrite Hp', Hob', <- Hp, <- Hob.
Qed.

Lemma latest_distinct now target cutoff rows :
  NoDup (map (λ o, (probe_id o, observer_entity o)) (latest_observations_since julianday_within now target cutoff rows)).
Proof.
  apply (sublist_NoDup _ (map fst (hash_iter (stream_names target rows)))); [apply NoDup_hash_keys|].
  unfold latest_observations_since. induction (hash_iter (stream_names target rows)) as [|[[p ob] u] l IH]; [done|].
  cbn [omap list_omap map fst snd]. destruct (newest_row _) as [r|] eqn:Hn; cbn [fmap option_fmap option_map map].
  - apply newest_row_spec in Hn as [[[(_ & -> & ->) _] _]%list_elem_of_filter _]. by apply sublist_skip.
  - by apply sublist_cons.
Qed.
End latest.

(** The window of a diagnosis is the newest usable measurement of every
    probe by every observer, however many newer ones of others there are:
    each answer is one, and every stream with a usable row has its answer. *)
Theorem latest_is_per_stream `{JsonApi} `{HashIter} `{TimeApi} julianday_within now target cutoff rows :
  let answers := latest_observations_since julianday_within now target cutoff rows in
  let ok := usable julianday_within (now + seconds MAX_FUTURE_SKEW_SECONDS)%Z cutoff in
  (∀ o, o ∈ answers → ∃ r, r ∈ rows ∧ o = row_observation r ∧ target_entity o = target ∧ ok r
     ∧ ∀ r', r' ∈ rows → ok r' → same_stream target (probe_id o) (observer_entity o) r' →
         key_le (finished_text r') (finished_text r))
  ∧ (∀ r, r ∈ rows → ok r → target_entity (row_observation r) = target →
       ∃ o, o ∈ answers ∧ same_stream target (probe_id o) (observer_entity o) r)
  ∧ NoDup (map (λ o, (probe_id o, observer_entity o)) answers).
Proof.
  intros answers ok. split_and!; [|by apply latest_complete|apply latest_distinct].
  intros o (r & Hr & Heq & (Ht & _) & Hu & Hmax)%elem_of_latest. exists r. subst o. split_and!; try done.
  intros r' Hr' Hok' Hss. by apply Hmax.
Qed.

(** *** One host, one stream *)

#[local] Instance ComponentState_eq_dec : EqDecision ComponentState.
Proof. solve_decision. Defined.

#[local] Instance StateStream_eq_dec : EqDecision StateStream.
Proof. solve_decision. Defined.

Definition bare_host : ManagedEntity := managed_entity_new 5 "prod" Entity_Host "n1".

Definition host_inventory : InventoryTables :=
  match save_entity empty_tables bare_host with inr t => t | inl _ => empty_tables end.

Lemma bare_host_saved : save_entity empty_tables bare_host = inr host_inventory.
Proof. reflexivity. Qed.

Definition drained : Observation := observation_new {| observation_uuid := 7 |} 100 PROBE_NODE (entity_eid bare_host) Probe_Failed.

Definition drained_engine : StateEngine := (ingest 100 fresh_ids drained (register_builtin_probes state_engine_new)).1.

(** A codec for the one list of streams there is here. *)
#[local] Instance sample_stream_codec : StreamCodec := {|
  encode_streams ss := if decide (ss = hash_values (streams drained_engine)) then inr "streams" else inl "not the sample";
  decode_streams p := if String.eqb p "streams" then inr (hash_values (streams drained_engine)) else inl "not the sample"
|}.

#[local] Instance sample_stream_laws : StreamLaws.
Proof. split. intros ss p. cbn. case_decide; [|done]. intros [= <-]. by subst. Qed.

Definition no_engine : EngineTables := mk_engine_tables ∅ ∅ ∅ ∅ ∅.

Definition drained_tables : EngineTables :=
  match save_engine host_inventory "prod" drained_engine [] no_engine with inr t => t | inl _ => no_engine end.

Lemma drained_saved : save_engine host_inventory "prod" drained_engine [] no_engine = inr drained_tables.
Proof.
  assert (match save_engine host_inventory "prod" drained_engine [] no_engine with inr _ => true | inl _ => false end = true)
    as Hok by (vm_compute; reflexivity).
  unfold drained_tables. destruct (save_engine _ _ _ _ _); [discriminate Hok|reflexivity].
Qed.

Lemma ingest_frame_rest now fresh o eng :
  mappings (ingest now fresh o eng).1 = mappings eng ∧ disabled (ingest now fresh o eng).1 = disabled eng
  ∧ observation_cutoff (ingest now fresh o eng).1 = observation_cutoff eng.
Proof. destruct (ingest_cases now fresh eng o) as [[m Hadm]| ->]; [by rewrite (ingest_admitted _ _ _ _ _ Hadm)|done]. Qed.

Lemma drained_frame :
  mappings drained_engine = mappings (register_builtin_probes state_engine_new)
  ∧ disabled drained_engine = ∅ ∧ observation_cutoff drained_engine = et_resets no_engine !! "prod".
Proof.
  destruct idle_probes as (_ & _ & Hd).
  destruct (ingest_frame_rest 100 fresh_ids drained (register_builtin_probes state_engine_new)) as (H1 & H2 & H3).
  unfold drained_engine. rewrite H1, H2, H3. split_and!; [done|exact Hd|by vm_compute].
Qed.

Lemma drained_streams : streams drained_engine ≠ ∅.
Proof. intros Hs. assert (size (streams drained_engine) = 1%nat) as H1 by (by vm_compute). by rewrite Hs in H1. Qed.

Lemma drained_settled : engine_wf drained_engine ∧ settled drained_engine.
Proof.
  destruct (idle_settled _ idle_probes) as [Hwf Hset]. split; [by apply ingest_wf|by apply ingest_settled].
Qed.

Lemma drained_monitoring : agreed_monitoring "prod" host_inventory drained_engine.
Proof.
  intros inventory Hinv e p. rewrite (proj1 (proj2 drained_frame)).
  split; [intros Hd; apply not_elem_of_empty in Hd; destruct Hd|]. intros (_ & x & Hx & _ & (_ & Hs & _)). exfalso.
  unfold entities in Hx. apply elem_of_btree_values in Hx as [k Hk].
  destruct (proj2 (load_inventory_entities _ _ _ Hinv) k x Hk) as (_ & r & _ & _ & Hd).
  unfold decode_entity in Hd. destruct (entity_type_parse _); [|done]. injection Hd as <-.
  cbn [discovery_sources] in Hs. revert Hs. unfold sources_of.
  assert (t_sources host_inventory = ∅) as -> by (by vm_compute).
  assert (hash_iter (∅ : gmap (EntityId * string) unit) = []) as ->.
  { apply Permutation_nil. rewrite hash_iter_perm. by rewrite map_to_list_empty. }
  by intros ?%elem_of_nil.
Qed.

Lemma restart_resumes_witness :
  save_engine host_inventory "prod" drained_engine [] no_engine = inr drained_tables ∧
  ∃ eng' trs', start_engine (λ _ _ _, true) 200 fresh_ids "prod" [] host_inventory drained_tables = inr (eng', trs')
    ∧ streams eng' = streams drained_engine.
Proof.
  split; [exact drained_saved|].
  destruct (restart_resumes (λ _ _ _, true) 200 fresh_ids "prod" [] host_inventory drained_engine [] no_engine drained_tables)
    as (eng' & trs' & Hs & _ & _ & Hst & _).
  - exact (save_entity_wf _ _ _ empty_tables_wf bare_host_saved).
  - exact (proj1 drained_settled).
  - exact (proj2 drained_settled).
  - exact drained_streams.
  - exact (proj1 drained_frame).
  - exact (proj2 (proj2 drained_frame)).
  - split.
    + intros e c r _ Hr. cbn in Hr. by rewrite lookup_empty in Hr.
    + intros e r _ Hr. cbn in Hr. by rewrite lookup_empty in Hr.
  - exact drained_monitoring.
  - exact drained_saved.
  - exists eng', trs'. split; [exact Hs|exact Hst].
Defined.
