(* ===== verification/Retention.v ===== *)
(** * Retention

    [src/config/retention.rs] and [src/persistence/retention.rs]: what the
    controller deletes, and what it must not. *)

From S2P Require Import Concrete.
From S2P Require Export External.

Local Open Scope string_scope.

(** * Retention

    [src/config/retention.rs] and [src/persistence/retention.rs]: what the
    controller deletes, and what it must not.  The tables are maps from their
    primary keys to the columns the statements read; an incident's evidence
    rows, and a diagnosis's, go with it (the schema's [ON DELETE CASCADE]). *)

(** ** Configuration *)

(** [RetentionPeriod]; the duration is in nanoseconds. *)
Inductive RetentionPeriod := KeepFor (d : N) | Forever.

#[export] Instance RetentionPeriod_eq_dec : EqDecision RetentionPeriod.
Proof. solve_decision. Defined.

(** [RetentionPeriod::is_forever]. *)
Definition is_forever (p : RetentionPeriod) : bool := match p with Forever => true | KeepFor _ => false end.

Definition days (n : N) : N := n * 24 * 3600 * 1000000000.

(** [RetentionConfig]. *)
Record RetentionConfig := mk_retention {
  ret_enabled : bool;
  ret_interval : N;
  ret_observations : RetentionPeriod;
  ret_keep_per_entity : N;
  ret_transitions : RetentionPeriod;
  ret_incidents : RetentionPeriod;
  ret_diagnoses : RetentionPeriod
}.

(** [RetentionConfig::default()]. *)
Definition retention_default : RetentionConfig :=
  mk_retention true (3600 * 1000000000) (KeepFor (days 14)) 64 (KeepFor (days 90)) (KeepFor (days 180)) (KeepFor (days 30)).

Section period.
Context `{C : ChronoApi}.

(** [RetentionPeriod::cutoff]: [None] is a panic of the subtraction, [Some None]
    keeps everything. *)
Definition period_cutoff (p : RetentionPeriod) (now : Timestamp) : option (option Timestamp) :=
  match p with
  | Forever => Some None
  | KeepFor d =>
      match delta_from_std d with
      | None => Some None
      | Some delta => Some <$> datetime_sub now delta
      end
  end.
End period.

(** ** The tables *)

Record IncidentRow := mk_incident_row { inc_status : string; inc_ended_at : option string }.
Record DiagnosisRow := mk_diagnosis_row { diag_created_at : string; diag_incident : option string }.

(** A row of a per-entity history: [observations] by their target and
    [finished_at], [state_transitions] by their entity and [occurred_at]. *)
Record HistoryRow := mk_history_row { hist_entity : string; hist_at : string }.

Record Tables := mk_tables {
  tab_incidents : gmap string IncidentRow;
  tab_incident_evidence : gset (string * string);
  tab_diagnoses : gmap string DiagnosisRow;
  tab_diagnosis_evidence : gset (string * string);
  tab_observations : gmap string HistoryRow;
  tab_transitions : gmap string HistoryRow
}.

Definition set_observations (m : gmap string HistoryRow) (t : Tables) : Tables :=
  mk_tables (tab_incidents t) (tab_incident_evidence t) (tab_diagnoses t) (tab_diagnosis_evidence t) m
    (tab_transitions t).

Definition set_transitions (m : gmap string HistoryRow) (t : Tables) : Tables :=
  mk_tables (tab_incidents t) (tab_incident_evidence t) (tab_diagnoses t) (tab_diagnosis_evidence t)
    (tab_observations t) m.

(** [a < b] on text. *)
Definition text_lt (a b : string) : Prop := key_le a b ∧ a ≠ b.

#[export] Instance text_lt_dec a b : Decision (text_lt a b).
Proof. unfold text_lt. apply _. Defined.

(** ** Pruning *)

Definition MIN_KEEP_PER_ENTITY : N := 32.

(** [WHERE status IN ('resolved', 'reset') AND ended_at IS NOT NULL AND
    ended_at < ?]. *)
Definition incident_expired (cutoff : string) (r : IncidentRow) : Prop :=
  (inc_status r = "resolved" ∨ inc_status r = "reset")
  ∧ match inc_ended_at r with Some e => text_lt e cutoff | None => False end.

#[export] Instance incident_expired_dec cutoff r : Decision (incident_expired cutoff r).
Proof. unfold incident_expired. destruct (inc_ended_at r); apply _. Defined.

(** [prune_incidents]. *)
Definition prune_incidents (cutoff : string) (t : Tables) : Tables :=
  let kept := filter (λ e, ¬ incident_expired cutoff e.2) (tab_incidents t) in
  mk_tables kept
    (filter (λ e, e.1 ∉ dom (tab_incidents t) ∨ e.1 ∈ dom kept) (tab_incident_evidence t))
    (tab_diagnoses t) (tab_diagnosis_evidence t) (tab_observations t) (tab_transitions t).

(** [WHERE created_at < ? AND (incident_id IS NULL OR incident_id NOT IN
    (SELECT id FROM incidents))]. *)
Definition diagnosis_expired (cutoff : string) (incidents : gset string) (r : DiagnosisRow) : Prop :=
  text_lt (diag_created_at r) cutoff
  ∧ match diag_incident r with Some i => i ∉ incidents | None => True end.

#[export] Instance diagnosis_expired_dec cutoff incidents r : Decision (diagnosis_expired cutoff incidents r).
Proof. unfold diagnosis_expired. destruct (diag_incident r); apply _. Defined.

(** [prune_diagnoses]. *)
Definition prune_diagnoses (cutoff : string) (t : Tables) : Tables :=
  let kept := filter (λ e, ¬ diagnosis_expired cutoff (dom (tab_incidents t)) e.2) (tab_diagnoses t) in
  mk_tables (tab_incidents t) (tab_incident_evidence t) kept
    (filter (λ e, e.1 ∉ dom (tab_diagnoses t) ∨ e.1 ∈ dom kept) (tab_diagnosis_evidence t))
    (tab_observations t) (tab_transitions t).

(** [ROW_NUMBER() OVER (PARTITION BY entity ORDER BY at DESC, id DESC)]: the
    rows of an entity, newest first. *)
Definition newest_first (entity : string) (m : gmap string HistoryRow) : list (string * HistoryRow) :=
  reverse (sort_by_key (λ e : string * HistoryRow, (hist_at e.2, e.1))
             (filter (λ e, hist_entity e.2 = entity) (map_to_list m))).

(** [MIN] over text. *)
Definition min_text (l : list string) : option string := head (sort_by_key id l).

(** [keep_from] of an entity: the oldest time among its [keep] newest rows. *)
Definition keep_from (keep : N) (m : gmap string HistoryRow) (entity : string) : option string :=
  min_text (map (λ e, hist_at e.2) (take (N.to_nat keep) (newest_first entity m))).

(** The two conditions on time of both history statements. *)
Definition history_expired (cutoff : string) (keep : N) (m : gmap string HistoryRow) (r : HistoryRow) : Prop :=
  text_lt (hist_at r) cutoff ∧ text_lt (hist_at r) (default cutoff (keep_from keep m (hist_entity r))).

#[export] Instance history_expired_dec cutoff keep m r : Decision (history_expired cutoff keep m r).
Proof. unfold history_expired. apply _. Defined.

(** [id NOT IN (SELECT observation_id FROM diagnosis_evidence) AND id NOT IN
    (SELECT observation_id FROM incident_evidence)]. *)
Definition cited (t : Tables) (observation : string) : Prop :=
  observation ∈ (set_map snd (tab_diagnosis_evidence t) ∪ set_map snd (tab_incident_evidence t) : gset string).

#[export] Instance cited_dec t o : Decision (cited t o).
Proof. unfold cited. apply _. Defined.

(** [prune_observations], [keep] being [keep_per_entity.max(MIN_KEEP_PER_ENTITY)]. *)
Definition floor_keep (keep_per_entity : N) : N := N.max keep_per_entity MIN_KEEP_PER_ENTITY.

Definition prune_observations (cutoff : string) (keep_per_entity : N) (t : Tables) : Tables :=
  let keep := floor_keep keep_per_entity in
  set_observations
    (filter (λ e, ¬ (history_expired cutoff keep (tab_observations t) e.2 ∧ ¬ cited t e.1)) (tab_observations t)) t.

(** [prune_transitions]. *)
Definition prune_transitions (cutoff : string) (keep_per_entity : N) (t : Tables) : Tables :=
  let keep := floor_keep keep_per_entity in
  set_transitions
    (filter (λ e, ¬ history_expired cutoff keep (tab_transitions t) e.2) (tab_transitions t)) t.

(** [PruneOutcome]. *)
Record PruneOutcome := mk_pruned {
  pruned_observations : nat;
  pruned_transitions : nat;
  pruned_incidents : nat;
  pruned_diagnoses : nat
}.

Definition prune_outcome_default : PruneOutcome := mk_pruned 0 0 0 0.

(** [PruneOutcome::total] and [is_empty]. *)
Definition prune_total (o : PruneOutcome) : nat :=
  pruned_observations o + pruned_transitions o + pruned_incidents o + pruned_diagnoses o.

Definition prune_is_empty (o : PruneOutcome) : bool := bool_decide (prune_total o = 0).

Inductive PruneMode := PruneDelete | PruneDryRun.

Section prune.
Context `{T : TimeApi} `{C : ChronoApi}.

(** [let Some(cutoff) = period.cutoff(now) else { return Ok(0) }] around a
    statement. *)
Definition under_period (p : RetentionPeriod) (now : Timestamp) (f : string → Tables → Tables) (t : Tables) :
    option Tables :=
  cutoff ← period_cutoff p now;
  Some match cutoff with Some c => f (rfc3339_micros c) t | None => t end.

(** [SqliteStore::prune_at]: [None] is a panic inside the transaction, which
    leaves the database as it was. *)
Definition prune_at (cfg : RetentionConfig) (now : Timestamp) (mode : PruneMode) (t : Tables) :
    option (Tables * PruneOutcome) :=
  if negb (ret_enabled cfg) then Some (t, prune_outcome_default)
  else
    t1 ← under_period (ret_incidents cfg) now prune_incidents t;
    t2 ← under_period (ret_diagnoses cfg) now prune_diagnoses t1;
    t3 ← under_period (ret_observations cfg) now
           (λ c, prune_observations c (ret_keep_per_entity cfg)) t2;
    t4 ← under_period (ret_transitions cfg) now
           (λ c, prune_transitions c (ret_keep_per_entity cfg)) t3;
    let outcome := mk_pruned
      (size (tab_observations t2) - size (tab_observations t3))
      (size (tab_transitions t3) - size (tab_transitions t4))
      (size (tab_incidents t) - size (tab_incidents t1))
      (size (tab_diagnoses t1) - size (tab_diagnoses t2)) in
    Some (match mode with PruneDelete => t4 | PruneDryRun => t end, outcome).
End prune.

(** * Retention: what pruning must never delete *)

Local Close Scope string_scope.

(** ** Histories *)

Lemma history_key_id (e e' : string * HistoryRow) :
  (hist_at e.2, e.1) = (hist_at e'.2, e'.1) → e.1 = e'.1.
Proof. by intros [= _ ?]. Qed.

Lemma entity_rows_inj entity (m : gmap string HistoryRow) :
  key_inj_on (λ e : string * HistoryRow, (hist_at e.2, e.1))
    (filter (λ e, hist_entity e.2 = entity) (map_to_list m)).
Proof.
  intros x y [_ Hx]%list_elem_of_filter [_ Hy]%list_elem_of_filter.
  by apply (map_entries_key_inj _ m history_key_id).
Qed.

Lemma elem_of_newest_first entity m i r :
  (i, r) ∈ newest_first entity m ↔ m !! i = Some r ∧ hist_entity r = entity.
Proof.
  unfold newest_first. rewrite elem_of_reverse, elem_of_sort_by_key, list_elem_of_filter, elem_of_map_to_list.
  cbn. tauto.
Qed.

(** Removing rows removes them from the order, and moves nothing. *)
Lemma newest_first_filter entity (P : string * HistoryRow → Prop) `{∀ e, Decision (P e)} m :
  newest_first entity (filter P m) = filter P (newest_first entity m).
Proof.
  unfold newest_first. rewrite filter_reverse. f_equal.
  rewrite <- sort_by_key_filter by apply entity_rows_inj.
  apply sort_by_key_proper.
  - intros x y [_ Hx]%list_elem_of_filter [_ Hy]%list_elem_of_filter. by apply (entity_rows_inj entity m).
  - rewrite map_to_list_filter_perm, !list_filter_filter.
    by rewrite (list_filter_iff _ (λ e, P e ∧ hist_entity e.2 = entity)) by tauto.
Qed.

Lemma filter_take {A} (P : A → Prop) `{∀ x, Decision (P x)} n (l : list A) :
  (∀ x, x ∈ take n l → P x) → take n (filter P l) = take n l.
Proof.
  revert n. induction l as [|x l IH]; intros [|n] HP; [done..|]. rewrite filter_cons.
  rewrite decide_True by (apply HP; by left). cbn [firstn]. f_equal. apply IH. intros y Hy.
  apply HP. by right.
Qed.

Lemma min_text_le l v : v ∈ l → ∃ m, min_text l = Some m ∧ key_le m v.
Proof.
  intros Hv. unfold min_text. pose proof (sort_by_key_sorted id l) as Hs.
  assert (v ∈ sort_by_key id l) as Hin by (by apply elem_of_sort_by_key).
  destruct (sort_by_key id l) as [|m rest]; [by apply elem_of_nil in Hin|]. exists m. split; [done|].
  apply StronglySorted_inv in Hs as [_ Hall]. apply elem_of_cons in Hin as [->|Hin]; [reflexivity|].
  rewrite Forall_forall in Hall. by apply (Hall v).
Qed.

(** None of the newest rows of an entity expires. *)
Lemma newest_not_expired cutoff keep m i r :
  (i, r) ∈ take (N.to_nat keep) (newest_first (hist_entity r) m) → ¬ history_expired cutoff keep m r.
Proof.
  intros Hin [_ Hlt]. unfold keep_from in Hlt.
  destruct (min_text_le (map (λ e : string * HistoryRow, hist_at e.2)
    (take (N.to_nat keep) (newest_first (hist_entity r) m))) (hist_at r)) as (v & Hv & Hle).
  { apply list_elem_of_fmap. by exists (i, r). }
  rewrite Hv in Hlt. destruct Hlt as [Hle' Hne]. apply Hne. by apply (anti_symm key_le).
Qed.

(** Pruning rows that expired leaves every entity its newest rows. *)
Section history.
Context (cutoff : string) (keep : N) (m : gmap string HistoryRow) (spared : string * HistoryRow → Prop)
  `{∀ e, Decision (spared e)}.
Context (Hspared : ∀ e, ¬ history_expired cutoff keep m e.2 → spared e).

Let m' := filter spared m.

Lemma newest_kept entity :
  take (N.to_nat keep) (newest_first entity m') = take (N.to_nat keep) (newest_first entity m).
Proof.
  unfold m'. rewrite newest_first_filter. apply filter_take. intros [i r] Hin. apply Hspared.
  apply (newest_not_expired cutoff keep m i). cbn.
  assert (hist_entity r = entity) as ->; [|done].
  apply subseteq_take in Hin. apply elem_of_newest_first in Hin as [_ ?]. done.
Qed.

(** Nothing that was not expired becomes expired. *)
Lemma expired_stable r : history_expired cutoff keep m' r ↔ history_expired cutoff keep m r.
Proof. unfold history_expired, keep_from. by rewrite newest_kept. Qed.
End history.

(** ** The four statements *)

Section statements.
Context `{T : TimeApi} `{C : ChronoApi}.
Implicit Types t : Tables.

Lemma under_period_cases p now f t t' :
  under_period p now f t = Some t' → t' = t ∨ ∃ c, t' = f (rfc3339_micros c) t.
Proof.
  unfold under_period. destruct (period_cutoff p now) as [[c|]|]; cbn; [..|done]; intros [= <-]; eauto.
Qed.

(** The steps of a pass that deletes. *)
Lemma prune_at_steps cfg now t t' o :
  ret_enabled cfg = true → prune_at cfg now PruneDelete t = Some (t', o) →
  ∃ t1 t2 t3,
    under_period (ret_incidents cfg) now prune_incidents t = Some t1
    ∧ under_period (ret_diagnoses cfg) now prune_diagnoses t1 = Some t2
    ∧ under_period (ret_observations cfg) now (λ c, prune_observations c (ret_keep_per_entity cfg)) t2 = Some t3
    ∧ under_period (ret_transitions cfg) now (λ c, prune_transitions c (ret_keep_per_entity cfg)) t3 = Some t'.
Proof.
  intros He. unfold prune_at. rewrite He. cbn [negb].
  destruct (under_period _ _ prune_incidents t) as [t1|] eqn:H1; cbn; [|done].
  destruct (under_period _ _ prune_diagnoses t1) as [t2|] eqn:H2; cbn; [|done].
  destruct (under_period (ret_observations cfg) _ _ t2) as [t3|] eqn:H3; cbn; [|done].
  destruct (under_period (ret_transitions cfg) _ _ t3) as [t4|] eqn:H4; cbn; [|done].
  intros [= <- _]. by exists t1, t2, t3.
Qed.

(** An incident that has not ended, by its status or its end. *)
Definition ongoing (r : IncidentRow) : Prop :=
  (inc_status r ≠ "resolved" ∧ inc_status r ≠ "reset")%string ∨ inc_ended_at r = None.

Lemma ongoing_not_expired c r : ongoing r → ¬ incident_expired c r.
Proof. intros [[? ?]|He] [[?|?] Hend]; try done; by rewrite He in Hend. Qed.

(** What a step may do to incidents, diagnoses and their evidence. *)
Definition step_ok (t t' : Tables) : Prop :=
  tab_incidents t' ⊆ tab_incidents t
  ∧ (∀ i r, tab_incidents t !! i = Some r → ongoing r → tab_incidents t' !! i = Some r)
  ∧ (∀ i x, i ∈ dom (tab_incidents t') → (i, x) ∈ tab_incident_evidence t → (i, x) ∈ tab_incident_evidence t')
  ∧ (∀ d x, d ∈ dom (tab_diagnoses t') → (d, x) ∈ tab_diagnosis_evidence t → (d, x) ∈ tab_diagnosis_evidence t')
  ∧ dom (tab_diagnoses t') ⊆ dom (tab_diagnoses t)
  ∧ (∀ x row, tab_observations t !! x = Some row → cited t' x → tab_observations t' !! x = Some row)
  ∧ (∀ d dr i r, tab_diagnoses t !! d = Some dr → diag_incident dr = Some i →
       tab_incidents t !! i = Some r → ongoing r → tab_diagnoses t' !! d = Some dr).

Lemma step_ok_refl t : step_ok t t.
Proof. split_and!; done. Qed.

Lemma filter_dom_subset {V} (P : string * V → Prop) `{∀ e, Decision (P e)} (m : gmap string V) :
  dom (filter P m) ⊆ dom m.
Proof. apply subseteq_dom, map_filter_subseteq. Qed.

Lemma prune_incidents_ok c t : step_ok t (prune_incidents c t).
Proof.
  unfold step_ok, prune_incidents. cbn. split_and!; try done.
  - apply map_filter_subseteq.
  - intros i r Hi Hon. apply map_lookup_filter_Some. split; [done|]. by apply ongoing_not_expired.
  - intros i x Hi Hx. apply elem_of_filter. split; [by right|done].
Qed.

Lemma prune_diagnoses_ok c t : step_ok t (prune_diagnoses c t).
Proof.
  unfold step_ok, prune_diagnoses. cbn. split_and!; try done.
  - intros d x Hd Hx. apply elem_of_filter. split; [by right|done].
  - apply filter_dom_subset.
  - intros d dr i r Hd Hi Hr _. apply map_lookup_filter_Some. split; [done|]. cbn. intros [_ Hout].
    rewrite Hi in Hout. apply Hout. apply elem_of_dom. by eexists.
Qed.

Lemma prune_observations_ok c k t : step_ok t (prune_observations c k t).
Proof.
  unfold step_ok, prune_observations. cbn. split_and!; try done.
  intros x r Hr Hc. apply map_lookup_filter_Some.
  split; [done|]. cbn. intros [_ Hn]. by apply Hn.
Qed.

Lemma prune_transitions_ok c k t : step_ok t (prune_transitions c k t).
Proof. by split_and!. Qed.

Lemma under_period_ok p now f t t' :
  (∀ c, step_ok t (f c t)) → under_period p now f t = Some t' → step_ok t t'.
Proof. intros Hf [->|[c ->]]%under_period_cases; [apply step_ok_refl|apply Hf]. Qed.

(** Only the observation statement removes observations, and only by time. *)
Lemma prune_at_observations cfg now t t' o :
  prune_at cfg now PruneDelete t = Some (t', o) →
  ∃ t2, tab_observations t2 = tab_observations t
    ∧ (tab_observations t' = tab_observations t
       ∨ ∃ c, tab_observations t'
              = tab_observations (prune_observations c (ret_keep_per_entity cfg) t2)).
Proof.
  destruct (ret_enabled cfg) eqn:He.
  2: { unfold prune_at. rewrite He. intros [= <- _]. exists t. split; [done|by left]. }
  intros (t1 & t2 & t3 & H1 & H2 & H3 & H4)%prune_at_steps; [|done]. exists t2.
  assert (tab_observations t1 = tab_observations t) as E1 by (by destruct (under_period_cases _ _ _ _ _ H1) as [->|[? ->]]).
  assert (tab_observations t2 = tab_observations t1) as E2 by (by destruct (under_period_cases _ _ _ _ _ H2) as [->|[? ->]]).
  assert (tab_observations t' = tab_observations t3) as E4 by (by destruct (under_period_cases _ _ _ _ _ H4) as [->|[? ->]]).
  split; [congruence|]. destruct (under_period_cases _ _ _ _ _ H3) as [->|[c ->]]; [left; congruence|].
  right. by exists (rfc3339_micros c).
Qed.

Lemma prune_at_transitions cfg now t t' o :
  prune_at cfg now PruneDelete t = Some (t', o) →
  tab_transitions t' = tab_transitions t
  ∨ ∃ c, tab_transitions t' = tab_transitions (prune_transitions c (ret_keep_per_entity cfg) t).
Proof.
  destruct (ret_enabled cfg) eqn:He.
  2: { unfold prune_at. rewrite He. intros [= <- _]. by left. }
  intros (t1 & t2 & t3 & H1 & H2 & H3 & H4)%prune_at_steps; [|done].
  assert (tab_transitions t1 = tab_transitions t) as E1 by (by destruct (under_period_cases _ _ _ _ _ H1) as [->|[? ->]]).
  assert (tab_transitions t2 = tab_transitions t1) as E2 by (by destruct (under_period_cases _ _ _ _ _ H2) as [->|[? ->]]).
  assert (tab_transitions t3 = tab_transitions t2) as E3 by (by destruct (under_period_cases _ _ _ _ _ H3) as [->|[? ->]]).
  destruct (under_period_cases _ _ _ _ _ H4) as [->|[c ->]]; [left; congruence|].
  right. exists (rfc3339_micros c). unfold prune_transitions. cbn. by rewrite E3, E2, E1.
Qed.
End statements.

(** ** Whole passes *)

Section pass.
Context `{T : TimeApi} `{C : ChronoApi}.

Lemma step_incident t t' i x :
  step_ok t t' → i ∈ dom (tab_incidents t') → (i, x) ∈ tab_incident_evidence t →
  (i, x) ∈ tab_incident_evidence t' ∧ (∀ row, tab_observations t !! x = Some row → tab_observations t' !! x = Some row).
Proof.
  intros (_ & _ & Hev & _ & _ & Hobs & _) Hi Hx. split; [by apply Hev|]. intros row Ho. apply Hobs; [done|].
  apply elem_of_union_r, elem_of_map. exists (i, x). split; [done|by apply Hev].
Qed.

Lemma step_diagnosis t t' d x :
  step_ok t t' → d ∈ dom (tab_diagnoses t') → (d, x) ∈ tab_diagnosis_evidence t →
  (d, x) ∈ tab_diagnosis_evidence t' ∧ (∀ row, tab_observations t !! x = Some row → tab_observations t' !! x = Some row).
Proof.
  intros (_ & _ & _ & Hev & _ & Hobs & _) Hd Hx. split; [by apply Hev|]. intros row Ho. apply Hobs; [done|].
  apply elem_of_union_l, elem_of_map. exists (d, x). split; [done|by apply Hev].
Qed.

(** A pass is four steps, each of them safe. *)
Lemma prune_at_chain cfg now t t' o :
  prune_at cfg now PruneDelete t = Some (t', o) →
  ∃ t1 t2 t3, step_ok t t1 ∧ step_ok t1 t2 ∧ step_ok t2 t3 ∧ step_ok t3 t'.
Proof.
  destruct (ret_enabled cfg) eqn:He.
  2: { unfold prune_at. rewrite He. intros [= <- _]. exists t, t, t. split_and!; apply step_ok_refl. }
  intros (t1 & t2 & t3 & H1 & H2 & H3 & H4)%prune_at_steps; [|done]. exists t1, t2, t3.
  split_and!.
  - apply (under_period_ok _ _ _ _ _ (λ c, prune_incidents_ok c t) H1).
  - apply (under_period_ok _ _ _ _ _ (λ c, prune_diagnoses_ok c t1) H2).
  - apply (under_period_ok _ _ _ _ _ (λ c, prune_observations_ok c _ t2) H3).
  - apply (under_period_ok _ _ _ _ _ (λ c, prune_transitions_ok c _ t3) H4).
Qed.

Lemma step_dom t t' : step_ok t t' →
  dom (tab_incidents t') ⊆ dom (tab_incidents t) ∧ dom (tab_diagnoses t') ⊆ dom (tab_diagnoses t).
Proof. intros (Hi & _ & _ & _ & Hd & _). split; [by apply subseteq_dom|done]. Qed.
(** What is known of an ongoing incident, kept by what turns the first tables
    into the second. *)
Definition fault_kept (i : string) (r : IncidentRow) (t t' : Tables) : Prop :=
  tab_incidents t' !! i = Some r
  ∧ (∀ x, (i, x) ∈ tab_incident_evidence t →
       (i, x) ∈ tab_incident_evidence t' ∧ ∀ row, tab_observations t !! x = Some row → tab_observations t' !! x = Some row)
  ∧ (∀ d dr, tab_diagnoses t !! d = Some dr → diag_incident dr = Some i →
       tab_diagnoses t' !! d = Some dr
       ∧ ∀ x, (d, x) ∈ tab_diagnosis_evidence t →
           (d, x) ∈ tab_diagnosis_evidence t' ∧ ∀ row, tab_observations t !! x = Some row → tab_observations t' !! x = Some row).

Lemma step_keeps_fault i r t t' : step_ok t t' → tab_incidents t !! i = Some r → ongoing r → fault_kept i r t t'.
Proof.
  intros Hs Hi Hon. pose proof Hs as (_ & Hkeep & _ & _ & _ & _ & Hdiag). specialize (Hkeep i r Hi Hon). split_and!; [done| |].
  - intros x Hx. apply (step_incident t t' i x Hs); [|done]. apply elem_of_dom. by eexists.
  - intros d dr Hd Hdi. specialize (Hdiag d dr i r Hd Hdi Hi Hon). split; [done|].
    intros x Hx. apply (step_diagnosis t t' d x Hs); [|done]. apply elem_of_dom. by eexists.
Qed.

Lemma fault_kept_trans i r t1 t2 t3 :
  fault_kept i r t1 t2 → (tab_incidents t2 !! i = Some r → fault_kept i r t2 t3) → fault_kept i r t1 t3.
Proof.
  intros (H1 & E1 & D1) H2. destruct (H2 H1) as (R & E2 & D2). split_and!; [done| |].
  - intros x Hx. destruct (E1 x Hx) as [X1 O1], (E2 x X1) as [X2 O2]. eauto.
  - intros d dr Hd Hi. destruct (D1 d dr Hd Hi) as [Hd2 X1], (D2 d dr Hd2 Hi) as [Hd3 X2]. split; [done|].
    intros x Hx. destruct (X1 x Hx) as [Y1 O1], (X2 x Y1) as [Y2 O2]. eauto.
Qed.
End pass.

(** ** Properties *)

(** C27.  Pruning never deletes an ongoing fault, nor what is known of it: an
    incident whose status is neither resolved nor reset, or that has no end,
    survives every pass unaltered, whatever its age and whatever the
    configuration, with every row of its evidence; so does every diagnosis made
    of it, with its own; and every observation either of them cites that was
    stored before the pass is stored after it, as it was. *)
Theorem prune_keeps_ongoing_incidents `{TimeApi} `{ChronoApi} cfg now t t' o i r :
  prune_at cfg now PruneDelete t = Some (t', o) →
  tab_incidents t !! i = Some r → ongoing r →
  tab_incidents t' !! i = Some r
  ∧ (∀ x, (i, x) ∈ tab_incident_evidence t →
       (i, x) ∈ tab_incident_evidence t' ∧ ∀ row, tab_observations t !! x = Some row → tab_observations t' !! x = Some row)
  ∧ (∀ d dr, tab_diagnoses t !! d = Some dr → diag_incident dr = Some i →
       tab_diagnoses t' !! d = Some dr
       ∧ ∀ x, (d, x) ∈ tab_diagnosis_evidence t →
           (d, x) ∈ tab_diagnosis_evidence t' ∧ ∀ row, tab_observations t !! x = Some row → tab_observations t' !! x = Some row).
Proof.
  intros Hp Hi Hon. assert (fault_kept i r t t') as (Hr & He & Hd); [|by split_and!].
  apply prune_at_chain in Hp as (t1 & t2 & t3 & H1 & H2 & H3 & H4).
  eapply fault_kept_trans; [by apply step_keeps_fault|intros Hi1].
  eapply fault_kept_trans; [by apply step_keeps_fault|intros Hi2].
  eapply fault_kept_trans; [by apply step_keeps_fault|intros Hi3]. by apply step_keeps_fault.
Qed.

(** Evidence outlives what cites it: an incident or a diagnosis that
    survives a pass keeps all its evidence rows, and every observation they
    cite that was there before the pass is there after it, however old. *)
Theorem prune_keeps_cited_evidence `{TimeApi} `{ChronoApi} cfg now t t' o :
  prune_at cfg now PruneDelete t = Some (t', o) →
  (∀ i x, i ∈ dom (tab_incidents t') → (i, x) ∈ tab_incident_evidence t →
     (i, x) ∈ tab_incident_evidence t' ∧ ∀ row, tab_observations t !! x = Some row → tab_observations t' !! x = Some row)
  ∧ (∀ d x, d ∈ dom (tab_diagnoses t') → (d, x) ∈ tab_diagnosis_evidence t →
     (d, x) ∈ tab_diagnosis_evidence t' ∧ ∀ row, tab_observations t !! x = Some row → tab_observations t' !! x = Some row).
Proof.
  intros (t1 & t2 & t3 & H1 & H2 & H3 & H4)%prune_at_chain.
  destruct (step_dom _ _ H4) as [I4 D4], (step_dom _ _ H3) as [I3 D3], (step_dom _ _ H2) as [I2 D2]. split.
  - intros i x Hi Hx. destruct (step_incident _ _ i x H1 ltac:(set_solver) Hx) as [X1 O1].
    destruct (step_incident _ _ i x H2 ltac:(set_solver) X1) as [X2 O2].
    destruct (step_incident _ _ i x H3 ltac:(set_solver) X2) as [X3 O3].
    destruct (step_incident _ _ i x H4 Hi X3) as [X4 O4]. split; [done|]. eauto.
  - intros d x Hd Hx. destruct (step_diagnosis _ _ d x H1 ltac:(set_solver) Hx) as [X1 O1].
    destruct (step_diagnosis _ _ d x H2 ltac:(set_solver) X1) as [X2 O2].
    destruct (step_diagnosis _ _ d x H3 ltac:(set_solver) X2) as [X3 O3].
    destruct (step_diagnosis _ _ d x H4 Hd X3) as [X4 O4]. split; [done|]. eauto.
Qed.

(** Every entity keeps its newest records: whatever the periods, a pass
    leaves of each entity's observations and transitions the same newest ones
    as before, at least [keep_per_entity] and never fewer than 32 of them. *)
Theorem prune_keeps_newest `{TimeApi} `{ChronoApi} cfg now t t' o entity n :
  prune_at cfg now PruneDelete t = Some (t', o) →
  (N.of_nat n ≤ N.max (ret_keep_per_entity cfg) 32)%N →
  take n (newest_first entity (tab_observations t')) = take n (newest_first entity (tab_observations t))
  ∧ take n (newest_first entity (tab_transitions t')) = take n (newest_first entity (tab_transitions t)).
Proof.
  intros Hp Hn. assert (n ≤ N.to_nat (floor_keep (ret_keep_per_entity cfg))) as Hn'.
  { unfold floor_keep, MIN_KEEP_PER_ENTITY. lia. }
  assert (∀ m m' : gmap string HistoryRow,
    take (N.to_nat (floor_keep (ret_keep_per_entity cfg))) (newest_first entity m')
    = take (N.to_nat (floor_keep (ret_keep_per_entity cfg))) (newest_first entity m) →
    take n (newest_first entity m') = take n (newest_first entity m)) as Hless.
  { intros m m' Heq. apply (f_equal (take n)) in Heq. rewrite !take_take in Heq.
    by rewrite !Nat.min_l in Heq by lia. }
  split; apply Hless.
  - apply prune_at_observations in Hp as (t2 & E2 & [->|[c ->]]); [done|]. rewrite <- E2.
    apply (newest_kept c). intros e He [Hx _]. done.
  - apply prune_at_transitions in Hp as [->|[c ->]]; [done|].
    apply (newest_kept c). by intros e He Hx.
Qed.

(** A period the calendar cannot go back by panics, in every pass. *)
Lemma unrepresentable_period_panics `{TimeApi} `{ChronoApi} cfg now mode t d delta :
  ret_enabled cfg = true → ret_incidents cfg = KeepFor d → delta_from_std d = Some delta →
  datetime_sub now delta = None → prune_at cfg now mode t = None.
Proof.
  intros He Hp Hd Hs. unfold prune_at. rewrite He. cbn [negb]. unfold under_period, period_cutoff.
  by rewrite Hp, Hd, Hs.
Qed.

(** *** A small database *)

Section example.

(** The concrete clock writes instants as decimal numbers; both rows are older
    than anything the periods keep. *)
Definition sample_tables : Tables :=
  mk_tables {[ "i1" := mk_incident_row "open" None ]} {[ ("i1", "o1") ]}
    {[ "d1" := mk_diagnosis_row "100" (Some "i1") ]} {[ ("d1", "o1") ]} {[ "o1" := mk_history_row "h" "100" ]} {[ "s1" := mk_history_row "h" "100" ]}.

Definition prune_now : Timestamp := 9000000000000000000%Z.

Lemma sample_pruned : prune_at retention_default prune_now PruneDelete sample_tables = Some (sample_tables, prune_outcome_default).
Proof. by vm_compute. Qed.
End example.

Lemma prune_keeps_ongoing_incidents_witness :
  prune_at retention_default prune_now PruneDelete sample_tables = Some (sample_tables, prune_outcome_default)
  ∧ tab_incidents sample_tables !! "i1"%string = Some (mk_incident_row "open" None)
  ∧ tab_diagnoses sample_tables !! "d1"%string = Some (mk_diagnosis_row "100" (Some "i1"%string)).
Proof.
  split; [apply sample_pruned|].
  destruct (prune_keeps_ongoing_incidents retention_default prune_now sample_tables sample_tables _ "i1"%string (mk_incident_row "open" None)
    sample_pruned) as (Hi & _ & Hd); [by vm_compute|by right|]. split; [exact Hi|].
  apply (Hd "d1"%string (mk_diagnosis_row "100" (Some "i1"%string))); by vm_compute.
Defined.

Lemma prune_keeps_cited_evidence_witness :
  ("i1", "o1")%string ∈ tab_incident_evidence sample_tables
  ∧ ∀ row, tab_observations sample_tables !! "o1"%string = Some row → tab_observations sample_tables !! "o1"%string = Some row.
Proof.
  apply (proj1 (prune_keeps_cited_evidence retention_default prune_now sample_tables sample_tables _ sample_pruned)
    "i1"%string "o1"%string); by_computation.
Defined.

Lemma prune_keeps_newest_witness :
  take 32 (newest_first "h" (tab_observations sample_tables))
  = take 32 (newest_first "h" (tab_observations sample_tables)).
Proof.
  apply (proj1 (prune_keeps_newest retention_default prune_now sample_tables sample_tables _ "h" 32
    sample_pruned ltac:(by vm_compute))).
Defined.
