(* ===== verification/Probes.v ===== *)
(** * Probes: definitions, schedules and the runner

    [src/probes/mod.rs], [src/probes/catalog.rs], [src/probes/runner.rs] and
    [src/config/probes.rs]: what a probe needs and how often it runs, the list
    of all of them, what an operator may change of a schedule, and the runner
    that bounds how many executions are in flight.  A [std::time::Duration] is
    a number of nanoseconds. *)

From S2P Require Import Concrete.
From S2P Require Export Rules Registration.

Local Open Scope string_scope.

(** ** [std::time::Duration] *)

Abbreviation StdDuration := N (only parsing).

Definition nanos_in_second : N := 1000000000.
Definition std_secs (n : N) : StdDuration := (n * nanos_in_second)%N.
Definition std_millis (n : N) : StdDuration := (n * 1000000)%N.

(** [Duration::MAX]. *)
Definition std_duration_max : StdDuration := (std_secs u64_max + 999999999)%N.

(** [Duration * u32] panics when the product cannot be represented. *)
Definition std_mul (d : StdDuration) (k : N) : option StdDuration :=
  if (d * k <=? std_duration_max)%N then Some (d * k)%N else None.

(** [{:?}]: the largest unit with a whole part, and the rest without its
    trailing zeros. *)
Fixpoint strip_zeros (s : string) : string :=
  match s with
  | EmptyString => EmptyString
  | String a s' =>
      match strip_zeros s' with
      | EmptyString => if bool_decide (a = "0"%char) then EmptyString else String a EmptyString
      | s'' => String a s''
      end
  end.

Definition debug_decimal (whole rest : N) (width : nat) (unit_ : string) : string :=
  let fraction := strip_zeros (show_padded width rest) in
  show_N whole +:+ (if is_empty fraction then "" else "." +:+ fraction) +:+ unit_.

Definition debug_duration (d : StdDuration) : string :=
  if (nanos_in_second <=? d)%N then debug_decimal (d / nanos_in_second) (d mod nanos_in_second) 9 "s"
  else if (1000000 <=? d)%N then debug_decimal (d / 1000000) (d mod 1000000) 6 "ms"
  else if (1000 <=? d)%N then debug_decimal (d / 1000) (d mod 1000) 3 "µs"
  else debug_decimal d 0 0 "ns".

Example debug_durations :
  map debug_duration [std_secs 3; std_millis 1500; std_millis 250; 7%N; 2050%N] = ["3s"; "1.5s"; "250ms"; "7ns"; "2.05µs"].
Proof. reflexivity. Qed.

(** ** Definitions *)

(** [well_known], as far as probes need it. *)
Definition CAP_HOST_METRICS : Capability := "host.metrics".
Definition CAP_NETWORK_TCP : Capability := "network.tcp".
Definition CAP_SSH_SERVER : Capability := "ssh.server".
Definition CAP_SYSTEMD : Capability := "systemd".
Definition CAP_STORAGE_NFS_SERVER : Capability := "storage.nfs.server".
Definition CAP_JOURNAL_READ : Capability := "journal.read".

Inductive ExecutionMode := Mode_Local | Mode_Remote | Mode_Either.

#[export] Instance ExecutionMode_eq_dec : EqDecision ExecutionMode.
Proof. solve_decision. Defined.

Record ProbeDefinition := mk_probe_definition {
  definition_id : ProbeId;
  required_capabilities : list Capability;
  target_entity_types : list EntityType;
  interval : StdDuration;
  timeout : StdDuration;
  execution_mode : ExecutionMode;
  max_outstanding : N
}.

(** [ProbeDefinition::new]. *)
Definition probe_definition_new (id : ProbeId) : ProbeDefinition :=
  mk_probe_definition id [] [] (std_secs 30) (std_secs 5) Mode_Local u32_max.

(** The builders. *)
Definition requiring (cs : list Capability) (d : ProbeDefinition) : ProbeDefinition :=
  mk_probe_definition (definition_id d) cs (target_entity_types d) (interval d) (timeout d) (execution_mode d) (max_outstanding d).
Definition targeting (ts : list EntityType) (d : ProbeDefinition) : ProbeDefinition :=
  mk_probe_definition (definition_id d) (required_capabilities d) ts (interval d) (timeout d) (execution_mode d) (max_outstanding d).
Definition every (i : StdDuration) (d : ProbeDefinition) : ProbeDefinition :=
  mk_probe_definition (definition_id d) (required_capabilities d) (target_entity_types d) i (timeout d) (execution_mode d) (max_outstanding d).
Definition within (t : StdDuration) (d : ProbeDefinition) : ProbeDefinition :=
  mk_probe_definition (definition_id d) (required_capabilities d) (target_entity_types d) (interval d) t (execution_mode d) (max_outstanding d).
Definition mode (m : ExecutionMode) (d : ProbeDefinition) : ProbeDefinition :=
  mk_probe_definition (definition_id d) (required_capabilities d) (target_entity_types d) (interval d) (timeout d) m (max_outstanding d).
Definition outstanding_at_most (n : N) (d : ProbeDefinition) : ProbeDefinition :=
  mk_probe_definition (definition_id d) (required_capabilities d) (target_entity_types d) (interval d) (timeout d) (execution_mode d) n.

(** [ProbeDefinition::applies_to]. *)
Definition applies_to (d : ProbeDefinition) (t : EntityType) (capabilities : CapabilitySet) : bool :=
  (match target_entity_types d with [] => true | ts => bool_decide (t ∈ ts) end)
  && capability_set_has_all capabilities (required_capabilities d).

(** The definitions the probes are compiled with: [TcpProbe::new] and
    [TcpProbe::reachability], then [new] of the others. *)
Definition tcp_definition (id : ProbeId) : ProbeDefinition :=
  mode Mode_Either (within (std_secs 3) (every (std_secs 5) (requiring [CAP_NETWORK_TCP] (probe_definition_new id)))).
Definition reachability_definition : ProbeDefinition :=
  mode Mode_Either (within (std_secs 3) (every (std_secs 5) (targeting [Entity_Host] (probe_definition_new NETWORK_PROBE)))).
Definition agent_definition : ProbeDefinition :=
  mode Mode_Remote (within (std_secs 3) (every (std_secs 5) (targeting [Entity_Host] (requiring [SENTINEL_AGENT] (probe_definition_new PROBE_RPC))))).
Definition systemd_definition : ProbeDefinition :=
  within (std_secs 5) (every (std_secs 10) (targeting [Entity_Service; Entity_Host] (requiring [CAP_SYSTEMD] (probe_definition_new PROBE_SYSTEMD)))).
Definition host_definition : ProbeDefinition :=
  within (std_secs 5) (every (std_secs 15) (targeting [Entity_Host] (requiring [CAP_HOST_METRICS] (probe_definition_new PROBE_HOST)))).
Definition ssh_definition : ProbeDefinition :=
  mode Mode_Either (within (std_secs 5) (every (std_secs 15) (requiring [CAP_SSH_SERVER] (probe_definition_new PROBE_SSH)))).
Definition gpu_definition : ProbeDefinition :=
  within (std_secs 10) (every (std_secs 15) (targeting [Entity_Host] (requiring [GPU_NVIDIA] (probe_definition_new PROBE_GPU)))).
Definition journal_definition : ProbeDefinition :=
  outstanding_at_most 1 (within (std_secs 10) (every (std_secs 30) (targeting [Entity_Host]
    (requiring [CAP_JOURNAL_READ] (probe_definition_new PROBE_JOURNAL))))).
Definition nfs_port_definition : ProbeDefinition :=
  mode Mode_Either (within (std_secs 5) (every (std_secs 15) (targeting [Entity_Host; Entity_Storage]
    (requiring [CAP_STORAGE_NFS_SERVER] (probe_definition_new PROBE_SERVER_PORT))))).
Definition nfs_exports_definition : ProbeDefinition :=
  within (std_secs 5) (every (std_secs 60) (targeting [Entity_Host]
    (requiring [CAP_STORAGE_NFS_SERVER] (probe_definition_new PROBE_SERVER_EXPORTS)))).
Definition nfs_mount_definition : ProbeDefinition :=
  within (std_secs 5) (every (std_secs 30) (targeting [Entity_Host]
    (requiring [STORAGE_NFS_CLIENT] (probe_definition_new PROBE_CLIENT_MOUNT)))).
Definition nfs_io_definition : ProbeDefinition :=
  outstanding_at_most 1 (within (std_secs 10) (every (std_secs 30) (targeting [Entity_Host; Entity_Storage]
    (requiring [STORAGE_NFS_CLIENT] (probe_definition_new PROBE_CLIENT_IO))))).

(** ** The catalog *)

Record CatalogEntry := mk_catalog_entry {
  definition : ProbeDefinition;
  description : string;
  mechanism : string;
  caution : option string;
  reports_on : option (list EntityType)
}.

(** [entry] and [reporting_on]. *)
Definition entry (d : ProbeDefinition) (description mechanism : string) (caution : option string) : CatalogEntry :=
  mk_catalog_entry d description mechanism caution None.
Definition reporting_on (e : CatalogEntry) (types : list EntityType) : CatalogEntry :=
  mk_catalog_entry (definition e) (description e) (mechanism e) (caution e) (Some types).

(** [CatalogEntry::id], [reports_on_type]. *)
Definition entry_id (e : CatalogEntry) : string := definition_id (definition e).
Definition reports_on_type (e : CatalogEntry) (t : EntityType) : bool :=
  match reports_on e with
  | Some types => bool_decide (t ∈ types)
  | None => match target_entity_types (definition e) with [] => true | ts => bool_decide (t ∈ ts) end
  end.

Definition catalog : list CatalogEntry := [
  entry reachability_definition
    "TCP 到達性。応答拒否も「パケットが返った」証拠として扱う"
    "TCP connect() to the host's SSH port; a refusal counts as reached"
    (Some "到達性診断の土台。長くすると host 障害の検出全体が遅くなる");
  entry agent_definition
    "agent の health endpoint。remote からのみ実行"
    "HTTP GET /health on the agent port (7444)"
    (Some "「agent だけ落ちた」と「host が落ちた」の区別に使う");
  reporting_on
    (entry systemd_definition
       "systemd unit の状態"
       "systemctl show <unit> --property=ActiveState,SubState,Result" None) [Entity_Service];
  entry host_definition
    "load / memory / filesystem / uptime"
    "reads /proc/loadavg, /proc/meminfo, /proc/uptime and statvfs()" None;
  entry ssh_definition
    "sshd の応答"
    "SSH ポートへ TCP connect し、識別バナーを読む。認証はしない" None;
  entry gpu_definition
    "GPU の枚数・温度・メモリ"
    "nvidia-smi --query-gpu=... --format=csv" None;
  entry nfs_port_definition
    "NFS server の port 応答"
    "NFS ポート (2049) へ TCP connect" None;
  entry nfs_mount_definition
    "mount の一覧と状態。/proc を読むだけで、hang 中でも安全"
    "reads the host mount table (/proc/1/mounts); touches no filesystem" None;
  entry nfs_io_definition
    "mount 先への実 I/O"
    "stat() on the mount point, under a timeout"
    (Some "同時実行は 1 に固定。blocking syscall を積み上げないため引き上げ不可");
  entry journal_definition
    "kernel / service event（OOM・I/O error・hung task 等）"
    "journalctl --boot --priority=warning --since=-<n>s --lines=500"
    (Some "同時実行は 1 に固定。引き上げ不可");
  entry nfs_exports_definition
    "NFS server の export 一覧"
    "reads /etc/exports and /etc/exports.d/*.exports, as exportfs does; runs no command" None ].

(** [ids] and [is_known]. *)
Definition probe_ids : list string := map entry_id catalog.
Definition is_known (probe : string) : bool := existsb (λ e, String.eqb (entry_id e) probe) catalog.

(** ** Schedules *)

Record ProbeSchedule := mk_probe_schedule {
  schedule_interval : option StdDuration;
  schedule_timeout : option StdDuration;
  schedule_max_outstanding : option N;
  schedule_enabled : option bool
}.

(** [ProbeSchedules], a map by probe. *)
Abbreviation ProbeSchedules := (gmap string ProbeSchedule) (only parsing).

(** [ProbeSchedules::is_enabled]. *)
Definition schedule_is_enabled (s : ProbeSchedules) (probe : string) : bool :=
  default true (s !! probe ≫= schedule_enabled).

(** [ProbeSchedules::apply]. *)
Definition apply_schedule (s : ProbeSchedules) (d : ProbeDefinition) : ProbeDefinition :=
  match s !! definition_id d with
  | None => d
  | Some o =>
      let d := match schedule_interval o with Some i => every i d | None => d end in
      let d := match schedule_timeout o with Some t => within t d | None => d end in
      match schedule_max_outstanding o with
      | Some n => outstanding_at_most (N.min (max_outstanding d) (N.max n 1)) d
      | None => d
      end
  end.

(** ** The runner *)

(** [ProbeRunner]: how many executions hold a slot, per probe and target. *)
Record ProbeRunner := { outstanding_slots : gmap (ProbeId * EntityId) N }.

Definition runner_new : ProbeRunner := {| outstanding_slots := ∅ |}.

(** [ProbeRunner::outstanding]. *)
Definition outstanding (r : ProbeRunner) (probe : ProbeId) (target : EntityId) : N :=
  default 0%N (outstanding_slots r !! (probe, target)).

(** [OutstandingGuard::acquire]: the entry is made before the limit is looked at. *)
Definition acquire (key : ProbeId * EntityId) (limit : N) (r : ProbeRunner) : ProbeRunner * bool :=
  let count := default 0%N (outstanding_slots r !! key) in
  if (limit <=? count)%N then ({| outstanding_slots := <[ key := count ]> (outstanding_slots r) |}, false)
  else ({| outstanding_slots := <[ key := (count + 1)%N ]> (outstanding_slots r) |}, true).

(** [OutstandingGuard::drop]. *)
Definition release (key : ProbeId * EntityId) (r : ProbeRunner) : ProbeRunner :=
  match outstanding_slots r !! key with
  | Some count =>
      let count := (count - 1)%N in
      {| outstanding_slots := if (count =? 0)%N then delete key (outstanding_slots r)
                              else <[ key := count ]> (outstanding_slots r) |}
  | None => r
  end.

(** How waiting for an execution ends. *)
Inductive ProbeOutcome `{JsonApi} :=
  | Collected (o : Observation)
  | Panicked
  | Cancelled (detail : string)
  | TimedOut.

Section run.
Context `{J : JsonApi}.

(** The observation [ProbeRunner::run] returns: [id] and [clock] are what
    [Observation::new] draws, the times are measured around the execution. *)
Definition run_observation (d : ProbeDefinition) (target : EntityId) (observer : option EntityId)
    (id : ObservationId) (clock started finished : Timestamp) (elapsed_ms : N) (outcome : ProbeOutcome) : Observation :=
  let observation :=
    match outcome with
    | Collected o => o
    | Panicked =>
        with_error (observation_new id clock (definition_id d) target Probe_Failed) "probe_panicked"
          "the probe panicked; this is a bug in the probe, not a fault of the target"
    | Cancelled detail => with_error (observation_new id clock (definition_id d) target Probe_Failed) "probe_cancelled" detail
    | TimedOut =>
        with_error (observation_new id clock (definition_id d) target Probe_Timeout) "probe_timeout"
          ("no result within " +:+ debug_duration (timeout d))
    end in
  let observation := with_duration_ms (with_times observation started finished) elapsed_ms in
  match observer with
  | Some e => with_observer observation e
  | None => observation
  end.
End run.

(** A runner with the slots its executions hold.  A timeout ends the wait and
    not the execution, so it is no step; a panic unwinds through the guard. *)
Inductive runner_step (limit : ProbeId → N) : relation (ProbeRunner * list (ProbeId * EntityId)) :=
  | runner_start key r r' live : acquire key (limit key.1) r = (r', true) →
      runner_step limit (r, live) (r', key :: live)
  | runner_skip key r r' live : acquire key (limit key.1) r = (r', false) →
      runner_step limit (r, live) (r', live)
  | runner_finish key r live1 live2 :
      runner_step limit (r, live1 ++ key :: live2)%list (release key r, live1 ++ live2)%list.

(** ** How long an answer is evidence *)

(** [STALE_AFTER_INTERVALS] and [freshness_horizons] of
    [src/controller/diagnose.rs]; [None] is the panic of a product that
    overflows. *)
Definition STALE_AFTER_INTERVALS : N := 4.

(** [chrono::Duration::from_std(window).unwrap_or_else(|_| hours(1))]. *)
Definition window_duration `{ChronoApi} (window : StdDuration) : Duration :=
  default (hours 1) (delta_from_std window).

Fixpoint horizons_from `{ChronoApi} (s : ProbeSchedules) (es : list CatalogEntry) (m : gmap string Duration) :
    option (gmap string Duration) :=
  match es with
  | [] => Some m
  | e :: es =>
      let d := apply_schedule s (definition e) in
      window ← std_mul (interval d) STALE_AFTER_INTERVALS;
      horizons_from s es (<[ definition_id d := window_duration window ]> m)
  end.

Definition freshness_horizons `{ChronoApi} (s : ProbeSchedules) : option (gmap string Duration) :=
  horizons_from s catalog ∅.

(** [horizon_for]. *)
Definition horizon_for (probe : string) (observer controller : option EntityId) (horizons : gmap string Duration)
    (fallback : Duration) : Duration :=
  let probe_horizon := default fallback (horizons !! probe) in
  if bool_decide (is_Some observer) && bool_decide (observer = controller) then Z.max probe_horizon fallback
  else probe_horizon.

(** ** Facts *)

Lemma apply_schedule_id s d : definition_id (apply_schedule s d) = definition_id d.
Proof. unfold apply_schedule. destruct (s !! _) as [[[] [] [] ?]|]; done. Qed.

Lemma apply_schedule_outstanding s d :
  (max_outstanding (apply_schedule s d) ≤ max_outstanding d)%N
  ∧ (max_outstanding d ≠ 0 → max_outstanding (apply_schedule s d) ≠ 0)%N.
Proof. unfold apply_schedule. destruct (s !! _) as [[[] [] [] ?]|]; cbn; lia. Qed.

Lemma probe_ids_nodup : NoDup probe_ids.
Proof. apply (bool_decide_eq_true_1 _). vm_compute. reflexivity. Qed.

(** How many of the slots are a key's. *)
Definition held (key : ProbeId * EntityId) (live : list (ProbeId * EntityId)) : N :=
  N.of_nat (length (filter (λ k, k = key) live)).

Lemma held_app key l1 l2 : held key (l1 ++ l2)%list = (held key l1 + held key l2)%N.
Proof. unfold held. rewrite filter_app, length_app. lia. Qed.

Lemma held_cons key k l : held key (k :: l) = ((if decide (k = key) then 1 else 0) + held key l)%N.
Proof. unfold held. rewrite filter_cons. case_decide; cbn [length]; lia. Qed.

Lemma outstanding_insert m k n key :
  default 0%N (<[ k := n ]> m !! key) = if decide (k = key) then n else default 0%N ((m : gmap (ProbeId * EntityId) N) !! key).
Proof. case_decide as Hk; [subst; by rewrite lookup_insert_eq|by rewrite lookup_insert_ne]. Qed.

(** The counters are the slots held, and no slot is held beyond its limit. *)
Lemma runner_step_invariant limit r live r' live' :
  runner_step limit (r, live) (r', live') →
  (∀ key, default 0%N (outstanding_slots r !! key) = held key live ∧ (held key live ≤ limit key.1)%N) →
  ∀ key, default 0%N (outstanding_slots r' !! key) = held key live' ∧ (held key live' ≤ limit key.1)%N.
Proof.
  intros Hstep Hinv key. inversion Hstep as [k r1 r2 l Hacq|k r1 r2 l Hacq|k r1 l1 l2]; subst; clear Hstep.
  - unfold acquire in Hacq. destruct (Hinv key) as [Hc Hl]. rewrite held_cons.
    case_match eqn:Hlim; [done|]. apply N.leb_gt in Hlim. injection Hacq as <-. cbn [outstanding_slots].
    rewrite outstanding_insert. case_decide as Hk; [subst; lia|]. rewrite Hc. lia.
  - unfold acquire in Hacq. destruct (Hinv key) as [Hc Hl]. case_match; [|done].
    injection Hacq as <-. cbn [outstanding_slots]. rewrite outstanding_insert. case_decide; [by subst|done].
  - destruct (Hinv key) as [Hc Hl]. destruct (Hinv k) as [Hck _].
    rewrite held_app, held_cons in Hc, Hl, Hck. rewrite held_app. rewrite decide_True in Hck by done.
    unfold release. destruct (outstanding_slots r !! k) as [count|] eqn:Hk; cbn in Hck; [|lia].
    cbn [outstanding_slots]. destruct (count - 1 =? 0)%N eqn:Hz.
    + apply N.eqb_eq in Hz. destruct (decide (k = key)) as [->|Hne].
      * rewrite lookup_delete_eq. cbn. lia.
      * rewrite lookup_delete_ne by done. rewrite Hc. lia.
    + rewrite outstanding_insert. case_decide as Hkk; [subst|]; lia.
Qed.


(** What the operator's schedule leaves of a probe's limit. *)
Definition configured_limit (s : ProbeSchedules) (probe : ProbeId) : N :=
  match list_find (λ e, entry_id e = probe) catalog with
  | Some (_, e) => max_outstanding (apply_schedule s (definition e))
  | None => 0%N
  end.

Lemma configured_limit_entry s e :
  e ∈ catalog → configured_limit s (entry_id e) = max_outstanding (apply_schedule s (definition e)).
Proof.
  intros He. unfold configured_limit. destruct (list_find _ catalog) as [[i e']|] eqn:Hf.
  - apply list_find_Some in Hf as (Hi & Hid & _). apply list_elem_of_lookup in He as [j Hj].
    assert (i = j) as ->; [|congruence]. pose proof probe_ids_nodup as Hnd. unfold probe_ids in Hnd.
    apply (NoDup_lookup (map entry_id catalog) i j (entry_id e)); [done|..].
    + rewrite list_lookup_fmap, Hi. cbn. by rewrite Hid.
    + by rewrite list_lookup_fmap, Hj.
  - apply list_find_None in Hf. rewrite Forall_forall in Hf. by destruct (Hf e He).
Qed.

Lemma catalog_limits e : e ∈ catalog → max_outstanding (definition e) ≠ 0%N.
Proof. intros He. assert (Forall (λ e, max_outstanding (definition e) ≠ 0%N) catalog) as Hall by (by repeat constructor).
  rewrite Forall_forall in Hall. by apply Hall. Qed.

Lemma runner_reachable limit r live :
  rtc (runner_step limit) (runner_new, []) (r, live) →
  ∀ key, default 0%N (outstanding_slots r !! key) = held key live ∧ (held key live ≤ limit key.1)%N.
Proof.
  intros Hrun. change (let st := (r, live) in ∀ key, default 0%N (outstanding_slots st.1 !! key) = held key st.2
    ∧ (held key st.2 ≤ limit key.1)%N). generalize (r, live), Hrun. clear. intros st Hrun.
  apply (rtc_ind_r (R := runner_step limit) (λ st : ProbeRunner * list (ProbeId * EntityId),
    ∀ key, default 0%N (outstanding_slots st.1 !! key) = held key st.2 ∧ (held key st.2 ≤ limit key.1)%N) (runner_new, [])); [| |done].
  - intros key. cbn. rewrite lookup_empty. unfold held. rewrite filter_nil. cbn. lia.
  - intros [r1 l1] [r2 l2] _ Hstep IH. by apply (runner_step_invariant limit r1 l1).
Qed.

(** Whatever an operator configures, and whatever starts, ends, hangs or
    panics in whatever order, a probe of the catalog never has more executions
    in flight against a target than it was compiled with: one that pins its
    concurrency to one never runs twice at a time.  A start is refused exactly
    when the slots are taken, and there always are some. *)
Theorem executions_bounded (s : ProbeSchedules) (r : ProbeRunner) (live : list (ProbeId * EntityId)) e target :
  let limit := configured_limit s in
  let key := (entry_id e, target) in
  e ∈ catalog → rtc (runner_step limit) (runner_new, []) (r, live) →
  (held key live ≤ max_outstanding (definition e))%N
  ∧ outstanding r (entry_id e) target = held key live
  ∧ ((acquire key (limit (entry_id e)) r).2 = false ↔ held key live = limit (entry_id e))
  ∧ limit (entry_id e) ≠ 0%N.
Proof.
  intros limit key He Hrun. destruct (runner_reachable limit r live Hrun key) as [Hc Hl].
  assert (limit (entry_id e) = max_outstanding (apply_schedule s (definition e))) as Hlim by (by apply configured_limit_entry).
  destruct (apply_schedule_outstanding s (definition e)) as [Hle Hpos]. cbn [fst key] in Hl.
  split_and!; [lia|exact Hc| |rewrite Hlim; by apply Hpos, catalog_limits].
  unfold acquire. rewrite Hc. destruct (limit (entry_id e) <=? held key live)%N eqn:Hcmp; cbn [snd].
  - apply N.leb_le in Hcmp. split; [lia|done].
  - apply N.leb_gt in Hcmp. split; [done|lia].
Qed.

Lemma executions_bounded_witness :
  let s : ProbeSchedules := {[ PROBE_CLIENT_IO := mk_probe_schedule None None (Some 64%N) None ]} in
  let key := (PROBE_CLIENT_IO, {| as_uuid := 7%N |} : EntityId) in
  let r := (acquire key 1 runner_new).1 in
  held key [key] = 1%N ∧ (acquire key (configured_limit s PROBE_CLIENT_IO) r).2 = false.
Proof.
  set (s := {[ PROBE_CLIENT_IO := _ ]}). set (key := (PROBE_CLIENT_IO, _)). set (r := (acquire key 1 runner_new).1).
  split; [vm_compute; reflexivity|].
  destruct (executions_bounded s r [key] (entry nfs_io_definition
    "mount 先への実 I/O" "stat() on the mount point, under a timeout"
    (Some "同時実行は 1 に固定。blocking syscall を積み上げないため引き上げ不可")) key.2) as (_ & _ & [_ Hfull] & _).
  - apply (list_elem_of_lookup_2 _ 8). reflexivity.
  - apply rtc_once. apply (runner_start _ key). vm_compute. reflexivity.
  - apply Hfull. vm_compute. reflexivity.
Defined.
