(* ===== verification/IncidentStore.v ===== *)
(** * Storing incidents, notifications and maintenance windows

    [src/persistence/incidents.rs], [notifications.rs], [maintenance.rs] and
    [reset.rs]: the tables an incident is written to with everything hanging
    off it, the queries that find incidents again, the candidates and the
    record of deliveries, and the reset of the monitoring state.  Identifiers,
    times and JSON values are kept as values, times cut to the microseconds the
    text keeps; the names of enumerations are the text they are stored as. *)

From S2P Require Export EngineStore Notify Notification.

Local Open Scope string_scope.

Definition ROLE_AFFECTED : string := "affected".
Definition ROLE_ROOT : string := "suspected_root".

(** ** The tables *)

(** A row of [incidents]; its [updated_at] is never read. *)
Record StoredIncident := mk_stored_incident {
  si_environment : string;
  si_fingerprint : string;
  si_status : string;
  si_severity : string;
  si_started_at : Timestamp;
  si_ended_at : option Timestamp
}.

(** A row of [diagnoses]. *)
Record StoredDiagnosis := mk_stored_diagnosis {
  sd_type : string;
  sd_rule : RuleId;
  sd_confidence : string;
  sd_summary : string;
  sd_actions : list string;
  sd_incident : option Uuid;
  sd_created_at : Timestamp
}.

(** A row of [incident_timeline]. *)
Record StoredEvent := mk_stored_event { se_incident : Uuid; se_event : TimelineEvent }.

(** A row of [notifications], by provider and deduplication key. *)
Record StoredDelivery := mk_stored_delivery {
  sv_incident : string;
  sv_status : string;
  sv_sent_at : option Timestamp
}.

(** A row of [maintenance_windows]. *)
Record StoredWindow := mk_stored_window { sw_environment : string; sw_window : MaintenanceWindow }.

Record IncidentTables := mk_incident_tables {
  it_incidents : gmap Uuid StoredIncident;
  it_entities : gmap (Uuid * EntityId * string) unit;
  it_evidence : gmap (Uuid * ObservationId) unit;
  it_diagnoses : gmap Uuid StoredDiagnosis;
  it_diagnosis_entities : gmap (Uuid * EntityId * string) unit;
  it_diagnosis_evidence : gmap (Uuid * ObservationId) unit;
  it_timeline : gmap Uuid StoredEvent;
  it_candidates : gmap string (Uuid * Notification);
  it_deliveries : gmap (string * string) StoredDelivery;
  it_windows : gmap Uuid StoredWindow
}.

Definition set_incident_rows m (t : IncidentTables) : IncidentTables :=
  mk_incident_tables m (it_entities t) (it_evidence t) (it_diagnoses t) (it_diagnosis_entities t)
    (it_diagnosis_evidence t) (it_timeline t) (it_candidates t) (it_deliveries t) (it_windows t).
Definition set_incident_entities m (t : IncidentTables) : IncidentTables :=
  mk_incident_tables (it_incidents t) m (it_evidence t) (it_diagnoses t) (it_diagnosis_entities t)
    (it_diagnosis_evidence t) (it_timeline t) (it_candidates t) (it_deliveries t) (it_windows t).
Definition set_evidence_rows m (t : IncidentTables) : IncidentTables :=
  mk_incident_tables (it_incidents t) (it_entities t) m (it_diagnoses t) (it_diagnosis_entities t)
    (it_diagnosis_evidence t) (it_timeline t) (it_candidates t) (it_deliveries t) (it_windows t).
Definition set_diagnosis_rows m me mv (t : IncidentTables) : IncidentTables :=
  mk_incident_tables (it_incidents t) (it_entities t) (it_evidence t) m me mv
    (it_timeline t) (it_candidates t) (it_deliveries t) (it_windows t).
Definition set_timeline_rows m (t : IncidentTables) : IncidentTables :=
  mk_incident_tables (it_incidents t) (it_entities t) (it_evidence t) (it_diagnoses t) (it_diagnosis_entities t)
    (it_diagnosis_evidence t) m (it_candidates t) (it_deliveries t) (it_windows t).
Definition set_candidates m (t : IncidentTables) : IncidentTables :=
  mk_incident_tables (it_incidents t) (it_entities t) (it_evidence t) (it_diagnoses t) (it_diagnosis_entities t)
    (it_diagnosis_evidence t) (it_timeline t) m (it_deliveries t) (it_windows t).
Definition set_deliveries m (t : IncidentTables) : IncidentTables :=
  mk_incident_tables (it_incidents t) (it_entities t) (it_evidence t) (it_diagnoses t) (it_diagnosis_entities t)
    (it_diagnosis_evidence t) (it_timeline t) (it_candidates t) m (it_windows t).
Definition set_windows m (t : IncidentTables) : IncidentTables :=
  mk_incident_tables (it_incidents t) (it_entities t) (it_evidence t) (it_diagnoses t) (it_diagnosis_entities t)
    (it_diagnosis_evidence t) (it_timeline t) (it_candidates t) (it_deliveries t) m.

Section incident_store.
Context `{J : JsonApi} `{U : UuidApi} `{T : TimeApi} `{HI : HashIter}.

(** ** Saving an incident *)

(** The namespace and the name of [timeline_id]; [unit_separator] is U+001F. *)
Definition TIMELINE_NAMESPACE : Uuid := 0x9e3a71bc44d25f80a1c366be2f047d19%N.
Definition unit_separator : string := String "031" EmptyString.

Definition timeline_id (i : Incident) (e : TimelineEvent) : Uuid :=
  uuid_new_v5 TIMELINE_NAMESPACE
    (uuid_to_string (incident_id i) +:+ unit_separator +:+ rfc3339_micros (event_at e) +:+ unit_separator
       +:+ event_kind e +:+ unit_separator +:+ event_detail e).

(** The [INSERT INTO incidents .. ON CONFLICT(id) DO UPDATE]. *)
Definition upsert_incident (inv : InventoryTables) (environment : string) (i : Incident) (t : IncidentTables) :
    StoreError + IncidentTables :=
  let status := incident_status_as_str (incident_status i) in
  let severity := severity_as_str (incident_severity i) in
  let ended := to_micros <$> ended_at i in
  match it_incidents t !! incident_id i with
  | Some old =>
      inr (set_incident_rows (<[ incident_id i :=
        mk_stored_incident (si_environment old) (si_fingerprint old) status severity (si_started_at old) ended ]>
        (it_incidents t)) t)
  | None =>
      if bool_decide (environment ∉ t_environments inv) then inl Store_Database
      else inr (set_incident_rows (<[ incident_id i :=
        mk_stored_incident environment (incident_fingerprint i) status severity
          (to_micros (incident_started_at i)) ended ]> (it_incidents t)) t)
  end.

(** One [INSERT .. ON CONFLICT DO NOTHING] of an entity in its role; the
    reference to [entities] is not excused by it. *)
Definition insert_role (inv : InventoryTables) (id : Uuid) (m : gmap (Uuid * EntityId * string) unit)
    (er : EntityId * string) : StoreError + gmap (Uuid * EntityId * string) unit :=
  if bool_decide (er.1 ∉ dom (t_entities inv)) then inl Store_Database
  else inr (<[ (id, er.1, er.2) := tt ]> m).

(** The two loops over [(affected, ROLE_AFFECTED)] and [(roots, ROLE_ROOT)]. *)
Definition roles (affected roots : list EntityId) : list (EntityId * string) :=
  (map (λ e, (e, ROLE_AFFECTED)) affected ++ map (λ e, (e, ROLE_ROOT)) roots)%list.

Definition replace_roles (inv : InventoryTables) (i : Incident) (t : IncidentTables) : StoreError + IncidentTables :=
  sum_bind (λ m, inr (set_incident_entities m t))
    (try_fold (insert_role inv (incident_id i))
       (filter (λ kv : (Uuid * EntityId * string) * unit, kv.1.1.1 ≠ incident_id i) (it_entities t))
       (roles (incident_affected i) (incident_roots i))).

(** [INSERT INTO incident_evidence .. ON CONFLICT DO NOTHING]. *)
Definition insert_evidence (id : Uuid) (m : gmap (Uuid * ObservationId) unit) (o : ObservationId) :
    gmap (Uuid * ObservationId) unit := <[ (id, o) := tt ]> m.

Definition add_evidence_rows (i : Incident) (t : IncidentTables) : IncidentTables :=
  set_evidence_rows (foldl (insert_evidence (incident_id i)) (it_evidence t) (incident_evidence i)) t.

(** [DELETE FROM diagnoses WHERE incident_id = ?], which takes what hangs off
    them along. *)
Definition delete_diagnoses (id : Uuid) (t : IncidentTables) : IncidentTables :=
  let gone d := sd_incident <$> it_diagnoses t !! d = Some (Some id) in
  set_diagnosis_rows (filter (λ kv, sd_incident kv.2 ≠ Some id) (it_diagnoses t))
    (filter (λ kv : (Uuid * EntityId * string) * unit, ¬ gone kv.1.1.1) (it_diagnosis_entities t))
    (filter (λ kv : (Uuid * ObservationId) * unit, ¬ gone kv.1.1) (it_diagnosis_evidence t)) t.

(** The [INSERT INTO diagnoses .. ON CONFLICT(id) DO UPDATE SET incident_id]. *)
Definition upsert_diagnosis (id : Uuid) (d : Diagnosis) (m : gmap Uuid StoredDiagnosis) : gmap Uuid StoredDiagnosis :=
  <[ diagnosis_id d :=
       match m !! diagnosis_id d with
       | Some old => mk_stored_diagnosis (sd_type old) (sd_rule old) (sd_confidence old) (sd_summary old)
                       (sd_actions old) (Some id) (sd_created_at old)
       | None => mk_stored_diagnosis (diagnosis_type d) (diagnosis_rule d) (confidence_as_str (confidence d))
                   (diagnosis_summary d) (recommended_actions d) (Some id) (to_micros (diagnosis_created_at d))
       end ]> m.

(** One diagnosis, with its entities and evidence. *)
Definition insert_diagnosis (inv : InventoryTables) (id : Uuid) (t : IncidentTables) (d : Diagnosis) :
    StoreError + IncidentTables :=
  sum_bind (λ m, inr (set_diagnosis_rows (upsert_diagnosis id d (it_diagnoses t)) m
      (foldl (insert_evidence (diagnosis_id d)) (it_diagnosis_evidence t) (diagnosis_evidence d)) t))
    (try_fold (insert_role inv (diagnosis_id d)) (it_diagnosis_entities t)
       (roles (affected_entities d) (suspected_root_entities d))).

(** [INSERT INTO incident_timeline .. ON CONFLICT DO NOTHING]. *)
Definition stored_event (e : TimelineEvent) : TimelineEvent :=
  {| event_at := to_micros (event_at e); event_kind := event_kind e; event_detail := event_detail e;
     event_entity := event_entity e |}.

Definition insert_event (i : Incident) (m : gmap Uuid StoredEvent) (e : TimelineEvent) : gmap Uuid StoredEvent :=
  match m !! timeline_id i e with
  | Some _ => m
  | None => <[ timeline_id i e := mk_stored_event (incident_id i) (stored_event e) ]> m
  end.

Definition add_timeline (i : Incident) (t : IncidentTables) : IncidentTables :=
  set_timeline_rows (foldl (insert_event i) (it_timeline t) (timeline i)) t.

(** The incidents whose candidates a returning fault supersedes. *)
Definition superseded_by (environment : string) (i : Incident) (t : IncidentTables) (id : Uuid) : Prop :=
  id ≠ incident_id i ∧
  match it_incidents t !! id with
  | Some r => si_environment r = environment ∧ si_fingerprint r = incident_fingerprint i
      ∧ key_le (rfc3339_micros (si_started_at r)) (rfc3339_micros (incident_started_at i))
  | None => False
  end.

#[export] Instance superseded_by_dec environment i t id : Decision (superseded_by environment i t id).
Proof. unfold superseded_by. destruct (it_incidents t !! id); apply _. Defined.

(** The two [DELETE]s of candidates, and the [INSERT] of one, which nothing
    excuses from the primary key. *)
Definition drop_candidates (environment : string) (i : Incident) (t : IncidentTables) : IncidentTables :=
  set_candidates
    (filter (λ kv : string * (Uuid * Notification),
               ¬ superseded_by environment i t kv.2.1 ∧ kv.2.1 ≠ incident_id i) (it_candidates t)) t.

Definition insert_candidate (id : Uuid) (m : gmap string (Uuid * Notification)) (n : Notification) :
    StoreError + gmap string (Uuid * Notification) :=
  match m !! deduplication_key n with
  | Some _ => inl Store_Database
  | None => inr (<[ deduplication_key n := (id, n) ]> m)
  end.

Definition add_candidates (i : Incident) (t : IncidentTables) : StoreError + IncidentTables :=
  sum_bind (λ m, inr (set_candidates m t))
    (try_fold (insert_candidate (incident_id i)) (it_candidates t) (notifications_for_incident i)).

(** [save_incident_in]. *)
Definition save_incident_in (inv : InventoryTables) (environment : string) (t : IncidentTables) (i : Incident) :
    StoreError + IncidentTables :=
  sum_bind (λ t, sum_bind (λ t, sum_bind (λ t,
      add_candidates i (drop_candidates environment i (add_timeline i t)))
      (try_fold (insert_diagnosis inv (incident_id i)) (delete_diagnoses (incident_id i) (add_evidence_rows i t))
         (incident_diagnoses i)))
      (replace_roles inv i t))
    (upsert_incident inv environment i t).

(** [save_incidents], one transaction, and [save_incident]. *)
Definition save_incidents (inv : InventoryTables) (environment : string) (l : list Incident) (t : IncidentTables) :
    StoreError + IncidentTables := try_fold (save_incident_in inv environment) t l.

Definition save_incident (inv : InventoryTables) (environment : string) (i : Incident) (t : IncidentTables) :
    StoreError + IncidentTables := save_incidents inv environment [i] t.

(** ** Loading incidents *)

(** The rows of a query by the identifier in front, in no order. *)
Definition role_rows (id : Uuid) (m : gmap (Uuid * EntityId * string) unit) : list (EntityId * string) :=
  map (λ kv, (kv.1.1.2, kv.1.2)) (filter (λ kv : (Uuid * EntityId * string) * unit, kv.1.1.1 = id) (hash_iter m)).

Definition evidence_rows (id : Uuid) (m : gmap (Uuid * ObservationId) unit) : list ObservationId :=
  map (λ kv, kv.1.2) (filter (λ kv : (Uuid * ObservationId) * unit, kv.1.1 = id) (hash_iter m)).

(** [match role { ROLE_ROOT => roots.push, _ => affected.push }]. *)
Definition roots_of (rows : list (EntityId * string)) : list EntityId :=
  map fst (filter (λ r, r.2 = ROLE_ROOT) rows).
Definition affected_of (rows : list (EntityId * string)) : list EntityId :=
  map fst (filter (λ r, r.2 ≠ ROLE_ROOT) rows).

(** The loop over [diagnoses], [ORDER BY created_at]. *)
Definition hydrate_diagnosis (t : IncidentTables) (row : Uuid * StoredDiagnosis) : Diagnosis :=
  let '(id, r) := row in
  let rows := role_rows id (it_diagnosis_entities t) in
  {| diagnosis_id := id; diagnosis_type := sd_type r; affected_entities := affected_of rows;
     suspected_root_entities := roots_of rows; confidence := default Confidence_Low (confidence_parse (sd_confidence r));
     diagnosis_evidence := evidence_rows id (it_diagnosis_evidence t); diagnosis_rule := sd_rule r;
     diagnosis_summary := sd_summary r; recommended_actions := sd_actions r;
     diagnosis_created_at := sd_created_at r |}.

Definition diagnosis_rows (id : Uuid) (t : IncidentTables) : list (Uuid * StoredDiagnosis) :=
  sort_by_key (λ r : Uuid * StoredDiagnosis, rfc3339_micros (sd_created_at r.2))
    (filter (λ r, sd_incident r.2 = Some id) (hash_iter (it_diagnoses t))).

(** The loop over [incident_timeline], [ORDER BY occurred_at]. *)
Definition timeline_rows (id : Uuid) (t : IncidentTables) : list TimelineEvent :=
  sort_by_key (λ e, rfc3339_micros (event_at e))
    (map (λ kv, se_event kv.2) (filter (λ kv : Uuid * StoredEvent, se_incident kv.2 = id) (hash_iter (it_timeline t)))).

(** [hydrate_incident]. *)
Definition hydrate_incident (t : IncidentTables) (row : Uuid * StoredIncident) : Incident :=
  let '(id, r) := row in
  let rows := role_rows id (it_entities t) in
  {| incident_id := id; incident_fingerprint := si_fingerprint r;
     incident_status := default Status_Open (incident_status_parse (si_status r));
     incident_severity := default Severity_Warning (severity_parse (si_severity r));
     incident_started_at := si_started_at r; ended_at := si_ended_at r;
     incident_affected := affected_of rows; incident_roots := roots_of rows;
     incident_diagnoses := map (hydrate_diagnosis t) (diagnosis_rows id t);
     incident_evidence := evidence_rows id (it_evidence t);
     timeline := timeline_rows id t |}.

(** [ORDER BY started_at DESC]. *)
Definition newest_started (rows : list (Uuid * StoredIncident)) : list (Uuid * StoredIncident) :=
  reverse (sort_by_key (λ r : Uuid * StoredIncident, rfc3339_micros (si_started_at r.2)) rows).

(** [load_incidents]. *)
Definition load_incidents (environment : string) (limit : N) (t : IncidentTables) : list Incident :=
  map (hydrate_incident t) (take (N.to_nat limit)
    (newest_started (filter (λ r, si_environment r.2 = environment) (hash_iter (it_incidents t))))).

(** [status IN ('open', 'recovering', 'acknowledged')]. *)
Definition stored_active (r : StoredIncident) : Prop :=
  si_status r ∈ ["open"; "recovering"; "acknowledged"].

#[export] Instance stored_active_dec r : Decision (stored_active r).
Proof. unfold stored_active. apply _. Defined.

(** [load_active_incidents]. *)
Definition load_active_incidents (environment : string) (t : IncidentTables) : list Incident :=
  map (hydrate_incident t)
    (newest_started (filter (λ r, si_environment r.2 = environment ∧ stored_active r.2) (hash_iter (it_incidents t)))).

(** The condition of [load_resumable_incidents]. *)
Definition resumable (now : Timestamp) (reset : option Timestamp) (environment : string) (r : StoredIncident) : Prop :=
  si_environment r = environment
  ∧ key_le (default "" (rfc3339_micros <$> reset)) (rfc3339_micros (si_started_at r))
  ∧ (stored_active r
     ∨ si_status r = "resolved"
       ∧ match si_ended_at r with
         | Some e => key_le (rfc3339_micros (now - minutes REOPEN_WINDOW_MINUTES)%Z) (rfc3339_micros e)
         | None => False
         end).

#[export] Instance resumable_dec now reset environment r : Decision (resumable now reset environment r).
Proof. unfold resumable. destruct (si_ended_at r); apply _. Defined.

(** [load_resumable_incidents]. *)
Definition load_resumable_incidents (now : Timestamp) (reset : option Timestamp) (environment : string)
    (t : IncidentTables) : list Incident :=
  map (hydrate_incident t)
    (newest_started (filter (λ r, resumable now reset environment r.2) (hash_iter (it_incidents t)))).

(** [load_incident]: the text of an identifier names at most one row. *)
Definition load_incident (id : string) (t : IncidentTables) : option Incident :=
  hydrate_incident t <$> head (filter (λ r, uuid_to_string r.1 = id) (hash_iter (it_incidents t))).

(** ** Notifications and maintenance *)

(** [notification_candidates]: [JOIN incidents i .. WHERE i.environment = ?]. *)
Definition incident_in (environment : string) (t : IncidentTables) (id : Uuid) : Prop :=
  si_environment <$> it_incidents t !! id = Some environment.

#[export] Instance incident_in_dec environment t id : Decision (incident_in environment t id).
Proof. unfold incident_in. apply _. Defined.

Definition notification_candidates (environment : string) (t : IncidentTables) : list Notification :=
  map (λ kv, kv.2.2)
    (filter (λ kv : string * (Uuid * Notification), incident_in environment t kv.2.1) (hash_iter (it_candidates t))).

(** [is_notification_current]. *)
Definition is_notification_current (n : Notification) (t : IncidentTables) : bool :=
  bool_decide (is_Some (it_candidates t !! deduplication_key n)).

Definition STATUS_SENT : string := "sent".

(** [REFERENCES incidents(id)], by the text of the identifier. *)
Definition incident_named (id : string) (t : IncidentTables) : bool :=
  existsb (λ r : Uuid * StoredIncident, String.eqb (uuid_to_string r.1) id) (map_to_list (it_incidents t)).

(** [save_notification]. *)
Definition save_notification (r : NotificationRecord) (t : IncidentTables) : StoreError + IncidentTables :=
  if incident_named (record_incident_id r) t then
    inr (set_deliveries (<[ (record_provider r, record_key r) :=
           mk_stored_delivery (record_incident_id r) STATUS_SENT (Some (to_micros (record_sent_at r))) ]>
           (it_deliveries t)) t)
  else inl Store_Database.

(** [load_notifications]. *)
Definition load_notifications (environment : string) (t : IncidentTables) : list NotificationRecord :=
  omap (λ kv : (string * string) * StoredDelivery,
      match sv_sent_at kv.2 with
      | Some at_ =>
          if decide (sv_status kv.2 = STATUS_SENT) then
            if existsb (λ r : Uuid * StoredIncident,
                 String.eqb (uuid_to_string r.1) (sv_incident kv.2) && String.eqb (si_environment r.2) environment)
                 (map_to_list (it_incidents t))
            then Some {| record_incident_id := sv_incident kv.2; record_key := kv.1.2; record_provider := kv.1.1;
                         record_sent_at := at_ |}
            else None
          else None
      | None => None
      end) (hash_iter (it_deliveries t)).

(** [forget_notifications]: how many went. *)
Definition forget_notifications (key : string) (t : IncidentTables) : IncidentTables * nat :=
  let kept := filter (λ kv : (string * string) * StoredDelivery, kv.1.2 ≠ key) (it_deliveries t) in
  (set_deliveries kept t, (size (it_deliveries t) - size kept)%nat).

(** [save_maintenance_window]: the references are those of a new row. *)
Definition stored_window (w : MaintenanceWindow) : MaintenanceWindow :=
  {| window_id := window_id w; window_entity := window_entity w; window_reason := window_reason w;
     starts_at := to_micros (starts_at w); ends_at := to_micros <$> ends_at w; created_by := created_by w |}.

Definition save_maintenance_window (inv : InventoryTables) (environment : string) (w : MaintenanceWindow)
    (t : IncidentTables) : StoreError + IncidentTables :=
  match it_windows t !! window_id w with
  | Some old =>
      inr (set_windows (<[ window_id w := mk_stored_window (sw_environment old)
             {| window_id := window_id w; window_entity := window_entity (sw_window old);
                window_reason := window_reason w; starts_at := to_micros (starts_at w);
                ends_at := to_micros <$> ends_at w; created_by := created_by (sw_window old) |} ]> (it_windows t)) t)
  | None =>
      if bool_decide (environment ∉ t_environments inv)
         || match window_entity w with Some e => bool_decide (e ∉ dom (t_entities inv)) | None => false end
      then inl Store_Database
      else inr (set_windows (<[ window_id w := mk_stored_window environment (stored_window w) ]> (it_windows t)) t)
  end.

(** [load_maintenance_windows]. *)
Definition load_maintenance_windows (environment : string) (t : IncidentTables) : list MaintenanceWindow :=
  map (λ r : Uuid * StoredWindow, sw_window r.2)
    (reverse (sort_by_key (λ r : Uuid * StoredWindow, rfc3339_micros (starts_at (sw_window r.2)))
       (filter (λ r, sw_environment r.2 = environment) (hash_iter (it_windows t))))).

(** [end_maintenance_window]: whether there was one. *)
Definition end_maintenance_window (id : Uuid) (at_ : Timestamp) (t : IncidentTables) : IncidentTables * bool :=
  match it_windows t !! id with
  | Some r =>
      let w := sw_window r in
      (set_windows (<[ id := mk_stored_window (sw_environment r)
         {| window_id := window_id w; window_entity := window_entity w; window_reason := window_reason w;
            starts_at := starts_at w; ends_at := Some (to_micros at_); created_by := created_by w |} ]>
         (it_windows t)) t, true)
  | None => (t, false)
  end.

(** ** Resetting *)

(** [StateReset]. *)
Record StateReset := mk_state_reset {
  reset_at : Timestamp;
  reset_entities : nat;
  reset_incidents : nat;
  reset_pending : nat
}.

Definition RESET_DETAIL : string := "監視状態を初期化したため、この障害の追跡を終了しました。".

(** [status IN ('open', 'recovering', 'acknowledged', 'suppressed')]. *)
Definition unfinished (environment : string) (r : StoredIncident) : Prop :=
  si_environment r = environment ∧ si_status r ∈ ["open"; "recovering"; "acknowledged"; "suppressed"].

#[export] Instance unfinished_dec environment r : Decision (unfinished environment r).
Proof. unfold unfinished. apply _. Defined.

(** The loop that closes the timelines: [draw] is the identifier an event is
    given. *)
Definition insert_reset_event (now : Timestamp) (draw : Uuid → Uuid) (m : gmap Uuid StoredEvent) (id : Uuid) :
    StoreError + gmap Uuid StoredEvent :=
  match m !! draw id with
  | Some _ => inl Store_Database
  | None => inr (<[ draw id := mk_stored_event id
      {| event_at := to_micros now; event_kind := "state_reset"; event_detail := RESET_DETAIL; event_entity := None |} ]> m)
  end.

Definition reset_incident (now : Timestamp) (environment : string) (r : StoredIncident) : StoredIncident :=
  if decide (unfinished environment r)
  then mk_stored_incident (si_environment r) (si_fingerprint r) "reset" (si_severity r) (si_started_at r)
         (Some (to_micros now))
  else r.

(** The statements on the tables of the engine. *)
Definition reset_engine (now : Timestamp) (environment : string) (inv : InventoryTables) (t : EngineTables) : EngineTables :=
  mk_engine_tables (delete environment (et_streams t))
    (filter (λ kv : (EntityId * string) * ComponentRow, ¬ in_environment inv environment kv.1.1) (et_components t))
    (filter (λ kv : EntityId * OverallRow, ¬ in_environment inv environment kv.1) (et_overall t))
    (et_transitions t)
    (<[ environment := to_micros now ]> (et_resets t)).

(** [reset_state]. *)
Definition reset_state (now : Timestamp) (draw : Uuid → Uuid) (environment : string) (inv : InventoryTables)
    (et : EngineTables) (t : IncidentTables) : StoreError + (StateReset * EngineTables * IncidentTables) :=
  if bool_decide (environment ∉ t_environments inv) then inl Store_Database
  else
    let et' := reset_engine now environment inv et in
    let ids := map fst (filter (λ r : Uuid * StoredIncident, unfinished environment r.2) (hash_iter (it_incidents t))) in
    sum_bind (λ m,
      let t1 := set_timeline_rows m t in
      let t2 := set_incident_rows (reset_incident now environment <$> it_incidents t1) t1 in
      let kept := filter (λ kv : string * (Uuid * Notification), ¬ incident_in environment t2 kv.2.1) (it_candidates t2) in
      inr (mk_state_reset now (size (et_overall et) - size (et_overall et')) (length ids)
             (size (it_candidates t2) - size kept),
           et', set_candidates kept t2))
      (try_fold (insert_reset_event now draw) (it_timeline t) ids).
End incident_store.
