(* ===== verification/IncidentStoreSpec.v ===== *)
(** * What storing incidents promises

    An incident that was saved comes back with everything hanging off it; a
    controller that restarts holds the active incidents it held; a reset closes
    what was open and keeps the record. *)

From S2P Require Import Concrete.
From S2P Require Export IncidentStore IncidentSpec.

Local Open Scope string_scope.

(** What the timeline identifiers rely on: hashing does not collide, the text
    of a time determines its microseconds, and neither text has a unit
    separator. *)
Class TimelineLaws `{UuidApi} `{TimeApi} := {
  timeline_hash_inj :: Inj (=) (=) (uuid_new_v5 TIMELINE_NAMESPACE);
  uuid_text_inj :: Inj (=) (=) uuid_to_string;
  uuid_text_plain u : string_mem "031"%char (uuid_to_string u) = false;
  time_text_plain t : string_mem "031"%char (rfc3339_micros t) = false;
  time_text_inj a b : rfc3339_micros a = rfc3339_micros b → to_micros a = to_micros b
}.

Section spec.
Context `{J : JsonApi} `{U : UuidApi} `{T : TimeApi} `{HI : HashIter}.
Implicit Types (i j : Incident) (t : IncidentTables) (d : Diagnosis).

(** ** What the tables hold of an incident *)

Definition row_of_incident (environment : string) i : StoredIncident :=
  mk_stored_incident environment (incident_fingerprint i) (incident_status_as_str (incident_status i))
    (severity_as_str (incident_severity i)) (to_micros (incident_started_at i)) (to_micros <$> ended_at i).

Definition row_of_diagnosis (id : Uuid) d : StoredDiagnosis :=
  mk_stored_diagnosis (diagnosis_type d) (diagnosis_rule d) (confidence_as_str (confidence d))
    (diagnosis_summary d) (recommended_actions d) (Some id) (to_micros (diagnosis_created_at d)).

Definition roles_of_diagnosis d : list (EntityId * string) := roles (affected_entities d) (suspected_root_entities d).

Record kept (environment : string) t i : Prop := {
  kept_row : it_incidents t !! incident_id i = Some (row_of_incident environment i);
  kept_roles e r : is_Some (it_entities t !! (incident_id i, e, r)) ↔ (e, r) ∈ roles (incident_affected i) (incident_roots i);
  kept_evidence o : is_Some (it_evidence t !! (incident_id i, o)) ↔ o ∈ incident_evidence i;
  kept_diagnoses k r : it_diagnoses t !! k = Some r ∧ sd_incident r = Some (incident_id i) ↔
    ∃ d, d ∈ incident_diagnoses i ∧ k = diagnosis_id d ∧ r = row_of_diagnosis (incident_id i) d;
  kept_diagnosis_roles d e r : d ∈ incident_diagnoses i →
    is_Some (it_diagnosis_entities t !! (diagnosis_id d, e, r)) ↔ (e, r) ∈ roles_of_diagnosis d;
  kept_diagnosis_evidence d o : d ∈ incident_diagnoses i →
    is_Some (it_diagnosis_evidence t !! (diagnosis_id d, o)) ↔ o ∈ diagnosis_evidence d;
  kept_timeline ev : (∃ k, it_timeline t !! k = Some (mk_stored_event (incident_id i) ev)) ↔
    ev ∈ map stored_event (timeline i)
}.

(** The references the schema declares, and whose events a timeline identifier
    is of: those the program inserts are named after the event, a reset draws
    others at random. *)
Definition plain_event (e : TimelineEvent) : Prop :=
  event_entity e = None ∧ string_mem "031"%char (event_kind e) = false.

Definition plain i : Prop := Forall plain_event (timeline i).

Record tables_ok t : Prop := {
  ok_entities k e r : is_Some (it_entities t !! (k, e, r)) → is_Some (it_incidents t !! k);
  ok_evidence k o : is_Some (it_evidence t !! (k, o)) → is_Some (it_incidents t !! k);
  ok_diagnosis_entities k e r : is_Some (it_diagnosis_entities t !! (k, e, r)) → is_Some (it_diagnoses t !! k);
  ok_diagnosis_evidence k o : is_Some (it_diagnosis_evidence t !! (k, o)) → is_Some (it_diagnoses t !! k);
  ok_timeline k r : it_timeline t !! k = Some r → is_Some (it_incidents t !! se_incident r);
  ok_timeline_keys k r i e : it_timeline t !! k = Some r → plain_event e → timeline_id i e = k →
    r = mk_stored_event (incident_id i) (stored_event e)
}.

(** ** Loops of insertions *)

Lemma insert_roles_spec inv id l m m' :
  try_fold (insert_role inv id) m l = inr m' →
  (∀ k e r, is_Some (m' !! (k, e, r)) ↔ is_Some (m !! (k, e, r)) ∨ k = id ∧ (e, r) ∈ l)
  ∧ ∀ er, er ∈ l → is_Some (t_entities inv !! er.1).
Proof.
  revert m. induction l as [|[e0 r0] l IH]; intros m; cbn [try_fold].
  - intros [= <-]. split; [|by intros ? ?%elem_of_nil]. intros k e r. rewrite elem_of_nil. tauto.
  - destruct (insert_role inv id m (e0, r0)) as [err|m1] eqn:H1; cbn [sum_bind]; [done|]. unfold insert_role in H1.
    case_bool_decide as Hin; [done|]. injection H1 as <-. cbn [fst snd] in *. intros [Hm Hl]%IH. split.
    + intros k e r. rewrite Hm, elem_of_cons. destruct (decide ((k, e, r) = (id, e0, r0))) as [[= -> -> ->]|Hne].
      * rewrite lookup_insert_eq. naive_solver.
      * rewrite lookup_insert_ne by done. naive_solver.
    + intros er [->|Her]%elem_of_cons; [|by apply Hl].
      cbn [fst]. destruct (decide (e0 ∈ dom (t_entities inv))) as [Hd|]; [by apply elem_of_dom in Hd|done].
Qed.

Lemma insert_evidence_spec id l m k o :
  is_Some (foldl (insert_evidence id) m l !! (k, o)) ↔ is_Some (m !! (k, o)) ∨ k = id ∧ o ∈ l.
Proof.
  revert m. induction l as [|o0 l IH]; intros m; cbn [foldl]; [rewrite elem_of_nil; tauto|].
  rewrite IH, elem_of_cons. unfold insert_evidence. destruct (decide ((k, o) = (id, o0))) as [[= -> ->]|Hne].
  - rewrite lookup_insert_eq. naive_solver.
  - rewrite lookup_insert_ne by done. naive_solver.
Qed.

Lemma exists_elem_of_cons {A} (P : A → Prop) x l : (∃ y, y ∈ x :: l ∧ P y) ↔ P x ∨ ∃ y, y ∈ l ∧ P y.
Proof. setoid_rewrite elem_of_cons. split; [intros (y & [->|Hy] & HP); [by left|right; by exists y]|intros [HP|(y & Hy & HP)]; eauto]. Qed.

Lemma guarded_is_Some {A} (P : Prop) `{Decision P} (m : option A) :
  is_Some (if decide P then None else m) ↔ ¬ P ∧ is_Some m.
Proof. destruct (decide P) as [HP|HP]; split; [by intros [? ?]|by intros [? _]|done|by intros [_ ?]]. Qed.

(** The diagnoses of an incident, when their identifiers are free. *)
Record diagnosed (id : Uuid) (ds : list Diagnosis) t t' : Prop := {
  dg_row d : d ∈ ds → it_diagnoses t' !! diagnosis_id d = Some (row_of_diagnosis id d);
  dg_other k : k ∉ map diagnosis_id ds → it_diagnoses t' !! k = it_diagnoses t !! k;
  dg_roles k e r : is_Some (it_diagnosis_entities t' !! (k, e, r)) ↔
    is_Some (it_diagnosis_entities t !! (k, e, r)) ∨ ∃ d, d ∈ ds ∧ k = diagnosis_id d ∧ (e, r) ∈ roles_of_diagnosis d;
  dg_evidence k o : is_Some (it_diagnosis_evidence t' !! (k, o)) ↔
    is_Some (it_diagnosis_evidence t !! (k, o)) ∨ ∃ d, d ∈ ds ∧ k = diagnosis_id d ∧ o ∈ diagnosis_evidence d
}.

(** The tables diagnoses are not in. *)
Definition same_elsewhere t t' : Prop :=
  it_incidents t' = it_incidents t ∧ it_entities t' = it_entities t ∧ it_evidence t' = it_evidence t
  ∧ it_timeline t' = it_timeline t ∧ it_candidates t' = it_candidates t ∧ it_deliveries t' = it_deliveries t
  ∧ it_windows t' = it_windows t.

Lemma insert_diagnoses_spec inv id ds t t' :
  try_fold (insert_diagnosis inv id) t ds = inr t' → NoDup (map diagnosis_id ds) →
  (∀ d, d ∈ ds → it_diagnoses t !! diagnosis_id d = None) →
  diagnosed id ds t t' ∧ same_elsewhere t t'.
Proof.
  revert t. induction ds as [|d ds IH]; intros t; cbn [try_fold map].
  - intros [= <-] _ _. split; [|by split_and!]. split; [by intros ? ?%elem_of_nil|done|..]; intros k x; try intros r;
      (split; [by left|]); by intros [?|(? & ?%elem_of_nil & _)].
  - destruct (insert_diagnosis inv id t d) as [err|t1] eqn:H1; cbn [sum_bind]; [done|]. unfold insert_diagnosis in H1.
    destruct (try_fold (insert_role inv (diagnosis_id d)) _ _) as [err|m] eqn:Hm; cbn [sum_bind] in H1; [done|].
    injection H1 as <-. intros Hrest [Hd Hnd]%NoDup_cons Hfree. apply insert_roles_spec in Hm as [Hm _].
    assert (∀ d', d' ∈ ds → diagnosis_id d' ≠ diagnosis_id d) as Hne.
    { intros d' Hd' Heq. apply Hd. rewrite <- Heq. by apply list_elem_of_fmap_2. }
    apply IH in Hrest as [[Hrow Hoth Hrole Hev] Hsame]; [|done|].
    2:{ intros d' Hd'. cbn. unfold upsert_diagnosis. rewrite lookup_insert_ne by (symmetry; by apply Hne). apply Hfree. by right. }
    split; [|done]. cbn [it_diagnoses it_diagnosis_entities it_diagnosis_evidence set_diagnosis_rows] in *. split.
    + intros d' [->|Hd']%elem_of_cons; [|by apply Hrow]. rewrite Hoth by done. unfold upsert_diagnosis.
      by rewrite lookup_insert_eq, (Hfree d ltac:(by left)).
    + intros k [Hk Hks]%not_elem_of_cons. rewrite Hoth by done. unfold upsert_diagnosis. by rewrite lookup_insert_ne.
    + intros k e r. rewrite Hrole, Hm, (exists_elem_of_cons (λ d, k = diagnosis_id d ∧ (e, r) ∈ roles_of_diagnosis d)).
      unfold roles_of_diagnosis. tauto.
    + intros k o. rewrite Hev, insert_evidence_spec, (exists_elem_of_cons (λ d, k = diagnosis_id d ∧ o ∈ diagnosis_evidence d)).
      tauto.
Qed.

(** Clearing an incident's diagnoses. *)
Lemma delete_diagnoses_spec id t :
  (∀ k, it_diagnoses (delete_diagnoses id t) !! k =
     match it_diagnoses t !! k with
     | Some r => if decide (sd_incident r = Some id) then None else Some r
     | None => None
     end)
  ∧ (∀ k e r, it_diagnosis_entities (delete_diagnoses id t) !! (k, e, r) =
       if decide (sd_incident <$> it_diagnoses t !! k = Some (Some id)) then None else it_diagnosis_entities t !! (k, e, r))
  ∧ (∀ k o, it_diagnosis_evidence (delete_diagnoses id t) !! (k, o) =
       if decide (sd_incident <$> it_diagnoses t !! k = Some (Some id)) then None else it_diagnosis_evidence t !! (k, o)).
Proof.
  unfold delete_diagnoses. cbn [it_diagnoses it_diagnosis_entities it_diagnosis_evidence set_diagnosis_rows]. split_and!.
  - intros k. rewrite map_lookup_filter. destruct (it_diagnoses t !! k) as [r|]; cbn; [|done].
    destruct (decide (sd_incident r = Some id)); by case_guard.
  - intros k e r. rewrite map_lookup_filter. cbn [fst].
    destruct (decide _) as [Hg|Hg]; destruct (it_diagnosis_entities t !! (k, e, r)); cbn; try done; by case_guard.
  - intros k o. rewrite map_lookup_filter. cbn [fst].
    destruct (decide _) as [Hg|Hg]; destruct (it_diagnosis_evidence t !! (k, o)); cbn; try done; by case_guard.
Qed.

(** ** Saving *)

(** What an incident may be saved over: its own earlier version, and no
    diagnosis of another incident. *)
Record fits (environment : string) t i : Prop := {
  fit_row r : it_incidents t !! incident_id i = Some r →
    si_environment r = environment ∧ si_fingerprint r = incident_fingerprint i
    ∧ si_started_at r = to_micros (incident_started_at i);
  fit_evidence o : is_Some (it_evidence t !! (incident_id i, o)) → o ∈ incident_evidence i;
  fit_diagnosis_ids : NoDup (map diagnosis_id (incident_diagnoses i));
  fit_diagnoses d r : d ∈ incident_diagnoses i → it_diagnoses t !! diagnosis_id d = Some r →
    sd_incident r = Some (incident_id i);
  fit_timeline k ev : it_timeline t !! k = Some (mk_stored_event (incident_id i) ev) → ev ∈ map stored_event (timeline i);
  fit_plain : plain i
}.

(** What saving writes, table by table. *)
Record written (environment : string) i t t' : Prop := {
  wr_rows : it_incidents t' = <[ incident_id i := row_of_incident environment i ]> (it_incidents t);
  wr_roles k e r : is_Some (it_entities t' !! (k, e, r)) ↔
    (k ≠ incident_id i ∧ is_Some (it_entities t !! (k, e, r)))
    ∨ (k = incident_id i ∧ (e, r) ∈ roles (incident_affected i) (incident_roots i));
  wr_evidence k o : is_Some (it_evidence t' !! (k, o)) ↔
    is_Some (it_evidence t !! (k, o)) ∨ k = incident_id i ∧ o ∈ incident_evidence i;
  wr_diagnosis d : d ∈ incident_diagnoses i →
    it_diagnoses t' !! diagnosis_id d = Some (row_of_diagnosis (incident_id i) d);
  wr_diagnosis_other k : k ∉ map diagnosis_id (incident_diagnoses i) →
    it_diagnoses t' !! k = match it_diagnoses t !! k with
                           | Some r => if decide (sd_incident r = Some (incident_id i)) then None else Some r
                           | None => None
                           end;
  wr_diagnosis_roles k e r : is_Some (it_diagnosis_entities t' !! (k, e, r)) ↔
    (sd_incident <$> it_diagnoses t !! k ≠ Some (Some (incident_id i)) ∧ is_Some (it_diagnosis_entities t !! (k, e, r)))
    ∨ ∃ d, d ∈ incident_diagnoses i ∧ k = diagnosis_id d ∧ (e, r) ∈ roles_of_diagnosis d;
  wr_diagnosis_evidence k o : is_Some (it_diagnosis_evidence t' !! (k, o)) ↔
    (sd_incident <$> it_diagnoses t !! k ≠ Some (Some (incident_id i)) ∧ is_Some (it_diagnosis_evidence t !! (k, o)))
    ∨ ∃ d, d ∈ incident_diagnoses i ∧ k = diagnosis_id d ∧ o ∈ diagnosis_evidence d;
  wr_timeline : it_timeline t' = foldl (insert_event i) (it_timeline t) (timeline i);
  wr_deliveries : it_deliveries t' = it_deliveries t;
  wr_windows : it_windows t' = it_windows t
}.

Lemma upsert_incident_spec inv environment i t t' :
  fits environment t i → upsert_incident inv environment i t = inr t' →
  t' = set_incident_rows (<[ incident_id i := row_of_incident environment i ]> (it_incidents t)) t.
Proof.
  intros Hfit. unfold upsert_incident. destruct (it_incidents t !! incident_id i) as [old|] eqn:Hold.
  - intros [= <-]. destruct (fit_row _ _ _ Hfit old Hold) as (-> & -> & ->). done.
  - case_bool_decide; [done|]. by intros [= <-].
Qed.

Lemma replace_roles_spec inv i t t' :
  replace_roles inv i t = inr t' →
  (∃ m, t' = set_incident_entities m t ∧
     ∀ k e r, is_Some (m !! (k, e, r)) ↔ (k ≠ incident_id i ∧ is_Some (it_entities t !! (k, e, r)))
       ∨ (k = incident_id i ∧ (e, r) ∈ roles (incident_affected i) (incident_roots i))).
Proof.
  unfold replace_roles. destruct (try_fold _ _ _) as [err|m] eqn:Hm; cbn [sum_bind]; [done|]. intros [= <-].
  exists m. split; [done|]. apply insert_roles_spec in Hm as [Hm _]. intros k e r. rewrite Hm. unfold is_Some.
  setoid_rewrite map_lookup_filter_Some. cbn [fst]. naive_solver.
Qed.

Lemma save_written inv environment i t t' :
  fits environment t i → save_incident_in inv environment t i = inr t' → written environment i t t'.
Proof.
  intros Hfit. unfold save_incident_in.
  destruct (upsert_incident inv environment i t) as [err|t1] eqn:H1; cbn [sum_bind]; [done|].
  apply upsert_incident_spec in H1 as ->; [|done]. set (t1 := set_incident_rows _ t).
  destruct (replace_roles inv i t1) as [err|t2] eqn:H2; cbn [sum_bind]; [done|].
  apply replace_roles_spec in H2 as (m & -> & Hm). set (t2 := set_incident_entities m t1).
  destruct (try_fold _ _ _) as [err|t5] eqn:H5; cbn [sum_bind]; [done|].
  destruct (delete_diagnoses_spec (incident_id i) (add_evidence_rows i t2)) as (Hdel & Hdelr & Hdele).
  apply insert_diagnoses_spec in H5 as [[Hrow Hoth Hrole Hev] (Hi & He & Hv & Ht & _ & Hn & Hw)];
    [|apply (fit_diagnosis_ids _ _ _ Hfit)|].
  2:{ intros d Hd. rewrite Hdel. destruct (it_diagnoses t !! diagnosis_id d) as [r|] eqn:Hr.
      - change (it_diagnoses (add_evidence_rows i t2)) with (it_diagnoses t). rewrite Hr.
        by rewrite decide_True by (by apply (fit_diagnoses _ _ _ Hfit d)).
      - change (it_diagnoses (add_evidence_rows i t2)) with (it_diagnoses t). by rewrite Hr. }
  unfold add_candidates. destruct (try_fold _ _ _) as [err|mc]; cbn [sum_bind]; [done|]. intros [= <-].
  split; cbn [it_incidents it_entities it_evidence it_diagnoses it_diagnosis_entities it_diagnosis_evidence it_timeline
    it_deliveries it_windows set_candidates drop_candidates add_timeline set_timeline_rows].
  - by rewrite Hi.
  - intros k e r. rewrite He. apply Hm.
  - intros k o. rewrite Hv. apply insert_evidence_spec.
  - done.
  - intros k Hk. rewrite Hoth by done. apply Hdel.
  - intros k e r. rewrite Hrole, Hdelr. change (it_diagnoses (add_evidence_rows i t2)) with (it_diagnoses t).
    by rewrite guarded_is_Some.
  - intros k o. rewrite Hev, Hdele. change (it_diagnoses (add_evidence_rows i t2)) with (it_diagnoses t).
    by rewrite guarded_is_Some.
  - by rewrite Ht.
  - by rewrite Hn.
  - by rewrite Hw.
Qed.

(** ** The timeline *)

Lemma split_at_separator (a b x y : string) :
  string_mem "031"%char a = false → string_mem "031"%char b = false →
  a +:+ unit_separator +:+ x = b +:+ unit_separator +:+ y → a = b ∧ x = y.
Proof.
  assert (∀ s, unit_separator +:+ s = String "031" s) as -> by done.
  assert (∀ s, unit_separator +:+ s = String "031" s) as -> by done.
  revert b. induction a as [|c a IH]; intros [|c' b]; cbn [string_mem String.append]; intros Ha Hb Heq.
  - injection Heq as ->. done.
  - injection Heq as <- _. cbn in Hb. by rewrite bool_decide_eq_true_2 in Hb.
  - injection Heq as -> _. cbn in Ha. by rewrite bool_decide_eq_true_2 in Ha.
  - apply orb_false_iff in Ha as [_ Ha], Hb as [_ Hb]. injection Heq as -> Heq.
    destruct (IH b Ha Hb Heq) as [-> ->]. done.
Qed.

Lemma timeline_id_inj `{!TimelineLaws} i j e e' :
  plain_event e → plain_event e' → timeline_id i e = timeline_id j e' →
  incident_id i = incident_id j ∧ stored_event e = stored_event e'.
Proof.
  intros [He Hk] [He' Hk'] Heq. unfold timeline_id in Heq. apply (inj _) in Heq.
  apply split_at_separator in Heq as [Hid Heq]; [|apply uuid_text_plain..].
  apply split_at_separator in Heq as [Hat Heq]; [|apply time_text_plain..].
  apply split_at_separator in Heq as [Hkind Hdetail]; [|done..].
  apply time_text_inj in Hat. apply (inj _) in Hid. split; [done|]. unfold stored_event. by rewrite Hat, Hkind, Hdetail, He, He'.
Qed.

Lemma insert_events_spec i l m :
  (∀ k r, m !! k = Some r → foldl (insert_event i) m l !! k = Some r)
  ∧ (∀ k r, foldl (insert_event i) m l !! k = Some r →
       m !! k = Some r ∨ ∃ e, e ∈ l ∧ k = timeline_id i e ∧ r = mk_stored_event (incident_id i) (stored_event e))
  ∧ (∀ e, e ∈ l → is_Some (foldl (insert_event i) m l !! timeline_id i e)).
Proof.
  revert m. induction l as [|e0 l IH]; intros m; cbn [foldl]; [split_and!; [done|by left|by intros ? ?%elem_of_nil]|].
  destruct (IH (insert_event i m e0)) as (Hkeep & Hfrom & Hall).
  assert (∀ k r, m !! k = Some r → insert_event i m e0 !! k = Some r) as Hone.
  { intros k r Hk. unfold insert_event. destruct (m !! timeline_id i e0) eqn:H0; [done|].
    rewrite lookup_insert_ne; [done|congruence]. }
  split_and!.
  - intros k r Hk. by apply Hkeep, Hone.
  - intros k r Hk. apply Hfrom in Hk as [Hk|(e & He & Hke & Hr)]; [|right; exists e; split_and!; [by right|done..]].
    unfold insert_event in Hk. destruct (m !! timeline_id i e0) eqn:H0; [by left|].
    apply lookup_insert_Some in Hk as [[<- <-]|[_ Hk]]; [right; exists e0; split_and!; [by left|done..]|by left].
  - intros e [->|He]%elem_of_cons; [|by apply Hall]. unfold insert_event in Hkeep |- *.
    destruct (m !! timeline_id i e0) as [r|] eqn:H0; [by rewrite (Hkeep _ r H0)|].
    erewrite Hkeep; [by eexists|by rewrite lookup_insert_eq].
Qed.

Lemma ids_determine (ds : list Diagnosis) d d' :
  NoDup (map diagnosis_id ds) → d ∈ ds → d' ∈ ds → diagnosis_id d = diagnosis_id d' → d = d'.
Proof.
  intros Hnd [n Hn]%list_elem_of_lookup [n' Hn']%list_elem_of_lookup Heq.
  assert (n = n') as ->; [|congruence].
  apply (NoDup_lookup (map diagnosis_id ds) n n' (diagnosis_id d)); [done|..]; rewrite list_lookup_fmap.
  - by rewrite Hn.
  - rewrite Hn'. cbn. by rewrite Heq.
Qed.

(** What was saved is kept. *)
Lemma written_kept `{!TimelineLaws} environment i t t' :
  tables_ok t → fits environment t i → written environment i t t' → kept environment t' i.
Proof.
  intros Hok Hfit Hw. split.
  - rewrite (wr_rows _ _ _ _ Hw). apply lookup_insert_eq.
  - intros e r. rewrite (wr_roles _ _ _ _ Hw). naive_solver.
  - intros o. rewrite (wr_evidence _ _ _ _ Hw). split; [intros [Ho|[_ Ho]]; [by apply (fit_evidence _ _ _ Hfit)|done]|by right].
  - intros k r. destruct (decide (k ∈ map diagnosis_id (incident_diagnoses i))) as [Hk|Hk].
    + apply list_elem_of_fmap in Hk as (d & -> & Hd). rewrite (wr_diagnosis _ _ _ _ Hw d Hd). split.
      * intros [[= <-] _]. by exists d.
      * intros (d' & Hd' & Hid & ->). pose proof (wr_diagnosis _ _ _ _ Hw d' Hd') as Hrow.
        rewrite <- Hid, (wr_diagnosis _ _ _ _ Hw d Hd) in Hrow. split; [congruence|done].
    + rewrite (wr_diagnosis_other _ _ _ _ Hw k Hk). split.
      * intros [Hr Hi]. destruct (it_diagnoses t !! k); [|done]. case_decide; [done|]. congruence.
      * intros (d & Hd & -> & _). destruct Hk. by apply list_elem_of_fmap_2.
  - intros d e r Hd. rewrite (wr_diagnosis_roles _ _ _ _ Hw). split; [|intros Hr; right; by exists d].
    intros [[Hno Hr]|(d' & Hd' & Hid & Hr)].
    + destruct (ok_diagnosis_entities _ Hok _ _ _ Hr) as [row Hrow]. destruct Hno. rewrite Hrow. cbn.
      f_equal. by apply (fit_diagnoses _ _ _ Hfit d).
    + by rewrite (ids_determine _ d d' (fit_diagnosis_ids _ _ _ Hfit) Hd Hd' Hid).
  - intros d o Hd. rewrite (wr_diagnosis_evidence _ _ _ _ Hw). split; [|intros Hr; right; by exists d].
    intros [[Hno Hr]|(d' & Hd' & Hid & Hr)].
    + destruct (ok_diagnosis_evidence _ Hok _ _ Hr) as [row Hrow]. destruct Hno. rewrite Hrow. cbn.
      f_equal. by apply (fit_diagnoses _ _ _ Hfit d).
    + by rewrite (ids_determine _ d d' (fit_diagnosis_ids _ _ _ Hfit) Hd Hd' Hid).
  - intros ev. rewrite (wr_timeline _ _ _ _ Hw).
    destruct (insert_events_spec i (timeline i) (it_timeline t)) as (_ & Hfrom & Hall). split.
    + intros [k Hk]. apply Hfrom in Hk as [Hk|(e & He & _ & [= ->])]; [by apply (fit_timeline _ _ _ Hfit k)|].
      by apply list_elem_of_fmap_2.
    + intros (e & -> & He)%list_elem_of_fmap. exists (timeline_id i e). destruct (Hall e He) as [r Hr]. rewrite Hr. f_equal.
      pose proof (fit_plain _ _ _ Hfit) as Hplain. unfold plain in Hplain. rewrite Forall_forall in Hplain.
      apply Hfrom in Hr as [Hr|(e' & He' & Hid & ->)].
      * apply (ok_timeline_keys _ Hok _ _ i e) in Hr; [done|by apply Hplain|done].
      * destruct (timeline_id_inj i i e e') as [_ ->]; [by apply Hplain..|done|done].
Qed.

(** Saving keeps the references, and leaves every other incident alone. *)
Lemma written_ok `{!TimelineLaws} environment i t t' :
  tables_ok t → plain i → written environment i t t' → tables_ok t'.
Proof.
  intros Hok Hplain Hw. unfold plain in Hplain. rewrite Forall_forall in Hplain.
  assert (∀ k, is_Some (it_incidents t !! k) ∨ k = incident_id i → is_Some (it_incidents t' !! k)) as Hrows.
  { intros k Hk. rewrite (wr_rows _ _ _ _ Hw). destruct (decide (k = incident_id i)) as [->|Hne].
    - rewrite lookup_insert_eq. by eexists.
    - rewrite lookup_insert_ne by done. by destruct Hk. }
  assert (∀ k, (sd_incident <$> it_diagnoses t !! k ≠ Some (Some (incident_id i)) ∧ is_Some (it_diagnoses t !! k))
      ∨ (∃ d, d ∈ incident_diagnoses i ∧ k = diagnosis_id d) → is_Some (it_diagnoses t' !! k)) as Hdiag.
  { intros k Hk. destruct (decide (k ∈ map diagnosis_id (incident_diagnoses i))) as [Hin|Hin].
    - apply list_elem_of_fmap in Hin as (d & -> & Hd). rewrite (wr_diagnosis _ _ _ _ Hw d Hd). by eexists.
    - rewrite (wr_diagnosis_other _ _ _ _ Hw k Hin). destruct Hk as [[Hno [r Hr]]|(d & Hd & ->)].
      + rewrite Hr in Hno |- *. cbn in Hno. by rewrite decide_False by congruence.
      + destruct Hin. by apply list_elem_of_fmap_2. }
  destruct (insert_events_spec i (timeline i) (it_timeline t)) as (_ & Hfrom & _).
  split.
  - intros k e r [[_ Hr]|[-> _]]%(wr_roles _ _ _ _ Hw); apply Hrows; [left; by apply (ok_entities _ Hok k e r)|by right].
  - intros k o [Hr|[-> _]]%(wr_evidence _ _ _ _ Hw); apply Hrows; [left; by apply (ok_evidence _ Hok k o)|by right].
  - intros k e r [[Hno Hr]|(d & Hd & -> & _)]%(wr_diagnosis_roles _ _ _ _ Hw); apply Hdiag.
    + left. split; [done|]. by apply (ok_diagnosis_entities _ Hok k e r).
    + right. by exists d.
  - intros k o [[Hno Hr]|(d & Hd & -> & _)]%(wr_diagnosis_evidence _ _ _ _ Hw); apply Hdiag.
    + left. split; [done|]. by apply (ok_diagnosis_evidence _ Hok k o).
    + right. by exists d.
  - intros k r. rewrite (wr_timeline _ _ _ _ Hw). intros [Hr|(e & He & _ & ->)]%Hfrom; apply Hrows;
      [left; by apply (ok_timeline _ Hok k)|by right].
  - intros k r j e. rewrite (wr_timeline _ _ _ _ Hw). intros [Hr|(e' & He' & -> & ->)]%Hfrom Hp Hid.
    + by apply (ok_timeline_keys _ Hok k).
    + destruct (timeline_id_inj j i e e') as [-> ->]; [done|by apply Hplain|done|done].
Qed.

(** Incidents share no diagnosis. *)
Definition apart i j : Prop :=
  incident_id i ≠ incident_id j ∧ ∀ d, d ∈ incident_diagnoses i → diagnosis_id d ∉ map diagnosis_id (incident_diagnoses j).

Lemma other_diagnosis environment i t t' k id :
  fits environment t i → written environment i t t' → id ≠ incident_id i →
  (∀ r, it_diagnoses t' !! k = Some r ∧ sd_incident r = Some id ↔ it_diagnoses t !! k = Some r ∧ sd_incident r = Some id).
Proof.
  intros Hfit Hw Hid r. destruct (decide (k ∈ map diagnosis_id (incident_diagnoses i))) as [Hin|Hin].
  - apply list_elem_of_fmap in Hin as (d & -> & Hd). rewrite (wr_diagnosis _ _ _ _ Hw d Hd). split.
    + intros [[= <-] Hr]. cbn in Hr. congruence.
    + intros [Hr Hi]. pose proof (fit_diagnoses _ _ _ Hfit d r Hd Hr). congruence.
  - rewrite (wr_diagnosis_other _ _ _ _ Hw k Hin). destruct (it_diagnoses t !! k) as [r'|]; [|naive_solver].
    case_decide; [|done]. naive_solver congruence.
Qed.

Lemma written_other environment environment' i j t t' :
  fits environment t i → written environment i t t' → incident_id j ≠ incident_id i →
  kept environment' t j → kept environment' t' j.
Proof.
  intros Hfit Hw Hid [Hrow Hroles Hev Hds Hdr Hde Htl].
  assert (∀ d, d ∈ incident_diagnoses j → it_diagnoses t !! diagnosis_id d = Some (row_of_diagnosis (incident_id j) d)
     ∧ diagnosis_id d ∉ map diagnosis_id (incident_diagnoses i)) as Hmine.
  { intros d Hd. destruct (Hds (diagnosis_id d) (row_of_diagnosis (incident_id j) d)) as [_ Hr].
    destruct Hr as [Hr _]; [by exists d|]. split; [done|]. intros (d' & Heq & Hd')%list_elem_of_fmap.
    rewrite Heq in Hr. pose proof (fit_diagnoses _ _ _ Hfit d' _ Hd' Hr) as Hbad. cbn in Hbad. congruence. }
  split.
  - rewrite (wr_rows _ _ _ _ Hw). by rewrite lookup_insert_ne.
  - intros e r. rewrite (wr_roles _ _ _ _ Hw), <- Hroles. naive_solver.
  - intros o. rewrite (wr_evidence _ _ _ _ Hw), <- Hev. naive_solver.
  - intros k r. by rewrite (other_diagnosis _ _ _ _ k (incident_id j) Hfit Hw Hid).
  - intros d e r Hd. rewrite <- (Hdr d e r Hd), (wr_diagnosis_roles _ _ _ _ Hw). destruct (Hmine d Hd) as [Hr Hno].
    rewrite Hr. cbn. split; [|intros Hx; left; split; [congruence|done]].
    intros [[_ ?]|(d' & Hd' & Heq & _)]; [done|]. destruct Hno. rewrite Heq. by apply list_elem_of_fmap_2.
  - intros d o Hd. rewrite <- (Hde d o Hd), (wr_diagnosis_evidence _ _ _ _ Hw). destruct (Hmine d Hd) as [Hr Hno].
    rewrite Hr. cbn. split; [|intros Hx; left; split; [congruence|done]].
    intros [[_ ?]|(d' & Hd' & Heq & _)]; [done|]. destruct Hno. rewrite Heq. by apply list_elem_of_fmap_2.
  - intros ev. rewrite <- Htl, (wr_timeline _ _ _ _ Hw).
    destruct (insert_events_spec i (timeline i) (it_timeline t)) as (Hkeep & Hfrom & _). split; intros [k Hk]; exists k.
    + apply Hfrom in Hk as [Hk|(e & _ & _ & [= Hbad _])]; [done|congruence].
    + by apply Hkeep.
Qed.

Lemma written_fits environment i j t t' :
  fits environment t i → written environment i t t' → apart i j → fits environment t j → fits environment t' j.
Proof.
  intros Hfit Hw [Hid Hds] [Hrow Hev Hnd Hd Htl Hp]. split; [| |done| | |done].
  - intros r. rewrite (wr_rows _ _ _ _ Hw), lookup_insert_ne by done. apply Hrow.
  - intros o. rewrite (wr_evidence _ _ _ _ Hw). intros [?|[? _]]; [by apply Hev|by destruct Hid].
  - intros d r Hdj. assert (diagnosis_id d ∉ map diagnosis_id (incident_diagnoses i)) as Hno.
    { intros (d' & Heq & Hd')%list_elem_of_fmap. apply (Hds d' Hd'). rewrite <- Heq. by apply list_elem_of_fmap_2. }
    rewrite (wr_diagnosis_other _ _ _ _ Hw _ Hno). destruct (it_diagnoses t !! diagnosis_id d) as [r'|] eqn:Hr; [|done].
    case_decide; [done|]. intros [= <-]. by apply (Hd d).
  - intros k ev. rewrite (wr_timeline _ _ _ _ Hw).
    destruct (insert_events_spec i (timeline i) (it_timeline t)) as (_ & Hfrom & _).
    intros [Hk|(e & _ & _ & [= Hbad _])]%Hfrom; [by apply (Htl k)|congruence].
Qed.

(** Saving several incidents that are apart keeps them all. *)
Lemma save_all_kept `{!TimelineLaws} inv environment l t t' :
  tables_ok t → Forall (fits environment t) l → ForallOrdPairs apart l →
  save_incidents inv environment l t = inr t' →
  tables_ok t' ∧ Forall (kept environment t') l
  ∧ (∀ j environment', incident_id j ∉ map incident_id l → kept environment' t j → kept environment' t' j)
  ∧ (∀ k, k ∉ map incident_id l → it_incidents t' !! k = it_incidents t !! k).
Proof.
  revert t. induction l as [|i l IH]; intros t Hok Hfits Hap; unfold save_incidents; cbn [try_fold map].
  { intros [= <-]. done. }
  destruct (save_incident_in inv environment t i) as [err|t1] eqn:H1; cbn [sum_bind]; [done|].
  inversion Hfits as [|? ? Hfi Hfl]; subst. inversion Hap as [|? ? Hai Hal]; subst.
  apply save_written in H1 as Hw; [|done]. intros Hrest. pose proof (written_kept environment i t t1 Hok Hfi Hw) as Hki.
  destruct (IH t1) as (Hok' & Hkl & Hkj & Hrows); [by apply (written_ok environment i t); [..|apply (fit_plain _ _ _ Hfi)|]| |done|done|].
  { rewrite Forall_forall in Hfl, Hai |- *. intros j Hj. apply (written_fits environment i j t); [done..|by apply Hai|by apply Hfl]. }
  assert (incident_id i ∉ map incident_id l) as Hni.
  { intros (j & Heq & Hj)%list_elem_of_fmap. rewrite Forall_forall in Hai. by destruct (Hai j Hj). }
  split_and!; [done|constructor; [by apply Hkj|done]| |].
  - intros j environment' [Hne Hj]%not_elem_of_cons Hk. apply Hkj; [done|]. by apply (written_other environment environment' i j t).
  - intros k [Hne Hk]%not_elem_of_cons. rewrite Hrows by done. rewrite (wr_rows _ _ _ _ Hw). by rewrite lookup_insert_ne.
Qed.

(** ** Loading *)

(** A diagnosis and an incident as they come back: times in microseconds, and
    no promise about the order of what the queries do not order. *)
Record same_diagnosis d d' : Prop := {
  sd_id : diagnosis_id d' = diagnosis_id d;
  sd_kind : diagnosis_type d' = diagnosis_type d;
  sd_affected x : x ∈ affected_entities d' ↔ x ∈ affected_entities d;
  sd_roots x : x ∈ suspected_root_entities d' ↔ x ∈ suspected_root_entities d;
  sd_confident : confidence d' = confidence d;
  sd_evidence x : x ∈ diagnosis_evidence d' ↔ x ∈ diagnosis_evidence d;
  sd_by : diagnosis_rule d' = diagnosis_rule d;
  sd_text : diagnosis_summary d' = diagnosis_summary d;
  sd_advice : recommended_actions d' = recommended_actions d;
  sd_time : diagnosis_created_at d' = to_micros (diagnosis_created_at d)
}.

Record reloaded i j : Prop := {
  rl_id : incident_id j = incident_id i;
  rl_fingerprint : incident_fingerprint j = incident_fingerprint i;
  rl_status : incident_status j = incident_status i;
  rl_severity : incident_severity j = incident_severity i;
  rl_started : incident_started_at j = to_micros (incident_started_at i);
  rl_ended : ended_at j = to_micros <$> ended_at i;
  rl_affected : incident_affected j ≡ₚ incident_affected i;
  rl_roots : incident_roots j ≡ₚ incident_roots i;
  rl_evidence : incident_evidence j ≡ₚ incident_evidence i;
  rl_diagnoses : ∃ ds, incident_diagnoses j ≡ₚ ds ∧ Forall2 same_diagnosis (incident_diagnoses i) ds;
  rl_timeline e : e ∈ timeline j ↔ e ∈ map stored_event (timeline i)
}.

Lemma elem_of_role_rows id m e r : (e, r) ∈ role_rows id m ↔ is_Some (m !! (id, e, r)).
Proof.
  unfold role_rows. rewrite list_elem_of_fmap. split.
  - intros ([[[k e'] r'] []] & [= -> ->] & [Hk Hin]%list_elem_of_filter). cbn in Hk. subst k.
    apply elem_of_hash_iter in Hin. by eexists.
  - intros [[] Hm]. exists ((id, e, r), ()). split; [done|]. apply list_elem_of_filter. split; [done|]. by apply elem_of_hash_iter.
Qed.

Lemma NoDup_role_rows id m : NoDup (role_rows id m).
Proof.
  unfold role_rows. apply NoDup_fmap_2_strong.
  - intros [[[k e] r] []] [[[k' e'] r'] []] [Hk _]%list_elem_of_filter [Hk' _]%list_elem_of_filter. cbn in *. by intros [= -> ->]; subst.
  - apply NoDup_filter. rewrite hash_iter_perm. apply NoDup_map_to_list.
Qed.

Lemma elem_of_evidence_rows id m o : o ∈ evidence_rows id m ↔ is_Some (m !! (id, o)).
Proof.
  unfold evidence_rows. rewrite list_elem_of_fmap. split.
  - intros ([[k o'] []] & -> & [Hk Hin]%list_elem_of_filter). cbn in *. subst k. apply elem_of_hash_iter in Hin. by eexists.
  - intros [[] Hm]. exists ((id, o), ()). split; [done|]. apply list_elem_of_filter. split; [done|]. by apply elem_of_hash_iter.
Qed.

Lemma NoDup_evidence_rows id m : NoDup (evidence_rows id m).
Proof.
  unfold evidence_rows. apply NoDup_fmap_2_strong.
  - intros [[k o] []] [[k' o'] []] [Hk _]%list_elem_of_filter [Hk' _]%list_elem_of_filter. cbn in *. by intros ->; subst.
  - apply NoDup_filter. rewrite hash_iter_perm. apply NoDup_map_to_list.
Qed.

Lemma elem_of_roles e r affected roots :
  (e, r) ∈ roles affected roots ↔ (r = ROLE_AFFECTED ∧ e ∈ affected) ∨ (r = ROLE_ROOT ∧ e ∈ roots).
Proof. unfold roles. rewrite elem_of_app, !list_elem_of_fmap. naive_solver. Qed.

(** The roles that were stored are read back as the two lists. *)
Lemma read_roles rows affected roots :
  NoDup rows → (∀ e r, (e, r) ∈ rows ↔ (e, r) ∈ roles affected roots) →
  ((∀ e, e ∈ affected_of rows ↔ e ∈ affected) ∧ NoDup (affected_of rows))
  ∧ ((∀ e, e ∈ roots_of rows ↔ e ∈ roots) ∧ NoDup (roots_of rows)).
Proof.
  intros Hnd Hr. setoid_rewrite elem_of_roles in Hr. unfold affected_of, roots_of. split; split.
  - intros e. rewrite list_elem_of_fmap. split.
    + intros ([e' r] & -> & [Hne Hin]%list_elem_of_filter). apply Hr in Hin as [[_ ?]|[-> _]]; [done|by destruct Hne].
    + intros He. exists (e, ROLE_AFFECTED). split; [done|]. apply list_elem_of_filter. split; [done|]. apply Hr. by left.
  - apply NoDup_fmap_2_strong; [|by apply NoDup_filter].
    intros [e r] [e' r'] [Hne Hin]%list_elem_of_filter [Hne' Hin']%list_elem_of_filter. cbn in *. intros ->.
    apply Hr in Hin as [[-> _]|[-> _]]; [|done]. by apply Hr in Hin' as [[-> _]|[-> _]].
  - intros e. rewrite list_elem_of_fmap. split.
    + intros ([e' r] & -> & [Heq Hin]%list_elem_of_filter). cbn in Heq. subst r. by apply Hr in Hin as [[? _]|[_ ?]].
    + intros He. exists (e, ROLE_ROOT). split; [done|]. apply list_elem_of_filter. split; [done|]. apply Hr. by right.
  - apply NoDup_fmap_2_strong; [|by apply NoDup_filter].
    intros [e r] [e' r'] [Hq _]%list_elem_of_filter [Hq' _]%list_elem_of_filter. cbn in *. by intros ->; subst.
Qed.

Lemma to_micros_option (o : option Timestamp) : to_micros <$> (to_micros <$> o) = to_micros <$> o.
Proof. destruct o; [cbn; by rewrite to_micros_idem|done]. Qed.

(** What is kept of an incident comes back. *)
Lemma kept_diagnosis_rows environment t i :
  kept environment t i → NoDup (map diagnosis_id (incident_diagnoses i)) →
  diagnosis_rows (incident_id i) t ≡ₚ map (λ d, (diagnosis_id d, row_of_diagnosis (incident_id i) d)) (incident_diagnoses i).
Proof.
  intros Hk Hnd. unfold diagnosis_rows. rewrite sort_by_key_perm. apply NoDup_Permutation.
  - apply NoDup_filter. rewrite hash_iter_perm. apply NoDup_map_to_list.
  - apply (NoDup_fmap_1 fst). rewrite <- list_fmap_compose. apply Hnd.
  - intros [k r]. rewrite list_elem_of_filter, elem_of_hash_iter, list_elem_of_fmap. cbn [snd].
    rewrite (and_comm (sd_incident r = _)), (kept_diagnoses _ _ _ Hk). naive_solver.
Qed.

Lemma kept_same_diagnosis environment t i d :
  kept environment t i → d ∈ incident_diagnoses i →
  same_diagnosis d (hydrate_diagnosis t (diagnosis_id d, row_of_diagnosis (incident_id i) d)).
Proof.
  intros Hk Hd.
  destruct (read_roles (role_rows (diagnosis_id d) (it_diagnosis_entities t)) (affected_entities d) (suspected_root_entities d))
    as [[Ha _] [Hr _]]; [apply NoDup_role_rows|intros e r; rewrite elem_of_role_rows; by apply (kept_diagnosis_roles _ _ _ Hk)|].
  split; cbn [hydrate_diagnosis row_of_diagnosis sd_type sd_confidence sd_rule sd_summary sd_actions sd_created_at
    diagnosis_id diagnosis_type affected_entities suspected_root_entities confidence diagnosis_evidence diagnosis_rule
    diagnosis_summary recommended_actions diagnosis_created_at]; try done.
  - by rewrite confidence_roundtrip.
  - intros o. rewrite elem_of_evidence_rows. by apply (kept_diagnosis_evidence _ _ _ Hk).
Qed.

Lemma kept_reloaded environment t i :
  kept environment t i → incident_wf i → NoDup (map diagnosis_id (incident_diagnoses i)) →
  reloaded i (hydrate_incident t (incident_id i, row_of_incident environment i)).
Proof.
  intros Hk Hwf Hnd.
  destruct (read_roles (role_rows (incident_id i) (it_entities t)) (incident_affected i) (incident_roots i))
    as [[Ha Hna] [Hr Hnr]]; [apply NoDup_role_rows|intros e r; rewrite elem_of_role_rows; by apply (kept_roles _ _ _ Hk)|].
  split; cbn [hydrate_incident row_of_incident incident_id incident_fingerprint incident_status incident_severity
    incident_started_at ended_at incident_affected incident_roots incident_diagnoses incident_evidence timeline
    si_fingerprint si_status si_severity si_started_at si_ended_at]; try done.
  - by rewrite incident_status_roundtrip.
  - by rewrite severity_roundtrip.
  - apply NoDup_Permutation; [done|apply Hwf|done].
  - apply NoDup_Permutation; [done|apply Hwf|done].
  - apply NoDup_Permutation; [apply NoDup_evidence_rows|apply Hwf|]. intros o. rewrite elem_of_evidence_rows.
    apply (kept_evidence _ _ _ Hk).
  - exists (map (λ d, hydrate_diagnosis t (diagnosis_id d, row_of_diagnosis (incident_id i) d)) (incident_diagnoses i)). split.
    + rewrite (kept_diagnosis_rows _ _ _ Hk Hnd). by rewrite map_map.
    + assert (∀ d, d ∈ incident_diagnoses i → same_diagnosis d (hydrate_diagnosis t (diagnosis_id d, row_of_diagnosis (incident_id i) d)))
        as Hall by (intros d; by apply kept_same_diagnosis with environment).
      revert Hall. generalize (incident_diagnoses i). intros ds. induction ds as [|d ds IH]; intros Hall; constructor.
      * apply Hall. by left.
      * apply IH. intros d' Hd'. apply Hall. by right.
  - intros e. unfold timeline_rows. rewrite sort_by_key_perm, <- (kept_timeline _ _ _ Hk), list_elem_of_fmap. split.
    + intros ([k [id ev]] & -> & [Hid Hin]%list_elem_of_filter). cbn in *. subst id. exists k. by apply elem_of_hash_iter.
    + intros [k Hin]. exists (k, mk_stored_event (incident_id i) e). split; [done|]. apply list_elem_of_filter.
      split; [done|]. by apply elem_of_hash_iter.
Qed.

(** The row an identifier names. *)
Lemma load_incident_row `{!TimelineLaws} id r t :
  it_incidents t !! id = Some r → load_incident (uuid_to_string id) t = Some (hydrate_incident t (id, r)).
Proof.
  intros Hr. unfold load_incident.
  assert (∀ x, x ∈ filter (λ r, uuid_to_string r.1 = uuid_to_string id) (hash_iter (it_incidents t)) → x = (id, r)) as Honly.
  { intros [id' r'] [Hid Hin]%list_elem_of_filter. apply (inj _) in Hid. cbn in Hid. subst id'. apply elem_of_hash_iter in Hin. congruence. }
  assert ((id, r) ∈ filter (λ r, uuid_to_string r.1 = uuid_to_string id) (hash_iter (it_incidents t))) as Hin.
  { apply list_elem_of_filter. split; [done|]. by apply elem_of_hash_iter. }
  destruct (filter _ _) as [|x l]; [by apply elem_of_nil in Hin|]. cbn. by rewrite (Honly x ltac:(by left)).
Qed.
End spec.

(** A saved incident comes back with everything hanging off it: status,
    severity, its entities in their roles, the evidence, each diagnosis with
    its reasoning, and the whole timeline, whatever the tables held of an
    earlier version of it. *)
Theorem saved_incident_loads_back `{JsonApi} `{UuidApi} `{TimeApi} `{HashIter} `{!TimelineLaws}
    inv environment (i : Incident) t t' :
  tables_ok t → fits environment t i → incident_wf i → save_incident inv environment i t = inr t' →
  tables_ok t' ∧ ∃ j, load_incident (uuid_to_string (incident_id i)) t' = Some j ∧ reloaded i j.
Proof.
  intros Hok Hfit Hwf Hsave.
  assert (ForallOrdPairs apart [i]) as Hap by (by repeat constructor).
  destruct (save_all_kept inv environment [i] t t' Hok) as (Hok' & Hk & _ & _); [by apply Forall_singleton|done|done|].
  rewrite Forall_singleton in Hk. split; [done|]. eexists. split.
  - apply load_incident_row, (kept_row _ _ _ Hk).
  - apply (kept_reloaded environment); [done|done|apply (fit_diagnosis_ids _ _ _ Hfit)].
Qed.

#[export] Instance concrete_timeline_laws : TimelineLaws.
Proof.
  split.
  - intros a b Heq. cbn in Heq. injection Heq as Heq. apply (inj encode) in Heq. congruence.
  - apply pretty_N_inj.
  - intros u. by apply string_mem_show_N.
  - intros [|p|p]; [done|..]; cbn; [by apply (string_mem_show_N "031" (Npos p))|].
    change (string_mem "031" (pretty (Npos p)) = false). by apply string_mem_show_N.
  - intros a b Heq. cbn in Heq. apply (inj pretty) in Heq. by subst.
Qed.

(** ** A sample *)

Definition sample_inventory : InventoryTables :=
  mk_tables {[ "lab" ]}
    (list_to_map (map (λ n : N, ({| as_uuid := n |}, mk_entity_row "lab" None "host" (show_N n) (show_N n) json_null "active" 0 0))
       [1; 2; 3]%N)) ∅ ∅ ∅ ∅.

Definition empty_incident_tables : IncidentTables := mk_incident_tables ∅ ∅ ∅ ∅ ∅ ∅ ∅ ∅ ∅ ∅.

Definition sample_diagnosis (n : N) : Diagnosis :=
  {| diagnosis_id := (40 + n)%N; diagnosis_type := SHARED_STORAGE_FAILURE; affected_entities := [{| as_uuid := 2 |}; {| as_uuid := 3 |}]%N;
     suspected_root_entities := [{| as_uuid := 1%N |}]; confidence := Confidence_High;
     diagnosis_evidence := [{| observation_uuid := 8 |}; {| observation_uuid := 9 |}]%N; diagnosis_rule := "storage.shared_failure";
     diagnosis_summary := "two clients are impaired together"; recommended_actions := ["sentinel entity show fs1"];
     diagnosis_created_at := 5000 |}.

Definition sample_incident : Incident :=
  open_incident 20 5000 "cause:fs1" Severity_Critical [sample_diagnosis 1; sample_diagnosis 2].

Lemma empty_incident_tables_ok : tables_ok empty_incident_tables.
Proof. split; intros *; cbn; rewrite lookup_empty; by try intros [? ?]. Qed.

Lemma sample_incident_fits : fits "lab" empty_incident_tables sample_incident.
Proof.
  split; try (intros *; cbn; rewrite lookup_empty; by try intros [? ?]).
  - apply (bool_decide_eq_true_1 _). vm_compute. reflexivity.
  - unfold plain. apply Forall_forall. intros e He. vm_compute in He.
    repeat (apply elem_of_cons in He as [->|He]; [split; [done|vm_compute; reflexivity]|]). by apply elem_of_nil in He.
Qed.

Definition saved_tables : IncidentTables :=
  match save_incident sample_inventory "lab" sample_incident empty_incident_tables with
  | inr t => t | inl _ => empty_incident_tables
  end.

Lemma sample_incident_saved : save_incident sample_inventory "lab" sample_incident empty_incident_tables = inr saved_tables.
Proof.
  assert (match save_incident sample_inventory "lab" sample_incident empty_incident_tables with inr _ => true | inl _ => false end = true)
    as Hok by (vm_compute; reflexivity).
  unfold saved_tables. destruct (save_incident _ _ _ _); [discriminate Hok|reflexivity].
Qed.

Lemma saved_incident_loads_back_witness :
  save_incident sample_inventory "lab" sample_incident empty_incident_tables = inr saved_tables
  ∧ ∃ j, load_incident "20" saved_tables = Some j ∧ incident_evidence j ≡ₚ [{| observation_uuid := 8 |}; {| observation_uuid := 9 |}]%N.
Proof.
  split; [apply sample_incident_saved|].
  destruct (saved_incident_loads_back sample_inventory "lab" sample_incident empty_incident_tables saved_tables) as (_ & j & Hj & Hl).
  - apply empty_incident_tables_ok.
  - apply sample_incident_fits.
  - apply open_incident_wf.
  - apply sample_incident_saved.
  - exists j. split; [exact Hj|exact (rl_evidence _ _ Hl)].
Defined.
