(* ===== verification/IncidentRestart.v ===== *)
(** * Incidents across restarts and resets

    The engine of [src/incident/engine.rs] and its tables move together: what a
    pass leaves is what was saved, what a restart resumes is what the engine
    held, and after a reset there is nothing left to resume. *)

From S2P Require Import Concrete.
From S2P Require Export IncidentStoreSpec.

Local Open Scope string_scope.

(** ** The update of a pass *)

Section update.
Context `{U : UuidApi} `{J : JsonApi} `{P : IncidentPass}.
Implicit Types (i : Incident) (u : IncidentUpdate).

Lemma update_all_push c i u : update_all (push_change c i u) ≡ₚ i :: update_all u.
Proof. unfold update_all. destruct c; cbn; solve_Permutation. Qed.

Lemma reconcile_diagnosed_fingerprint id now fp s ds old c i' :
  reconcile_diagnosed id now fp s ds old = (c, i') → (∀ i, old = Some i → incident_fingerprint i = fp) →
  incident_fingerprint i' = fp.
Proof.
  intros Hr Hold. apply reconcile_diagnosed_spec in Hr as (_ & _ & _ & _ & _ & Hr). destruct old as [i|].
  - destruct Hr as [(_ & Hc & _)|(_ & _ & Hfp & _)]; [|done]. rewrite (cont_fingerprint _ _ Hc). by apply Hold.
  - by destruct Hr as (_ & _ & Hfp & _).
Qed.

Lemma diagnosed_loop_update g l m u m' u' :
  (∀ fp i, m !! fp = Some i → incident_fingerprint i = fp) → diagnosed_loop g l m u = Some (m', u') →
  map incident_fingerprint (update_all u') ≡ₚ (l.*1 ++ map incident_fingerprint (update_all u))%list
  ∧ ∀ fp i, m' !! fp = Some i → incident_fingerprint i = fp.
Proof.
  revert m u. induction l as [|[fp ds] l IH]; intros m u Hm; cbn [diagnosed_loop]; [by intros [= <- <-]|].
  destruct (group_severity ds g) as [s|]; cbn; [|done].
  destruct (reconcile_diagnosed (fresh_id fp) (clock fp) fp s ds (m !! fp)) as [c i] eqn:Hr.
  apply reconcile_diagnosed_fingerprint in Hr; [|intros j; apply Hm]. intros Hl.
  destruct (IH (<[ fp := i ]> m) (push_change c i u)) as [Hp Hm']; [|done|].
  - intros fp' j [[<- <-]|[_ Hj]]%lookup_insert_Some; [done|by apply Hm].
  - split; [|done]. rewrite Hp, update_all_push. cbn. rewrite Hr. solve_Permutation.
Qed.

Lemma undiagnosed_loop_update groups recovered l m u m' u' :
  (∀ fp i, (fp, i) ∈ l → incident_fingerprint i = fp) → undiagnosed_loop groups recovered l m u = (m', u') →
  map incident_fingerprint (update_all u') ≡ₚ
    ((filter (λ fi : string * Incident, undiagnosed groups fi.1 fi.2 = true) l).*1 ++ map incident_fingerprint (update_all u))%list.
Proof.
  revert m u. induction l as [|[fp i] l IH]; intros m u Hl; cbn [undiagnosed_loop]; [by intros [= <- <-]|].
  rewrite filter_cons. cbn [fst snd].
  assert (undiagnosed groups fp i = negb (bool_decide (is_Some (groups !! fp)) || negb (status_is_active (incident_status i)))) as Hu
    by done.
  destruct (bool_decide _ || _)%bool; cbn [negb] in Hu.
  - rewrite decide_False by congruence. apply IH. intros fp' j Hj. apply Hl. by right.
  - rewrite decide_True by done. destruct (reconcile_undiagnosed (clock fp) recovered i) as [c i1] eqn:Hr.
    intros H. rewrite (IH _ _ (λ fp' j Hj, Hl fp' j (list_elem_of_further _ _ _ Hj)) H), update_all_push. cbn.
    apply reconcile_undiagnosed_spec in Hr as [Hc _]. rewrite (cont_fingerprint _ _ Hc), (Hl fp i ltac:(by left)).
    solve_Permutation.
Qed.

(** A pass reports each fingerprint once. *)
Lemma update_fingerprints e ds g recovered e' u :
  engine_wf e → reconcile_verified e ds g recovered = Some (e', u) → NoDup (map incident_fingerprint (update_all u)).
Proof.
  intros Hwf. unfold reconcile_verified. cbn zeta.
  destruct (diagnosed_loop g (btree_entries (grouped ds)) (incidents e) update_default) as [[m1 u1]|] eqn:H1; cbn [mbind option_bind]; [|done].
  destruct (undiagnosed_loop (grouped ds) recovered (btree_entries m1) m1 u1) as [m2 u2] eqn:H2. intros [= <- <-].
  apply diagnosed_loop_update in H1 as [Hp1 Hm1]; [|intros fp i Hi; by apply (Hwf fp i)].
  apply undiagnosed_loop_update in H2; [|intros fp i Hi%elem_of_btree_entries; by apply Hm1].
  rewrite H2, Hp1. cbn [update_all update_default opened updated recovering resolved map app]. rewrite app_nil_r.
  apply NoDup_app. split_and!.
  - apply NoDup_fmap_2_strong; [|apply NoDup_filter, (NoDup_fmap_1 fst), NoDup_btree_keys].
    intros [fp i] [fp' i'] [_ Hi%elem_of_btree_entries]%list_elem_of_filter [_ Hi'%elem_of_btree_entries]%list_elem_of_filter.
    cbn. intros <-. congruence.
  - intros fp ([fp' i] & -> & [Hu _]%list_elem_of_filter)%list_elem_of_fmap. cbn in Hu. cbn [fst].
    apply undiagnosed_spec in Hu as [Hnone _]. intros ([fp2 ds2] & Heq & Hin)%list_elem_of_fmap. cbn in Heq. subst fp2.
    apply grouped_entries in Hin as [-> ?]. done.
  - apply NoDup_btree_keys.
Qed.

(** ** Plain timelines *)

Lemma push_event_plain now k d i : string_mem "031"%char k = false → plain i → plain (push_event now k d i).
Proof. intros Hk Hi. unfold plain. cbn. apply Forall_app. split; [done|]. by apply Forall_singleton. Qed.

Lemma merge_diagnoses_plain i ds : plain i → plain (foldl merge_diagnosis i ds).
Proof. intros Hi. unfold plain. by rewrite merge_diagnoses_timeline. Qed.

Lemma add_diagnoses_plain now i ds : plain i → plain (foldl (add_diagnosis now) i ds).
Proof.
  revert i. induction ds as [|d ds IH]; intros i Hi; cbn [foldl]; [done|]. apply IH. unfold add_diagnosis.
  change (plain (foldl merge_diagnosis (push_event now "diagnosis_added"
       (diagnosis_type d +:+ " (" +:+ confidence_as_str (confidence d) +:+ ")") i) [d])).
  by apply merge_diagnoses_plain, push_event_plain.
Qed.

Lemma refresh_plain now i ds : plain i → plain (refresh now i ds).
Proof.
  intros Hi. unfold refresh. cbn zeta. apply merge_diagnoses_plain. unfold plain. cbn [timeline with_diagnoses].
  case_decide; [done|]. by apply push_event_plain.
Qed.

Lemma evolves_plain g ds recovered fp old ch i' :
  evolves g ds recovered fp old ch → (∀ i, old = Some i → plain i) → stored old ch = Some i' → plain i'.
Proof.
  intros Hev Hold Hst. destruct Hev as [old s c i1 Hne Hs Hr|i c i1 Hno Ha Hr|old Hno Hidle]; cbn [stored] in Hst.
  - injection Hst as <-. unfold reconcile_diagnosed in Hr.
    assert (plain (open_incident (fresh_id fp) (clock fp) fp s (filed_under fp ds))) as Hopen.
    { unfold open_incident. apply add_diagnoses_plain, push_event_plain; [done|]. by apply Forall_nil. }
    destruct old as [i|]; [|by injection Hr as <- <-]. destruct (_ && _)%bool; [by injection Hr as <- <-|]. injection Hr as <- <-.
    apply refresh_plain. specialize (Hold i eq_refl). assert (plain (reopen (clock fp) i)) as Hre.
    { unfold reopen. cbn zeta. assert (plain (if decide (incident_status i = Status_Recovering)
        then push_event (clock fp) "recovery_failed" "the fault is diagnosed again" (with_status Status_Open i) else i)) as H1
        by (case_decide; [by apply push_event_plain|done]).
      revert H1. generalize (if decide (incident_status i = Status_Recovering)
        then push_event (clock fp) "recovery_failed" "the fault is diagnosed again" (with_status Status_Open i) else i).
      intros i0 H1. case_decide; [by apply push_event_plain|done]. }
    unfold escalate. case_match; [by apply push_event_plain|done].
  - injection Hst as <-. specialize (Hold i eq_refl). unfold reconcile_undiagnosed in Hr.
    destruct (recovered i) as [root full]. repeat case_match; simplify_eq; try done; try (by apply push_event_plain).
  - by apply Hold.
Qed.

(** Where an incident's diagnoses come from. *)
Lemma evolves_diagnoses g ds recovered fp old c i' :
  evolves g ds recovered fp old (Some (c, i')) →
  (incident_diagnoses i' = filed_under fp ds
   ∨ ∃ i, old = Some i ∧ continues i i' ∧ incident_diagnoses i' = incident_diagnoses i)
  ∧ ((∃ i, old = Some i ∧ continues i i') ∨ (incident_id i' = fresh_id fp ∧ incident_started_at i' = clock fp)).
Proof.
  intros Hev. inversion Hev as [old' s c' i1 Hne Hs Hr|i c' i1 Hno Ha Hr|]; subst.
  - pose proof Hr as Hr'. apply reconcile_diagnosed_spec in Hr as (Hds & _ & _ & _ & _ & Hold). split; [by left|].
    destruct old as [i|].
    + destruct Hold as [(_ & Hc & _)|(-> & Hid & _)]; [left; by exists i|]. right. split; [done|].
      unfold reconcile_diagnosed in Hr'. destruct (_ && _)%bool; [|done]. injection Hr' as <-.
      apply open_incident_spec.
    + destruct Hold as (_ & Hid & _). right. split; [done|]. cbn in Hr'. injection Hr' as _ <-. apply open_incident_spec.
  - apply reconcile_undiagnosed_spec in Hr as (Hc & Hds & _). split; [right|left]; by exists i.
Qed.
End update.

(** ** The engine and its tables *)

Section synced.
Context `{J : JsonApi} `{U : UuidApi} `{T : TimeApi} `{HI : HashIter}.
Implicit Types (i j : Incident) (t : IncidentTables) (e : IncidentEngine).

(** An incident that is held as it was saved. *)
Record held_as_saved (environment : string) t i : Prop := {
  hs_wf : incident_wf i;
  hs_plain : plain i;
  hs_ids : NoDup (map diagnosis_id (incident_diagnoses i));
  hs_kept : kept environment t i
}.

(** Text of the boundary, below every time when there is none. *)
Definition since_reset (reset : option Timestamp) (at_ : Timestamp) : Prop :=
  key_le (default "" (rfc3339_micros <$> reset)) (rfc3339_micros at_).

Record synced (environment : string) (reset : option Timestamp) e t : Prop := {
  sy_ok : tables_ok t;
  sy_rows id r : it_incidents t !! id = Some r → si_environment r = environment →
    ∃ i, incident_id i = id ∧ held_as_saved environment t i;
  sy_held fp i : incidents e !! fp = Some i → incident_fingerprint i = fp ∧ held_as_saved environment t i;
  sy_active id r : it_incidents t !! id = Some r → si_environment r = environment → stored_active r →
    ∃ fp i, incidents e !! fp = Some i ∧ incident_id i = id;
  sy_since fp i : incidents e !! fp = Some i → since_reset reset (to_micros (incident_started_at i))
}.

Lemma stored_active_status environment i :
  stored_active (row_of_incident environment i) ↔ status_is_active (incident_status i) = true.
Proof. unfold stored_active. cbn. rewrite !elem_of_cons, elem_of_nil. destruct (incident_status i); cbn; naive_solver. Qed.

(** What a pass may draw: identifiers nothing has, and a clock past the reset. *)
Record drawn_fresh `{P : IncidentPass} (reset : option Timestamp) t (ds : list Diagnosis) : Prop := {
  dr_incident fp : it_incidents t !! fresh_id fp = None;
  dr_distinct : Inj (=) (=) fresh_id;
  dr_diagnosis d : d ∈ ds → it_diagnoses t !! diagnosis_id d = None;
  dr_diagnoses : NoDup (map diagnosis_id ds);
  dr_clock fp : since_reset reset (to_micros (clock fp))
}.

Lemma synced_wf environment reset e t : synced environment reset e t → engine_wf e.
Proof. intros Hs fp i Hi. destruct (sy_held _ _ _ _ Hs fp i Hi) as [Hfp Hh]. split; [apply Hh|done]. Qed.

(** Two held incidents of the same identifier are the same one. *)
Lemma held_distinct environment reset e t fp fp' i j :
  synced environment reset e t → incidents e !! fp = Some i → incidents e !! fp' = Some j →
  incident_id i = incident_id j → fp = fp'.
Proof.
  intros Hs Hi Hj Hid. destruct (sy_held _ _ _ _ Hs fp i Hi) as [<- Hhi]. destruct (sy_held _ _ _ _ Hs fp' j Hj) as [<- Hhj].
  pose proof (kept_row _ _ _ (hs_kept _ _ _ Hhi)) as Hri. pose proof (kept_row _ _ _ (hs_kept _ _ _ Hhj)) as Hrj.
  rewrite Hid, Hrj in Hri. by injection Hri.
Qed.

Section pass.
Context `{P : IncidentPass} `{!TimelineLaws}.
Variables (environment : string) (reset : option Timestamp) (e : IncidentEngine) (t : IncidentTables)
  (ds : list Diagnosis) (g : DependencyGraph) (recovered : Incident → bool * bool).
Hypothesis Hsync : synced environment reset e t.
Hypothesis Hfresh : drawn_fresh reset t ds.

Lemma filed_under_ids fp : NoDup (map diagnosis_id (filed_under fp ds)).
Proof.
  pose proof (dr_diagnoses _ _ _ Hfresh) as Hnd. unfold filed_under. revert Hnd. generalize ds. intros l.
  induction l as [|d l IH]; [done|]. cbn [map]. intros [Hd Hnd]%NoDup_cons. rewrite filter_cons. case_decide; [|by apply IH].
  cbn [map]. constructor; [|by apply IH]. intros (d' & Heq & [_ Hd']%list_elem_of_filter)%list_elem_of_fmap. apply Hd.
  rewrite Heq. by apply list_elem_of_fmap_2.
Qed.

(** One reported incident. *)
Lemma reported_fits fp c i :
  evolves g ds recovered fp (incidents e !! fp) (Some (c, i)) → fits environment t i ∧ incident_wf i ∧ incident_fingerprint i = fp.
Proof.
  intros Hev. destruct (evolves_wf _ _ _ _ _ _ _ Hev (λ j, synced_wf _ _ _ _ Hsync fp j) eq_refl) as [Hwf Hfp].
  assert (plain i) as Hplain.
  { apply (evolves_plain _ _ _ _ _ _ _ Hev); [|done]. intros j Hj. apply (sy_held _ _ _ _ Hsync) in Hj as [_ Hh]. apply Hh. }
  destruct (evolves_diagnoses _ _ _ _ _ _ _ Hev) as [Hds Hid]. split; [|done].
  assert (∀ j, incidents e !! fp = Some j → continues j i → held_as_saved environment t j) as Hheld.
  { intros j Hj _. by apply (sy_held _ _ _ _ Hsync fp). }
  pose proof (sy_ok _ _ _ _ Hsync) as Hok. split.
  - intros r Hr. destruct Hid as [(j & Hj & Hc)|[Hid _]].
    + rewrite (cont_id _ _ Hc), (kept_row _ _ _ (hs_kept _ _ _ (Hheld j Hj Hc))) in Hr. injection Hr as <-.
      cbn. by rewrite (cont_fingerprint _ _ Hc), (cont_started _ _ Hc).
    + by rewrite Hid, (dr_incident _ _ _ Hfresh) in Hr.
  - intros o Ho. destruct Hid as [(j & Hj & Hc)|[Hid _]].
    + rewrite (cont_id _ _ Hc) in Ho. apply (kept_evidence _ _ _ (hs_kept _ _ _ (Hheld j Hj Hc))) in Ho.
      destruct (cont_evidence _ _ Hc) as [l ->]. apply elem_of_app. by left.
    + rewrite Hid in Ho. apply (ok_evidence _ Hok) in Ho as [r Hr]. by rewrite (dr_incident _ _ _ Hfresh) in Hr.
  - destruct Hds as [->|(j & Hj & Hc & ->)]; [apply filed_under_ids|]. apply (hs_ids _ _ _ (Hheld j Hj Hc)).
  - intros d r Hd Hr. destruct Hds as [Hds|(j & Hj & Hc & Hds)]; rewrite Hds in Hd.
    + apply elem_of_filed_under in Hd as [Hd _]. by rewrite (dr_diagnosis _ _ _ Hfresh d Hd) in Hr.
    + rewrite (cont_id _ _ Hc). pose proof (hs_kept _ _ _ (Hheld j Hj Hc)) as Hk.
      destruct (kept_diagnoses _ _ _ Hk (diagnosis_id d) (row_of_diagnosis (incident_id j) d)) as [_ Hrow].
      destruct Hrow as [Hrow _]; [by exists d|]. rewrite Hr in Hrow. by injection Hrow as ->.
  - intros k ev Hk. destruct Hid as [(j & Hj & Hc)|[Hid _]].
    + rewrite (cont_id _ _ Hc) in Hk. assert (ev ∈ map stored_event (timeline j)) as Hev'.
      { apply (kept_timeline _ _ _ (hs_kept _ _ _ (Hheld j Hj Hc))). by exists k. }
      destruct (cont_timeline _ _ Hc) as [l ->]. rewrite map_app. apply elem_of_app. by left.
    + apply (ok_timeline _ Hok) in Hk as [r Hr]. cbn in Hr. by rewrite Hid, (dr_incident _ _ _ Hfresh) in Hr.
  - done.
Qed.

(** Two reported incidents. *)
Lemma reported_apart fp fp' c c' i j :
  evolves g ds recovered fp (incidents e !! fp) (Some (c, i)) → evolves g ds recovered fp' (incidents e !! fp') (Some (c', j)) →
  fp ≠ fp' → apart i j.
Proof.
  intros Hi Hj Hne. destruct (evolves_diagnoses _ _ _ _ _ _ _ Hi) as [Hdi Hidi].
  destruct (evolves_diagnoses _ _ _ _ _ _ _ Hj) as [Hdj Hidj].
  assert (∀ fp i, incidents e !! fp = Some i → kept environment t i) as Hkept.
  { intros fp0 i0 H0. apply (sy_held _ _ _ _ Hsync fp0 i0 H0). }
  split.
  - intros Heq. destruct Hidi as [(i0 & Hi0 & Hci)|[Hii _]], Hidj as [(j0 & Hj0 & Hcj)|[Hij _]].
    + apply Hne, (held_distinct _ _ _ _ _ _ _ _ Hsync Hi0 Hj0). by rewrite <- (cont_id _ _ Hci), <- (cont_id _ _ Hcj).
    + pose proof (kept_row _ _ _ (Hkept _ _ Hi0)) as Hr. by rewrite <- (cont_id _ _ Hci), Heq, Hij, (dr_incident _ _ _ Hfresh) in Hr.
    + pose proof (kept_row _ _ _ (Hkept _ _ Hj0)) as Hr. by rewrite <- (cont_id _ _ Hcj), <- Heq, Hii, (dr_incident _ _ _ Hfresh) in Hr.
    + rewrite Hii, Hij in Heq. by apply Hne, (dr_distinct _ _ _ Hfresh).
  - intros d Hd (d' & Heq & Hd')%list_elem_of_fmap.
    assert (∀ fp0 i0 d0, incidents e !! fp0 = Some i0 → d0 ∈ incident_diagnoses i0 →
      it_diagnoses t !! diagnosis_id d0 = Some (row_of_diagnosis (incident_id i0) d0)) as Hrow.
    { intros fp0 i0 d0 H0 Hd0. apply (kept_diagnoses _ _ _ (Hkept _ _ H0)). by exists d0. }
    destruct Hdi as [Hdi|(i0 & Hi0 & _ & Hdi)], Hdj as [Hdj|(j0 & Hj0 & _ & Hdj)]; rewrite Hdi in Hd; rewrite Hdj in Hd'.
    + apply elem_of_filed_under in Hd as [Hd <-], Hd' as [Hd' <-].
      by rewrite (ids_determine ds d d' (dr_diagnoses _ _ _ Hfresh) Hd Hd' Heq) in Hne.
    + apply elem_of_filed_under in Hd as [Hd _]. pose proof (Hrow _ _ _ Hj0 Hd') as Hr.
      by rewrite <- Heq, (dr_diagnosis _ _ _ Hfresh d Hd) in Hr.
    + apply elem_of_filed_under in Hd' as [Hd' _]. pose proof (Hrow _ _ _ Hi0 Hd) as Hr.
      by rewrite Heq, (dr_diagnosis _ _ _ Hfresh d' Hd') in Hr.
    + pose proof (Hrow _ _ _ Hi0 Hd) as Hr. rewrite Heq, (Hrow _ _ _ Hj0 Hd') in Hr. injection Hr as Hr.
      apply Hne, (held_distinct _ _ _ _ _ _ _ _ Hsync Hi0 Hj0). congruence.
Qed.

Lemma elem_of_update_all u i : i ∈ update_all u ↔ ∃ c, i ∈ bucket c u.
Proof.
  unfold update_all. rewrite !elem_of_app. split.
  - intros [?|[?|[?|?]]]; [by exists Change_Opened|by exists Change_Updated|by exists Change_Recovering|by exists Change_Resolved].
  - intros [[] Hc]; cbn in Hc; tauto.
Qed.

(** Every reported incident is what its fingerprint evolved to, and is held. *)
Lemma reported_origin e' u i :
  reconcile_verified e ds g recovered = Some (e', u) → i ∈ update_all u →
  ∃ c, evolves g ds recovered (incident_fingerprint i) (incidents e !! incident_fingerprint i) (Some (c, i))
       ∧ incidents e' !! incident_fingerprint i = Some i.
Proof.
  intros Hr [c Hc]%elem_of_update_all. destruct (reconcile_evolves _ _ _ _ _ _ Hr) as [_ Hback].
  destruct (Hback c i Hc) as (fp & Hevi & Hi'). destruct (reported_fits _ _ _ Hevi) as (_ & _ & <-). by exists c.
Qed.

Lemma reported_all_apart e' u : reconcile_verified e ds g recovered = Some (e', u) → ForallOrdPairs apart (update_all u).
Proof.
  intros Hr. pose proof (update_fingerprints _ _ _ _ _ _ (synced_wf _ _ _ _ Hsync) Hr) as Hnd.
  pose proof (λ i, reported_origin e' u i Hr) as Hrep. revert Hnd Hrep. induction (update_all u) as [|i l IH]; intros Hnd Hrep; constructor.
  - cbn in Hnd. apply NoDup_cons in Hnd as [Hni _]. apply Forall_forall. intros j Hj.
    destruct (Hrep i ltac:(by left)) as (c & Hevi & _), (Hrep j ltac:(by right)) as (c' & Hevj & _).
    apply (reported_apart _ _ _ _ _ _ Hevi Hevj). intros Heq. apply Hni. rewrite Heq. by apply list_elem_of_fmap_2.
  - cbn in Hnd. apply NoDup_cons in Hnd as [_ Hnd]. apply IH; [done|]. intros j Hj. apply Hrep. by right.
Qed.

(** An incident a pass leaves alone shares its identifier with none it reports. *)
Lemma left_alone_unreported e' u fp i j :
  reconcile_verified e ds g recovered = Some (e', u) → incidents e !! fp = Some i →
  evolves g ds recovered fp (Some i) None → j ∈ update_all u → incident_id j ≠ incident_id i.
Proof.
  intros Hr Hi Hch Huj Hid. destruct (reported_origin e' u j Hr Huj) as (c & Hevj & Hj'). set (fpj := incident_fingerprint j) in *.
  destruct (sy_held _ _ _ _ Hsync fp i Hi) as [_ Hh].
  destruct (evolves_diagnoses _ _ _ _ _ _ _ Hevj) as [_ [(j0 & Hj0 & Hc)|[Hid' _]]].
  - assert (fpj = fp) as Heq.
    { apply (held_distinct _ _ _ _ _ _ _ _ Hsync Hj0 Hi). by rewrite <- (cont_id _ _ Hc). }
    rewrite Heq in Hevj. inversion Hch as [| |? Hno Hidle]; subst.
    inversion Hevj as [? ? ? ? Hne ? ? |? ? ? Hno' Ha ? Hjj|]; [done|]. subst.
    rewrite Hi in Hjj. injection Hjj as ->. by rewrite (Hidle _ eq_refl) in Ha.
  - pose proof (kept_row _ _ _ (hs_kept _ _ _ Hh)) as Hrow. by rewrite <- Hid, Hid', (dr_incident _ _ _ Hfresh) in Hrow.
Qed.

(** What a pass leaves is what saving its update leaves. *)
Lemma synced_pass inv e' u t' :
  reconcile_verified e ds g recovered = Some (e', u) → save_incidents inv environment (update_all u) t = inr t' →
  synced environment reset e' t'.
Proof.
  intros Hr Hsave. destruct (reconcile_evolves _ _ _ _ _ _ Hr) as [Hev _].
  pose proof (λ i, reported_origin e' u i Hr) as Hrep.
  assert (Forall (fits environment t) (update_all u)) as Hfits.
  { apply Forall_forall. intros i Hi. destruct (Hrep i Hi) as (c & Hevi & _). by apply (reported_fits _ _ _ Hevi). }
  destruct (save_all_kept _ _ _ _ _ (sy_ok _ _ _ _ Hsync) Hfits (reported_all_apart e' u Hr) Hsave) as (Hok & Hkept & Hother & Hrows).
  rewrite Forall_forall in Hkept.
  assert (∀ i, i ∈ update_all u → held_as_saved environment t' i) as Hsaved.
  { intros i Hi. destruct (Hrep i Hi) as (c & Hevi & _). destruct (reported_fits _ _ _ Hevi) as (Hfit & Hwf & _).
    split; [done|apply (fit_plain _ _ _ Hfit)|apply (fit_diagnosis_ids _ _ _ Hfit)|by apply Hkept]. }
  assert (∀ i, incident_id i ∉ map incident_id (update_all u) → held_as_saved environment t i → held_as_saved environment t' i) as Hkeep.
  { intros i Hi []. split; [done..|]. by apply Hother. }
  assert (∀ id, id ∈ map incident_id (update_all u) → ∃ fp i, incidents e' !! fp = Some i ∧ incident_id i = id ∧ i ∈ update_all u) as Hin.
  { intros id (i & -> & Hi)%list_elem_of_fmap. destruct (Hrep i Hi) as (c & _ & Hi'). by exists (incident_fingerprint i), i. }
  split.
  - done.
  - intros id r Hr' Henv. destruct (decide (id ∈ map incident_id (update_all u))) as [Hu|Hu].
    + destruct (Hin id Hu) as (fp & i & _ & <- & Hi). exists i. split; [done|]. by apply Hsaved.
    + rewrite Hrows in Hr' by done. destruct (sy_rows _ _ _ _ Hsync id r Hr' Henv) as (i & <- & Hi). exists i.
      split; [done|]. by apply Hkeep.
  - intros fp i Hi. destruct (Hev fp) as (ch & Hch & Hst & Hb). rewrite Hst in Hi.
    destruct ch as [[c i']|]; cbn [stored] in Hi.
    + injection Hi as ->. assert (i ∈ update_all u) as Hu.
      { apply elem_of_update_all. exists c. by apply Hb. }
      destruct (reported_fits _ _ _ Hch) as (_ & _ & Hfp). split; [done|]. by apply Hsaved.
    + destruct (sy_held _ _ _ _ Hsync fp i Hi) as [Hfp Hh]. split; [done|]. apply Hkeep; [|done].
      intros Hu. destruct (Hin _ Hu) as (fp' & j & _ & Hid & Huj). rewrite Hi in Hch.
      by apply (left_alone_unreported e' u fp i j Hr Hi Hch Huj).
  - intros id r Hr' Henv Hact. destruct (decide (id ∈ map incident_id (update_all u))) as [Hu|Hu].
    + destruct (Hin id Hu) as (fp & i & Hi & Hid & _). by exists fp, i.
    + rewrite Hrows in Hr' by done. destruct (sy_active _ _ _ _ Hsync id r Hr' Henv Hact) as (fp & i & Hi & <-).
      destruct (Hev fp) as (ch & Hch & Hst & Hb). rewrite Hi in Hch, Hst. exists fp.
      destruct ch as [[c i']|]; cbn [stored] in Hst; [|by exists i].
      assert (i' ∈ update_all u) as Hu'.
      { apply elem_of_update_all. exists c. by apply Hb. }
      destruct (evolves_keeps _ _ _ _ _ _ Hch) as (i2 & [= <-] & [Hc|(_ & Hres & _)]).
      * destruct Hu. rewrite <- (cont_id _ _ Hc). by apply list_elem_of_fmap_2.
      * destruct (sy_held _ _ _ _ Hsync fp i Hi) as [_ Hh]. rewrite (kept_row _ _ _ (hs_kept _ _ _ Hh)) in Hr'.
        injection Hr' as <-. apply stored_active_status in Hact. by rewrite Hres in Hact.
  - intros fp i Hi. destruct (Hev fp) as (ch & Hch & Hst & _). rewrite Hst in Hi.
    destruct ch as [[c i']|]; cbn [stored] in Hi; [|by apply (sy_since _ _ _ _ Hsync fp)]. injection Hi as ->.
    destruct (evolves_diagnoses _ _ _ _ _ _ _ Hch) as [_ [(j0 & Hj0 & Hc)|[_ ->]]]; [|apply (dr_clock _ _ _ Hfresh)].
    rewrite (cont_started _ _ Hc). by apply (sy_since _ _ _ _ Hsync fp).
Qed.
End pass.

(** ** Restarting *)

(** What a starting controller resumes. *)
Definition resume (now : Timestamp) (reset : option Timestamp) (environment : string) t : IncidentEngine :=
  engine_seed incident_engine_new (load_resumable_incidents now reset environment t).

Lemma stored_event_idem ev : stored_event (stored_event ev) = stored_event ev.
Proof. unfold stored_event. cbn. by rewrite to_micros_idem. Qed.

Lemma plain_stored_event ev : plain_event ev → plain_event (stored_event ev).
Proof. by intros [? ?]. Qed.

Lemma same_diagnosis_ids ds ds' : Forall2 same_diagnosis ds ds' → map diagnosis_id ds' = map diagnosis_id ds.
Proof. induction 1 as [|d d' ds ds' Hd _ IH]; [done|]. cbn. by rewrite (sd_id _ _ Hd), IH. Qed.

(** An incident that comes back is as good as the one that was saved. *)
Lemma reloaded_held environment t i j : held_as_saved environment t i → reloaded i j → held_as_saved environment t j.
Proof.
  intros [Hwf Hplain Hids Hk] Hr. destruct (rl_diagnoses _ _ Hr) as (ds & Hp & Hds).
  assert (∀ d', d' ∈ incident_diagnoses j → ∃ d, d ∈ incident_diagnoses i ∧ same_diagnosis d d') as Hback.
  { intros d' Hd'. rewrite Hp in Hd'. apply list_elem_of_lookup in Hd' as [n Hn].
    destruct (Forall2_lookup_r _ _ _ _ _ Hds Hn) as (d & Hd & Hs). exists d. split; [|done]. by apply list_elem_of_lookup_2 in Hd. }
  assert (∀ d, d ∈ incident_diagnoses i → ∃ d', d' ∈ incident_diagnoses j ∧ same_diagnosis d d') as Hforth.
  { intros d [n Hn]%list_elem_of_lookup. destruct (Forall2_lookup_l _ _ _ _ _ Hds Hn) as (d' & Hd' & Hs). exists d'.
    split; [|done]. rewrite Hp. by apply list_elem_of_lookup_2 in Hd'. }
  assert (∀ d d', same_diagnosis d d' → row_of_diagnosis (incident_id j) d' = row_of_diagnosis (incident_id i) d) as Hrow.
  { intros d d' Hs. unfold row_of_diagnosis.
    by rewrite (sd_kind _ _ Hs), (sd_by _ _ Hs), (sd_confident _ _ Hs), (sd_text _ _ Hs), (sd_advice _ _ Hs), (sd_time _ _ Hs),
      to_micros_idem, (rl_id _ _ Hr). }
  split.
  - destruct Hwf as [Ha Hro He Hb Hres Hact]. split.
    + by rewrite (rl_affected _ _ Hr).
    + by rewrite (rl_roots _ _ Hr).
    + by rewrite (rl_evidence _ _ Hr).
    + by rewrite (Permutation_length (rl_evidence _ _ Hr)).
    + rewrite (rl_status _ _ Hr), (rl_ended _ _ Hr). intros [x Hx]%Hres. rewrite Hx. by eexists.
    + rewrite (rl_status _ _ Hr), (rl_ended _ _ Hr). intros ->%Hact. done.
  - unfold plain in *. rewrite Forall_forall in Hplain |- *. intros ev (e0 & -> & He0)%(rl_timeline _ _ Hr)%list_elem_of_fmap.
    by apply plain_stored_event, Hplain.
  - rewrite Hp. by rewrite (same_diagnosis_ids _ _ Hds).
  - destruct Hk as [Krow Kroles Kev Kds Kdr Kde Ktl]. split.
    + rewrite (rl_id _ _ Hr), Krow. unfold row_of_incident.
      by rewrite (rl_fingerprint _ _ Hr), (rl_status _ _ Hr), (rl_severity _ _ Hr), (rl_started _ _ Hr), (rl_ended _ _ Hr),
        to_micros_idem, to_micros_option.
    + intros e r. rewrite (rl_id _ _ Hr), Kroles, !elem_of_roles. by rewrite (rl_affected _ _ Hr), (rl_roots _ _ Hr).
    + intros o. rewrite (rl_id _ _ Hr), Kev. by rewrite (rl_evidence _ _ Hr).
    + intros k r. rewrite (rl_id _ _ Hr), Kds. rewrite <- (rl_id _ _ Hr). split.
      * intros (d & Hd & -> & ->). destruct (Hforth d Hd) as (d' & Hd' & Hs). exists d'. split; [done|].
        split; [by rewrite (sd_id _ _ Hs)|]. rewrite (Hrow d d' Hs). by rewrite (rl_id _ _ Hr).
      * intros (d' & Hd' & -> & ->). destruct (Hback d' Hd') as (d & Hd & Hs). exists d. split; [done|].
        split; [apply (sd_id _ _ Hs)|]. rewrite (Hrow d d' Hs). by rewrite (rl_id _ _ Hr).
    + intros d' e r Hd'. destruct (Hback d' Hd') as (d & Hd & Hs). rewrite (sd_id _ _ Hs), (Kdr d e r Hd).
      unfold roles_of_diagnosis. rewrite !elem_of_roles, (sd_affected _ _ Hs), (sd_roots _ _ Hs). done.
    + intros d' o Hd'. destruct (Hback d' Hd') as (d & Hd & Hs). rewrite (sd_id _ _ Hs), (Kde d o Hd). by rewrite (sd_evidence _ _ Hs).
    + intros ev. rewrite (rl_id _ _ Hr), Ktl, !list_elem_of_fmap. split.
      * intros (e0 & -> & He0). exists (stored_event e0). split; [by rewrite stored_event_idem|].
        apply (rl_timeline _ _ Hr). by apply list_elem_of_fmap_2.
      * intros (e1 & -> & He1). apply (rl_timeline _ _ Hr), list_elem_of_fmap in He1 as (e0 & -> & He0).
        exists e0. split; [by rewrite stored_event_idem|done].
Qed.

(** What is resumed for a fingerprint. *)
Lemma elem_of_resumable now reset environment t j :
  j ∈ load_resumable_incidents now reset environment t ↔
  ∃ id r, it_incidents t !! id = Some r ∧ resumable now reset environment r ∧ j = hydrate_incident t (id, r).
Proof.
  unfold load_resumable_incidents, newest_started. rewrite list_elem_of_fmap. split.
  - intros ([id r] & -> & Hin). rewrite elem_of_reverse, sort_by_key_perm, list_elem_of_filter, elem_of_hash_iter in Hin.
    destruct Hin as [Hres Hr]. by exists id, r.
  - intros (id & r & Hr & Hres & ->). exists (id, r). split; [done|].
    rewrite elem_of_reverse, sort_by_key_perm, list_elem_of_filter, elem_of_hash_iter. done.
Qed.

Lemma resume_from now reset environment t fp j :
  incidents (resume now reset environment t) !! fp = Some j →
  incident_fingerprint j = fp ∧ ∃ id r, it_incidents t !! id = Some r ∧ resumable now reset environment r ∧ j = hydrate_incident t (id, r).
Proof.
  assert (∀ l m, foldl seed_one m l !! fp = Some j → m !! fp = Some j ∨ (j ∈ l ∧ incident_fingerprint j = fp)) as Hgen.
  { intros l. induction l as [|x l IH]; intros m; cbn [foldl]; [by left|]. intros [Hm|[Hl Hfp]]%IH.
    - apply (seed_one_spec m x fp) in Hm as [Hm|[-> Hfp]]; [by left|right; split; [by left|done]].
    - right. split; [by right|done]. }
  intros [Hj|[Hj Hfp]]%Hgen; [cbn in Hj; by rewrite lookup_empty in Hj|]. split; [done|]. by apply elem_of_resumable in Hj.
Qed.

Lemma resume_best now reset environment t id r :
  it_incidents t !! id = Some r → resumable now reset environment r →
  ∃ j, incidents (resume now reset environment t) !! si_fingerprint r = Some j
    ∧ (status_is_active (incident_status (hydrate_incident t (id, r))) = true → status_is_active (incident_status j) = true).
Proof.
  intros Hr Hres. destruct (seed_all_spec (incidents incident_engine_new) (load_resumable_incidents now reset environment t)
    (si_fingerprint r) (hydrate_incident t (id, r))) as (j & Hj & _ & Hrank).
  - right. split; [|done]. apply elem_of_resumable. by exists id, r.
  - exists j. split; [done|]. intros Ha. unfold seed_rank in Hrank. rewrite Ha in Hrank. cbn in Hrank.
    destruct Hrank as [Hle _]. cbn in Hle. destruct (status_is_active (incident_status j)); [done|lia].
Qed.

(** A held row loads as what was saved. *)
Lemma hydrate_held environment reset e t id r :
  synced environment reset e t → it_incidents t !! id = Some r → si_environment r = environment →
  held_as_saved environment t (hydrate_incident t (id, r))
  ∧ ∃ i, incident_id i = id ∧ held_as_saved environment t i ∧ reloaded i (hydrate_incident t (id, r)).
Proof.
  intros Hs Hr Henv. destruct (sy_rows _ _ _ _ Hs id r Hr Henv) as (i & <- & Hi).
  pose proof (kept_row _ _ _ (hs_kept _ _ _ Hi)) as Hrow. rewrite Hr in Hrow. injection Hrow as ->.
  assert (reloaded i (hydrate_incident t (incident_id i, row_of_incident environment i))) as Hl.
  { apply kept_reloaded; apply Hi. }
  split; [by apply (reloaded_held environment t i)|]. by exists i.
Qed.

Lemma synced_restart now environment reset e t :
  synced environment reset e t → synced environment reset (resume now reset environment t) t.
Proof.
  intros Hs. split; [apply (sy_ok _ _ _ _ Hs)|by apply (sy_rows _ _ _ _ Hs)| | |].
  - intros fp j (Hfp & id & r & Hr & (Henv & _ & _) & ->)%resume_from. split; [done|].
    by apply (hydrate_held environment reset e t).
  - intros id r Hr Henv Hact.
    assert (resumable now reset environment r) as Hres.
    { split_and!; [done| |by left]. destruct (sy_active _ _ _ _ Hs id r Hr Henv Hact) as (fp & i & Hi & Hid).
      pose proof (sy_since _ _ _ _ Hs fp i Hi) as Hsince. destruct (sy_held _ _ _ _ Hs fp i Hi) as [_ Hh].
      rewrite <- Hid, (kept_row _ _ _ (hs_kept _ _ _ Hh)) in Hr. injection Hr as <-. exact Hsince. }
    destruct (resume_best _ _ _ _ _ _ Hr Hres) as (j & Hj & Hja). exists (si_fingerprint r), j. split; [done|].
    destruct (hydrate_held _ _ _ _ _ _ Hs Hr Henv) as (_ & i & <- & Hi & Hl).
    assert (status_is_active (incident_status j) = true) as Hja'.
    { apply Hja. rewrite (rl_status _ _ Hl). pose proof (kept_row _ _ _ (hs_kept _ _ _ Hi)) as Hrow. rewrite Hr in Hrow.
      injection Hrow as ->. by apply stored_active_status in Hact. }
    apply resume_from in Hj as (Hfp & id' & r' & Hr' & (Henv' & _ & _) & ->).
    destruct (hydrate_held _ _ _ _ _ _ Hs Hr' Henv') as (_ & i' & <- & Hi' & Hl').
    rewrite (rl_id _ _ Hl').
    (* both rows are active, and the engine holds one incident of the fingerprint *)
    pose proof (kept_row _ _ _ (hs_kept _ _ _ Hi')) as Hrow'. rewrite Hr' in Hrow'. injection Hrow' as ->.
    assert (stored_active (row_of_incident environment i')) as Hact'.
    { apply stored_active_status. by rewrite <- (rl_status _ _ Hl'). }
    destruct (sy_active _ _ _ _ Hs _ _ Hr Henv Hact) as (fp1 & i1 & Hi1 & Hid1).
    destruct (sy_active _ _ _ _ Hs _ _ Hr' Henv' Hact') as (fp2 & i2 & Hi2 & Hid2).
    destruct (sy_held _ _ _ _ Hs fp1 i1 Hi1) as [Hfp1 Hh1]. destruct (sy_held _ _ _ _ Hs fp2 i2 Hi2) as [Hfp2 Hh2].
    assert (incident_fingerprint i1 = si_fingerprint r) as Hf1.
    { pose proof (kept_row _ _ _ (hs_kept _ _ _ Hh1)) as Hx. rewrite Hid1, Hr in Hx. by injection Hx as ->. }
    assert (incident_fingerprint i2 = incident_fingerprint i') as Hf2.
    { pose proof (kept_row _ _ _ (hs_kept _ _ _ Hh2)) as Hx. rewrite Hid2, Hr' in Hx. by injection Hx. }
    cbn in Hfp. assert (fp1 = fp2) as ->.
    { rewrite <- Hfp1, <- Hfp2, Hf1, Hf2, <- Hfp. done. }
    rewrite Hi1 in Hi2. injection Hi2 as ->. congruence.
  - intros fp j (_ & id & r & Hr & (Henv & Hsince & _) & ->)%resume_from. cbn [incident_started_at hydrate_incident].
    destruct (sy_rows _ _ _ _ Hs id r Hr Henv) as (i & <- & Hi).
    pose proof (kept_row _ _ _ (hs_kept _ _ _ Hi)) as Hrow. rewrite Hr in Hrow. injection Hrow as ->.
    cbn [si_started_at row_of_incident] in *. by rewrite to_micros_idem.
Qed.

(** ** Resetting *)

(** The event a reset closes a timeline with, and the incident it leaves. *)
Definition reset_event (now : Timestamp) : TimelineEvent :=
  {| event_at := now; event_kind := "state_reset"; event_detail := RESET_DETAIL; event_entity := None |}.

Definition closed (now : Timestamp) i : Incident :=
  push_event now "state_reset" RESET_DETAIL (with_ended_at (Some now) (with_status Status_Reset i)).

(** The identifiers a reset draws are none the program computes. *)
Definition draws_apart (draw : Uuid → Uuid) : Prop := ∀ id i ev, plain_event ev → timeline_id i ev ≠ draw id.

Lemma insert_reset_events now draw ids m m' :
  try_fold (insert_reset_event now draw) m ids = inr m' →
  (∀ k r, m !! k = Some r → m' !! k = Some r)
  ∧ (∀ k r, m' !! k = Some r → m !! k = Some r ∨ ∃ id, id ∈ ids ∧ k = draw id ∧ r = mk_stored_event id (stored_event (reset_event now)))
  ∧ (∀ id, id ∈ ids → m' !! draw id = Some (mk_stored_event id (stored_event (reset_event now)))).
Proof.
  revert m. induction ids as [|id ids IH]; intros m; cbn [try_fold].
  { intros [= <-]. split_and!; [done|by left|by intros ? ?%elem_of_nil]. }
  destruct (insert_reset_event now draw m id) as [err|m1] eqn:H1; cbn [sum_bind]; [done|].
  unfold insert_reset_event in H1. destruct (m !! draw id) eqn:Hfree; [done|]. injection H1 as <-.
  intros (Hkeep & Hfrom & Hall)%IH. split_and!.
  - intros k r Hk. apply Hkeep. rewrite lookup_insert_ne; [done|congruence].
  - intros k r [Hk|(id' & Hid & -> & ->)]%Hfrom; [|right; exists id'; split_and!; [by right|done..]].
    apply lookup_insert_Some in Hk as [[<- <-]|[_ Hk]]; [right; exists id; split_and!; [by left|done..]|by left].
  - intros id' [->|Hid]%elem_of_cons; [|by apply Hall]. apply Hkeep. by rewrite lookup_insert_eq.
Qed.

(** What the reset leaves of the tables. *)
Record was_reset (now : Timestamp) (draw : Uuid → Uuid) (environment : string) t t' : Prop := {
  rs_rows : it_incidents t' = reset_incident now environment <$> it_incidents t;
  rs_entities : it_entities t' = it_entities t;
  rs_evidence : it_evidence t' = it_evidence t;
  rs_diagnoses : it_diagnoses t' = it_diagnoses t;
  rs_diagnosis_entities : it_diagnosis_entities t' = it_diagnosis_entities t;
  rs_diagnosis_evidence : it_diagnosis_evidence t' = it_diagnosis_evidence t;
  rs_kept k r : it_timeline t !! k = Some r → it_timeline t' !! k = Some r;
  rs_from k r : it_timeline t' !! k = Some r → it_timeline t !! k = Some r ∨
    ∃ id, is_Some (it_incidents t !! id) ∧ k = draw id ∧ r = mk_stored_event id (stored_event (reset_event now))
      ∧ ∀ row, it_incidents t !! id = Some row → unfinished environment row;
  rs_closed id row : it_incidents t !! id = Some row → unfinished environment row →
    it_timeline t' !! draw id = Some (mk_stored_event id (stored_event (reset_event now)));
  rs_candidates : notification_candidates environment t' = []
}.

Lemma reset_state_spec now draw environment inv et t sr et' t' :
  reset_state now draw environment inv et t = inr (sr, et', t') →
  et' = reset_engine now environment inv et ∧ was_reset now draw environment t t'.
Proof.
  unfold reset_state. case_bool_decide; [done|]. destruct (try_fold _ _ _) as [err|m] eqn:Hm; cbn [sum_bind]; [done|].
  intros [= _ <- <-]. split; [done|].
  assert (∀ id, id ∈ map fst (filter (λ r : Uuid * StoredIncident, unfinished environment r.2) (hash_iter (it_incidents t)))
    ↔ ∃ row, it_incidents t !! id = Some row ∧ unfinished environment row) as Hids.
  { intros id. rewrite list_elem_of_fmap. split.
    - intros ([id' row] & -> & [Hu Hin]%list_elem_of_filter). apply elem_of_hash_iter in Hin. by exists row.
    - intros (row & Hrow & Hu). exists (id, row). split; [done|]. apply list_elem_of_filter. split; [done|]. by apply elem_of_hash_iter. }
  destruct (insert_reset_events _ _ _ _ _ Hm) as (Hkeep & Hfrom & Hall).
  split; cbn [it_incidents it_entities it_evidence it_diagnoses it_diagnosis_entities it_diagnosis_evidence it_timeline it_candidates
    set_candidates set_incident_rows set_timeline_rows]; try done.
  - intros k r [Hk|(id & Hid & -> & ->)]%Hfrom; [by left|right]. apply Hids in Hid as (row & Hrow & Hu). exists id.
    split_and!; [by eexists|done|done|]. intros row' Hrow'. congruence.
  - intros id row Hrow Hu. apply Hall, Hids. by exists row.
  - unfold notification_candidates. rewrite filter_none; [done|]. intros [k [id n]] Hin Hk. apply elem_of_hash_iter in Hin.
    cbn in Hin, Hk. apply map_lookup_filter_Some in Hin as [_ Hno]. by destruct Hno.
Qed.

Lemma row_unfinished environment i :
  unfinished environment (row_of_incident environment i) ↔
  status_is_active (incident_status i) = true ∨ incident_status i = Status_Suppressed.
Proof. unfold unfinished. cbn. rewrite !elem_of_cons, elem_of_nil. destruct (incident_status i); cbn; naive_solver. Qed.

Lemma reset_held now draw environment t t' i :
  tables_ok t → was_reset now draw environment t t' → held_as_saved environment t i →
  ∃ i', incident_id i' = incident_id i ∧ held_as_saved environment t' i'.
Proof.
  intros Hok Hw [Hwf Hplain Hids [Krow Kroles Kev Kds Kdr Kde Ktl]].
  destruct (decide (unfinished environment (row_of_incident environment i))) as [Hu|Hu].
  - exists (closed now i). split; [done|]. split.
    + destruct Hwf. split; try done.
    + apply push_event_plain; [done|exact Hplain].
    + done.
    + split; unfold row_of_diagnosis; cbn [closed push_event with_ended_at with_status incident_id incident_affected incident_roots
        incident_evidence incident_diagnoses timeline]; rewrite ?(rs_rows _ _ _ _ _ Hw), ?(rs_entities _ _ _ _ _ Hw),
        ?(rs_evidence _ _ _ _ _ Hw), ?(rs_diagnoses _ _ _ _ _ Hw), ?(rs_diagnosis_entities _ _ _ _ _ Hw),
        ?(rs_diagnosis_evidence _ _ _ _ _ Hw); try done.
      * rewrite lookup_fmap, Krow. cbn [fmap option_fmap option_map]. unfold reset_incident. by rewrite decide_True.
      * intros ev. rewrite map_app, elem_of_app, <- Ktl. cbn [map]. rewrite list_elem_of_singleton. split.
        -- intros [k Hk]. apply (rs_from _ _ _ _ _ Hw) in Hk as [Hk|(id & _ & _ & Heq & _)]; [left; by exists k|right]. by injection Heq.
        -- intros [[k Hk]| ->]; [exists k; by apply (rs_kept _ _ _ _ _ Hw)|].
           exists (draw (incident_id i)). by apply (rs_closed _ _ _ _ _ Hw _ _ Krow).
  - exists i. split; [done|]. split; [done..|]. split; rewrite ?(rs_rows _ _ _ _ _ Hw), ?(rs_entities _ _ _ _ _ Hw),
      ?(rs_evidence _ _ _ _ _ Hw), ?(rs_diagnoses _ _ _ _ _ Hw), ?(rs_diagnosis_entities _ _ _ _ _ Hw),
      ?(rs_diagnosis_evidence _ _ _ _ _ Hw); try done.
    + rewrite lookup_fmap, Krow. cbn [fmap option_fmap option_map]. unfold reset_incident. by rewrite decide_False.
    + intros ev. rewrite <- Ktl. split; intros [k Hk]; exists k; [|by apply (rs_kept _ _ _ _ _ Hw)].
      apply (rs_from _ _ _ _ _ Hw) in Hk as [Hk|(id & _ & _ & Heq & Hall)]; [done|].
      injection Heq as <- _. by destruct Hu; apply Hall.
Qed.

Lemma reset_active now draw environment t t' id r :
  was_reset now draw environment t t' → it_incidents t' !! id = Some r → si_environment r = environment → ¬ stored_active r.
Proof.
  intros Hw. rewrite (rs_rows _ _ _ _ _ Hw), lookup_fmap. destruct (it_incidents t !! id) as [r0|]; cbn; [|done].
  intros [= <-]. unfold reset_incident. case_decide as Hu; cbn [si_environment].
  - intros _ Hact. unfold stored_active in Hact. cbn in Hact. rewrite !elem_of_cons, elem_of_nil in Hact. naive_solver.
  - intros Henv Hact. apply Hu. split; [done|]. revert Hact. unfold stored_active. rewrite !elem_of_cons. tauto.
Qed.

Lemma synced_reset now draw environment reset inv et e t sr et' t' :
  draws_apart draw → synced environment reset e t → reset_state now draw environment inv et t = inr (sr, et', t') →
  synced environment (et_resets et' !! environment) incident_engine_new t'.
Proof.
  intros Hdraw Hs [-> Hw]%reset_state_spec. pose proof (sy_ok _ _ _ _ Hs) as Hok.
  assert (∀ id, is_Some (it_incidents t' !! id) ↔ is_Some (it_incidents t !! id)) as Hrows.
  { intros id. by rewrite (rs_rows _ _ _ _ _ Hw), lookup_fmap, fmap_is_Some. }
  split.
  - split.
    + intros k x r. rewrite (rs_entities _ _ _ _ _ Hw), Hrows. apply (ok_entities _ Hok).
    + intros k o. rewrite (rs_evidence _ _ _ _ _ Hw), Hrows. apply (ok_evidence _ Hok).
    + intros k x r. rewrite (rs_diagnosis_entities _ _ _ _ _ Hw), (rs_diagnoses _ _ _ _ _ Hw). apply (ok_diagnosis_entities _ Hok).
    + intros k o. rewrite (rs_diagnosis_evidence _ _ _ _ _ Hw), (rs_diagnoses _ _ _ _ _ Hw). apply (ok_diagnosis_evidence _ Hok).
    + intros k r [Hk|(id & Hid & -> & -> & _)]%(rs_from _ _ _ _ _ Hw); apply Hrows; [by apply (ok_timeline _ Hok k)|done].
    + intros k r i ev [Hk|(id & Hid & -> & -> & _)]%(rs_from _ _ _ _ _ Hw) Hp Heq; [by apply (ok_timeline_keys _ Hok k)|].
      by destruct (Hdraw id i ev Hp).
  - intros id r. rewrite (rs_rows _ _ _ _ _ Hw), lookup_fmap. destruct (it_incidents t !! id) as [r0|] eqn:Hr0; cbn; [|done].
    intros [= <-] Henv. destruct (sy_rows _ _ _ _ Hs id r0 Hr0) as (i & <- & Hi).
    { unfold reset_incident in Henv. by case_decide. }
    destruct (reset_held now draw environment t t' i Hok Hw Hi) as (i' & Hid & Hi'). by exists i'.
  - intros fp i. cbn. by rewrite lookup_empty.
  - intros id r Hr Henv Hact. by destruct (reset_active now draw environment t t' id r Hw Hr Henv).
  - intros fp i. cbn. by rewrite lookup_empty.
Qed.

(** ** Histories *)

(** What a controller and its database go through: passes that are saved,
    restarts, and resets while no controller runs. *)
Inductive incident_history (environment : string) : option Timestamp → IncidentEngine → IncidentTables → Prop :=
  | history_start t : tables_ok t → (∀ id r, it_incidents t !! id = Some r → si_environment r ≠ environment) →
      incident_history environment None incident_engine_new t
  | history_pass (P : IncidentPass) reset e t ds g recovered inv e' u t' :
      incident_history environment reset e t → drawn_fresh reset t ds →
      reconcile_verified e ds g recovered = Some (e', u) → save_incidents inv environment (update_all u) t = inr t' →
      incident_history environment reset e' t'
  | history_restart now reset e t :
      incident_history environment reset e t → incident_history environment reset (resume now reset environment t) t
  | history_reset now draw inv et reset e t sr et' t' :
      incident_history environment reset e t → draws_apart draw →
      reset_state now draw environment inv et t = inr (sr, et', t') →
      incident_history environment (et_resets et' !! environment) incident_engine_new t'.

Lemma history_synced `{!TimelineLaws} environment reset e t : incident_history environment reset e t → synced environment reset e t.
Proof.
  induction 1 as [t Hok Hnone|P reset e t ds g recovered inv e' u t' _ IH Hfresh Hr Hsave|now reset e t _ IH|
    now draw inv et reset e t sr et' t' _ IH Hdraw Hreset].
  - split; [done|..].
    + intros id r Hr Henv. by destruct (Hnone id r Hr).
    + intros fp i. cbn. by rewrite lookup_empty.
    + intros id r Hr Henv. by destruct (Hnone id r Hr).
    + intros fp i. cbn. by rewrite lookup_empty.
  - by apply (synced_pass environment reset e t ds g recovered IH Hfresh inv e' u).
  - by apply synced_restart with e.
  - by apply (synced_reset now draw environment reset inv et e t sr).
Qed.
End synced.

(** C31.  A restart forgets no incident and invents none.  After any history of
    saved passes, restarts and resets, a controller that starts holds, under
    every fingerprint, the very active incident the running one holds there:
    the same identity, severity, status and start, the same entities, evidence
    and timeline, and the same diagnoses. *)
Theorem restart_keeps_incidents `{JsonApi} `{UuidApi} `{TimeApi} `{HashIter} `{!TimelineLaws}
    environment reset (e : IncidentEngine) (t : IncidentTables) now fp :
  incident_history environment reset e t →
  let e' := resume now reset environment t in
  (∀ i, incidents e !! fp = Some i → status_is_active (incident_status i) = true →
     ∃ j, incidents e' !! fp = Some j ∧ reloaded i j)
  ∧ (∀ j, incidents e' !! fp = Some j → status_is_active (incident_status j) = true →
     ∃ i, incidents e !! fp = Some i ∧ reloaded i j).
Proof.
  intros Hs%history_synced. cbn zeta.
  assert (∀ j, incidents (resume now reset environment t) !! fp = Some j → status_is_active (incident_status j) = true →
     ∃ i, incidents e !! fp = Some i ∧ reloaded i j) as Hback.
  { intros j (Hfp & id & r & Hr & (Henv & _) & ->)%resume_from Hact.
    destruct (hydrate_held _ _ _ _ _ _ Hs Hr Henv) as (_ & i' & <- & Hi' & Hl').
    pose proof (kept_row _ _ _ (hs_kept _ _ _ Hi')) as Hrow. rewrite Hr in Hrow. injection Hrow as ->.
    destruct (sy_active _ _ _ _ Hs _ _ Hr Henv) as (fp0 & i0 & Hi0 & Hid0).
    { apply stored_active_status. by rewrite <- (rl_status _ _ Hl'). }
    destruct (sy_held _ _ _ _ Hs fp0 i0 Hi0) as [Hfp0 Hh0].
    pose proof (kept_row _ _ _ (hs_kept _ _ _ Hh0)) as Hrow. rewrite Hid0, Hr in Hrow. injection Hrow as Hf Hst Hsev Hsta Hend.
    exists i0. split; [cbn in Hfp; congruence|]. rewrite <- Hid0.
    replace (row_of_incident environment i') with (row_of_incident environment i0) by (unfold row_of_incident; congruence).
    apply kept_reloaded; apply Hh0. }
  split; [|done]. intros i Hi Hact. destruct (sy_held _ _ _ _ Hs fp i Hi) as [Hfp Hh].
  pose proof (kept_row _ _ _ (hs_kept _ _ _ Hh)) as Hrow.
  destruct (resume_best now reset environment t _ _ Hrow) as (j & Hj & Hja).
  { split_and!; [done|by apply (sy_since _ _ _ _ Hs fp)|left; by apply stored_active_status]. }
  cbn [si_fingerprint row_of_incident] in Hj. rewrite Hfp in Hj. exists j. split; [done|].
  assert (status_is_active (incident_status j) = true) as Hja'.
  { apply Hja. cbn [hydrate_incident incident_status row_of_incident si_status]. by rewrite incident_status_roundtrip. }
  destruct (Hback j Hj Hja') as (i' & Hi' & Hl). rewrite Hi in Hi'. by injection Hi' as ->.
Qed.

(** A reset forgets the monitoring state and nothing else.  Afterwards no
    incident of the environment is active, in the tables or in a controller
    that starts, none of its notifications is pending, and no entity state or
    stream of it is left; every incident is still there with its evidence, its
    diagnoses and its timeline, and so are all transitions and deliveries. *)
Theorem reset_clears_monitoring `{JsonApi} `{UuidApi} `{TimeApi} `{HashIter} `{StreamCodec}
    now draw environment inv et (t : IncidentTables) sr et' t' later :
  reset_state now draw environment inv et t = inr (sr, et', t') →
  load_active_incidents environment t' = [] ∧ notification_candidates environment t' = []
  ∧ (∀ fp i, incidents (resume later (et_resets et' !! environment) environment t') !! fp = Some i →
       status_is_active (incident_status i) = false)
  ∧ load_entity_states later inv environment et' = ∅ ∧ load_state_streams environment et' = inr []
  ∧ et_resets et' !! environment = Some (to_micros now) ∧ et_transitions et' = et_transitions et
  ∧ it_deliveries t' = it_deliveries t
  ∧ ∀ id r, it_incidents t !! id = Some r → ∃ r', it_incidents t' !! id = Some r' ∧
      let i := hydrate_incident t (id, r) in let i' := hydrate_incident t' (id, r') in
      incident_evidence i' = incident_evidence i ∧ incident_diagnoses i' = incident_diagnoses i
      ∧ incident_fingerprint i' = incident_fingerprint i ∧ incident_started_at i' = incident_started_at i
      ∧ ∀ ev, ev ∈ timeline i → ev ∈ timeline i'.
Proof.
  intros Hreset. pose proof Hreset as Hdel. apply reset_state_spec in Hreset as [-> Hw]. split_and!.
  - unfold load_active_incidents, newest_started. rewrite filter_none; [done|]. intros [id r] Hr [Henv Hact].
    apply elem_of_hash_iter in Hr. cbn in Hr. by apply (reset_active now draw environment t t' id r Hw).
  - apply (rs_candidates _ _ _ _ _ Hw).
  - intros fp i (_ & id & r & Hr & (Henv & _ & Hst) & ->)%resume_from.
    destruct Hst as [Hact|[Hres _]]; [by destruct (reset_active now draw environment t t' id r Hw Hr Henv)|].
    cbn [hydrate_incident incident_status]. by rewrite Hres.
  - unfold load_entity_states. rewrite filter_none; cbn [foldl].
    + apply map_eq. intros x. rewrite map_lookup_imap, lookup_empty. cbn [et_overall reset_engine].
      rewrite map_lookup_filter. destruct (et_overall et !! x) as [o|]; [|done]. cbn.
      destruct (decide (in_environment inv environment x)); case_guard; done.
    + intros [[x c] r] Hx Hin. apply elem_of_hash_iter in Hx. cbn in Hx. by apply map_lookup_filter_Some in Hx as [_ Hno].
  - unfold load_state_streams. cbn [et_streams reset_engine]. by rewrite lookup_delete_eq.
  - cbn. by rewrite lookup_insert_eq.
  - done.
  - revert Hdel. unfold reset_state. case_bool_decide; [done|]. destruct (try_fold _ _ _); cbn [sum_bind]; [done|]. by intros [= _ <-].
  - intros id r Hr. exists (reset_incident now environment r). rewrite (rs_rows _ _ _ _ _ Hw), lookup_fmap, Hr. split; [done|].
    cbn zeta. cbn [hydrate_incident incident_evidence incident_diagnoses incident_fingerprint incident_started_at timeline].
    rewrite (rs_evidence _ _ _ _ _ Hw). split_and!; [done| | | |].
    + unfold diagnosis_rows. rewrite (rs_diagnoses _ _ _ _ _ Hw). apply list_fmap_ext. intros n [k d] _.
      cbn [hydrate_diagnosis]. by rewrite (rs_diagnosis_entities _ _ _ _ _ Hw), (rs_diagnosis_evidence _ _ _ _ _ Hw).
    + unfold reset_incident. by case_decide.
    + unfold reset_incident. by case_decide.
    + intros ev. unfold timeline_rows. rewrite !sort_by_key_perm, !list_elem_of_fmap.
      intros ([k x] & -> & [Hid Hin]%list_elem_of_filter). exists (k, x). split; [done|]. apply list_elem_of_filter.
      split; [done|]. apply elem_of_hash_iter. apply elem_of_hash_iter in Hin. by apply (rs_kept _ _ _ _ _ Hw).
Qed.

(** ** A sample history *)

Definition sample_pass : IncidentPass := {| fresh_id fp := Npos (encode fp); clock _ := 7000%Z |}.

Definition sample_run : option (IncidentEngine * IncidentUpdate) :=
  reconcile_verified (P := sample_pass) incident_engine_new [sample_diagnosis 1] graph_new (λ _, (false, false)).
Definition sample_engine : IncidentEngine := match sample_run with Some (e, _) => e | None => incident_engine_new end.
Definition sample_update : IncidentUpdate := match sample_run with Some (_, u) => u | None => update_default end.

Lemma sample_reconciled :
  reconcile_verified (P := sample_pass) incident_engine_new [sample_diagnosis 1] graph_new (λ _, (false, false))
    = Some (sample_engine, sample_update).
Proof.
  assert (match sample_run with Some _ => true | None => false end = true) as Hok by (vm_compute; reflexivity).
  unfold sample_engine, sample_update. change (sample_run = Some (match sample_run with Some (e, _) => e | None => incident_engine_new end,
    match sample_run with Some (_, u) => u | None => update_default end)).
  destruct sample_run as [[e u]|]; [reflexivity|discriminate Hok].
Qed.

Definition history_tables : IncidentTables :=
  match save_incidents sample_inventory "lab" (update_all sample_update) empty_incident_tables with
  | inr t => t | inl _ => empty_incident_tables
  end.

Lemma sample_update_saved :
  save_incidents sample_inventory "lab" (update_all sample_update) empty_incident_tables = inr history_tables.
Proof.
  assert (match save_incidents sample_inventory "lab" (update_all sample_update) empty_incident_tables with inr _ => true | inl _ => false end = true)
    as Hok by (vm_compute; reflexivity).
  unfold history_tables. destruct (save_incidents _ _ _ _); [discriminate Hok|reflexivity].
Qed.

Lemma sample_history : incident_history "lab" None sample_engine history_tables.
Proof.
  apply (history_pass "lab" sample_pass None incident_engine_new empty_incident_tables [sample_diagnosis 1] graph_new
    (λ _, (false, false)) sample_inventory sample_engine sample_update history_tables).
  - apply history_start; [apply empty_incident_tables_ok|]. intros id r. cbn. by rewrite lookup_empty.
  - split.
    + intros fp. cbn. by rewrite lookup_empty.
    + intros a b Heq. cbn in Heq. injection Heq as Heq. by apply (inj encode).
    + intros d _. cbn. by rewrite lookup_empty.
    + apply NoDup_singleton.
    + intros fp. cbn [default from_option]. unfold since_reset. cbn. by destruct (pretty _).
  - apply sample_reconciled.
  - apply sample_update_saved.
Qed.

Lemma sample_incident_active :
  ∃ i, incidents sample_engine !! fingerprint (sample_diagnosis 1) = Some i ∧ status_is_active (incident_status i) = true.
Proof.
  assert (match incidents sample_engine !! fingerprint (sample_diagnosis 1) with
          | Some i => status_is_active (incident_status i) | None => false end = true) as Hok by (vm_compute; reflexivity).
  destruct (incidents sample_engine !! fingerprint (sample_diagnosis 1)) as [i|]; [by exists i|discriminate Hok].
Qed.

Lemma restart_keeps_incidents_witness :
  incident_history "lab" None sample_engine history_tables
  ∧ ∃ i j, incidents sample_engine !! fingerprint (sample_diagnosis 1) = Some i
      ∧ incidents (resume 8000 None "lab" history_tables) !! fingerprint (sample_diagnosis 1) = Some j ∧ reloaded i j.
Proof.
  split; [apply sample_history|]. destruct sample_incident_active as (i & Hi & Hact).
  destruct (restart_keeps_incidents "lab" None sample_engine history_tables 8000 (fingerprint (sample_diagnosis 1)) sample_history)
    as [Hkeep _].
  destruct (Hkeep i Hi Hact) as (j & Hj & Hl). exists i, j. split_and!; [exact Hi|exact Hj|exact Hl].
Defined.

(** What a stored batch of streams is read back as is of no concern here. *)
Definition blank_stream_codec : StreamCodec := {| encode_streams _ := inr ""; decode_streams _ := inr [] |}.

Definition empty_engine_tables : EngineTables := mk_engine_tables ∅ ∅ ∅ ∅ ∅.

Definition sample_reset : StoreError + (StateReset * EngineTables * IncidentTables) :=
  reset_state 9000 (λ id, (2 * id)%N) "lab" sample_inventory empty_engine_tables history_tables.

Lemma sample_reset_done : ∃ sr et' t', sample_reset = inr (sr, et', t').
Proof.
  assert (match sample_reset with inr _ => true | inl _ => false end = true) as Hok by (vm_compute; reflexivity).
  destruct sample_reset as [|[[sr et'] t']]; [discriminate Hok|by exists sr, et', t'].
Qed.

Lemma reset_clears_monitoring_witness :
  ∃ sr et' t', sample_reset = inr (sr, et', t') ∧ load_active_incidents "lab" t' = []
    ∧ ∀ fp i, incidents (resume 9500 (et_resets et' !! "lab") "lab" t') !! fp = Some i → status_is_active (incident_status i) = false.
Proof.
  destruct sample_reset_done as (sr & et' & t' & Hr). exists sr, et', t'.
  destruct (reset_clears_monitoring (H3 := blank_stream_codec) 9000 (λ id, (2 * id)%N) "lab" sample_inventory empty_engine_tables history_tables
    sr et' t' 9500 Hr) as (H1 & _ & H2 & _).
  split_and!; [exact Hr|exact H1|exact H2].
Defined.
