(* ===== verification/Correlate.v ===== *)
(** * The diagnosis pass of the controller

    [src/controller/diagnose.rs]: what of the stored evidence still counts, the
    rules run on it, the labels they imply, and the incidents a pass folds its
    conclusions into once recovery has been verified. *)

From S2P Require Import Concrete.
From S2P Require Export Probes IncidentStore Rules.

Local Open Scope string_scope.

(** The clocks one look at the evidence reads: what [expire] is told, what the
    engine reads, each query, the freshness test, the states loaded; and the
    identifiers of the transitions. *)
Record Clocks := mk_clocks {
  ck_expire : Timestamp;
  ck_engine : Timestamp;
  ck_query : EntityId → Timestamp;
  ck_now : Timestamp;
  ck_load : Timestamp;
  ck_fresh : EntityId → StateComponent → Uuid
}.

Definition outcome_bind {A B} (f : A → outcome B) (o : outcome A) : outcome B :=
  match o with Success a => f a | Failure e => Failure e | Panic => Panic end.

Definition of_store {A} (r : StoreError + A) : outcome A :=
  match r with inl e => Failure e | inr a => Success a end.

Definition of_panicking {A} (o : option A) : outcome A :=
  match o with Some a => Success a | None => Panic end.

Section correlate.
Context `{J : JsonApi} `{U : UuidApi} `{T : TimeApi} `{CH : ChronoApi} `{HI : HashIter} `{SC : StreamCodec}.
Context (julianday_within : Timestamp → Timestamp → Z → bool).

(** What the code knows of itself: the part of [Controller] a pass reads and
    writes, with the tables of its database. *)
Record Correlator := mk_correlator {
  co_environment : string;
  co_schedules : ProbeSchedules;
  co_inventory_interval : StdDuration;
  co_hostname : option string;
  co_engine : StateEngine;
  co_incidents : IncidentEngine;
  co_inventory : InventoryTables;
  co_rows : list ObservationRow;
  co_tables : EngineTables;
  co_incident_tables : IncidentTables
}.

Definition with_engine (eng : StateEngine) (c : Correlator) : Correlator :=
  mk_correlator (co_environment c) (co_schedules c) (co_inventory_interval c) (co_hostname c) eng (co_incidents c)
    (co_inventory c) (co_rows c) (co_tables c) (co_incident_tables c).
Definition with_engine_tables (t : EngineTables) (c : Correlator) : Correlator :=
  mk_correlator (co_environment c) (co_schedules c) (co_inventory_interval c) (co_hostname c) (co_engine c) (co_incidents c)
    (co_inventory c) (co_rows c) t (co_incident_tables c).
Definition with_incidents (e : IncidentEngine) (t : IncidentTables) (c : Correlator) : Correlator :=
  mk_correlator (co_environment c) (co_schedules c) (co_inventory_interval c) (co_hostname c) (co_engine c) e
    (co_inventory c) (co_rows c) (co_tables c) t.

(** [Controller::observer_entity] ([src/controller/mod.rs]). *)
Definition observer_of (c : Correlator) : option EntityId :=
  (λ h, entity_id {| key_environment := co_environment c; key_entity_type := Entity_Host; key_canonical_name := h |})
    <$> co_hostname c.

(** ** Fresh evidence *)

(** [let horizons = ..; let fallback = ..]. *)
Definition windows_of (c : Correlator) : option (gmap string Duration * Duration) :=
  horizons ← freshness_horizons (co_schedules c);
  sweep ← std_mul (co_inventory_interval c) STALE_AFTER_INTERVALS;
  Some (horizons, window_duration sweep).

(** The closure passed to [expire]. *)
Definition stream_horizon (c : Correlator) (w : gmap string Duration * Duration) (s : StateStream) : Duration :=
  horizon_for (stream_probe s) (stream_observer s) (observer_of c) w.1 w.2.

(** What of an entity's latest observations is evidence about now. *)
Definition counts_now (c : Correlator) (w : gmap string Duration * Duration) (eng : StateEngine) (now : Timestamp)
    (e : EntityId) (o : Observation) : Prop :=
  probe_enabled eng e (probe_id o) = true
  ∧ (now - finished_at o ≤ horizon_for (probe_id o) (observer_entity o) (observer_of c) w.1 w.2)%Z.

#[export] Instance counts_now_dec c w eng now e o : Decision (counts_now c w eng now e o).
Proof. unfold counts_now. apply _. Defined.

Definition fresh_observations (k : Clocks) (c : Correlator) (w : gmap string Duration * Duration) (eng : StateEngine)
    (e : ManagedEntity) : list Observation :=
  filter (counts_now c w eng (ck_now k) (entity_eid e))
    (latest_observations_since julianday_within (ck_query k (entity_eid e)) (entity_eid e) (observation_cutoff eng) (co_rows c)).

(** The loop over the inventory that fills the index. *)
Definition current_index (k : Clocks) (c : Correlator) (w : gmap string Duration * Duration) (eng : StateEngine)
    (inv : Inventory) : ObservationIndex :=
  foldl (λ ix e, foldl index_insert ix (fresh_observations k c w eng e)) observation_index_new (entities inv).

(** [states.map(|s| (s.entity, s.clone())).collect()]. *)
Definition collect_states (l : list EntityState) : gmap EntityId EntityState :=
  foldl (λ m s, <[ state_entity s := s ]> m) ∅ l.

(** ** Diagnosing *)

(** The context a pass gives its rules. *)
Definition pass_context (k : Clocks) (c : Correlator) (w : gmap string Duration * Duration) (inv : Inventory) : DiagnosisContext :=
  let current := (expire (ck_engine k) (ck_fresh k) (ck_expire k) (stream_horizon c w) (co_engine c)).1 in
  let live := collect_states (hash_values (states current)) in
  {| ctx_environment := co_environment c; ctx_inventory := inv;
     ctx_states := if decide (live = ∅) then load_entity_states (ck_load k) (co_inventory c) (co_environment c) (co_tables c)
                   else live;
     ctx_observations := current_index k c w current inv |}.

(** [Controller::diagnose]: the engine is a clone. *)
Definition controller_diagnose (rules : DiagnosisEngine) (k : Clocks) (c : Correlator) : outcome (list Diagnosis) :=
  outcome_bind (λ inv, outcome_bind (λ w, Success (diagnose rules (pass_context k c w inv))) (of_panicking (windows_of c)))
    (of_store (load_inventory (co_environment c) (co_inventory c))).

(** The loop that collects the labels. *)
Definition add_label (label : string) (m : gmap EntityId (list string)) (e : EntityId) : gmap EntityId (list string) :=
  <[ e := (default [] (m !! e) ++ [label])%list ]> m.

Definition implied_labels (ds : list Diagnosis) : gmap EntityId (list string) :=
  foldl (λ m d, match classification_for d with
                | Some label => foldl (add_label label) m (affected_entities d)
                | None => m
                end) ∅ ds.

(** The loop that writes them. *)
Definition classify_one (implied : gmap EntityId (list string)) (eng : StateEngine) (e : EntityId) : StateEngine :=
  match states eng !! e with
  | Some st => with_states (<[ e := set_classifications (default [] (implied !! e)) st ]> (states eng)) eng
  | None => eng
  end.

Definition classify_states (implied : gmap EntityId (list string)) (eng : StateEngine) : StateEngine :=
  foldl (classify_one implied) eng (map state_entity (hash_values (states eng))).

(** [diagnose_and_classify_inner]: [k] is about its own [expire], [kd] about
    that of [diagnose]. *)
Definition diagnose_and_classify_inner (rules : DiagnosisEngine) (k kd : Clocks) (c : Correlator) :
    outcome (list Diagnosis * Correlator) :=
  outcome_bind (λ w,
    let '(eng, transitions) := expire (ck_engine k) (ck_fresh k) (ck_expire k) (stream_horizon c w) (co_engine c) in
    let c := with_engine eng c in
    outcome_bind (λ ds,
      let eng := classify_states (implied_labels ds) (co_engine c) in
      outcome_bind (λ t, Success (ds, with_engine_tables t (with_engine eng c)))
        (of_store (save_engine (co_inventory c) (co_environment c) eng transitions (co_tables c))))
      (controller_diagnose rules kd c))
    (of_panicking (windows_of c)).

(** [diagnose_and_classify]: an error restores the engine. *)
Definition diagnose_and_classify (rules : DiagnosisEngine) (k kd : Clocks) (c : Correlator) :
    outcome (list Diagnosis) * Correlator :=
  match diagnose_and_classify_inner rules k kd c with
  | Success (ds, c') => (Success ds, c')
  | Failure e => (Failure e, c)
  | Panic => (Panic, c)
  end.

(** ** Verifying recovery *)

(** [observation_by_id] ([src/persistence/observations.rs]). *)
Definition observation_by_id (id : ObservationId) (rows : list ObservationRow) : option Observation :=
  row_observation <$> head (filter (λ r, observation_id (row_observation r) = id) rows).

(** The loop over the evidence: one that is gone leaves none. *)
Fixpoint originals_from (rows : list ObservationRow) (ids : list ObservationId) (acc : list Observation) : list Observation :=
  match ids with
  | [] => acc
  | id :: ids => match observation_by_id id rows with
                 | Some o => originals_from rows ids (acc ++ [o])%list
                 | None => []
                 end
  end.

Definition originals_of (rows : list ObservationRow) (i : Incident) : list Observation :=
  originals_from rows (incident_evidence i) [].

(** What has to be disproved: conclusive, and not the news of a reboot. *)
Definition counts_as_evidence (o : Observation) : bool :=
  probe_is_conclusive (status o) && negb (String.eqb (probe_id o) PROBE_BOOT).

Definition selected_of (root_only : bool) (i : Incident) (originals : list Observation) : list Observation :=
  match filter (λ o, counts_as_evidence o && (negb root_only || bool_decide (target_entity o ∈ incident_roots i))) originals with
  | [] => filter (λ o, Is_true (counts_as_evidence o)) originals
  | l => l
  end.

Section verdict.
Variables (eng : StateEngine) (latest : ObservationIndex) (states_ : gmap EntityId EntityState) (inv : Inventory)
  (ds : list Diagnosis).

(** A diagnosis still names one of the incident's entities. *)
Definition still_diagnosed (root_only : bool) (i : Incident) : bool :=
  existsb (λ d, existsb (λ e, if root_only then bool_decide (e ∈ incident_roots i)
                              else bool_decide (e ∈ incident_affected i) || bool_decide (e ∈ incident_roots i))
                  (affected_entities d)) ds.

(** The views of other observers, and what a recovered quorum of them is. *)
Definition remote_views (old : Observation) : list Observation :=
  filter (λ o, Is_true (bool_decide (is_Some (observer_entity o)) && bool_decide (observer_entity o ≠ Some (target_entity old))
                && probe_is_conclusive (status o)))
    (index_all_of latest (target_entity old) (probe_id old)).

Definition recovered_view (old o : Observation) : bool :=
  bool_decide (status o = Probe_Ok) && (finished_at old <? finished_at o)%Z && confirms_health eng o.

Definition quorum_recovered (old : Observation) : bool :=
  (2 <=? length (remote_views old))%nat && forallb (recovered_view old) (remote_views old).

(** A new observation that answers an old one. *)
Definition answers (old new : Observation) : bool :=
  (bool_decide (observer_entity new = observer_entity old) || bool_decide (status old = Probe_Ok))
  && confirms_health eng new && bool_decide (status new = Probe_Ok)
  && ((finished_at old <? finished_at new)%Z
      || (negb (probe_is_bad (status old)) && negb (bool_decide (status old = Probe_Degraded)))).

Definition disproved (i : Incident) (old : Observation) : bool :=
  if String.eqb (probe_id old) NETWORK_PROBE && has_diagnosis i HOST_UNREACHABLE then quorum_recovered old
  else existsb (answers old) (index_all_of latest (target_entity old) (probe_id old)).

(** An entity is well, or at least not known to be ill. *)
Definition entity_well (selected : list Observation) (e : EntityId) : bool :=
  match states_ !! e with
  | Some s => bool_decide (overall s = Healthy)
              || (bool_decide (overall s = Unknown) && existsb (λ o, bool_decide (target_entity o = e)) selected)
  | None => match inv_entities inv !! e with
            | Some entity => bool_decide (entity_kind entity = Entity_Service)
            | None => false
            end
  end.

(** The closure [verified]. *)
Definition verified (rows : list ObservationRow) (i : Incident) (root_only : bool) : bool :=
  match originals_of rows i with
  | [] => false
  | originals =>
      let selected := selected_of root_only i originals in
      negb (match selected with [] => true | _ => false end)
      && negb (still_diagnosed root_only i)
      && forallb (disproved i) selected
      && forallb (entity_well selected)
           (filter (λ e, Is_true (negb root_only || bool_decide (e ∈ incident_roots i)))
              (incident_affected i ++ incident_roots i)%list)
  end.
End verdict.

(** ** Correlating *)

(** The loop over the active incidents nothing diagnoses any more; a pass looks
    its verdicts up by identifier. *)
Definition recovery_verdicts (rows : list ObservationRow) (eng : StateEngine) (latest : ObservationIndex) (inv : Inventory)
    (ds : list Diagnosis) (e : IncidentEngine) : gmap Uuid (bool * bool) :=
  let states_ := collect_states (hash_values (states eng)) in
  let diagnosed : gset string := list_to_set (map fingerprint ds) in
  foldl (λ m i, <[ incident_id i := (verified eng latest states_ inv ds rows i true, verified eng latest states_ inv ds rows i false) ]> m)
    ∅ (filter (λ i, incident_fingerprint i ∉ diagnosed) (engine_active e)).

Definition recovery_verdict (m : gmap Uuid (bool * bool)) (i : Incident) : bool * bool := default (false, false) (m !! incident_id i).

Context `{IP : IncidentPass}.

(** What follows [diagnose_and_classify] in [diagnose_and_correlate]. *)
Definition correlate (kc : Clocks) (ds : list Diagnosis) (c : Correlator) : outcome (IncidentUpdate * Correlator) :=
  outcome_bind (λ inv, outcome_bind (λ w,
    let latest := current_index kc c w (co_engine c) inv in
    let verdicts := recovery_verdicts (co_rows c) (co_engine c) latest inv ds (co_incidents c) in
    outcome_bind (λ '(candidate, update),
      outcome_bind (λ t, Success (update, with_incidents candidate t c))
        (of_store (save_incidents (co_inventory c) (co_environment c) (update_all update) (co_incident_tables c))))
      (of_panicking (reconcile_verified (co_incidents c) ds (inv_graph inv) (recovery_verdict verdicts))))
    (of_panicking (windows_of c)))
    (of_store (load_inventory (co_environment c) (co_inventory c))).

(** [diagnose_and_correlate]: an error after the classification keeps it. *)
Definition diagnose_and_correlate (rules : DiagnosisEngine) (k kd kc : Clocks) (c : Correlator) :
    outcome (list Diagnosis * IncidentUpdate) * Correlator :=
  match diagnose_and_classify rules k kd c with
  | (Success ds, c') =>
      match correlate kc ds c' with
      | Success (update, c'') => (Success (ds, update), c'')
      | Failure e => (Failure e, c')
      | Panic => (Panic, c')
      end
  | (Failure e, c') => (Failure e, c')
  | (Panic, c') => (Panic, c')
  end.
End correlate.
