(* ===== verification/CorrelateSpec.v ===== *)
(** * What a diagnosis pass promises

    Rules are shown current evidence and nothing else; the labels are those the
    conclusions imply; an incident is resolved only when its evidence has been
    answered; and the engine and its tables never part. *)

From S2P Require Import Concrete.
From S2P Require Export Correlate EngineStoreSpec IncidentRestart.

Local Open Scope string_scope.

Section evidence.
Context `{J : JsonApi} `{U : UuidApi} `{T : TimeApi} `{CH : ChronoApi} `{HI : HashIter} `{SC : StreamCodec}.
Context (julianday_within : Timestamp → Timestamp → Z → bool).
Implicit Types (c : Correlator) (k : Clocks) (eng : StateEngine) (o : Observation).

(** ** Fresh evidence *)

Lemma current_index_flat k c w eng inv :
  current_index julianday_within k c w eng inv
  = index_from_observations (entities inv ≫= fresh_observations julianday_within k c w eng).
Proof.
  unfold current_index, index_from_observations. generalize observation_index_new.
  induction (entities inv) as [|e es IH]; intros ix; cbn [foldl mbind list_bind]; [done|]. by rewrite IH, foldl_app.
Qed.

Lemma elem_of_fresh k c w eng e o :
  o ∈ fresh_observations julianday_within k c w eng e ↔
  counts_now c w eng (ck_now k) (entity_eid e) o
  ∧ o ∈ latest_observations_since julianday_within (ck_query k (entity_eid e)) (entity_eid e) (observation_cutoff eng) (co_rows c).
Proof. unfold fresh_observations. by rewrite list_elem_of_filter. Qed.

Lemma fresh_target k c w eng e o : o ∈ fresh_observations julianday_within k c w eng e → target_entity o = entity_eid e.
Proof. intros [_ (r & _ & -> & (Ht & _) & _)%elem_of_latest]%elem_of_fresh. done. Qed.

(** One observation per target, probe and observer is fresh at most. *)
Lemma fresh_unique k c w eng e e' o o' :
  o ∈ fresh_observations julianday_within k c w eng e → o' ∈ fresh_observations julianday_within k c w eng e' →
  observation_key o = observation_key o' → o = o'.
Proof.
  intros Ho Ho' Hk. pose proof (fresh_target _ _ _ _ _ _ Ho) as Ht. pose proof (fresh_target _ _ _ _ _ _ Ho') as Ht'.
  apply elem_of_fresh in Ho as [_ Ho]. apply elem_of_fresh in Ho' as [_ Ho'].
  injection Hk as Hkt Hkp Hko. assert (entity_eid e' = entity_eid e) as Heq by congruence. rewrite Heq in Ho'.
  apply list_elem_of_lookup in Ho as [n Hn], Ho' as [n' Hn'].
  assert (n = n') as ->; [|congruence].
  apply (NoDup_lookup _ n n' (probe_id o, observer_entity o) (latest_distinct julianday_within (ck_query k (entity_eid e))
    (entity_eid e) (observation_cutoff eng) (co_rows c))); rewrite list_lookup_fmap.
  - by rewrite Hn.
  - rewrite Hn'. cbn. by rewrite Hkp, Hko.
Qed.

Lemma current_index_lookup k c w eng inv key o :
  index_latest (current_index julianday_within k c w eng inv) !! key = Some o ↔
  observation_key o = key ∧ ∃ e, e ∈ entities inv ∧ o ∈ fresh_observations julianday_within k c w eng e.
Proof.
  rewrite current_index_flat. pose proof (index_newest (entities inv ≫= fresh_observations julianday_within k c w eng) key) as Hn.
  unfold newest_of in Hn. split.
  - intros Ho. rewrite Ho in Hn. destruct Hn as (Hin & Hk & _). split; [done|].
    apply list_elem_of_bind in Hin as (e & Hin & He). by exists e.
  - intros (Hk & e & He & Hin).
    assert (o ∈ entities inv ≫= fresh_observations julianday_within k c w eng) as Hall by (apply list_elem_of_bind; by exists e).
    destruct (index_latest _ !! key) as [o'|]; [|by destruct (Hn o Hall)].
    destruct Hn as (Hin' & Hk' & _). apply list_elem_of_bind in Hin' as (e' & Hin' & _). f_equal.
    apply (fresh_unique k c w eng e' e o' o Hin' Hin). congruence.
Qed.

(** ** Labels *)

Lemma add_labels_spec label es (m : gmap EntityId (list string)) e :
  default [] (foldl (add_label label) m es !! e) = (default [] (m !! e) ++ map (λ _, label) (filter (λ x, x = e) es))%list.
Proof.
  revert m. induction es as [|x es IH]; intros m; cbn [foldl]; [by rewrite app_nil_r|]. rewrite IH. unfold add_label.
  rewrite filter_cons. destruct (decide (x = e)) as [->|Hne].
  - rewrite lookup_insert_eq. cbn. by rewrite <- app_assoc.
  - by rewrite lookup_insert_ne.
Qed.

Lemma implied_labels_spec ds e l :
  l ∈ default [] (implied_labels ds !! e) ↔ ∃ d, d ∈ ds ∧ classification_for d = Some l ∧ e ∈ affected_entities d.
Proof.
  unfold implied_labels. set (f := λ m d, _).
  assert (∀ m : gmap EntityId (list string), l ∈ default [] (foldl f m ds !! e) ↔ l ∈ default [] (m !! e)
    ∨ ∃ d, d ∈ ds ∧ classification_for d = Some l ∧ e ∈ affected_entities d) as Hgen.
  { induction ds as [|d ds IH]; intros m; cbn [foldl].
    - split; [by left|]. intros [?|(d & Hd & _)]; [done|by apply elem_of_nil in Hd].
    - rewrite IH. rewrite (exists_elem_of_cons (λ d, classification_for d = Some l ∧ e ∈ affected_entities d)). unfold f at 1.
      destruct (classification_for d) as [label|] eqn:Hd; [|split; [tauto|intros [?|[[? _]|?]]; [by left|done|by right]]].
      rewrite add_labels_spec, elem_of_app, list_elem_of_fmap. setoid_rewrite list_elem_of_filter.
      split; [intros [[?|(x & -> & -> & Hx)]|?]; tauto|]. intros [?|[[[= ->] Hx]|?]]; [tauto| |tauto].
      left. right. by exists e. }
  rewrite Hgen, lookup_empty. cbn. split; [|by right]. by intros [?%elem_of_nil|?].
Qed.

Lemma classify_one_lookup implied eng e e' :
  states (classify_one implied eng e) !! e' =
    if decide (e = e') then set_classifications (default [] (implied !! e)) <$> states eng !! e else states eng !! e'.
Proof.
  unfold classify_one. destruct (states eng !! e) as [st|] eqn:Hst.
  - cbn [states with_states]. case_decide as He; [subst; by rewrite lookup_insert_eq|by rewrite lookup_insert_ne].
  - case_decide; [by subst|done].
Qed.

Lemma set_classifications_twice l st : set_classifications l (set_classifications l st) = set_classifications l st.
Proof. done. Qed.

Lemma classify_loop_lookup implied es eng e :
  states (foldl (classify_one implied) eng es) !! e =
    if decide (e ∈ es) then set_classifications (default [] (implied !! e)) <$> states eng !! e else states eng !! e.
Proof.
  revert eng. induction es as [|x es IH]; intros eng; cbn [foldl].
  - by rewrite decide_False by apply not_elem_of_nil.
  - rewrite IH, classify_one_lookup. destruct (decide (x = e)) as [->|Hne].
    + rewrite (decide_True (P := e ∈ e :: es)) by (by left). destruct (decide (e ∈ es)); [|done].
      rewrite <- option_fmap_compose. destruct (states eng !! e); [cbn; by rewrite set_classifications_twice|done].
    + destruct (decide (e ∈ es)) as [He|He].
      * by rewrite decide_True by (by right).
      * rewrite decide_False; [done|]. intros [->|?]%elem_of_cons; [by destruct Hne|done].
Qed.

Lemma classify_states_lookup implied eng e :
  StateEngineSpec.engine_wf eng →
  states (classify_states implied eng) !! e = set_classifications (default [] (implied !! e)) <$> states eng !! e.
Proof.
  intros Hwf. unfold classify_states. rewrite classify_loop_lookup. case_decide as He; [done|].
  destruct (states eng !! e) as [st|] eqn:Hst; [|done]. destruct He. apply list_elem_of_fmap. exists st.
  split; [symmetry; by apply (wf_states _ Hwf)|]. apply elem_of_hash_values. by exists e.
Qed.

Lemma classify_frame implied es eng :
  let eng' := foldl (classify_one implied) eng es in
  streams eng' = streams eng ∧ disabled eng' = disabled eng ∧ mappings eng' = mappings eng ∧ observation_cutoff eng' = observation_cutoff eng.
Proof.
  revert eng. induction es as [|x es IH]; intros eng; cbn [foldl]; [done|]. cbn zeta in *.
  destruct (IH (classify_one implied eng x)) as (-> & -> & -> & ->). unfold classify_one. by destruct (states eng !! x).
Qed.

Lemma classify_states_wf implied eng : StateEngineSpec.engine_wf eng → StateEngineSpec.engine_wf (classify_states implied eng).
Proof.
  unfold classify_states. generalize (map state_entity (hash_values (states eng))). intros es. revert eng.
  induction es as [|x es IH]; intros eng Hwf; cbn [foldl]; [done|]. apply IH. unfold classify_one.
  destruct (states eng !! x) as [st|] eqn:Hst; [|done]. apply with_states_wf; [done| |].
  - exact (wf_states _ Hwf x st Hst).
  - exact (wf_overall _ Hwf x st Hst).
Qed.

Lemma classify_states_settled implied eng :
  StateEngineSpec.engine_wf eng → settled eng → settled (classify_states implied eng).
Proof.
  unfold classify_states. generalize (map state_entity (hash_values (states eng))). intros es. revert eng.
  induction es as [|x es IH]; intros eng Hwf Hset; cbn [foldl]; [done|]. unfold classify_one.
  destruct (states eng !! x) as [st|] eqn:Hst; [|by apply IH].
  destruct (classify_settled x st (default [] (implied !! x)) eng Hst Hwf Hset). by apply IH.
Qed.

(** ** The engine and its tables *)

Lemma collect_states_lookup eng e :
  StateEngineSpec.engine_wf eng → collect_states (hash_values (states eng)) !! e = states eng !! e.
Proof.
  intros Hwf. unfold collect_states, hash_values. f_equal. apply insert_own_values; [apply hash_iter_perm|apply (wf_states _ Hwf)].
Qed.

(** What a classification that succeeds did. *)
Lemma classified rules k kd c ds c' :
  diagnose_and_classify julianday_within rules k kd c = (Success ds, c') →
  ∃ w t, windows_of c = Some w
    ∧ let '(eng, transitions) := expire (ck_engine k) (ck_fresh k) (ck_expire k) (stream_horizon c w) (co_engine c) in
      let classes := classify_states (implied_labels ds) eng in
      controller_diagnose julianday_within rules kd (with_engine eng c) = Success ds
      ∧ save_engine (co_inventory c) (co_environment c) classes transitions (co_tables c) = inr t
      ∧ c' = with_engine_tables t (with_engine classes (with_engine eng c)).
Proof.
  unfold diagnose_and_classify. destruct (diagnose_and_classify_inner julianday_within rules k kd c) as [[ds' c'']|err|] eqn:Hi; [|done..].
  intros [= -> ->]. unfold diagnose_and_classify_inner in Hi. destruct (windows_of c) as [w|] eqn:Hw; [|done]. cbn [of_panicking outcome_bind] in Hi.
  exists w. destruct (expire _ _ _ _ _) as [eng trs] eqn:He. cbn [outcome_bind] in Hi.
  destruct (controller_diagnose julianday_within rules kd (with_engine eng c)) as [ds''|err|] eqn:Hd; cbn [outcome_bind] in Hi; [|done..].
  destruct (save_engine _ _ _ _ _) as [err|t] eqn:Hs; cbn [of_store outcome_bind] in Hi; [done|]. injection Hi as -> <-. by exists t.
Qed.

Lemma classify_failed rules k kd c r c' :
  diagnose_and_classify julianday_within rules k kd c = (r, c') → (∀ ds, r ≠ Success ds) → c' = c.
Proof.
  unfold diagnose_and_classify. destruct (diagnose_and_classify_inner _ _ _ _ _) as [[ds' c'']|err|]; intros [= <- <-] Hr; [|done..].
  by destruct (Hr ds').
Qed.

(** ** Verdicts *)

Lemma index_all_of_current k c w eng inv e probe o :
  o ∈ index_all_of (current_index julianday_within k c w eng inv) e probe →
  target_entity o = e ∧ probe_id o = probe ∧ ∃ x, x ∈ entities inv ∧ o ∈ fresh_observations julianday_within k c w eng x.
Proof.
  unfold index_all_of. rewrite sort_by_key_perm. intros (kv & -> & [[Ht Hp] Hin]%list_elem_of_filter)%list_elem_of_fmap.
  destruct kv as [key o]. apply elem_of_hash_iter, current_index_lookup in Hin as [<- Hx]. by split_and!.
Qed.

Lemma originals_from_spec rows ids acc :
  originals_from rows ids acc = [] ∨
  ∃ os, originals_from rows ids acc = (acc ++ os)%list
    ∧ Forall2 (λ id o, observation_by_id id rows = Some o) ids os.
Proof.
  revert acc. induction ids as [|id ids IH]; intros acc; cbn [originals_from].
  - right. exists []. by rewrite app_nil_r.
  - destruct (observation_by_id id rows) as [o|] eqn:Ho; [|by left].
    destruct (IH (acc ++ [o])%list) as [?|(os & -> & Hall)]; [by left|]. right. exists (o :: os).
    rewrite <- app_assoc. split; [done|]. by constructor.
Qed.

Lemma originals_from_all rows ids acc os :
  Forall2 (λ id o, observation_by_id id rows = Some o) ids os → originals_from rows ids acc = (acc ++ os)%list.
Proof.
  intros Hall. revert acc. induction Hall as [|id o ids os Ho Hall IH]; intros acc; cbn [originals_from].
  - by rewrite app_nil_r.
  - by rewrite Ho, IH, <- app_assoc.
Qed.

Section recovery.
Variables (rows : list ObservationRow) (eng : StateEngine) (latest : ObservationIndex) (inv : Inventory)
  (ds : list Diagnosis).

(** The current evidence answers an old observation: a quorum of other
    observers for a host called unreachable, one newer success otherwise. *)
Definition answered (i : Incident) (old : Observation) : Prop :=
  if String.eqb (probe_id old) NETWORK_PROBE && has_diagnosis i HOST_UNREACHABLE then
    (2 ≤ length (remote_views latest old))%nat
    ∧ ∀ o, o ∈ remote_views latest old → status o = Probe_Ok ∧ (finished_at old < finished_at o)%Z ∧ confirms_health eng o = true
  else
    ∃ new, new ∈ index_all_of latest (target_entity old) (probe_id old) ∧ status new = Probe_Ok ∧ confirms_health eng new = true
      ∧ (observer_entity new = observer_entity old ∨ status old = Probe_Ok)
      ∧ ((finished_at old < finished_at new)%Z ∨ probe_is_bad (status old) = false ∧ status old ≠ Probe_Degraded).

(** What a full verdict of recovery rests on. *)
Record recovery_proved (i : Incident) : Prop := {
  rp_undiagnosed d e : d ∈ ds → e ∈ affected_entities d → ¬ (e ∈ incident_affected i ∨ e ∈ incident_roots i);
  rp_evidence : ∃ originals, Forall2 (λ id o, observation_by_id id rows = Some o) (incident_evidence i) originals
    ∧ (∃ old, old ∈ originals ∧ counts_as_evidence old = true)
    ∧ (∀ old, old ∈ originals → counts_as_evidence old = true → answered i old)
    ∧ ∀ e, e ∈ incident_affected i ∨ e ∈ incident_roots i →
        match states eng !! e with
        | Some st => overall st = Healthy ∨
            overall st = Unknown ∧ ∃ old, old ∈ originals ∧ counts_as_evidence old = true ∧ target_entity old = e
        | None => ∃ x, inv_entities inv !! e = Some x ∧ entity_kind x = Entity_Service
        end
}.

Lemma disproved_answered i old : disproved eng latest i old = true ↔ answered i old.
Proof.
  unfold disproved, answered. destruct (_ && _).
  - unfold quorum_recovered. rewrite andb_true_iff, Nat.leb_le, forallb_forall. setoid_rewrite <- list_elem_of_In.
    unfold recovered_view. by setoid_rewrite andb_true_iff; setoid_rewrite andb_true_iff; setoid_rewrite Z.ltb_lt;
      setoid_rewrite bool_decide_eq_true; setoid_rewrite <- (assoc and).
  - rewrite existsb_exists. setoid_rewrite <- list_elem_of_In. unfold answers.
    repeat setoid_rewrite andb_true_iff. repeat setoid_rewrite orb_true_iff. setoid_rewrite andb_true_iff.
    repeat setoid_rewrite negb_true_iff. setoid_rewrite bool_decide_eq_false. repeat setoid_rewrite bool_decide_eq_true.
    setoid_rewrite Z.ltb_lt. split; intros (new & Hin & H); exists new; tauto.
Qed.

Lemma still_diagnosed_full i :
  still_diagnosed ds false i = false ↔
  ∀ d e, d ∈ ds → e ∈ affected_entities d → ¬ (e ∈ incident_affected i ∨ e ∈ incident_roots i).
Proof.
  unfold still_diagnosed. rewrite <- not_true_iff_false, existsb_exists. setoid_rewrite existsb_exists.
  setoid_rewrite orb_true_iff. setoid_rewrite bool_decide_eq_true. setoid_rewrite <- list_elem_of_In. split.
  - intros Hn d e Hd He Hin. apply Hn. by exists d; split; [|exists e].
  - intros Hn (d & Hd & e & He & Hin). by apply (Hn d e).
Qed.

Lemma selected_full i (os : list Observation) : selected_of false i os = filter (λ o, Is_true (counts_as_evidence o)) os.
Proof.
  unfold selected_of. cbn [negb orb]. rewrite (list_filter_iff _ (λ o, Is_true (counts_as_evidence o))).
  - by destruct (filter _ os).
  - intros o. by rewrite andb_true_r.
Qed.

Lemma elem_of_counted (os : list Observation) o : o ∈ filter (λ o, Is_true (counts_as_evidence o)) os ↔ counts_as_evidence o = true ∧ o ∈ os.
Proof. by rewrite list_elem_of_filter, Is_true_true. Qed.

Lemma entity_well_spec (os : list Observation) e :
  StateEngineSpec.engine_wf eng →
  entity_well (collect_states (hash_values (states eng))) inv (filter (λ o, Is_true (counts_as_evidence o)) os) e = true ↔
  match states eng !! e with
  | Some st => overall st = Healthy ∨
      overall st = Unknown ∧ ∃ old, old ∈ os ∧ counts_as_evidence old = true ∧ target_entity old = e
  | None => ∃ x, inv_entities inv !! e = Some x ∧ entity_kind x = Entity_Service
  end.
Proof.
  intros Hwf. unfold entity_well. rewrite collect_states_lookup by done. destruct (states eng !! e) as [st|].
  - rewrite orb_true_iff, andb_true_iff, existsb_exists, !bool_decide_eq_true. setoid_rewrite <- list_elem_of_In.
    setoid_rewrite elem_of_counted. setoid_rewrite bool_decide_eq_true. split; intros [?|[? (old & ?)]]; [by left|right| by left|right];
      (split; [done|]; exists old; tauto).
  - destruct (inv_entities inv !! e) as [x|]; [|by split; [|intros (? & ? & _)]]. rewrite bool_decide_eq_true.
    split; [by exists x|by intros (? & [= ->] & ?)].
Qed.

Lemma verified_recovery i :
  StateEngineSpec.engine_wf eng →
  verified eng latest (collect_states (hash_values (states eng))) inv ds rows i false = true ↔ recovery_proved i.
Proof.
  intros Hwf. unfold verified, originals_of. set (well := entity_well _ _).
  assert (∀ os : list Observation, os ≠ [] →
    negb (match selected_of false i os with [] => true | _ => false end) && negb (still_diagnosed ds false i)
      && forallb (disproved eng latest i) (selected_of false i os)
      && forallb (well (selected_of false i os)) (filter (λ e, Is_true (negb false || bool_decide (e ∈ incident_roots i)))
            (incident_affected i ++ incident_roots i)%list) = true ↔
    (∃ old, old ∈ os ∧ counts_as_evidence old = true)
    ∧ (∀ d e, d ∈ ds → e ∈ affected_entities d → ¬ (e ∈ incident_affected i ∨ e ∈ incident_roots i))
    ∧ (∀ old, old ∈ os → counts_as_evidence old = true → answered i old)
    ∧ ∀ e, e ∈ incident_affected i ∨ e ∈ incident_roots i → well (filter (λ o, Is_true (counts_as_evidence o)) os) e = true) as Hver.
  { intros os _. rewrite selected_full.
    rewrite !andb_true_iff, !negb_true_iff, !forallb_forall, still_diagnosed_full. setoid_rewrite <- list_elem_of_In.
    setoid_rewrite disproved_answered. setoid_rewrite elem_of_counted.
    setoid_rewrite list_elem_of_filter. setoid_rewrite elem_of_app. cbn [negb orb Is_true].
    assert (match filter (λ o, Is_true (counts_as_evidence o)) os with [] => true | _ => false end = false
      ↔ ∃ old, old ∈ os ∧ counts_as_evidence old = true) as Hex; [|rewrite Hex; naive_solver].
    split.
    - destruct (filter _ os) as [|old l] eqn:Hf; [done|]. intros _. exists old.
      apply and_comm, elem_of_counted. rewrite Hf. by left.
    - intros (old & Hin & Hc). assert (old ∈ filter (λ o, Is_true (counts_as_evidence o)) os) as Hold by (by apply elem_of_counted).
      destruct (filter _ os); [by apply elem_of_nil in Hold|done]. }
  split.
  - destruct (originals_from_spec rows (incident_evidence i) []) as [->|(os & -> & Hall)]; [done|]. cbn [app].
    intros Hv. assert (os ≠ []) as Hne by (by intros ->). destruct os as [|o os']; [done|]. apply (proj1 (Hver _ Hne)) in Hv as (H1 & H2 & H3 & H4).
    split; [done|]. eexists. split_and!; [done..|]. intros e He. apply (entity_well_spec _ _ Hwf), H4, He.
  - intros [Hun (os & Hall & Hex & Hans & Hwell)]. rewrite (originals_from_all _ _ _ _ Hall). cbn [app].
    destruct os as [|o os']; [destruct Hex as (old & Hin & _); by apply elem_of_nil in Hin|].
    apply (proj2 (Hver (o :: os') ltac:(done))). split_and!; [done..|].
    intros e He. by apply (entity_well_spec _ _ Hwf), Hwell.
Qed.
End recovery.

(** ** Looking the verdicts up *)

Lemma filed_under_none fp ds : filed_under fp ds = [] ↔ fp ∉ (list_to_set (map fingerprint ds) : gset string).
Proof.
  rewrite elem_of_list_to_set, list_elem_of_fmap. split.
  - intros Hno (d & -> & Hd). by apply (elem_of_nil d); rewrite <- Hno; apply elem_of_filed_under.
  - intros Hno. destruct (filed_under fp ds) as [|d l] eqn:Hf; [done|]. destruct Hno.
    assert (d ∈ filed_under fp ds) as [Hd Hfp]%elem_of_filed_under by (rewrite Hf; by left). by exists d.
Qed.

Lemma recovery_lookup {V} (f : Incident → V) l (m : gmap Uuid V) id :
  (∃ i, i ∈ l ∧ incident_id i = id ∧ foldl (λ m i, <[ incident_id i := f i ]> m) m l !! id = Some (f i))
  ∨ (∀ i, i ∈ l → incident_id i ≠ id) ∧ foldl (λ m i, <[ incident_id i := f i ]> m) m l !! id = m !! id.
Proof.
  revert m. induction l as [|x l IH]; intros m; cbn [foldl].
  { right. split; [|done]. by intros i ?%elem_of_nil. }
  destruct (IH (<[ incident_id x := f x ]> m)) as [(i & Hi & Hid & ->)|[Hno ->]].
  { left. exists i. split; [by right|done]. }
  destruct (decide (incident_id x = id)) as [Hx|Hx].
  - left. exists x. rewrite Hx, lookup_insert_eq. split; [by left|done].
  - right. rewrite lookup_insert_ne by done. split; [|done]. by intros i [->|?]%elem_of_cons; [|apply Hno].
Qed.

Lemma verdict_spec environment reset e t rows eng latest inv ds fp i :
  synced environment reset e t → incidents e !! fp = Some i → status_is_active (incident_status i) = true →
  filed_under fp ds = [] →
  (recovery_verdict (recovery_verdicts rows eng latest inv ds e) i).2
    = verified eng latest (collect_states (hash_values (states eng))) inv ds rows i false.
Proof.
  intros Hsync Hi Hact Hno. unfold recovery_verdict, recovery_verdicts. set (states_ := collect_states _).
  set (f := λ i, (verified eng latest states_ inv ds rows i true, verified eng latest states_ inv ds rows i false)).
  assert (i ∈ filter (λ i, incident_fingerprint i ∉ (list_to_set (map fingerprint ds) : gset string)) (engine_active e)) as Hin.
  { apply list_elem_of_filter. destruct (sy_held _ _ _ _ Hsync fp i Hi) as [-> _]. split; [by apply filed_under_none|].
    apply list_elem_of_filter. split; [by rewrite Hact|]. apply elem_of_btree_values. by exists fp. }
  destruct (recovery_lookup f (filter (λ i, incident_fingerprint i ∉ (list_to_set (map fingerprint ds) : gset string)) (engine_active e))
    ∅ (incident_id i)) as [(j & Hj & Hid & Hl)|[Hnone _]]; [|by destruct (Hnone i Hin)].
  unfold f in Hl. rewrite Hl. cbn [default from_option snd].
  apply list_elem_of_filter in Hj as [_ [_ [fp' Hj]%elem_of_btree_values]%list_elem_of_filter].
  rewrite (held_distinct _ _ _ _ _ _ _ _ Hsync Hj Hi Hid) in Hj. rewrite Hi in Hj. by injection Hj as ->.
Qed.

(** What a pass that succeeds did. *)
Lemma correlated `{P : IncidentPass} rules k kd kc c ds u c' :
  diagnose_and_correlate julianday_within rules k kd kc c = (Success (ds, u), c') →
  ∃ c1 inv w e t, diagnose_and_classify julianday_within rules k kd c = (Success ds, c1)
    ∧ load_inventory (co_environment c1) (co_inventory c1) = inr inv ∧ windows_of c1 = Some w
    ∧ reconcile_verified (co_incidents c1) ds (inv_graph inv)
        (recovery_verdict (recovery_verdicts (co_rows c1) (co_engine c1) (current_index julianday_within kc c1 w (co_engine c1) inv) inv ds (co_incidents c1)))
      = Some (e, u)
    ∧ save_incidents (co_inventory c1) (co_environment c1) (update_all u) (co_incident_tables c1) = inr t
    ∧ c' = with_incidents e t c1.
Proof.
  unfold diagnose_and_correlate. destruct (diagnose_and_classify julianday_within rules k kd c) as [[ds1|err|] c1] eqn:Hd; [|done..].
  destruct (correlate julianday_within kc ds1 c1) as [[u1 c2]|err|] eqn:Hc; [|done..]. intros [= -> -> ->].
  unfold correlate in Hc. destruct (load_inventory _ _) as [err|inv] eqn:Hinv; cbn [of_store outcome_bind] in Hc; [done|].
  destruct (windows_of c1) as [w|] eqn:Hw; cbn [of_panicking outcome_bind] in Hc; [|done].
  destruct (reconcile_verified _ _ _ _) as [[e u1]|] eqn:Hr; cbn [of_panicking outcome_bind] in Hc; [|done].
  destruct (save_incidents _ _ _ _) as [err|t] eqn:Hs; cbn [of_store outcome_bind] in Hc; [done|]. injection Hc as -> <-.
  exists c1, inv, w, e, t. by rewrite Hr.
Qed.

(** A pass that fails leaves the incidents as they were. *)
Lemma correlate_failed `{P : IncidentPass} rules k kd kc c r c' :
  diagnose_and_correlate julianday_within rules k kd kc c = (r, c') → (∀ x, r ≠ Success x) →
  c' = (diagnose_and_classify julianday_within rules k kd c).2.
Proof.
  unfold diagnose_and_correlate. destruct (diagnose_and_classify julianday_within rules k kd c) as [[ds1|err|] c1]; [|by intros [= <- <-]..].
  destruct (correlate julianday_within kc ds1 c1) as [[u1 c2]|err|]; intros [= <- <-] Hr; [|done..]. by destruct (Hr (ds1, u1)).
Qed.

(** The parts a classification does not write. *)
Lemma classify_keeps rules k kd c r c' :
  diagnose_and_classify julianday_within rules k kd c = (r, c') →
  co_environment c' = co_environment c ∧ co_schedules c' = co_schedules c ∧ co_inventory_interval c' = co_inventory_interval c
  ∧ co_hostname c' = co_hostname c ∧ co_incidents c' = co_incidents c ∧ co_inventory c' = co_inventory c ∧ co_rows c' = co_rows c
  ∧ co_incident_tables c' = co_incident_tables c.
Proof.
  intros Hd. destruct r as [ds|err|].
  - apply classified in Hd as (w & t & _ & Hd). destruct (expire _ _ _ _ _) as [eng trs]. by destruct Hd as (_ & _ & ->).
  - by rewrite (classify_failed _ _ _ _ _ _ Hd).
  - by rewrite (classify_failed _ _ _ _ _ _ Hd).
Qed.

Lemma classify_wf rules k kd c r c' :
  diagnose_and_classify julianday_within rules k kd c = (r, c') →
  StateEngineSpec.engine_wf (co_engine c) → StateEngineSpec.engine_wf (co_engine c').
Proof.
  intros Hd Hwf. destruct r as [ds|err|].
  - apply classified in Hd as (w & t & _ & Hd). destruct (expire _ _ _ _ _) as [eng trs] eqn:He. destruct Hd as (_ & _ & ->).
    cbn. apply classify_states_wf. apply (f_equal fst) in He. cbn in He. rewrite <- He. by apply expire_wf.
  - by rewrite (classify_failed _ _ _ _ _ _ Hd).
  - by rewrite (classify_failed _ _ _ _ _ _ Hd).
Qed.
End evidence.

(** ** The pass *)

(** C12.  A rule is shown current evidence and nothing else.  What the index of a
    pass holds under a stream is a stored observation of an entity of the
    inventory, the newest usable one of its stream, of a probe that is enabled
    there, and no older than its horizon; and the answer of every stream that
    has a usable row is held if it still counts. *)
Theorem rules_see_only_current_evidence `{J : JsonApi} `{U : UuidApi} `{T : TimeApi} `{CH : ChronoApi} `{HI : HashIter}
    `{SC : StreamCodec} julianday_within (k : Clocks) (c : Correlator) (w : gmap string Duration * Duration) (inv : Inventory) :
  let eng := (expire (ck_engine k) (ck_fresh k) (ck_expire k) (stream_horizon c w) (co_engine c)).1 in
  let seen := index_latest (ctx_observations (pass_context julianday_within k c w inv)) in
  let ok x := usable julianday_within (ck_query k x + seconds MAX_FUTURE_SKEW_SECONDS)%Z (observation_cutoff eng) in
  let newest x o := ∃ r, r ∈ co_rows c ∧ o = row_observation r ∧ target_entity o = x ∧ ok x r
    ∧ ∀ r', r' ∈ co_rows c → same_stream x (probe_id o) (observer_entity o) r' → ok x r' → key_le (finished_text r') (finished_text r) in
  let counts x o := probe_enabled eng x (probe_id o) = true
    ∧ (ck_now k - finished_at o ≤ horizon_for (probe_id o) (observer_entity o) (observer_of c) w.1 w.2)%Z in
  (∀ key o, seen !! key = Some o → observation_key o = key ∧ ∃ x, x ∈ entities inv ∧ newest (entity_eid x) o ∧ counts (entity_eid x) o)
  ∧ (∀ x r, x ∈ entities inv → r ∈ co_rows c → ok (entity_eid x) r → target_entity (row_observation r) = entity_eid x →
       ∃ o, same_stream (entity_eid x) (probe_id o) (observer_entity o) r ∧ newest (entity_eid x) o
         ∧ (counts (entity_eid x) o → seen !! observation_key o = Some o)).
Proof.
  intros eng seen ok newest counts.
  assert (∀ x o, o ∈ latest_observations_since julianday_within (ck_query k x) x (observation_cutoff eng) (co_rows c) → newest x o) as Hnewest.
  { intros x o (r & Hr & Heq & (Ht & Hss) & Hu & Hmax)%elem_of_latest. exists r. subst o. split_and!; [done..|]. intros r' Hr' Hs' Hok'. by apply Hmax. }
  split.
  - intros key o [Hk (x & Hx & [Hc Hin]%elem_of_fresh)]%current_index_lookup. split; [done|]. exists x. split_and!; [done|by apply Hnewest|done].
  - intros x r Hx Hr Hok Ht. destruct (latest_complete julianday_within (ck_query k (entity_eid x)) (entity_eid x) (observation_cutoff eng)
      (co_rows c) r Hr Hok Ht) as (o & Ho & Hss). exists o. split_and!; [done|by apply Hnewest|]. intros Hc.
    apply current_index_lookup. split; [done|]. exists x. split; [done|]. by apply elem_of_fresh.
Qed.

(** After a pass the labels of every state are those the conclusions of the
    rules imply for its entity, each once, and the state is stored with them;
    what the probes measured is as [expire] left it.  A pass that fails changes
    nothing. *)
Theorem labels_are_implied `{J : JsonApi} `{U : UuidApi} `{T : TimeApi} `{CH : ChronoApi} `{HI : HashIter} `{SC : StreamCodec}
    julianday_within (rules : DiagnosisEngine) (k kd : Clocks) (c c' : Correlator) (r : outcome (list Diagnosis)) :
  StateEngineSpec.engine_wf (co_engine c) →
  diagnose_and_classify julianday_within rules k kd c = (r, c') →
  match r with
  | Success ds => ∃ w, windows_of c = Some w
      ∧ let expired := (expire (ck_engine k) (ck_fresh k) (ck_expire k) (stream_horizon c w) (co_engine c)).1 in
        StateEngineSpec.engine_wf (co_engine c')
        ∧ (∀ e, is_Some (states (co_engine c') !! e) ↔ is_Some (states expired !! e))
        ∧ ∀ e st, states (co_engine c') !! e = Some st →
            (∃ st0, states expired !! e = Some st0 ∧ components st = components st0 ∧ overall st = overall st0)
            ∧ NoDup (classifications st)
            ∧ (∀ l, l ∈ classifications st ↔ ∃ d, d ∈ ds ∧ classification_for d = Some l ∧ e ∈ affected_entities d)
            ∧ state_saved st (co_tables c) (co_tables c')
  | _ => c' = c
  end.
Proof.
  intros Hwf Hd. destruct r as [ds|err|]; [|by apply (classify_failed _ _ _ _ _ _ _ Hd)..].
  pose proof (classify_wf _ _ _ _ _ _ _ Hd Hwf) as Hwf'.
  apply classified in Hd as (w & t & Hw & Hd). exists w. split; [done|]. intros expired. split; [done|].
  assert (StateEngineSpec.engine_wf expired) as Hexp by (by apply expire_wf).
  unfold expired in *. destruct (expire _ _ _ _ _) as [eng trs]. cbn [fst] in *. destruct Hd as (_ & Hsave & ->). cbn [co_engine co_tables with_engine with_engine_tables] in *.
  split.
  - intros e. by rewrite (classify_states_lookup _ _ _ Hexp), fmap_is_Some.
  - intros e st Hst. pose proof Hst as (st0 & Hst0 & ->)%(eq_trans (eq_sym (classify_states_lookup (implied_labels ds) _ e Hexp)))%fmap_Some.
    split_and!.
    + by exists st0.
    + apply NoDup_foldl_push_unique, NoDup_nil_2.
    + intros l. cbn [classifications set_classifications]. rewrite elem_of_foldl_push_unique, <- implied_labels_spec.
      split; [by intros [?%elem_of_nil|?]|by right].
    + destruct (save_engine_saved _ _ _ _ _ _ Hwf' Hsave) as (_ & _ & Hsaved & _). by apply (Hsaved e).
Qed.

(** C29.  An incident nothing diagnoses any more is resolved by a pass exactly
    when its recovery is proved: no conclusion names one of its entities, all
    of its evidence is still stored, some of it conclusive, each conclusive
    observation is answered by current evidence (a quorum of other observers
    for a host that was unreachable), and each of its entities is well. *)
Theorem resolution_is_proved `{J : JsonApi} `{U : UuidApi} `{T : TimeApi} `{CH : ChronoApi} `{HI : HashIter} `{SC : StreamCodec}
    `{P : IncidentPass} julianday_within (rules : DiagnosisEngine) (k kd kc : Clocks) (c c' : Correlator)
    (ds : list Diagnosis) (u : IncidentUpdate) (reset : option Timestamp) (fp : string) (i : Incident) :
  StateEngineSpec.engine_wf (co_engine c) →
  synced (co_environment c) reset (co_incidents c) (co_incident_tables c) →
  diagnose_and_correlate julianday_within rules k kd kc c = (Success (ds, u), c') →
  incidents (co_incidents c) !! fp = Some i → status_is_active (incident_status i) = true →
  ∃ inv w i', load_inventory (co_environment c) (co_inventory c) = inr inv ∧ windows_of c = Some w
    ∧ incidents (co_incidents c') !! fp = Some i'
    ∧ (incident_status i' = Status_Resolved ↔
         filed_under fp ds = [] ∧
         recovery_proved (co_rows c) (co_engine c') (current_index julianday_within kc c w (co_engine c') inv) inv ds i).
Proof.
  intros Hwf Hsync Hp Hi Hact. apply correlated in Hp as (c1 & inv & w & e & t & Hd & Hinv & Hw & Hr & Hsave & ->).
  pose proof (classify_wf _ _ _ _ _ _ _ Hd Hwf) as Hwf1.
  apply classify_keeps in Hd as (He & Hs & Hn & Hh & Hinc & Hit & Hrows & Hitt).
  assert (windows_of c = Some w) as Hwc by (rewrite <- Hw; unfold windows_of; by rewrite Hs, Hn).
  assert (current_index julianday_within kc c w (co_engine c1) inv = current_index julianday_within kc c1 w (co_engine c1) inv) as Hix.
  { unfold current_index, fresh_observations, counts_now, counts_now_dec, observer_of. by rewrite Hrows, He, Hh. }
  rewrite He, Hit in Hinv. rewrite Hinc in Hr.
  destruct (reconcile_evolves _ _ _ _ _ _ Hr) as [Hev _]. destruct (Hev fp) as (ch & Hch & Hst & _). rewrite Hi in Hch, Hst.
  destruct (evolves_keeps _ _ _ _ _ _ Hch) as (i' & Hi' & _). exists inv, w, i'.
  split_and!; [done|done|cbn; by rewrite Hst|]. cbn [co_engine with_incidents]. rewrite Hix, <- Hrows.
  rewrite <- (verified_recovery (co_rows c1)) by done.
  inversion Hch as [old s ch' j Hne Hs' Hrd|j ch' i2 Hno Ha Hru|old Hno Hidle]; subst.
  - cbn [stored] in Hi'. injection Hi' as ->. apply reconcile_diagnosed_spec in Hrd as (_ & _ & _ & Hres & _).
    split; [done|]. by intros [? _].
  - cbn [stored] in Hi'. injection Hi' as ->. revert Hru. unfold reconcile_undiagnosed.
    destruct (recovery_verdict _ i) as [root full] eqn:Hv. apply (f_equal snd) in Hv. cbn [snd] in Hv.
    rewrite (verdict_spec _ _ _ _ _ _ _ _ _ _ _ Hsync Hi Hact Hno) in Hv. rewrite Hv.
    destruct full; [intros [= _ <-]; split; done|]. intros Hru. split; [|by intros []].
    assert (incident_status i ≠ Status_Resolved) as Hnr by (intros Hres; by rewrite Hres in Hact).
    repeat case_match; injection Hru as _ <-; cbn in *; congruence.
  - by rewrite (Hidle i eq_refl) in Hact.
Qed.

(** C30.  Whatever becomes of a pass, the incidents held and the incidents stored
    stay in step, and the engine is the one the tables describe: a failed
    classification writes neither, a later failure keeps both. *)
Theorem pass_keeps_in_step `{J : JsonApi} `{U : UuidApi} `{T : TimeApi} `{CH : ChronoApi} `{HI : HashIter} `{SC : StreamCodec}
    `{P : IncidentPass} `{!TimelineLaws} julianday_within (rules : DiagnosisEngine) (k kd kc : Clocks) (c c' : Correlator)
    (r : outcome (list Diagnosis * IncidentUpdate)) (reset : option Timestamp) :
  StateEngineSpec.engine_wf (co_engine c) →
  synced (co_environment c) reset (co_incidents c) (co_incident_tables c) →
  (∀ ds c1, diagnose_and_classify julianday_within rules k kd c = (Success ds, c1) → drawn_fresh reset (co_incident_tables c) ds) →
  diagnose_and_correlate julianday_within rules k kd kc c = (r, c') →
  StateEngineSpec.engine_wf (co_engine c')
  ∧ synced (co_environment c) reset (co_incidents c') (co_incident_tables c')
  ∧ ((co_engine c' = co_engine c ∧ co_tables c' = co_tables c)
     ∨ (∃ p, encode_streams (hash_values (streams (co_engine c'))) = inr p ∧ et_streams (co_tables c') !! co_environment c = Some p)
       ∧ ∀ e st, states (co_engine c') !! e = Some st → state_saved st (co_tables c) (co_tables c')).
Proof.
  intros Hwf Hsync Hdraw Hp. destruct (diagnose_and_classify julianday_within rules k kd c) as [r1 c1] eqn:Hd.
  pose proof (classify_wf _ _ _ _ _ _ _ Hd Hwf) as Hwf1.
  pose proof (classify_keeps _ _ _ _ _ _ _ Hd) as (He & _ & _ & _ & Hinc & Hit & _ & Hitt).
  assert ((co_engine c1 = co_engine c ∧ co_tables c1 = co_tables c)
     ∨ (∃ p, encode_streams (hash_values (streams (co_engine c1))) = inr p ∧ et_streams (co_tables c1) !! co_environment c = Some p)
       ∧ ∀ e st, states (co_engine c1) !! e = Some st → state_saved st (co_tables c) (co_tables c1)) as Heng.
  { destruct r1 as [ds|err|]; [right|by left; rewrite (classify_failed _ _ _ _ _ _ _ Hd)..].
    apply classified in Hd as (w & t & _ & Hd). destruct (expire _ _ _ _ _) as [eng trs]. destruct Hd as (_ & Hsave & ->).
    by destruct (save_engine_saved _ _ _ _ _ _ Hwf1 Hsave) as (Hst & _ & Hsaved & _). }
  assert ((∃ x, r = Success x) ∨ ∀ x, r ≠ Success x) as [[[ds u] ->]|Hf] by (destruct r; [left; by eexists|by right..]).
  - apply correlated in Hp as (c2 & inv & w & e & t & Hd2 & _ & _ & Hr & Hsave & ->). rewrite Hd in Hd2. injection Hd2 as -> <-.
    cbn [co_engine co_tables co_incidents co_incident_tables with_incidents]. split_and!; [done| |done].
    rewrite Hinc in Hr. rewrite He, Hitt in Hsave. eapply (synced_pass _ _ _ _ ds); [done|by eapply Hdraw|done|done].
  - apply correlate_failed in Hp; [|done]. rewrite Hd in Hp. cbn in Hp. subst c1. by rewrite Hinc, Hitt.
Qed.

(** ** A pass that resolves *)

(** The incident of the sample history, over three services, its two failures
    answered. *)
Definition measured (id : N) (at_ : Timestamp) (target : N) (s : ProbeStatus) : ObservationRow :=
  {| row_observation := observation_new {| observation_uuid := id |} at_ "storage.sample" {| as_uuid := target |} s;
     row_ingested_at := at_ |}.

Definition services_inventory : InventoryTables :=
  mk_tables {[ "lab" ]}
    (list_to_map (map (λ n : N, ({| as_uuid := n |}, mk_entity_row "lab" None "service" (show_N n) (show_N n) json_null "active" 0 0))
       [1; 2; 3]%N)) ∅ ∅ ∅ ∅.

Definition sample_clocks : Clocks :=
  mk_clocks 8000 8000 (λ _, 8000%Z) 8000 8000 (λ e _, as_uuid e).

Definition sample_correlator : Correlator :=
  mk_correlator "lab" ∅ (std_secs 300) None state_engine_new sample_engine services_inventory
    [measured 8 4000 2 Probe_Failed; measured 9 4000 3 Probe_Failed; measured 10 4500 2 Probe_Ok; measured 11 4500 3 Probe_Ok]
    empty_engine_tables history_tables.

#[local] Existing Instance blank_stream_codec.

(** Identifiers past the one that is taken. *)
#[local] Instance later_pass : IncidentPass := {|
  fresh_id fp := (Npos (encode (fingerprint (sample_diagnosis 1))) + Npos (encode fp))%N;
  clock _ := 7500%Z
|}.

Definition sample_pass_run : outcome (list Diagnosis * IncidentUpdate) * Correlator :=
  diagnose_and_correlate (λ _ _ _, true) diagnosis_engine_new sample_clocks sample_clocks sample_clocks sample_correlator.

Definition sample_fingerprint : string := fingerprint (sample_diagnosis 1).

Lemma sample_pass_done :
  ∃ ds u c', sample_pass_run = (Success (ds, u), c')
    ∧ ∃ i', incidents (co_incidents c') !! sample_fingerprint = Some i' ∧ incident_status i' = Status_Resolved.
Proof.
  assert (match sample_pass_run with
          | (Success _, c') => match incidents (co_incidents c') !! sample_fingerprint with
                               | Some i' => bool_decide (incident_status i' = Status_Resolved)
                               | None => false
                               end
          | _ => false
          end = true) as Hok by (vm_compute; reflexivity).
  destruct sample_pass_run as [[[ds u]|err|] c']; [|discriminate Hok..]. exists ds, u, c'. split; [reflexivity|].
  destruct (incidents (co_incidents c') !! sample_fingerprint) as [i'|]; [|discriminate Hok]. exists i'.
  by apply bool_decide_eq_true in Hok.
Qed.

Lemma sample_synced : synced "lab" None sample_engine history_tables.
Proof. exact (history_synced _ _ _ _ sample_history). Qed.

Lemma resolution_is_proved_witness :
  ∃ ds u c' i inv w, sample_pass_run = (Success (ds, u), c')
    ∧ incidents sample_engine !! sample_fingerprint = Some i
    ∧ recovery_proved (co_rows sample_correlator) (co_engine c')
        (current_index (λ _ _ _, true) sample_clocks sample_correlator w (co_engine c') inv) inv ds i.
Proof.
  destruct sample_pass_done as (ds & u & c' & Hrun & i' & Hi' & Hres). destruct sample_incident_active as (i & Hi & Hact).
  destruct (resolution_is_proved (λ _ _ _, true) diagnosis_engine_new sample_clocks sample_clocks sample_clocks sample_correlator c'
    ds u None sample_fingerprint i) as (inv & w & i2 & _ & _ & Hi2 & Hiff).
  - exact engine_new_wf.
  - exact sample_synced.
  - exact Hrun.
  - exact Hi.
  - exact Hact.
  - exists ds, u, c', i, inv, w. split_and!; [exact Hrun|exact Hi|]. rewrite Hi' in Hi2. injection Hi2 as Heq.
    rewrite Heq in Hres. exact (proj2 (proj1 Hiff Hres)).
Defined.

Lemma labels_are_implied_witness :
  StateEngineSpec.engine_wf (co_engine sample_correlator)
  ∧ StateEngineSpec.engine_wf (co_engine (diagnose_and_classify (λ _ _ _, true) diagnosis_engine_new sample_clocks sample_clocks sample_correlator).2).
Proof.
  split; [exact engine_new_wf|].
  destruct (diagnose_and_classify (λ _ _ _, true) diagnosis_engine_new sample_clocks sample_clocks sample_correlator) as [r c'] eqn:Hd.
  pose proof (labels_are_implied (λ _ _ _, true) diagnosis_engine_new sample_clocks sample_clocks sample_correlator c' r engine_new_wf Hd) as Hl.
  destruct r as [ds|err|].
  - destruct Hl as (w & _ & Hwf & _). exact Hwf.
  - subst c'. exact engine_new_wf.
  - subst c'. exact engine_new_wf.
Defined.

Lemma sample_drawn : drawn_fresh None history_tables [].
Proof.
  split.
  - intros fp. destruct (it_incidents history_tables !! fresh_id fp) as [r|] eqn:Hr; [exfalso|done].
    assert (map fst (map_to_list (it_incidents history_tables)) = [Npos (encode sample_fingerprint)]) as Hone by (vm_compute; reflexivity).
    assert (fresh_id fp ∈ map fst (map_to_list (it_incidents history_tables))) as Hin.
    { apply list_elem_of_fmap. exists (fresh_id fp, r). split; [done|]. by apply elem_of_map_to_list. }
    rewrite Hone in Hin. apply list_elem_of_singleton in Hin. cbn [fresh_id later_pass] in Hin. unfold sample_fingerprint in Hin. lia.
  - intros a b Heq. cbn [fresh_id later_pass] in Heq. apply N.add_cancel_l in Heq. injection Heq as Heq. by apply (inj encode).
  - intros d Hd. by apply elem_of_nil in Hd.
  - apply NoDup_nil_2.
  - intros fp. unfold since_reset. cbn. by destruct (pretty _).
Qed.

Lemma pass_keeps_in_step_witness :
  synced "lab" None sample_engine history_tables
  ∧ synced "lab" None (co_incidents sample_pass_run.2) (co_incident_tables sample_pass_run.2).
Proof.
  split; [exact sample_synced|]. destruct sample_pass_run as [r c'] eqn:Hrun.
  destruct (pass_keeps_in_step (λ _ _ _, true) diagnosis_engine_new sample_clocks sample_clocks sample_clocks sample_correlator c' r None) as (_ & Hs & _).
  - exact engine_new_wf.
  - exact sample_synced.
  - intros ds c1 Hd. assert (ds = []) as ->; [|].
    { apply classified in Hd as (w & t & _ & Hd). destruct (expire _ _ _ _ _) as [eng trs]. destruct Hd as (Hd & _ & _). revert Hd.
      unfold controller_diagnose. destruct (load_inventory _ _) as [|inv0]; [discriminate|]. cbn [of_store outcome_bind].
      destruct (windows_of _); [|discriminate]. cbn [of_panicking outcome_bind]. by intros [= <-]. }
    exact sample_drawn.
  - exact Hrun.
  - exact Hs.
Defined.
