(* ===== verification/Lexing.v ===== *)
(** * Lexing

    More of what the program takes from Rust's [str] and [std::net]: splitting
    on white space and from the right, numbers in another radix, and the
    grammar of [IpAddr::from_str] that decides whether a text is an address. *)

From S2P Require Export Text.

Local Open Scope string_scope.

(** ** Splitting *)

(** [split_whitespace]; one byte of fuel each, and one to finish. *)
Fixpoint split_whitespace_fuel (fuel : nat) (cur s : string) : list string :=
  match fuel with
  | O => []
  | S f =>
      match s with
      | EmptyString => if is_empty cur then [] else [cur]
      | String a s' =>
          match leading_ws s with
          | O => split_whitespace_fuel f (cur +:+ String a "") s'
          | n => (if is_empty cur then [] else [cur]) ++ split_whitespace_fuel f "" (drop_bytes n s)
          end
      end
  end%list.

Definition split_whitespace (s : string) : list string := split_whitespace_fuel (S (String.length s)) "" s.

(** [s.rsplit_once(p)]: at the last occurrence. *)
Fixpoint rsplit_once (p s : string) : option (string * string) :=
  match s with
  | EmptyString => (λ r, ("", r)) <$> str_strip_prefix p ""
  | String a s' =>
      match rsplit_once p s' with
      | Some (l, r) => Some (String a l, r)
      | None => (λ r, ("", r)) <$> str_strip_prefix p s
      end
  end.

(** ** UTF-8 *)

(** A byte that continues a character. *)
Definition is_continuation (a : ascii) : bool := byte_in 128 191 a.

(** [s.chars().take(n).collect()]. *)
Fixpoint take_chars (n : nat) (s : string) : string :=
  match s with
  | EmptyString => ""
  | String a s' =>
      if is_continuation a then String a (take_chars n s')
      else match n with O => "" | S n' => String a (take_chars n' s') end
  end.

(** [s.chars().count()]. *)
Fixpoint count_chars (s : string) : nat :=
  match s with
  | EmptyString => 0
  | String a s' => (if is_continuation a then 0 else 1) + count_chars s'
  end.

(** Whether the second byte of a character may follow the first. *)
Definition second_byte_fits (first second : N) : bool :=
  let within lo hi := (lo <=? second)%N && (second <=? hi)%N in
  if (first =? 224)%N then within 160%N 191%N
  else if (first =? 237)%N then within 128%N 159%N
  else if (first =? 240)%N then within 144%N 191%N
  else if (first =? 244)%N then within 128%N 143%N
  else within 128%N 191%N.

(** How many bytes a character that starts so takes. *)
Definition utf8_width (first : N) : nat :=
  if (first <? 128)%N then 1
  else if (194 <=? first)%N && (first <=? 223)%N then 2
  else if (224 <=? first)%N && (first <=? 239)%N then 3
  else if (240 <=? first)%N && (first <=? 244)%N then 4
  else 0.

(** The length of the character at the front, or of the bytes that are none. *)
Definition utf8_step (s : string) : nat * bool :=
  match String.list_ascii_of_string s with
  | [] => (0, true)
  | a :: rest =>
      let first := N_of_ascii a in
      let second_fits := match rest with b :: _ => second_byte_fits first (N_of_ascii b) | [] => false end in
      let continues i := match rest !! i with Some c => is_continuation c | None => false end in
      match utf8_width first with
      | 1 => (1, true)
      | 2 => if second_fits then (2, true) else (1, false)
      | 3 => if negb second_fits then (1, false) else if continues 1 then (3, true) else (2, false)
      | 4 => if negb second_fits then (1, false) else if negb (continues 1) then (2, false)
             else if continues 2 then (4, true) else (3, false)
      | _ => (1, false)
      end
  end%nat.

(** [char::REPLACEMENT_CHARACTER]. *)
Definition replacement_character : string := String "239" (String "191" (String "189" "")).

(** [String::from_utf8_lossy]; every step takes a byte. *)
Fixpoint from_utf8_lossy_fuel (fuel : nat) (s : string) : string :=
  match fuel, s with
  | S f, String _ _ =>
      let '(n, valid) := utf8_step s in
      (if valid then String.substring 0 n s else replacement_character) +:+ from_utf8_lossy_fuel f (drop_bytes n s)
  | _, _ => ""
  end.
Definition from_utf8_lossy (s : string) : string := from_utf8_lossy_fuel (String.length s) s.

(** ** Debug *)

Fixpoint hex_go (fuel : nat) (n : N) (acc : string) : string :=
  match fuel with
  | O => acc
  | S f =>
      let d := (n mod 16)%N in
      let acc := String (ascii_of_N (if (d <? 10)%N then 48 + d else 87 + d)) acc in
      if (n <? 16)%N then acc else hex_go f (n / 16) acc
  end.

(** [{n:x}] of a code point, which has six digits at most. *)
Definition show_hex (n : N) : string := hex_go 6 n "".

(** The code point of one character. *)
Definition code_point (c : string) : N :=
  match map N_of_ascii (String.list_ascii_of_string c) with
  | [a] => a
  | [a; b] => (a mod 32) * 64 + b mod 64
  | [a; b; c] => ((a mod 16) * 64 + b mod 64) * 64 + c mod 64
  | [a; b; c; d] => (((a mod 8) * 64 + b mod 64) * 64 + c mod 64) * 64 + d mod 64
  | _ => 0
  end%N.

Section debug.
(** Whether a character past ASCII is printed as it is: the Unicode tables the
    standard library is built with. *)
Variable printable : N → bool.

Definition debug_char (c : string) : string :=
  let n := code_point c in
  if (n =? 0)%N then "\0"
  else if (n =? 9)%N then "\t"
  else if (n =? 10)%N then "\n"
  else if (n =? 13)%N then "\r"
  else if (n =? 34)%N then String "\" (String "034" "")
  else if (n =? 92)%N then "\\"
  else if (32 <=? n)%N && (n <? 127)%N then c
  else if (127 <? n)%N && printable n then c
  else "\u{" +:+ show_hex n +:+ "}".

Fixpoint debug_chars (fuel : nat) (s : string) : string :=
  match fuel, s with
  | S f, String _ _ =>
      let n := fst (utf8_step s) in
      debug_char (String.substring 0 n s) +:+ debug_chars f (drop_bytes n s)
  | _, _ => ""
  end.

(** [{s:?}]. *)
Definition debug_str (s : string) : string := String "034" (debug_chars (String.length s) s +:+ String "034" "").
End debug.

(** [s.split(c).next()]. *)
Definition before (c : ascii) (s : string) : string := default "" (head (split_char c s)).

(** [trim_start_matches(c)] and [trim_end_matches(c)]. *)
Fixpoint trim_start_char (c : ascii) (s : string) : string :=
  match s with
  | String a s' => if decide (a = c) then trim_start_char c s' else s
  | EmptyString => ""
  end.

Fixpoint trim_end_char (c : ascii) (s : string) : string :=
  match s with
  | EmptyString => ""
  | String a s' =>
      match trim_end_char c s' with
      | EmptyString => if decide (a = c) then "" else String a ""
      | t => String a t
      end
  end.

(** [s.replace(p, r)] for a non-empty pattern. *)
Fixpoint replace_fuel (fuel : nat) (p r s : string) : string :=
  match fuel with
  | O => s
  | S f => match split_once p s with Some (l, rest) => l +:+ r +:+ replace_fuel f p r rest | None => s end
  end.
Definition str_replace (p r s : string) : string := replace_fuel (String.length s) p r s.

(** [s.split(p)] for a non-empty pattern; a piece is shorter than what is left. *)
Fixpoint split_fuel (fuel : nat) (p s : string) : list string :=
  match fuel with
  | O => [s]
  | S f => match split_once p s with Some (l, rest) => l :: split_fuel f p rest | None => [s] end
  end.
Definition str_split (p s : string) : list string := split_fuel (String.length s) p s.

Definition to_lower (a : ascii) : ascii := if is_ascii_uppercase a then ascii_of_N (N_of_ascii a + 32) else a.

Fixpoint to_ascii_lowercase (s : string) : string :=
  match s with EmptyString => "" | String a s' => String (to_lower a) (to_ascii_lowercase s') end.

(** ** Numbers *)

(** [char::to_digit]. *)
Definition to_digit (radix : N) (a : ascii) : option N :=
  let d := if is_ascii_digit a then Some (N_of_ascii a - 48)%N
           else if is_ascii_alphabetic a then Some (N_of_ascii (to_upper a) - 55)%N
           else None in
  d ← d; if (d <? radix)%N then Some d else None.

Fixpoint radix_value (radix acc : N) (s : string) : option N :=
  match s with
  | EmptyString => Some acc
  | String a s' => d ← to_digit radix a; radix_value radix (acc * radix + d) s'
  end.

(** [uN::from_str_radix(s, radix).ok()]. *)
Definition from_str_radix (max radix : N) (s : string) : option N :=
  let body := default s (str_strip_prefix "+" s) in
  if is_empty body then None
  else n ← radix_value radix 0 body; if (n <=? max)%N then Some n else None.

Definition parse_u16 : string → option N := parse_uint 65535.

(** ** Addresses *)

Inductive IpAddr := IpV4 (octets : list N) | IpV6 (segments : list N).

(** [Parser::read_number] of [core::net], for at most [max] digits. *)
Fixpoint read_digits (radix acc : N) (count max : nat) (s : string) : option (N * nat * string) :=
  match s with
  | EmptyString => Some (acc, count, s)
  | String a s' =>
      match to_digit radix a with
      | None => Some (acc, count, s)
      | Some d => if (max <? S count)%nat then None else read_digits radix (acc * radix + d) (S count) max s'
      end
  end.

Definition read_number (radix : N) (max : nat) (allow_zero_prefix : bool) (bound : N) (s : string) : option (N * string) :=
  '(n, count, rest) ← read_digits radix 0 0 max s;
  if bool_decide (count = 0%nat) then None
  else if negb allow_zero_prefix && starts_with "0" s && (1 <? count)%nat then None
  else if (n <=? bound)%N then Some (n, rest) else None.

(** [Parser::read_separator]. *)
Definition read_separator {A} (c : ascii) (index : nat) (inner : string → option (A * string)) (s : string) : option (A * string) :=
  match index with
  | O => inner s
  | _ => match s with String a s' => if decide (a = c) then inner s' else None | EmptyString => None end
  end.

(** [Parser::read_ipv4_addr]. *)
Fixpoint read_octets (more index : nat) (s : string) : option (list N * string) :=
  match more with
  | O => Some ([], s)
  | S more =>
      '(n, s) ← read_separator "." index (read_number 10 3 false 255) s;
      '(ns, s) ← read_octets more (S index) s;
      Some (n :: ns, s)
  end.

Definition read_ipv4_addr (s : string) : option (list N * string) := read_octets 4 0 s.

(** [read_groups]: the groups, whether an embedded IPv4 address ended them, and
    what is left. *)
Fixpoint read_groups (more index limit : nat) (s : string) : list N * bool * string :=
  match more with
  | O => ([], false, s)
  | S more =>
      match (if (index <? limit - 1)%nat then read_separator ":" index read_ipv4_addr s else None) with
      | Some (ns, rest) =>
          ([nth 0 ns 0 * 256 + nth 1 ns 0; nth 2 ns 0 * 256 + nth 3 ns 0]%N, true, rest)
      | None =>
          match read_separator ":" index (read_number 16 4 true 65535) s with
          | Some (n, rest) => let '(ns, v4, rest) := read_groups more (S index) limit rest in (n :: ns, v4, rest)
          | None => ([], false, s)
          end
      end
  end.

(** [Parser::read_ipv6_addr]. *)
Definition read_ipv6_addr (s : string) : option (list N * string) :=
  let '(front, front_v4, rest) := read_groups 8 0 8 s in
  if bool_decide (length front = 8%nat) then Some (front, rest)
  else if front_v4 : bool then None
  else match str_strip_prefix "::" rest with
       | None => None
       | Some rest =>
           let limit := (8 - (length front + 1))%nat in
           let '(back, _, rest) := read_groups limit 0 limit rest in
           Some ((front ++ replicate (8 - length front - length back) 0%N ++ back)%list, rest)
       end.

(** [s.parse::<IpAddr>().ok()]. *)
Definition parse_ip (s : string) : option IpAddr :=
  match read_ipv4_addr s with
  | Some (octets, rest) => if is_empty rest then Some (IpV4 octets) else None
  | None => '(segments, rest) ← read_ipv6_addr s; if is_empty rest then Some (IpV6 segments) else None
  end.

Example addresses_parse :
  map parse_ip ["10.0.0.4"; "::1"; "fe80::1"; "::ffff:192.0.2.1"; "1:2:3:4:5:6:7:8"] =
    [Some (IpV4 [10; 0; 0; 4]); Some (IpV6 [0; 0; 0; 0; 0; 0; 0; 1]); Some (IpV6 [65152; 0; 0; 0; 0; 0; 0; 1]);
     Some (IpV6 [0; 0; 0; 0; 0; 65535; 49152; 513]); Some (IpV6 [1; 2; 3; 4; 5; 6; 7; 8])]%N.
Proof. reflexivity. Qed.

Example names_do_not_parse :
  map parse_ip ["fs1"; "10.0.0"; "10.0.0.256"; "010.0.0.1"; "1.2.3.4.5"; "::1::"; "1:2:3"; "[::1]"; ""; "12345::"] =
    replicate 10 None.
Proof. reflexivity. Qed.

(** [IpAddr] is loopback, link-local or unspecified. *)
Definition is_loopback (a : IpAddr) : bool :=
  match a with
  | IpV4 o => bool_decide (nth 0 o 0 = 127)%N
  | IpV6 s => bool_decide (s = [0; 0; 0; 0; 0; 0; 0; 1]%N)
  end.

Definition is_unspecified (a : IpAddr) : bool :=
  match a with IpV4 o => bool_decide (o = [0; 0; 0; 0]%N) | IpV6 s => bool_decide (s = [0; 0; 0; 0; 0; 0; 0; 0]%N) end.

Definition is_v4_link_local (a : IpAddr) : bool :=
  match a with IpV4 o => bool_decide (nth 0 o 0 = 169 ∧ nth 1 o 0 = 254)%N | IpV6 _ => false end.

Example lossy_bytes :
  map from_utf8_lossy ["SSH-2.0-é"; "a" +:+ String "255" "b"; String "226" (String "130" "x")] = ["SSH-2.0-é"; "a" +:+ replacement_character +:+ "b"; replacement_character +:+ "x"].
Proof. reflexivity. Qed.

Example taken_chars : (take_chars 2 "éàx", count_chars "éàx") = ("éà", 3%nat).
Proof. reflexivity. Qed.

Example debugged :
  debug_str (λ _, true) ("é" +:+ String "027" (String "010" "a\b")) = String "034" ("é\u{1b}\na\\b" +:+ String "034" "").
Proof. reflexivity. Qed.
