(* ===== verification/HostNet.v ===== *)
(** * The host an agent runs on

    [src/agent/system.rs] and [src/agent/addressing.rs]: what the mount table,
    the memory table and the interfaces say, and the address a host reports.
    Reading the files and asking the kernel is I/O; the texts and lists it
    returns are arguments. *)

From S2P Require Import SlurmSpec.
From S2P Require Export Lexing.

Local Open Scope string_scope.

#[export] Instance bool_key_inj : Inj (=) (=) (λ b : bool, if b then 1%N else 0%N).
Proof. by intros [] []. Qed.
#[export] Instance bool_key_order : KeyOrder bool := key_order_inj (λ b : bool, if b then 1%N else 0%N).

(** ** The mount table *)

(** [MountInfo]. *)
Record MountInfo := mk_mount { mount_source : string; mount_target : string; mount_fstype : string; mount_options : string }.

(** [MountInfo::is_nfs], [nfs_server], [is_read_only]. *)
Definition is_nfs (m : MountInfo) : bool :=
  String.eqb (mount_fstype m) "nfs" || String.eqb (mount_fstype m) "nfs4" || starts_with "nfs" (mount_fstype m).

Definition nfs_server (m : MountInfo) : option string :=
  if negb (is_nfs m) then None
  else '(server, _) ← rsplit_once ":/" (mount_source m); Some (trim_end_char "]" (trim_start_char "[" server)).

Definition is_read_only (m : MountInfo) : bool := existsb (String.eqb "ro") (split_char "," (mount_options m)).

(** [byte as char], pushed on a [String]. *)
Definition push_latin1 (n : N) : string :=
  if (n <? 128)%N then String (ascii_of_N n) ""
  else String (ascii_of_N (192 + n / 64)) (String (ascii_of_N (128 + n mod 64)) "").

(** The loop of [unescape_mount_field]. *)
Fixpoint unescape_loop (s : string) : string :=
  match s with
  | EmptyString => ""
  | String a s1 =>
      let plain := String a (unescape_loop s1) in
      if decide (a = "\"%char) then
        match s1 with
        | String x (String y (String z rest)) =>
            match from_str_radix 255 8 (String x (String y (String z ""))) with
            | Some n => push_latin1 n +:+ unescape_loop rest
            | None => plain
            end
        | _ => plain
        end
      else plain
  end.

(** [unescape_mount_field]. *)
Definition unescape_mount_field (value : string) : string :=
  if contains "\" value then unescape_loop value else value.

(** The closure of [parse_mounts]. *)
Definition parse_mount (line : string) : option MountInfo :=
  match split_whitespace line with
  | source :: target :: fstype :: rest =>
      Some (mk_mount (unescape_mount_field source) (unescape_mount_field target) fstype (default "" (head rest)))
  | _ => None
  end.

(** [parse_mounts]. *)
Definition parse_mounts (text : string) : list MountInfo := omap parse_mount (lines text).

(** ** The machine *)

(** [HardwareSummary]. *)
Record HardwareSummary := mk_hardware { cpus : option N; memory_mb : option N; hw_gpus : option N; kernel : option string }.

(** [read_meminfo_total_mb], of the text of [/proc/meminfo]. *)
Definition meminfo_total_mb (text : option string) : option N :=
  text ← text;
  line ← head (filter (λ l, Is_true (starts_with "MemTotal:" l)) (lines text));
  kb ← split_whitespace line !! 1%nat ≫= parse_u64;
  Some (kb / 1024)%N.

(** [LinuxInspector::hostname], [fqdn], [boot_id], of what the system answers. *)
Definition linux_hostname (answer : option string) : option string := before "." <$> answer.
Definition linux_fqdn (answer : option string) : option string :=
  full ← answer; if contains "." full then Some full else None.
Definition linux_boot_id (text : option string) : option string :=
  id ← trim <$> text; if is_empty id then None else Some id.

(** [LinuxInspector::hardware]. *)
Definition linux_hardware (parallelism : option N) (meminfo osrelease : option string) : HardwareSummary :=
  mk_hardware (n ← Some (default 0%N parallelism); if (0 <? n)%N then Some n else None)
    (meminfo_total_mb meminfo) None (trim <$> osrelease).

(** ** Interfaces *)

(** [InterfaceAddress]. *)
Record InterfaceAddress := mk_interface_address { interface : string; address : string }.

#[export] Instance InterfaceAddress_eq_dec : EqDecision InterfaceAddress.
Proof. solve_decision. Defined.

Definition VIRTUAL_INTERFACE_PREFIXES : list string :=
  ["docker"; "br-"; "veth"; "virbr"; "vboxnet"; "tailscale"; "zt"; "cni"; "flannel"; "podman"; "lxc"; "lxd"; "tun"; "tap"; "wg"; "kube"].

(** [is_virtual_interface_name]. *)
Definition is_virtual_interface_name (name : string) : bool := existsb (λ p, starts_with p name) VIRTUAL_INTERFACE_PREFIXES.

(** [is_unreachable_address]. *)
Definition is_unreachable_address (address : string) : bool :=
  match parse_ip address with
  | Some (IpV4 o) => is_loopback (IpV4 o) || is_v4_link_local (IpV4 o) || is_unspecified (IpV4 o)
  | Some (IpV6 s) => is_loopback (IpV6 s) || is_unspecified (IpV6 s) || bool_decide (N.land (nth 0 s 0%N) 0xffc0 = 0xfe80)%N
  | None => true
  end.

(** The filter and the key of [rank_addresses]. *)
Definition usable_address (e : InterfaceAddress) : Prop :=
  interface e ≠ "lo" ∧ is_unreachable_address (address e) = false.

#[export] Instance usable_address_dec e : Decision (usable_address e).
Proof. unfold usable_address. apply _. Defined.

Definition address_rank (e : InterfaceAddress) : bool * bool * string * string :=
  (is_virtual_interface_name (interface e), contains ":" (address e), interface e, address e).

(** [Vec::dedup]. *)
Fixpoint dedup_adjacent (l : list string) : list string :=
  match l with
  | x :: l' => match l' with
               | y :: _ => if decide (x = y) then dedup_adjacent l' else x :: dedup_adjacent l'
               | [] => [x]
               end
  | [] => []
  end.

(** [rank_addresses]. *)
Definition rank_addresses (l : list InterfaceAddress) : list string :=
  dedup_adjacent (map address (sort_by_key address_rank (filter usable_address l))).

(** What a [SystemInspector] answers. *)
Record Inspector := mk_inspector {
  insp_hostname : option string;
  insp_fqdn : option string;
  insp_boot_id : option string;
  insp_interfaces : list InterfaceAddress;
  insp_path_exists : string → bool;
  insp_which : string → option string;
  insp_read_file : string → option string;
  insp_mounts : list MountInfo;
  insp_hardware : HardwareSummary
}.

(** [SystemInspector::addresses]. *)
Definition insp_addresses (i : Inspector) : list string := rank_addresses (insp_interfaces i).

(** ** The address to report *)

(** [AddressSource]. *)
Inductive AddressSource :=
  | Source_Configured
  | Source_Interface (name : string)
  | Source_Detected
  | Source_Ambiguous (names : list string)
  | Source_None
  | Source_InterfaceEmpty (name : string).

(** [AddressChoice]. *)
Record AddressChoice := mk_choice {
  chosen_addresses : list string;
  chosen_source : AddressSource;
  chosen_candidates : list InterfaceAddress
}.

(** [AddressChoice::primary]. *)
Definition primary (c : AddressChoice) : option string := head (chosen_addresses c).

(** The loop that collects distinct names. *)
Definition interface_names (c : AddressChoice) : list string := foldl push_unique [] (map interface (chosen_candidates c)).

(** [usable]: a ranked address goes with the first entry that has it. *)
Definition usable_candidates (all : list InterfaceAddress) : list InterfaceAddress :=
  omap (λ a, (λ e, mk_interface_address (interface e) a) <$> head (filter (λ e, address e = a) all)) (rank_addresses all).

(** [plausible_interfaces]. *)
Definition plausible_interfaces (candidates : list InterfaceAddress) : list string :=
  foldl push_unique [] (map interface (filter (λ c, is_virtual_interface_name (interface c) = false) candidates)).

(** [choose_addresses]; [address_] and [interface_] are those of [AgentConfig]. *)
Definition choose_addresses (all : list InterfaceAddress) (address_ interface_ : option string) : AddressChoice :=
  let candidates := usable_candidates all in
  match address_ with
  | Some a => mk_choice [a] Source_Configured candidates
  | None =>
      match interface_ with
      | Some name =>
          match map address (filter (λ c, interface c = name) candidates) with
          | [] => mk_choice [] (Source_InterfaceEmpty name) candidates
          | on_interface => mk_choice on_interface (Source_Interface name) candidates
          end
      | None =>
          let addresses := map address candidates in
          let plausible := plausible_interfaces candidates in
          let source := match addresses, plausible with
                        | [], _ => Source_None
                        | _, ([] | [_]) => Source_Detected
                        | _, _ => Source_Ambiguous plausible
                        end in
          mk_choice addresses source candidates
      end
  end.

(** * What the inspection promises

    A mount table is read back as it was printed; the addresses of a host do
    not depend on the order its interfaces are listed in; the interface an
    operator names is the one reported, as long as no two interfaces share an
    address. *)

(** ** Ranked addresses *)

Lemma address_rank_inj e e' : address_rank e = address_rank e' → e = e'.
Proof. destruct e as [i a], e' as [i' a']. unfold address_rank. cbn. congruence. Qed.

Lemma address_rank_inj_on l : key_inj_on address_rank l.
Proof. intros x y _ _. apply address_rank_inj. Qed.

Lemma elem_of_dedup_adjacent l x : x ∈ dedup_adjacent l ↔ x ∈ l.
Proof.
  induction l as [|y l IH]; [done|]. cbn [dedup_adjacent]. destruct l as [|z l']; [done|].
  case_decide as Heq; [subst z|]; rewrite ?elem_of_cons, IH, ?elem_of_cons; tauto.
Qed.

Lemma head_dedup l : head (dedup_adjacent l) = head l.
Proof.
  induction l as [|y l IH]; [done|]. cbn [dedup_adjacent]. destruct l as [|z l']; [done|].
  case_decide as Heq; [subst z; by rewrite IH|done].
Qed.

Definition ranked (l : list InterfaceAddress) : list InterfaceAddress := sort_by_key address_rank (filter usable_address l).

Lemma elem_of_usable_ranked l e : e ∈ ranked l ↔ usable_address e ∧ e ∈ l.
Proof. unfold ranked. by rewrite sort_by_key_perm, list_elem_of_filter. Qed.

Lemma ranked_perm l l' : l ≡ₚ l' → ranked l = ranked l'.
Proof. intros Hp. apply sort_by_key_proper; [apply address_rank_inj_on|]. by rewrite Hp. Qed.

Lemma elem_of_rank_addresses l a : a ∈ rank_addresses l ↔ ∃ e, e ∈ l ∧ usable_address e ∧ address e = a.
Proof.
  unfold rank_addresses. rewrite elem_of_dedup_adjacent, list_elem_of_fmap. split.
  - intros (e & -> & [Hu He]%elem_of_usable_ranked). by exists e.
  - intros (e & He & Hu & <-). exists e. split; [done|]. by apply elem_of_usable_ranked.
Qed.

(** The first entry of a sorted list ranks no later than any other. *)
Lemma ranked_head l e e' : head (ranked l) = Some e → e' ∈ ranked l → key_le (address_rank e) (address_rank e').
Proof.
  pose proof (sort_by_key_sorted address_rank (filter usable_address l)) as Hs. fold (ranked l) in Hs.
  destruct (ranked l) as [|x r]; [done|]. intros [= <-] [->|Hin]%elem_of_cons; [reflexivity|].
  apply StronglySorted_inv in Hs as [_ Hs]. rewrite Forall_forall in Hs. by apply Hs.
Qed.

Lemma rank_order e e' : key_le (address_rank e) (address_rank e') →
  (is_virtual_interface_name (interface e) = true → is_virtual_interface_name (interface e') = true)
  ∧ (is_virtual_interface_name (interface e) = is_virtual_interface_name (interface e') →
       contains ":" (address e) = true → contains ":" (address e') = true).
Proof.
  unfold address_rank. destruct e as [i a], e' as [i' a']. cbn [interface address].
  intros [[[Hv Hc] _] _]. cbn [fst snd] in *. split.
  - intros Hi. rewrite Hi in Hv. destruct (is_virtual_interface_name i'); [done|]. cbn in Hv. lia.
  - intros Hi Ha. specialize (Hc Hi). rewrite Ha in Hc. destruct (contains ":" a'); [done|]. cbn in Hc. lia.
Qed.

(** The addresses a host reports depend on which addresses its interfaces
    have and not on the order they are listed in; they are exactly those that
    are not on the loopback interface and can be reached from elsewhere; and the
    first, which peers probe, is on a physical interface if any is, and is IPv4
    if its kind of interface has one. *)
Theorem addresses_are_stable (l l' : list InterfaceAddress) :
  l ≡ₚ l' →
  rank_addresses l = rank_addresses l'
  ∧ (∀ a, a ∈ rank_addresses l ↔ ∃ e, e ∈ l ∧ interface e ≠ "lo" ∧ is_unreachable_address (address e) = false ∧ address e = a)
  ∧ ∀ a, head (rank_addresses l) = Some a → ∃ e, e ∈ l ∧ usable_address e ∧ address e = a
      ∧ ∀ e', e' ∈ l → usable_address e' →
          (is_virtual_interface_name (interface e) = true → is_virtual_interface_name (interface e') = true)
          ∧ (is_virtual_interface_name (interface e) = is_virtual_interface_name (interface e') →
               contains ":" a = true → contains ":" (address e') = true).
Proof.
  intros Hp. split_and!.
  - unfold rank_addresses. fold (ranked l) (ranked l'). by rewrite (ranked_perm _ _ Hp).
  - intros a. rewrite elem_of_rank_addresses. unfold usable_address. naive_solver.
  - intros a Ha. unfold rank_addresses in Ha. rewrite head_dedup in Ha. fold (ranked l) in Ha.
    destruct (ranked l) as [|e r] eqn:Hr; [done|]. injection Ha as <-.
    assert (e ∈ ranked l) as [Hu He]%elem_of_usable_ranked by (rewrite Hr; by left). exists e. split_and!; [done..|].
    intros e' He' Hu'. apply rank_order, (ranked_head l); [by rewrite Hr|by apply elem_of_usable_ranked].
Qed.

(** ** The chosen interface *)

Lemma first_with_address all e : NoDup (map address all) → e ∈ all → head (filter (λ e', address e' = address e) all) = Some e.
Proof.
  induction all as [|x all IH]; [by intros _ ?%elem_of_nil|]. cbn [map]. intros [Hx Hnd]%NoDup_cons Hin. rewrite filter_cons.
  apply elem_of_cons in Hin as [->|Hin]; [by rewrite decide_True|].
  rewrite decide_False; [by apply IH|]. intros Heq. apply Hx. rewrite Heq. by apply list_elem_of_fmap_2.
Qed.

Lemma dedup_NoDup l : NoDup l → dedup_adjacent l = l.
Proof.
  induction l as [|x l IH]; [done|]. intros [Hx Hnd]%NoDup_cons. cbn [dedup_adjacent]. destruct l as [|y l']; [done|].
  rewrite decide_False by (intros ->; apply Hx; by left). by rewrite IH.
Qed.

Lemma candidates_ranked all : NoDup (map address all) → usable_candidates all = ranked all.
Proof.
  intros Hnd. unfold usable_candidates, rank_addresses. fold (ranked all).
  rewrite dedup_NoDup.
  - assert (∀ e, e ∈ ranked all → e ∈ all) as Hin by (intros e [_ ?]%elem_of_usable_ranked; done).
    induction (ranked all) as [|e r IH]; [done|]. cbn [map omap list_omap].
    rewrite (first_with_address all e Hnd) by (apply Hin; by left). cbn. f_equal; [by destruct e|].
    apply IH. intros e' He'. apply Hin. by right.
  - unfold ranked. rewrite (fmap_Permutation address _ _ (sort_by_key_perm address_rank _)).
    apply (sublist_NoDup _ (map address all)); [done|]. apply fmap_sublist, sublist_filter.
Qed.

(** The interface an operator names is respected: when no address is on
    two interfaces, the addresses reported are exactly the reachable ones of
    that interface, and when it has none nothing is reported in its stead. *)
Theorem interface_setting_respected (all : list InterfaceAddress) (name : string) :
  NoDup (map address all) → name ≠ "lo" →
  let c := choose_addresses all None (Some name) in
  (∀ a, a ∈ chosen_addresses c ↔ ∃ e, e ∈ all ∧ interface e = name ∧ is_unreachable_address (address e) = false ∧ address e = a)
  ∧ (chosen_source c = Source_InterfaceEmpty name ↔ chosen_addresses c = [])
  ∧ (chosen_source c = Source_InterfaceEmpty name ∨ chosen_source c = Source_Interface name).
Proof.
  intros Hnd Hlo c.
  assert (chosen_addresses c = map address (filter (λ e, interface e = name) (ranked all))
    ∧ chosen_source c = match map address (filter (λ e, interface e = name) (ranked all)) with
                        | [] => Source_InterfaceEmpty name | _ => Source_Interface name end) as [-> ->].
  { unfold c, choose_addresses. rewrite candidates_ranked by done. by destruct (map address (filter (λ e, interface e = name) (ranked all))). }
  set (found := map address _). assert (found = map address (filter (λ e, interface e = name) (ranked all))) as Hf by done.
  clearbody found. split_and!.
  - intros a. rewrite Hf, list_elem_of_fmap. setoid_rewrite list_elem_of_filter. setoid_rewrite elem_of_usable_ranked. unfold usable_address.
    split; [intros (e & -> & Hi & [_ Hu] & He)|intros (e & He & Hi & Hu & <-)]; exists e; split_and!; done || congruence.
  - by destruct found.
  - destruct found; [by left|by right].
Qed.

(** The loopback interface may carry the address of another, and is then the
    one it is taken for: the setting of the operator finds nothing. *)
Example shared_address_is_lost :
  chosen_source (choose_addresses [mk_interface_address "lo" "10.0.0.5"; mk_interface_address "eth0" "10.0.0.5"] None (Some "eth0"))
    = Source_InterfaceEmpty "eth0".
Proof. reflexivity. Qed.

Lemma interface_setting_respected_witness :
  let all := [mk_interface_address "lo" "127.0.0.1"; mk_interface_address "eth0" "10.0.0.5"; mk_interface_address "docker0" "172.17.0.1"] in
  NoDup (map address all) ∧ chosen_source (choose_addresses all None (Some "eth0")) = Source_Interface "eth0".
Proof.
  intros all. assert (NoDup (map address all)) as Hnd by (apply (bool_decide_eq_true_1 _); reflexivity). split; [exact Hnd|].
  destruct (interface_setting_respected all "eth0" Hnd ltac:(discriminate)) as (Ha & He & [Hs|Hs]); [|exact Hs].
  assert ("10.0.0.5" ∈ chosen_addresses (choose_addresses all None (Some "eth0"))) as Hin.
  { apply Ha. exists (mk_interface_address "eth0" "10.0.0.5"). split_and!; [right; by left|reflexivity..]. }
  rewrite (proj1 He Hs) in Hin. by apply elem_of_nil in Hin.
Defined.

Lemma addresses_are_stable_witness :
  rank_addresses [mk_interface_address "docker0" "172.17.0.1"; mk_interface_address "eth0" "10.0.0.5"]
  = rank_addresses [mk_interface_address "eth0" "10.0.0.5"; mk_interface_address "docker0" "172.17.0.1"].
Proof.
  destruct (addresses_are_stable [mk_interface_address "docker0" "172.17.0.1"; mk_interface_address "eth0" "10.0.0.5"]
    [mk_interface_address "eth0" "10.0.0.5"; mk_interface_address "docker0" "172.17.0.1"]) as [Heq _]; [apply Permutation_swap|exact Heq].
Defined.

(** ** The mount table *)

(** A byte that starts no white space and no longer character that could be. *)
Definition token_byte (a : ascii) : bool :=
  let n := N_of_ascii a in
  negb (bool_decide (9 ≤ n ≤ 13)%N) && negb (bool_decide (n = 32)%N) && negb (bool_decide (n ∈ [194; 225; 226; 227]%N)).

(** What the kernel writes for the bytes that would end a field. *)
Definition kernel_escape (a : ascii) : option string :=
  if decide (a = " "%char) then Some "\040"
  else if decide (a = "009"%char) then Some "\011"
  else if decide (a = "010"%char) then Some "\012"
  else if decide (a = "\"%char) then Some "\134"
  else None.

Fixpoint escape_field (s : string) : string :=
  match s with
  | EmptyString => ""
  | String a s' => default (String a "") (kernel_escape a) +:+ escape_field s'
  end.

Definition raw_byte (a : ascii) : bool := token_byte a || bool_decide (is_Some (kernel_escape a)).

Lemma token_no_ws a s : token_byte a = true → leading_ws (String a s) = 0%nat.
Proof.
  unfold token_byte, leading_ws. rewrite !andb_true_iff, !negb_true_iff, !bool_decide_eq_false.
  cbn [String.list_ascii_of_string]. intros [[H1 H2] H3]. rewrite !bool_decide_eq_false_2 by done. cbn [orb].
  rewrite !not_elem_of_cons in H3. destruct H3 as (H194 & H225 & H226 & H227 & _).
  destruct (map N_of_ascii _) as [|b [|c l]]; [done| |]; rewrite ?bool_decide_eq_false_2; naive_solver.
Qed.

Lemma string_app_char cur a s : (cur +:+ String a "") +:+ s = cur +:+ String a s.
Proof. by rewrite <- string_app_assoc. Qed.

Lemma split_token n cur s rest :
  all_bytes token_byte s = true →
  split_whitespace_fuel (String.length s + n) cur (s +:+ rest) = split_whitespace_fuel n (cur +:+ s) rest.
Proof.
  revert cur. induction s as [|a s IH]; intros cur; [by rewrite string_app_nil_r|].
  cbn [all_bytes]. intros [Ha Hs]%andb_true_iff. change (String a s +:+ rest) with (String a (s +:+ rest)). cbn [String.length Nat.add split_whitespace_fuel].
  rewrite (token_no_ws a _ Ha). rewrite IH by done. by rewrite string_app_char.
Qed.

Lemma split_space n cur rest :
  cur ≠ "" → split_whitespace_fuel (S n) cur (" " +:+ rest) = cur :: split_whitespace_fuel n "" rest.
Proof. intros Hc. cbn. unfold is_empty. destruct (String.eqb_spec cur ""); [done|]. done. Qed.

Lemma escape_tokens s : all_bytes raw_byte s = true → all_bytes token_byte (escape_field s) = true.
Proof.
  induction s as [|a s IH]; [done|]. cbn [all_bytes escape_field]. intros [Ha Hs]%andb_true_iff. specialize (IH Hs).
  unfold raw_byte, kernel_escape in *. repeat case_decide; cbn [default from_option id]; rewrite all_bytes_app, IH; try done.
  rewrite orb_true_iff, bool_decide_eq_true in Ha. destruct Ha as [Ha|[]%is_Some_None]. cbn. by rewrite Ha.
Qed.

Lemma unescape_escape s : unescape_loop (escape_field s) = s.
Proof.
  induction s as [|a s IH]; [done|]. cbn [escape_field]. unfold kernel_escape.
  assert (∀ t, unescape_loop (String a "" +:+ t) = if decide (a = "\"%char) then unescape_loop (String "\" t) else String a (unescape_loop t))
    as Hplain by (intros t; change (String a "" +:+ t) with (String a t); case_decide; [by subst|cbn [unescape_loop]; by rewrite decide_False]).
  assert (unescape_loop ("\040" +:+ escape_field s) = String " " (unescape_loop (escape_field s))
    ∧ unescape_loop ("\011" +:+ escape_field s) = String "009" (unescape_loop (escape_field s))
    ∧ unescape_loop ("\012" +:+ escape_field s) = String "010" (unescape_loop (escape_field s))
    ∧ unescape_loop ("\134" +:+ escape_field s) = String "\" (unescape_loop (escape_field s))) as (H1 & H2 & H3 & H4) by done.
  repeat case_decide; subst; cbn [default from_option id]; rewrite ?H1, ?H2, ?H3, ?H4, ?Hplain, IH; try done.
Qed.

Lemma unescape_plain s : contains "\" s = false → unescape_loop s = s.
Proof.
  induction s as [|a s IH]; [done|]. cbn [contains]. intros [Ha Hs]%orb_false_iff. cbn [unescape_loop].
  rewrite IH by done. rewrite decide_False; [done|]. intros ->. done.
Qed.

Lemma unescape_mount_field_loop s : unescape_mount_field s = unescape_loop s.
Proof. unfold unescape_mount_field. destruct (contains "\" s) eqn:Hc; [done|]. by rewrite unescape_plain. Qed.

(** A line of [/proc/mounts], and the table. *)
Definition print_mount (m : MountInfo) : string :=
  escape_field (mount_source m) +:+ " " +:+ escape_field (mount_target m) +:+ " " +:+ mount_fstype m +:+ " "
  +:+ mount_options m +:+ " 0 0".

Definition print_mounts (ms : list MountInfo) : string := print_lines (map print_mount ms).

(** Fields the kernel can print: not empty, and no white space but what it
    escapes. *)
Definition mount_ok (m : MountInfo) : bool :=
  forallb (λ s, negb (is_empty s) && all_bytes raw_byte s) [mount_source m; mount_target m]
  && forallb (λ s, negb (is_empty s) && all_bytes token_byte s) [mount_fstype m; mount_options m].

Lemma escape_nonempty s : s ≠ "" → escape_field s ≠ "".
Proof. destruct s as [|a s]; [done|]. intros _. cbn. unfold kernel_escape. by repeat case_decide. Qed.

Lemma split_field n s rest :
  s ≠ "" → all_bytes token_byte s = true →
  split_whitespace_fuel (String.length s + S n) "" (s +:+ " " +:+ rest) = s :: split_whitespace_fuel n "" rest.
Proof. intros Hne Hs. rewrite split_token by done. by rewrite split_space. Qed.

Lemma parse_print_mount m : mount_ok m = true → parse_mount (print_mount m) = Some m.
Proof.
  unfold mount_ok. cbn [forallb]. rewrite !andb_true_iff, !negb_true_iff. intros [[[H1 H1'] [[H2 H2'] _]] [[H3 H3'] [[H4 H4'] _]]].
  assert (∀ s, is_empty s = false → s ≠ "") as Hne by (intros s Hs ->; done).
  unfold parse_mount, split_whitespace.
  assert (split_whitespace_fuel (S (String.length (print_mount m))) "" (print_mount m)
    = [escape_field (mount_source m); escape_field (mount_target m); mount_fstype m; mount_options m; "0"; "0"]) as ->.
  { unfold print_mount. rewrite !string_length_app. cbn [String.length].
    assert (∀ a b c d, S (a + (1 + (b + (1 + (c + (1 + (d + 4)))))))%nat = (a + S (b + S (c + S (d + S 4))))%nat) as -> by lia.
    change " 0 0" with (" " +:+ "0 0").
    rewrite !split_field; auto using escape_nonempty, escape_tokens. }
  cbn [head default from_option]. rewrite !unescape_mount_field_loop, !unescape_escape. by destruct m.
Qed.

Lemma token_line_ok s t :
  all_bytes token_byte s = true → count_char line_feed (s +:+ t) = count_char line_feed t.
Proof.
  induction s as [|a s IH]; [done|]. cbn [all_bytes]. intros [Ha Hs]%andb_true_iff. change (String a s +:+ t) with (String a (s +:+ t)). cbn [count_char].
  rewrite IH by done. rewrite decide_False; [done|]. intros ->. done.
Qed.

Lemma print_mount_line m : mount_ok m = true → line_ok (print_mount m) = true.
Proof.
  unfold mount_ok. cbn [forallb]. rewrite !andb_true_iff. intros [[[_ H1] [[_ H2] _]] [[_ H3] [[_ H4] _]]].
  unfold line_ok, print_mount. rewrite andb_true_iff, bool_decide_eq_true, negb_true_iff. split.
  - rewrite !count_char_app, <- (string_app_nil_r (escape_field (mount_source m))), <- (string_app_nil_r (escape_field (mount_target m))),
      <- (string_app_nil_r (mount_fstype m)), <- (string_app_nil_r (mount_options m)).
    rewrite !token_line_ok by auto using escape_tokens. done.
  - rewrite !string_app_assoc. change " 0 0" with (" 0 " +:+ "0"). rewrite string_app_assoc. generalize (((((((escape_field (mount_source m) +:+ " ") +:+ escape_field (mount_target m)) +:+ " ") +:+ mount_fstype m) +:+ " ") +:+ mount_options m) +:+ " 0 ").
    intros s. induction s as [|a s IH]; [done|]. change (String a s +:+ "0") with (String a (s +:+ "0")). cbn [ends_with]. rewrite IH. apply orb_false_iff. split; [|done].
    apply String.eqb_neq. unfold carriage_return. destruct s; discriminate.
Qed.

(** What the kernel prints of a mount table is read back as it was,
    whatever spaces, tabs, line feeds and backslashes its names hold. *)
Theorem mounts_roundtrip (ms : list MountInfo) :
  Forall (λ m, mount_ok m = true) ms → parse_mounts (print_mounts ms) = ms.
Proof.
  intros Hall. unfold parse_mounts, print_mounts. rewrite lines_print_lines.
  - rewrite (omap_map_ext parse_mount print_mount Some).
    + clear Hall. induction ms as [|m ms IH]; [done|]. cbn. by rewrite IH.
    + intros m Hm. rewrite Forall_forall in Hall. by apply parse_print_mount, Hall.
  - apply Forall_fmap. apply (Forall_impl _ _ _ Hall). intros m Hm. by apply print_mount_line.
Qed.

Lemma mounts_roundtrip_witness :
  let m := mk_mount "fs1:/data" "/srv/my data" "nfs4" "rw,relatime" in
  parse_mounts (print_mounts [m]) = [m] ∧ nfs_server m = Some "fs1".
Proof.
  intros m. split; [|reflexivity]. apply mounts_roundtrip. apply Forall_cons. split; [reflexivity|apply Forall_nil; exact I].
Defined.

(** The control file system of a server is taken for a mount of one, and a
    colon and a slash in the name of an export move the end of the server. *)
Example server_control_is_nfs : is_nfs (mk_mount "nfsd" "/proc/fs/nfsd" "nfsd" "rw") = true.
Proof. reflexivity. Qed.

Example export_with_colon : nfs_server (mk_mount "fs1:/a:/b" "/mnt" "nfs4" "rw") = Some "fs1:/a".
Proof. reflexivity. Qed.
