(* ===== verification/AgentDiscovery.v ===== *)
(** * What a host can do

    [src/agent/discovery.rs] and [src/integrations/slurm/detect.rs]: the
    capabilities an agent finds on its host, from what the inspector answers,
    and what the operator's overrides and the roles make of them. *)

From S2P Require Export HostNet Hostlist Capability Registration SlurmView Probes.

Local Open Scope string_scope.

Definition STORAGE_ZFS : Capability := "storage.zfs".
Definition STORAGE_SMART : Capability := "storage.smart".
Definition STORAGE_LOCAL : Capability := "storage.local".

(** [role_hints]. *)
Definition role_hints (role : string) : gset Capability :=
  list_to_set (if String.eqb role "controller" then [SLURM_CONTROLLER; OBSERVER_PEER]
               else if String.eqb role "compute" then [SLURM_COMPUTE]
               else if String.eqb role "fileserver" then [CAP_STORAGE_NFS_SERVER; OBSERVER_PEER]
               else if String.eqb role "observer" then [OBSERVER_PEER]
               else if String.eqb role "login" then [CAP_SSH_SERVER]
               else []).

(** ** The port of [sshd] *)

Definition SSHD_CONFIG_PATH : string := "/etc/ssh/sshd_config".

(** [line.split('#').next().unwrap_or("").trim()]. *)
Definition without_comment (line : string) : string := trim (before "#" line).

(** The loop of [parse_sshd_port]. *)
Fixpoint sshd_port_from (ls : list string) (from_listen_address : option N) : option N :=
  match ls with
  | [] => from_listen_address
  | line :: ls =>
      match split_whitespace (without_comment line) with
      | [] => sshd_port_from ls from_listen_address
      | keyword :: fields =>
          match (if eq_ignore_ascii_case keyword "Port" then head fields ≫= parse_u16 else None) with
          | Some port => Some port
          | None =>
              sshd_port_from ls
                (if eq_ignore_ascii_case keyword "ListenAddress" && bool_decide (from_listen_address = None)
                 then match head fields with
                      | Some value => '(_, port) ← rsplit_once ":" value; parse_u16 port
                      | None => from_listen_address
                      end
                 else from_listen_address)
          end
      end
  end.

(** [parse_sshd_port] and [detect_ssh_port]. *)
Definition parse_sshd_port (config : string) : option N := sshd_port_from (lines config) None.
Definition detect_ssh_port (i : Inspector) : option N := insp_read_file i SSHD_CONFIG_PATH ≫= parse_sshd_port.

(** ** Slurm *)

Definition DEFAULT_CONFIG_PATHS : list string := ["/etc/slurm/slurm.conf"; "/etc/slurm-llnl/slurm.conf"].

(** [SlurmRoles]. *)
Record SlurmRoles := mk_roles { role_controller : bool; role_compute : bool }.

(** [directive]. *)
Definition directive (line key : string) : option string :=
  rest ← str_strip_prefix key line; str_strip_prefix "=" (trim_start rest).

(** [names_match]. *)
Definition short_name (s : string) : string := to_ascii_lowercase (before "." s).
Definition names_match (a b : string) : bool := String.eqb (short_name a) (short_name b).

(** The body of the loop of [roles_from_config]. *)
Definition roles_step (hostname : string) (roles : SlurmRoles) (line : string) : SlurmRoles :=
  let line := without_comment line in
  if is_empty line then roles
  else match directive line "SlurmctldHost" with
  | Some value =>
      if names_match (trim (before "(" value)) hostname then mk_roles true (role_compute roles) else roles
  | None =>
      match directive line "ControlMachine" with
      | Some value => if names_match (trim value) hostname then mk_roles true (role_compute roles) else roles
      | None =>
          match directive line "NodeName" with
          | Some value =>
              let nodes := default "" (head (split_whitespace value)) in
              if String.eqb nodes "DEFAULT" then roles
              else if existsb (λ n, names_match n hostname) (expand nodes) then mk_roles (role_controller roles) true
              else roles
          | None => roles
          end
      end
  end.

(** [roles_from_config]. *)
Definition roles_from_config (config hostname : string) : SlurmRoles :=
  foldl (roles_step hostname) (mk_roles false false) (lines config).

(** [detect] of the Slurm integration. *)
Definition outcome_of (present : bool) : DiscoveryOutcome := if present then Detected else NotDetected.

Definition detect_slurm (hostname : string) (read_config : string → option string) (has_program : string → bool) :
    gmap Capability DiscoveryOutcome :=
  let config := head (omap read_config DEFAULT_CONFIG_PATHS) in
  let '(controller, compute) :=
    match config with
    | Some config =>
        let roles := roles_from_config config hostname in
        (role_controller roles && has_program "slurmctld", role_compute roles && has_program "slurmd")
    | None => (false, false)
    end in
  <[ SLURM_COMPUTE := outcome_of compute ]> (<[ SLURM_CONTROLLER := outcome_of controller ]> ∅).

(** ** Detection *)

(** The capabilities [detect] records itself, in its order. *)
Definition detected_here (i : Inspector) : list (Capability * bool) :=
  let which p := bool_decide (is_Some (insp_which i p)) in
  let systemd := insp_path_exists i "/run/systemd/system" in
  [(CAP_HOST_METRICS, true);
   (SENTINEL_AGENT, true);
   (CAP_NETWORK_TCP, true);
   (CAP_SYSTEMD, systemd);
   (CAP_JOURNAL_READ, systemd && which "journalctl");
   (CAP_SSH_SERVER, insp_path_exists i "/etc/ssh/sshd_config" || which "sshd");
   (GPU_NVIDIA, which "nvidia-smi");
   (STORAGE_NFS_CLIENT, existsb is_nfs (insp_mounts i));
   (CAP_STORAGE_NFS_SERVER, insp_path_exists i "/etc/exports" || which "exportfs");
   (STORAGE_ZFS, which "zpool");
   (STORAGE_SMART, which "smartctl");
   (STORAGE_LOCAL, true)].

(** The closure [record]. *)
Definition record_outcome (m : gmap Capability DiscoveryOutcome) (r : Capability * bool) : gmap Capability DiscoveryOutcome :=
  <[ r.1 := outcome_of r.2 ]> m.

(** [detect]. *)
Definition detect (i : Inspector) : gmap Capability DiscoveryOutcome :=
  detect_slurm (default "" (insp_hostname i)) (insp_read_file i) (λ p, bool_decide (is_Some (insp_which i p)))
  ∪ foldl record_outcome ∅ (detected_here i).

(** [resolve]. *)
Definition hints_of (roles : list string) : gset Capability := ⋃ map role_hints roles.

Definition resolve (i : Inspector) (overrides : gmap string CapabilityOverride) (roles : list string) : Resolution :=
  resolve_capabilities (detect i) overrides (hints_of roles).

(** [hardware]. *)
Definition hardware (i : Inspector) (gpu_count : option N) : HardwareSummary :=
  let h := insp_hardware i in mk_hardware (cpus h) (memory_mb h) gpu_count (kernel h).

(** ** A role grants nothing by itself *)

Lemma recorded_lookup l (m : gmap Capability DiscoveryOutcome) c :
  c ∈ l.*1 → is_Some (foldl record_outcome m l !! c).
Proof.
  assert (∀ l m, is_Some (m !! c) → is_Some (foldl record_outcome m l !! c)) as Hkeep.
  { intros l0. induction l0 as [|r l0 IH]; intros m0 Hm; [done|]. cbn [foldl]. apply IH. unfold record_outcome.
    destruct (decide (r.1 = c)) as [->|Hne]; [by rewrite lookup_insert_eq|by rewrite lookup_insert_ne]. }
  revert m. induction l as [|r l IH]; intros m; [by intros ?%elem_of_nil|]. cbn [fmap list_fmap foldl].
  intros [->|Hin]%elem_of_cons; [|by apply IH]. apply Hkeep. unfold record_outcome. by rewrite lookup_insert_eq.
Qed.

(** Whatever a role hints at has been looked for, except observing. *)
Lemma hinted_is_detected i role c : c ∈ role_hints role → c = OBSERVER_PEER ∨ is_Some (detect i !! c).
Proof.
  intros Hc. assert (c = OBSERVER_PEER ∨ c ∈ [SLURM_CONTROLLER; SLURM_COMPUTE] ∨ c ∈ (detected_here i).*1) as [?|Hin].
  { unfold role_hints in Hc. rewrite elem_of_list_to_set in Hc. cbn [fmap list_fmap detected_here fst].
    repeat case_match; rewrite ?elem_of_cons, ?elem_of_nil in *; intuition subst; auto 20. }
  { by left. }
  right. unfold detect. rewrite lookup_union_is_Some. destruct Hin as [Hin|Hin]; [left|right].
  - unfold detect_slurm. destruct (match head _ with Some _ => _ | None => _ end) as [controller compute].
    apply elem_of_cons in Hin as [->|Hin]; [rewrite lookup_insert_ne by done; by rewrite lookup_insert_eq|].
    apply list_elem_of_singleton in Hin as ->. by rewrite lookup_insert_eq.
  - by apply recorded_lookup.
Qed.

(** A capability is on only because the operator forced it or wished it
    where nothing was looked for, because the host was found to have it, or, for
    observing others alone, because a role says so: a role never turns on what a
    look at the host could have found and did not. *)
Theorem roles_only_grant_observing (i : Inspector) (overrides : gmap string CapabilityOverride) (roles : list string)
    (c : Capability) :
  c ∈ enabled (resolve i overrides roles) →
  overrides !! c = Some Override_Force
  ∨ detect i !! c = Some Detected
  ∨ (detect i !! c = None
     ∧ (overrides !! c = Some Override_Enable ∨ (c = OBSERVER_PEER ∧ ∃ role, role ∈ roles ∧ c ∈ role_hints role))).
Proof.
  intros Hc. unfold resolve in Hc. pose proof (resolve_capabilities_spec (detect i) overrides (hints_of roles) c) as [Hon _].
  apply Hon in Hc as (_ & [?|[?|[Hno [?|Hhint]]]]); [tauto..|]. right. right. split; [done|]. right.
  unfold hints_of in Hhint. apply elem_of_union_list in Hhint as (X & (role & -> & Hrole)%list_elem_of_fmap & Hin).
  destruct (hinted_is_detected i role c Hin) as [->|[o Ho]]; [|congruence]. split; [done|]. by exists role.
Qed.

(** ** Samples *)

(** A bare IPv6 address to listen on ends in what is taken for a port. *)
Example bare_v6_listen_address : parse_sshd_port "ListenAddress fe80::22" = Some 22%N.
Proof. reflexivity. Qed.

Example port_wins : parse_sshd_port ("ListenAddress 10.0.0.1:2200" +:+ String "010" "Port 2222 # moved") = Some 2222%N.
Proof. reflexivity. Qed.

Example roles_of_a_node :
  roles_from_config ("SlurmctldHost=ctl-a(10.0.0.1)" +:+ String "010" "NodeName=compute[01-03] CPUs=4") "compute02.example.org"
  = mk_roles false true.
Proof. reflexivity. Qed.

Definition compute_host : Inspector :=
  mk_inspector (Some "compute02") None None [] (λ _, false) (λ p, if String.eqb p "slurmd" then Some "/usr/sbin/slurmd" else None)
    (λ p, if String.eqb p "/etc/slurm/slurm.conf" then Some "NodeName=compute[01-03]" else None) [] (mk_hardware None None None None).

Lemma roles_only_grant_observing_witness :
  SLURM_COMPUTE ∈ enabled (resolve compute_host ∅ ["fileserver"]) ∧ detect compute_host !! SLURM_COMPUTE = Some Detected.
Proof.
  assert (SLURM_COMPUTE ∈ enabled (resolve compute_host ∅ ["fileserver"])) as Hin by (apply (bool_decide_eq_true_1 _); vm_compute; reflexivity).
  split; [exact Hin|]. destruct (roles_only_grant_observing compute_host ∅ ["fileserver"] SLURM_COMPUTE Hin) as [Hf|[Hd|[Hno _]]].
  - rewrite lookup_empty in Hf. discriminate Hf.
  - exact Hd.
  - exfalso. assert (bool_decide (detect compute_host !! SLURM_COMPUTE = None) = false) as Hd by (vm_compute; reflexivity).
    apply bool_decide_eq_false in Hd. exact (Hd Hno).
Defined.
