(* ===== verification/Topology.v ===== *)
(** * Storage topology

    [src/inventory/nfs.rs]: the edges of the dependency graph that the mounts
    the agents report amount to, and the servers an operator has to declare. *)

From S2P Require Import Concrete.
From S2P Require Export Inventory Observation Lexing Probes SlurmViewSpec.

Local Open Scope string_scope.

(** * Storage topology

    [src/inventory/nfs.rs]: the edges of the dependency graph that the mounts
    the agents report amount to, and the servers an operator has to declare. *)

(** [SOURCE]. *)
Definition NFS_SOURCE : string := "nfs".

(** [UnresolvedServer]. *)
Record UnresolvedServer := mk_unresolved { unresolved_server : string; unresolved_clients : list string }.

(** [storage_name]. *)
Definition storage_name (server : string) : string := server.

(** [is_address]. *)
Definition is_address (server : string) : bool := bool_decide (is_Some (parse_ip server)).

Section topology.
Context `{J : JsonApi} `{U : UuidApi}.

(** [StorageTopology]. *)
Record StorageTopology := mk_topology { topology_snapshot : InventorySnapshot; topology_unresolved : list UnresolvedServer }.

(** [StorageTopology::edges]. *)
Definition topology_edges (t : StorageTopology) : nat :=
  length (filter (λ e, dependency_type e = UsesStorage) (snapshot_dependencies (topology_snapshot t))).

(** [servers_in]. *)
Definition elements_of (payload : json) (key : string) : option (list json) := json_get payload key ≫= json_as_array.

Definition strings_of (xs : list json) : list string := omap json_as_str xs.

Definition mount_servers (mounts : list json) : list string := omap (λ m : json, json_get m "server" ≫= json_as_str) mounts.

Definition servers_in (o : Observation) : list string :=
  let found : gset string :=
    match elements_of (payload o) "mounts" with
    | Some mounts => list_to_set (mount_servers mounts)
    | None => ∅
    end in
  btree_elements
    (if decide (found = ∅) then
       match elements_of (payload o) "servers" with
       | Some servers => list_to_set (strings_of servers)
       | None => found
       end
     else found).

(** [has_address]. *)
Definition lists_address (value : option json) (address : string) : bool :=
  match value ≫= json_as_array with
  | Some addresses => bool_decide (address ∈ strings_of addresses)
  | None => false
  end.

Definition has_address (e : ManagedEntity) (address : string) : bool :=
  lists_address (json_get (entity_metadata e) "addresses") address
  || lists_address (json_get (entity_metadata e) "host" ≫= λ h, json_get h "addresses") address.

Section resolving.
Variables (environment : string) (inv : Inventory).

Definition host_id (name : string) : EntityId := entity_id_of environment Entity_Host name.
Definition storage_id (name : string) : EntityId := entity_id_of environment Entity_Storage name.

(** [resolve]. *)
Definition resolve_server (server : string) : option string :=
  if is_address server then
    canonical_name <$> head (filter (λ e, entity_kind e = Entity_Host ∧ has_address e server = true) (entities inv))
  else
    let short := before "." server in
    if decide (is_Some (get inv (host_id server))) then Some server
    else if decide (is_Some (get inv (host_id short))) then Some short
    else match head (filter (λ e, entity_kind e = Entity_Host ∧ eq_ignore_ascii_case (canonical_name e) short = true) (entities inv)) with
         | Some e => Some (canonical_name e)
         | None => Some short
         end.

(** ** The servers of the mounts *)

(** The body of the loop over the servers of one observation. *)
Definition claim_step (o : Observation) (m : gmap string (gset EntityId) * gmap string (gset string)) (server : string) :
    gmap string (gset EntityId) * gmap string (gset string) :=
  match resolve_server server with
  | Some host => (<[ host := {[ target_entity o ]} ∪ default ∅ (m.1 !! host) ]> m.1, m.2)
  | None =>
      let client := match get inv (target_entity o) with
                    | Some e => canonical_name e
                    | None => uuid_to_string (as_uuid (target_entity o))
                    end in
      (m.1, <[ server := {[ client ]} ∪ default ∅ (m.2 !! server) ]> m.2)
  end.

(** The first loop of [topology_from_mounts], and its body. *)
Definition claims_step (m : gmap string (gset EntityId) * gmap string (gset string)) (o : Observation) :
    gmap string (gset EntityId) * gmap string (gset string) :=
  if String.eqb (probe_id o) PROBE_CLIENT_MOUNT then foldl (claim_step o) m (servers_in o) else m.

Definition claims_of (os : list Observation) : gmap string (gset EntityId) * gmap string (gset string) :=
  foldl claims_step (∅, ∅) os.

(** ** The snapshot *)

Variable now : Timestamp.

(** The body of the loop over the servers; [now] is the clock of the entities
    and edges it creates. *)
Definition add_server (s : InventorySnapshot) (sc : string * gset EntityId) : InventorySnapshot :=
  let '(server, clients) := sc in
  let storage := storage_name server in
  let s := add_entity s (with_capabilities (managed_entity_new now environment Entity_Host server) {[ CAP_STORAGE_NFS_SERVER ]}) in
  let s := add_entity s (managed_entity_new now environment Entity_Storage storage) in
  let s := add_dependency s (dependency_edge_new now (storage_id storage) (host_id server) Provides) in
  foldl (λ s client, if decide (client = host_id server) then s
                     else add_dependency s (dependency_edge_new now client (storage_id storage) UsesStorage))
    s (btree_elements clients).

(** [topology_from_mounts]. *)
Definition topology_from_mounts (os : list Observation) : StorageTopology :=
  let '(servers, unresolved) := claims_of os in
  mk_topology
    (foldl add_server (snapshot_new (Integration NFS_SOURCE)) (btree_entries servers))
    (map (λ '(server, clients), mk_unresolved server (btree_elements clients)) (btree_entries unresolved)).
End resolving.
End topology.

(** * Storage topology: what it guarantees

    The edges are what the mount reports say and nothing else, a machine is
    never named after an address, and nothing is its own client. *)

(** A map of sets in which every insertion adds one element. *)
Definition joins {K A} `{Countable K, Countable A} (m : gmap K (gset A)) (k : K) (a : A) : Prop :=
  ∃ X, m !! k = Some X ∧ a ∈ X.

Lemma joins_insert {K A} `{Countable K, Countable A} (m : gmap K (gset A)) k a k' a' :
  joins (<[ k := {[ a ]} ∪ default ∅ (m !! k) ]> m) k' a' ↔ (k' = k ∧ a' = a) ∨ joins m k' a'.
Proof.
  unfold joins. destruct (decide (k' = k)) as [->|Hk].
  - rewrite lookup_insert_eq. destruct (m !! k) as [X|] eqn:Hm; cbn; split.
    + intros (? & [= <-] & Hin). set_solver.
    + intros [[_ ->]|(? & [= <-] & Hin)]; eexists; (split; [done|set_solver]).
    + intros (? & [= <-] & Hin). set_solver.
    + intros [[_ ->]|(? & ? & _)]; [eexists; split; [done|set_solver]|done].
  - rewrite lookup_insert_ne by done. naive_solver.
Qed.

Lemma not_joins_empty {K A} `{Countable K, Countable A} (k : K) (a : A) : ¬ joins ∅ k a.
Proof. intros (X & HX & _). by rewrite lookup_empty in HX. Qed.

Section topology.
Context `{J : JsonApi} `{U : UuidApi}.
Section passes.
Variables (environment : string) (inv : Inventory).
Implicit Types (o : Observation) (os : list Observation) (server host : string).

Local Abbreviation resolve := (resolve_server environment inv).
Local Abbreviation hostid := (host_id environment).
Local Abbreviation storageid := (storage_id environment).

(** ** What is read of the reports *)

(** Some mount report says so. *)
Definition reported os o server : Prop := o ∈ os ∧ probe_id o = PROBE_CLIENT_MOUNT ∧ server ∈ servers_in o.

Definition client_name o : string :=
  match get inv (target_entity o) with
  | Some e => canonical_name e
  | None => uuid_to_string (as_uuid (target_entity o))
  end.

Lemma claim_step_servers o m server h c :
  joins (claim_step environment inv o m server).1 h c ↔ (resolve server = Some h ∧ c = target_entity o) ∨ joins m.1 h c.
Proof.
  unfold claim_step. destruct (resolve server) as [host|]; cbn [fst]; [rewrite joins_insert|]; naive_solver.
Qed.

Lemma claim_step_unresolved o m server s n :
  joins (claim_step environment inv o m server).2 s n ↔ (resolve server = None ∧ s = server ∧ n = client_name o) ∨ joins m.2 s n.
Proof.
  unfold claim_step. destruct (resolve server) as [host|]; cbn [snd]; [naive_solver|].
  rewrite joins_insert. unfold client_name. naive_solver.
Qed.

Lemma claims_of_one o m ss :
  (∀ h c, joins (foldl (claim_step environment inv o) m ss).1 h c ↔
     (∃ s, s ∈ ss ∧ resolve s = Some h ∧ c = target_entity o) ∨ joins m.1 h c)
  ∧ (∀ s n, joins (foldl (claim_step environment inv o) m ss).2 s n ↔
     (s ∈ ss ∧ resolve s = None ∧ n = client_name o) ∨ joins m.2 s n).
Proof.
  revert m. induction ss as [|s0 ss IH]; intros m; cbn [foldl]; [set_solver|].
  destruct (IH (claim_step environment inv o m s0)) as [H1 H2]. split.
  - intros h c. rewrite H1, claim_step_servers. set_solver.
  - intros s n. rewrite H2, claim_step_unresolved. set_solver.
Qed.

Lemma claims_of_spec os :
  (∀ h c, joins (claims_of environment inv os).1 h c ↔ ∃ o s, reported os o s ∧ resolve s = Some h ∧ c = target_entity o)
  ∧ (∀ s n, joins (claims_of environment inv os).2 s n ↔ ∃ o, reported os o s ∧ resolve s = None ∧ n = client_name o).
Proof.
  unfold claims_of. induction os as [|o os [IH1 IH2]] using rev_ind.
  { unfold reported. cbn. split; intros; (split; [intros []%not_joins_empty|]); intros (? & Hr); [destruct Hr as (? & [[]%not_elem_of_nil _] & _)
      |destruct Hr as ([[]%not_elem_of_nil _] & _)]. }
  assert (∀ o' s, reported (os ++ [o]) o' s ↔ reported os o' s ∨ (o' = o ∧ probe_id o = PROBE_CLIENT_MOUNT ∧ s ∈ servers_in o)) as Hrep.
  { intros o' s. unfold reported. rewrite elem_of_app, list_elem_of_singleton. naive_solver. }
  rewrite foldl_snoc. revert IH1 IH2. generalize (foldl (claims_step environment inv) (∅, ∅) os) as m. intros m IH1 IH2.
  unfold claims_step. destruct (String.eqb_spec (probe_id o) PROBE_CLIENT_MOUNT) as [Hp|Hp].
  - destruct (claims_of_one o m (servers_in o)) as [H1 H2].
    split; intros; [rewrite H1, IH1|rewrite H2, IH2]; setoid_rewrite Hrep; naive_solver.
  - split; intros; [rewrite IH1|rewrite IH2]; setoid_rewrite Hrep; naive_solver.
Qed.

(** No server is recorded without a client. *)
Lemma claim_step_inhabited o m s :
  (∀ h X, m.1 !! h = Some X → X ≠ ∅) ∧ (∀ h X, m.2 !! h = Some X → X ≠ ∅) →
  (∀ h X, (claim_step environment inv o m s).1 !! h = Some X → X ≠ ∅)
  ∧ (∀ h X, (claim_step environment inv o m s).2 !! h = Some X → X ≠ ∅).
Proof.
  intros [H1 H2]. unfold claim_step. destruct (resolve s); cbn [fst snd]; (split; [|]); try done;
    intros h' X; rewrite lookup_insert_Some; intros [[_ <-]|[_ ?]]; eauto; set_solver.
Qed.

Lemma claims_of_inhabited os :
  (∀ h X, (claims_of environment inv os).1 !! h = Some X → X ≠ ∅)
  ∧ (∀ h X, (claims_of environment inv os).2 !! h = Some X → X ≠ ∅).
Proof.
  unfold claims_of. induction os as [|o os IH] using rev_ind; [cbn; split; intros ??; by rewrite lookup_empty|].
  rewrite foldl_snoc. revert IH. generalize (foldl (claims_step environment inv) (∅, ∅) os) as m.
  intros m Hm. unfold claims_step. case_match; [|done]. revert m Hm.
  induction (servers_in o) as [|s ss IH]; intros m Hm; [done|]. cbn [foldl]. by apply IH, claim_step_inhabited.
Qed.

(** ** What is written of them *)

Variable now : Timestamp.

Definition ends (e : DependencyEdge) : EntityId * DependencyType * EntityId := (edge_source e, dependency_type e, edge_target e).

(** The entities and the edges one server contributes. *)
Definition server_entities host : list EntityId := [hostid host; storageid host].

Definition server_edges host (clients : gset EntityId) : list (EntityId * DependencyType * EntityId) :=
  (storageid host, Provides, hostid host)
  :: map (λ c, (c, UsesStorage, storageid host)) (filter (λ c, c ≠ hostid host) (btree_elements clients)).

Lemma ends_add_dependency s e : map ends (snapshot_dependencies (add_dependency s e)) = (map ends (snapshot_dependencies s) ++ [ends e])%list.
Proof. unfold add_dependency. cbn. rewrite map_app. by destruct (snapshot_source s). Qed.

Lemma add_server_writes s host clients :
  snapshot_ids (add_server environment now s (host, clients)) = (snapshot_ids s ++ server_entities host)%list
  ∧ map ends (snapshot_dependencies (add_server environment now s (host, clients)))
    = (map ends (snapshot_dependencies s) ++ server_edges host clients)%list.
Proof.
  unfold add_server, server_edges, storage_name.
  match goal with |- context [foldl _ ?S0 _] => assert (snapshot_ids S0 = snapshot_ids s ++ server_entities host ∧
    map ends (snapshot_dependencies S0) = map ends (snapshot_dependencies s) ++ [(storageid host, Provides, hostid host)])%list as [Hi Hd] end.
  { rewrite snapshot_ids_add_dependency, ends_add_dependency, !snapshot_ids_add_entity, <- app_assoc. by split. }
  revert Hi Hd.
  match goal with |- context [foldl _ ?S0 _] => generalize S0 end. intros s0 Hi Hd.
  assert ((map ends (snapshot_dependencies s) ++ server_edges host clients)%list
    = (map ends (snapshot_dependencies s0)
       ++ map (λ c, (c, UsesStorage, storageid host)) (filter (λ c, c ≠ hostid host) (btree_elements clients)))%list) as Hgoal.
  { rewrite Hd, <- app_assoc. done. }
  unfold server_edges in Hgoal. rewrite Hgoal, <- Hi. clear. revert s0.
  induction (btree_elements clients) as [|c cs IH]; intros s0; cbn [foldl]; [by rewrite app_nil_r|].
  destruct (decide (c = hostid host)) as [Hc|Hc]; [rewrite filter_cons_False by naive_solver; by apply IH|].
  rewrite filter_cons_True by done. cbn [map].
  destruct (IH (add_dependency s0 (dependency_edge_new now c (storageid host) UsesStorage))) as [-> ->].
  rewrite ends_add_dependency, <- app_assoc. by split.
Qed.

Lemma add_servers_write s entries :
  snapshot_ids (foldl (add_server environment now) s entries) = (snapshot_ids s ++ (entries ≫= λ e, server_entities e.1))%list
  ∧ map ends (snapshot_dependencies (foldl (add_server environment now) s entries))
    = (map ends (snapshot_dependencies s) ++ (entries ≫= λ e, server_edges e.1 e.2))%list.
Proof.
  revert s. induction entries as [|[host clients] es IH]; intros s; cbn [foldl mbind list_bind]; [by rewrite !app_nil_r|].
  destruct (IH (add_server environment now s (host, clients))) as [-> ->].
  destruct (add_server_writes s host clients) as [-> ->]. by rewrite <- !app_assoc.
Qed.
(** ** The pass *)

Lemma elem_of_server_edges host clients x :
  x ∈ server_edges host clients ↔
  x = (storageid host, Provides, hostid host)
  ∨ ∃ c, c ∈ clients ∧ c ≠ hostid host ∧ x = (c, UsesStorage, storageid host).
Proof.
  unfold server_edges. rewrite elem_of_cons, list_elem_of_fmap. setoid_rewrite list_elem_of_filter.
  setoid_rewrite elem_of_btree_elements. naive_solver.
Qed.

Lemma joins_entries (m : gmap string (gset EntityId)) h :
  (∀ k X, m !! k = Some X → X ≠ ∅) → (∃ X, (h, X) ∈ btree_entries m) ↔ ∃ c, joins m h c.
Proof.
  intros Hne. setoid_rewrite elem_of_btree_entries. unfold joins. split.
  - intros [X HX]. destruct (set_choose_L X (Hne _ _ HX)) as [c Hc]. eauto.
  - naive_solver.
Qed.

(** C13.  The derived topology is what the mount reports say and nothing else: a
    host and a storage for every server a report names and the inventory can
    place, the storage provided by that host and used by every machine that
    reported it, except the host itself; and every other server is handed to the
    operator with those who mount it. *)
Theorem topology_from_evidence os :
  let t := topology_from_mounts environment inv now os in
  (∀ x, x ∈ map ends (snapshot_dependencies (topology_snapshot t)) ↔
     ∃ o server host, reported os o server ∧ resolve server = Some host
     ∧ (x = (storageid host, Provides, hostid host)
        ∨ (target_entity o ≠ hostid host ∧ x = (target_entity o, UsesStorage, storageid host))))
  ∧ (∀ i, i ∈ snapshot_ids (topology_snapshot t) ↔
       ∃ o server host, reported os o server ∧ resolve server = Some host ∧ i ∈ [hostid host; storageid host])
  ∧ (∀ server client,
       (∃ u, u ∈ topology_unresolved t ∧ unresolved_server u = server ∧ client ∈ unresolved_clients u) ↔
       ∃ o, reported os o server ∧ resolve server = None ∧ client = client_name o).
Proof.
  cbn zeta. unfold topology_from_mounts. destruct (claims_of_spec os) as [Hs Hu]. destruct (claims_of_inhabited os) as [Hne _].
  destruct (claims_of environment inv os) as [servers unresolved]. cbn [fst snd topology_snapshot topology_unresolved] in *.
  destruct (add_servers_write (snapshot_new (Integration NFS_SOURCE)) (btree_entries servers)) as [-> ->]. cbn [snapshot_new snapshot_dependencies map app].
  pose proof (λ h, joins_entries servers h Hne) as Hj. split_and!.
  - intros x. rewrite list_elem_of_bind. setoid_rewrite elem_of_server_edges. split.
    + intros ([h X] & Hx & HX). cbn in Hx. destruct Hx as [->|(c & Hc & Hnot & ->)].
      * destruct (proj1 (Hj h)) as [c Hc]; [by eexists|]. apply Hs in Hc as (o & s & ? & ? & _). naive_solver.
      * apply elem_of_btree_entries in HX. assert (joins servers h c) as (o & s & ? & ? & ->)%Hs by (by eexists). naive_solver.
    + intros (o & s & h & Hr & Hh & Hx). assert (joins servers h (target_entity o)) as (X & HX & Hin) by (apply Hs; eauto).
      exists (h, X). rewrite elem_of_btree_entries. split; [cbn; naive_solver|done].
  - intros i. cbn [snapshot_new snapshot_ids snapshot_entities map app]. rewrite list_elem_of_bind. split.
    + intros ([h X] & Hi & HX). destruct (proj1 (Hj h)) as [c (o & s & ? & ? & _)%Hs]; [by eexists|]. eauto 10.
    + intros (o & s & h & Hr & Hh & Hi). assert (joins servers h (target_entity o)) as (X & HX & Hin) by (apply Hs; eauto).
      exists (h, X). by rewrite elem_of_btree_entries.
  - intros server client. rewrite <- Hu. split.
    + intros (u & Hin & <- & Hc). apply list_elem_of_fmap in Hin as ([s X] & -> & HX). cbn in *. rewrite elem_of_btree_entries in HX.
      rewrite elem_of_btree_elements in Hc. by eexists.
    + intros (X & HX & Hc). exists (mk_unresolved server (btree_elements X)). cbn. rewrite elem_of_btree_elements. split; [|done].
      apply list_elem_of_fmap. exists (server, X). by rewrite elem_of_btree_entries.
Qed.

(** ** Whom a server is *)

Lemma elem_of_filter_head {A} (P : A → Prop) `{∀ x, Decision (P x)} (l : list A) x : head (filter P l) = Some x → x ∈ l ∧ P x.
Proof.
  destruct (filter P l) as [|y ys] eqn:Hf; cbn; [done|]. intros [= ->].
  assert (x ∈ filter P l) as [? ?]%list_elem_of_filter by (rewrite Hf; by left). done.
Qed.

Lemma filter_head_none {A} (P : A → Prop) `{∀ x, Decision (P x)} (l : list A) x : head (filter P l) = None → x ∈ l → ¬ P x.
Proof.
  destruct (filter P l) as [|y ys] eqn:Hf; cbn; [|done]. intros _ Hx HP.
  assert (x ∈ filter P l) as Hin by (by apply list_elem_of_filter). rewrite Hf in Hin. by apply elem_of_nil in Hin.
Qed.

(** An address is never taken for a name: a server written as an address is
    a host that registered that address, or nobody; a server written as a name is
    always somebody, and a known host wherever its name, its short name or its
    short name in another case is one. *)
Theorem address_is_not_a_name server :
  if is_address server then
    match resolve server with
    | Some host => ∃ e, e ∈ entities inv ∧ entity_kind e = Entity_Host ∧ has_address e server = true ∧ canonical_name e = host
    | None => ∀ e, e ∈ entities inv → entity_kind e = Entity_Host → has_address e server = false
    end
  else
    ∃ host, resolve server = Some host
    ∧ ((is_Some (get inv (hostid host)) ∧ host ∈ [server; before "." server])
       ∨ (∃ e, e ∈ entities inv ∧ entity_kind e = Entity_Host ∧ canonical_name e = host
               ∧ eq_ignore_ascii_case host (before "." server) = true)
       ∨ (host = before "." server ∧ get inv (hostid host) = None ∧ get inv (hostid server) = None
          ∧ ∀ e, e ∈ entities inv → entity_kind e = Entity_Host → eq_ignore_ascii_case (canonical_name e) host = false)).
Proof.
  unfold resolve_server. destruct (is_address server); cbn zeta.
  { destruct (head _) as [e|] eqn:He; cbn.
    - apply elem_of_filter_head in He as (? & ? & ?). eauto.
    - intros e Hin Hk. pose proof (filter_head_none _ _ _ He Hin) as Hn. apply not_true_is_false. tauto. }
  case_decide as H1; [eexists; split; [done|left; split; [done|left]]|].
  case_decide as H2; [eexists; split; [done|left; split; [done|right; left]]|].
  destruct (head _) as [e|] eqn:He; eexists; (split; [done|right]).
  - left. apply elem_of_filter_head in He as (? & ? & ?). eauto.
  - right. split_and!; try done; try (by apply eq_None_not_Some).
    intros e Hin Hk. pose proof (filter_head_none _ _ _ He Hin) as Hn. apply not_true_is_false. tauto.
Qed.
End passes.
End topology.

(** ** Samples *)

(** A link-local address with its interface is no [IpAddr] of the standard
    library, so it becomes a machine. *)
Example scoped_address_is_a_name : (is_address "fe80::1", is_address "fe80::1%eth0") = (true, false).
Proof. reflexivity. Qed.
