(* ===== verification/Commands.v ===== *)
(** * External commands

    [src/command/mod.rs] and [src/command/allowlist.rs]: which programs may be
    run at all, and what is kept of what they print.  What the operating system
    does with a child is a [Child]: the bytes it would write, how it exits, and
    whether it ends in time when nothing holds it up.  A write to a full pipe
    holds it up until somebody reads. *)

From S2P Require Export Probes Lexing.

Local Open Scope string_scope.

(** ** The allowlist *)

(** [Allowlist]. *)
Record Allowlist := mk_allowlist { programs : gset string }.

(** [Allowlist::new], [builtin] and [allow]. *)
Definition allowlist_new : Allowlist := mk_allowlist ∅.

Definition builtin_programs : list string :=
  ["scontrol"; "sinfo"; "squeue"; "systemctl"; "journalctl"; "nvidia-smi"; "zpool"; "zfs"; "smartctl"; "nvme"; "findmnt";
   "ss"; "ping"].

Definition builtin : Allowlist := mk_allowlist (list_to_set builtin_programs).

Definition allow (l : Allowlist) (program : string) : Allowlist := mk_allowlist ({[ program ]} ∪ programs l).

(** [Path::new(s).file_name()]: the last component, unless it leads up. *)
Definition path_components (s : string) : list string := filter (λ c, c ≠ "" ∧ c ≠ ".") (split_char "/" s).

Definition file_name (s : string) : option string :=
  match last (path_components s) with
  | Some c => if String.eqb c ".." then None else Some c
  | None => None
  end.

(** [Allowlist::is_allowed]. *)
Definition is_allowed (l : Allowlist) (program : string) : bool :=
  bool_decide (program ∈ programs l)
  || match file_name program with Some name => bool_decide (name ∈ programs l) | None => false end.

(** [Allowlist::check]. *)
Inductive AllowlistError := NotOnAllowlist (program : string).

Definition check_program (l : Allowlist) (program : string) : option AllowlistError :=
  if is_allowed l program then None else Some (NotOnAllowlist program).

(** ** Commands *)

(** [CommandError]; an [io::Error] is its text. *)
Inductive CommandError :=
  | NotAllowed (e : AllowlistError)
  | Spawn (program source : string)
  | TimedOutCommand (program : string) (limit : StdDuration)
  | Io (program source : string).

(** Their [Display]. *)
Definition show_command_error (e : CommandError) : string :=
  match e with
  | NotAllowed (NotOnAllowlist program) => program +:+ " is not an allowed external command"
  | Spawn program source => "cannot execute " +:+ program +:+ ": " +:+ source
  | TimedOutCommand program limit => program +:+ " exceeded its " +:+ debug_duration limit +:+ " timeout and was terminated"
  | Io program source => "cannot read output of " +:+ program +:+ ": " +:+ source
  end.

(** [CommandOutput]. *)
Record CommandOutput := mk_command_output {
  output_program : string;
  output_args : list string;
  exit_code : option Z;
  stdout : string;
  stderr : string;
  stdout_truncated : bool;
  stderr_truncated : bool;
  output_duration : StdDuration
}.

(** [is_success] and [command_line]. *)
Definition is_success (o : CommandOutput) : bool := bool_decide (exit_code o = Some 0%Z).
Definition command_line (o : CommandOutput) : string :=
  match output_args o with
  | [] => output_program o
  | args => output_program o +:+ " " +:+ str_join " " args
  end.

(** [CommandRunner] and its builders. *)
Record CommandRunner := mk_command {
  command_program : string;
  command_args : list string;
  command_timeout : StdDuration;
  output_limit : nat
}.

(** [DEFAULT_OUTPUT_LIMIT]. *)
Definition DEFAULT_OUTPUT_LIMIT : N := 1024 * 1024.

Definition command_new (program : string) : CommandRunner :=
  mk_command program [] (std_secs 5) (N.to_nat DEFAULT_OUTPUT_LIMIT).
Definition with_args (c : CommandRunner) (args : list string) : CommandRunner :=
  mk_command (command_program c) (command_args c ++ args)%list (command_timeout c) (output_limit c).
Definition with_timeout (c : CommandRunner) (t : StdDuration) : CommandRunner :=
  mk_command (command_program c) (command_args c) t (output_limit c).
Definition with_output_limit (c : CommandRunner) (n : nat) : CommandRunner :=
  mk_command (command_program c) (command_args c) (command_timeout c) n.

(** ** Running one *)

(** A child: what it writes, how it exits, how long it takes left alone. *)
Record Child := mk_child {
  writes_stdout : string;
  writes_stderr : string;
  child_exit : option Z;
  child_time : StdDuration
}.

(** How an attempt to run a program goes. *)
Inductive Spawned :=
  | CannotSpawn (source : string)
  | CannotRead (source : string)
  | Runs (child : Child).

(** [read_limited]: one byte past the limit is read, to tell whether there was
    more. *)
Definition read_limited (limit : nat) (written : string) : string * bool :=
  let buffer := String.substring 0 (limit + 1) written in
  (String.substring 0 limit buffer, (limit <? String.length buffer)%nat).

Section running.
(** How much a pipe holds. *)
Variable pipe_capacity : nat.

(** What is not read stays in the pipe, which is open until the child is gone;
    what does not fit there blocks the child. *)
Definition blocked (limit : nat) (written : string) : bool := (limit + 1 + pipe_capacity <? String.length written)%nat.

(** [CommandRunner::run]. *)
Definition run_command (c : CommandRunner) (l : Allowlist) (world : string → list string → Spawned) :
    CommandOutput + CommandError :=
  match check_program l (command_program c) with
  | Some e => inr (NotAllowed e)
  | None =>
      match world (command_program c) (command_args c) with
      | CannotSpawn source => inr (Spawn (command_program c) source)
      | CannotRead source => inr (Io (command_program c) source)
      | Runs child =>
          if (command_timeout c <? child_time child)%N || blocked (output_limit c) (writes_stdout child)
             || blocked (output_limit c) (writes_stderr child)
          then inr (TimedOutCommand (command_program c) (command_timeout c))
          else
            let '(out, out_truncated) := read_limited (output_limit c) (writes_stdout child) in
            let '(err, err_truncated) := read_limited (output_limit c) (writes_stderr child) in
            inl (mk_command_output (command_program c) (command_args c) (child_exit child)
                   (from_utf8_lossy out) (from_utf8_lossy err) out_truncated err_truncated (child_time child))
      end
  end.

(** ** Facts *)

Lemma substring_length_le n s : (String.length (String.substring 0 n s) ≤ n)%nat.
Proof. revert n. induction s as [|a s IH]; intros [|n]; cbn; try lia. specialize (IH n). lia. Qed.

Lemma substring_length_min n s : String.length (String.substring 0 n s) = Nat.min n (String.length s).
Proof. revert n. induction s as [|a s IH]; intros [|n]; cbn; try lia. rewrite IH. lia. Qed.

Lemma substring_twice n m s : (n ≤ m)%nat → String.substring 0 n (String.substring 0 m s) = String.substring 0 n s.
Proof. revert n m. induction s as [|a s IH]; intros [|n] [|m] Hle; cbn; try done; try lia. rewrite IH by lia. done. Qed.

Lemma read_limited_spec limit written :
  read_limited limit written = (String.substring 0 limit written, (limit <? String.length written)%nat).
Proof.
  unfold read_limited. rewrite substring_twice, substring_length_min by lia. f_equal.
  apply Bool.eq_iff_eq_true. rewrite !Nat.ltb_lt. lia.
Qed.

Lemma utf8_step_progress a s : (1 ≤ (utf8_step (String a s)).1)%nat.
Proof. unfold utf8_step. cbn [String.list_ascii_of_string]. repeat case_match; cbn; lia. Qed.

Lemma lossy_length_fuel fuel s : (String.length (from_utf8_lossy_fuel fuel s) ≤ 3 * String.length s)%nat.
Proof.
  revert s. induction fuel as [|f IH]; intros [|a s]; cbn [from_utf8_lossy_fuel]; try (cbn; lia).
  pose proof (utf8_step_progress a s) as Hn. destruct (utf8_step (String a s)) as [n valid]. cbn [fst] in Hn.
  rewrite string_length_app. specialize (IH (drop_bytes n (String a s))). rewrite length_drop_bytes in IH.
  assert (String.length (if valid then String.substring 0 n (String a s) else replacement_character)
    ≤ 3 * Nat.min n (String.length (String a s)))%nat; [|lia].
  destruct valid; [rewrite substring_length_min; lia|]. cbn [String.length replacement_character]. lia.
Qed.

Lemma last_path_component s c : last (path_components s) = Some c → c ∈ split_char "/" s ∧ c ≠ "" ∧ c ≠ ".".
Proof.
  intros Hl. apply last_Some_elem_of in Hl. unfold path_components in Hl. apply list_elem_of_filter in Hl. tauto.
Qed.

Lemma file_name_last s name : file_name s = Some name → last (path_components s) = Some name.
Proof. unfold file_name. destruct (last _) as [c|]; [|done]. destruct (String.eqb c ".."); [done|]. by intros [= ->]. Qed.

(** No child is started but of a program the allowlist names, or of a path
    whose last component it names, whatever directory that is in; what a child
    printed is cut at the limit and the cut is told, and no more than three times
    the limit is ever kept (a byte that is no text becomes three). *)
Theorem commands_are_fenced (c : CommandRunner) (l : Allowlist) (world : string → list string → Spawned) :
  match run_command c l world with
  | inl out =>
      ((∃ name, name ∈ programs l ∧ ((command_program c = name) ∨ (name ∈ split_char "/" (command_program c)
                                     ∧ last (path_components (command_program c)) = Some name))))
      ∧ (∃ child, world (command_program c) (command_args c) = Runs child
         ∧ stdout out = from_utf8_lossy (String.substring 0 (output_limit c) (writes_stdout child))
         ∧ (stdout_truncated out = true ↔ (output_limit c < String.length (writes_stdout child))%nat)
         ∧ exit_code out = child_exit child)
      ∧ (String.length (stdout out) ≤ 3 * output_limit c)%nat
      ∧ (String.length (stderr out) ≤ 3 * output_limit c)%nat
  | inr (NotAllowed _) =>
      (command_program c ∉ programs l) ∧ (∀ name, file_name (command_program c) = Some name → name ∉ programs l)
  | inr _ => is_allowed l (command_program c) = true
  end.
Proof.
  unfold run_command, check_program. destruct (is_allowed l (command_program c)) eqn:Hal.
  - destruct (world _ _) as [source|source|child] eqn:Hw; [done..|]. destruct (_ || _); [done|].
    rewrite !read_limited_spec. cbn [stdout stderr stdout_truncated exit_code]. split_and!.
    + unfold is_allowed in Hal. apply orb_true_iff in Hal as [Hin|Hin].
      { apply bool_decide_eq_true in Hin. eauto. }
      destruct (file_name _) as [name|] eqn:Hf; [|discriminate Hin]. apply bool_decide_eq_true in Hin.
      apply file_name_last in Hf as Hl. exists name. split; [done|]. right. split; [|done].
      by apply last_path_component in Hl as [? _].
    + exists child. split_and!; try done. apply Nat.ltb_lt.
    + unfold from_utf8_lossy. etrans; [apply lossy_length_fuel|]. pose proof (substring_length_le (output_limit c) (writes_stdout child)). lia.
    + unfold from_utf8_lossy. etrans; [apply lossy_length_fuel|]. pose proof (substring_length_le (output_limit c) (writes_stderr child)). lia.
  - unfold is_allowed in Hal. apply orb_false_iff in Hal as [Hno Hl]. apply bool_decide_eq_false in Hno.
    split; [done|]. intros name Hname. rewrite Hname in Hl. by apply bool_decide_eq_false in Hl.
Qed.
End running.

(** ** Samples *)

(** What does not fit in the pipe is not cut: the child is held up until the time
    is over, and nothing of its output is kept. *)
Example oversized_output_times_out :
  let child := mk_child "0123456789" "" (Some 0%Z) 1 in
  let run limit := run_command 4 (with_output_limit (command_new "journalctl") limit) builtin (λ _ _, Runs child) in
  match run 5%nat, run 4%nat with
  | inl out, inr (TimedOutCommand _ _) => stdout out = "01234" ∧ stdout_truncated out = true
  | _, _ => False
  end.
Proof. vm_compute. by split. Qed.

Example a_path_is_its_name :
  map (is_allowed builtin) ["/opt/slurm/bin/scontrol"; "scontrol/../rm"; "zpool/"; "rm"; "/usr/bin/zpool/.."] = [true; false; true; false; false].
Proof. reflexivity. Qed.
