(* ===== verification/RemoteProbes.v ===== *)
(** * Remote probes

    [src/probes/network.rs], [src/probes/ssh.rs], [src/probes/sentinel_rpc.rs]
    and [NfsPortProbe] of [src/probes/nfs/server.rs]: what is concluded from how
    a connection, a banner or a request went.  How it went is given: the
    resolver, the sockets and the HTTP client are arguments. *)

From S2P Require Export Probes Lexing SlurmView.

Local Open Scope string_scope.

(** ** Contexts *)

Section contexts.
Context `{J : JsonApi}.

(** [ProbeContext]. *)
Record ProbeContext := mk_context {
  context_target : EntityId;
  context_observer : option EntityId;
  context_capabilities : CapabilitySet;
  parameters : json;
  context_timeout : StdDuration
}.

(** [ProbeContext::local] and the builders. *)
Definition context_local (target : EntityId) (capabilities : CapabilitySet) : ProbeContext :=
  mk_context target None capabilities json_null (std_secs 5).
Definition observed_by (c : ProbeContext) (observer : EntityId) : ProbeContext :=
  mk_context (context_target c) (Some observer) (context_capabilities c) (parameters c) (context_timeout c).
Definition with_parameters (c : ProbeContext) (p : json) : ProbeContext :=
  mk_context (context_target c) (context_observer c) (context_capabilities c) p (context_timeout c).
Definition with_context_timeout (c : ProbeContext) (t : StdDuration) : ProbeContext :=
  mk_context (context_target c) (context_observer c) (context_capabilities c) (parameters c) t.

(** [parameter_str], [parameter_u64]. *)
Definition parameter_str (c : ProbeContext) (key : string) : option string := json_get (parameters c) key ≫= json_as_str.
Definition parameter_u64 (c : ProbeContext) (key : string) : option N := json_get (parameters c) key ≫= json_as_u64.
End contexts.

(** [n as u16] and [n as u64] keep the low bits. *)
Definition as_u16 (n : N) : N := (n mod 65536)%N.
Definition as_u64 (n : N) : N := (n mod 18446744073709551616)%N.

(** [Duration::as_millis]. *)
Definition as_millis (d : StdDuration) : N := (d / 1000000)%N.

(** ** TCP *)

(** [ConnectOutcome]. *)
Inductive ConnectOutcome :=
  | Connect_Connected (latency : StdDuration)
  | Connect_Unresolvable (detail : string)
  | Connect_Refused
  | Connect_TimedOut
  | Connect_Failed (detail : string).

(** [ConnectOutcome::status], [code], [proves_host_responds]. *)
Definition connect_status (r : ConnectOutcome) : ProbeStatus :=
  match r with
  | Connect_Connected _ => Probe_Ok
  | Connect_TimedOut => Probe_Timeout
  | _ => Probe_Failed
  end.

Definition connect_code (r : ConnectOutcome) : string :=
  match r with
  | Connect_Connected _ => "connected"
  | Connect_Unresolvable _ => "unresolvable"
  | Connect_Refused => "refused"
  | Connect_TimedOut => "timed_out"
  | Connect_Failed _ => "failed"
  end.

Definition proves_host_responds (r : ConnectOutcome) : bool :=
  match r with Connect_Connected _ | Connect_Refused => true | _ => false end.

(** How looking up a name ends within the time: with addresses, with an error,
    with the task that asks lost, or not at all. *)
Inductive NameLookup :=
  | Resolve_Addresses (addresses : list string)
  | Resolve_Error (detail : string)
  | Resolve_TaskLost (detail : string)
  | Resolve_Late.

(** How an attempt to connect ends within the time. *)
Inductive Attempt :=
  | Attempt_Stream (latency : StdDuration)
  | Attempt_Refused
  | Attempt_Error (detail : string)
  | Attempt_Late.

(** [format!("{address}:{port}")]. *)
Definition endpoint_text (address : string) (port : N) : string := address +:+ ":" +:+ show_N port.

(** [connect]: the first address is the one that is tried. *)
Definition connect (resolve : string → NameLookup) (attempt : string → Attempt) (address : string) (port : N) : ConnectOutcome :=
  let target := endpoint_text address port in
  match resolve target with
  | Resolve_Addresses [] => Connect_Unresolvable (target +:+ " resolved to no addresses")
  | Resolve_Addresses (first :: _) =>
      match attempt first with
      | Attempt_Stream latency => Connect_Connected latency
      | Attempt_Refused => Connect_Refused
      | Attempt_Error detail => Connect_Failed detail
      | Attempt_Late => Connect_TimedOut
      end
  | Resolve_Error detail => Connect_Unresolvable detail
  | Resolve_TaskLost detail => Connect_Failed detail
  | Resolve_Late => Connect_TimedOut
  end.

(** [TcpProbe]. *)
Record TcpProbe := mk_tcp_probe {
  tcp_probe_definition : ProbeDefinition;
  default_port : N;
  refusal_is_reachable : bool;
  port_parameters : list string
}.

(** [TcpProbe::new], [reachability], [with_definition]. *)
Definition tcp_probe_new (id : ProbeId) (port : N) : TcpProbe := mk_tcp_probe (tcp_definition id) port false ["port"].
Definition reachability : TcpProbe := mk_tcp_probe reachability_definition 22 true ["ssh_port"; "port"].
Definition with_definition (p : TcpProbe) (d : ProbeDefinition) : TcpProbe :=
  mk_tcp_probe d (default_port p) (refusal_is_reachable p) (port_parameters p).

(** [TcpProbe::status_for]. *)
Definition status_for (p : TcpProbe) (r : ConnectOutcome) : ProbeStatus :=
  if refusal_is_reachable p && proves_host_responds r then Probe_Ok else connect_status r.

Section collecting.
Context `{J : JsonApi}.
(** What [Observation::new] draws. *)
Variables (id : ObservationId) (clock : Timestamp).

(** The first of the parameters that is a number. *)
Definition tcp_port (p : TcpProbe) (c : ProbeContext) : N :=
  as_u16 (default (default_port p) (head (omap (parameter_u64 c) (port_parameters p)))).

(** What the probe says of an outcome. *)
Definition tcp_observation (p : TcpProbe) (target : EntityId) (address : string) (port : N) (outcome : ConnectOutcome) : Observation :=
  let latency_ms := match outcome with Connect_Connected latency => Some (as_u64 (as_millis latency)) | _ => None end in
  let status := status_for p outcome in
  let observation :=
    with_payload (observation_new id clock (definition_id (tcp_probe_definition p)) target status)
      (json_object [
         ("address", json_of_str address);
         ("port", json_of_u64 port);
         ("outcome", json_of_str (connect_code outcome));
         ("latency_ms", json_opt_u64 latency_ms);
         ("host_responded", json_of_bool (proves_host_responds outcome))]) in
  if decide (status = Probe_Ok) then observation
  else
    match outcome with
    | Connect_Connected _ => observation
    | Connect_Unresolvable detail => with_error observation "unresolvable" detail
    | Connect_Refused => with_error observation "refused" (endpoint_text address port +:+ " refused the connection")
    | Connect_TimedOut => with_error observation "timed_out" (endpoint_text address port +:+ " did not answer in time")
    | Connect_Failed detail => with_error observation "failed" detail
    end.

(** [TcpProbe::collect]. *)
Definition tcp_collect (resolve : string → NameLookup) (attempt : string → Attempt) (p : TcpProbe) (c : ProbeContext) : Observation :=
  match parameter_str c "address" with
  | None =>
      with_error (observation_new id clock (definition_id (tcp_probe_definition p)) (context_target c) Probe_NotApplicable)
        "no_address" "no address is known for this entity"
  | Some address =>
      let port := tcp_port p c in
      tcp_observation p (context_target c) address port (connect resolve attempt address port)
  end.

(** ** SSH *)

(** [SshOutcome]. *)
Inductive SshOutcome :=
  | Ssh_Banner (banner : string)
  | Ssh_NotSsh (received : string)
  | Ssh_Silent
  | Ssh_Refused
  | Ssh_TimedOut
  | Ssh_Failed (detail : string).

(** [SshOutcome::status], [code], [something_answered]. *)
Definition ssh_status (r : SshOutcome) : ProbeStatus :=
  match r with
  | Ssh_Banner _ => Probe_Ok
  | Ssh_NotSsh _ | Ssh_Silent => Probe_Degraded
  | Ssh_TimedOut => Probe_Timeout
  | Ssh_Refused | Ssh_Failed _ => Probe_Failed
  end.

Definition ssh_code (r : SshOutcome) : string :=
  match r with
  | Ssh_Banner _ => "banner"
  | Ssh_NotSsh _ => "not_ssh"
  | Ssh_Silent => "silent"
  | Ssh_Refused => "refused"
  | Ssh_TimedOut => "timed_out"
  | Ssh_Failed _ => "failed"
  end.

Definition something_answered (r : SshOutcome) : bool :=
  match r with Ssh_Refused | Ssh_TimedOut => false | _ => true end.

(** [is_ssh_banner]. *)
Definition is_ssh_banner (line : string) : bool := starts_with "SSH-" line.

(** [MAX_BANNER], [DEFAULT_PORT]. *)
Definition MAX_BANNER : nat := 512.
Definition SSH_DEFAULT_PORT : N := 22.

(** How a read ends within the time: the bytes that are there, an error, or
    nothing. *)
Inductive ReadResult :=
  | Read_Bytes (bytes : string)
  | Read_Error (detail : string)
  | Read_Late.

(** The first line of what was read. *)
Definition banner_line (bytes : string) : string :=
  trim (trim_end_char "013" (default "" (head (lines (from_utf8_lossy (String.substring 0 MAX_BANNER bytes)))))).

(** [read_banner]. *)
Definition read_banner (attempt : string → Attempt) (read : string → ReadResult) (address : string) (port : N) : SshOutcome :=
  let target := endpoint_text address port in
  match attempt target with
  | Attempt_Refused => Ssh_Refused
  | Attempt_Error detail => Ssh_Failed detail
  | Attempt_Late => Ssh_TimedOut
  | Attempt_Stream _ =>
      match read target with
      | Read_Bytes "" => Ssh_Silent
      | Read_Bytes bytes =>
          let line := banner_line bytes in
          if is_ssh_banner line then Ssh_Banner line else Ssh_NotSsh (take_chars 120 line)
      | Read_Error detail => Ssh_Failed detail
      | Read_Late => Ssh_Silent
      end
  end.

(** [SshProbe::collect]; [printable] as in [debug_str]. *)
Definition ssh_observation (printable : N → bool) (target : EntityId) (address : string) (port : N) (outcome : SshOutcome) : Observation :=
  let observation :=
    with_payload (observation_new id clock PROBE_SSH target (ssh_status outcome))
      (json_object [
         ("address", json_of_str address);
         ("port", json_of_u64 port);
         ("outcome", json_of_str (ssh_code outcome));
         ("something_answered", json_of_bool (something_answered outcome));
         ("banner", json_opt_str (match outcome with Ssh_Banner banner => Some banner | _ => None end))]) in
  match outcome with
  | Ssh_Banner _ => observation
  | Ssh_NotSsh received => with_error observation "not_ssh" ("something is listening but said " +:+ debug_str printable received)
  | Ssh_Silent => with_error observation "silent" "the port accepted a connection but sent no identification"
  | Ssh_Refused => with_error observation "refused" "nothing is listening on the SSH port"
  | Ssh_TimedOut => with_error observation "timed_out" "the SSH port did not answer in time"
  | Ssh_Failed detail => with_error observation "failed" detail
  end.

Definition ssh_collect (printable : N → bool) (attempt : string → Attempt) (read : string → ReadResult) (c : ProbeContext) : Observation :=
  match parameter_str c "address" with
  | None =>
      with_error (observation_new id clock PROBE_SSH (context_target c) Probe_NotApplicable) "no_address" "no address is known for this entity"
  | Some address =>
      let port := as_u16 (default SSH_DEFAULT_PORT (parameter_u64 c "ssh_port")) in
      ssh_observation printable (context_target c) address port (read_banner attempt read address port)
  end.

(** ** NFS *)

(** [NFS_PORT]. *)
Definition NFS_PORT : N := 2049.

(** [NfsPortProbe::collect]. *)
Definition nfs_port_observation (target : EntityId) (address : string) (port : N) (outcome : ConnectOutcome) : Observation :=
  let observation :=
    with_payload (observation_new id clock PROBE_SERVER_PORT target (connect_status outcome))
      (json_object [
         ("address", json_of_str address);
         ("port", json_of_u64 port);
         ("outcome", json_of_str (connect_code outcome));
         ("host_responded", json_of_bool (proves_host_responds outcome))]) in
  if decide (connect_status outcome = Probe_Ok) then observation
  else
    with_error observation (connect_code outcome)
      ("the NFS service on " +:+ endpoint_text address port +:+ " is not accepting connections").

Definition nfs_port_collect (resolve : string → NameLookup) (attempt : string → Attempt) (c : ProbeContext) : Observation :=
  match parameter_str c "address" with
  | None =>
      with_error (observation_new id clock PROBE_SERVER_PORT (context_target c) Probe_NotApplicable)
        "no_address" "no address is known for this storage entity"
  | Some address =>
      let port := as_u16 (default NFS_PORT (parameter_u64 c "nfs_port")) in
      nfs_port_observation (context_target c) address port (connect resolve attempt address port)
  end.
End collecting.

(** ** The agent of another host *)

(** [AgentHealth]. *)
Record AgentHealth := mk_health {
  health_protocol_version : N;
  health_agent_version : string;
  health_environment : string;
  health_hostname : string;
  health_boot_id : option string;
  health_capabilities : CapabilitySet;
  health_timestamp : Timestamp;
  health_uptime_seconds : N;
  health_spooled : N;
  health_registered : bool
}.

(** [AgentOutcome]. *)
Inductive AgentOutcome :=
  | Agent_Healthy (health : AgentHealth)
  | Agent_NotAnAgent (detail : string)
  | Agent_Refused
  | Agent_TimedOut
  | Agent_Failed (detail : string).

(** [AgentOutcome::status], [code]. *)
Definition agent_status (r : AgentOutcome) : ProbeStatus :=
  match r with
  | Agent_Healthy _ => Probe_Ok
  | Agent_TimedOut => Probe_Timeout
  | _ => Probe_Failed
  end.

Definition agent_code (r : AgentOutcome) : string :=
  match r with
  | Agent_Healthy _ => "healthy"
  | Agent_NotAnAgent _ => "not_an_agent"
  | Agent_Refused => "refused"
  | Agent_TimedOut => "timed_out"
  | Agent_Failed _ => "failed"
  end.

(** What [reqwest] makes of a GET: the client cannot be built, the request runs
    out of time, no connection, another error, or a response with its status and
    its body decoded. *)
Inductive HttpAnswer :=
  | Http_NoClient (detail : string)
  | Http_Timeout
  | Http_NoConnection
  | Http_Error (detail : string)
  | Http_Response (code : N) (shown : string) (decoded : AgentHealth + string).

(** [HEALTH_PATH], [DEFAULT_PORT]. *)
Definition HEALTH_PATH : string := "/v1/agent/health".
Definition AGENT_DEFAULT_PORT : N := 7444.

(** [StatusCode::is_success]. *)
Definition http_success (code : N) : bool := (200 <=? code)%N && (code <? 300)%N.

(** [query]. *)
Definition query (get : string → HttpAnswer) (address : string) (port : N) : AgentOutcome :=
  match get ("http://" +:+ endpoint_text address port +:+ HEALTH_PATH) with
  | Http_NoClient detail => Agent_Failed detail
  | Http_Timeout => Agent_TimedOut
  | Http_NoConnection => Agent_Refused
  | Http_Error detail => Agent_Failed detail
  | Http_Response code shown decoded =>
      if negb (http_success code) then Agent_Failed ("agent returned " +:+ shown)
      else match decoded with inl health => Agent_Healthy health | inr detail => Agent_NotAnAgent detail end
  end.

Section agent.
Context `{J : JsonApi}.
Variables (id : ObservationId) (clock : Timestamp).
(** [json!] of a [chrono] time. *)
Variable json_of_time : Timestamp → json.

Definition agent_payload (address : string) (port : N) (outcome : AgentOutcome) : json :=
  match outcome with
  | Agent_Healthy health =>
      json_object [
        ("address", json_of_str address);
        ("port", json_of_u64 port);
        ("outcome", json_of_str (agent_code outcome));
        ("agent_version", json_of_str (health_agent_version health));
        ("boot_id", json_opt_str (health_boot_id health));
        ("spooled_observations", json_of_u64 (health_spooled health));
        ("registered", json_of_bool (health_registered health));
        ("capabilities", json_strings (btree_elements (health_capabilities health)));
        ("agent_time", json_of_time (health_timestamp health))]
  | _ =>
      json_object [
        ("address", json_of_str address); ("port", json_of_u64 port); ("outcome", json_of_str (agent_code outcome))]
  end.

(** [SentinelAgentProbe::collect]. *)
Definition agent_observation (target : EntityId) (address : string) (port : N) (outcome : AgentOutcome) : Observation :=
  let observation := with_payload (observation_new id clock PROBE_RPC target (agent_status outcome)) (agent_payload address port outcome) in
  match outcome with
  | Agent_Healthy _ => observation
  | Agent_NotAnAgent detail => with_error observation "not_an_agent" detail
  | Agent_Refused => with_error observation "refused" "no Sentinel agent is listening on this host"
  | Agent_TimedOut => with_error observation "timed_out" "the agent did not answer in time"
  | Agent_Failed detail => with_error observation "failed" detail
  end.

Definition agent_collect (get : string → HttpAnswer) (c : ProbeContext) : Observation :=
  match parameter_str c "address" with
  | None =>
      with_error (observation_new id clock PROBE_RPC (context_target c) Probe_NotApplicable) "no_address" "no address is known for this entity"
  | Some address =>
      let port := as_u16 (default AGENT_DEFAULT_PORT (parameter_u64 c "agent_port")) in
      agent_observation (context_target c) address port (query get address port)
  end.
End agent.
