(* ===== verification/HostProbes.v ===== *)
(** * Probes of the host itself

    [src/probes/systemd.rs], [src/probes/journal.rs], [src/probes/nfs/client.rs]
    and [NfsExportsProbe] of [src/probes/nfs/server.rs].  What a program prints,
    what a file holds and how a [stat] ends are arguments. *)

From S2P Require Export RemoteProbes Commands HostNet.

Local Open Scope string_scope.

(** ** systemd *)

(** [FIELDS]. *)
Definition FIELDS : list string :=
  ["Id"; "LoadState"; "ActiveState"; "SubState"; "UnitFileState"; "Result"; "ExecMainStatus"; "NRestarts"; "ActiveEnterTimestamp"].

(** [UnitState]. *)
Record UnitState := mk_unit_state {
  load_state : string;
  active_state : string;
  sub_state : string;
  result : string;
  restarts : option N;
  unit_fields : gmap string string
}.

(** [is_active], [is_failed], [is_not_found], [status]. *)
Definition unit_is_active (u : UnitState) : bool := String.eqb (active_state u) "active".
Definition unit_is_failed (u : UnitState) : bool :=
  String.eqb (active_state u) "failed" || String.eqb (result u) "exit-code" || String.eqb (result u) "signal".
Definition unit_is_not_found (u : UnitState) : bool :=
  String.eqb (load_state u) "not-found" || String.eqb (load_state u) "masked".

Definition unit_status (u : UnitState) : ProbeStatus :=
  if unit_is_not_found u then Probe_NotApplicable
  else if unit_is_failed u then Probe_Failed
  else if unit_is_active u then Probe_Ok
  else if bool_decide (active_state u ∈ ["activating"; "deactivating"; "reloading"]) then Probe_Degraded
  else Probe_Failed.

(** [parse_show]. *)
Definition show_field (m : gmap string string) (line : string) : gmap string string :=
  match split_once "=" line with
  | Some (key, value) => <[ trim key := trim value ]> m
  | None => m
  end.

Definition parse_show (output : string) : UnitState :=
  let fields := foldl show_field ∅ (lines output) in
  mk_unit_state (default "" (fields !! "LoadState")) (default "" (fields !! "ActiveState")) (default "" (fields !! "SubState"))
    (default "" (fields !! "Result")) (fields !! "NRestarts" ≫= parse_u32) fields.

(** What both probes that run a program make of the way it went. *)
Definition usable_output (program : string) (r : CommandOutput + CommandError) : string + string :=
  match r with
  | inr e => inr (show_command_error e)
  | inl out =>
      if negb (is_success out) && is_empty (trim (stdout out)) then inr (program +:+ " failed: " +:+ trim (stderr out))
      else inl (stdout out)
  end.

Section probes.
Context `{J : JsonApi}.
Variable pipe_capacity : nat.
Variables (id : ObservationId) (clock : Timestamp).

(** [SystemdProbe::query]. *)
Definition systemctl_show (d : ProbeDefinition) (unit_ : string) : CommandRunner :=
  with_output_limit
    (with_timeout
       (with_args (command_new "systemctl") ["show"; unit_; "--no-pager"; "--property=" +:+ str_join "," FIELDS])
       (timeout d))
    (64 * 1024).

Definition query_unit (world : string → list string → Spawned) (d : ProbeDefinition) (unit_ : string) : UnitState + string :=
  match usable_output "systemctl" (run_command pipe_capacity (systemctl_show d unit_) builtin world) with
  | inl output => inl (parse_show output)
  | inr detail => inr detail
  end.

(** [SystemdProbe::collect]. *)
Definition systemd_collect (world : string → list string → Spawned) (d : ProbeDefinition) (c : ProbeContext) : Observation :=
  match parameter_str c "unit" with
  | None =>
      with_error (observation_new id clock PROBE_SYSTEMD (context_target c) Probe_NotApplicable)
        "no_unit" "no systemd unit is configured for this entity"
  | Some unit_ =>
      match query_unit world d unit_ with
      | inl u =>
          with_payload (observation_new id clock PROBE_SYSTEMD (context_target c) (unit_status u))
            (json_object [
               ("unit", json_of_str unit_);
               ("load_state", json_of_str (load_state u));
               ("active_state", json_of_str (active_state u));
               ("sub_state", json_of_str (sub_state u));
               ("result", json_of_str (result u));
               ("restarts", json_opt_u64 (restarts u))])
      | inr detail =>
          with_error (with_payload (observation_new id clock PROBE_SYSTEMD (context_target c) Probe_Unsupported)
                        (json_object [("unit", json_of_str unit_)]))
            "systemctl_unavailable" detail
      end
  end.

(** ** The journal *)

(** [MAX_LINES], [MAX_BYTES], [MAX_LOOKBACK], [MAX_MESSAGE]. *)
Definition MAX_LINES : N := 500.
Definition MAX_BYTES : N := 1024 * 1024.
Definition MAX_LOOKBACK : StdDuration := std_secs (15 * 60).
Definition MAX_MESSAGE : nat := 400.

(** [EventSeverity], and its form in JSON. *)
Inductive EventSeverity := Notable | Serious.

#[global] Instance EventSeverity_eq_dec : EqDecision EventSeverity.
Proof. solve_decision. Defined.

Definition severity_name (s : EventSeverity) : string := match s with Notable => "notable" | Serious => "serious" end.

(** [EventClass], [EVENT_CLASSES]. *)
Record EventClass := mk_event_class { class_kind : string; class_severity : EventSeverity; class_patterns : list string }.

Definition EVENT_CLASSES : list EventClass := [
  mk_event_class "io_error" Serious
    ["i/o error"; "buffer i/o error"; "critical medium error"; "unrecovered read error"];
  mk_event_class "filesystem_readonly" Serious
    ["remounting filesystem read-only"; "ext4-fs error"; "xfs.*corruption"; "filesystem panic"];
  mk_event_class "hung_task" Serious ["hung_task"; "blocked for more than"; "task blocked for more than"];
  mk_event_class "nvme_error" Serious ["nvme"; "controller is down"; "i/o timeout, reset controller"];
  mk_event_class "gpu_xid" Serious ["nvrm: xid"; "xid error"; "gpu has fallen off the bus"];
  mk_event_class "mce" Serious ["machine check"; "mce:"; "hardware error"];
  mk_event_class "nfs_server_not_responding" Serious ["nfs: server"; "not responding"; "nfs server"];
  mk_event_class "oom" Notable ["out of memory: killed"; "oom-killer"; "oom_reaper"];
  mk_event_class "network_down" Notable ["link is down"; "link down"; "nic link is down"];
  mk_event_class "thermal" Notable ["thermal throttling"; "temperature above threshold"; "critical temperature"]].

(** [JournalEvent]. *)
Record JournalEvent := mk_event {
  event_kind : string;
  event_severity : EventSeverity;
  event_message : string;
  event_source : option string;
  event_timestamp : option string
}.

(** [classify]. *)
Definition matches (lowered : string) (class : EventClass) : bool := existsb (λ pattern, contains pattern lowered) (class_patterns class).

Definition classify (line : string) : option EventClass :=
  let lowered := to_ascii_lowercase line in
  snd <$> list_find (λ class, matches lowered class = true) EVENT_CLASSES.

(** The body of [parse_journal]; the first three pieces of [splitn(4, ' ')] are
    those of a split. *)
Definition starts_with_digit (s : string) : bool := match s with String a _ => is_ascii_digit a | EmptyString => false end.

Definition event_of_line (line : string) : option JournalEvent :=
  class ← classify line;
  let fields := split_char " " line in
  Some (mk_event (class_kind class) (class_severity class) (take_chars MAX_MESSAGE line)
          (trim_end_char ":" <$> fields !! 2)
          (t ← head fields; if starts_with_digit t then Some t else None)).

(** [parse_journal]. *)
Definition parse_journal (output : string) : list JournalEvent := omap event_of_line (lines output).

(** [JournalProbe::read_window]. *)
Definition journalctl (d : ProbeDefinition) (since : StdDuration) : CommandRunner :=
  let since := N.min since MAX_LOOKBACK in
  with_output_limit
    (with_timeout
       (with_args (command_new "journalctl")
          ["--boot"; "--no-pager"; "--output=short-iso"; "--priority=warning";
           "--since=-" +:+ show_N (since / nanos_in_second) +:+ "s"; "--lines=" +:+ show_N MAX_LINES])
       (timeout d))
    (N.to_nat MAX_BYTES).

Definition read_window (world : string → list string → Spawned) (d : ProbeDefinition) (since : StdDuration) : list JournalEvent + string :=
  match usable_output "journalctl" (run_command pipe_capacity (journalctl d since) builtin world) with
  | inl output => inl (parse_journal output)
  | inr detail => inr detail
  end.

(** What is reported of the events. *)
Definition event_json (e : JournalEvent) : json :=
  json_object [
    ("kind", json_of_str (event_kind e));
    ("severity", json_of_str (severity_name (event_severity e)));
    ("message", json_of_str (event_message e));
    ("source", json_opt_str (event_source e));
    ("timestamp", json_opt_str (event_timestamp e))].

Definition serious_events (events : list JournalEvent) : list JournalEvent := filter (λ e, event_severity e = Serious) events.

Definition journal_observation (target : EntityId) (window : StdDuration) (events : list JournalEvent) : Observation :=
  let serious := serious_events events in
  let observation :=
    with_evidence
      (with_payload (observation_new id clock PROBE_JOURNAL target (if decide (serious = []) then Probe_Ok else Probe_Degraded))
         (json_object [
            ("window_seconds", json_of_u64 (window / nanos_in_second));
            ("event_count", json_of_u64 (N.of_nat (length events)));
            ("serious_count", json_of_u64 (N.of_nat (length serious)));
            ("kinds", json_strings (dedup_adjacent (merge_sort key_le (map event_kind events))))]))
      (json_object [("events", json_of_array (map event_json events))]) in
  if decide (serious = []) then observation
  else
    with_error observation "kernel_events"
      (show_nat (length serious) +:+ " serious kernel event(s): " +:+ str_join ", " (map event_kind serious)).

(** [JournalProbe::collect]; the product is computed whether it is needed or not,
    and [None] is its panic. *)
Definition journal_collect (world : string → list string → Spawned) (d : ProbeDefinition) (c : ProbeContext) : option Observation :=
  two_intervals ← std_mul (interval d) 2;
  let window := match parameter_u64 c "window_seconds" with Some n => std_secs n | None => two_intervals end in
  Some match read_window world d window with
       | inl events => journal_observation (context_target c) window events
       | inr detail => with_error (observation_new id clock PROBE_JOURNAL (context_target c) Probe_Unsupported) "journal_unavailable" detail
       end.

(** ** NFS, from the client *)

(** [NfsStatus], [probe_status], [as_str], [classify_latency]. *)
Inductive NfsStatus := Nfs_Ok | Nfs_Slow | Nfs_Timeout | Nfs_Stuck.

Definition nfs_probe_status (s : NfsStatus) : ProbeStatus :=
  match s with Nfs_Ok => Probe_Ok | Nfs_Slow => Probe_Degraded | Nfs_Timeout => Probe_Timeout | Nfs_Stuck => Probe_Stuck end.
Definition nfs_status_name (s : NfsStatus) : string :=
  match s with Nfs_Ok => "NFS_OK" | Nfs_Slow => "NFS_SLOW" | Nfs_Timeout => "NFS_TIMEOUT" | Nfs_Stuck => "NFS_STUCK" end.
Definition classify_latency (latency slow_after : StdDuration) : NfsStatus :=
  if (slow_after <=? latency)%N then Nfs_Slow else Nfs_Ok.

(** [HOST_MOUNTS_PATH], and [NfsMountProbe::nfs_mounts]. *)
Definition HOST_MOUNTS_PATH : string := "/proc/1/mounts".

Definition nfs_mounts (read : string → option string) (mounts_path : string) : list MountInfo :=
  match (match read mounts_path with Some text => Some text | None => read "/proc/self/mounts" end) with
  | Some text => filter (λ m, is_nfs m = true) (parse_mounts text)
  | None => []
  end.

Definition mount_json (m : MountInfo) : json :=
  json_object [
    ("source", json_of_str (mount_source m));
    ("target", json_of_str (mount_target m));
    ("fstype", json_of_str (mount_fstype m));
    ("server", json_opt_str (nfs_server m));
    ("read_only", json_of_bool (is_read_only m))].

(** [NfsMountProbe::collect]. *)
Definition mount_collect (read : string → option string) (mounts_path : string) (c : ProbeContext) : Observation :=
  let mounts := nfs_mounts read mounts_path in
  match mounts with
  | [] =>
      with_error (with_payload (observation_new id clock PROBE_CLIENT_MOUNT (context_target c) Probe_NotApplicable)
                    (json_object [("mounts", json_of_array [])]))
        "no_nfs_mounts" "this host has no NFS mounts"
  | _ =>
      let read_only := filter (λ m, is_read_only m = true) mounts in
      let observation :=
        with_payload (observation_new id clock PROBE_CLIENT_MOUNT (context_target c) Probe_Ok)
          (json_object [
             ("mounts", json_of_array (map mount_json mounts));
             ("mount_count", json_of_u64 (N.of_nat (length mounts)));
             ("read_only_count", json_of_u64 (N.of_nat (length read_only)));
             ("servers", json_strings (omap nfs_server mounts))]) in
      match read_only with
      | [] => observation
      | _ =>
          with_evidence observation
            (json_object [
               ("read_only_mounts", json_strings (map mount_target read_only));
               ("note", json_of_str (show_nat (length read_only) +:+ " mount(s) are read-only: "
                                     +:+ str_join ", " (map mount_target read_only)))])
      end
  end.

(** How a [stat] on a blocking thread ends within the time. *)
Inductive StatResult :=
  | Stat_Done (latency : StdDuration)
  | Stat_Error (detail : string)
  | Stat_TaskLost (detail : string)
  | Stat_Late.

(** [stat_with_deadline]. *)
Definition stat_with_deadline (r : StatResult) : option (StdDuration + string) :=
  match r with
  | Stat_Done latency => Some (inl latency)
  | Stat_Error detail => Some (inr detail)
  | Stat_TaskLost detail => Some (inr ("probe task failed: " +:+ detail))
  | Stat_Late => None
  end.

(** [NfsClientIoProbe::collect]. *)
Definition io_collect (stat : string → StatResult) (slow_after : StdDuration) (c : ProbeContext) : Observation :=
  match parameter_str c "mount_point" with
  | None =>
      with_error (observation_new id clock PROBE_CLIENT_IO (context_target c) Probe_NotApplicable)
        "no_mount_point" "no mount point is configured for this entity"
  | Some mount_point =>
      let report status latency :=
        with_payload (observation_new id clock PROBE_CLIENT_IO (context_target c) (nfs_probe_status status))
          (json_object [
             ("mount_point", json_of_str mount_point);
             ("nfs_status", json_of_str (nfs_status_name status));
             ("latency_ms", json_opt_u64 ((λ l, as_u64 (as_millis l)) <$> latency));
             ("responded", json_of_bool (bool_decide (is_Some latency)))]) in
      match stat_with_deadline (stat mount_point) with
      | Some (inl latency) => report (classify_latency latency slow_after) (Some latency)
      | Some (inr error) =>
          with_error
            (with_payload (observation_new id clock PROBE_CLIENT_IO (context_target c) Probe_Failed)
               (json_object [
                  ("mount_point", json_of_str mount_point); ("nfs_status", json_of_str "NFS_ERROR"); ("responded", json_of_bool true)]))
            "stat_failed" error
      | None => with_error (report Nfs_Timeout None) "timed_out" "the mount did not respond within the timeout"
      end
  end.

(** ** NFS, from the server *)

(** [ExportSources]. *)
Record ExportSources := mk_export_sources { exports : list string; sources_read : nat; unreadable : nat }.

(** [parse_exports]. *)
Definition export_of_line (line : string) : option string :=
  let line := trim (before "#" line) in
  if is_empty line then None
  else
    match str_strip_prefix (String "034" "") line with
    | Some rest => Some (before "034" rest)
    | None => str_replace "\040" " " <$> head (split_whitespace line)
    end.

Definition parse_exports (text : string) : list string := omap export_of_line (lines text).

(** The closure [consider]. *)
Definition consider (found : ExportSources) (text : option string) (exists_ : bool) : ExportSources :=
  match text with
  | Some text => mk_export_sources (exports found ++ parse_exports text)%list (S (sources_read found)) (unreadable found)
  | None => if exists_ then mk_export_sources (exports found) (sources_read found) (S (unreadable found)) else found
  end.

(** [Path::extension]: what follows the last dot of a name that has something
    before it. *)
Definition extension (name : string) : option string :=
  '(stem, ext) ← rsplit_once "." name; if is_empty stem then None else Some ext.

(** The files of [exports_dir] the server reads, in the order of their names. *)
Definition drop_ins (entries : list string) : list string :=
  merge_sort key_le (filter (λ name, extension name = Some "exports") entries).

(** [NfsExportsProbe::export_sources]. *)
Definition export_sources (read : string → option string) (exists_ : string → bool) (read_dir : string → option (list string))
    (exports_path exports_dir : string) : ExportSources :=
  let found := consider (mk_export_sources [] 0 0) (read exports_path) (exists_ exports_path) in
  let found :=
    match read_dir exports_dir with
    | Some entries => foldl (λ found name, consider found (read (exports_dir +:+ "/" +:+ name)) true) found (drop_ins entries)
    | None => found
    end in
  mk_export_sources (dedup_adjacent (merge_sort key_le (exports found))) (sources_read found) (unreadable found).

(** [NfsExportsProbe::exports]. *)
Definition exports_found (found : ExportSources) : option (list string) :=
  if (0 <? sources_read found)%nat then Some (exports found) else None.

(** [NfsExportsProbe::collect]. *)
Definition exports_observation (target : EntityId) (exports_path exports_dir : string) (found : ExportSources) : Observation :=
  let listing paths :=
    with_payload (observation_new id clock PROBE_SERVER_EXPORTS target Probe_Ok)
      (json_object [
         ("exports", json_strings paths);
         ("export_count", json_of_u64 (N.of_nat (length paths)));
         ("sources_read", json_of_u64 (N.of_nat (sources_read found)))]) in
  match exports found with
  | _ :: _ => listing (exports found)
  | [] =>
      if (0 <? unreadable found)%nat then
        with_error
          (with_payload (observation_new id clock PROBE_SERVER_EXPORTS target Probe_Unsupported)
             (json_object [("unreadable_sources", json_of_u64 (N.of_nat (unreadable found)))]))
          "exports_unreadable"
          (show_nat (unreadable found)
           +:+ " export source(s) exist but could not be read; no conclusion can be drawn about what is exported")
      else if (0 <? sources_read found)%nat then listing []
      else
        with_error (observation_new id clock PROBE_SERVER_EXPORTS target Probe_Unsupported) "no_exports_file"
          ("neither " +:+ exports_path +:+ " nor " +:+ exports_dir +:+ "/*.exports could be read")
  end.
End probes.
