(* ===== verification/ProbesSpec.v ===== *)
(** * Probes: what their answers are worth

    What each probe reports is what it saw, and the rules that read the report
    take from it what was seen and no more. *)

From S2P Require Import Concrete.
From S2P Require Export HostNet HostProbes.

Local Open Scope string_scope.

(** ** Reading a payload *)

Section payloads.
Context `{J : JsonApi} `{JL : !JsonLaws}.

(** A field of an object that is written once. *)
Lemma get_field (fields : list (string * json)) key : json_get (json_object fields) key = (list_to_map fields : gmap string json) !! key.
Proof. unfold json_object. apply json_get_object. Qed.
End payloads.

(** Look a literal key up in a literal list of fields. *)
Ltac read_field :=
  rewrite get_field; cbn [list_to_map foldr uncurry fst snd];
  repeat first [rewrite lookup_insert_eq | rewrite lookup_insert_ne by done].

Section verdicts.
Context `{J : JsonApi} `{JL : !JsonLaws}.
Variables (id : ObservationId) (clock : Timestamp).

(** ** Reaching a host *)

Lemma tcp_observation_reads p target address port r :
  let o := tcp_observation id clock p target address port r in
  probe_id o = definition_id (tcp_probe_definition p)
  ∧ target_entity o = target ∧ status o = status_for p r
  ∧ json_get (payload o) "host_responded" ≫= json_as_bool = Some (proves_host_responds r)
  ∧ json_get (payload o) "outcome" ≫= json_as_str = Some (connect_code r).
Proof.
  cbn zeta. unfold tcp_observation. set (fields := json_object _).
  assert (json_get fields "host_responded" ≫= json_as_bool = Some (proves_host_responds r)
    ∧ json_get fields "outcome" ≫= json_as_str = Some (connect_code r)) as [H1 H2].
  { unfold fields. split; read_field; cbn [mbind option_bind]; [apply json_as_bool_of|apply json_as_str_of]. }
  clearbody fields. case_decide; [by split_and!|]. destruct r; by split_and!.
Qed.

Lemma status_of_reachability r : probe_is_conclusive (status_for reachability r) = true.
Proof. by destruct r. Qed.

(** What one way a connection can go adds to what the observers found. *)
Definition verdict_of_outcome (observer : EntityId) (v : Verdicts) (r : ConnectOutcome) : Verdicts :=
  match r with
  | Connect_Connected _ =>
      {| v_reached := {[ observer ]} ∪ v_reached v; v_connected := {[ observer ]} ∪ v_connected v; v_failed := v_failed v |}
  | Connect_Refused =>
      {| v_reached := {[ observer ]} ∪ v_reached v; v_connected := v_connected v; v_failed := v_failed v |}
  | _ => {| v_reached := v_reached v; v_connected := v_connected v; v_failed := {[ observer ]} ∪ v_failed v |}
  end.

Lemma add_verdict_reads host v o observer r :
  probe_id o = NETWORK_PROBE → probe_is_conclusive (status o) = true → observer_entity o = Some observer → observer ≠ host →
  json_get (payload o) "host_responded" ≫= json_as_bool = Some (proves_host_responds r) →
  json_get (payload o) "outcome" ≫= json_as_str = Some (connect_code r) →
  add_verdict host v o = verdict_of_outcome observer v r.
Proof.
  intros Hp Hc Ho Hne Hr Hout. unfold add_verdict, reached, connected. rewrite Hp, Hc, Ho, Hr, Hout, decide_False by done.
  by destruct r.
Qed.

(** C4.  From the connection to the conclusion: what the reachability rule counts
    of an observer's report is how the connection went.  A host that answers, a
    refusal included, is reached; only a connection makes the path a working one;
    a host nobody knows an address of says nothing at all. *)
Theorem reachability_is_what_answered (resolve : string → NameLookup) (attempt : string → Attempt)
    (c : ProbeContext) (observer : EntityId) (v : Verdicts) :
  observer ≠ context_target c →
  add_verdict (context_target c) v (with_observer (tcp_collect id clock resolve attempt reachability c) observer) =
  match parameter_str c "address" with
  | None => v
  | Some address => verdict_of_outcome observer v (connect resolve attempt address (tcp_port reachability c))
  end.
Proof.
  intros Hne. unfold tcp_collect. destruct (parameter_str c "address") as [address|]; [|done].
  set (r := connect _ _ _ _).
  destruct (tcp_observation_reads reachability (context_target c) address (tcp_port reachability c) r) as (Hp & _ & Hs & Hr & Ho).
  apply add_verdict_reads; try done. cbn [with_observer status]. rewrite Hs. apply status_of_reachability.
Qed.

(** A probe that panics is counted against the host it was run on. *)
Lemma panicked_probe_is_a_verdict (c : ProbeContext) (observer : EntityId) (v : Verdicts) started finished elapsed :
  observer ≠ context_target c →
  add_verdict (context_target c) v
    (run_observation reachability_definition (context_target c) (Some observer) id clock started finished elapsed Probes.Panicked)
  = {| v_reached := v_reached v; v_connected := v_connected v; v_failed := {[ observer ]} ∪ v_failed v |}.
Proof.
  intros Hne. unfold add_verdict, reached. cbn [run_observation with_observer with_duration_ms with_times with_error
    observation_new probe_id status observer_entity payload reachability_definition definition_id tcp_definition].
  cbn -[json_get json_null]. rewrite json_get_null. cbn [mbind option_bind]. by rewrite decide_False.
Qed.
End verdicts.

(** ** The journal *)

Section journal.
Context `{J : JsonApi} `{JL : !JsonLaws}.
Variables (id : ObservationId) (clock : Timestamp).

(** The patterns of the classes of one severity. *)
Definition patterns_of (s : EventSeverity) : list string :=
  filter (λ class, class_severity class = s) EVENT_CLASSES ≫= class_patterns.

Lemma classify_spec line :
  match classify line with
  | Some class => class ∈ EVENT_CLASSES ∧ matches (to_ascii_lowercase line) class = true
  | None => ∀ class, class ∈ EVENT_CLASSES → matches (to_ascii_lowercase line) class = false
  end.
Proof.
  unfold classify. destruct (list_find _ EVENT_CLASSES) as [[i class]|] eqn:Hf; cbn [fmap option_fmap option_map snd].
  - apply list_find_Some in Hf as (Hi & Hm & _). split; [by eapply list_elem_of_lookup_2|done].
  - apply list_find_None in Hf. rewrite Forall_forall in Hf. intros class Hc. by apply not_true_is_false, Hf.
Qed.

(** Serious classes come first, so a line that matches one is serious. *)
Lemma classify_serious line :
  (∃ class, classify line = Some class ∧ class_severity class = Serious) ↔
  ∃ pattern, pattern ∈ patterns_of Serious ∧ contains pattern (to_ascii_lowercase line) = true.
Proof.
  assert (∀ pattern, pattern ∈ patterns_of Serious ↔ ∃ class, class ∈ take 7 EVENT_CLASSES ∧ pattern ∈ class_patterns class) as Hpat.
  { intros pattern. unfold patterns_of. rewrite list_elem_of_bind.
    change (filter _ EVENT_CLASSES) with (take 7 EVENT_CLASSES). naive_solver. }
  setoid_rewrite Hpat. unfold classify. set (lowered := to_ascii_lowercase line).
  change EVENT_CLASSES with (take 7 EVENT_CLASSES ++ drop 7 EVENT_CLASSES)%list at 1.
  assert (Forall (λ class, class_severity class = Serious) (take 7 EVENT_CLASSES)) as Hfront by (by repeat constructor).
  assert (Forall (λ class, class_severity class = Notable) (drop 7 EVENT_CLASSES)) as Hback by (by repeat constructor).
  generalize (take 7 EVENT_CLASSES), (drop 7 EVENT_CLASSES), Hfront, Hback. clear. intros front back Hfront Hback.
  rewrite Forall_forall in Hfront, Hback. split.
  - intros (class & Hf & Hs). destruct (list_find _ _) as [[i class']|] eqn:Hfind; [|done]. cbn in Hf. injection Hf as ->.
    apply list_find_Some in Hfind as (Hi & Hm & _). apply list_elem_of_lookup_2, elem_of_app in Hi as [Hi|Hi].
    + unfold matches in Hm. apply existsb_exists in Hm as (p & Hp & Hc). exists p. split; [|done]. exists class.
      split; [done|]. by apply list_elem_of_In.
    + rewrite (Hback _ Hi) in Hs. discriminate Hs.
  - intros (p & (class & Hin & Hp) & Hc).
    assert (matches lowered class = true) as Hm by (apply existsb_exists; exists p; split; [by apply list_elem_of_In|done]).
    destruct (list_find (λ class, matches lowered class = true) (front ++ back)) as [[i class']|] eqn:Hfind.
    + exists class'. split; [done|]. apply list_find_Some in Hfind as (Hi & _ & Hfirst).
      apply Hfront. apply list_elem_of_lookup in Hin as [j Hj].
      destruct (decide (i < length front)%nat) as [Hlt|Hge].
      { rewrite lookup_app_l in Hi by done. by eapply list_elem_of_lookup_2. }
      exfalso. apply (Hfirst j class); [|apply lookup_lt_Some in Hj; lia|done]. by apply lookup_app_l_Some.
    + exfalso. apply list_find_None in Hfind. rewrite Forall_forall in Hfind. apply (Hfind class); [|done].
      apply elem_of_app. by left.
Qed.

Lemma take_chars_bound n s : (count_chars (take_chars n s) ≤ n)%nat.
Proof.
  revert n. induction s as [|a s IH]; intros n; cbn [take_chars count_chars]; [lia|].
  destruct (is_continuation a) eqn:Ha; cbn [count_chars]; rewrite ?Ha; [apply IH|].
  destruct n as [|n]; cbn [count_chars]; rewrite ?Ha; [lia|]. specialize (IH n). lia.
Qed.

(** An event is serious when its line matches a serious pattern. *)
Lemma some_serious_event output :
  (∃ e, e ∈ serious_events (parse_journal output)) ↔
  ∃ line pattern, line ∈ lines output ∧ pattern ∈ patterns_of Serious ∧ contains pattern (to_ascii_lowercase line) = true.
Proof.
  unfold serious_events, parse_journal. setoid_rewrite list_elem_of_filter. setoid_rewrite list_elem_of_omap. split.
  - intros (e & Hs & line & Hl & He). unfold event_of_line in He. destruct (classify line) as [class|] eqn:Hcl; [|done].
    cbn in He. injection He as <-. cbn in Hs. destruct (proj1 (classify_serious line)) as (p & Hp & Hc); [by exists class|]. eauto.
  - intros (line & p & Hl & Hp & Hc). destruct (proj2 (classify_serious line)) as (class & Hcl & Hs); [by exists p|].
    eexists. split; [|exists line; split; [done|]; unfold event_of_line; rewrite Hcl; cbn [mbind option_bind]; reflexivity]. done.
Qed.

Lemma elem_of_patterns p s : p ∈ patterns_of s ↔ ∃ class, class ∈ EVENT_CLASSES ∧ class_severity class = s ∧ p ∈ class_patterns class.
Proof. unfold patterns_of. rewrite list_elem_of_bind. setoid_rewrite list_elem_of_filter. naive_solver. Qed.

Lemma matches_spec lowered class : matches lowered class = true ↔ ∃ p, p ∈ class_patterns class ∧ contains p lowered = true.
Proof. unfold matches. rewrite existsb_exists. setoid_rewrite list_elem_of_In. done. Qed.

Lemma event_of_line_spec line :
  (∃ e, event_of_line line = Some e) ↔ ∃ s p, p ∈ patterns_of s ∧ contains p (to_ascii_lowercase line) = true.
Proof.
  pose proof (classify_spec line) as Hcl. unfold event_of_line. destruct (classify line) as [class|]; cbn [mbind option_bind].
  - destruct Hcl as [Hin (p & Hp & Hc)%matches_spec]. split; [intros _|intros _; by eexists].
    exists (class_severity class), p. rewrite elem_of_patterns. eauto.
  - split; [by intros [e He]|]. intros (s & p & (class & Hin & _ & Hp)%elem_of_patterns & Hc). exfalso.
    assert (matches (to_ascii_lowercase line) class = true) as Hm by (apply matches_spec; eauto). by rewrite (Hcl class Hin) in Hm.
Qed.

(** What the journal said is kept and judged line by line: every line that
    matches a known pattern is an event, no other is, none is longer than its
    bound, and the host is called degraded exactly when some line matches a
    pattern of a serious class, whatever else that line or any other says. *)
Theorem journal_keeps_the_evidence (target : EntityId) (window : StdDuration) (output : string) :
  let o := journal_observation id clock target window (parse_journal output) in
  (status o = Probe_Degraded ↔
     ∃ line pattern, line ∈ lines output ∧ pattern ∈ patterns_of Serious ∧ contains pattern (to_ascii_lowercase line) = true)
  ∧ (status o = Probe_Ok ∨ status o = Probe_Degraded)
  ∧ (∀ e, e ∈ parse_journal output → (count_chars (event_message e) ≤ MAX_MESSAGE)%nat)
  ∧ json_get (observation_evidence o) "events" ≫= json_as_array = Some (map event_json (parse_journal output))
  ∧ (∀ line, line ∈ lines output →
       (∃ e, event_of_line line = Some e) ↔
       ∃ s pattern, pattern ∈ patterns_of s ∧ contains pattern (to_ascii_lowercase line) = true).
Proof.
  cbn zeta. set (events := parse_journal output).
  assert (status (journal_observation id clock target window events) = if decide (serious_events events = []) then Probe_Ok else Probe_Degraded) as Hs.
  { unfold journal_observation. by repeat case_decide. }
  split_and!.
  - rewrite Hs, <- some_serious_event. fold events. destruct (serious_events events) as [|e es]; case_decide; try done.
    + split; [done|]. intros [e He]. by apply elem_of_nil in He.
    + split; [intros _; exists e; by left|done].
  - rewrite Hs. case_decide; tauto.
  - intros e (line & _ & He)%list_elem_of_omap. unfold event_of_line in He. destruct (classify line); [|done].
    injection He as <-. cbn [event_message]. apply take_chars_bound.
  - unfold journal_observation. case_decide; cbn [observation_evidence with_error with_evidence]; read_field;
      cbn [mbind option_bind]; apply json_as_array_of.
  - intros line _. apply event_of_line_spec.
Qed.
End journal.

(** ** What a file server exports *)

Section exports.
Context `{J : JsonApi} `{JL : !JsonLaws}.
Variables (id : ObservationId) (clock : Timestamp).
Variables (read : string → option string) (exists_ : string → bool) (read_dir : string → option (list string)).
Variables (exports_path exports_dir : string).

(** The sources the server reads: the file itself, and every drop-in. *)
Definition export_files : list string :=
  exports_path :: match read_dir exports_dir with
                  | Some entries => map (λ name, exports_dir +:+ "/" +:+ name) (drop_ins entries)
                  | None => []
                  end.

(** A source that is there: a drop-in is, the file may not be. *)
Definition source_present (path : string) : Prop :=
  path = exports_path ∧ exists_ exports_path = true ∨ path ∈ tail export_files.

Lemma consider_spec found text here :
  exports (consider found text here) = (exports found ++ default [] (parse_exports <$> text))%list
  ∧ sources_read (consider found text here) = (sources_read found + if text is Some _ then 1 else 0)%nat
  ∧ unreadable (consider found text here) = (unreadable found + if text is Some _ then 0 else if here then 1 else 0)%nat.
Proof. destruct text, here; cbn; rewrite ?app_nil_r; split_and!; try done; lia. Qed.

Lemma consider_all names found :
  let found' := foldl (λ found name, consider found (read (exports_dir +:+ "/" +:+ name)) true) found names in
  let files := map (λ name, exports_dir +:+ "/" +:+ name) names in
  (∀ x, x ∈ exports found' ↔ x ∈ exports found ∨ ∃ path text, path ∈ files ∧ read path = Some text ∧ x ∈ parse_exports text)
  ∧ (sources_read found' = 0 ↔ sources_read found = 0 ∧ ∀ path, path ∈ files → read path = None)%nat
  ∧ (unreadable found' = 0 ↔ unreadable found = 0 ∧ ∀ path, path ∈ files → is_Some (read path))%nat.
Proof.
  cbn zeta. revert found. induction names as [|n names IH]; intros found; cbn [foldl map].
  { set_solver. }
  set (path := exports_dir +:+ "/" +:+ n). destruct (IH (consider found (read path) true)) as (H1 & H2 & H3).
  destruct (consider_spec found (read path) true) as (E1 & E2 & E3). rewrite H2, H3, E2, E3. clear H2 H3 E2 E3.
  setoid_rewrite elem_of_cons. split_and!.
  - intros x. rewrite H1, E1, elem_of_app. destruct (read path) as [text|] eqn:Hr; cbn; set_solver.
  - destruct (read path) as [text|] eqn:Hr; split; try (intros []; lia).
    + intros [_ Hall]. specialize (Hall path). naive_solver.
    + intros [H0 Hall]. split; [lia|]. naive_solver.
    + intros [H0 Hall]. split; [lia|]. naive_solver.
  - destruct (read path) as [text|] eqn:Hr; split; try (intros []; lia).
    + intros [H0 Hall]. split; [lia|]. naive_solver.
    + intros [H0 Hall]. split; [lia|]. naive_solver.
    + intros [_ Hall]. specialize (Hall path). destruct Hall as [? ?]; [by left|congruence].
Qed.

Lemma elem_of_sorted_dedup (l : list string) x : x ∈ dedup_adjacent (merge_sort key_le l) ↔ x ∈ l.
Proof. rewrite HostNet.elem_of_dedup_adjacent. by rewrite merge_sort_Permutation. Qed.

(** What was found is what the sources hold, and the counts tell whether all
    could be read. *)
Lemma export_sources_spec :
  let found := export_sources read exists_ read_dir exports_path exports_dir in
  (∀ x, x ∈ exports found ↔ ∃ path text, path ∈ export_files ∧ read path = Some text ∧ x ∈ parse_exports text)
  ∧ (sources_read found = 0 ↔ ∀ path, path ∈ export_files → read path = None)%nat
  ∧ (unreadable found = 0 ↔ ∀ path, source_present path → is_Some (read path))%nat.
Proof.
  cbn zeta. unfold export_sources, source_present, export_files. cbn [tail exports sources_read unreadable].
  set (first := consider _ _ _). destruct (consider_spec (mk_export_sources [] 0 0) (read exports_path) (exists_ exports_path)) as (H1 & H2 & H3).
  fold first in H1, H2, H3. cbn in H1, H2, H3.
  set (names := match read_dir exports_dir with Some entries => drop_ins entries | None => [] end).
  assert (match read_dir exports_dir with
    | Some entries => foldl (λ found name, consider found (read (exports_dir +:+ "/" +:+ name)) true) first (drop_ins entries)
    | None => first end = foldl (λ found name, consider found (read (exports_dir +:+ "/" +:+ name)) true) first names) as ->
    by (unfold names; by destruct (read_dir exports_dir)).
  assert (match read_dir exports_dir with Some entries => map (λ name, exports_dir +:+ "/" +:+ name) (drop_ins entries) | None => [] end
    = map (λ name, exports_dir +:+ "/" +:+ name) names) as -> by (unfold names; by destruct (read_dir exports_dir)).
  destruct (consider_all names first) as (Ha & Hb & Hc). split_and!.
  - intros x. rewrite elem_of_sorted_dedup, Ha, H1. setoid_rewrite elem_of_cons.
    destruct (read exports_path) eqn:Hr; cbn; set_solver.
  - rewrite Hb, H2. setoid_rewrite elem_of_cons. destruct (read exports_path) eqn:Hr; naive_solver.
  - rewrite Hc, H3. split.
    + intros [H0 Hall] path [[-> He]|Hin]; [|by apply Hall]. rewrite He in H0. by destruct (read exports_path).
    + intros Hall. split; [|intros path Hin; apply Hall; by right].
      destruct (read exports_path) eqn:Hr; [done|]. destruct (exists_ exports_path) eqn:He; [|done].
      destruct (Hall exports_path) as [? ?]; [by left|congruence].
Qed.

(** An empty export list is never guessed: the count the storage rule reads is
    zero exactly when some source was read, every source that is there was, and
    none of them lists a path; whenever one lists one the exports are those of all
    the sources; and when nothing can be said the rule is given no count. *)
Theorem exports_are_never_guessed (target : EntityId) :
  let found := export_sources read exists_ read_dir exports_path exports_dir in
  let o := exports_observation id clock target exports_path exports_dir found in
  (N.of_nat (length (exports found)) ≤ u64_max)%N →
  (json_get (payload o) "export_count" ≫= json_as_u64 = Some 0%N ↔
     (∃ path, path ∈ export_files ∧ is_Some (read path))
     ∧ (∀ path, source_present path → is_Some (read path))
     ∧ ∀ path text, path ∈ export_files → read path = Some text → parse_exports text = [])
  ∧ (∀ path text x, path ∈ export_files → read path = Some text → x ∈ parse_exports text →
       status o = Probe_Ok ∧ x ∈ exports found)
  ∧ probe_is_bad (status o) = false.
Proof.
  cbn zeta. destruct export_sources_spec as (Hx & Hr & Hu). set (found := export_sources _ _ _ _ _) in *. clearbody found.
  intros Hbound.
  assert ((∃ path, path ∈ export_files ∧ is_Some (read path)) ↔ sources_read found ≠ 0%nat) as Hread.
  { rewrite Hr. split; [intros (path & Hp & [t Ht]) Hall; by rewrite Hall in Ht|]. intros Hno.
    destruct (decide (Exists (λ path, is_Some (read path)) export_files)) as [He|He]; [by apply Exists_exists in He|].
    exfalso. apply Hno. intros path Hp. apply eq_None_not_Some. intros Hs. apply He, Exists_exists. by exists path. }
  assert ((∀ path text, path ∈ export_files → read path = Some text → parse_exports text = []) ↔ exports found = []) as Hnone.
  { split.
    - intros Hall. destruct (exports found) as [|x xs]; [done|]. exfalso.
      destruct (proj1 (Hx x)) as (path & text & Hp & Ht & Hin); [by left|]. rewrite (Hall path text Hp Ht) in Hin. by apply elem_of_nil in Hin.
    - intros Hnil path text Hp Ht. rewrite Hnil in Hx. destruct (parse_exports text) as [|x xs] eqn:Hpt; [done|]. exfalso.
      apply (not_elem_of_nil x), Hx. exists path, text. rewrite Hpt. split_and!; [done..|by left]. }
  rewrite Hread, <- Hu, Hnone. clear Hread Hr Hu.
  unfold exports_observation. destruct (exports found) as [|x xs] eqn:Hfound.
  - destruct (0 <? unreadable found)%nat eqn:Hun; [|destruct (0 <? sources_read found)%nat eqn:Hsr].
    + apply Nat.ltb_lt in Hun. cbn [payload with_error with_payload status]. split_and!; [|set_solver|done].
      read_field. rewrite lookup_empty. split; [done|lia].
    + apply Nat.ltb_ge in Hun. apply Nat.ltb_lt in Hsr. cbn [payload with_payload status]. split_and!; [|set_solver|done].
      read_field. cbn [mbind option_bind length N.of_nat]. rewrite json_as_u64_of by done. split; [intros _; split_and!; [lia..|done]|done].
    + apply Nat.ltb_ge in Hsr. cbn [payload with_error observation_new status]. split_and!; [|set_solver|done].
      rewrite json_get_null. split; [done|lia].
  - cbn [payload with_payload status]. split_and!; [|set_solver|done].
    read_field. cbn [mbind option_bind]. rewrite json_as_u64_of by done. cbn [length]. split; [|by intros (_ & _ & [=])]. intros [=].
Qed.
End exports.

(** ** Samples *)

Definition sample_host_id : EntityId := {| as_uuid := 7%N |}.
Definition sample_peer_id : EntityId := {| as_uuid := 9%N |}.
Definition sample_observation_id : ObservationId := {| observation_uuid := 1%N |}.

Lemma reachability_is_what_answered_witness :
  let c := with_parameters (context_local sample_host_id ∅) (json_object [("address", json_of_str "192.0.2.1")]) in
  let refused := tcp_collect sample_observation_id 0 (λ t, Resolve_Addresses [t]) (λ _, Attempt_Refused) reachability c in
  v_reached (add_verdict sample_host_id verdicts_default (with_observer refused sample_peer_id)) = {[ sample_peer_id ]}
  ∧ v_failed (add_verdict sample_host_id verdicts_default (with_observer refused sample_peer_id)) = ∅.
Proof.
  intros c refused. assert (sample_peer_id ≠ context_target c) as Hne by done.
  pose proof (reachability_is_what_answered sample_observation_id 0 (λ t, Resolve_Addresses [t]) (λ _, Attempt_Refused)
    c sample_peer_id verdicts_default Hne) as Hv.
  change (context_target c) with sample_host_id in Hv. fold refused in Hv. rewrite Hv.
  assert (parameter_str c "address" = Some "192.0.2.1") as ->.
  { unfold parameter_str. cbn [c parameters with_parameters]. rewrite get_field. cbn [list_to_map foldr uncurry fst snd].
    rewrite lookup_insert_eq. cbn [mbind option_bind]. apply json_as_str_of. }
  cbn [verdict_of_outcome connect v_reached v_failed verdicts_default]. split; [set_solver|done].
Defined.

Definition sample_journal : string :=
  "2026-09-08T01:02:03+0000 n1 kernel: Out of memory: Killed process 7" +:+ String "010" "2026-09-08T01:02:04+0000 n1 kernel: nfs: server fs1 OK".

Lemma journal_keeps_the_evidence_witness :
  status (journal_observation sample_observation_id 0 sample_host_id (std_secs 60) (parse_journal sample_journal)) = Probe_Degraded
  ∧ (∀ e, e ∈ parse_journal sample_journal → (count_chars (event_message e) ≤ MAX_MESSAGE)%nat).
Proof.
  destruct (journal_keeps_the_evidence sample_observation_id 0 sample_host_id (std_secs 60) sample_journal) as (Hd & _ & Hlen & _).
  split; [|exact Hlen]. apply Hd. exists "2026-09-08T01:02:04+0000 n1 kernel: nfs: server fs1 OK", "nfs: server". split_and!.
  - apply (list_elem_of_lookup_2 _ 1). reflexivity.
  - apply (list_elem_of_lookup_2 _ 20). reflexivity.
  - reflexivity.
Defined.

(** Server names come back, and a line that says so is as serious as one that
    says the server is gone; a pattern meant as a regular expression matches
    nothing but itself. *)
Example recovery_is_serious :
  (class_severity <$> classify "n1 kernel: nfs: server fs1 OK", class_kind <$> classify "XFS (sda1): Corruption of in-memory data detected")
  = (Some Serious, None).
Proof. reflexivity. Qed.

(** The name does not resolve, and something answered. *)
Example nothing_answered_and_something_did :
  something_answered (read_banner (λ _, Attempt_Error "failed to lookup address information") (λ _, Read_Late) "n1" 22) = true.
Proof. reflexivity. Qed.

(** The second line of an entry is an export of its own. *)
Example continued_line_is_an_export :
  parse_exports ("/srv a(rw) \" +:+ String "010" " b(ro)") = ["/srv"; "b(ro)"].
Proof. reflexivity. Qed.

Definition zfs_exports (path : string) : option string :=
  if String.eqb path "/etc/exports" then Some "# nothing here" else if String.eqb path "/etc/exports.d/zfs.exports" then Some "/tank *(rw)" else None.

Lemma exports_are_never_guessed_witness :
  let found := export_sources zfs_exports (λ _, true) (λ _, Some ["zfs.exports"; "notes"]) "/etc/exports" "/etc/exports.d" in
  (N.of_nat (length (exports found)) ≤ u64_max)%N
  ∧ "/tank" ∈ exports found
  ∧ status (exports_observation sample_observation_id 0 sample_host_id "/etc/exports" "/etc/exports.d" found) = Probe_Ok.
Proof.
  intros found. assert (N.of_nat (length (exports found)) ≤ u64_max)%N as Hb.
  { assert (length (exports found) = 1%nat) as -> by (vm_compute; reflexivity). done. }
  destruct (exports_are_never_guessed sample_observation_id 0 zfs_exports (λ _, true) (λ _, Some ["zfs.exports"; "notes"])
    "/etc/exports" "/etc/exports.d" sample_host_id Hb) as (_ & Hall & _).
  destruct (Hall "/etc/exports.d/zfs.exports" "/tank *(rw)" "/tank") as [Hs Hin].
  - apply (list_elem_of_lookup_2 _ 1). vm_compute. reflexivity.
  - reflexivity.
  - apply (list_elem_of_lookup_2 _ 0). vm_compute. reflexivity.
  - split_and!; [exact Hb|exact Hin|exact Hs].
Defined.
