(* ===== verification/Observers.v ===== *)
(** * Running the probes: the controller, the peers and the host itself

    [src/controller/observer.rs], [src/agent/peer_probes.rs],
    [src/agent/local_probes.rs], and from [src/agent/mod.rs] which probes an
    agent schedules.  What executing a probe comes to is an argument. *)

From S2P Require Export HostProbes Peers.

Local Open Scope string_scope.

(** ** One execution *)

Section running.
Context `{J : JsonApi}.

(** How an execution went, with the clocks and identifiers drawn around it. *)
Record Execution := mk_execution {
  exec_outcome : ProbeOutcome;
  exec_id : ObservationId;
  exec_clock : Timestamp;
  exec_started : Timestamp;
  exec_finished : Timestamp;
  exec_elapsed_ms : N
}.

Definition execution_key (d : ProbeDefinition) (c : ProbeContext) : ProbeId * EntityId := (definition_id d, context_target c).

(** [ProbeRunner::run]: [None] is [Skipped::AlreadyRunning].  The slot is given
    back when the execution ends, which a wait that ran out does not tell. *)
Definition run_probe (r : ProbeRunner) (d : ProbeDefinition) (c : ProbeContext) (e : Execution) : ProbeRunner * option Observation :=
  let key := execution_key d c in
  match acquire key (max_outstanding d) r with
  | (r, false) => (r, None)
  | (r, true) =>
      (match exec_outcome e with TimedOut => r | _ => release key r end,
       Some (run_observation d (context_target c) (context_observer c) (exec_id e) (exec_clock e) (exec_started e)
               (exec_finished e) (exec_elapsed_ms e) (exec_outcome e)))
  end.

Definition push_some {A} (l : list A) (o : option A) : list A := match o with Some x => (l ++ [x])%list | None => l end.

(** Running the probes of one target in turn. *)
Variable execute : ProbeDefinition → ProbeContext → Execution.

Definition run_step (context : ProbeDefinition → ProbeContext) (st : ProbeRunner * list Observation) (d : ProbeDefinition) :
    ProbeRunner * list Observation :=
  let '(r, o) := run_probe st.1 d (context d) (execute d (context d)) in (r, push_some st.2 o).

Definition run_probes (context : ProbeDefinition → ProbeContext) (r : ProbeRunner) (ds : list ProbeDefinition) :
    ProbeRunner * list Observation :=
  foldl (run_step context) (r, []) ds.

(** [add], of observers and peers alike, and the built-in remote probes as an
    operator left them. *)
Definition add_probe (schedules : ProbeSchedules) (probes : list ProbeDefinition) (d : ProbeDefinition) : list ProbeDefinition :=
  if schedule_is_enabled schedules (definition_id d) then (probes ++ [apply_schedule schedules d])%list else probes.

Definition remote_probes (schedules : ProbeSchedules) : list ProbeDefinition :=
  foldl (add_probe schedules) [] [reachability_definition; ssh_definition; agent_definition; nfs_port_definition].

(** Which of the probes an observer runs against a target. *)
Definition may_observe (t : EntityType) (capabilities : CapabilitySet) (d : ProbeDefinition) : bool :=
  applies_to d t capabilities && negb (bool_decide (execution_mode d = Mode_Local)).

(** [applicable_probes]. *)
Definition applicable_probes (probes : list ProbeDefinition) (t : EntityType) (capabilities : CapabilitySet) : list string :=
  map definition_id (filter (λ d, applies_to d t capabilities = true) probes).

(** ** The controller *)

(** [Endpoint], [Endpoint::parameters]. *)
Record Endpoint := mk_endpoint { endpoint_address : string; endpoint_ssh_port : option N; endpoint_agent_port : option N }.

Definition endpoint_parameters (e : Endpoint) : json :=
  let parameters := {[ "address" := json_of_str (endpoint_address e) ]} : gmap string json in
  let parameters := match endpoint_ssh_port e with Some p => <[ "ssh_port" := json_of_u64 p ]> parameters | None => parameters end in
  json_of_object (match endpoint_agent_port e with Some p => <[ "agent_port" := json_of_u64 p ]> parameters | None => parameters end).

(** [endpoint_for]. *)
Definition known_addresses (e : ManagedEntity) : option (list json) :=
  match json_get (entity_metadata e) "host" ≫= (λ host, json_get host "addresses") with
  | Some value => json_as_array value
  | None => json_get (entity_metadata e) "addresses" ≫= json_as_array
  end.

Definition known_port (e : ManagedEntity) (key : string) : option N :=
  as_u16 <$> (json_get (entity_metadata e) "ports" ≫= λ p, json_get p key ≫= json_as_u64).

Definition endpoint_for (e : ManagedEntity) : option Endpoint :=
  let address := default (canonical_name e) (known_addresses e ≫= λ l, head (omap json_as_str l)) in
  if is_empty address then None else Some (mk_endpoint address (known_port e "ssh") (known_port e "agent")).

(** [RemoteObserver], [with_schedules], [observed_by]. *)
Record RemoteObserver := mk_observer {
  observer_runner : ProbeRunner;
  observer_probes : list ProbeDefinition;
  observing_entity : option EntityId
}.

Definition observer_with_schedules (schedules : ProbeSchedules) : RemoteObserver :=
  mk_observer runner_new (remote_probes schedules) None.
Definition observing_as (o : RemoteObserver) (e : EntityId) : RemoteObserver :=
  mk_observer (observer_runner o) (observer_probes o) (Some e).

(** The context a probe of an entity is run in. *)
Definition observer_context (o : RemoteObserver) (e : ManagedEntity) (endpoint : Endpoint) (d : ProbeDefinition) : ProbeContext :=
  let c := with_context_timeout (with_parameters (context_local (entity_eid e) (entity_capabilities e)) (endpoint_parameters endpoint)) (timeout d) in
  match observing_entity o with Some observer => observed_by c observer | None => c end.

(** [RemoteObserver::observe]. *)
Definition observe (o : RemoteObserver) (e : ManagedEntity) : RemoteObserver * list Observation :=
  if decide (observing_entity o = Some (entity_eid e)) then (o, [])
  else
    match endpoint_for e with
    | None => (o, [])
    | Some endpoint =>
        let '(r, os) := run_probes (observer_context o e endpoint) (observer_runner o)
                          (filter (λ d, may_observe (entity_kind e) (entity_capabilities e) d = true) (observer_probes o)) in
        (mk_observer r (observer_probes o) (observing_entity o), os)
    end.

(** [RemoteObserver::observe_all]: the executions of a batch overlap, but those of
    two entities share no slot, and the results are kept in the entities' order. *)
Definition observable (e : ManagedEntity) : Prop := entity_kind e = Entity_Host ∧ lifecycle_state e = Lifecycle_Active.

#[export] Instance observable_dec e : Decision (observable e).
Proof. unfold observable. apply _. Defined.

Definition observe_step (st : RemoteObserver * list Observation) (e : ManagedEntity) : RemoteObserver * list Observation :=
  let '(o, os) := observe st.1 e in (o, st.2 ++ os)%list.

Definition observe_all (o : RemoteObserver) (es : list ManagedEntity) : RemoteObserver * list Observation :=
  foldl observe_step (o, []) (filter observable es).

(** ** Peers *)

(** [AssignedTarget]. *)
Record AssignedTarget := mk_assigned {
  assigned_entity : string;
  assigned_name : string;
  assigned_address : string;
  assigned_parameters : json;
  assigned_capabilities : CapabilitySet
}.

#[export] Instance AssignedTarget_eq_dec : EqDecision AssignedTarget.
Proof. pose proof json_eq_dec. solve_decision. Defined.

(** [Controller::assigned_targets]. *)
Definition assigned_targets `{U : UuidApi} (plan : AssignmentPlan) (inv : Inventory) (observer : EntityId) : list AssignedTarget :=
  omap (λ target,
          e ← get inv target;
          endpoint ← endpoint_for e;
          Some (mk_assigned (uuid_to_string (as_uuid (entity_eid e))) (canonical_name e) (endpoint_address endpoint)
                  (endpoint_parameters endpoint) (entity_capabilities e)))
       (targets_for plan observer).

(** [PeerProbes], [with_schedules], [set_targets]. *)
Record PeerProbes := mk_peer {
  peer_runner : ProbeRunner;
  peer_definitions : list ProbeDefinition;
  peer_observer : EntityId;
  peer_targets : list AssignedTarget;
  peer_revision : N
}.

Definition peers_with_schedules (observer : EntityId) (schedules : ProbeSchedules) : PeerProbes :=
  mk_peer runner_new (remote_probes schedules) observer [] 0.

Definition set_targets (p : PeerProbes) (revision : N) (targets : list AssignedTarget) : PeerProbes * bool :=
  (mk_peer (peer_runner p) (peer_definitions p) (peer_observer p) targets revision,
   negb (bool_decide (revision = peer_revision p)) || negb (bool_decide (targets = peer_targets p))).

(** [PeerProbes::observe]; [parse_entity] reads an identifier. *)
Variable parse_entity : string → option EntityId.

Definition peer_context (p : PeerProbes) (t : AssignedTarget) (entity : EntityId) (d : ProbeDefinition) : ProbeContext :=
  with_context_timeout
    (with_parameters (observed_by (context_local entity (assigned_capabilities t)) (peer_observer p)) (assigned_parameters t))
    (timeout d).

Definition peer_observe (p : PeerProbes) (t : AssignedTarget) : PeerProbes * list Observation :=
  match parse_entity (assigned_entity t) with
  | None => (p, [])
  | Some entity =>
      let '(r, os) := run_probes (peer_context p t entity) (peer_runner p)
                        (filter (λ d, may_observe Entity_Host (assigned_capabilities t) d = true) (peer_definitions p)) in
      (mk_peer r (peer_definitions p) (peer_observer p) (peer_targets p) (peer_revision p), os)
  end.

(** [PeerProbes::observe_all]. *)
Definition peer_step (st : PeerProbes * list Observation) (t : AssignedTarget) : PeerProbes * list Observation :=
  let '(p, os) := peer_observe st.1 t in (p, st.2 ++ os)%list.

Definition peer_observe_all (p : PeerProbes) : PeerProbes * list Observation := foldl peer_step (p, []) (peer_targets p).
End running.

(** ** The host itself *)

(** An [Instant], in nanoseconds. *)
Abbreviation Instant := N (only parsing).

Section local_probes.
Context `{J : JsonApi}.

(** [Scheduled]. *)
Record Scheduled := mk_scheduled {
  scheduled_probe : ProbeDefinition;
  scheduled_parameters : json;
  next_due : Instant;
  scheduled_target : option EntityId
}.

(** [LocalProbes]. *)
Record LocalProbes := mk_local {
  local_runner : ProbeRunner;
  scheduled : list Scheduled;
  local_entity : EntityId;
  local_capabilities : CapabilitySet;
  local_parameters : json;
  jitter_seed : N
}.

Definition with_scheduled (l : LocalProbes) (ss : list Scheduled) : LocalProbes :=
  mk_local (local_runner l) ss (local_entity l) (local_capabilities l) (local_parameters l) (jitter_seed l).

(** [LocalProbes::applies]. *)
Definition local_applies (l : LocalProbes) (d : ProbeDefinition) : bool :=
  negb (bool_decide (execution_mode d = Mode_Remote)) && applies_to d Entity_Host (local_capabilities l).

(** [LocalProbes::jitter_for]. *)
Definition jitter_hash (seed : N) (probe : ProbeId) : N :=
  foldl (λ acc b, as_u64 (as_u64 (acc * 31) + N_of_ascii b)) seed (String.list_ascii_of_string probe).

Definition jitter_for (seed : N) (probe : ProbeId) (i : StdDuration) : StdDuration :=
  let span := (as_u64 (as_millis i) / 10)%N in
  if (span =? 0)%N then 0%N else std_millis (jitter_hash seed probe mod span).

(** [LocalProbes::add_for], at the time [now]. *)
Definition add_for (now : Instant) (target : option EntityId) (d : ProbeDefinition) (parameters : json) (l : LocalProbes) :
    LocalProbes * bool :=
  if negb (local_applies l d) then (l, false)
  else
    let due := (now + jitter_for (jitter_seed l) (definition_id d) (interval d))%N in
    (with_scheduled l (scheduled l ++ [mk_scheduled d parameters due target])%list, true).

(** [LocalProbes::with_probes] and [new]. *)
Definition local_with_probes (now : Instant) (seed : N) (entity : EntityId) (capabilities : CapabilitySet) (ds : list ProbeDefinition) :
    LocalProbes :=
  foldl (λ l d, fst (add_for now None d json_null l)) (mk_local runner_new [] entity capabilities json_null seed) ds.

Definition local_new (now : Instant) (seed : N) (entity : EntityId) (capabilities : CapabilitySet) : LocalProbes :=
  local_with_probes now seed entity capabilities [host_definition].

(** [LocalProbes::run_due]: the clock is read once before, and after each
    execution. *)
Variable execute : ProbeDefinition → ProbeContext → Execution.

Definition local_context (l : LocalProbes) (s : Scheduled) : ProbeContext :=
  let parameters := if json_is_null (scheduled_parameters s) then local_parameters l else scheduled_parameters s in
  with_context_timeout
    (with_parameters (context_local (default (local_entity l) (scheduled_target s)) (local_capabilities l)) parameters)
    (timeout (scheduled_probe s)).

Definition run_scheduled (l : LocalProbes) (now : Instant) (st : ProbeRunner * list Observation * list Scheduled) (sc : Scheduled * Instant) :
    ProbeRunner * list Observation * list Scheduled :=
  let '(r, os, ss) := st in
  let '(s, after) := sc in
  if (now <? next_due s)%N then (r, os, ss ++ [s])%list
  else
    let c := local_context l s in
    let '(r, o) := run_probe r (scheduled_probe s) c (execute (scheduled_probe s) c) in
    (r, push_some os o,
     ss ++ [mk_scheduled (scheduled_probe s) (scheduled_parameters s) (after + interval (scheduled_probe s))%N (scheduled_target s)])%list.

(** A command that is gone will not come back. *)
Definition gpu_is_gone (o : Observation) : bool :=
  String.eqb (probe_id o) PROBE_GPU && bool_decide (status o = Probe_NotApplicable)
  && bool_decide (error_code o = Some "nvidia_smi_missing").

Definition run_due (now : Instant) (clocks : list Instant) (l : LocalProbes) : LocalProbes * list Observation :=
  let '(r, os, ss) := foldl (run_scheduled l now) (local_runner l, [], []) (zip (scheduled l) clocks) in
  let ss := if existsb gpu_is_gone os then filter (λ s, definition_id (scheduled_probe s) ≠ PROBE_GPU) ss else ss in
  (mk_local r ss (local_entity l) (local_capabilities l) (local_parameters l) (jitter_seed l), os).

(** [LocalProbes::run_all]; [marks] are the clocks the entries are set to. *)
Definition run_all (marks : list Instant) (now : Instant) (clocks : list Instant) (l : LocalProbes) : LocalProbes * list Observation :=
  run_due now clocks
    (with_scheduled l (zip_with (λ s m, mk_scheduled (scheduled_probe s) (scheduled_parameters s) m (scheduled_target s)) (scheduled l) marks)).

(** [LocalProbes::next_due], [outstanding]. *)
Definition earliest_due (l : LocalProbes) : option Instant :=
  match map next_due (scheduled l) with [] => None | x :: xs => Some (foldl N.min x xs) end.

Definition local_outstanding (l : LocalProbes) : gmap string N :=
  foldl (λ m s, let probe := definition_id (scheduled_probe s) in
                <[ probe := outstanding (local_runner l) probe (local_entity l) ]> m) ∅ (scheduled l).

(** ** What an agent schedules *)

(** [add_scheduled]. *)
Definition add_scheduled (now : Instant) (schedules : ProbeSchedules) (d : ProbeDefinition) (parameters : json) (l : LocalProbes) : LocalProbes :=
  if negb (schedule_is_enabled schedules (definition_id d)) then l
  else fst (add_for now None (apply_schedule schedules d) parameters l).

(** [schedule_accelerator_probes], [schedule_journal_probes],
    [schedule_storage_probes]. *)
Definition schedule_accelerator_probes (now : Instant) (schedules : ProbeSchedules) (l : LocalProbes) : LocalProbes :=
  add_scheduled now schedules gpu_definition json_null l.

Definition schedule_journal_probes (now : Instant) (schedules : ProbeSchedules) (l : LocalProbes) : LocalProbes :=
  add_scheduled now schedules journal_definition json_null l.

Definition schedule_mount (now : Instant) (schedules : ProbeSchedules) (l : LocalProbes) (m : MountInfo) : LocalProbes :=
  add_scheduled now schedules nfs_io_definition
    (json_object [("mount_point", json_of_str (mount_target m)); ("source", json_of_str (mount_source m))]) l.

Definition schedule_storage_probes (now : Instant) (schedules : ProbeSchedules) (mounts : list MountInfo) (l : LocalProbes) : LocalProbes :=
  let l := add_scheduled now schedules nfs_exports_definition json_null l in
  match filter (λ m, is_nfs m = true) mounts with
  | [] => l
  | nfs => foldl (schedule_mount now schedules) (add_scheduled now schedules nfs_mount_definition json_null l) nfs
  end.

(** [SERVICE_UNITS], [schedule_service_probes]. *)
Definition SERVICE_UNITS : list (Capability * string) := [(SLURM_COMPUTE, "slurmd"); (SLURM_CONTROLLER, "slurmctld")].

Definition schedule_service_probes `{U : UuidApi} (now : Instant) (schedules : ProbeSchedules) (environment hostname : string)
    (capabilities : CapabilitySet) (l : LocalProbes) : LocalProbes :=
  foldl (λ l '(capability, unit_),
           if negb (capability_set_contains capabilities capability) then l
           else if negb (schedule_is_enabled schedules PROBE_SYSTEMD) then l
           else fst (add_for now (Some (entity_id_of environment Entity_Service (unit_ +:+ "@" +:+ hostname)))
                       (apply_schedule schedules systemd_definition) (json_object [("unit", json_of_str unit_)]) l))
    l SERVICE_UNITS.

(** The local probes of [Agent::new]. *)
Definition agent_local_probes `{U : UuidApi} (now : Instant) (seed : N) (schedules : ProbeSchedules) (environment hostname : string)
    (capabilities : CapabilitySet) (mounts : list MountInfo) : LocalProbes :=
  let l := local_new now seed (entity_id_of environment Entity_Host hostname) capabilities in
  let l := schedule_storage_probes now schedules mounts l in
  let l := schedule_accelerator_probes now schedules l in
  let l := schedule_journal_probes now schedules l in
  schedule_service_probes now schedules environment hostname capabilities l.
End local_probes.

(** ** Blocked threads *)

(** [NfsClientIoProbe] asks on a blocking thread, waits for it as long as the
    runner waits for the probe, and then answers: the execution ends and gives
    its slot back, and the thread stays in the kernel until the server is back. *)
Abbreviation thread := (ProbeId * EntityId * nat)%type (only parsing).

Record IoState := mk_io { io_runner : ProbeRunner; io_waiting : gset thread; io_threads : gset thread }.

Definition io_initial : IoState := mk_io runner_new ∅ ∅.

Inductive io_step (limit : N) : relation IoState :=
  | io_start key n r r' waiting threads :
      acquire key limit r = (r', true) → (key, n) ∉ threads →
      io_step limit (mk_io r waiting threads) (mk_io r' ({[ (key, n) ]} ∪ waiting) ({[ (key, n) ]} ∪ threads))
  | io_give_up key n r waiting threads :
      (key, n) ∈ waiting →
      io_step limit (mk_io r waiting threads) (mk_io (release key r) (waiting ∖ {[ (key, n) ]}) threads)
  | io_answered key n r waiting threads :
      (key, n) ∈ waiting → (key, n) ∈ threads →
      io_step limit (mk_io r waiting threads) (mk_io (release key r) (waiting ∖ {[ (key, n) ]}) (threads ∖ {[ (key, n) ]}))
  | io_released key n r waiting threads :
      (key, n) ∈ threads → (key, n) ∉ waiting →
      io_step limit (mk_io r waiting threads) (mk_io r waiting (threads ∖ {[ (key, n) ]})).
