(* ===== verification/ObserversSpec.v ===== *)
(** * Running the probes: what it guarantees

    Who looks at whom, what an entry of the schedule waits for, and how many
    threads a hung file system costs. *)

From S2P Require Import Concrete.
From S2P Require Export ProbesSpec Observers.

Local Open Scope string_scope.

(** ** One target *)

Section running.
Context `{J : JsonApi}.
Variable execute : ProbeDefinition → ProbeContext → Execution.
Variable context : ProbeDefinition → ProbeContext.

(** The observation of one probe that was run. *)
Definition ran (d : ProbeDefinition) : Observation :=
  let c := context d in let e := execute d c in
  run_observation d (context_target c) (context_observer c) (exec_id e) (exec_clock e) (exec_started e) (exec_finished e)
    (exec_elapsed_ms e) (exec_outcome e).

Lemma run_probe_result r d c e r' o :
  run_probe r d c e = (r', o) →
  (o = None ∧ (acquire (execution_key d c) (max_outstanding d) r).2 = false)
  ∨ (o = Some (run_observation d (context_target c) (context_observer c) (exec_id e) (exec_clock e) (exec_started e)
                 (exec_finished e) (exec_elapsed_ms e) (exec_outcome e))
     ∧ (acquire (execution_key d c) (max_outstanding d) r).2 = true).
Proof. unfold run_probe. destruct (acquire _ _ r) as [r1 []]; intros [= <- <-]; [right|left]; done. Qed.

(** A run leaves the slots of other keys alone. *)
Lemma run_probe_other r d c e key :
  execution_key d c ≠ key →
  default 0%N (outstanding_slots (run_probe r d c e).1 !! key) = default 0%N (outstanding_slots r !! key).
Proof.
  intros Hne. unfold run_probe, acquire.
  destruct (_ <=? _)%N; cbn [fst outstanding_slots]; [by rewrite outstanding_insert, decide_False|].
  assert (∀ n m, default 0%N (outstanding_slots (release (execution_key d c) {| outstanding_slots := <[execution_key d c:=n]> m |}) !! key)
    = default 0%N (m !! key)) as Hrel.
  { intros n m. unfold release. cbn [outstanding_slots]. rewrite lookup_insert_eq. cbn [outstanding_slots].
    case_match; [by rewrite lookup_delete_ne, lookup_insert_ne by done|].
    rewrite outstanding_insert, decide_False by done. by rewrite lookup_insert_ne. }
  destruct (exec_outcome e); rewrite ?Hrel; try done. cbn [outstanding_slots]. by rewrite outstanding_insert, decide_False.
Qed.

(** The slot of a probe is free again unless its wait ran out. *)
Lemma acquire_free key limit r : (default 0 (outstanding_slots r !! key) < limit)%N → (acquire key limit r).2 = true.
Proof. intros Hlt. unfold acquire. destruct (N.leb_spec limit (default 0%N (outstanding_slots r !! key))); [lia|done]. Qed.

(** Each probe is run once at most, in order, and is passed over only when its
    slots are taken. *)
Lemma run_probes_sublist r ds :
  ∃ picks, picks `sublist_of` ds ∧ (run_probes execute context r ds).2 = map ran picks.
Proof.
  unfold run_probes. induction ds as [|d ds (picks & Hsub & Hos)] using rev_ind; [by exists []|].
  rewrite foldl_snoc. destruct (foldl _ _ ds) as [r1 os]. cbn [snd] in Hos. unfold run_step. cbn [fst snd].
  destruct (run_probe r1 d (context d) (execute d (context d))) as [r2 o] eqn:Hrun. cbn [snd].
  apply run_probe_result in Hrun as [[-> _]|[-> _]]; cbn [push_some].
  - exists picks. split; [by apply sublist_inserts_r|done].
  - exists (picks ++ [d])%list. split; [by apply sublist_app|]. rewrite map_app, Hos. done.
Qed.

Lemma run_probes_all r ds :
  NoDup (map (λ d, execution_key d (context d)) ds) →
  (∀ d, d ∈ ds → default 0 (outstanding_slots r !! execution_key d (context d)) < max_outstanding d)%N →
  (run_probes execute context r ds).2 = map ran ds.
Proof.
  intros Hnd Hfree.
  assert (∀ ds0, ds0 `prefix_of` ds →
    (run_probes execute context r ds0).2 = map ran ds0
    ∧ ∀ key, key ∉ map (λ d, execution_key d (context d)) ds0 →
        default 0%N (outstanding_slots (run_probes execute context r ds0).1 !! key) = default 0%N (outstanding_slots r !! key)) as Hall;
    [|by apply Hall].
  intros ds0. unfold run_probes. induction ds0 as [|d ds0 IH] using rev_ind; intros Hpre; [done|].
  destruct IH as [IH1 IH2]; [by apply prefix_app_l in Hpre|].
  rewrite foldl_snoc, !map_app. cbn [map]. destruct (foldl _ _ ds0) as [r1 os]. cbn [fst snd] in IH1, IH2. subst os.
  unfold run_step. cbn [fst snd].
  pose proof (run_probe_other r1 d (context d) (execute d (context d))) as Hother.
  destruct (run_probe r1 d (context d) (execute d (context d))) as [r2 o] eqn:Hrun. cbn [fst snd] in *. split.
  - apply run_probe_result in Hrun as [[_ Hacq]|[-> _]]; [|done]. exfalso.
    destruct Hpre as [rest ->]. rewrite acquire_free in Hacq; [done|]. rewrite IH2; [apply Hfree; set_solver|].
    rewrite !map_app, <- app_assoc in Hnd. apply NoDup_app in Hnd as (_ & Hdis & _). intros Hin. apply (Hdis _ Hin). set_solver.
  - intros key Hkey. rewrite Hother by set_solver. apply IH2. set_solver.
Qed.

Lemma ran_observer d observer : context_observer (context d) = Some observer → observer_entity (ran d) = Some observer.
Proof. intros Ho. unfold ran, run_observation. rewrite Ho. done. Qed.
End running.

(** ** Who looks at whom *)

Section observing.
Context `{J : JsonApi} `{JL : !JsonLaws}.
Variable execute : ProbeDefinition → ProbeContext → Execution.

Lemma remote_probes_spec schedules d :
  d ∈ remote_probes schedules ↔
  ∃ d0, d0 ∈ [reachability_definition; ssh_definition; agent_definition; nfs_port_definition]
        ∧ schedule_is_enabled schedules (definition_id d0) = true ∧ d = apply_schedule schedules d0.
Proof.
  unfold remote_probes. generalize [reachability_definition; ssh_definition; agent_definition; nfs_port_definition]. intros ds.
  induction ds as [|d0 ds IH] using rev_ind; [set_solver|]. rewrite foldl_snoc. unfold add_probe at 1.
  destruct (schedule_is_enabled schedules (definition_id d0)) eqn:He.
  - rewrite elem_of_app, IH, list_elem_of_singleton. setoid_rewrite elem_of_app. setoid_rewrite list_elem_of_singleton. naive_solver.
  - rewrite IH. setoid_rewrite elem_of_app. setoid_rewrite list_elem_of_singleton. naive_solver congruence.
Qed.

(** What a probe reads of the endpoint it is given. *)
Lemma endpoint_parameters_read e c :
  (∀ p, endpoint_ssh_port e = Some p → p ≤ u64_max)%N → (∀ p, endpoint_agent_port e = Some p → p ≤ u64_max)%N →
  parameters c = endpoint_parameters e →
  parameter_str c "address" = Some (endpoint_address e)
  ∧ parameter_u64 c "ssh_port" = endpoint_ssh_port e ∧ parameter_u64 c "agent_port" = endpoint_agent_port e
  ∧ parameter_u64 c "port" = None ∧ parameter_u64 c "nfs_port" = None.
Proof.
  destruct e as [address ssh agent]. unfold parameter_str, parameter_u64, endpoint_parameters. cbn. intros Hs Ha ->.
  rewrite !json_get_object. destruct ssh as [s|], agent as [a|]; cbn;
    rewrite ?lookup_insert_eq; repeat rewrite lookup_insert_ne by done; rewrite ?lookup_insert_eq, ?lookup_singleton_eq, ?lookup_empty;
    repeat rewrite lookup_insert_ne by done; rewrite ?lookup_singleton_ne by done; cbn;
    rewrite ?json_as_str_of, ?json_as_u64_of by auto; try done.
Qed.

Lemma known_port_bound e key p : known_port e key = Some p → (p < 65536)%N.
Proof. unfold known_port. destruct (_ ≫= _); [|done]. intros [= <-]. unfold as_u16. apply N.mod_lt. done. Qed.

(** C5.  Nobody vouches for itself and nobody looks where there is nothing to look
    at: the controller asks its own host nothing; what it observes of another it
    signs, with one probe of its set each, only those the entity has the
    capabilities for and none that belongs on the host itself; and every probe
    whose slot is free is run, at the address and ports the inventory has. *)
Theorem the_controller_observes_others (o : RemoteObserver) (me : EntityId) (e : ManagedEntity) :
  observing_entity o = Some me →
  let os := (observe execute o e).2 in
  (entity_eid e = me ∨ endpoint_for e = None → os = [])
  ∧ ∀ endpoint, entity_eid e ≠ me → endpoint_for e = Some endpoint →
      let run := observer_context o e endpoint in
      let asked := filter (λ d, may_observe (entity_kind e) (entity_capabilities e) d = true) (observer_probes o) in
      (∃ picks, picks `sublist_of` asked ∧ os = map (ran execute run) picks)
      ∧ (NoDup (map definition_id asked) →
         (∀ d, d ∈ asked → default 0 (outstanding_slots (observer_runner o) !! (definition_id d, entity_eid e)) < max_outstanding d)%N →
         os = map (ran execute run) asked)
      ∧ (∀ ob, ob ∈ os → observer_entity ob = Some me)
      ∧ ∀ d, parameter_str (run d) "address" = Some (endpoint_address endpoint)
             ∧ endpoint_address endpoint ≠ ""
             ∧ tcp_port reachability (run d) = default 22%N (known_port e "ssh").
Proof.
  intros Hme. cbn zeta. unfold observe. rewrite Hme. split.
  { intros [<-|He]; [by rewrite decide_True|]. case_decide; [done|]. by rewrite He. }
  intros endpoint Hne He. rewrite decide_False by congruence. rewrite He.
  set (asked := filter _ _). set (run := observer_context o e endpoint).
  assert (∀ d, execution_key d (run d) = (definition_id d, entity_eid e)) as Hkey.
  { intros d. unfold run, observer_context. rewrite Hme. done. }
  pose proof (run_probes_sublist execute run (observer_runner o) asked) as Hsub.
  pose proof (run_probes_all execute run (observer_runner o) asked) as Hall.
  destruct (run_probes execute run (observer_runner o) asked) as [r os]. cbn [snd] in *. split_and!.
  - exact Hsub.
  - intros Hnd Hfree. apply Hall.
    + rewrite (map_ext _ _ Hkey), <- (map_map definition_id (λ i, (i, entity_eid e))). apply NoDup_fmap_2; [|done]. by intros ?? [= ->].
    + intros d Hd. rewrite Hkey. by apply Hfree.
  - destruct Hsub as (picks & _ & ->). intros ob (d & -> & _)%list_elem_of_fmap. apply ran_observer. unfold run, observer_context. by rewrite Hme.
  - intros d. unfold endpoint_for in He. case_match eqn:Hempty; [done|]. injection He as <-.
    destruct (endpoint_parameters_read (mk_endpoint (default (canonical_name e) (known_addresses e ≫= λ l, head (omap json_as_str l)))
      (known_port e "ssh") (known_port e "agent")) (run d)) as (Haddr & Hssh & _ & Hport & _).
    + intros p Hp%known_port_bound. transitivity 65535%N; [lia|done].
    + intros p Hp%known_port_bound. transitivity 65535%N; [lia|done].
    + unfold run, observer_context. by rewrite Hme.
    + split_and!; [done| |].
      * intros Hnil. cbn in Hnil. rewrite Hnil in Hempty. done.
      * unfold tcp_port. cbn [reachability port_parameters default_port omap list_omap]. rewrite Hssh, Hport.
        cbn [endpoint_ssh_port]. destruct (known_port e "ssh") as [p|] eqn:Hp; cbn [head default]; [|done].
        unfold as_u16. apply N.mod_small. by apply known_port_bound in Hp.
Qed.
End observing.

(** ** The schedule of the host *)

Section schedule.
Context `{J : JsonApi}.
Variable execute : ProbeDefinition → ProbeContext → Execution.
Implicit Types (l : LocalProbes) (s : Scheduled).

(** An entry after its turn. *)
Definition rescheduled (now : Instant) (s : Scheduled) (after : Instant) : Scheduled :=
  if (now <? next_due s)%N then s
  else mk_scheduled (scheduled_probe s) (scheduled_parameters s) (after + interval (scheduled_probe s))%N (scheduled_target s).

(** The observation of an entry that was run. *)
Definition entry_ran l s : Observation := ran execute (λ _, local_context l s) (scheduled_probe s).

Lemma run_scheduled_spec l now r os ss s after :
  let '(r', os', ss') := run_scheduled execute l now (r, os, ss) (s, after) in
  ss' = (ss ++ [rescheduled now s after])%list
  ∧ (os' = os ∨ ((next_due s ≤ now)%N ∧ os' = (os ++ [entry_ran l s])%list))
  ∧ ((next_due s ≤ now)%N → (default 0 (outstanding_slots r !! execution_key (scheduled_probe s) (local_context l s))
                              < max_outstanding (scheduled_probe s))%N → os' = (os ++ [entry_ran l s])%list).
Proof.
  unfold run_scheduled, rescheduled. destruct (N.ltb_spec now (next_due s)) as [Hlt|Hle].
  - split_and!; [done|by left|lia].
  - destruct (run_probe r (scheduled_probe s) (local_context l s) (execute (scheduled_probe s) (local_context l s))) as [r1 o] eqn:Hrun.
    apply run_probe_result in Hrun as [[-> Hacq]|[-> Hacq]]; cbn [push_some].
    + split_and!; [done|by left|]. intros _ Hfree. by rewrite acquire_free in Hacq.
    + split_and!; [done|by right|done].
Qed.

Lemma run_due_fold l now r es :
  let '(r', os, ss) := foldl (run_scheduled execute l now) (r, [], []) es in
  ss = map (λ '(s, after), rescheduled now s after) es
  ∧ ∃ picks, picks `sublist_of` filter (λ s, (next_due s ≤ now)%N) (map fst es) ∧ os = map (entry_ran l) picks.
Proof.
  induction es as [|[s after] es IH] using rev_ind; [split; [done|by exists []]|].
  rewrite foldl_snoc. destruct (foldl _ _ es) as [[r1 os1] ss1]. destruct IH as (-> & picks & Hsub & ->).
  pose proof (run_scheduled_spec l now r1 (map (entry_ran l) picks) (map (λ '(s, after), rescheduled now s after) es) s after) as Hstep.
  destruct (run_scheduled execute l now _ (s, after)) as [[r2 os2] ss2]. destruct Hstep as (-> & Hos & _).
  rewrite !map_app, filter_app. cbn [map fst]. split; [done|].
  destruct Hos as [->|[Hdue ->]].
  - exists picks. split; [by apply sublist_inserts_r|done].
  - exists (picks ++ [s])%list. split; [|by rewrite map_app].
    apply sublist_app; [done|]. by rewrite filter_cons_True.
Qed.

(** A turn of the schedule runs what is due and nothing else, each entry once,
    and puts every entry it tried off by its interval, so that none is tried twice
    in a turn and none is forgotten: an entry leaves the schedule only if it is the
    GPU probe and its command was found to be gone. *)
Theorem a_turn_of_the_schedule l (now : Instant) (clocks : list Instant) :
  length clocks = length (scheduled l) →
  let '(l', os) := run_due execute now clocks l in
  (∃ picks, picks `sublist_of` filter (λ s, (next_due s ≤ now)%N) (scheduled l) ∧ os = map (entry_ran l) picks)
  ∧ (existsb gpu_is_gone os = false → scheduled l' = zip_with (rescheduled now) (scheduled l) clocks)
  ∧ (∀ i s after, scheduled l !! i = Some s → clocks !! i = Some after →
       definition_id (scheduled_probe s) ≠ PROBE_GPU → rescheduled now s after ∈ scheduled l')
  ∧ (∀ s', s' ∈ scheduled l' → ∃ s after, s ∈ scheduled l ∧ after ∈ clocks ∧ s' = rescheduled now s after)
  ∧ (∀ s', s' ∈ scheduled l' → Forall (λ after, now ≤ after)%N clocks →
       (interval (scheduled_probe s') ≠ 0)%N → (now < next_due s')%N).
Proof.
  intros Hlen. unfold run_due. pose proof (run_due_fold l now (local_runner l) (zip (scheduled l) clocks)) as Hfold.
  destruct (foldl _ _ (zip (scheduled l) clocks)) as [[r os] ss]. destruct Hfold as (-> & picks & Hsub & ->).
  change (map fst (zip (scheduled l) clocks)) with ((zip (scheduled l) clocks).*1) in Hsub. rewrite (fst_zip (scheduled l) clocks) in Hsub by lia.
  assert (map (λ '(s, after), rescheduled now s after) (zip (scheduled l) clocks) = zip_with (rescheduled now) (scheduled l) clocks) as ->.
  { clear. generalize (scheduled l). intros ss. revert clocks. induction ss as [|s ss IH]; intros [|c cs]; cbn; [done..|]. by rewrite IH. }
  cbn [scheduled].
  set (kept := if existsb gpu_is_gone _ then filter _ _ else _).
  assert (∀ s', s' ∈ kept → s' ∈ zip_with (rescheduled now) (scheduled l) clocks) as Hkept.
  { intros s'. unfold kept. case_match; [|done]. by intros [_ ?]%list_elem_of_filter. }
  assert (∀ s', s' ∈ zip_with (rescheduled now) (scheduled l) clocks → ∃ s after, s ∈ scheduled l ∧ after ∈ clocks ∧ s' = rescheduled now s after) as Horigin.
  { intros s' (i & Hi)%list_elem_of_lookup. apply lookup_zip_with_Some in Hi as (s & after & -> & Hs & Hc).
    exists s, after. split_and!; try by eapply list_elem_of_lookup_2. done. }
  split_and!.
  - by exists picks.
  - intros Hno. unfold kept. by rewrite Hno.
  - intros i s after Hs Hc Hgpu. assert (rescheduled now s after ∈ zip_with (rescheduled now) (scheduled l) clocks) as Hin.
    { apply (list_elem_of_lookup_2 _ i). apply lookup_zip_with_Some. eauto. }
    unfold kept. case_match; [|done]. apply list_elem_of_filter. split; [|done]. unfold rescheduled. by case_match.
  - intros s' Hs'. by apply Horigin, Hkept.
  - intros s' Hs' Hclocks Hint. apply Hkept, Horigin in Hs' as (s & after & _ & Hafter & ->). rewrite Forall_forall in Hclocks.
    specialize (Hclocks after Hafter). unfold rescheduled in *. destruct (N.ltb_spec now (next_due s)); [done|].
    cbn [scheduled_probe next_due] in *. lia.
Qed.

(** The jitter is less than a tenth of the interval. *)
Lemma jitter_bound seed probe i : (10 * jitter_for seed probe i ≤ i)%N.
Proof.
  unfold jitter_for. set (span := (as_u64 (as_millis i) / 10)%N). destruct (N.eqb_spec span 0) as [->|Hspan]; [lia|].
  unfold std_millis. pose proof (N.mod_lt (jitter_hash seed probe) span Hspan) as Hmod.
  assert (10 * span ≤ as_millis i)%N as Hs.
  { unfold span. transitivity (as_u64 (as_millis i)); [apply N.Div0.mul_div_le|unfold as_u64; apply N.Div0.mod_le]. }
  assert (as_millis i * 1000000 ≤ i)%N by (unfold as_millis; rewrite N.mul_comm; apply N.Div0.mul_div_le). lia.
Qed.
End schedule.

(** ** What an agent schedules *)

Section agent_schedule.
Context `{J : JsonApi} `{U : UuidApi}.
Variables (now : Instant) (schedules : ProbeSchedules).
Implicit Types (l : LocalProbes) (s : Scheduled).

Lemma apply_schedule_mode d : execution_mode (apply_schedule schedules d) = execution_mode d.
Proof. unfold apply_schedule. destruct (schedules !! _) as [[[] [] [] ?]|]; done. Qed.

Lemma apply_schedule_applies d t c : applies_to (apply_schedule schedules d) t c = applies_to d t c.
Proof. unfold apply_schedule. destruct (schedules !! _) as [[[] [] [] ?]|]; done. Qed.

(** What every entry has in common. *)
Definition entry_ok (capabilities : CapabilitySet) (s : Scheduled) : Prop :=
  let d := scheduled_probe s in
  execution_mode d ≠ Mode_Remote ∧ applies_to d Entity_Host capabilities = true
  ∧ (now ≤ next_due s)%N ∧ (10 * (next_due s - now) ≤ interval d)%N
  ∧ (d = host_definition
     ∨ ∃ d0, d0 ∈ [nfs_exports_definition; nfs_mount_definition; nfs_io_definition; gpu_definition; journal_definition; systemd_definition]
             ∧ schedule_is_enabled schedules (definition_id d0) = true ∧ d = apply_schedule schedules d0).

(** A builder that only appends entries that are in order. *)
Definition extends_well (f : LocalProbes → LocalProbes) : Prop :=
  ∀ l, (local_capabilities (f l) = local_capabilities l ∧ local_entity (f l) = local_entity l)
       ∧ ∃ more, scheduled (f l) = (scheduled l ++ more)%list ∧ Forall (entry_ok (local_capabilities l)) more.

Lemma extends_id : extends_well id.
Proof. intros l. split; [done|]. exists []. by rewrite app_nil_r. Qed.

Lemma extends_comp f g : extends_well f → extends_well g → extends_well (λ l, g (f l)).
Proof.
  intros Hf Hg l. destruct (Hf l) as ([Hc He] & more & Hs & Hok), (Hg (f l)) as ([Hc' He'] & more' & Hs' & Hok').
  split; [split; congruence|]. exists (more ++ more')%list. rewrite Hs', Hs, <- app_assoc. split; [done|].
  apply Forall_app. rewrite <- Hc. split; [by rewrite Hc|done].
Qed.

Lemma extends_fold {A} (f : LocalProbes → A → LocalProbes) (xs : list A) :
  (∀ x, extends_well (λ l, f l x)) → extends_well (λ l, foldl f l xs).
Proof.
  intros Hf. induction xs as [|x xs IH] using rev_ind; [apply extends_id|].
  intros l. rewrite foldl_snoc. by apply (extends_comp (λ l, foldl f l xs) (λ l, f l x)).
Qed.

Lemma extends_add_for target d parameters :
  (d = host_definition
   ∨ ∃ d0, d0 ∈ [nfs_exports_definition; nfs_mount_definition; nfs_io_definition; gpu_definition; journal_definition; systemd_definition]
           ∧ schedule_is_enabled schedules (definition_id d0) = true ∧ d = apply_schedule schedules d0) →
  extends_well (λ l, fst (add_for now target d parameters l)).
Proof.
  intros Hd l. unfold add_for. destruct (local_applies l d) eqn:Happ; cbn [negb fst]; [|by apply extends_id].
  split; [done|]. eexists. split; [done|]. apply Forall_singleton. unfold entry_ok. cbn [scheduled_probe next_due].
  apply andb_true_iff in Happ as [Hm Ha]. apply negb_true_iff, bool_decide_eq_false in Hm.
  pose proof (jitter_bound (jitter_seed l) (definition_id d) (interval d)). split_and!; try done; lia.
Qed.

Lemma extends_add_scheduled d parameters :
  d ∈ [nfs_exports_definition; nfs_mount_definition; nfs_io_definition; gpu_definition; journal_definition; systemd_definition] →
  extends_well (add_scheduled now schedules d parameters).
Proof.
  intros Hd l. unfold add_scheduled. destruct (schedule_is_enabled schedules (definition_id d)) eqn:He; cbn [negb]; [|apply extends_id].
  apply (extends_add_for None (apply_schedule schedules d) parameters). right. eauto.
Qed.

Lemma extends_storage mounts : extends_well (schedule_storage_probes now schedules mounts).
Proof.
  intros l. unfold schedule_storage_probes. generalize (filter (λ m, is_nfs m = true) mounts). intros nfs.
  assert (extends_well (add_scheduled now schedules nfs_exports_definition json_null)) as He by (apply extends_add_scheduled; set_solver).
  destruct nfs as [|m ms]; [apply He|].
  apply (extends_comp (add_scheduled now schedules nfs_exports_definition json_null)
    (λ l, foldl (schedule_mount now schedules) (add_scheduled now schedules nfs_mount_definition json_null l) (m :: ms))); [done|].
  apply (extends_comp (add_scheduled now schedules nfs_mount_definition json_null) (λ l, foldl (schedule_mount now schedules) l (m :: ms))).
  - apply extends_add_scheduled. set_solver.
  - apply extends_fold. intros x. apply extends_add_scheduled. set_solver.
Qed.

Lemma extends_services environment hostname capabilities :
  extends_well (schedule_service_probes now schedules environment hostname capabilities).
Proof.
  unfold schedule_service_probes. apply extends_fold. intros [capability unit_] l.
  destruct (negb (capability_set_contains capabilities capability)); [apply extends_id|].
  destruct (schedule_is_enabled schedules PROBE_SYSTEMD) eqn:He; cbn [negb]; [|apply extends_id].
  apply (extends_add_for (Some _)). right. exists systemd_definition. split_and!; [set_solver|done|done].
Qed.

(** A mount that is scheduled for is in the schedule. *)
Lemma schedule_mount_adds l m :
  schedule_is_enabled schedules PROBE_CLIENT_IO = true → local_applies l (apply_schedule schedules nfs_io_definition) = true →
  ∃ s, s ∈ scheduled (schedule_mount now schedules l m) ∧ scheduled_probe s = apply_schedule schedules nfs_io_definition
       ∧ scheduled_target s = None ∧ json_get (scheduled_parameters s) "mount_point" = json_get (json_object
           [("mount_point", json_of_str (mount_target m)); ("source", json_of_str (mount_source m))]) "mount_point".
Proof.
  intros He Ha. unfold schedule_mount, add_scheduled, add_for. change (definition_id nfs_io_definition) with PROBE_CLIENT_IO.
  rewrite He, Ha. cbn [negb fst with_scheduled scheduled]. eexists. split; [apply elem_of_app; right; by left|done].
Qed.

Lemma in_extension f l s : extends_well f → s ∈ scheduled l → s ∈ scheduled (f l).
Proof. intros Hf Hs. destruct (Hf l) as (_ & more & -> & _). apply elem_of_app. by left. Qed.

Lemma mounts_scheduled l ms m :
  schedule_is_enabled schedules PROBE_CLIENT_IO = true → local_applies l (apply_schedule schedules nfs_io_definition) = true → m ∈ ms →
  ∃ s, s ∈ scheduled (foldl (schedule_mount now schedules) l ms) ∧ scheduled_probe s = apply_schedule schedules nfs_io_definition
       ∧ scheduled_target s = None ∧ json_get (scheduled_parameters s) "mount_point" = json_get (json_object
           [("mount_point", json_of_str (mount_target m)); ("source", json_of_str (mount_source m))]) "mount_point".
Proof.
  intros He. revert l. assert (∀ x, extends_well (λ l, schedule_mount now schedules l x)) as Hx.
  { intros x. apply extends_add_scheduled. set_solver. }
  induction ms as [|m' ms IH]; intros l Ha Hm; [by apply elem_of_nil in Hm|]. cbn [foldl]. apply elem_of_cons in Hm as [->|Hm].
  - destruct (schedule_mount_adds l m' He Ha) as (s & Hs & Hrest). exists s. split; [|done].
    apply (in_extension (λ l, foldl (schedule_mount now schedules) l ms)); [by apply extends_fold|done].
  - apply IH; [|done]. unfold local_applies in *. by rewrite (proj1 (proj1 (Hx m' l))).
Qed.
End agent_schedule.

Section agent_probes.
Context `{J : JsonApi} `{JL : !JsonLaws} `{U : UuidApi}.

(** The schedule of a host is the operator's: every entry is a probe the host
    has the capabilities for and that makes sense on it, as the operator left it
    and not switched off, first due within a tenth of its interval, with the one
    exception of the metrics of the host; and where looking into a mount is not
    switched off every NFS mount has an entry of its own, all of which, however,
    share the host's one slot. *)
Theorem the_schedule_is_the_operators (now : Instant) (seed : N) (schedules : ProbeSchedules) (environment hostname : string)
    (capabilities : CapabilitySet) (mounts : list MountInfo) :
  let l := agent_local_probes now seed schedules environment hostname capabilities mounts in
  Forall (entry_ok now schedules capabilities) (scheduled l)
  ∧ (CAP_HOST_METRICS ∈ capabilities → ∃ s, s ∈ scheduled l ∧ scheduled_probe s = host_definition)
  ∧ (STORAGE_NFS_CLIENT ∈ capabilities → schedule_is_enabled schedules PROBE_CLIENT_IO = true →
     ∀ m, m ∈ mounts → is_nfs m = true →
     ∃ s, s ∈ scheduled l ∧ parameter_str (local_context l s) "mount_point" = Some (mount_target m)
          ∧ execution_key (scheduled_probe s) (local_context l s) = (PROBE_CLIENT_IO, entity_id_of environment Entity_Host hostname)).
Proof.
  cbn zeta. unfold agent_local_probes, local_new, local_with_probes. cbn [foldl].
  set (start := mk_local runner_new [] (entity_id_of environment Entity_Host hostname) capabilities json_null seed).
  set (hosted := λ l, fst (add_for now None host_definition json_null l)).
  change (fst (add_for now None host_definition json_null start)) with (hosted start).
  set (later := λ l, schedule_service_probes now schedules environment hostname capabilities
    (schedule_journal_probes now schedules (schedule_accelerator_probes now schedules l))).
  change (schedule_service_probes _ _ _ _ _ _) with (later (schedule_storage_probes now schedules mounts (hosted start))).
  assert (extends_well now schedules hosted) as Hhosted by (apply extends_add_for; by left).
  pose proof (extends_storage now schedules mounts) as Hstorage.
  assert (extends_well now schedules later) as Hlater.
  { apply (extends_comp now schedules (λ l, schedule_journal_probes now schedules (schedule_accelerator_probes now schedules l))
      (schedule_service_probes now schedules environment hostname capabilities)); [|apply extends_services].
    apply extends_comp; apply extends_add_scheduled; set_solver. }
  split_and!.
  - destruct (extends_comp _ _ _ _ (extends_comp _ _ _ _ Hhosted Hstorage) Hlater start) as (_ & more & -> & Hok). exact Hok.
  - intros Hcap. assert (local_applies start host_definition = true) as Ha.
    { unfold local_applies, applies_to, capability_set_has_all. cbn -[CAP_HOST_METRICS]. apply (bool_decide_eq_true_2 _) in Hcap.
      change (capability_set_contains capabilities CAP_HOST_METRICS = true) in Hcap. by rewrite Hcap. }
    exists (mk_scheduled host_definition json_null (now + jitter_for seed PROBE_HOST (interval host_definition)) None). split; [|done].
    apply (in_extension now schedules), (in_extension now schedules); [done..|].
    unfold hosted, add_for. rewrite Ha. cbn [negb fst with_scheduled scheduled start]. by left.
  - intros Hcap He m Hm Hnfs.
    assert (∀ l, local_capabilities l = capabilities → local_applies l (apply_schedule schedules nfs_io_definition) = true) as Happ.
    { intros l Hl. unfold local_applies. rewrite apply_schedule_mode, apply_schedule_applies, Hl.
      unfold applies_to, capability_set_has_all. cbn -[STORAGE_NFS_CLIENT]. apply (bool_decide_eq_true_2 _) in Hcap.
      change (capability_set_contains capabilities STORAGE_NFS_CLIENT = true) in Hcap. by rewrite Hcap. }
    assert (∃ s, s ∈ scheduled (schedule_storage_probes now schedules mounts (hosted start))
      ∧ scheduled_probe s = apply_schedule schedules nfs_io_definition ∧ scheduled_target s = None
      ∧ json_get (scheduled_parameters s) "mount_point" = Some (json_of_str (mount_target m))) as (s & Hs & Hp & Ht & Hg).
    { unfold schedule_storage_probes. assert (m ∈ filter (λ m, is_nfs m = true) mounts) as Hin by (by apply list_elem_of_filter).
      destruct (filter _ mounts) as [|m0 ms] eqn:Hf; [by apply elem_of_nil in Hin|]. rewrite <- Hf in Hin |- *.
      destruct (mounts_scheduled now schedules (add_scheduled now schedules nfs_mount_definition json_null
        (add_scheduled now schedules nfs_exports_definition json_null (hosted start))) (filter (λ m, is_nfs m = true) mounts) m) as (s & Hs & Hp & Ht & Hg).
      - done.
      - apply Happ. assert (extends_well now schedules (add_scheduled now schedules nfs_mount_definition json_null)) as H1 by (apply extends_add_scheduled; set_solver).
        assert (extends_well now schedules (add_scheduled now schedules nfs_exports_definition json_null)) as H2 by (apply extends_add_scheduled; set_solver).
        by rewrite (proj1 (proj1 (H1 _))), (proj1 (proj1 (H2 _))), (proj1 (proj1 (Hhosted _))).
      - done.
      - exists s. split_and!; try done. rewrite Hg. by read_field. }
    exists s. split; [by apply (in_extension now schedules)|].
    assert (json_is_null (scheduled_parameters s) = false) as Hnull.
    { apply not_true_is_false. intros Hn%json_is_null_spec. rewrite Hn, json_get_null in Hg. done. }
    split.
    + unfold parameter_str, local_context. rewrite Hnull. cbn [with_context_timeout with_parameters parameters]. rewrite Hg. apply json_as_str_of.
    + unfold execution_key, local_context. rewrite Hp, Ht, apply_schedule_id. cbn [default context_target with_context_timeout with_parameters context_local].
      by rewrite (proj2 (proj1 (Hlater _))), (proj2 (proj1 (Hstorage _))), (proj2 (proj1 (Hhosted _))).
Qed.
End agent_probes.

(** ** Blocked threads *)

(** The threads of a server that hangs pile up, one for every interval, though no
    two executions ever overlap. *)
Lemma blocked_threads_pile_up (key : ProbeId * EntityId) (n : nat) :
  ∃ st, rtc (io_step 1) io_initial st ∧ size (io_threads st) = n ∧ io_waiting st = ∅
        ∧ ∀ k, default 0%N (outstanding_slots (io_runner st) !! k) = 0%N.
Proof.
  assert (∃ st, rtc (io_step 1) io_initial st ∧ io_threads st = list_to_set (map (λ i, (key, i)) (seq 0 n)) ∧ io_waiting st = ∅
        ∧ ∀ k, default 0%N (outstanding_slots (io_runner st) !! k) = 0%N) as (st & Hrun & Ht & Hw & Hk).
  { induction n as [|n (st & Hrun & Ht & Hw & Hk)]; [exists io_initial; split_and!; try done; intros k; cbn; by rewrite lookup_empty|].
    destruct st as [r waiting threads]. cbn in Ht, Hw, Hk. subst waiting.
    assert (acquire key 1 r = ({| outstanding_slots := <[ key := 1%N ]> (outstanding_slots r) |}, true)) as Hacq.
    { unfold acquire. by rewrite Hk. }
    eexists (mk_io (release key {| outstanding_slots := <[ key := 1%N ]> (outstanding_slots r) |})
      (({[ (key, n) ]} ∪ ∅) ∖ {[ (key, n) ]}) ({[ (key, n) ]} ∪ threads)). split_and!.
    - etrans; [exact Hrun|]. eapply rtc_l; [apply (io_start 1 key n _ _ _ _ Hacq)|].
      + rewrite Ht, elem_of_list_to_set. intros (i & [= <-] & Hi)%list_elem_of_fmap. apply elem_of_seq in Hi. lia.
      + apply rtc_once, io_give_up. set_solver.
    - cbn [io_threads]. rewrite Ht, seq_S, map_app, list_to_set_app_L. cbn. set_solver.
    - cbn. set_solver.
    - intros k. cbn [io_runner]. unfold release. cbn [outstanding_slots]. rewrite lookup_insert_eq. cbn.
      rewrite delete_insert_eq. change (1 - 1 =? 0)%N with true. cbv iota. destruct (decide (k = key)) as [->|Hne]; [by rewrite lookup_delete_eq|rewrite lookup_delete_ne by done; apply Hk]. }
  exists st. split_and!; try done. rewrite Ht, size_list_to_set, length_map, length_seq; [done|].
  apply NoDup_fmap_2; [by intros ?? [= ->]|apply NoDup_seq].
Qed.

(** ** Samples *)

Section samples.
Let schedules_off : ProbeSchedules := {[ PROBE_HOST := mk_probe_schedule None None None (Some false) ]}.

(** Switched off, and scheduled. *)
Example host_metrics_stay_on :
  schedule_is_enabled schedules_off PROBE_HOST = false
  ∧ map (λ s, definition_id (scheduled_probe s)) (scheduled (agent_local_probes 0 7 schedules_off "lab" "n1" {[ CAP_HOST_METRICS ]} [])) = [PROBE_HOST].
Proof. split; vm_compute; reflexivity. Qed.

(** An agent that registered without addresses hides the addresses the operator
    configured. *)
Example empty_registration_hides_addresses :
  let e := managed_entity_new 0 "lab" Entity_Host "n1" in
  let with_metadata m := {| entity_eid := entity_eid e; entity_environment := entity_environment e; entity_cluster := entity_cluster e;
     entity_kind := entity_kind e; canonical_name := canonical_name e; display_name := display_name e; entity_labels := entity_labels e;
     entity_metadata := m; entity_capabilities := entity_capabilities e; lifecycle_state := lifecycle_state e;
     discovery_sources := discovery_sources e; entity_created_at := entity_created_at e; entity_updated_at := entity_updated_at e |} in
  let configured := ("addresses", json_strings ["192.0.2.20"]) in
  endpoint_address <$> endpoint_for (with_metadata (json_object [configured])) = Some "192.0.2.20"
  ∧ endpoint_address <$> endpoint_for (with_metadata (json_object [configured; ("host", json_object [("addresses", json_strings [])])])) = Some "n1".
Proof. split; vm_compute; reflexivity. Qed.
End samples.

Definition sample_execution (d : ProbeDefinition) (c : ProbeContext) : Execution :=
  mk_execution (Collected (tcp_observation sample_observation_id 0 reachability (context_target c) "n1" 22 Connect_Refused))
    sample_observation_id 0 0 0 1.

Lemma the_controller_observes_others_witness :
  let e := managed_entity_new 0 "lab" Entity_Host "n1" in
  let o := observing_as (observer_with_schedules ∅) sample_peer_id in
  observing_entity o = Some sample_peer_id ∧ entity_eid e ≠ sample_peer_id ∧ length (observe sample_execution o e).2 = 1%nat
  ∧ ∀ ob, ob ∈ (observe sample_execution o e).2 → observer_entity ob = Some sample_peer_id.
Proof.
  intros e o. assert (observing_entity o = Some sample_peer_id) as Ho by reflexivity.
  assert (entity_eid e ≠ sample_peer_id) as Hne.
  { assert (bool_decide (entity_eid e = sample_peer_id) = false) as Hb by (vm_compute; reflexivity). by apply bool_decide_eq_false in Hb. }
  assert (match endpoint_for e with Some p => String.eqb (endpoint_address p) "n1" | None => false end = true) as Hend by (vm_compute; reflexivity).
  destruct (endpoint_for e) as [p|] eqn:Hp; [|discriminate Hend].
  destruct (the_controller_observes_others sample_execution o sample_peer_id e Ho) as (_ & Hall).
  destruct (Hall p Hne Hp) as (_ & Hrun & Hsigned & _). split_and!; [exact Ho|exact Hne| |exact Hsigned].
  assert (map definition_id (filter (λ d, may_observe (entity_kind e) (entity_capabilities e) d = true) (observer_probes o)) = [NETWORK_PROBE])
    as Hasked by (vm_compute; reflexivity).
  rewrite Hrun.
  - rewrite length_map, <- (length_map definition_id), Hasked. reflexivity.
  - rewrite Hasked. apply NoDup_singleton.
  - intros d Hd. cbn [o observing_as observer_with_schedules observer_runner runner_new outstanding_slots]. rewrite lookup_empty. cbn.
    apply list_elem_of_filter in Hd as [_ Hd]. apply list_elem_of_lookup in Hd as [i Hi].
    assert (Forall (λ d, 0 < max_outstanding d)%N (observer_probes o)) as Hpos by (vm_compute; repeat constructor).
    rewrite Forall_lookup in Hpos. by apply (Hpos i).
Defined.

Definition sample_local : LocalProbes :=
  with_scheduled (mk_local runner_new [] sample_host_id ∅ json_null 7)
    [mk_scheduled host_definition json_null 5 None; mk_scheduled journal_definition json_null 50 None].

Lemma a_turn_of_the_schedule_witness :
  length [11%N; 12%N] = length (scheduled sample_local)
  ∧ mk_scheduled journal_definition json_null 50 None ∈ scheduled (run_due sample_execution 10 [11%N; 12%N] sample_local).1.
Proof.
  assert (length [11%N; 12%N] = length (scheduled sample_local)) as Hlen by reflexivity. split; [exact Hlen|].
  pose proof (a_turn_of_the_schedule sample_execution sample_local 10 [11%N; 12%N] Hlen) as H.
  destruct (run_due sample_execution 10 [11%N; 12%N] sample_local) as [l' os]. cbn [fst].
  destruct H as (_ & _ & Hstay & _). apply (Hstay 1%nat (mk_scheduled journal_definition json_null 50 None) 12%N); [reflexivity..|done].
Defined.

Lemma the_schedule_is_the_operators_witness :
  let m := mk_mount "fs1:/data" "/data" "nfs4" "rw" in
  let l := agent_local_probes 0 7 ∅ "lab" "n1" {[ STORAGE_NFS_CLIENT ]} [m] in
  is_nfs m = true ∧ ∃ s, s ∈ scheduled l ∧ parameter_str (local_context l s) "mount_point" = Some "/data".
Proof.
  intros m l. split; [reflexivity|].
  destruct (the_schedule_is_the_operators 0 7 ∅ "lab" "n1" {[ STORAGE_NFS_CLIENT ]} [m]) as (_ & _ & Hmounts).
  destruct (Hmounts ltac:(set_solver) ltac:(reflexivity) m ltac:(set_solver) ltac:(reflexivity)) as (s & Hs & Hp & _).
  exists s. split; [exact Hs|exact Hp].
Defined.
