(* ===== verification/Discovery.v ===== *)
(** * Discovery

    [src/integrations/slurm/mod.rs] and [collect_view], how Slurm is asked;
    [src/inventory/static_config.rs], what the configuration declares; and
    [src/controller/discovery.rs], one cycle: every provider is asked, what they
    answer is merged, the hosts are observed, the storage topology is derived,
    and all of it is kept.  What a provider, the scheduler and a probe answer
    are arguments.  [Controller] saves the engine after a cycle, has the refusals
    of the schema, and the diagnoses a cycle ends with. *)

From S2P Require Import Concrete.
From S2P Require Export Topology Observers EngineStore.

Local Open Scope string_scope.

(** ** Asking Slurm

    [src/integrations/slurm/mod.rs] and [SlurmInventoryProvider]: three queries a
    cycle, run as every command is. *)

(** [SCONTROL] and [ScontrolClient]. *)
Definition SCONTROL : string := "scontrol".

Record ScontrolClient := mk_scontrol { sc_program : string; sc_timeout : StdDuration }.

(** [ScontrolClient::default], [with_path] and [timeout]. *)
Definition scontrol_default : ScontrolClient := mk_scontrol SCONTROL (std_secs 10).
Definition scontrol_with_path (path : option string) : ScontrolClient :=
  match path with Some p => mk_scontrol p (sc_timeout scontrol_default) | None => scontrol_default end.
Definition scontrol_timeout (c : ScontrolClient) (t : StdDuration) : ScontrolClient := mk_scontrol (sc_program c) t.

(** [format!("{:?}", exit_code)]. *)
Definition debug_exit_code (c : option Z) : string :=
  match c with Some n => "Some(" +:+ pretty n +:+ ")" | None => "None" end.

(** An optional query: a failure of it is an empty answer. *)
Definition or_empty {A} (parse : string → list A) (answer : CommandOutput + CommandError) : list A :=
  match answer with
  | inl o => if is_success o then parse (stdout o) else []
  | inr _ => []
  end.

Section scontrol.
Variables (pipe_capacity : nat) (world : string → list string → Spawned).

(** [ScontrolClient::run], [show_nodes], [show_partitions] and [ping]. *)
Definition scontrol_run (c : ScontrolClient) (args : list string) (l : Allowlist) : CommandOutput + CommandError :=
  run_command pipe_capacity (with_timeout (with_args (command_new (sc_program c)) args) (sc_timeout c)) l world.

Definition show_nodes (c : ScontrolClient) := scontrol_run c ["show"; "nodes"; "-o"].
Definition show_partitions (c : ScontrolClient) := scontrol_run c ["show"; "partitions"; "-o"].
Definition scontrol_ping (c : ScontrolClient) := scontrol_run c ["ping"].

(** [SlurmInventoryProvider::collect_view]; its allowlist is the built-in one. *)
Definition collect_view (c : ScontrolClient) : SlurmView.Unavailable + SlurmView :=
  match show_nodes c Commands.builtin with
  | inr error => inl (mk_unavailable SLURM_PROVIDER (show_command_error error))
  | inl o =>
      if is_success o then
        inr (mk_view (parse_nodes (stdout o)) (or_empty parse_partitions (show_partitions c Commands.builtin))
               (or_empty parse_ping (scontrol_ping c Commands.builtin)))
      else inl (mk_unavailable SLURM_PROVIDER
                  (command_line o +:+ " exited with " +:+ debug_exit_code (exit_code o) +:+ ": " +:+ trim (stderr o)))
  end.

(** [SlurmInventoryProvider::discover]. *)
Definition slurm_discover `{J : JsonApi} `{U : UuidApi} (c : ScontrolClient) (now : Timestamp) (environment scheduler_name : string) :
    SlurmView.Unavailable + InventorySnapshot :=
  match collect_view c with
  | inl e => inl e
  | inr v => inr (snapshot_from_view now environment scheduler_name v)
  end.
End scontrol.

(** ** What the configuration declares *)

Section static_config.
Context `{J : JsonApi} `{U : UuidApi}.

(** [EntityConfig], [DependencyConfig] of [src/config/mod.rs]. *)
Record EntityConfig := mk_entity_config {
  declared_type : string;
  declared_name : string;
  declared_display_name : option string;
  declared_cluster : option string;
  declared_labels : gmap string string;
  declared_capabilities : list string;
  declared_addresses : list string;
  declared_ports : gmap string N
}.

Record DependencyConfig := mk_dependency_config {
  declared_from : string;
  declared_to : string;
  declared_dependency_type : string;
  declared_criticality : string
}.

(** The metadata of a declared entity, if there is any. *)
Definition declared_metadata (d : EntityConfig) : gmap string json :=
  let metadata := match declared_addresses d with
                  | [] => ∅
                  | addresses => {[ "addresses" := json_strings addresses ]}
                  end in
  if decide (declared_ports d = ∅) then metadata
  else <[ "ports" := json_of_object (json_of_u64 <$> declared_ports d) ]> metadata.

(** One turn of the loop over the declared entities; a type nobody knows is
    passed over. *)
Definition declared_entity (now : Timestamp) (environment : string) (d : EntityConfig) : option ManagedEntity :=
  kind ← entity_type_parse (declared_type d);
  let e := with_capabilities (managed_entity_new now environment kind (declared_name d)) (list_to_set (declared_capabilities d)) in
  let e := match declared_display_name d with Some name => with_display_name e name | None => e end in
  let e := match declared_cluster d with Some cluster => with_cluster e cluster | None => e end in
  let e := foldl (λ e '(k, v), with_label e k v) e (btree_entries (declared_labels d)) in
  Some (if decide (declared_metadata d = ∅) then e else with_metadata (json_of_object (declared_metadata d)) e).

(** [StaticConfigProvider::resolve]. *)
Definition resolve_reference (environment reference : string) : option EntityId :=
  '(kind, name) ← split_once "/" reference;
  kind ← entity_type_parse kind;
  Some (entity_id_of environment kind name).

Definition declared_edge_of (now : Timestamp) (environment : string) (d : DependencyConfig) : option DependencyEdge :=
  source ← resolve_reference environment (declared_from d);
  target ← resolve_reference environment (declared_to d);
  Some (edge_with_criticality
          (dependency_edge_new now source target (dependency_type_parse (declared_dependency_type d)))
          (default Criticality_Critical (criticality_parse (declared_criticality d)))).

(** [StaticConfigProvider::snapshot]. *)
Definition static_snapshot (now : Timestamp) (environment : string) (es : list EntityConfig) (ds : list DependencyConfig) :
    InventorySnapshot :=
  let s := foldl add_entity (snapshot_new StaticConfig) (omap (declared_entity now environment) es) in
  foldl add_dependency s (omap (declared_edge_of now environment) ds).
End static_config.

(** ** A cycle *)

(** [ProviderReport]. *)
Record ProviderReport := mk_provider_report {
  provider : string;
  provider_entities : nat;
  provider_dependencies : nat;
  provider_error : option string
}.

Definition provider_ok (r : ProviderReport) : bool := bool_decide (provider_error r = None).

Section cycle.
Context `{J : JsonApi} `{U : UuidApi} `{T : TimeApi} `{CH : ChronoApi} `{HI : HashIter} `{SC : StreamCodec}.
Context (julianday_within : Timestamp → Timestamp → Z → bool).

(** A provider's answer, and the clock when it is merged. *)
Record Answer := mk_answer { answer_provider : string; answer_now : Timestamp; answer_result : InventorySnapshot + string }.

(** [inventory.merge(..)], which always ends. *)
Definition merged_with (now : Timestamp) (inv : Inventory) (s : InventorySnapshot) : Inventory :=
  match merge now inv s with Finished (inv', _) => inv' | _ => inv end.

(** [merge] and then [mark_absent_as_stale] for the snapshot's own source. *)
Definition take_snapshot (now : Timestamp) (inv : Inventory) (s : InventorySnapshot) : Inventory :=
  let inv := merged_with now inv s in
  match snapshot_source s with
  | Some source => (mark_absent_as_stale now inv source s).1
  | None => inv
  end.

(** The loop over the providers: the inventory, the reports, the snapshots. *)
Definition Gathered : Type := Inventory * list ProviderReport * list InventorySnapshot.

Definition provide (st : Gathered) (a : Answer) : Gathered :=
  let '(inv, reports, snapshots) := st in
  match answer_result a with
  | inl s =>
      (take_snapshot (answer_now a) inv s,
       (reports ++ [mk_provider_report (answer_provider a) (length (snapshot_entities s)) (length (snapshot_dependencies s)) None])%list,
       (snapshots ++ [s])%list)
  | inr error => (inv, (reports ++ [mk_provider_report (answer_provider a) 0 0 (Some error)])%list, snapshots)
  end.

Definition gather (inv : Inventory) (answers : list Answer) : Gathered := foldl provide (inv, [], []) answers.

(** [Controller::derive_storage_topology]: the newest mount report of every host;
    [rows] is the table in the order of its [rowid]. *)
Definition mount_reports (qnow : EntityId → Timestamp) (rows : list ObservationRow) (inv : Inventory) : list Observation :=
  omap (λ e, if decide (entity_kind e = Entity_Host) then
               head (filter (λ o, probe_id o = PROBE_CLIENT_MOUNT)
                       (latest_observations_since julianday_within (qnow (entity_eid e)) (entity_eid e) None rows))
             else None)
       (entities inv).

Definition derive_storage_topology (environment : string) (now : Timestamp) (qnow : EntityId → Timestamp)
    (rows : list ObservationRow) (inv : Inventory) : StorageTopology :=
  topology_from_mounts environment inv now (mount_reports qnow rows inv).

(** What the topology does to the inventory. *)
Definition take_topology (now : Timestamp) (inv : Inventory) (t : StorageTopology) : Inventory :=
  let s := topology_snapshot t in
  let inv := take_snapshot now inv s in
  match snapshot_source s with
  | Some source => (retract_absent_dependencies inv source s).1
  | None => inv
  end.

(** [DiscoveryReport], up to the diagnoses. *)
Record DiscoveryReport := mk_discovery_report {
  report_providers : list ProviderReport;
  storage_edges : nat;
  unresolved_storage_servers : list UnresolvedServer;
  report_entities : nat;
  report_dependencies : nat;
  report_observations : nat;
  report_transitions : list StateTransition
}.

Definition all_providers_ok (r : DiscoveryReport) : bool := forallb provider_ok (report_providers r).
Definition failures (r : DiscoveryReport) : list ProviderReport := filter (λ p, provider_ok p = false) (report_providers r).

(** What a cycle is configured with. *)
Record DiscoveryConfig := mk_discovery_config {
  dc_schedules : ProbeSchedules;
  dc_observe : bool;
  dc_nfs : bool;
  dc_scheduler : string;
  dc_observer : option EntityId
}.

(** What a cycle is told from outside: the answers of the providers, that of the
    scheduler if it is enabled, how probes go, and the clocks and identifiers. *)
Record World := mk_world {
  w_answers : list Answer;
  w_slurm : option (SlurmView.Unavailable + SlurmView);
  w_execute : ProbeDefinition → ProbeContext → Execution;
  w_ids : nat → ObservationId;
  w_clock : nat → Timestamp;
  w_now : Timestamp;
  w_query : EntityId → Timestamp;
  w_rows : gmap ObservationId ObservationRow → list ObservationRow;
  w_readings : Readings
}.

(** The observations a cycle makes. *)
Definition cycle_observations (cfg : DiscoveryConfig) (w : World) (environment : string) (inv : Inventory) : list Observation :=
  let watched :=
    if dc_observe cfg then
      let o := observer_with_schedules (dc_schedules cfg) in
      let o := match dc_observer cfg with Some e => observing_as o e | None => o end in
      (Observers.observe_all (w_execute w) o (entities inv)).2
    else [] in
  let scheduled :=
    match w_slurm w with
    | Some (inr view) => observations_from_view (w_ids w) (w_clock w) environment (dc_scheduler cfg) view
    | _ => []
    end in
  (watched ++ scheduled)%list.

(** The loop over the snapshots that reconciles their capabilities. *)
Fixpoint reconcile_all (ss : list InventorySnapshot) (t : InventoryTables) : InventoryTables * (StoreError + unit) :=
  match ss with
  | [] => (t, inr tt)
  | s :: ss => match reconcile_snapshot_capabilities s t with
               | (t, inl err) => (t, inl err)
               | (t, inr _) => reconcile_all ss t
               end
  end.

(** The tables after [reconcile_dependencies] of the derived edges. *)
Definition reconcile_topology (s : InventorySnapshot) (t : InventoryTables) : InventoryTables :=
  match snapshot_source s with
  | Some source => (reconcile_dependencies source (map edge_id (snapshot_dependencies s)) t).1
  | None => t
  end.

(** [Controller::discover_once], up to the diagnoses it ends with; an error keeps
    what was written before it. *)
Definition discover_once (cfg : DiscoveryConfig) (w : World) (c : Registrar) : Registrar * outcome DiscoveryReport :=
  let environment := reg_environment c in
  match load_inventory environment (reg_tables c) with
  | inl err => (c, Failure err)
  | inr inv0 =>
      let '(inv1, reports1, snapshots1) := gather inv0 (w_answers w) in
      let os := cycle_observations cfg w environment inv1 in
      let topology := derive_storage_topology environment (w_now w) (w_query w) (w_rows w (reg_observations c)) inv1 in
      let s := topology_snapshot topology in
      let '(inv, reports, snapshots, t0, edges, unresolved) :=
        if dc_nfs cfg then
          (take_topology (w_now w) inv1 topology,
           (reports1 ++ [mk_provider_report NFS_SOURCE (length (snapshot_entities s)) (length (snapshot_dependencies s)) None])%list,
           (snapshots1 ++ [s])%list, reconcile_topology s (reg_tables c), topology_edges topology, topology_unresolved topology)
        else (inv1, reports1, snapshots1, reg_tables c, 0%nat, []) in
      match save_inventory inv t0 with
      | inl err => (set_tables t0 c, Failure err)
      | inr t1 =>
          match reconcile_all snapshots t1 with
          | (t2, inl err) => (set_tables t2 c, Failure err)
          | (t2, inr _) =>
              let c := mk_registrar environment t2 (storage_providers inv) (reg_observations c) (reg_engine c) in
              let '(g, out, ts) := ingest_observations_recorded (w_readings w) os (ingestor_of c) in
              (mk_registrar environment t2 (reg_providers c) (ing_table g) (ing_engine g),
               Success (mk_discovery_report reports edges unresolved (size (inv_entities inv))
                          (length (graph_edges (inv_graph inv))) (inserted out) ts))
          end
      end
  end.
End cycle.
