(* ===== verification/DiscoverySpec.v ===== *)
(** * Discovery: what it guarantees

    A provider that fails takes nothing away, what is declared is where the
    probes look, and a mount report that holds nothing is taken for no mounts. *)

From S2P Require Import Concrete.
From S2P Require Export Topology ObserversSpec Discovery InventorySpec.

Local Open Scope string_scope.

(** ** How much of a cluster Slurm can show *)

Lemma show_nodes_answer pipe_capacity world c child :
  is_allowed Commands.builtin (sc_program c) = true → world (sc_program c) ["show"; "nodes"; "-o"] = Runs child →
  (child_time child ≤ sc_timeout c)%N → writes_stderr child = "" →
  let limit := N.to_nat DEFAULT_OUTPUT_LIMIT in
  show_nodes pipe_capacity world c Commands.builtin =
    if (limit + 1 + pipe_capacity <? String.length (writes_stdout child))%nat
    then inr (TimedOutCommand (sc_program c) (sc_timeout c))
    else inl (mk_command_output (sc_program c) ["show"; "nodes"; "-o"] (child_exit child)
                (from_utf8_lossy (String.substring 0 limit (writes_stdout child))) (from_utf8_lossy "")
                (limit <? String.length (writes_stdout child))%nat false (child_time child)).
Proof.
  intros Hal Hw Ht Herr limit. unfold show_nodes, scontrol_run, run_command, check_program.
  cbn [command_program command_args command_timeout output_limit with_timeout with_args command_new app]. rewrite Hal, Hw.
  fold limit. clearbody limit. assert ((sc_timeout c <? child_time child)%N = false) as -> by (apply N.ltb_ge; lia).
  assert (∀ n, blocked pipe_capacity n "" = false) as Hquiet by (intros n; apply Nat.ltb_ge; cbn; lia).
  rewrite Herr, Hquiet, orb_false_r, orb_false_l. unfold blocked.
  destruct (_ <? _)%nat eqn:Hb; [done|]. rewrite !read_limited_spec.
  by replace (String.substring 0 limit "") with "" by (by destruct limit).
Qed.

(** What Slurm shows of a cluster ends where the output of a command does: a
    table of nodes past the limit and what a pipe holds is no answer at all, on
    every cycle; one that is past the limit alone is taken for the whole cluster,
    although it is cut where the limit falls and the output says so. *)
Theorem a_large_cluster_is_out_of_sight pipe_capacity world c child :
  is_allowed Commands.builtin (sc_program c) = true → world (sc_program c) ["show"; "nodes"; "-o"] = Runs child →
  child_exit child = Some 0%Z → (child_time child ≤ sc_timeout c)%N → writes_stderr child = "" →
  let limit := N.to_nat DEFAULT_OUTPUT_LIMIT in
  match collect_view pipe_capacity world c with
  | inl e => (limit + 1 + pipe_capacity < String.length (writes_stdout child))%nat
             ∧ e = mk_unavailable SLURM_PROVIDER (show_command_error (TimedOutCommand (sc_program c) (sc_timeout c)))
  | inr v => (String.length (writes_stdout child) ≤ limit + 1 + pipe_capacity)%nat
             ∧ view_nodes v = parse_nodes (from_utf8_lossy (String.substring 0 limit (writes_stdout child)))
  end.
Proof.
  intros Hal Hw Hex Ht Herr limit. unfold collect_view.
  rewrite (show_nodes_answer pipe_capacity world c child Hal Hw Ht Herr). fold limit. clearbody limit.
  destruct (Nat.ltb_spec (limit + 1 + pipe_capacity) (String.length (writes_stdout child))); [done|].
  unfold is_success. cbn [exit_code]. rewrite Hex, bool_decide_eq_true_2 by done. by split.
Qed.

(** ** What stands *)

Section standing.
Context `{J : JsonApi} `{HI : HashIter}.

Lemma merge_entity_other now inv out x id :
  id ≠ entity_eid x → inv_entities (merge_entity now (inv, out) x).1 !! id = inv_entities inv !! id.
Proof.
  intros Hne. unfold merge_entity. destruct (inv_entities inv !! entity_eid x) as [y|]; cbn; by rewrite lookup_insert_ne.
Qed.

Lemma merge_entities_other now xs inv out id :
  id ∉ map entity_eid xs → inv_entities (foldl (merge_entity now) (inv, out) xs).1 !! id = inv_entities inv !! id.
Proof.
  revert inv out. induction xs as [|x xs IH]; intros inv out Hid; cbn [foldl]; [done|].
  pose proof (merge_entity_other now inv out x id) as Hone. destruct (merge_entity now (inv, out) x) as [inv1 out1].
  rewrite IH by set_solver. apply Hone. set_solver.
Qed.

(** A merge leaves alone what the snapshot does not report. *)
Lemma merged_with_other now inv s id :
  id ∉ map entity_eid (snapshot_entities s) → inv_entities (merged_with now inv s) !! id = inv_entities inv !! id.
Proof.
  intros Hid. unfold merged_with, merge.
  pose proof (merge_entities_other now (snapshot_entities s) inv merge_outcome_default id Hid) as H1.
  destruct (foldl (merge_entity now) _ _) as [inv1 out1]. cbn [fst] in H1.
  pose proof (off_entities _ _ _ _ (offer_edges_offered (λ _, (id, id)) now (snapshot_dependencies s) inv1 out1)) as H2.
  destruct (foldl (offer_edge now) _ _) as [inv2 out2]. cbn [fst] in H2.
  destruct (resolve_pending_finished (λ _, (id, id)) now inv2 out2) as (inv3 & out3 & -> & H3 & _). by rewrite H3, H2, H1.
Qed.

Lemma merged_with_total now inv s : ∃ inv' out, merge now inv s = Finished (inv', out).
Proof.
  unfold merge. destruct (foldl (merge_entity now) _ _) as [inv1 out1]. destruct (foldl (offer_edge now) _ _) as [inv2 out2].
  destruct (resolve_pending_finished (λ _, ({| as_uuid := 0%N |} : EntityId, {| as_uuid := 0%N |} : EntityId)) now inv2 out2) as (inv3 & out3 & -> & _). eauto.
Qed.

(** Whether a snapshot has a say about an entity. *)
Definition has_a_say (s : InventorySnapshot) (e : ManagedEntity) : Prop :=
  entity_eid e ∈ map entity_eid (snapshot_entities s)
  ∨ ∃ source, snapshot_source s = Some source ∧ source ∈ discovery_sources e ∧ Forall (λ d, d = source) (discovery_sources e).

Lemma take_snapshot_other now inv s e :
  inv_entities inv !! entity_eid e = Some e → ¬ has_a_say s e → inv_entities (take_snapshot now inv s) !! entity_eid e = Some e.
Proof.
  intros He Hsay. unfold take_snapshot. assert (entity_eid e ∉ map entity_eid (snapshot_entities s)) as Hid by (intros ?; apply Hsay; by left).
  pose proof (merged_with_other now inv s _ Hid) as Hm. rewrite He in Hm.
  destruct (snapshot_source s) as [source|] eqn:Hs; [|done]. cbn. rewrite lookup_fmap, Hm. cbn.
  rewrite decide_False; [done|]. intros (Hin & Hall & _). apply Hsay. right. eauto.
Qed.

(** Whether a provider answered. *)
Definition answered_with (a : Answer) : option InventorySnapshot := match answer_result a with inl s => Some s | inr _ => None end.

Definition report_of (a : Answer) : ProviderReport :=
  match answer_result a with
  | inl s => mk_provider_report (answer_provider a) (length (snapshot_entities s)) (length (snapshot_dependencies s)) None
  | inr error => mk_provider_report (answer_provider a) 0 0 (Some error)
  end.

Lemma gather_snoc inv answers a : gather inv (answers ++ [a]) = provide (gather inv answers) a.
Proof. unfold gather. by rewrite foldl_snoc. Qed.

Lemma gather_reports inv answers : (gather inv answers).1.2 = map report_of answers ∧ (gather inv answers).2 = omap answered_with answers.
Proof.
  induction answers as [|a answers [IH1 IH2]] using rev_ind; [done|].
  rewrite gather_snoc, map_app, omap_app, <- IH1, <- IH2. destruct (gather inv answers) as [[inv1 reports] snapshots].
  unfold provide, report_of, answered_with. cbn. destruct (answer_result a); cbn; by rewrite ?app_nil_r.
Qed.

Lemma gather_filter inv answers :
  (gather inv (filter (λ a, is_Some (answered_with a)) answers)).1.1 = (gather inv answers).1.1.
Proof.
  induction answers as [|a answers IH] using rev_ind; [done|].
  rewrite filter_app, gather_snoc. destruct (decide (is_Some (answered_with a))) as [Ha|Ha].
  - rewrite filter_cons_True, filter_nil, gather_snoc by done.
    destruct (gather inv answers) as [[inv1 r1] s1], (gather inv (filter _ answers)) as [[inv2 r2] s2]. cbn in IH. subst inv2.
    unfold provide. by destruct (answer_result a).
  - rewrite filter_cons_False, filter_nil, app_nil_r, IH by done. destruct (gather inv answers) as [[inv1 r1] s1]. cbn.
    unfold answered_with in Ha. destruct (answer_result a); [exfalso; apply Ha; by eexists|done].
Qed.

(** C32.  A provider that fails degrades the picture and does not erase it: its error
    is in the report, in its place; the inventory is the one the others would have
    left without it; and an entity none of those that answered has a say about is
    left exactly as it was, its lifecycle included. *)
Theorem failing_provider_takes_nothing_away (inv : Inventory) (answers : list Answer) :
  let '(inv', reports, snapshots) := gather inv answers in
  reports = map report_of answers
  ∧ snapshots = omap answered_with answers
  ∧ inv' = (gather inv (filter (λ a, is_Some (answered_with a)) answers)).1.1
  ∧ (∀ e, inv_entities inv !! entity_eid e = Some e →
       (∀ a s, a ∈ answers → answered_with a = Some s → ¬ has_a_say s e) → inv_entities inv' !! entity_eid e = Some e).
Proof.
  pose proof (gather_reports inv answers) as [Hr Hs]. pose proof (gather_filter inv answers) as Hf.
  destruct (gather inv answers) as [[inv' reports] snapshots] eqn:Hg. cbn [fst snd] in *. split_and!; try done.
  assert (inv' = (gather inv answers).1.1) as -> by (by rewrite Hg). clear. intros e He.
  induction answers as [|a answers IH] using rev_ind; intros Hsay; [done|].
  rewrite gather_snoc. assert (inv_entities (gather inv answers).1.1 !! entity_eid e = Some e) as Hstands.
  { apply IH. intros a' s' Ha'. apply Hsay. apply elem_of_app. by left. }
  destruct (gather inv answers) as [[inv1 r1] s1]. cbn in Hstands. unfold provide.
  destruct (answer_result a) as [s|error] eqn:Hres; cbn; [|done].
  apply take_snapshot_other; [done|]. apply (Hsay a); [apply elem_of_app; right; by left|]. unfold answered_with. by rewrite Hres.
Qed.
End standing.

(** ** What is declared *)

Section declared.
Context `{J : JsonApi} `{JL : !JsonLaws} `{U : UuidApi}.

Lemma labelled_frame ls e :
  let e' := foldl (λ e '(k, v), with_label e k v) e ls in
  entity_eid e' = entity_eid e ∧ canonical_name e' = canonical_name e ∧ entity_kind e' = entity_kind e
  ∧ entity_metadata e' = entity_metadata e ∧ entity_capabilities e' = entity_capabilities e.
Proof. revert e. induction ls as [|[k v] ls IH]; intros e; cbn [foldl]; [done|]. apply (IH (with_label e k v)). Qed.

(** What the operator declares is where the probes look: a declared entity of a
    known type is filed under its type and name alone, whatever addresses and ports
    are declared, and is reached at the first of its addresses, or by its name if
    it has none, on the ports declared. *)
Theorem declared_entity_is_reached_there (now : Timestamp) (environment : string) (d : EntityConfig) kind :
  entity_type_parse (declared_type d) = Some kind → declared_name d ≠ "" →
  Forall (λ a, a ≠ "") (declared_addresses d) → map_Forall (λ _ p, p < 65536)%N (declared_ports d) →
  ∃ e, declared_entity now environment d = Some e
  ∧ entity_eid e = entity_id_of environment kind (declared_name d)
  ∧ entity_capabilities e = list_to_set (declared_capabilities d)
  ∧ endpoint_for e = Some (mk_endpoint (default (declared_name d) (head (declared_addresses d)))
                            (declared_ports d !! "ssh") (declared_ports d !! "agent")).
Proof.
  intros Hkind Hname Haddr Hports. unfold declared_entity. rewrite Hkind. cbn [mbind option_bind].
  set (e0 := foldl _ _ _).
  assert (entity_eid e0 = entity_id_of environment kind (declared_name d) ∧ canonical_name e0 = declared_name d
    ∧ entity_metadata e0 = json_null ∧ entity_capabilities e0 = list_to_set (declared_capabilities d)) as (Hid & Hcn & Hm & Hcap).
  { unfold e0. set (b := match declared_cluster d with Some c => _ | None => _ end).
    destruct (labelled_frame (btree_entries (declared_labels d)) b) as (-> & -> & _ & -> & ->). unfold b.
    by destruct (declared_cluster d), (declared_display_name d). }
  clearbody e0. eexists. split; [done|].
  set (e := if decide _ then _ else _).
  assert (∀ key, json_get (entity_metadata e) key = declared_metadata d !! key) as Hget.
  { intros key. unfold e. case_decide as Hd; [by rewrite Hm, json_get_null, Hd, lookup_empty|apply json_get_object]. }
  assert (entity_eid e = entity_eid e0 ∧ canonical_name e = canonical_name e0 ∧ entity_capabilities e = entity_capabilities e0) as (-> & Hcn' & ->)
    by (unfold e; by case_decide). split_and!; [done|done|].
  assert (∀ key, known_port e key = declared_ports d !! key) as Hport.
  { intros key. unfold known_port. rewrite Hget. unfold declared_metadata. case_decide as Hp.
    - rewrite Hp, lookup_empty. destruct (declared_addresses d); [by rewrite lookup_empty|by rewrite lookup_singleton_ne].
    - rewrite lookup_insert_eq. cbn [mbind option_bind]. rewrite json_get_object, lookup_fmap.
      destruct (declared_ports d !! key) as [p|] eqn:Hk; [|done]. cbn. specialize (Hports _ _ Hk). cbn in Hports.
      rewrite json_as_u64_of by (transitivity 65535%N; [lia|done]). cbn. unfold as_u16. by rewrite N.mod_small. }
  unfold endpoint_for, known_addresses. rewrite !Hget, !Hport, Hcn', Hcn.
  assert (declared_metadata d !! "host" = None) as ->.
  { unfold declared_metadata. case_decide; rewrite ?lookup_insert_ne by done;
      destruct (declared_addresses d); rewrite ?lookup_singleton_ne, ?lookup_empty by done; done. }
  cbn [mbind option_bind].
  assert (declared_metadata d !! "addresses" ≫= json_as_array
    = match declared_addresses d with [] => None | l => Some (map json_of_str l) end) as ->.
  { unfold declared_metadata. case_decide; rewrite ?lookup_insert_ne by done;
      destruct (declared_addresses d) as [|a l]; rewrite ?lookup_singleton_eq, ?lookup_empty; cbn; try done; apply json_as_array_of. }
  destruct (declared_addresses d) as [|a l]; cbn [head default mbind option_bind map omap list_omap from_option id]; cbn zeta.
  - by rewrite is_empty_false.
  - rewrite json_as_str_of. cbn [head default from_option id]; cbn zeta. rewrite is_empty_false; [done|]. by apply Forall_cons in Haddr as [? _].
Qed.
End declared.

(** ** What a report that holds nothing says *)

(** A mount report that ran out of time has no payload, and is read as that of a
    host without mounts. *)
Lemma timed_out_report_has_no_servers `{J : JsonApi} `{JL : !JsonLaws} target observer id clock started finished elapsed :
  servers_in (run_observation nfs_mount_definition target observer id clock started finished elapsed TimedOut) = [].
Proof.
  assert (∀ o, payload o = json_null → servers_in o = []) as Hnull.
  { intros o Ho. unfold servers_in, elements_of. rewrite Ho, !json_get_null. cbn. rewrite decide_True by done. by apply btree_elements_nil. }
  apply Hnull. by destruct observer.
Qed.

Definition sample_declaration : EntityConfig :=
  mk_entity_config "host" "fs1" None None ∅ ["storage.nfs.server"] ["192.0.2.10"] {[ "ssh" := 2222%N ]}.

Lemma declared_entity_is_reached_there_witness :
  entity_type_parse (declared_type sample_declaration) = Some Entity_Host
  ∧ ∃ e, declared_entity 0 "lab" sample_declaration = Some e
         ∧ endpoint_for e = Some (mk_endpoint "192.0.2.10" (Some 2222%N) None).
Proof.
  split; [reflexivity|].
  destruct (declared_entity_is_reached_there 0 "lab" sample_declaration Entity_Host) as (e & He & _ & _ & Hend).
  - reflexivity.
  - discriminate.
  - by apply Forall_singleton.
  - apply map_Forall_singleton. done.
  - exists e. split; [exact He|]. rewrite Hend. f_equal.
Defined.
