(* ===== verification/Config.v ===== *)
(** * Configuration

    [src/config/mod.rs], [validate.rs], [tls.rs] and [precedence.rs]: the
    settings with their defaults, what loading a file may refuse, every check
    [config check] makes, and the layers a value is taken from.  Decoding TOML
    is the [toml] crate's: it is an argument. *)

From S2P Require Import Lexing.
From S2P Require Export Discovery Retention.

Local Open Scope string_scope.

(** ** Layers of a value *)

(** [ValueSource], lowest priority first. *)
Inductive ValueSource := BuiltinDefault | RuntimeDiscovery | ConfigFile | EnvironmentVariable | CommandLine.

#[export] Instance ValueSource_eq_dec : EqDecision ValueSource.
Proof. solve_decision. Defined.

Definition source_label (s : ValueSource) : string :=
  match s with
  | BuiltinDefault => "built-in default"
  | RuntimeDiscovery => "runtime discovery"
  | ConfigFile => "config file"
  | EnvironmentVariable => "environment variable"
  | CommandLine => "command line"
  end.

(** The derived order of [ValueSource]. *)
Definition source_rank (s : ValueSource) : nat :=
  match s with
  | BuiltinDefault => 0 | RuntimeDiscovery => 1 | ConfigFile => 2 | EnvironmentVariable => 3 | CommandLine => 4
  end.

Section layered.
Context {T : Type}.

(** [Layered<T>]. *)
Record Layered := mk_layered { layered_value : T; layered_source : ValueSource }.

Definition layered_builtin (value : T) : Layered := mk_layered value BuiltinDefault.

(** [Layered::offer]. *)
Definition offer (l : Layered) (value : option T) (source : ValueSource) : Layered :=
  match value with
  | Some value => if (source_rank (layered_source l) <=? source_rank source)%nat then mk_layered value source else l
  | None => l
  end.

(** [Display]. *)
Definition show_layered (show : T → string) (l : Layered) : string :=
  show (layered_value l) +:+ " (" +:+ source_label (layered_source l) +:+ ")".
End layered.
Arguments Layered T : clear implicits.

(** ** Durations and periods *)

Section periods.
(** [humantime::format_duration] and [parse_duration], of a duration in
    nanoseconds; the error of the second is its text. *)
Variables (humantime_show : StdDuration → string) (humantime_parse : string → StdDuration + string).

(** The units [format_duration] of [src/time.rs] tries, with their seconds. *)
Definition whole_units : list (string * N) := [("d", 86400%N); ("h", 3600%N); ("m", 60%N)].

Fixpoint in_whole_units (seconds : N) (units : list (string * N)) : string :=
  match units with
  | [] => show_N seconds +:+ "s"
  | (name, size) :: rest => if (seconds mod size =? 0)%N then show_N (seconds / size) +:+ name else in_whole_units seconds rest
  end.

(** [time::format_duration]. *)
Definition format_whole (d : StdDuration) : string :=
  let seconds := (d / nanos_in_second)%N in
  if negb (d mod nanos_in_second =? 0)%N || (seconds =? 0)%N then humantime_show d else in_whole_units seconds whole_units.

(** [Display for RetentionPeriod], which is how it is serialised. *)
Definition show_period (p : RetentionPeriod) : string :=
  match p with Forever => "never" | KeepFor d => format_whole d end.

Definition FOREVER_WORDS : list string := ["never"; "forever"; "unlimited"; "keep"].

(** [Deserialize for RetentionPeriod]: [None] is the error. *)
Definition parse_period (text : string) : option RetentionPeriod :=
  let trimmed := trim text in
  if existsb (eq_ignore_ascii_case trimmed) FOREVER_WORDS then Some Forever
  else match humantime_parse trimmed with inl d => Some (KeepFor d) | inr _ => None end.
End periods.

(** ** TLS *)

(** [TlsConfig]; a path is its text. *)
Record TlsConfig := mk_tls {
  tls_cert : option string;
  tls_key : option string;
  tls_client_ca : option string;
  tls_ca : option string;
  tls_client_cert : option string;
  tls_client_key : option string;
  tls_server_name : option string;
  tls_insecure_skip_verify : bool
}.

Definition tls_default : TlsConfig := mk_tls None None None None None None None false.

(** [Option::is_some]. *)
Definition given {A} (o : option A) : bool := bool_decide (is_Some o).

Definition serves_tls (t : TlsConfig) : bool := given (tls_cert t) && given (tls_key t).
Definition requires_client_certificates (t : TlsConfig) : bool := given (tls_client_ca t).
Definition presents_client_certificate (t : TlsConfig) : bool := given (tls_client_cert t) && given (tls_client_key t).
Definition affects_client (t : TlsConfig) : bool :=
  given (tls_ca t) || presents_client_certificate t || given (tls_server_name t) || tls_insecure_skip_verify t.

(** [if condition { list.push(x) }]. *)
Definition push_if {A} (condition : bool) (x : A) : list A := if condition then [x] else [].

(** [TlsConfig::problems]. *)
Definition tls_problems (t : TlsConfig) : list string :=
  (push_if (negb (Bool.eqb (given (tls_cert t)) (given (tls_key t)))) "tls.cert and tls.key must be set together"
   ++ push_if (negb (Bool.eqb (given (tls_client_cert t)) (given (tls_client_key t)))) "tls.client_cert and tls.client_key must be set together"
   ++ push_if (given (tls_client_ca t) && negb (serves_tls t))
        "tls.client_ca requires tls.cert and tls.key: client certificates can only be verified on a TLS listener"
   ++ push_if (tls_insecure_skip_verify t && given (tls_ca t))
        "tls.insecure_skip_verify makes tls.ca pointless: nothing is verified")%list.

(** ** The settings *)

(** [ControllerConfig]. *)
Record ControllerConfig := mk_controller_config {
  cc_listen : string;
  cc_inventory_interval : StdDuration;
  cc_diagnosis_interval : StdDuration;
  cc_observe : bool
}.

Definition controller_default : ControllerConfig := mk_controller_config "0.0.0.0:7443" (std_secs 300) (std_secs 15) true.

(** [AgentConfig]. *)
Record AgentConfig := mk_agent_config {
  ac_controller_address : option string;
  ac_spool_path : option string;
  ac_roles : list string;
  ac_address : option string;
  ac_interface : option string;
  ac_ssh_port : option N;
  ac_listen : string
}.

Definition agent_default : AgentConfig := mk_agent_config None None [] None None None "0.0.0.0:7444".

(** [WebhookFormat], [WebhookConfig], [NotificationConfig]. *)
Inductive WebhookFormat := Format_Generic | Format_Slack.

#[export] Instance WebhookFormat_eq_dec : EqDecision WebhookFormat.
Proof. solve_decision. Defined.

Record WebhookConfig := mk_webhook_config { hook_name : string; hook_url : string; hook_format : WebhookFormat }.

Record NotificationConfig := mk_notification_config {
  nc_webhooks : list WebhookConfig;
  nc_min_severity : string;
  nc_min_interval : StdDuration
}.

Definition notification_default : NotificationConfig := mk_notification_config [] "warning" (std_secs 1).

(** [SlurmDiscoveryConfig], [NfsDiscoveryConfig], [DiscoveryConfig]. *)
Record DiscoverySettings := mk_discovery_settings {
  slurm_enabled : bool;
  scontrol_path : option string;
  nfs_enabled : bool
}.

Definition discovery_default : DiscoverySettings := mk_discovery_settings false None true.

(** [Config]; [DatabaseConfig] and [PeerMonitoringConfig] hold one value each. *)
Record Config := mk_config {
  config_version : N;
  config_environment : string;
  config_controller : ControllerConfig;
  config_agent : AgentConfig;
  config_database_path : string;
  config_peer_degree : N;
  config_capabilities : gmap Capability CapabilityOverride;
  config_entities : list EntityConfig;
  config_dependencies : list DependencyConfig;
  config_discovery : DiscoverySettings;
  config_notification : NotificationConfig;
  config_retention : RetentionConfig;
  config_tls : TlsConfig;
  config_probes : ProbeSchedules
}.

Definition CONFIG_VERSION : N := 1.

(** [Config::default()]. *)
Definition config_default : Config :=
  mk_config CONFIG_VERSION "default" controller_default agent_default "/var/lib/sentinel/sentinel.db" 3 ∅ [] []
    discovery_default notification_default retention_default tls_default ∅.

(** ** Loading *)

Inductive ConfigError :=
  | Config_Read (path source : string)
  | Config_Forbidden (path : string)
  | Config_Parse (path source : string)
  | Config_UnsupportedVersion (found supported : N)
  | Config_MissingVersion.

(** How reading a file may fail. *)
Inductive ReadError := Read_PermissionDenied | Read_Other (source : string).

Section load.
(** [toml::from_str], for [VersionProbe] and for [Config]. *)
Variables (probe_version : string → option N + string) (decode : string → Config + string).

(** [Config::from_toml]. *)
Definition from_toml (text path : string) : Config + ConfigError :=
  match probe_version text with
  | inr source => inr (Config_Parse path source)
  | inl None => inr Config_MissingVersion
  | inl (Some version) =>
      if (CONFIG_VERSION <? version)%N then inr (Config_UnsupportedVersion version CONFIG_VERSION)
      else match decode text with inl c => inl c | inr source => inr (Config_Parse path source) end
  end.

(** [Config::load]; [contents] is what reading the file comes to. *)
Definition load_config (contents : string + ReadError) (path : string) : Config + ConfigError :=
  match contents with
  | inl text => from_toml text path
  | inr Read_PermissionDenied => inr (Config_Forbidden path)
  | inr (Read_Other source) => inr (Config_Read path source)
  end.
End load.

(** ** Validation *)

Inductive IssueSeverity := Issue_Warning | Issue_Error.

#[export] Instance IssueSeverity_eq_dec : EqDecision IssueSeverity.
Proof. solve_decision. Defined.

Record ValidationIssue := mk_issue { issue_severity : IssueSeverity; issue_location : string; issue_message : string }.

Definition issue_error : string → string → ValidationIssue := mk_issue Issue_Error.
Definition issue_warning : string → string → ValidationIssue := mk_issue Issue_Warning.

Definition show_issue_severity (s : IssueSeverity) : string :=
  match s with Issue_Warning => "warning" | Issue_Error => "error" end.
Definition show_issue (i : ValidationIssue) : string :=
  show_issue_severity (issue_severity i) +:+ ": " +:+ issue_location i +:+ ": " +:+ issue_message i.

(** [ValidationReport]: its issues. *)
Abbreviation ValidationReport := (list ValidationIssue) (only parsing).

Definition report_is_ok (r : ValidationReport) : bool := negb (existsb (λ i, bool_decide (issue_severity i = Issue_Error)) r).
Definition report_errors (r : ValidationReport) : list ValidationIssue := filter (λ i, issue_severity i = Issue_Error) r.
Definition report_warnings (r : ValidationReport) : list ValidationIssue := filter (λ i, issue_severity i = Issue_Warning) r.

(** [parse_entity_ref]. *)
Definition parse_entity_ref (value : string) : option (string * string) :=
  '(kind, name) ← split_once "/" value;
  if is_empty kind || is_empty name || negb (given (entity_type_parse kind)) then None else Some (kind, name).

Section validate.
(** As in [debug_str]. *)
Variable printable : N → bool.
Local Abbreviation debug := (debug_str printable) (only parsing).

Definition quoted (s : string) : string := String "034" (s +:+ String "034" "").

(** [validate_endpoint]: what it pushes. *)
Definition validate_endpoint (value location : string) : list ValidationIssue :=
  match rsplit_once ":" value with
  | None => [issue_error location ("expected " +:+ quoted "host:port" +:+ ", got " +:+ debug value)]
  | Some (host, port) =>
      (push_if (is_empty (trim host)) (issue_error location "host part is empty")
       ++ match parse_u16 port with
          | Some 0%N => [issue_error location "port 0 is not a valid endpoint"]
          | Some _ => []
          | None => [issue_error location ("invalid port " +:+ debug port)]
          end)%list
  end.

(** The loop over the capabilities of an entity. *)
Definition validate_capabilities (location : string) (capabilities : list string) : list ValidationIssue :=
  concat (imap (λ i c, push_if (is_empty (trim c))
                         (issue_error (location +:+ ".capabilities[" +:+ show_nat i +:+ "]") "must not be empty")) capabilities).

(** One turn of the loop over the entities, given those before. *)
Definition validate_entity (declared : gset (string * string)) (index : nat) (e : EntityConfig) : list ValidationIssue :=
  let location := "entities[" +:+ show_nat index +:+ "]" in
  (push_if (negb (given (entity_type_parse (declared_type e))))
     (issue_error (location +:+ ".type") ("unknown entity type " +:+ debug (declared_type e)))
   ++ push_if (is_empty (trim (declared_name e))) (issue_error (location +:+ ".name") "must not be empty")
   ++ push_if (bool_decide ((declared_type e, declared_name e) ∈ declared))
        (issue_error location ("duplicate entity " +:+ declared_type e +:+ "/" +:+ declared_name e))
   ++ validate_capabilities location (declared_capabilities e))%list.

Fixpoint validate_entities (declared : gset (string * string)) (index : nat) (es : list EntityConfig) :
    list ValidationIssue * gset (string * string) :=
  match es with
  | [] => ([], declared)
  | e :: es =>
      let issues := validate_entity declared index e in
      let '(rest, declared') := validate_entities ({[(declared_type e, declared_name e)]} ∪ declared) (S index) es in
      ((issues ++ rest)%list, declared')
  end.

(** One end of a dependency. *)
Definition validate_reference (declared : gset (string * string)) (location field raw : string)
    (parsed : option (string * string)) : list ValidationIssue :=
  match parsed with
  | None => [issue_error (location +:+ "." +:+ field) ("expected " +:+ quoted "type/name" +:+ ", got " +:+ debug raw)]
  | Some reference =>
      if decide (reference ∈ declared) then []
      else [issue_warning (location +:+ "." +:+ field)
              (raw +:+ " is not declared here; it must come from discovery or registration")]
  end.

(** One turn of the loop over the dependencies. *)
Definition validate_dependency (declared : gset (string * string)) (index : nat) (d : DependencyConfig) : list ValidationIssue :=
  let location := "dependencies[" +:+ show_nat index +:+ "]" in
  let from := parse_entity_ref (declared_from d) in
  let to := parse_entity_ref (declared_to d) in
  (validate_reference declared location "from" (declared_from d) from
   ++ validate_reference declared location "to" (declared_to d) to
   ++ push_if (given from && bool_decide (from = to)) (issue_warning location "self-dependency has no effect on diagnosis")
   ++ push_if (negb (given (criticality_parse (declared_criticality d))))
        (issue_error (location +:+ ".criticality") ("unknown criticality " +:+ debug (declared_criticality d))))%list.

(** [validate_retention]. *)
Definition validate_retention (r : RetentionConfig) : list ValidationIssue :=
  if negb (ret_enabled r) then
    [issue_warning "retention.enabled"
       "pruning is off: the database will grow until the disk is full unless something else removes rows from it"]
  else
    (push_if (is_forever (ret_observations r))
       (issue_warning "retention.observations"
          "observations are kept forever: they are the bulk of the database, measured at roughly 170 MB per host per day")
     ++ push_if (ret_keep_per_entity r <? MIN_KEEP_PER_ENTITY)%N
          (issue_warning "retention.keep_per_entity"
             ("raised to " +:+ show_N MIN_KEEP_PER_ENTITY
              +:+ " at prune time: diagnosis reads that many recent observations per entity, and a lower floor would let pruning blind it"))
     ++ push_if (ret_interval r <? std_secs 60)%N
          (issue_warning "retention.interval" "pruning more than once a minute spends write locks to delete almost nothing"))%list.

(** [validate_tls]. *)
Definition validate_tls (t : TlsConfig) : list ValidationIssue :=
  (map (issue_error "tls") (tls_problems t)
   ++ push_if (tls_insecure_skip_verify t)
        (issue_warning "tls.insecure_skip_verify"
           "the controller certificate is not checked: anyone who can redirect the connection can read the cluster credential"))%list.

(** One turn of the loop of [validate_probes]. *)
Definition validate_probe (probe : string) (s : ProbeSchedule) : list ValidationIssue :=
  let location := "probes." +:+ debug probe in
  if negb (is_known probe) then
    [issue_error location ("unknown probe; known probes are: " +:+ str_join ", " probe_ids)]
  else
    (match schedule_interval s with
     | Some interval =>
         push_if (interval <? std_secs 1)%N
           (issue_warning (location +:+ ".interval")
              "under a second: probes cost a syscall or a connection each, and this one will spend more time being scheduled than measuring")
     | None => []
     end
     ++ match schedule_interval s, schedule_timeout s with
        | Some interval, Some timeout =>
            push_if (interval <? timeout)%N (issue_warning (location +:+ ".timeout") "longer than the interval: executions will overlap")
        | _, _ => []
        end
     ++ push_if (bool_decide (schedule_enabled s = Some false))
          (issue_warning (location +:+ ".enabled") "this probe is switched off; anything diagnosed from it will not be reported"))%list.

Definition validate_probes (s : ProbeSchedules) : list ValidationIssue :=
  concat (map (λ '(probe, schedule), validate_probe probe schedule) (btree_entries s)).

(** [validate]. *)
Definition validate (c : Config) : ValidationReport :=
  let '(of_entities, declared) := validate_entities ∅ 0 (config_entities c) in
  (push_if (is_empty (trim (config_environment c))) (issue_error "environment" "must not be empty")
   ++ validate_endpoint (cc_listen (config_controller c)) "controller.listen"
   ++ match ac_controller_address (config_agent c) with
      | Some address => validate_endpoint address "agent.controller_address"
      | None => []
      end
   ++ push_if (config_peer_degree c =? 0)%N
        (issue_warning "peer_monitoring.degree"
           "0 disables peer monitoring; a single observer failure will then look like a host failure")
   ++ of_entities
   ++ concat (imap (validate_dependency declared) (config_dependencies c))
   ++ validate_retention (config_retention c)
   ++ validate_tls (config_tls c)
   ++ validate_probes (config_probes c))%list.
End validate.
