(* ===== verification/ConfigSpec.v ===== *)
(** * Configuration: what a check is worth

    What the check of a configuration refuses is spelled out, with what it does
    not look at, and what is declared in an accepted one is reported to the
    inventory whole. *)

From S2P Require Import Concrete Hostlist StoreSpec.
From S2P Require Export Config DiscoverySpec.

Local Open Scope string_scope.

(** ** Reports *)

Local Abbreviation only_warnings := (Forall (λ i, issue_severity i = Issue_Warning)) (only parsing).

Lemma report_is_ok_iff r : report_is_ok r = true ↔ only_warnings r.
Proof.
  unfold report_is_ok. rewrite negb_true_iff, <- not_true_iff_false, existsb_exists, Forall_forall. split.
  - intros Hn i Hi. destruct (issue_severity i) eqn:Hs; [done|]. destruct Hn. exists i.
    split; [by apply list_elem_of_In|]. by rewrite Hs.
  - intros Hall (i & Hi%list_elem_of_In & Hs%bool_decide_eq_true). rewrite (Hall i Hi) in Hs. done.
Qed.

Lemma Forall_push_if {A} (P : A → Prop) b x : Forall P (push_if b x) ↔ (b = true → P x).
Proof. destruct b; cbn; [rewrite Forall_singleton; tauto|]. split; [done|constructor]. Qed.

Lemma warned b l m : only_warnings (push_if b (issue_warning l m)).
Proof. by apply Forall_push_if. Qed.

Lemma refused b l m : only_warnings (push_if b (issue_error l m)) ↔ b = false.
Proof. rewrite Forall_push_if. destruct b; cbn; [split; [by intros H; specialize (H eq_refl)|done]|done]. Qed.

Lemma push_if_nil {A} b (x : A) : push_if b x = [] ↔ b = false.
Proof. by destruct b. Qed.

Lemma Forall_concat_imap {A B} (P : B → Prop) (f : nat → A → list B) l :
  Forall P (concat (imap f l)) ↔ ∀ i x, l !! i = Some x → Forall P (f i x).
Proof.
  revert f. induction l as [|x l IH]; intros f; cbn [imap concat].
  - split; [by intros _ i x|constructor].
  - rewrite Forall_app, (IH (f ∘ S)). split.
    + intros [Hx Hl] [|i] y; cbn; [by intros [= <-]|]. apply Hl.
    + intros Hall. split; [by apply (Hall 0%nat)|]. intros i y. apply (Hall (S i)).
Qed.

Lemma given_true {A} (o : option A) : given o = true ↔ is_Some o.
Proof. apply bool_decide_eq_true. Qed.

Lemma is_empty_true s : is_empty s = true ↔ s = "".
Proof. apply String.eqb_eq. Qed.

Lemma not_empty s : is_empty s = false ↔ s ≠ "".
Proof. rewrite <- not_true_iff_false, is_empty_true. done. Qed.

Lemma not_given {A} (o : option A) : negb (given o) = false ↔ is_Some o.
Proof. by rewrite negb_false_iff, given_true. Qed.

(** ** What each check refuses *)

Section checks.
Variable printable : N → bool.

(** [host:port], with a port one can listen on or connect to. *)
Definition valid_endpoint (value : string) : Prop :=
  ∃ host port n, rsplit_once ":" value = Some (host, port) ∧ trim host ≠ "" ∧ parse_u16 port = Some n ∧ n ≠ 0%N.

Lemma validate_endpoint_ok value location : only_warnings (validate_endpoint printable value location) ↔ valid_endpoint value.
Proof.
  unfold validate_endpoint, valid_endpoint. destruct (rsplit_once ":" value) as [[host port]|].
  - rewrite Forall_app, refused, not_empty. split.
    + intros [Hh Hp]. destruct (parse_u16 port) as [[|p]|] eqn:Hport; try by inversion Hp. by eexists _, _, (N.pos p).
    + intros (? & ? & n & [= <- <-] & Hh & -> & Hn). split; [done|]. destruct n; [done|constructor].
  - split; [by inversion 1|by intros (? & ? & ? & ? & _)].
Qed.

Definition valid_entity (e : EntityConfig) : Prop :=
  is_Some (entity_type_parse (declared_type e)) ∧ trim (declared_name e) ≠ ""
  ∧ Forall (λ c, trim c ≠ "") (declared_capabilities e).

Definition entity_ref (e : EntityConfig) : string * string := (declared_type e, declared_name e).

Lemma validate_capabilities_ok location cs :
  only_warnings (validate_capabilities location cs) ↔ Forall (λ c, trim c ≠ "") cs.
Proof.
  unfold validate_capabilities. rewrite Forall_concat_imap, Forall_lookup.
  split; intros H i x Hx; specialize (H i x Hx); revert H; by rewrite refused, not_empty.
Qed.

Lemma validate_entity_ok declared i e :
  only_warnings (validate_entity printable declared i e) ↔ valid_entity e ∧ entity_ref e ∉ declared.
Proof.
  unfold validate_entity, valid_entity. cbv zeta.
  rewrite !Forall_app, !refused, validate_capabilities_ok, not_given, not_empty, bool_decide_eq_false.
  unfold entity_ref. tauto.
Qed.

Lemma validate_entities_declared declared i es :
  (validate_entities printable declared i es).2 = list_to_set (map entity_ref es) ∪ declared.
Proof.
  revert declared i. induction es as [|e es IH]; intros declared i; cbn [validate_entities]; [set_solver|].
  pose proof (IH ({[entity_ref e]} ∪ declared) (S i)) as H. unfold entity_ref in *.
  destruct (validate_entities _ _ (S i) es) as [rest d]. cbn in *. rewrite H. set_solver.
Qed.

Lemma validate_entities_ok declared i es :
  only_warnings (validate_entities printable declared i es).1 ↔
    Forall valid_entity es ∧ NoDup (map entity_ref es) ∧ ∀ e, e ∈ es → entity_ref e ∉ declared.
Proof.
  revert declared i. induction es as [|e es IH]; intros declared i; cbn [validate_entities].
  - split; [intros _|constructor]. split_and!; [constructor|cbn; constructor|]. by intros e ?%elem_of_nil.
  - pose proof (IH ({[entity_ref e]} ∪ declared) (S i)) as H. unfold entity_ref in H at 1. fold entity_ref in H.
    change ({[(declared_type e, declared_name e)]} ∪ declared) with ({[entity_ref e]} ∪ declared).
    change ({[(declared_type e, declared_name e)]} ∪ declared) with ({[entity_ref e]} ∪ declared) in H.
    destruct (validate_entities _ _ (S i) es) as [rest d]. cbn [fst] in *.
    rewrite Forall_app, validate_entity_ok, H, Forall_cons, map_cons, NoDup_cons. split.
    + intros [[Hv Hd] (Hall & Hnd & Hfresh)]. split_and!; [done|done| |done|].
      * intros (e' & He & Hin)%list_elem_of_fmap. apply (Hfresh e' Hin). rewrite <- He. set_solver.
      * intros e' [->|Hin]%elem_of_cons; [done|]. specialize (Hfresh e' Hin). set_solver.
    + intros ([Hv Hall] & [Hnin Hnd] & Hfresh). split_and!; [done|by apply Hfresh; left|done|done|].
      intros e' Hin [Heq%elem_of_singleton|Hd]%elem_of_union.
      * apply Hnin. rewrite <- Heq. by apply list_elem_of_fmap_2.
      * by apply (Hfresh e'); [right|].
Qed.

(** [type/name], of a type there is. *)
Definition names_entity (value : string) : Prop :=
  ∃ kind name, split_once "/" value = Some (kind, name) ∧ name ≠ "" ∧ is_Some (entity_type_parse kind).

Lemma parse_entity_ref_spec value kind name :
  parse_entity_ref value = Some (kind, name) ↔
    split_once "/" value = Some (kind, name) ∧ name ≠ "" ∧ is_Some (entity_type_parse kind).
Proof.
  unfold parse_entity_ref. destruct (split_once "/" value) as [[k n]|]; cbn; [|by split; [|intros [? _]]].
  destruct (is_empty k || is_empty n || negb (given (entity_type_parse k))) eqn:Hb.
  - split; [done|]. intros ([= -> ->] & Hn & Hk).
    rewrite !orb_true_iff, negb_true_iff, !is_empty_true in Hb. destruct Hb as [[->|?]|Hb]; [by destruct Hk|done|].
    apply given_true in Hk. congruence.
  - rewrite !orb_false_iff, not_given in Hb. destruct Hb as [[_ Hn%not_empty] Hk]. split; [by intros [= <- <-]|].
    by intros ([= <- <-] & _ & _).
Qed.

Lemma names_entity_parses value : names_entity value ↔ is_Some (parse_entity_ref value).
Proof.
  split.
  - intros (k & n & H). exists (k, n). by apply parse_entity_ref_spec.
  - intros [[k n] H%parse_entity_ref_spec]. by exists k, n.
Qed.

Definition valid_dependency (d : DependencyConfig) : Prop :=
  names_entity (declared_from d) ∧ names_entity (declared_to d) ∧ is_Some (criticality_parse (declared_criticality d)).

Lemma validate_reference_ok declared l f raw parsed :
  only_warnings (validate_reference printable declared l f raw parsed) ↔ is_Some parsed.
Proof.
  unfold validate_reference. destruct parsed as [r|].
  - case_decide; split; intros _; [done|constructor|done|by repeat constructor].
  - split; [by inversion 1|by intros [? ?]].
Qed.

Lemma validate_dependency_ok declared i d :
  only_warnings (validate_dependency printable declared i d) ↔ valid_dependency d.
Proof.
  unfold validate_dependency, valid_dependency. cbv zeta.
  rewrite !Forall_app, !validate_reference_ok, refused, not_given, !names_entity_parses. pose proof warned. naive_solver.
Qed.

(** Settings of TLS that go together. *)
Definition valid_tls (t : TlsConfig) : Prop :=
  (is_Some (tls_cert t) ↔ is_Some (tls_key t)) ∧ (is_Some (tls_client_cert t) ↔ is_Some (tls_client_key t))
  ∧ (is_Some (tls_client_ca t) → is_Some (tls_cert t) ∧ is_Some (tls_key t))
  ∧ ¬ (tls_insecure_skip_verify t = true ∧ is_Some (tls_ca t)).

Lemma tls_problems_none t : tls_problems t = [] ↔ valid_tls t.
Proof.
  unfold tls_problems, valid_tls, serves_tls. rewrite !app_nil, !push_if_nil, !negb_false_iff, !eqb_true_iff.
  rewrite !andb_false_iff, negb_false_iff, andb_true_iff, <- !given_true.
  destruct (given (tls_cert t)), (given (tls_key t)), (given (tls_client_cert t)), (given (tls_client_key t)),
    (given (tls_client_ca t)), (tls_insecure_skip_verify t), (given (tls_ca t)); intuition congruence.
Qed.

Lemma validate_tls_ok t : only_warnings (validate_tls t) ↔ valid_tls t.
Proof.
  unfold validate_tls. rewrite Forall_app, <- tls_problems_none. split.
  - intros [H _]. destruct (tls_problems t); [done|]. by inversion H.
  - intros ->. split; [constructor|apply warned].
Qed.

Lemma validate_retention_ok r : only_warnings (validate_retention r).
Proof.
  unfold validate_retention. destruct (negb _); [by repeat constructor|]. rewrite !Forall_app. split_and!; apply warned.
Qed.

Lemma validate_probe_ok probe s : only_warnings (validate_probe printable probe s) ↔ is_known probe = true.
Proof.
  unfold validate_probe. cbv zeta. destruct (is_known probe); cbn [negb].
  - split; [done|]. intros _. rewrite !Forall_app. split_and!; [| |apply warned].
    + destruct (schedule_interval s); [apply warned|constructor].
    + destruct (schedule_interval s), (schedule_timeout s); first [apply warned|constructor].
  - split; [by inversion 1|done].
Qed.

Lemma validate_probes_ok s : only_warnings (validate_probes printable s) ↔ ∀ probe, is_Some (s !! probe) → is_known probe = true.
Proof.
  unfold validate_probes. rewrite Forall_concat, Forall_fmap, Forall_forall. split.
  - intros H probe [schedule Hs]. apply (validate_probe_ok probe schedule), (H (probe, schedule)). by apply elem_of_btree_entries.
  - intros H [probe schedule] Hin%elem_of_btree_entries. cbn. apply validate_probe_ok, H. by exists schedule.
Qed.

(** ** The check as a whole *)

(** What the check looks at; [unchecked_settings] says what it leaves out. *)
Record accepted (c : Config) : Prop := {
  accepted_environment : trim (config_environment c) ≠ "";
  accepted_listen : valid_endpoint (cc_listen (config_controller c));
  accepted_controller : ∀ address, ac_controller_address (config_agent c) = Some address → valid_endpoint address;
  accepted_entities : Forall valid_entity (config_entities c);
  accepted_declared_once : NoDup (map entity_ref (config_entities c));
  accepted_dependencies : Forall valid_dependency (config_dependencies c);
  accepted_tls : valid_tls (config_tls c);
  accepted_probes : ∀ probe, is_Some (config_probes c !! probe) → is_known probe = true
}.

Lemma validate_accepted c : only_warnings (validate printable c) ↔ accepted c.
Proof.
  unfold validate. pose proof (validate_entities_ok ∅ 0 (config_entities c)) as He.
  destruct (validate_entities _ _ _ _) as [issues declared]. cbn [fst] in He.
  rewrite !Forall_app, refused, not_empty, !validate_endpoint_ok, He, Forall_concat_imap, validate_tls_ok, validate_probes_ok.
  split.
  - intros (? & ? & Hc & _ & (? & ? & _) & Hd & _ & ? & ?). constructor; try done.
    + intros address Ha. rewrite Ha in Hc. by apply validate_endpoint_ok in Hc.
    + apply Forall_lookup. intros i d Hi. by apply (validate_dependency_ok declared i), Hd.
  - intros [? ? Hc ? ? Hd ? ?]. split_and!; try done.
    + destruct (ac_controller_address _) as [a|]; [by apply validate_endpoint_ok, Hc|constructor].
    + apply warned.
    + intros i d Hi. apply validate_dependency_ok. by apply (proj1 (Forall_lookup _ _) Hd i).
    + apply validate_retention_ok.
Qed.
End checks.

(** The check passes a configuration exactly when the environment has a name, the
    address to listen on and the one an agent reports to have a host and a port,
    every entity has a type there is, a name and capabilities that are not blank
    and is declared once, every dependency names two entities of types there are
    and a criticality there is, the settings of TLS go together, and every probe
    it mentions exists. *)
Lemma validation_accepts_iff (printable : N → bool) (c : Config) :
  report_is_ok (validate printable c) = true ↔ accepted c.
Proof. rewrite report_is_ok_iff. apply validate_accepted. Qed.

(** The settings the check does not look at at all. *)
Definition with_unchecked_settings (c : Config) (database agent_listen agent_address : string) (ssh_port : option N)
    (discovery : DiscoverySettings) (notification : NotificationConfig) : Config :=
  let a := config_agent c in
  mk_config (config_version c) (config_environment c) (config_controller c)
    (mk_agent_config (ac_controller_address a) (ac_spool_path a) (ac_roles a) (Some agent_address) (ac_interface a) ssh_port agent_listen)
    database (config_peer_degree c) (config_capabilities c) (config_entities c) (config_dependencies c)
    discovery notification (config_retention c) (config_tls c) (config_probes c).

(** Where an agent listens and how it is reached, where the database is, and where
    notifications go make no difference to what the check says: a configuration
    that passes may still be one no agent starts with, and nobody is told of
    a fault by. *)
Lemma unchecked_settings printable c database agent_listen agent_address ssh_port discovery notification :
  validate printable (with_unchecked_settings c database agent_listen agent_address ssh_port discovery notification) = validate printable c.
Proof. done. Qed.

(** ** What reaches the inventory *)

Section snapshot.
Context `{J : JsonApi} `{U : UuidApi}.

Lemma snapshot_of_entities es s :
  snapshot_entities (foldl add_entity s es)
    = (snapshot_entities s ++ map (λ e, match snapshot_source s with Some source => with_discovery_source e source | None => e end) es)%list
  ∧ snapshot_dependencies (foldl add_entity s es) = snapshot_dependencies s
  ∧ snapshot_source (foldl add_entity s es) = snapshot_source s.
Proof.
  revert s. induction es as [|e es IH]; intros s; cbn [foldl map]; [by rewrite app_nil_r|].
  destruct (IH (add_entity s e)) as (-> & -> & ->). cbn. by rewrite <- app_assoc.
Qed.

Lemma snapshot_of_dependencies ds s :
  snapshot_dependencies (foldl add_dependency s ds)
    = (snapshot_dependencies s ++ map (λ d, match snapshot_source s with Some source => edge_with_discovery_source d source | None => d end) ds)%list
  ∧ snapshot_entities (foldl add_dependency s ds) = snapshot_entities s
  ∧ snapshot_source (foldl add_dependency s ds) = snapshot_source s.
Proof.
  revert s. induction ds as [|d ds IH]; intros s; cbn [foldl map]; [by rewrite app_nil_r|].
  destruct (IH (add_dependency s d)) as (-> & -> & ->). cbn. by rewrite <- app_assoc.
Qed.

Lemma static_snapshot_parts now environment es ds :
  snapshot_entities (static_snapshot now environment es ds)
    = map (λ e, with_discovery_source e StaticConfig) (omap (declared_entity now environment) es)
  ∧ snapshot_dependencies (static_snapshot now environment es ds)
    = map (λ d, edge_with_discovery_source d StaticConfig) (omap (declared_edge_of now environment) ds)
  ∧ snapshot_source (static_snapshot now environment es ds) = Some StaticConfig.
Proof.
  unfold static_snapshot. cbv zeta.
  destruct (snapshot_of_entities (omap (declared_entity now environment) es) (snapshot_new StaticConfig)) as (He & Hd & Hs).
  destruct (snapshot_of_dependencies (omap (declared_edge_of now environment) ds)
              (foldl add_entity (snapshot_new StaticConfig) (omap (declared_entity now environment) es))) as (-> & -> & ->).
  by rewrite He, Hd, Hs.
Qed.

Lemma kept_one_to_one {A B} (f : A → option B) (g : B → B) (R : A → B → Prop) l :
  (∀ x, x ∈ l → ∃ y, f x = Some y ∧ R x (g y)) → Forall2 R l (map g (omap f l)).
Proof.
  induction l as [|x l IH]; intros H; cbn; [constructor|].
  destruct (H x) as (y & -> & Hy); [by left|]. constructor; [done|]. apply IH. intros x' Hx. apply H. by right.
Qed.

Lemma labelled_labels ls e k :
  NoDup ls.*1 → entity_labels (foldl (λ e '(k, v), with_label e k v) e ls) !! k
    = (list_to_map ls : gmap string string) !! k ∪ entity_labels e !! k.
Proof.
  revert e. induction ls as [|[k' v] ls IH]; intros e; cbn [foldl fmap list_fmap].
  - intros _. by rewrite list_to_map_nil, lookup_empty, (left_id_L None _).
  - intros [Hk Hnd]%NoDup_cons. rewrite IH by done. rewrite list_to_map_cons. cbn [entity_labels with_label].
    destruct (decide (k = k')) as [->|Hne]; [|by rewrite !lookup_insert_ne by done].
    rewrite !lookup_insert_eq, not_elem_of_list_to_map_1 by done. by destruct (entity_labels e !! k').
Qed.

Lemma labelled_with ls e :
  entity_labels e = ∅ → entity_labels (foldl (λ e '(k, v), with_label e k v) e (btree_entries ls)) = ls.
Proof.
  intros He. pose proof (btree_entries_perm ls) as Hp.
  assert (NoDup (btree_entries ls).*1) as Hnd by (rewrite Hp; apply NoDup_fst_map_to_list).
  apply map_eq. intros k. rewrite labelled_labels, He, lookup_empty, (right_id_L None _) by done.
  by rewrite (list_to_map_proper _ _ Hnd Hp), list_to_map_to_list.
Qed.

Lemma labelled_rest ls e :
  let e' := foldl (λ e '(k, v), with_label e k v) e ls in
  entity_environment e' = entity_environment e ∧ entity_cluster e' = entity_cluster e ∧ display_name e' = display_name e
  ∧ lifecycle_state e' = lifecycle_state e ∧ discovery_sources e' = discovery_sources e
  ∧ entity_created_at e' = entity_created_at e ∧ entity_updated_at e' = entity_updated_at e.
Proof. revert e. induction ls as [|[k v] ls IH]; intros e; cbn [foldl]; [done|]. apply (IH (with_label e k v)). Qed.

(** An entity that is the one declared, with everything declared of it: the name
    it is shown by, its cluster, its labels and capabilities, and, for whoever
    probes it, its addresses and ports; and nothing that is not. *)
Definition declared_as (now : Timestamp) (environment : string) (d : EntityConfig) (e : ManagedEntity) : Prop :=
  ∃ kind, entity_type_parse (declared_type d) = Some kind ∧ entity_kind e = kind
  ∧ canonical_name e = declared_name d ∧ entity_eid e = entity_id_of environment kind (declared_name d)
  ∧ entity_environment e = environment
  ∧ display_name e = default (declared_name d) (declared_display_name d)
  ∧ entity_cluster e = declared_cluster d ∧ entity_labels e = declared_labels d
  ∧ (∀ c, c ∈ entity_capabilities e ↔ c ∈ declared_capabilities d)
  ∧ omap json_as_str (default [] (json_get (entity_metadata e) "addresses" ≫= json_as_array)) = declared_addresses d
  ∧ (∀ port, json_get (entity_metadata e) "ports" ≫= (λ ports, json_get ports port) = json_of_u64 <$> declared_ports d !! port)
  ∧ (∀ key, is_Some (json_get (entity_metadata e) key) → key = "addresses" ∨ key = "ports")
  ∧ lifecycle_state e = Lifecycle_Active ∧ discovery_sources e = [StaticConfig]
  ∧ entity_created_at e = now ∧ entity_updated_at e = now.

Lemma declared_metadata_reads `{JL : !JsonLaws} d :
  let m := declared_metadata d in
  omap json_as_str (default [] (m !! "addresses" ≫= json_as_array)) = declared_addresses d
  ∧ (∀ port, m !! "ports" ≫= (λ ports, json_get ports port) = json_of_u64 <$> declared_ports d !! port)
  ∧ (∀ key, is_Some (m !! key) → key = "addresses" ∨ key = "ports").
Proof.
  assert (∀ l, omap json_as_str (map json_of_str l) = l) as Hstr.
  { induction l as [|a l IH]; [done|]. cbn. rewrite json_as_str_of. by f_equal. }
  unfold declared_metadata. cbv zeta. split_and!.
  - case_decide; rewrite ?lookup_insert_ne by done; (destruct (declared_addresses d) as [|a l]; [done|]);
      rewrite lookup_singleton_eq; cbn [mbind option_bind]; unfold json_strings; rewrite json_as_array_of; apply Hstr.
  - intros port. case_decide as Hp.
    + rewrite Hp, lookup_empty. destruct (declared_addresses d); [by rewrite lookup_empty|by rewrite lookup_singleton_ne].
    + rewrite lookup_insert_eq. cbn [mbind option_bind]. by rewrite json_get_object, lookup_fmap.
  - intros key [j Hj]. case_decide.
    + destruct (declared_addresses d); [by rewrite lookup_empty in Hj|]. apply lookup_singleton_Some in Hj as [<- _]. by left.
    + apply lookup_insert_Some in Hj as [[<- _]|[_ Hj]]; [by right|].
      destruct (declared_addresses d); [by rewrite lookup_empty in Hj|]. apply lookup_singleton_Some in Hj as [<- _]. by left.
Qed.

Lemma declared_entity_as `{JL : !JsonLaws} now environment d :
  is_Some (entity_type_parse (declared_type d)) →
  ∃ e, declared_entity now environment d = Some e ∧ declared_as now environment d (with_discovery_source e StaticConfig).
Proof.
  intros [kind Hk]. unfold declared_entity. rewrite Hk. cbn [mbind option_bind]. eexists. split; [done|].
  exists kind. split; [done|]. set (b := match declared_cluster d with Some c => _ | None => _ end).
  pose proof (labelled_frame (btree_entries (declared_labels d)) b) as (H1 & H2 & H3 & H4 & H5).
  pose proof (labelled_rest (btree_entries (declared_labels d)) b) as (R1 & R2 & R3 & R4 & R5 & R6 & R7).
  pose proof (labelled_with (declared_labels d) b ltac:(unfold b; by destruct (declared_cluster d), (declared_display_name d))) as Hl.
  set (e0 := foldl _ b _) in *. clearbody e0.
  destruct (declared_metadata_reads d) as (Ha & Hp & Hm).
  assert (∀ e key, e = (if decide (declared_metadata d = ∅) then e0 else with_metadata (json_of_object (declared_metadata d)) e0) →
    json_get (entity_metadata e) key = declared_metadata d !! key) as Hget.
  { intros e key ->. case_decide as Hd; [|apply json_get_object]. rewrite Hd, lookup_empty, H4. unfold b.
    destruct (declared_cluster d), (declared_display_name d); apply json_get_null. }
  set (e := if decide _ then _ else _) in *. specialize (Hget e).
  assert (entity_kind e = entity_kind e0 ∧ canonical_name e = canonical_name e0 ∧ entity_eid e = entity_eid e0
    ∧ entity_environment e = entity_environment e0 ∧ display_name e = display_name e0 ∧ entity_cluster e = entity_cluster e0
    ∧ entity_labels e = entity_labels e0 ∧ entity_capabilities e = entity_capabilities e0 ∧ lifecycle_state e = lifecycle_state e0
    ∧ discovery_sources e = discovery_sources e0 ∧ entity_created_at e = entity_created_at e0 ∧ entity_updated_at e = entity_updated_at e0)
    as (E1 & E2 & E3 & E4 & E5 & E6 & E7 & E8 & E9 & E10 & E11 & E12) by (unfold e; by case_decide).
  clearbody e. cbn. rewrite E1, E2, E3, E4, E5, E6, E7, E8, E9, E10, E11, E12, H1, H2, H3, H5, R1, R2, R3, R4, R5, R6, R7, Hl.
  unfold b. repeat setoid_rewrite Hget; [|done..].
  split_and!; try done; try (by destruct (declared_cluster d), (declared_display_name d)).
  intros c. destruct (declared_cluster d), (declared_display_name d); apply elem_of_list_to_set.
Qed.

(** The edge a declaration comes to: between the entities it names, of the kind
    and as critical as it says. *)
Definition declared_between (now : Timestamp) (environment : string) (d : DependencyConfig) (e : DependencyEdge) : Prop :=
  ∃ source target sk tk,
    split_once "/" (declared_from d) = Some source ∧ split_once "/" (declared_to d) = Some target
    ∧ entity_type_parse source.1 = Some sk ∧ entity_type_parse target.1 = Some tk
    ∧ edge_source e = entity_id_of environment sk source.2 ∧ edge_target e = entity_id_of environment tk target.2
    ∧ criticality_parse (declared_criticality d) = Some (criticality e)
    ∧ dependency_type_as_str (dependency_type e) = declared_dependency_type d
    ∧ edge_id e = uuid_new_v5 EDGE_NAMESPACE (edge_name (edge_source e) (edge_target e) (dependency_type e))
    ∧ edge_discovery_source e = StaticConfig ∧ first_seen_at e = now ∧ last_seen_at e = now.

Lemma declared_edge_between now environment d :
  valid_dependency d →
  ∃ e, declared_edge_of now environment d = Some e ∧ declared_between now environment d (edge_with_discovery_source e StaticConfig).
Proof.
  intros ((k1 & n1 & H1 & _ & [t1 Ht1]) & (k2 & n2 & H2 & _ & [t2 Ht2]) & [c Hc]).
  unfold declared_edge_of, resolve_reference. rewrite H1, H2. cbn [mbind option_bind]. rewrite Ht1, Ht2, Hc.
  cbn [mbind option_bind]. eexists. split; [done|]. exists (k1, n1), (k2, n2), t1, t2. split_and!; try done.
  apply dependency_type_text.
Qed.

(** A reference to what is declared is one end of a known entity. *)
Lemma reference_is_declared `{JL : !JsonLaws} now environment es value kind name k :
  parse_entity_ref value = Some (kind, name) → (kind, name) ∈ map entity_ref es → Forall valid_entity es →
  entity_type_parse kind = Some k →
  entity_id_of environment k name ∈ map entity_eid (map (λ e, with_discovery_source e StaticConfig) (omap (declared_entity now environment) es)).
Proof.
  intros _ (d & [= -> ->] & Hd)%list_elem_of_fmap Hv Hk.
  destruct (declared_entity_as now environment d) as (e & He & k' & Hk' & _ & _ & Hid & _); [by eexists|].
  rewrite Hk in Hk'. injection Hk' as <-. rewrite <- Hid. apply list_elem_of_fmap_2.
  apply (list_elem_of_fmap_2 (λ e, with_discovery_source e StaticConfig)), list_elem_of_omap. by exists d.
Qed.
End snapshot.

Lemma entity_type_of_text s k : entity_type_parse s = Some k → s = entity_type_as_str k.
Proof.
  unfold entity_type_parse.
  repeat match goal with |- (if String.eqb s ?t then _ else _) = _ → _ => destruct (String.eqb_spec s t) as [->|_]; [by intros [= <-]|] end.
  done.
Qed.

Lemma no_issue {A} (l : list A) : l = [] ↔ Forall (λ _, False) l.
Proof. destruct l; split; try done; by inversion 1. Qed.

Lemma declared_as_refs `{J : JsonApi} `{U : UuidApi} now environment ds es :
  Forall2 (declared_as now environment) ds es →
  (λ p, (entity_type_as_str p.1, p.2)) <$> map (λ e, (entity_kind e, canonical_name e)) es = map entity_ref ds.
Proof.
  induction 1 as [|d e ds es (k & Hk%entity_type_of_text & <- & Hn & _) _ IH]; [done|].
  cbn [map fmap list_fmap]. unfold entity_ref at 1. rewrite Hk, <- Hn. f_equal. exact IH.
Qed.

(** Without a remark, both references of a dependency are to what is declared. *)
Lemma unremarked_dependency printable c i d :
  validate printable c = [] → config_dependencies c !! i = Some d →
  Forall (λ r, ∃ ref, parse_entity_ref r = Some ref ∧ ref ∈ map entity_ref (config_entities c)) [declared_from d; declared_to d].
Proof.
  unfold validate. pose proof (validate_entities_declared printable ∅ 0 (config_entities c)) as Hd.
  destruct (validate_entities _ _ _ _) as [issues declared]. cbn [snd] in Hd. rewrite no_issue, !Forall_app, Forall_concat_imap.
  intros (_ & _ & _ & _ & _ & Hall & _) Hi. specialize (Hall i d Hi). unfold validate_dependency in Hall. cbv zeta in Hall.
  rewrite !Forall_app in Hall. destruct Hall as (Hf & Ht & _).
  assert (∀ l f raw, Forall (λ _, False) (validate_reference printable declared l f raw (parse_entity_ref raw)) →
    ∃ ref, parse_entity_ref raw = Some ref ∧ ref ∈ map entity_ref (config_entities c)) as Href.
  { intros l f raw. unfold validate_reference. destruct (parse_entity_ref raw) as [ref|]; [|by inversion 1].
    case_decide as Hin; [|by inversion 1]. intros _. exists ref. split; [done|]. set_solver. }
  repeat constructor; by eapply Href.
Qed.

(** Then every edge ends at what is declared. *)
Lemma unremarked_edge_is_closed `{J : JsonApi} `{JL : !JsonLaws} `{U : UuidApi} (printable : N → bool) now environment (c : Config) e :
  validate printable c = [] → Forall valid_entity (config_entities c) → Forall valid_dependency (config_dependencies c) →
  let declared := map entity_eid (map (λ e, with_discovery_source e StaticConfig) (omap (declared_entity now environment) (config_entities c))) in
  e ∈ map (λ d, edge_with_discovery_source d StaticConfig) (omap (declared_edge_of now environment) (config_dependencies c)) →
  edge_source e ∈ declared ∧ edge_target e ∈ declared.
Proof.
  intros Hclean Hv Hdv declared (e0 & -> & (d & Hin & Hsome)%list_elem_of_omap)%list_elem_of_fmap.
  destruct (declared_edge_between now environment d (proj1 (Forall_forall _ _) Hdv d Hin))
    as (e1 & Hsome' & [k1 n1] & [k2 n2] & t1 & t2 & H1 & H2 & Ht1 & Ht2 & He1 & He2 & _).
  rewrite Hsome in Hsome'. injection Hsome' as <-. rewrite He1, He2. apply list_elem_of_lookup in Hin as [i Hi].
  pose proof (unremarked_dependency _ _ _ _ Hclean Hi) as Hrefs. apply Forall_cons in Hrefs as [(r1 & Hp1 & Hr1) [(r2 & Hp2 & Hr2) _]%Forall_cons].
  destruct r1 as [k1' n1'], r2 as [k2' n2'].
  pose proof (proj1 (parse_entity_ref_spec _ _ _) Hp1) as (Hs1 & _). pose proof (proj1 (parse_entity_ref_spec _ _ _) Hp2) as (Hs2 & _).
  rewrite H1 in Hs1. rewrite H2 in Hs2. injection Hs1 as <- <-. injection Hs2 as <- <-.
  split; [by apply (reference_is_declared now _ _ _ k1 n1 t1 Hp1)|by apply (reference_is_declared now _ _ _ k2 n2 t2 Hp2)].
Qed.

(** C39.  What is declared in a configuration that passes the check is reported
    to the inventory whole: every entity under its own type and name, no two
    under the same, shown by the name, in the cluster and with the labels,
    capabilities, addresses and ports it declares and nothing else; every
    dependency as an edge between the entities it names, of the kind and as
    critical as it says; and when the check has nothing to remark at all, every
    edge ends at entities that are declared. *)
Theorem checked_configuration_is_declared_whole `{J : JsonApi} `{JL : !JsonLaws} `{U : UuidApi}
    (printable : N → bool) (now : Timestamp) (c : Config) :
  report_is_ok (validate printable c) = true →
  let s := static_snapshot now (config_environment c) (config_entities c) (config_dependencies c) in
  snapshot_source s = Some StaticConfig
  ∧ Forall2 (declared_as now (config_environment c)) (config_entities c) (snapshot_entities s)
  ∧ NoDup (map (λ e, (entity_kind e, canonical_name e)) (snapshot_entities s))
  ∧ Forall2 (declared_between now (config_environment c)) (config_dependencies c) (snapshot_dependencies s)
  ∧ (validate printable c = [] → ∀ e, e ∈ snapshot_dependencies s →
       edge_source e ∈ map entity_eid (snapshot_entities s) ∧ edge_target e ∈ map entity_eid (snapshot_entities s)).
Proof.
  rewrite report_is_ok_iff, validate_accepted. intros [_ _ _ Hv Hnd Hdv _ _] s.
  destruct (static_snapshot_parts now (config_environment c) (config_entities c) (config_dependencies c)) as (He & Hd & Hsrc).
  fold s in He, Hd, Hsrc.
  assert (Forall2 (declared_as now (config_environment c)) (config_entities c) (snapshot_entities s)) as Has.
  { rewrite He. apply kept_one_to_one. intros d Hin. apply declared_entity_as, (proj1 (Forall_forall _ _) Hv d Hin). }
  split_and!; [done|done| | |].
  - apply (NoDup_fmap_1 (λ p, (entity_type_as_str p.1, p.2))). by rewrite (declared_as_refs _ _ _ _ Has).
  - rewrite Hd. apply kept_one_to_one. intros d Hin. apply declared_edge_between, (proj1 (Forall_forall _ _) Hdv d Hin).
  - intros Hclean e. rewrite Hd, He. by apply unremarked_edge_is_closed with (printable := printable).
Qed.

(** A configuration with a server, a client and the dependency between them. *)
Definition sample_config : Config :=
  mk_config 1 "lab" controller_default agent_default "/var/lib/sentinel/sentinel.db" 3 ∅
    [mk_entity_config "host" "fs1" (Some "file server") None {[ "rack" := "r1" ]} [] ["192.0.2.10"] {[ "ssh" := 2222%N ]}; mk_entity_config "host" "c1" None None ∅ ["slurm.node"] [] ∅]
    [mk_dependency_config "host/c1" "host/fs1" "depends_on" "critical"]
    discovery_default notification_default retention_default tls_default {[ "host.metrics" := mk_probe_schedule (Some (std_secs 30)) None None None ]}.

Lemma checked_configuration_is_declared_whole_witness :
  validate (λ _, true) sample_config = []
  ∧ map (λ e, (entity_kind e, canonical_name e)) (snapshot_entities (static_snapshot 0 "lab" (config_entities sample_config) (config_dependencies sample_config)))
    = [(Entity_Host, "fs1"); (Entity_Host, "c1")]
  ∧ Forall2 (declared_as 0 "lab") (config_entities sample_config) (snapshot_entities (static_snapshot 0 "lab" (config_entities sample_config) (config_dependencies sample_config)))
  ∧ ∀ e, e ∈ snapshot_dependencies (static_snapshot 0 "lab" (config_entities sample_config) (config_dependencies sample_config)) →
      edge_target e ∈ map entity_eid (snapshot_entities (static_snapshot 0 "lab" (config_entities sample_config) (config_dependencies sample_config))).
Proof.
  assert (validate (λ _, true) sample_config = []) as Hv by (vm_compute; reflexivity).
  assert (report_is_ok (validate (λ _, true) sample_config) = true) as Hok by (by rewrite Hv).
  destruct (checked_configuration_is_declared_whole (λ _, true) 0 sample_config Hok) as (_ & Has & _ & _ & Hclosed).
  split; [exact Hv|]. split; [reflexivity|]. split; [exact Has|]. intros e He. exact (proj2 (Hclosed Hv e He)).
Defined.

(** ** Layers *)

Section layers.
Context {T : Type}.

(** Offering the layers from the lowest to the highest, in any number, ends with
    the value of the highest that has one. *)
Lemma highest_layer_wins (l : Layered T) (offers : list (option T * ValueSource)) :
  let final := foldl (λ l '(value, source), offer l value source) l offers in
  (source_rank (layered_source l) ≤ source_rank (layered_source final))%nat
  ∧ (final = l ∨ (Some (layered_value final), layered_source final) ∈ offers)
  ∧ (∀ value source, (Some value, source) ∈ offers → (source_rank source ≤ source_rank (layered_source final))%nat).
Proof.
  revert l. induction offers as [|[value source] offers IH]; intros l; cbn [foldl].
  - split_and!; [done|by left|by intros ? ? ?%elem_of_nil].
  - assert (source_rank (layered_source l) ≤ source_rank (layered_source (offer l value source))
      ∧ (offer l value source = l ∨ (Some (layered_value (offer l value source)), layered_source (offer l value source)) = (value, source))
      ∧ (∀ v, value = Some v → source_rank source ≤ source_rank (layered_source (offer l value source))))%nat as (Ha & Hb & Hc).
    { unfold offer. destruct value as [v|]; [|by split_and!; [|left|]].
      destruct (Nat.leb_spec (source_rank (layered_source l)) (source_rank source)); cbn; (split_and!; [lia| |intros _ _; lia]); [by right|by left]. }
    destruct (IH (offer l value source)) as (H1 & H2 & H3). split_and!.
    + lia.
    + destruct H2 as [H2|H2]; [|right; by apply elem_of_cons; right]. rewrite H2. destruct Hb as [Hb|Hb]; [left; exact Hb|]. right. by rewrite Hb; left.
    + intros v s [[= Hv ->]|Hin]%elem_of_cons; [specialize (Hc v (eq_sym Hv)); lia|by apply (H3 v)].
Qed.
End layers.

(** ** Periods *)

Section periods.
Variables (humantime_show : StdDuration → string) (humantime_parse : string → StdDuration + string).

(** What [humantime] documents: a number with a unit is that many of it, as long
    as it fits, and what it prints it reads back.  A printed duration starts
    with a digit and has no white space around it. *)
Record humantime_laws : Prop := {
  parses_units n name size : (name, size) ∈ ("s", 1%N) :: whole_units → (n * size ≤ u64_max)%N →
    humantime_parse (show_N n +:+ name) = inl (std_secs (n * size));
  parses_own d : (d ≤ std_duration_max)%N → humantime_parse (humantime_show d) = inl d;
  prints_digit d : ∃ a s, humantime_show d = String a s ∧ is_ascii_digit a = true;
  prints_trimmed d : trim (humantime_show d) = humantime_show d
}.

Lemma digit_is_no_word a s : is_ascii_digit a = true → existsb (eq_ignore_ascii_case (String a s)) FOREVER_WORDS = false.
Proof.
  intros Ha. assert (to_upper a = a) as Hup by (destruct a as [[] [] [] [] [] [] [] []]; vm_compute in Ha |- *; congruence).
  apply not_true_iff_false. rewrite existsb_exists. intros (w & Hw & Heq).
  unfold eq_ignore_ascii_case in Heq. apply String.eqb_eq in Heq. cbn [to_ascii_uppercase] in Heq. rewrite Hup in Heq.
  repeat destruct Hw as [<-|Hw]; [injection Heq as -> _; discriminate Ha..|done].
Qed.

Lemma shown_number_starts n name : ∃ a s, show_N n +:+ name = String a s ∧ is_ascii_digit a = true.
Proof.
  pose proof (all_digits_show_N n) as Hd. pose proof (show_N_nonempty n) as Hne. destruct (show_N n) as [|a s]; [done|].
  exists a, (s +:+ name). split; [done|]. by apply andb_true_iff in Hd as [? _].
Qed.

Lemma number_trimmed n name : all_bytes graphic name = true → trim (show_N n +:+ name) = show_N n +:+ name.
Proof.
  intros Hn. apply trim_graphic. rewrite all_bytes_app, Hn, andb_true_r. apply digits_graphic, all_digits_show_N.
Qed.

Lemma in_whole_units_spec seconds units :
  Forall (λ u, u.2 ≠ 0%N) units →
  ∃ n name size, in_whole_units seconds units = show_N n +:+ name ∧ (name, size) ∈ ("s", 1%N) :: units ∧ (n * size = seconds)%N.
Proof.
  induction units as [|[name size] units IH]; intros Hz; cbn [in_whole_units].
  - exists seconds, "s", 1%N. split_and!; [done|by left|apply N.mul_1_r].
  - apply Forall_cons in Hz as [Hz Hzs]. destruct (N.eqb_spec (seconds mod size) 0) as [Hmod|_].
    + exists (seconds / size)%N, name, size. split_and!; [done|by right; left|]. pose proof (N.div_mod seconds size Hz). lia.
    + destruct (IH Hzs) as (n & nm & sz & -> & Hin & Hn). exists n, nm, sz. split_and!; [done| |done]. set_solver.
Qed.

(** A retention period written to a file is read back as it was, whatever it
    is and whichever unit it is written in. *)
Theorem period_roundtrip (p : RetentionPeriod) :
  humantime_laws → (∀ d, p = KeepFor d → d ≤ std_duration_max)%N →
  parse_period humantime_parse (show_period humantime_show p) = Some p.
Proof.
  intros [Hunits Hown Hdigit Htrim] Hmax. destruct p as [d|]; [|reflexivity]. specialize (Hmax d eq_refl).
  assert (∀ n name size, (name, size) ∈ ("s", 1%N) :: whole_units → all_bytes graphic name = true → d = std_secs (n * size) →
    parse_period humantime_parse (show_N n +:+ name) = Some (KeepFor d)) as Hunit.
  { intros n name size Hin Hg Hd. unfold parse_period. rewrite number_trimmed by done.
    destruct (shown_number_starts n name) as (a & s & Heq & Ha). rewrite Heq, digit_is_no_word, <- Heq by done.
    rewrite (Hunits n name size Hin), <- Hd; [done|]. subst d. unfold std_duration_max, std_secs, nanos_in_second, u64_max in *. revert Hmax. generalize (n * size)%N. lia. }
  cbn [show_period]. unfold format_whole. cbv zeta. destruct (_ || _)%bool eqn:Hodd.
  - unfold parse_period. rewrite Htrim. destruct (Hdigit d) as (a & s & Heq & Ha).
    by rewrite Heq, digit_is_no_word, <- Heq, Hown by done.
  - apply orb_false_iff in Hodd as [Hsub _]. apply negb_false_iff, N.eqb_eq in Hsub.
    assert (d = std_secs (d / nanos_in_second)) as Hd.
    { unfold std_secs. pose proof (N.div_mod d nanos_in_second ltac:(done)) as Hdm. rewrite Hsub in Hdm. lia. }
    destruct (in_whole_units_spec (d / nanos_in_second) whole_units) as (n & name & size & -> & Hin & Hn); [by repeat constructor|].
    apply (Hunit n name size Hin); [|by rewrite Hn].
    revert Hin. clear. unfold whole_units. rewrite !elem_of_cons, elem_of_nil. by intros [[= -> ->]|[[= -> ->]|[[= -> ->]|[[= -> ->]|[]]]]].
Qed.
End periods.

(** A small [humantime]: a number and one letter. *)
Definition unit_nanos (a : ascii) : option N :=
  if decide (a = "n"%char) then Some 1%N else if decide (a = "s"%char) then Some (std_secs 1)
  else if decide (a = "m"%char) then Some (std_secs 60) else if decide (a = "h"%char) then Some (std_secs 3600)
  else if decide (a = "d"%char) then Some (std_secs 86400) else None.

Fixpoint scan_unit (acc : N) (s : string) : option StdDuration :=
  match s with
  | EmptyString => None
  | String a s' =>
      if is_ascii_digit a then scan_unit (acc * 10 + digit_value a) s'
      else if is_empty s' then N.mul acc <$> unit_nanos a else None
  end.

Definition small_show (d : StdDuration) : string := show_N d +:+ "n".
Definition small_parse (s : string) : StdDuration + string := from_option inl (inr s) (scan_unit 0 s).

Lemma scan_unit_digits acc s a :
  all_digits s = true → is_ascii_digit a = false → scan_unit acc (s +:+ String a "") = N.mul (digits_value acc s) <$> unit_nanos a.
Proof.
  intros Hs Ha. revert acc. induction s as [|b s IH]; intros acc.
  { change ("" +:+ String a "") with (String a ""). cbn [scan_unit digits_value]. by rewrite Ha. }
  apply andb_true_iff in Hs as [Hb Hs]. change (String b s +:+ String a "") with (String b (s +:+ String a "")).
  cbn [scan_unit digits_value]. rewrite Hb. by apply IH.
Qed.

Lemma small_humantime : humantime_laws small_show small_parse.
Proof.
  assert (∀ n a k, is_ascii_digit a = false → unit_nanos a = Some k → small_parse (show_N n +:+ String a "") = inl (n * k)%N) as Hparse.
  { intros n a k Ha Hk. unfold small_parse. rewrite scan_unit_digits by (try done; apply all_digits_show_N).
    by rewrite Hk, digits_value_show. }
  constructor.
  - intros n name size Hin _. unfold std_secs. rewrite <- N.mul_assoc. revert Hin. unfold whole_units.
    rewrite !elem_of_cons, elem_of_nil. intros [[= -> ->]|[[= -> ->]|[[= -> ->]|[[= -> ->]|[]]]]]; by apply Hparse.
  - intros d _. unfold small_show. by rewrite (Hparse d "n"%char 1%N), N.mul_1_r.
  - intros d. apply shown_number_starts.
  - intros d. by apply number_trimmed.
Qed.

Lemma period_roundtrip_witness :
  show_period small_show (KeepFor (days 90)) = "90d"
  ∧ parse_period small_parse (show_period small_show (KeepFor (days 90))) = Some (KeepFor (days 90)).
Proof.
  split; [vm_compute; reflexivity|]. apply (period_roundtrip small_show small_parse (KeepFor (days 90)) small_humantime).
  intros d [= <-]. vm_compute. discriminate.
Defined.

(** ** What the check does not see *)

(** An address to listen on that has no port at all, for an agent. *)
Example agent_listen_is_not_checked :
  let c := mk_config 1 "lab" controller_default (mk_agent_config None None [] None None None "nowhere") "db" 3 ∅ [] [] discovery_default
             notification_default retention_default tls_default ∅ in
  validate (λ _, true) c = [].
Proof. vm_compute. reflexivity. Qed.
