(* ===== verification/Webhook.v ===== *)
(** * Webhooks

    [src/notification/provider.rs], the providers of [src/controller/notify.rs]
    and the message of [src/cli/notify_cmd.rs]: what is posted where about a
    notification.  The HTTP client is outside the program: what a request comes
    to is an argument, as are the two ways [chrono] prints a time. *)

From S2P Require Import Lexing SlurmView.
From S2P Require Export Notification Config.

Local Open Scope string_scope.

(** ** Errors *)

Inductive ProviderError :=
  | Provider_Unreachable (destination detail : string)
  | Provider_Rejected (destination : string) (status : N) (detail : string)
  | Provider_Misconfigured (detail : string).

#[export] Instance ProviderError_eq_dec : EqDecision ProviderError.
Proof. solve_decision. Defined.

(** U+3000. *)
Definition wide_space : string := String "227" (String "128" (String "128" "")).

(** [Display]. *)
Definition show_provider_error (e : ProviderError) : string :=
  match e with
  | Provider_Unreachable destination detail => "通知先" +:+ destination +:+ "に接続できません。詳細" +:+ wide_space +:+ detail
  | Provider_Rejected destination status detail =>
      "通知先" +:+ destination +:+ "がHTTP " +:+ show_N status +:+ "を返しました。詳細" +:+ wide_space +:+ detail
  | Provider_Misconfigured detail => "通知先の設定に誤りがあります。詳細" +:+ wide_space +:+ detail
  end.

Definition is_transient (e : ProviderError) : bool :=
  match e with
  | Provider_Unreachable _ _ => true
  | Provider_Rejected _ status _ => (500 <=? status)%N || (status =? 429)%N
  | Provider_Misconfigured _ => false
  end.

(** ** Text *)

Definition SLACK_HEADER_LIMIT : nat := 150.
Definition SLACK_SECTION_LIMIT : nat := 3000.

(** [truncated]. *)
Definition truncated (text : string) (limit : nat) : string :=
  if (count_chars text <=? limit)%nat then text else take_chars (limit - 1) text +:+ "…".

Definition slack_escape (text : string) : string :=
  str_replace ">" "&gt;" (str_replace "<" "&lt;" (str_replace "&" "&amp;" text)).

(** The loop of [grouped_sections]: what is packed, the group being filled, and
    whether something was left out. *)
Record Packed := mk_packed { packed_groups : list string; packed_group : string; packed_omitted : bool }.

Definition pack_part (s : Packed) (part : string) : Packed :=
  if (SLACK_SECTION_LIMIT <? count_chars part)%nat then mk_packed (packed_groups s) (packed_group s) true
  else
    let '(groups, group) :=
      if negb (is_empty (packed_group s)) && (SLACK_SECTION_LIMIT <? count_chars (packed_group s) + 2 + count_chars part)%nat
      then ((packed_groups s ++ [packed_group s])%list, "") else (packed_groups s, packed_group s) in
    mk_packed groups ((if is_empty group then "" else group +:+ newline +:+ newline) +:+ part) (packed_omitted s).

Definition grouped_sections (parts : list string) : list string * bool :=
  let s := foldl pack_part (mk_packed [] "" false) parts in
  ((if is_empty (packed_group s) then packed_groups s else packed_groups s ++ [packed_group s])%list, packed_omitted s).

(** [action_description]. *)
Definition broken_at_stops (text : string) : string := trim_end_char "010" (str_replace "。" ("。" +:+ newline) text).

Definition action_description (description : string) : string :=
  match split_once "で、" description with
  | Some (location, check_) => "実行先" +:+ wide_space +:+ location +:+ newline +:+ broken_at_stops check_
  | None => broken_at_stops description
  end.

(** The words [action_elements] takes for a command. *)
Definition COMMAND_WORDS : list string :=
  ["sudo"; "sentinel"; "systemctl"; "journalctl"; "scontrol"; "sinfo"; "ss"; "ip"; "ping"; "ssh"; "curl"; "nc"; "cat";
   "ls"; "df"; "ps"; "pgrep"; "findmnt"; "mount"; "exportfs"; "nvidia-smi"; "timeout"].

Definition is_command (action : string) : bool :=
  bool_decide (default "" (head (split_whitespace action)) ∈ COMMAND_WORDS).

(** What an action says and the command it gives. *)
Definition action_parts (action : string) : string * option string :=
  if is_command action then ("確認コマンド", Some action)
  else match split_once newline action with
       | Some (description, command) => (description, Some command)
       | None => (action, None)
       end.

(** ** Blocks *)

Section blocks.
Context `{J : JsonApi}.

Definition plain_text (text : string) : json :=
  json_object [("type", json_of_str "plain_text"); ("text", json_of_str text); ("emoji", json_of_bool false)].

Definition plain_section (text : string) : json :=
  json_object [("type", json_of_str "section"); ("text", plain_text text)].

Definition text_element (text : string) : json := json_object [("type", json_of_str "text"); ("text", json_of_str text)].

Definition rich_section (text : string) : json :=
  json_object [("type", json_of_str "rich_text_section"); ("elements", json_of_array [text_element text])].

Definition preformatted (command : string) : json :=
  json_object [("type", json_of_str "rich_text_preformatted"); ("elements", json_of_array [text_element command])].

Definition rich_text (elements : list json) : json :=
  json_object [("type", json_of_str "rich_text"); ("elements", json_of_array elements)].

(** [action_elements]. *)
Definition action_elements (action : string) (number : option nat) : list json :=
  let '(description, command) := action_parts action in
  let description := action_description description in
  let description := match number with Some n => show_nat n +:+ ". " +:+ description | None => description end in
  rich_section description ::
  match command with
  | Some command => if is_empty (trim command) then [] else [preformatted command]
  | None => []
  end.

(** The characters in the texts of an element. *)
Definition element_length (element : json) : nat :=
  sum_list (omap (λ e, count_chars <$> (json_get e "text" ≫= json_as_str))
              (default [] (json_get element "elements" ≫= json_as_array))).

Definition elements_length (elements : list json) : nat :=
  (sum_list (map element_length elements) + (length elements - 1))%nat.

(** The loop of [grouped_actions]. *)
Record PackedActions := mk_packed_actions {
  action_groups : list json;
  action_group : list json;
  group_length : nat;
  actions_omitted : bool
}.

Definition pack_action (s : PackedActions) (numbered : nat * string) : PackedActions :=
  let '(index, action) := numbered in
  let elements := action_elements action (Some (S index)) in
  let length := elements_length elements in
  if (SLACK_SECTION_LIMIT <? length)%nat
  then mk_packed_actions (action_groups s) (action_group s) (group_length s) true
  else
    let '(groups, group, filled) :=
      if negb (bool_decide (action_group s = [])) && (SLACK_SECTION_LIMIT <? group_length s + 3 + length)%nat
      then ((action_groups s ++ [rich_text (action_group s)])%list, [], 0%nat)
      else (action_groups s, action_group s, group_length s) in
    if decide (group = []) then mk_packed_actions groups elements (filled + length) (actions_omitted s)
    else mk_packed_actions groups (group ++ [rich_section newline] ++ elements) (filled + (length + 3)) (actions_omitted s).

Definition grouped_actions (actions : list string) : list json * bool :=
  let s := foldl pack_action (mk_packed_actions [] [] 0 false) (imap pair actions) in
  ((if decide (action_group s = []) then action_groups s else action_groups s ++ [rich_text (action_group s)])%list,
   actions_omitted s).

(** ** The payloads *)

(** [WebhookProvider::message]. *)
Definition message (n : Notification) : string :=
  let text := notif_title n +:+ newline +:+ newline +:+ notif_body n in
  match notif_actions n with
  | [] => text
  | actions =>
      let text := if ends_with (newline +:+ newline) text then text
                  else text +:+ (if ends_with newline text then newline else newline +:+ newline) in
      text +:+ "確認手順" +:+ newline
      +:+ str_join "" (imap (λ i action, show_nat (S i) +:+ ". " +:+ action +:+ newline) actions)
  end.

Definition color (n : Notification) : string :=
  match notif_trigger n with
  | Trigger_Resolved => "#2e7d32"
  | Trigger_Recovering => "#f9a825"
  | _ => match notif_severity n with
         | Severity_Critical => "#d32f2f"
         | Severity_Warning => "#f9a825"
         | Severity_Info => "#546e7a"
         end
  end.

Definition mentions_channel (n : Notification) : bool :=
  bool_decide (notif_severity n = Severity_Critical) && negb (is_recovery (notif_trigger n)).

Definition notif_summary (n : Notification) : string :=
  match split_once " / " (notif_title n) with
  | Some (_, rest) => rest
  | None => match split_once ": " (notif_title n) with Some (_, rest) => rest | None => notif_title n end
  end.

(** [Display] and [Serialize] of a [DateTime<Utc>]. *)
Variables (display_utc : Timestamp → string) (json_of_time : Timestamp → json).

(** The pieces of [slack_payload], in the order they are put together. *)
Definition mention_block : json :=
  json_object [("type", json_of_str "section");
               ("text", json_object [("type", json_of_str "mrkdwn"); ("text", json_of_str "<!channel>"); ("verbatim", json_of_bool true)])].

Definition header_block (n : Notification) : json :=
  let heading := match split_once " / " (notif_title n) with
                 | Some (heading, _) => heading
                 | None => heading_for (notif_trigger n) (notif_severity n)
                 end in
  json_object [("type", json_of_str "header"); ("text", plain_text (truncated heading SLACK_HEADER_LIMIT))].

Definition omission_notice (n : Notification) : json :=
  let details := sentinel_command ("incident show " +:+ quote (notif_incident_id n)) in
  rich_text (action_elements (step "Sentinel controller" "表示上限のため、一部を省略しました。次のコマンドで確認手順の全文を表示してください" details) None).

Definition context_block (n : Notification) : json :=
  json_object [("type", json_of_str "context");
               ("elements", json_of_array
                  [plain_text (truncated ("Cluster Sentinel / 障害ID " +:+ notif_incident_id n +:+ " / " +:+ display_utc (notif_created_at n))
                                 SLACK_SECTION_LIMIT)])].

Definition body_paragraphs (n : Notification) : list string :=
  filter (λ p, is_empty (trim p) = false) (str_split (newline +:+ newline) (notif_body n)).

(** What comes before the actions, and whether some of the body was left out. *)
Definition slack_head (n : Notification) : list json * bool :=
  let '(body, omitted) := grouped_sections (body_paragraphs n) in
  ((push_if (mentions_channel n) mention_block ++ [header_block n]
    ++ push_if (is_empty (trim (notif_body n))) (plain_section (truncated (notif_summary n) SLACK_SECTION_LIMIT))
    ++ map plain_section (take 10 body))%list,
   omitted || (10 <? length body)%nat).

(** With the actions. *)
Definition slack_main (n : Notification) : list json * bool :=
  let '(blocks, omitted) := slack_head n in
  match notif_actions n with
  | [] => (blocks, omitted)
  | actions =>
      let blocks := (blocks ++ [plain_section "確認手順"])%list in
      let '(groups, actions_omitted) := grouped_actions actions in
      let available := (50 - (length blocks + 2))%nat in
      ((blocks ++ take available groups)%list, omitted || (actions_omitted || (available <? length groups)%nat))
  end.

Definition slack_blocks (n : Notification) : list json :=
  let '(blocks, omitted) := slack_main n in
  (blocks ++ push_if omitted (omission_notice n) ++ [context_block n])%list.

Definition slack_preview (n : Notification) : string :=
  let fallback := slack_escape (notif_title n) in
  truncated (if mentions_channel n then "<!channel>" +:+ newline +:+ fallback else fallback) SLACK_SECTION_LIMIT.

(** [WebhookProvider::slack_payload]. *)
Definition slack_payload (n : Notification) : json :=
  json_object [("unfurl_links", json_of_bool false); ("unfurl_media", json_of_bool false);
    ("attachments", json_of_array
       [json_object [("color", json_of_str (color n)); ("fallback", json_of_str (slack_preview n));
                     ("blocks", json_of_array (slack_blocks n))]])].

(** [WebhookProvider::payload]. *)
Definition generic_payload (n : Notification) : json :=
  json_object [("source", json_of_str "cluster-sentinel"); ("incident_id", json_of_str (notif_incident_id n));
    ("fingerprint", json_of_str (notif_fingerprint n)); ("trigger", json_of_str (trigger_as_str (notif_trigger n)));
    ("severity", json_of_str (severity_as_str (notif_severity n)));
    ("resolved", json_of_bool (bool_decide (notif_trigger n = Trigger_Resolved)));
    ("title", json_of_str (notif_title n)); ("body", json_of_str (notif_body n));
    ("recommended_actions", json_strings (notif_actions n)); ("timestamp", json_of_time (notif_created_at n));
    ("text", json_of_str (message n)); ("content", json_of_str (message n))].

(** [WebhookProvider::payload_for]. *)
Definition payload_for (format : WebhookFormat) (n : Notification) : json :=
  match format with Format_Slack => slack_payload n | Format_Generic => generic_payload n end.

(** ** The provider *)

(** [WebhookProvider]; the client it holds is outside the program. *)
Record WebhookProvider := mk_webhook { webhook_name : string; webhook_url : string; webhook_format : WebhookFormat }.

(** [WebhookProvider::new]; [client] is what building the client comes to. *)
Definition webhook_new (name url : string) (client : unit + string) : WebhookProvider + ProviderError :=
  if negb (starts_with "http://" url) && negb (starts_with "https://" url)
  then inr (Provider_Misconfigured (url +:+ "はhttp(s)のURLではありません"))
  else match client with
       | inl _ => inl (mk_webhook name url Format_Generic)
       | inr detail => inr (Provider_Misconfigured detail)
       end.

Definition with_format (p : WebhookProvider) (f : WebhookFormat) : WebhookProvider := mk_webhook (webhook_name p) (webhook_url p) f.

(** What a request comes to: no answer, or a status and its body. *)
Inductive HttpAnswer := Http_None (detail : string) | Http_Status (status : N) (body : option string).

(** [WebhookProvider::send], and what is posted. *)
Definition send_notification (post : string → json → HttpAnswer) (p : WebhookProvider) (n : Notification) : unit + ProviderError :=
  match post (webhook_url p) (payload_for (webhook_format p) n) with
  | Http_None detail => inr (Provider_Unreachable (webhook_url p) detail)
  | Http_Status status body =>
      if (200 <=? status)%N && (status <? 300)%N then inl tt
      else inr (Provider_Rejected (webhook_url p) status (take_chars 200 (default "" body)))
  end.

(** [providers_from_config]; the client is built for each destination. *)
Definition providers_from_config (client : WebhookConfig → unit + string) (c : Config) : list WebhookProvider :=
  omap (λ hook, match webhook_new (hook_name hook) (hook_url hook) (client hook) with
                | inl p => Some (with_format p (hook_format hook))
                | inr _ => None
                end) (nc_webhooks (config_notification c)).

(** [test_notification] and [test] of [notify_cmd.rs]: the result of each
    provider, and the exit code. *)
Definition test_notification (now : Timestamp) (severity : Severity) : Notification :=
  {| notif_incident_id := "00000000-0000-0000-0000-000000000000"; notif_fingerprint := "sentinel-test-notification";
     notif_trigger := Trigger_Opened; notif_severity := severity; notif_title := "通知テスト / Cluster Sentinel";
     notif_body := "sudo -u sentinel sentinel notify testで送ったテスト通知です。" +:+ newline
       +:+ "障害を検出した通知ではありません。" +:+ newline +:+ "このcontrollerから通知先への配信を確認しています。";
     notif_actions := ["通知が届いたことを確認してください。障害への対応は不要です。"];
     notif_created_at := now; notif_event_id := None |}.

Definition send_test (post : string → json → HttpAnswer) (client : WebhookConfig → unit + string) (now : Timestamp) (c : Config)
    (provider_name : option string) (severity : option string) : option (list (string * (unit + ProviderError)) * N) :=
  severity ← match severity with Some text => severity_parse text | None => Some Severity_Warning end;
  let providers := filter (λ p, provider_name = None ∨ provider_name = Some (webhook_name p))
                     (providers_from_config client c) in
  let results := map (λ p, (webhook_name p, send_notification post p (test_notification now severity))) providers in
  match providers with
  | [] => Some ([], 1%N)
  | _ => Some (results, if bool_decide (Forall (λ r, r.2 = inl tt) results) then 0%N else 2%N)
  end.
End blocks.
