(* ===== verification/WebhookSpec.v ===== *)
(** * Webhooks: what a message promises

    A message to Slack says everything the notification says or says where to
    find it, stays within the limits Slack rejects a message for, and nobody is
    called out for anything but a critical fault. *)

From S2P Require Import Concrete.
From S2P Require Export Lexing Webhook ProbesSpec ConfigSpec.

Local Open Scope string_scope.

(** ** Text *)

Lemma string_app_cons a s t : String a s +:+ t = String a (s +:+ t).
Proof. done. Qed.

Lemma count_chars_app s t : count_chars (s +:+ t) = (count_chars s + count_chars t)%nat.
Proof. induction s as [|a s IH]; [done|]. rewrite string_app_cons. cbn [count_chars]. rewrite IH. lia. Qed.

Lemma truncated_bound text limit : (0 < limit)%nat → (count_chars (truncated text limit) ≤ limit)%nat.
Proof.
  intros Hl. unfold truncated. destruct (Nat.leb_spec (count_chars text) limit) as [H|H]; [done|].
  rewrite count_chars_app. pose proof (take_chars_bound (limit - 1) text). change (count_chars "…") with 1%nat. lia.
Qed.

Lemma string_mem_app c s t : string_mem c (s +:+ t) = string_mem c s || string_mem c t.
Proof. induction s as [|a s IH]; [done|]. rewrite string_app_cons. cbn [string_mem]. by rewrite IH, orb_assoc. Qed.

Lemma string_mem_take_chars c n s : string_mem c s = false → string_mem c (take_chars n s) = false.
Proof.
  revert n. induction s as [|a s IH]; intros n; cbn; [done|]. intros [Ha Hs]%orb_false_iff.
  destruct (is_continuation a); [cbn; by rewrite Ha, IH|]. destruct n; [done|]. cbn. by rewrite Ha, IH.
Qed.

Lemma split_once_Some p s l r : split_once p s = Some (l, r) → s = l +:+ p +:+ r.
Proof.
  revert l r. induction s as [|a s IH]; intros l r; cbn [split_once].
  - destruct (str_strip_prefix p "") as [r'|] eqn:Hp; [|done]. intros [= <- <-]. by apply str_strip_prefix_Some in Hp.
  - destruct (str_strip_prefix p (String a s)) as [r'|] eqn:Hp.
    + intros [= <- <-]. by apply str_strip_prefix_Some in Hp.
    + destruct (split_once p s) as [[l' r']|] eqn:Hs; [|done]. intros [= <- <-]. rewrite string_app_cons. f_equal. by apply IH.
Qed.

Lemma split_once_byte c s :
  match split_once (String c "") s with Some (l, _) => string_mem c l = false | None => string_mem c s = false end.
Proof.
  induction s as [|a s IH]; cbn; [done|]. destruct (decide (c = a)) as [->|Hne]; cbn.
  - done.
  - destruct (split_once (String c "") s) as [[l r]|]; cbn; rewrite bool_decide_eq_false_2 by done; exact IH.
Qed.

Lemma replace_keeps_out c p r s : string_mem c r = false → string_mem c s = false → string_mem c (str_replace p r s) = false.
Proof.
  intros Hr. unfold str_replace. generalize (String.length s). intros fuel. revert s.
  induction fuel as [|f IH]; intros s Hs; cbn; [done|]. destruct (split_once p s) as [[l rest]|] eqn:Hsp; [|done].
  apply split_once_Some in Hsp as ->. rewrite !string_mem_app, !orb_false_iff in Hs. destruct Hs as (Hl & _ & Hrest).
  by rewrite !string_mem_app, Hl, Hr, IH.
Qed.

(** What is replaced is gone. *)
Lemma replace_puts_out c r s : string_mem c r = false → string_mem c (str_replace (String c "") r s) = false.
Proof.
  intros Hr. unfold str_replace. assert (String.length s ≤ String.length s)%nat as Hf by done. revert Hf.
  generalize (String.length s) at 2 3. intros fuel. revert s. induction fuel as [|f IH]; intros s Hf; cbn [replace_fuel].
  - by destruct s; cbn in Hf; [|lia].
  - pose proof (split_once_byte c s) as Hc. destruct (split_once (String c "") s) as [[l rest]|] eqn:Hsp; [|done].
    apply split_once_Some in Hsp as ->. rewrite !string_mem_app, Hc, Hr. apply IH.
    rewrite !string_length_app in Hf. cbn in Hf. lia.
Qed.

Lemma escaped_has_no_brackets s : string_mem "<" (slack_escape s) = false ∧ string_mem ">" (slack_escape s) = false.
Proof.
  unfold slack_escape. split.
  - apply replace_keeps_out; [done|]. by apply replace_puts_out.
  - by apply replace_puts_out.
Qed.

Lemma split_once_byte_app c l r : string_mem c l = false → split_once (String c "") (l +:+ String c r) = Some (l, r).
Proof.
  induction l as [|a l IH].
  - intros _. change ("" +:+ String c r) with (String c r). cbn. by destruct (decide (c = c)).
  - rewrite string_app_cons. cbn [string_mem]. intros [Ha Hl]%orb_false_iff. apply bool_decide_eq_false in Ha.
    cbn [split_once str_strip_prefix]. destruct (decide (c = a)) as [->|_]; [done|]. by rewrite (IH Hl).
Qed.

(** A text without its line breaks. *)
Fixpoint unbroken (s : string) : string :=
  match s with
  | "" => ""
  | String a s => if decide (a = "010"%char) then unbroken s else String a (unbroken s)
  end.

Lemma unbroken_app s t : unbroken (s +:+ t) = unbroken s +:+ unbroken t.
Proof. induction s as [|a s IH]; [done|]. rewrite string_app_cons. cbn [unbroken]. rewrite IH. by destruct (decide _). Qed.

Lemma unbroken_trim_end s : unbroken (trim_end_char "010" s) = unbroken s.
Proof.
  induction s as [|a s IH]; [done|]. cbn [trim_end_char]. destruct (trim_end_char "010" s) as [|b s'] eqn:Ht.
  - cbn [unbroken] in *. rewrite <-IH. destruct (decide (a = "010"%char)) as [->|Hne]; [done|]. cbn [unbroken]. by destruct (decide (a = _)).
  - cbn [unbroken] in *. by rewrite <-IH.
Qed.

Lemma unbroken_replace p r s : unbroken r = unbroken p → unbroken (str_replace p r s) = unbroken s.
Proof.
  intros Hr. unfold str_replace. generalize (String.length s). intros fuel. revert s.
  induction fuel as [|f IH]; intros s; cbn [replace_fuel]; [done|]. destruct (split_once p s) as [[l rest]|] eqn:Hsp; [|done].
  apply split_once_Some in Hsp as ->. by rewrite !unbroken_app, Hr, IH.
Qed.

Lemma unbroken_stops s : unbroken (broken_at_stops s) = unbroken s.
Proof. unfold broken_at_stops. rewrite unbroken_trim_end. apply unbroken_replace. by vm_compute. Qed.

(** ** Packing *)

(** A part that is kept is part of a group, and a group is within the limit. *)
Definition holds_part (part group : string) : Prop := ∃ before after, group = before +:+ part +:+ after.

Lemma holds_part_app part group tail : holds_part part group → holds_part part (group +:+ tail).
Proof. intros (b & a & ->). exists b, (a +:+ tail). by rewrite <- !string_app_assoc. Qed.

Record packed_wf (seen : list string) (s : Packed) : Prop := {
  packed_within : Forall (λ g, count_chars g ≤ SLACK_SECTION_LIMIT)%nat (packed_group s :: packed_groups s);
  packed_kept : ∀ p, p ∈ seen → (count_chars p ≤ SLACK_SECTION_LIMIT)%nat → Exists (holds_part p) (packed_group s :: packed_groups s);
  packed_left_out : packed_omitted s = true ↔ Exists (λ p, SLACK_SECTION_LIMIT < count_chars p)%nat seen
}.

Lemma pack_part_wf seen s p : packed_wf seen s → packed_wf (seen ++ [p]) (pack_part s p).
Proof.
  intros [Hw Hk Ho]. unfold pack_part. apply Forall_cons in Hw as [Hg Hgs].
  destruct (Nat.ltb_spec SLACK_SECTION_LIMIT (count_chars p)) as [Hlong|Hshort].
  - constructor; cbn [packed_group packed_groups packed_omitted].
    + by constructor.
    + intros q [Hq| ->%list_elem_of_singleton]%elem_of_app Hlen; [by apply Hk|lia].
    + split; [|done]. intros _. apply Exists_app. right. by constructor.
  - destruct (negb (is_empty (packed_group s)) && _)%bool eqn:Hfull.
    + constructor; cbn [packed_group packed_groups packed_omitted is_empty String.eqb].
      * constructor; [exact Hshort|]. apply Forall_app. split; [done|by constructor].
      * intros q [Hq| ->%list_elem_of_singleton]%elem_of_app Hlen.
        -- right. rewrite Exists_app, Exists_cons. specialize (Hk q Hq Hlen). rewrite Exists_cons in Hk. tauto.
        -- left. exists "", "". by rewrite string_app_nil_r.
      * rewrite Ho, Exists_app, Exists_cons, Exists_nil. lia || (split; [tauto|]; intros [?|[?|[]]]; [done|lia]).
    + constructor; cbn [packed_group packed_groups packed_omitted].
      * constructor; [|done]. apply andb_false_iff in Hfull. destruct (is_empty (packed_group s)) eqn:He; [exact Hshort|].
        destruct Hfull as [?|Hfull%Nat.ltb_ge]; [done|]. rewrite !count_chars_app. change (count_chars newline) with 1%nat. lia.
      * intros q [Hq| ->%list_elem_of_singleton]%elem_of_app Hlen.
        -- specialize (Hk q Hq Hlen). apply Exists_cons in Hk as [Hk|Hk]; [left|by right].
           destruct (is_empty (packed_group s)) eqn:He; [|by do 2 apply holds_part_app].
           apply String.eqb_eq in He. rewrite He in Hk. destruct Hk as (b & a & Hk). destruct b; [|done]. destruct q; [|done].
           exists "", p. done.
        -- left. eexists _, "". by rewrite string_app_nil_r.
      * rewrite Ho, Exists_app, Exists_cons, Exists_nil. split; [tauto|]. intros [?|[?|[]]]; [done|lia].
Qed.

Lemma packed_parts parts : packed_wf parts (foldl pack_part (mk_packed [] "" false) parts).
Proof.
  induction parts as [|p parts IH] using rev_ind; [|rewrite foldl_snoc; by apply pack_part_wf].
  constructor; cbn.
  - constructor; [apply Nat.le_0_l|constructor].
  - by intros p ?%elem_of_nil.
  - by rewrite Exists_nil.
Qed.

Lemma grouped_sections_spec parts :
  let '(groups, omitted) := grouped_sections parts in
  Forall (λ g, count_chars g ≤ SLACK_SECTION_LIMIT)%nat groups
  ∧ (omitted = false → ∀ p, p ∈ parts → is_empty p = false → ∃ g, g ∈ groups ∧ holds_part p g).
Proof.
  unfold grouped_sections. destruct (packed_parts parts) as [Hw Hk Ho]. set (s := foldl _ _ _) in *.
  apply Forall_cons in Hw as [Hg Hgs]. split.
  - destruct (is_empty (packed_group s)); [done|]. apply Forall_app. split; [done|by constructor].
  - intros Hom p Hp Hne. assert (count_chars p ≤ SLACK_SECTION_LIMIT)%nat as Hlen.
    { apply Nat.nlt_ge. intros Hlong. assert (packed_omitted s = true); [|congruence]. apply Ho, Exists_exists. by exists p. }
    specialize (Hk p Hp Hlen). apply Exists_cons in Hk as [Hk|(g & Hin & Hk)%Exists_exists].
    + exists (packed_group s). split; [|done]. destruct (is_empty (packed_group s)) eqn:He; [|apply elem_of_app; right; by left].
      apply String.eqb_eq in He. rewrite He in Hk. destruct Hk as (b & a & Hk). by destruct b, p.
    + exists g. split; [|done]. destruct (is_empty (packed_group s)); [done|]. apply elem_of_app. by left.
Qed.

(** The same for the actions: complete, in one block, and within the limit. *)
Section actions.
Context `{J : JsonApi}.

Definition total_length (elements : list json) : nat := sum_list (map element_length elements).

(** The text a JSON object carries itself, and the objects inside it. *)
Definition own_text (j : json) : option string := json_get j "text" ≫= json_as_str.
Definition child_elements (j : json) : list json := default [] (json_get j "elements" ≫= json_as_array).

(** An element of rich text has its texts one level down. *)
Definition is_rich (e : json) : Prop := own_text e = None.

(** What an action takes up. *)
Definition action_length (numbered : nat * string) : nat := elements_length (action_elements numbered.2 (Some (S numbered.1))).

Definition holds_action (numbered : nat * string) (elements : list json) : Prop :=
  ∃ before after, elements = (before ++ action_elements numbered.2 (Some (S numbered.1)) ++ after)%list.

Lemma total_length_app l k : total_length (l ++ k) = (total_length l + total_length k)%nat.
Proof. unfold total_length. rewrite map_app. induction (map element_length l) as [|n ns IH]; cbn; [done|]. rewrite IH. lia. Qed.

(** The groups so far, with the one being filled. *)
Record packed_actions_wf (seen : list (nat * string)) (s : PackedActions) (done_groups : list (list json)) : Prop := {
  pa_groups : action_groups s = map rich_text done_groups;
  pa_length : (total_length (action_group s) ≤ group_length s)%nat ∧ (group_length s ≤ SLACK_SECTION_LIMIT)%nat;
  pa_empty : action_group s = [] → group_length s = 0%nat;
  pa_within : Forall (λ g, total_length g ≤ SLACK_SECTION_LIMIT)%nat done_groups;
  pa_kept : ∀ a, a ∈ seen → (action_length a ≤ SLACK_SECTION_LIMIT)%nat → Exists (holds_action a) (action_group s :: done_groups);
  pa_left_out : actions_omitted s = true ↔ Exists (λ a, SLACK_SECTION_LIMIT < action_length a)%nat seen;
  pa_rich : Forall (Forall is_rich) (action_group s :: done_groups)
}.

Lemma action_elements_nonempty action number : action_elements action number ≠ [].
Proof. unfold action_elements. by destruct (action_parts action). Qed.

Context `{JL : !JsonLaws}.

Lemma element_length_of kind text :
  element_length (json_object [("type", json_of_str kind); ("elements", json_of_array [text_element text])]) = count_chars text.
Proof.
  unfold element_length. read_field. cbn. rewrite json_as_array_of. cbn. unfold text_element. read_field. cbn.
  rewrite json_as_str_of. cbn. lia.
Qed.

Lemma rich_section_rich text : is_rich (rich_section text).
Proof. unfold is_rich, own_text, rich_section. by read_field. Qed.

Lemma action_elements_rich action number : Forall is_rich (action_elements action number).
Proof.
  unfold action_elements. destruct (action_parts action) as [description [command|]]; (constructor; [apply rich_section_rich|]); [|done].
  destruct (is_empty _); [done|]. constructor; [|done]. unfold is_rich, own_text, preformatted. by read_field.
Qed.

Lemma pack_action_wf seen s a groups :
  packed_actions_wf seen s groups → ∃ groups', packed_actions_wf (seen ++ [a]) (pack_action s a) groups'.
Proof.
  destruct a as [i action]. intros [Hg [Ht Hl] Hz Hw Hk Ho Hr]. unfold pack_action.
  set (elements := action_elements action (Some (S i))). fold (action_length (i, action)).
  change (elements_length elements) with (action_length (i, action)).
  assert (total_length elements ≤ action_length (i, action))%nat as Htot by (subst elements; unfold action_length, elements_length, total_length; cbn [fst snd]; lia).
  assert (holds_action (i, action) elements) as Hself by (exists [], []; by rewrite app_nil_r).
  assert (Forall is_rich elements) as Hre by apply action_elements_rich. apply Forall_cons in Hr as [Hrg Hrgs].
  destruct (Nat.ltb_spec SLACK_SECTION_LIMIT (action_length (i, action))) as [Hlong|Hshort].
  { exists groups. constructor; cbn [action_groups action_group group_length actions_omitted]; try done.
    - intros b [Hb| ->%list_elem_of_singleton]%elem_of_app Hlen; [by apply Hk|lia].
    - split; [|done]. intros _. apply Exists_app. right. by constructor.
    - by constructor. }
  assert (actions_omitted s = true ↔ Exists (λ a, SLACK_SECTION_LIMIT < action_length a)%nat (seen ++ [(i, action)])) as Hom.
  { rewrite Ho, Exists_app, Exists_cons, Exists_nil. split; [tauto|]. intros [?|[?|[]]]; [done|lia]. }
  destruct (negb _ && _)%bool eqn:Hfull.
  - rewrite decide_True by done. exists (groups ++ [action_group s])%list.
    constructor; cbn [action_groups action_group group_length actions_omitted].
    + by rewrite Hg, map_app.
    + cbn [plus]. lia.
    + intros He. by apply action_elements_nonempty in He.
    + apply Forall_app. split; [done|]. constructor; [lia|done].
    + intros b [Hb| ->%list_elem_of_singleton]%elem_of_app Hlen; [|by left].
      right. rewrite Exists_app, Exists_cons. specialize (Hk b Hb Hlen). rewrite Exists_cons in Hk. tauto.
    + exact Hom.
    + constructor; [done|]. apply Forall_app. split; [done|by constructor].
  - apply andb_false_iff in Hfull. destruct (decide (action_group s = [])) as [He|He].
    + exists groups. constructor; cbn [action_groups action_group group_length actions_omitted]; [done| | |done| |exact Hom|by constructor].
      * rewrite (Hz He). cbn [plus]. lia.
      * intros Hn. by apply action_elements_nonempty in Hn.
      * intros b [Hb| ->%list_elem_of_singleton]%elem_of_app Hlen; [|by left].
        specialize (Hk b Hb Hlen). apply Exists_cons in Hk as [(before & after & Hk)|Hk]; [|by right].
        rewrite He in Hk. symmetry in Hk. apply app_eq_nil in Hk as [_ Hk]. apply app_eq_nil in Hk as [Hk _]. by apply action_elements_nonempty in Hk.
    + rewrite (bool_decide_eq_false_2 _ He) in Hfull. destruct Hfull as [?|Hfull%Nat.ltb_ge]; [done|].
      exists groups. constructor; cbn [action_groups action_group group_length actions_omitted]; [done| | |done| |exact Hom|]; [|by intros [? _]%app_eq_nil| |].
      * rewrite !total_length_app. unfold total_length at 2. cbn [map sum_list foldr].
        unfold rich_section at 1. rewrite element_length_of. change (count_chars newline) with 1%nat. cbn. lia.
      * intros b [Hb| ->%list_elem_of_singleton]%elem_of_app Hlen.
        -- specialize (Hk b Hb Hlen). apply Exists_cons in Hk as [(before & after & ->)|Hk]; [left|by right].
           exists before, (after ++ [rich_section newline] ++ elements)%list. by rewrite <- !app_assoc.
        -- left. exists (action_group s ++ [rich_section newline])%list, []. by rewrite app_nil_r, <- app_assoc.
      * constructor; [|done]. rewrite !Forall_app. split; [done|]. split; [|done]. constructor; [apply rich_section_rich|done].
Qed.
End actions.

(** ** The message *)

Section message.
Context `{J : JsonApi} `{JL : !JsonLaws}.
Variable display_utc : Timestamp → string.

(** What Slack reads of a block: its text, how the text is to be read, and the
    elements inside. *)
Definition block_text (b : json) : option string := json_get b "text" ≫= λ t, json_get t "text" ≫= json_as_str.
Definition block_text_type (b : json) : option string := json_get b "text" ≫= λ t, json_get t "type" ≫= json_as_str.
Definition block_type (b : json) : option string := json_get b "type" ≫= json_as_str.
Abbreviation block_elements := child_elements (only parsing).

(** Every text of a block, wherever it stands in it: the block's own, its
    elements' own, and those inside the elements, in that order. *)
Definition element_texts (e : json) : list string := (option_list (own_text e) ++ omap own_text (child_elements e))%list.
Definition elements_texts (es : list json) : list string := concat (map element_texts es).
Definition block_texts (b : json) : list string := (option_list (block_text b) ++ elements_texts (child_elements b))%list.

Definition total_chars (texts : list string) : nat := sum_list (map count_chars texts).

Lemma total_chars_one text : total_chars [text] = count_chars text.
Proof. unfold total_chars. cbn. lia. Qed.

(** A block Slack does not turn the whole message down for. *)
Definition within_limits (b : json) : Prop :=
  (total_chars (block_texts b) ≤ if decide (block_type b = Some "header") then SLACK_HEADER_LIMIT else SLACK_SECTION_LIMIT)%nat.

Lemma elements_texts_app es es' : elements_texts (es ++ es') = (elements_texts es ++ elements_texts es')%list.
Proof. unfold elements_texts. by rewrite map_app, concat_app. Qed.

Lemma total_chars_app ts ts' : total_chars (ts ++ ts') = (total_chars ts + total_chars ts')%nat.
Proof. unfold total_chars. rewrite map_app. induction (map count_chars ts) as [|n l IH]; cbn; [done|]. rewrite IH. lia. Qed.

(** What is rich is counted as [element_length] counts it. *)
Lemma rich_element_chars e : is_rich e → total_chars (element_texts e) = element_length e.
Proof.
  unfold is_rich, element_texts. intros ->. unfold element_length. fold (child_elements e).
  change (option_list None ++ omap own_text (child_elements e))%list with (omap own_text (child_elements e)).
  induction (child_elements e) as [|c l IH]; [done|]. cbn [omap list_omap]. fold (own_text c).
  destruct (own_text c) as [text|]; cbn [fmap option_fmap option_map]; [|exact IH]. unfold total_chars in *. cbn [map sum_list foldr]. cbn. by rewrite IH.
Qed.

Lemma rich_elements_chars es : Forall is_rich es → total_chars (elements_texts es) = total_length es.
Proof.
  induction 1 as [|e es He _ IH]; [done|]. unfold elements_texts. cbn [map concat]. rewrite total_chars_app.
  fold (elements_texts es). rewrite IH, rich_element_chars by done. done.
Qed.

Lemma plain_section_reads text :
  block_text (plain_section text) = Some text ∧ block_text_type (plain_section text) = Some "plain_text"
  ∧ block_type (plain_section text) = Some "section" ∧ block_elements (plain_section text) = [].
Proof.
  unfold block_text, block_text_type, block_type, child_elements, plain_section, plain_text.
  split_and!; repeat (read_field; cbn [mbind option_bind]); by rewrite ?json_as_str_of.
Qed.

Lemma header_block_reads n :
  (∃ heading, block_text (header_block n) = Some (truncated heading SLACK_HEADER_LIMIT))
  ∧ block_text_type (header_block n) = Some "plain_text"
  ∧ block_type (header_block n) = Some "header" ∧ block_elements (header_block n) = [].
Proof.
  unfold block_text, block_text_type, block_type, child_elements, header_block, plain_text. cbv zeta.
  split_and!; [eexists| | |]; repeat (read_field; cbn [mbind option_bind]); by rewrite ?json_as_str_of.
Qed.

Lemma mention_block_reads :
  block_text mention_block = Some "<!channel>" ∧ block_type mention_block = Some "section" ∧ block_elements mention_block = [].
Proof.
  unfold block_text, block_type, child_elements, mention_block.
  split_and!; repeat (read_field; cbn [mbind option_bind]); by rewrite ?json_as_str_of.
Qed.

Lemma rich_text_reads elements :
  block_text (rich_text elements) = None ∧ block_text_type (rich_text elements) = None
  ∧ block_elements (rich_text elements) = elements ∧ block_type (rich_text elements) = Some "rich_text".
Proof.
  unfold block_text, block_text_type, child_elements, block_type, rich_text.
  split_and!; repeat (read_field; cbn [mbind option_bind]); by rewrite ?json_as_array_of, ?json_as_str_of.
Qed.

Lemma rich_text_texts elements : block_texts (rich_text elements) = elements_texts elements.
Proof. unfold block_texts. destruct (rich_text_reads elements) as (-> & _ & -> & _). done. Qed.

Lemma rich_within elements : Forall is_rich elements → (total_length elements ≤ SLACK_SECTION_LIMIT)%nat → within_limits (rich_text elements).
Proof.
  intros Hr Hl. unfold within_limits. rewrite rich_text_texts, rich_elements_chars by done.
  destruct (rich_text_reads elements) as (_ & _ & _ & ->). by rewrite decide_False.
Qed.

(** The incident a message is about, and when. *)
Definition context_text (n : Notification) : string :=
  truncated ("Cluster Sentinel / 障害ID " +:+ notif_incident_id n +:+ " / " +:+ display_utc (notif_created_at n)) SLACK_SECTION_LIMIT.

Lemma context_block_reads n :
  block_text (context_block display_utc n) = None ∧ block_text_type (context_block display_utc n) = None
  ∧ block_type (context_block display_utc n) = Some "context" ∧ block_texts (context_block display_utc n) = [context_text n].
Proof.
  assert (child_elements (plain_text (context_text n)) = []) as Hp by (unfold child_elements, plain_text; by read_field).
  assert (own_text (plain_text (context_text n)) = Some (context_text n)) as Ho
    by (unfold own_text, plain_text; read_field; cbn [mbind option_bind]; by rewrite json_as_str_of).
  assert (block_text (context_block display_utc n) = None) as Ht by (unfold block_text, context_block; by read_field).
  assert (child_elements (context_block display_utc n) = [plain_text (context_text n)]) as Hc
    by (unfold child_elements, context_block; read_field; cbn [mbind option_bind]; by rewrite json_as_array_of).
  split_and!; [done| | |].
  - unfold block_text_type, context_block. by read_field.
  - unfold block_type, context_block. read_field. cbn [mbind option_bind]. by rewrite json_as_str_of.
  - unfold block_texts. rewrite Ht, Hc. unfold elements_texts. cbn [map concat]. unfold element_texts. by rewrite Hp, Ho.
Qed.

Lemma context_within n : within_limits (context_block display_utc n).
Proof.
  unfold within_limits. destruct (context_block_reads n) as (_ & _ & -> & ->). rewrite decide_False by done.
  rewrite total_chars_one. apply truncated_bound. unfold SLACK_SECTION_LIMIT. lia.
Qed.

(** What a person is told by an action: the command it gives, if any, and the
    rest of it, on one line. *)
Definition given_command (action : string) : option string :=
  let command := if is_command action then action else default "" (snd <$> split_once newline action) in
  then_some (negb (is_empty (trim command))) command.

Definition told_of (action : string) : string :=
  unbroken (if is_command action then "確認コマンド"
            else let said := default action (fst <$> split_once newline action) in
                 match split_once "で、" said with
                 | Some (place, what) => "実行先" +:+ wide_space +:+ place +:+ what
                 | None => said
                 end).

(** The texts of an action, in order. *)
Definition action_texts (label : string) (action : string) : list string := label :: option_list (given_command action).

Lemma description_told action : unbroken (action_description (action_parts action).1) = told_of action.
Proof.
  unfold told_of, action_parts, action_description. destruct (is_command action); [by vm_compute|].
  destruct (split_once newline action) as [[said command]|]; cbn [fst default fmap option_fmap option_map from_option];
    (destruct (split_once "で、" _) as [[place what]|]; [|by rewrite unbroken_stops]);
    rewrite !unbroken_app, unbroken_stops; by rewrite <-?string_app_assoc.
Qed.

Lemma element_texts_of kind text :
  element_texts (json_object [("type", json_of_str kind); ("elements", json_of_array [text_element text])]) = [text].
Proof.
  assert (own_text (text_element text) = Some text) as Ho
    by (unfold own_text, text_element; read_field; cbn [mbind option_bind]; by rewrite json_as_str_of).
  set (j := json_object _). assert (own_text j = None) as Hn by (unfold j, own_text; by read_field).
  assert (child_elements j = [text_element text]) as Hc
    by (unfold j, child_elements; read_field; cbn [mbind option_bind]; by rewrite json_as_array_of).
  unfold element_texts. rewrite Hn, Hc. cbn [omap list_omap]. by rewrite Ho.
Qed.

Lemma action_elements_texts action number :
  elements_texts (action_elements action number)
  = action_texts (match number with
                  | Some k => show_nat k +:+ ". " +:+ action_description (action_parts action).1
                  | None => action_description (action_parts action).1
                  end) action.
Proof.
  assert (option_list (given_command action)
    = match (action_parts action).2 with Some c => if is_empty (trim c) then [] else [c] | None => [] end) as Hg.
  { unfold given_command, action_parts. destruct (is_command action); [cbv zeta; cbn [snd]; by destruct (is_empty (trim action))|].
    destruct (split_once newline action) as [[d c]|]; [|done]. cbn [snd fmap option_fmap option_map default from_option]. cbv zeta. change (id c) with c. by destruct (is_empty (trim c)). }
  unfold action_texts. rewrite Hg. unfold action_elements. destruct (action_parts action) as [d [c|]]; cbn [fst snd];
    unfold elements_texts; cbn [map concat]; unfold rich_section; rewrite element_texts_of; [|done].
  destruct (is_empty (trim c)); [done|]. cbn [map concat]. unfold preformatted. by rewrite element_texts_of.
Qed.

Lemma grouped_actions_spec actions :
  let '(groups, omitted) := grouped_actions actions in
  Forall (λ b, ∃ g, b = rich_text g ∧ Forall is_rich g ∧ total_length g ≤ SLACK_SECTION_LIMIT)%nat groups
  ∧ (omitted = false → ∀ i action, actions !! i = Some action →
       ∃ before after, rich_text (before ++ action_elements action (Some (S i)) ++ after) ∈ groups).
Proof.
  unfold grouped_actions.
  assert (∃ groups, packed_actions_wf (imap pair actions) (foldl pack_action (mk_packed_actions [] [] 0 false) (imap pair actions)) groups) as [groups H].
  { generalize (imap pair actions) as numbered. induction numbered as [|a numbered [groups IH]] using rev_ind.
    - exists []. constructor; cbn; [done|split; [done|apply Nat.le_0_l]|done|constructor|by intros a ?%elem_of_nil|by rewrite Exists_nil|by constructor].
    - rewrite foldl_snoc. by apply (pack_action_wf _ _ _ groups). }
  set (s := foldl _ _ _) in *. destruct H as [Hg [Ht Hl] _ Hw Hk Ho Hr]. apply Forall_cons in Hr as [Hrg Hrgs].
  assert (Forall (λ b, ∃ g, b = rich_text g ∧ Forall is_rich g ∧ total_length g ≤ SLACK_SECTION_LIMIT)%nat (action_groups s)) as Hall.
  { rewrite Hg. apply Forall_fmap, Forall_forall. intros g H. rewrite Forall_forall in Hw, Hrgs. exists g. split_and!; [done|by apply Hrgs|by apply Hw]. }
  split.
  - case_decide; [done|]. apply Forall_app. split; [done|]. constructor; [|done]. eexists. split_and!; [done|done|]. lia.
  - intros Hom i action Hi. assert ((i, action) ∈ imap pair actions) as Hin.
    { apply list_elem_of_lookup. exists i. by rewrite list_lookup_imap, Hi. }
    assert (action_length (i, action) ≤ SLACK_SECTION_LIMIT)%nat as Hlen.
    { apply Nat.nlt_ge. intros Hlong. assert (actions_omitted s = true); [|congruence]. apply Ho, Exists_exists. eauto. }
    specialize (Hk _ Hin Hlen). apply Exists_cons in Hk as [(before & after & Hk)|(g & Hgin & before & after & ->)%Exists_exists];
      exists before, after.
    + rewrite decide_False. 2:{ rewrite Hk. intros [_ [H _]%app_eq_nil]%app_eq_nil. by apply action_elements_nonempty in H. }
      apply elem_of_app. right. cbn [fst snd] in Hk. rewrite Hk. by left.
    + assert (rich_text (before ++ action_elements action (Some (S i)) ++ after) ∈ action_groups s) as H by (rewrite Hg; by apply list_elem_of_fmap_2).
      case_decide; [done|]. apply elem_of_app. by left.
Qed.

(** The paragraphs of the body, each whole in the text of one block. *)
Definition body_shown (n : Notification) (blocks : list json) : Prop :=
  ∀ p, p ∈ str_split (newline +:+ newline) (notif_body n) → is_empty (trim p) = false →
    ∃ b before after, b ∈ blocks ∧ block_text b = Some (before +:+ p +:+ after) ∧ block_text_type b = Some "plain_text".

(** The actions, each whole in one block: its number and what it tells, line
    breaks aside, and right after it the command as it was given. *)
Definition actions_shown (n : Notification) (blocks : list json) : Prop :=
  ∀ i action, notif_actions n !! i = Some action →
    ∃ b before after label, b ∈ blocks ∧ block_texts b = (before ++ action_texts label action ++ after)%list
      ∧ unbroken label = show_nat (S i) +:+ ". " +:+ told_of action.

Lemma digits_unbroken s : all_digits s = true → unbroken s = s.
Proof.
  induction s as [|a s IH]; [done|]. intros [Ha Hs]%andb_true_iff. cbn [unbroken].
  rewrite decide_False by (intros ->; discriminate Ha). by rewrite IH.
Qed.

Lemma show_nat_unbroken k : unbroken (show_nat k) = show_nat k.
Proof. apply digits_unbroken. change (show_nat k) with (show_N (N.of_nat k)). apply all_digits_show_N. Qed.

Lemma action_shown_in i action before after :
  ∃ bs cs label, block_texts (rich_text (before ++ action_elements action (Some (S i)) ++ after))
    = (bs ++ action_texts label action ++ cs)%list ∧ unbroken label = show_nat (S i) +:+ ". " +:+ told_of action.
Proof.
  rewrite rich_text_texts, !elements_texts_app, action_elements_texts. eexists _, _, _. split; [done|].
  rewrite !unbroken_app, description_told, show_nat_unbroken. done.
Qed.

Lemma within_plain text : (count_chars text ≤ SLACK_SECTION_LIMIT)%nat → within_limits (plain_section text).
Proof.
  intros Hl. unfold within_limits, block_texts. destruct (plain_section_reads text) as (-> & _ & -> & ->). rewrite decide_False by done.
  change (total_chars [text] ≤ SLACK_SECTION_LIMIT)%nat. by rewrite total_chars_one.
Qed.

(** The part before the actions. *)
Lemma slack_head_spec n :
  let '(blocks, omitted) := slack_head n in
  (length blocks ≤ 13)%nat ∧ Forall within_limits blocks ∧ (omitted = false → body_shown n blocks)
  ∧ (mention_block ∈ blocks ↔ mentions_channel n = true)
  ∧ (∀ b, b ∈ blocks → block_text_type b = Some "plain_text" ∨ b = mention_block).
Proof.
  unfold slack_head. pose proof (grouped_sections_spec (body_paragraphs n)) as Hg. destruct (grouped_sections _) as [groups om].
  destruct Hg as [Hw Hk]. destruct (header_block_reads n) as ([h Hh] & Hht & Hhk & Hhe). destruct mention_block_reads as (Hm & Hmk & Hme).
  split_and!.
  - rewrite !length_app, length_map, length_take. unfold push_if. repeat case_match; cbn [length]; lia.
  - rewrite !Forall_app, !Forall_push_if. split_and!.
    + intros _. unfold within_limits, block_texts. rewrite Hm, Hmk, Hme, decide_False by done. apply Nat.leb_le. by vm_compute.
    + constructor; [|done]. unfold within_limits, block_texts. rewrite Hh, Hhk, Hhe, decide_True by done.
      change (total_chars [truncated h SLACK_HEADER_LIMIT] ≤ SLACK_HEADER_LIMIT)%nat. rewrite total_chars_one.
      apply truncated_bound. unfold SLACK_HEADER_LIMIT. lia.
    + intros _. apply within_plain, truncated_bound. unfold SLACK_SECTION_LIMIT. lia.
    + apply Forall_fmap, Forall_take. eapply Forall_impl; [exact Hw|]. intros g H. by apply within_plain.
  - intros [-> Hlen%Nat.ltb_ge]%orb_false_iff p Hp Hblank. destruct (Hk eq_refl p) as (g & Hin & before & after & ->).
    { by apply list_elem_of_filter. }
    { apply not_empty. by intros ->. }
    destruct (plain_section_reads (before +:+ p +:+ after)) as (Hpt & Hpk & _).
    exists (plain_section (before +:+ p +:+ after)), before, after. split_and!; [|done|done].
    rewrite take_ge by done. rewrite !elem_of_app. right; right; right. by apply (list_elem_of_fmap_2 plain_section).
  - assert (∀ b, block_text_type b = Some "plain_text" → b ≠ mention_block) as Hne.
    { intros b Hb ->. revert Hb. unfold block_text_type, mention_block. repeat (read_field; cbn [mbind option_bind]). by rewrite json_as_str_of. }
    rewrite !elem_of_app, list_elem_of_singleton, list_elem_of_fmap. unfold push_if. split.
    + intros [H|[H|[H|(g & H & _)]]].
      * destruct (mentions_channel n); [done|by apply elem_of_nil in H].
      * by destruct (Hne (header_block n)).
      * destruct (is_empty _); [|by apply elem_of_nil in H]. apply list_elem_of_singleton in H. symmetry in H. by apply Hne in H; [|apply plain_section_reads].
      * symmetry in H. by apply Hne in H; [|apply plain_section_reads].
    + intros ->. left. by left.
  - intros b. rewrite !elem_of_app, list_elem_of_singleton, list_elem_of_fmap. unfold push_if. intros [H|[->|[H|(g & -> & _)]]].
    + right. destruct (mentions_channel n); [by apply list_elem_of_singleton in H|by apply elem_of_nil in H].
    + by left.
    + left. destruct (is_empty _); [|by apply elem_of_nil in H]. apply list_elem_of_singleton in H as ->. by apply plain_section_reads.
    + left. by apply plain_section_reads.
Qed.

(** With the actions. *)
Lemma slack_main_spec n :
  let '(blocks, omitted) := slack_main n in
  (length blocks ≤ 48)%nat ∧ Forall within_limits blocks
  ∧ (omitted = false → body_shown n blocks ∧ actions_shown n blocks)
  ∧ (mention_block ∈ blocks ↔ mentions_channel n = true)
  ∧ (∀ b, b ∈ blocks → block_text_type b = Some "mrkdwn" → b = mention_block).
Proof.
  unfold slack_main. pose proof (slack_head_spec n) as H. destruct (slack_head n) as [blocks om].
  destruct H as (Hlen & Hw & Hshown & Hmention & Hkind).
  assert (∀ b, b ∈ blocks → block_text_type b = Some "mrkdwn" → b = mention_block) as Honly.
  { intros b Hb Hmr. destruct (Hkind b Hb) as [Hp| ->]; [congruence|done]. }
  destruct (notif_actions n) as [|a actions] eqn:Ha.
  { split_and!; [lia|done| |done|done]. intros Hom. split; [by apply Hshown|]. intros i action Hi. by rewrite Ha in Hi. }
  pose proof (grouped_actions_spec (a :: actions)) as Hg. destruct (grouped_actions (a :: actions)) as [groups aom]. destruct Hg as [Hgw Hgk].
  set (blocks' := (blocks ++ [plain_section "確認手順"])%list).
  assert (length blocks' ≤ 14)%nat as Hlen' by (unfold blocks'; rewrite length_app; cbn; lia).
  assert (∀ b, b ∈ take (50 - (length blocks' + 2)) groups → ∃ g, b = rich_text g ∧ Forall is_rich g ∧ total_length g ≤ SLACK_SECTION_LIMIT)%nat as Hrich.
  { intros b Hb. exact (proj1 (Forall_forall _ _) (Forall_take _ _ _ Hgw) b Hb). }
  split_and!.
  - rewrite length_app, length_take. lia.
  - unfold blocks'. rewrite !Forall_app. split_and!; [done| |].
    + constructor; [|done]. apply within_plain. apply Nat.leb_le. by vm_compute.
    + apply Forall_forall. intros b Hb. destruct (Hrich b Hb) as (g & -> & Hr & Hle). by apply rich_within.
  - intros [-> [-> Hfit%Nat.ltb_ge]%orb_false_iff]%orb_false_iff. rewrite take_ge by done. split.
    + intros p Hp Hb. destruct (Hshown eq_refl p Hp Hb) as (b & before & after & Hin & Ht). exists b, before, after.
      split; [|done]. unfold blocks'. rewrite !elem_of_app. tauto.
    + intros i action Hi. rewrite Ha in Hi. destruct (Hgk eq_refl i action Hi) as (before & after & Hin).
      destruct (action_shown_in i action before after) as (bs & cs & label & Ht & Hlabel). eexists _, bs, cs, label.
      split_and!; [apply elem_of_app; right; exact Hin|done|done].
  - unfold blocks'. rewrite !elem_of_app, list_elem_of_singleton, <- Hmention. split; [|tauto]. intros [[?|Hm]|Hm]; [done| |].
    + exfalso. pose proof (plain_section_reads "確認手順") as (_ & Hpt & _). rewrite <- Hm in Hpt.
      revert Hpt. unfold block_text_type, mention_block. repeat (read_field; cbn [mbind option_bind]). by rewrite json_as_str_of.
    + exfalso. destruct (Hrich _ Hm) as (g & Hg & _). destruct mention_block_reads as (Ht & _). rewrite Hg in Ht.
      destruct (rich_text_reads g) as (Ht' & _). congruence.
  - unfold blocks'. intros b [[Hb| ->%list_elem_of_singleton]%elem_of_app|Hb]%elem_of_app Hmr; [by apply Honly| |].
    + pose proof (plain_section_reads "確認手順") as (_ & Hpt & _). congruence.
    + destruct (Hrich b Hb) as (g & -> & _). destruct (rich_text_reads g) as (_ & Hk & _). congruence.
Qed.

(** The notice of what was left out: its length, beside the identifier's. *)
Lemma notice_within n : (count_chars (quote (notif_incident_id n)) ≤ 2000)%nat → within_limits (omission_notice n).
Proof.
  intros Hid. unfold omission_notice. cbv zeta. set (command := sentinel_command _).
  assert (count_chars command ≤ 2100)%nat as Hc.
  { unfold command, sentinel_command. rewrite !count_chars_app. pose proof (Nat.leb_le (count_chars "sudo -u sentinel sentinel " + count_chars "incident show ") 100) as [H _].
    specialize (H ltac:(by vm_compute)). lia. }
  clearbody command. set (said := "Sentinel controllerで、表示上限のため、一部を省略しました。次のコマンドで確認手順の全文を表示してください。").
  assert (step "Sentinel controller" "表示上限のため、一部を省略しました。次のコマンドで確認手順の全文を表示してください" command = said +:+ newline +:+ command) as -> by done.
  apply rich_within; [apply action_elements_rich|]. rewrite <-rich_elements_chars by apply action_elements_rich. rewrite action_elements_texts.
  unfold action_texts. change (?x :: ?l) with ([x] ++ l)%list. rewrite total_chars_app.
  assert (count_chars said ≤ 100)%nat as Hsaid by (apply Nat.leb_le; by vm_compute).
  assert (split_once newline (said +:+ newline +:+ command) = Some (said, command)) as Hsplit by (apply split_once_byte_app; by vm_compute).
  assert (total_chars (option_list (given_command (said +:+ newline +:+ command))) ≤ 2201)%nat as Hg.
  { unfold given_command. rewrite Hsplit. cbv zeta. set (c := if is_command _ then _ else _).
    assert (count_chars c ≤ 2201)%nat as Hlen.
    { unfold c. destruct (is_command _); cbn [snd fmap option_fmap option_map default from_option]; [|change (id command) with command; lia].
      rewrite !count_chars_app. change (count_chars newline) with 1%nat. lia. }
    destruct (negb _); [|apply Nat.le_0_l]. change (total_chars [c] ≤ 2201)%nat. by rewrite total_chars_one. }
  assert (total_chars [action_description (action_parts (said +:+ newline +:+ command)).1] ≤ 200)%nat as Hd.
  { unfold action_parts. rewrite Hsplit. destruct (is_command _); apply Nat.leb_le; by vm_compute. }
  unfold SLACK_SECTION_LIMIT. lia.
Qed.
End message.

(** C38.  A message to Slack is one Slack takes, and it is whole: it has at most
    fifty blocks, and in none do the texts together, wherever they stand in it,
    exceed the limit, the notice of what was left out included as long as the
    identifier it names the incident by is no longer than a page; it always ends
    with the identifier and the time; and without that notice every paragraph
    of the body stands uncut in the text of one block, and every action in one
    block with its number, what it tells and, right after it, the command it
    gives exactly as it was given. *)
Theorem slack_message_is_whole `{J : JsonApi} `{JL : !JsonLaws} (display_utc : Timestamp → string) (n : Notification) :
  let blocks := slack_blocks display_utc n in
  (length blocks ≤ 50)%nat
  ∧ Forall (λ b, within_limits b ∨ (b = omission_notice n ∧ (2000 < count_chars (quote (notif_incident_id n)))%nat)) blocks
  ∧ (block_texts <$> last blocks) = Some [context_text display_utc n]
  ∧ (omission_notice n ∈ blocks ∨ (body_shown n blocks ∧ actions_shown n blocks)).
Proof.
  cbv zeta. unfold slack_blocks. pose proof (slack_main_spec n) as H. destruct (slack_main n) as [blocks om].
  destruct H as (Hlen & Hw & Hshown & _). destruct (context_block_reads display_utc n) as (_ & _ & _ & Hct). split_and!.
  - rewrite !length_app. unfold push_if. destruct om; cbn [length]; lia.
  - rewrite !Forall_app, Forall_push_if. split_and!.
    + eapply Forall_impl; [exact Hw|]. intros b Hb. by left.
    + intros _. destruct (decide (count_chars (quote (notif_incident_id n)) ≤ 2000)%nat) as [Hid|Hid]; [left; by apply notice_within|right].
      split; [done|lia].
    + constructor; [|done]. left. apply context_within.
  - rewrite app_assoc, last_snoc. cbn. by rewrite Hct.
  - destruct om; [left; rewrite !elem_of_app; right; left; by left|right]. destruct (Hshown eq_refl) as [Hb Ha]. split.
    + intros p Hp Hne. destruct (Hb p Hp Hne) as (b & before & after & Hin & Ht). exists b, before, after. split; [|done]. apply elem_of_app. by left.
    + intros i a Hi. destruct (Ha i a Hi) as (b & before & after & label & Hin & Ht). exists b, before, after, label. split; [|done].
      apply elem_of_app. by left.
Qed.

Lemma take_mention (k : nat) (rest : string) : take_chars (10 + k) ("<!channel>" +:+ rest) = "<!channel>" +:+ take_chars k rest.
Proof. reflexivity. Qed.

Lemma string_app_l_nil s : "" +:+ s = s.
Proof. done. Qed.

(** The channel is called out for a critical fault that is not over, and
    for nothing else: one block of fixed text is read as markup, and the
    preview, which repeats the title, holds no bracket of its own. *)
Theorem only_critical_faults_mention `{J : JsonApi} `{JL : !JsonLaws} (display_utc : Timestamp → string) (n : Notification) :
  (mention_block ∈ slack_blocks display_utc n ↔ notif_severity n = Severity_Critical ∧ is_recovery (notif_trigger n) = false)
  ∧ (∀ b, b ∈ slack_blocks display_utc n → block_text_type b = Some "mrkdwn" → b = mention_block)
  ∧ ∃ rest, string_mem "<" rest = false
      ∧ slack_preview n = (if mentions_channel n then "<!channel>" else "") +:+ rest.
Proof.
  assert (mentions_channel n = true ↔ notif_severity n = Severity_Critical ∧ is_recovery (notif_trigger n) = false) as <-.
  { unfold mentions_channel. by rewrite andb_true_iff, bool_decide_eq_true, negb_true_iff. }
  unfold slack_blocks. pose proof (slack_main_spec n) as H. destruct (slack_main n) as [blocks om].
  destruct H as (_ & _ & _ & Hmention & Honly). destruct (context_block_reads display_utc n) as (Hct & Hck & _).
  destruct (rich_text_reads (action_elements (step "Sentinel controller" "表示上限のため、一部を省略しました。次のコマンドで確認手順の全文を表示してください"
    (sentinel_command ("incident show " +:+ quote (notif_incident_id n)))) None)) as (Hnt & Hnk & _).
  destruct mention_block_reads as (Hmt & _). split_and!.
  - rewrite !elem_of_app, list_elem_of_singleton, <- Hmention. unfold push_if. split; [|tauto]. intros [?|[Hm|Hm]]; [done| |]; exfalso.
    + destruct om; [|by apply elem_of_nil in Hm]. apply list_elem_of_singleton in Hm. rewrite Hm in Hmt. unfold omission_notice in Hmt. congruence.
    + rewrite Hm in Hmt. congruence.
  - intros b. rewrite !elem_of_app, list_elem_of_singleton. unfold push_if. intros [Hb|[Hb| ->]] Hmr; [by apply Honly| |congruence].
    destruct om; [|by apply elem_of_nil in Hb]. apply list_elem_of_singleton in Hb as ->. unfold omission_notice in Hmr. congruence.
  - unfold slack_preview. destruct (escaped_has_no_brackets (notif_title n)) as [Hlt _]. set (title := slack_escape _) in *.
    assert (string_mem "<" (newline +:+ title) = false) as Htail by (by rewrite string_mem_app, Hlt).
    unfold truncated. destruct (mentions_channel n); destruct (_ <=? _)%nat.
    + by exists (newline +:+ title).
    + exists (take_chars 2989 (newline +:+ title) +:+ "…"). rewrite string_mem_app, string_mem_take_chars by done. split; [done|].
      replace (SLACK_SECTION_LIMIT - 1)%nat with (10 + 2989)%nat by (by vm_compute). by rewrite take_mention, <- string_app_assoc.
    + by exists title.
    + exists (take_chars (SLACK_SECTION_LIMIT - 1) title +:+ "…"). by rewrite string_mem_app, string_mem_take_chars.
Qed.

(** A critical fault, with two paragraphs and an instruction. *)
Definition sample_notification : Notification :=
  {| notif_incident_id := "i-1"; notif_fingerprint := "cause:fs1"; notif_trigger := Trigger_Opened;
     notif_severity := Severity_Critical; notif_title := "障害 / host <fs1> is down";
     notif_body := "first" +:+ newline +:+ newline +:+ "second"; notif_actions := ["hostで、確認してください。" +:+ newline +:+ "systemctl status"];
     notif_created_at := 0; notif_event_id := None |}.

Lemma slack_message_is_whole_witness :
  body_paragraphs sample_notification = ["first"; "second"]
  ∧ (length (slack_blocks (λ _, "now") sample_notification) ≤ 50)%nat
  ∧ block_texts <$> last (slack_blocks (λ _, "now") sample_notification) = Some [context_text (λ _, "now") sample_notification].
Proof.
  destruct (slack_message_is_whole (λ _, "now") sample_notification) as (Hlen & _ & Hlast & _).
  split; [vm_compute; reflexivity|]. split; [exact Hlen|exact Hlast].
Defined.

Lemma only_critical_faults_mention_witness :
  mentions_channel sample_notification = true ∧ slack_preview sample_notification = "<!channel>" +:+ newline +:+ "障害 / host &lt;fs1&gt; is down"
  ∧ mention_block ∈ slack_blocks (λ _, "now") sample_notification.
Proof.
  destruct (only_critical_faults_mention (λ _, "now") sample_notification) as (Hm & _ & _).
  split; [vm_compute; reflexivity|]. split; [vm_compute; reflexivity|]. apply Hm. split; reflexivity.
Defined.

(** ** The destinations *)

(** A destination with a URL that is none is left out, and the check of the
    configuration says nothing of it. *)
Example mistyped_destination_goes_unnoticed :
  let c := mk_config 1 "lab" controller_default agent_default "db" 3 ∅ [] [] discovery_default
             (mk_notification_config [mk_webhook_config "ops" "htps://example.invalid/hook" Format_Slack] "warnign" 0)
             retention_default tls_default ∅ in
  validate (λ _, true) c = [] ∧ providers_from_config (λ _, inl tt) c = [].
Proof. split; vm_compute; reflexivity. Qed.

(** Every destination that is usable becomes a provider of its own, in order. *)
Lemma usable_destinations_are_served client c p :
  p ∈ providers_from_config client c ↔
    ∃ hook, hook ∈ nc_webhooks (config_notification c)
      ∧ (starts_with "http://" (hook_url hook) = true ∨ starts_with "https://" (hook_url hook) = true)
      ∧ client hook = inl tt ∧ p = mk_webhook (hook_name hook) (hook_url hook) (hook_format hook).
Proof.
  unfold providers_from_config. rewrite list_elem_of_omap. split; intros (hook & Hin & H); exists hook; (split; [done|]).
  - unfold webhook_new in H. destruct (negb _ && negb _) eqn:Hurl; [done|].
    apply andb_false_iff in Hurl. rewrite !negb_false_iff in Hurl. destruct (client hook) as [[]|]; [|done]. by injection H as <-.
  - destruct H as (Hurl & Hc & ->). unfold webhook_new. rewrite Hc.
    assert (negb (starts_with "http://" (hook_url hook)) && negb (starts_with "https://" (hook_url hook)) = false) as ->; [|done].
    apply andb_false_iff. rewrite !negb_false_iff. tauto.
Qed.

(** A delivery that may be retried is one that was not accepted for reasons that
    may pass. *)
Lemma send_is_transient_iff `{J : JsonApi} display_utc json_of_time post p n e :
  send_notification display_utc json_of_time post p n = inr e →
  (Webhook.is_transient e = true ↔
     match post (webhook_url p) (payload_for display_utc json_of_time (webhook_format p) n) with
     | Http_None _ => True
     | Http_Status status _ => (500 ≤ status ∨ status = 429)%N
     end).
Proof.
  unfold send_notification. destruct (post _ _) as [detail|status body]; [by intros [= <-]|].
  destruct (_ && _); [done|]. intros [= <-]. cbn. rewrite orb_true_iff, N.leb_le, N.eqb_eq. done.
Qed.
