(* ===== verification/Metrics.v ===== *)
(** * Host metrics and GPUs

    [src/probes/host.rs] and [src/probes/gpu.rs], with the binary64 arithmetic
    they need. *)

From Stdlib Require Import Floats.SpecFloat.
From S2P Require Import Concrete.
From S2P Require Export Lexing ProbesSpec.

Local Open Scope string_scope.

(** * Floating point numbers

    Rust's [f64] is the binary64 format of IEEE 754, as [SpecFloat] of the
    Standard Library defines it on integers: conversions, the operations the
    probes use, [str::parse] and the fixed forms of [format!]. *)

Abbreviation f64 := spec_float (only parsing).

Definition f64_prec : Z := 53.
Definition f64_emax : Z := 1024.

(** [n as f64], rounded to nearest, ties to even. *)
Definition f64_of_Z (n : Z) : f64 := binary_normalize f64_prec f64_emax n 0 false.
Definition f64_of_N (n : N) : f64 := f64_of_Z (Z.of_N n).

Definition f64_sub : f64 → f64 → f64 := SFsub f64_prec f64_emax.
Definition f64_mul : f64 → f64 → f64 := SFmul f64_prec f64_emax.
Definition f64_div : f64 → f64 → f64 := SFdiv f64_prec f64_emax.

(** [x > y] and [x <= y]; false when one of them is not a number. *)
Definition f64_gt (x y : f64) : bool := SFltb y x.
Definition f64_le (x y : f64) : bool := SFleb x y.

(** [x.clamp(low, high)]. *)
Definition f64_clamp (x low high : f64) : f64 := if SFltb x low then low else if SFltb high x then high else x.

(** The number [num / den], for positive integers, rounded once. *)
Definition f64_ratio (negative : bool) (num den : positive) : f64 :=
  let '(m, e, l) := SFdiv_core_binary f64_prec f64_emax (Zpos num) 0 (Zpos den) 0 in
  binary_round_aux f64_prec f64_emax negative m e l.

(** [s.parse::<f64>().ok()].  The digits before and after the point, and the
    exponent of ten. *)
Fixpoint take_digits (s : string) : string * string :=
  match s with
  | String a s' => if is_ascii_digit a then let '(d, rest) := take_digits s' in (String a d, rest) else ("", s)
  | EmptyString => ("", "")
  end.

Definition parse_sign (s : string) : bool * string :=
  match s with
  | String a s' => if decide (a = "-"%char) then (true, s') else if decide (a = "+"%char) then (false, s') else (false, s)
  | EmptyString => (false, "")
  end.

(** The exponent at the end, if there is one and nothing follows it. *)
Definition parse_exponent (s : string) : option Z :=
  match s with
  | EmptyString => Some 0%Z
  | String a s' =>
      if decide (a = "e"%char ∨ a = "E"%char) then
        let '(negative, s') := parse_sign s' in
        let '(digits, rest) := take_digits s' in
        if is_empty digits || negb (is_empty rest) then None
        else let n := Z.of_N (digits_value 0 digits) in Some (if negative : bool then - n else n)%Z
      else None
  end.

Definition pow10 (n : Z) : positive := match Z.pow 10 n with Zpos p => p | _ => 1%positive end.

Definition f64_of_decimal (negative : bool) (mantissa : N) (exponent : Z) : f64 :=
  match mantissa with
  | 0%N => S754_zero negative
  | Npos m => if (0 <=? exponent)%Z then f64_ratio negative (m * pow10 exponent) 1 else f64_ratio negative m (pow10 (- exponent))
  end.

Definition parse_f64 (s : string) : option f64 :=
  let '(negative, body) := parse_sign s in
  if eq_ignore_ascii_case body "inf" || eq_ignore_ascii_case body "infinity" then Some (S754_infinity negative)
  else if eq_ignore_ascii_case body "nan" then Some S754_nan
  else
    let '(whole, rest) := take_digits body in
    let '(part, rest) := match rest with
                         | String a rest' => if decide (a = "."%char) then take_digits rest' else ("", rest)
                         | EmptyString => ("", "")
                         end in
    if is_empty whole && is_empty part then None
    else e ← parse_exponent rest;
         Some (f64_of_decimal negative (digits_value 0 (whole +:+ part)) (e - Z.of_nat (String.length part))).

(** [x as u64]: towards zero, and held at the bounds. *)
Definition f64_to_u64 (x : f64) : N :=
  match x with
  | S754_finite false m e => N.min u64_max (Z.to_N (if (0 <=? e)%Z then Zpos m * 2 ^ e else Zpos m / 2 ^ (- e)))
  | S754_infinity false => u64_max
  | _ => 0%N
  end.

(** The quotient rounded to the nearest integer, ties to even. *)
Definition round_half_even (num den : N) : N :=
  let q := (num / den)%N in
  match (2 * (num mod den) ?= den)%N with Lt => q | Gt => q + 1 | Eq => if N.even q then q else q + 1 end%N.

(** [format!("{x:.n}")]. *)
Definition show_fixed (n : nat) (x : f64) : string :=
  let sign (negative : bool) := if negative then "-" else "" in
  let digits (scaled : N) :=
    let unit_ := (10 ^ N.of_nat n)%N in
    show_N (scaled / unit_) +:+ (match n with O => "" | _ => "." +:+ show_padded n (scaled mod unit_) end) in
  match x with
  | S754_nan => "NaN"
  | S754_infinity s => sign s +:+ "inf"
  | S754_zero s => sign s +:+ digits 0%N
  | S754_finite s m e =>
      let scaled := (Npos m * 10 ^ N.of_nat n)%N in
      sign s +:+ digits (if (0 <=? e)%Z then scaled * 2 ^ Z.to_N e else round_half_even scaled (2 ^ Z.to_N (- e)))%N
  end.

(** The integers a float holds exactly. *)
Example small_integers : map f64_of_N [0; 1; 3; 9007199254740993]%N
  = [S754_zero false; S754_finite false 4503599627370496 (-52); S754_finite false 6755399441055744 (-51); S754_finite false 4503599627370496 1].
Proof. reflexivity. Qed.

Example floats_parse : map parse_f64 ["0.1"; "+3"; "1e3"; ".5"; "-2."; "inf"; "0x1"; "."; "e5"; ""; "1.5e"; " 1"]
  = [Some (S754_finite false 7205759403792794 (-56)); Some (f64_of_N 3); Some (f64_of_N 1000); Some (S754_finite false 4503599627370496 (-53));
     Some (S754_finite true 4503599627370496 (-51)); Some (S754_infinity false); None; None; None; None; None; None].
Proof. vm_compute. reflexivity. Qed.

Example floats_print :
  map (λ p, default "" (show_fixed p.1 <$> parse_f64 p.2)) [(2%nat, "4.256"); (0%nat, "95.5"); (1%nat, "60.25"); (2%nat, "0"); (1%nat, "0.05")]
  = ["4.26"; "96"; "60.2"; "0.00"; "0.1"].
Proof. vm_compute. reflexivity. Qed.

(** ** Facts *)

(** *** What rounding gives *)

Lemma shr_1_bounds r : (0 ≤ shr_m r → 0 ≤ shr_m (shr_1 r) ≤ shr_m r)%Z.
Proof. destruct r as [[|[p|p|]|p] a b]; cbn; lia. Qed.

Lemma shr_bounds p r : (0 ≤ shr_m r → 0 ≤ shr_m (SpecFloat.iter_pos shr_1 p r) ≤ shr_m r)%Z.
Proof.
  revert r. induction p as [p IH|p IH|]; intros r Hr; cbn [SpecFloat.iter_pos].
  - pose proof (shr_1_bounds r Hr) as H1. pose proof (IH (shr_1 r) ltac:(lia)) as H2. pose proof (IH (SpecFloat.iter_pos shr_1 p (shr_1 r)) ltac:(lia)). lia.
  - pose proof (IH r Hr) as H1. pose proof (IH (SpecFloat.iter_pos shr_1 p r) ltac:(lia)). lia.
  - by apply shr_1_bounds.
Qed.

Lemma shr_record_mantissa m l : shr_m (shr_record_of_loc m l) = m.
Proof. by destruct l as [|[]]. Qed.

(** A shift to the precision: the mantissa does not grow, and the exponent ends
    where the precision or the smallest exponent puts it. *)
Lemma shr_fexp_bounds m e l :
  (0 ≤ m)%Z →
  let r := shr_fexp f64_prec f64_emax m e l in
  (0 ≤ shr_m r.1 ≤ m ∧ r.2 ≤ Z.max e (Z.max (Zdigits2 m + e - 53) (-1074)))%Z.
Proof.
  intros Hm. unfold shr_fexp, shr. pose proof (shr_record_mantissa m l) as Hr.
  assert (fexp f64_prec f64_emax (Zdigits2 m + e) = Z.max (Zdigits2 m + e - 53) (-1074)) as -> by (unfold fexp; f_equal).
  destruct (_ - e)%Z as [|p|p] eqn:Hd; cbn [fst snd]; rewrite ?Hr; [lia| |lia].
  pose proof (shr_bounds p (shr_record_of_loc m l)). rewrite Hr in H. lia.
Qed.

Lemma round_nearest_even_bounds m l : (0 ≤ m → 0 ≤ round_nearest_even m l ≤ m + 1)%Z.
Proof. intros Hm. unfold round_nearest_even. destruct l as [|[]]; try lia. destruct (Z.even m); lia. Qed.

Lemma digits_of_positive p : (2 ^ (Z.pos (digits2_pos p) - 1) ≤ Z.pos p)%Z.
Proof.
  induction p as [p IH|p IH|]; cbn [digits2_pos]; [| |done];
    rewrite Pos2Z.inj_succ; (replace (Z.succ (Z.pos (digits2_pos p)) - 1)%Z with (Z.succ (Z.pos (digits2_pos p) - 1))%Z by lia);
    rewrite Z.pow_succ_r by lia; lia.
Qed.

Lemma digits_bound m k : (0 ≤ m < 2 ^ k → 0 ≤ k → Zdigits2 m ≤ k)%Z.
Proof.
  intros Hm Hk. destruct m as [|p|p]; cbn; [lia| |lia]. pose proof (digits_of_positive p) as Hp.
  apply Z.nlt_ge. intros Hlt. assert (2 ^ k ≤ 2 ^ (Z.pos (digits2_pos p) - 1))%Z by (apply Z.pow_le_mono_r; lia). lia.
Qed.

(** Rounding gives a number, and a finite one as long as it is not too large. *)
Lemma round_is_a_number s m e l : (0 ≤ m)%Z → binary_round_aux f64_prec f64_emax s m e l ≠ S754_nan.
Proof.
  intros Hm. unfold binary_round_aux. pose proof (shr_fexp_bounds m e l Hm) as H1. cbv zeta in H1.
  destruct (shr_fexp _ _ m e l) as [r1 e1]. cbn [fst snd] in H1.
  pose proof (round_nearest_even_bounds (shr_m r1) (loc_of_shr_record r1) ltac:(lia)) as H2.
  pose proof (shr_fexp_bounds _ e1 loc_Exact (proj1 H2)) as H3. cbv zeta in H3.
  destruct (shr_fexp _ _ _ e1 loc_Exact) as [r2 e2]. cbn [fst snd] in H3.
  destruct (shr_m r2); [done| |lia]. by destruct (_ <=? _)%Z.
Qed.

Lemma round_is_finite s m e l :
  (0 ≤ m < 2 ^ 64)%Z → (e ≤ 0)%Z → ∀ sign, binary_round_aux f64_prec f64_emax s m e l ≠ S754_infinity sign.
Proof.
  intros Hm He sign. unfold binary_round_aux. pose proof (shr_fexp_bounds m e l ltac:(lia)) as H1. cbv zeta in H1.
  pose proof (digits_bound m 64 Hm ltac:(lia)) as Hd.
  destruct (shr_fexp _ _ m e l) as [r1 e1]. cbn [fst snd] in H1.
  pose proof (round_nearest_even_bounds (shr_m r1) (loc_of_shr_record r1) ltac:(lia)) as H2.
  set (m2 := round_nearest_even _ _) in *.
  pose proof (digits_bound m2 65 ltac:(lia) ltac:(lia)) as Hd2.
  pose proof (shr_fexp_bounds m2 e1 loc_Exact (proj1 H2)) as H3. cbv zeta in H3.
  destruct (shr_fexp _ _ m2 e1 loc_Exact) as [r2 e2]. cbn [fst snd] in H3.
  destruct (shr_m r2); [done| |done]. destruct (Z.leb_spec e2 (f64_emax - f64_prec)) as [_|Hbig]; [done|].
  exfalso. assert (f64_emax - f64_prec = 971)%Z as Hmax by reflexivity. lia.
Qed.

Lemma normalize_is_a_number m e z : binary_normalize f64_prec f64_emax m e z ≠ S754_nan.
Proof. destruct m; cbn; [done| |]; unfold binary_round; destruct (shl_align _ _ _); by apply round_is_a_number. Qed.

Lemma below_digits p : (Z.pos p < 2 ^ Z.pos (digits2_pos p))%Z.
Proof.
  induction p as [p IH|p IH|]; cbn [digits2_pos]; [| |done]; rewrite Pos2Z.inj_succ, Z.pow_succ_r by lia; lia.
Qed.

Lemma iter_double p d : Z.pos (Pos.iter xO p d) = (Z.pos p * 2 ^ Z.pos d)%Z.
Proof.
  induction d as [|d IH] using Pos.peano_ind; [cbn; lia|].
  rewrite Pos.iter_succ, Pos2Z.inj_succ, Z.pow_succ_r by lia. lia.
Qed.

Lemma shl_align_bound p : (Z.pos p < 2 ^ 64)%Z →
  let r := shl_align p 0 (fexp f64_prec f64_emax (Z.pos (digits2_pos p) + 0)) in (Z.pos r.1 < 2 ^ 64 ∧ r.2 ≤ 0)%Z.
Proof.
  intros Hp. pose proof (below_digits p) as Hd.
  assert (fexp f64_prec f64_emax (Z.pos (digits2_pos p) + 0) = Z.max (Z.pos (digits2_pos p) - 53) (-1074)) as ->
    by (unfold fexp; rewrite Z.add_0_r; f_equal).
  unfold shl_align. destruct (_ - 0)%Z as [|d|d] eqn:Hs; cbn [fst snd]; [done|done|]. split; [|lia].
  rewrite iter_double. assert (Z.pos d = 53 - Z.pos (digits2_pos p))%Z as -> by lia.
  assert (2 ^ Z.pos (digits2_pos p) * 2 ^ (53 - Z.pos (digits2_pos p)) = 2 ^ 53)%Z as Hmul by (rewrite <- Z.pow_add_r by lia; f_equal; lia).
  assert (0 < 2 ^ (53 - Z.pos (digits2_pos p)))%Z by (apply Z.pow_pos_nonneg; lia).
  assert (2 ^ 53 < 2 ^ 64)%Z by reflexivity. nia.
Qed.

(** The sign is the one asked for. *)
Definition sign_of (x : f64) : option bool :=
  match x with S754_zero s | S754_infinity s | S754_finite s _ _ => Some s | S754_nan => None end.

Lemma round_keeps_sign s m e l : (0 ≤ m)%Z → sign_of (binary_round_aux f64_prec f64_emax s m e l) = Some s.
Proof.
  intros Hm. pose proof (round_is_a_number s m e l Hm) as Hn. revert Hn. unfold binary_round_aux.
  destruct (shr_fexp _ _ m e l) as [r1 e1]. destruct (shr_fexp _ _ _ e1 loc_Exact) as [r2 e2].
  destruct (shr_m r2); [done| |done]. by destruct (_ <=? _)%Z.
Qed.

(** A 64-bit integer is a finite float that is not negative. *)
Definition not_negative_finite (x : f64) : Prop := x = S754_zero false ∨ ∃ m e, x = S754_finite false m e.

Lemma f64_of_N_finite n : (n ≤ u64_max)%N → not_negative_finite (f64_of_N n).
Proof.
  intros Hn. unfold f64_of_N, f64_of_Z. destruct n as [|p]; cbn [Z.of_N binary_normalize]; [by left|]. unfold binary_round.
  assert (Z.pos p < 2 ^ 64)%Z as Hp by (unfold u64_max in Hn; lia).
  pose proof (shl_align_bound p Hp) as Hb. cbv zeta in Hb. destruct (shl_align _ _ _) as [m e]. cbn [fst snd] in Hb.
  pose proof (round_is_a_number false (Z.pos m) e loc_Exact ltac:(lia)) as Hnan.
  pose proof (round_is_finite false (Z.pos m) e loc_Exact ltac:(lia) ltac:(lia)) as Hinf.
  pose proof (round_keeps_sign false (Z.pos m) e loc_Exact ltac:(lia)) as Hsign.
  destruct (binary_round_aux _ _ _ _ _ _) as [s|s| |s m' e']; cbn in Hsign; [|by destruct (Hinf s)|done|]; injection Hsign as ->;
    [by left|right; eauto].
Qed.

(** *** Arithmetic on numbers *)

Lemma f64_sub_number x y : not_negative_finite x → not_negative_finite y → f64_sub x y ≠ S754_nan.
Proof.
  intros [->|(m & e & ->)] [->|(m' & e' & ->)]; try done. unfold f64_sub, SFsub. apply normalize_is_a_number.
Qed.

Lemma f64_div_number x m e : x ≠ S754_nan → f64_div x (S754_finite false m e) ≠ S754_nan.
Proof.
  intros Hx. destruct x as [s|s| |s m' e']; try done. unfold f64_div, SFdiv, SFdiv_core_binary. cbv zeta.
  set (num := match _ with Z0 => _ | Zpos _ => _ | Zneg _ => _ end).
  assert (0 ≤ num)%Z as Hnum by (unfold num; destruct (_ - _ - _)%Z; [lia|apply Z.shiftl_nonneg; lia|lia]).
  pose proof (Z_div_mod num (Z.pos m) ltac:(lia)) as Hdm. destruct (Z.div_eucl num (Z.pos m)) as [q r].
  apply round_is_a_number. destruct Hdm. nia.
Qed.

Lemma SFcompare_swap x y : SFcompare y x = CompOpp <$> SFcompare x y.
Proof.
  destruct x as [[]|[]| |[] m e], y as [[]|[]| |[] m' e']; try reflexivity; cbn; f_equal;
    rewrite (Z.compare_antisym e e'); destruct (e ?= e')%Z; try reflexivity; cbn;
    rewrite (Pos.compare_cont_antisym m m' Eq); cbn; by rewrite ?CompOpp_involutive.
Qed.

Lemma f64_not_less x y : x ≠ S754_nan → y ≠ S754_nan → SFltb x y = false → f64_le y x = true.
Proof.
  intros Hx Hy. unfold SFltb, f64_le, SFleb. rewrite (SFcompare_swap x y).
  destruct (SFcompare x y) as [[]|] eqn:Hc; try done. exfalso. by destruct x as [[]|[]| |[]], y as [[]|[]| |[]].
Qed.

(** A clamped number is within the bounds. *)
Lemma f64_clamp_within x low high :
  x ≠ S754_nan → low ≠ S754_nan → high ≠ S754_nan → f64_le low low = true → f64_le high high = true → f64_le low high = true →
  f64_le low (f64_clamp x low high) = true ∧ f64_le (f64_clamp x low high) high = true.
Proof.
  intros Hx Hl Hh Hll Hhh Hlh. unfold f64_clamp. destruct (SFltb x low) eqn:H1; [done|]. destruct (SFltb high x) eqn:H2; [done|].
  split; by apply f64_not_less.
Qed.

(** * Host metrics and GPUs

    [src/probes/host.rs] and [src/probes/gpu.rs]: what is read from [/proc] and
    from [nvidia-smi], and what is reported of it.  The texts of the files, the
    number of processors and the children of the command runner are arguments;
    so is the form a float takes in JSON and on its own in a message. *)

(** ** The host *)

Definition HOST_PROBE_ID : string := "host.metrics".

(** [HostMetrics]. *)
Record HostMetrics := mk_host_metrics {
  hm_load : option (f64 * f64 * f64);
  hm_memory_total_mb : option N;
  hm_memory_available_mb : option N;
  hm_uptime_seconds : option N;
  hm_boot_id : option string;
  hm_memory_pressure : option f64;
  hm_cpus : option N
}.

Definition f64_zero : f64 := S754_zero false.
Definition f64_one : f64 := f64_of_N 1.

(** [HostMetrics::memory_used_fraction] and [load_per_cpu]. *)
Definition memory_used_fraction (m : HostMetrics) : option f64 :=
  total ← f64_of_N <$> hm_memory_total_mb m;
  available ← f64_of_N <$> hm_memory_available_mb m;
  if f64_le total f64_zero then None
  else Some (f64_clamp (f64_div (f64_sub total available) total) f64_zero f64_one).

Definition load_per_cpu (m : HostMetrics) : option f64 :=
  load ← hm_load m;
  cpus ← hm_cpus m;
  if (0 <? cpus)%N then Some (f64_div load.1.1 (f64_of_N cpus)) else None.

(** [parse_loadavg]. *)
Definition parse_loadavg (text : string) : option (f64 * f64 * f64) :=
  match split_whitespace text with
  | a :: b :: c :: _ => a ← parse_f64 a; b ← parse_f64 b; c ← parse_f64 c; Some (a, b, c)
  | _ => None
  end.

(** [parse_meminfo]: the total and what is available. *)
Definition meminfo_field (name text : string) : option N :=
  '(_, line) ← list_find (λ line, starts_with name line = true) (lines text);
  kb ← split_whitespace line !! 1%nat;
  kb ← parse_u64 kb;
  Some (kb / 1024)%N.

Definition parse_meminfo (text : string) : option N * option N :=
  (meminfo_field "MemTotal:" text, meminfo_field "MemAvailable:" text).

(** [parse_uptime]. *)
Definition parse_uptime (text : string) : option N :=
  field ← head (split_whitespace text); f64_to_u64 <$> parse_f64 field.

(** [parse_pressure]. *)
Definition parse_pressure (text : string) : option f64 :=
  '(_, line) ← list_find (λ line, starts_with "some" line = true) (lines text);
  value ← head (omap (str_strip_prefix "avg10=") (split_whitespace line));
  parse_f64 value.

(** [HostThresholds]. *)
Record HostThresholds := mk_host_thresholds { max_load_per_cpu : f64; max_memory_used : f64; max_memory_pressure : f64 }.

Definition host_thresholds : HostThresholds :=
  mk_host_thresholds (f64_of_N 4) (f64_of_decimal false 95 (-2)) (f64_of_N 60).

(** [assess]: one reason for each limit that is passed. *)
Definition above (x limit : option f64) : bool :=
  match x, limit with Some x, Some limit => f64_gt x limit | _, _ => false end.

Definition assess_reasons (m : HostMetrics) (t : HostThresholds) : list string :=
  (match load_per_cpu m with
   | Some load => if f64_gt load (max_load_per_cpu t)
                  then ["load per cpu " +:+ show_fixed 2 load +:+ " above " +:+ show_fixed 2 (max_load_per_cpu t)] else []
   | None => []
   end
   ++ match memory_used_fraction m with
      | Some used => if f64_gt used (max_memory_used t)
                     then ["memory " +:+ show_fixed 0 (f64_mul used (f64_of_N 100)) +:+ "% used"] else []
      | None => []
      end
   ++ match hm_memory_pressure m with
      | Some pressure => if f64_gt pressure (max_memory_pressure t) then ["memory pressure " +:+ show_fixed 1 pressure] else []
      | None => []
      end)%list.

Definition assess (m : HostMetrics) (t : HostThresholds) : ProbeStatus * list string :=
  let reasons := assess_reasons m t in
  (match reasons with [] => Probe_Ok | _ => Probe_Degraded end, reasons).

(** [HostMetricsProbe::read]; [file] is what reading a file of [/proc] gives. *)
Definition read_metrics (file : string → option string) (parallelism : option N) : HostMetrics :=
  let memory := default (None, None) (parse_meminfo <$> file "meminfo") in
  mk_host_metrics (file "loadavg" ≫= parse_loadavg) memory.1 memory.2 (file "uptime" ≫= parse_uptime)
    (trim <$> file "sys/kernel/random/boot_id") (file "pressure/memory" ≫= parse_pressure) ((λ n, n mod (u32_max + 1))%N <$> parallelism).

Section host.
Context `{J : JsonApi}.
Variables (id : ObservationId) (clock : Timestamp).
(** [json!] of a float. *)
Variable json_of_f64 : f64 → json.

Definition json_opt_f64 : option f64 → json := json_of_option json_of_f64.

(** [HostMetricsProbe::collect]. *)
Definition host_collect (file : string → option string) (parallelism : option N) (thresholds : HostThresholds) (c : ProbeContext) :
    Observation :=
  let m := read_metrics file parallelism in
  match hm_load m, hm_memory_total_mb m, hm_uptime_seconds m with
  | None, None, None =>
      with_error (observation_new id clock HOST_PROBE_ID (context_target c) Probe_Unsupported)
        "proc_unreadable" "cannot read /proc on this host"
  | _, _, _ =>
      let '(status, reasons) := assess m thresholds in
      with_payload (observation_new id clock HOST_PROBE_ID (context_target c) status)
        (json_object [
           ("load", json_of_option (λ l, json_of_array [json_of_f64 l.1.1; json_of_f64 l.1.2; json_of_f64 l.2]) (hm_load m));
           ("load_per_cpu", json_opt_f64 (load_per_cpu m));
           ("cpus", json_opt_u64 (hm_cpus m));
           ("memory_total_mb", json_opt_u64 (hm_memory_total_mb m));
           ("memory_available_mb", json_opt_u64 (hm_memory_available_mb m));
           ("memory_used_fraction", json_opt_f64 (memory_used_fraction m));
           ("memory_pressure", json_opt_f64 (hm_memory_pressure m));
           ("uptime_seconds", json_opt_u64 (hm_uptime_seconds m));
           ("boot_id", json_opt_str (hm_boot_id m));
           ("reasons", json_strings reasons)])
  end.
End host.

(** ** GPUs *)

Definition GPU_PROBE_ID : string := "gpu.nvidia".
Definition QUERY_FIELDS : list string :=
  ["index"; "uuid"; "name"; "temperature.gpu"; "memory.total"; "memory.used"; "utilization.gpu"; "power.draw"].

(** [Gpu]. *)
Record Gpu := mk_gpu {
  gpu_index : N;
  gpu_uuid : string;
  gpu_name : string;
  gpu_temperature_c : option f64;
  gpu_memory_total_mb : option N;
  gpu_memory_used_mb : option N;
  gpu_utilization_percent : option f64;
  gpu_power_w : option f64
}.

(** [Gpu::memory_used_fraction]. *)
Definition gpu_memory_used_fraction (g : Gpu) : option f64 :=
  total ← f64_of_N <$> gpu_memory_total_mb g;
  if f64_le total f64_zero then None
  else used ← f64_of_N <$> gpu_memory_used_mb g; Some (f64_clamp (f64_div used total) f64_zero f64_one).

(** A field of a line, unless it is a placeholder. *)
Definition gpu_field (fields : list string) (index : nat) : option string :=
  value ← trim <$> fields !! index;
  if is_empty value || starts_with "[N/A" value || starts_with "[Not" value then None else Some value.

Definition parse_gpu (line : string) : option Gpu :=
  let fields := map trim (split_char "," line) in
  if (length fields <? 3)%nat then None
  else
    index ← gpu_field fields 0 ≫= parse_u32;
    uuid ← gpu_field fields 1;
    name ← gpu_field fields 2;
    Some (mk_gpu index uuid name (gpu_field fields 3 ≫= parse_f64) (gpu_field fields 4 ≫= parse_u64) (gpu_field fields 5 ≫= parse_u64)
            (gpu_field fields 6 ≫= parse_f64) (gpu_field fields 7 ≫= parse_f64)).

(** [parse_query]. *)
Definition parse_query (output : string) : list Gpu :=
  omap parse_gpu (filter (λ line, is_empty line = false) (map trim (lines output))).

(** [QueryError]. *)
Inductive QueryError := Query_Missing (e : CommandError) | Query_Unavailable (detail : string).

Definition query_error_detail (e : QueryError) : string :=
  match e with Query_Missing e => show_command_error e | Query_Unavailable detail => detail end.

Section gpu.
Context `{J : JsonApi}.
Variable pipe_capacity : nat.
Variables (id : ObservationId) (clock : Timestamp).
Variables (json_of_f64 : f64 → json) (show_f64 : f64 → string).
(** Whether an error of the operating system says that there is no such file. *)
Variable not_found : string → bool.

(** The command of [query_result]. *)
Definition nvidia_smi (d : ProbeDefinition) : CommandRunner :=
  with_output_limit
    (with_timeout
       (with_args (command_new "nvidia-smi") ["--query-gpu=" +:+ str_join "," QUERY_FIELDS; "--format=csv,noheader,nounits"])
       (timeout d))
    (256 * 1024).

(** [NvidiaGpuProbe::query_result]. *)
Definition query_gpus (world : string → list string → Spawned) (d : ProbeDefinition) : list Gpu + QueryError :=
  match run_command pipe_capacity (nvidia_smi d) builtin world with
  | inr e => inr (match e with
                  | Spawn _ source => if not_found source then Query_Missing e else Query_Unavailable (show_command_error e)
                  | _ => Query_Unavailable (show_command_error e)
                  end)
  | inl out => if negb (is_success out) then inr (Query_Unavailable ("nvidia-smi failed: " +:+ trim (stderr out)))
               else inl (parse_query (stdout out))
  end.

Definition json_of_gpu (g : Gpu) : json :=
  json_object [("index", json_of_u64 (gpu_index g)); ("uuid", json_of_str (gpu_uuid g)); ("name", json_of_str (gpu_name g));
    ("temperature_c", json_opt_f64 json_of_f64 (gpu_temperature_c g)); ("memory_total_mb", json_opt_u64 (gpu_memory_total_mb g));
    ("memory_used_mb", json_opt_u64 (gpu_memory_used_mb g)); ("utilization_percent", json_opt_f64 json_of_f64 (gpu_utilization_percent g));
    ("power_w", json_opt_f64 json_of_f64 (gpu_power_w g))].

Definition is_hot (limit : f64) (g : Gpu) : bool := match gpu_temperature_c g with Some t => f64_gt t limit | None => false end.

(** [GpuThresholds::default]. *)
Definition gpu_temperature_limit : f64 := f64_of_N 90.

(** The observation of a query that failed, and of one that was answered. *)
Definition gpu_failed (c : ProbeContext) (expected : option N) (e : QueryError) : Observation :=
  let '(status, code) := match e with
                         | Query_Missing _ => (Probe_NotApplicable, "nvidia_smi_missing")
                         | Query_Unavailable _ =>
                             (match expected with Some n => if (0 <? n)%N then Probe_Failed else Probe_Unsupported | None => Probe_Unsupported end,
                              "nvidia_smi_unavailable")
                         end in
  with_error (with_payload (observation_new id clock GPU_PROBE_ID (context_target c) status)
                (json_object [("expected_gpu_count", json_opt_u64 expected)]))
    code (query_error_detail e).

Definition gpu_answered (c : ProbeContext) (limit : f64) (expected : option N) (gpus : list Gpu) : Observation :=
  let hot := filter (λ g, is_hot limit g = true) gpus in
  let present := N.of_nat (length gpus) in
  let mismatch := match expected with Some n => negb (n =? present)%N | None => false end in
  let status := if mismatch || negb (bool_decide (hot = [])) then Probe_Degraded else Probe_Ok in
  let o := with_payload (observation_new id clock GPU_PROBE_ID (context_target c) status)
             (json_object [("gpu_count", json_of_u64 present);
                           ("expected_gpu_count", json_opt_u64 expected);
                           ("count_matches_expectation", json_of_option json_of_bool ((λ n, n =? present)%N <$> expected));
                           ("gpus", json_of_array (map json_of_gpu gpus));
                           ("hot_gpu_count", json_of_u64 (N.of_nat (length hot)));
                           ("temperature_threshold_c", json_of_f64 limit)]) in
  if mismatch then with_error o "gpu_count_mismatch" (show_N (default 0%N expected) +:+ " GPU(s) expected, " +:+ show_N present +:+ " present")
  else if negb (bool_decide (hot = [])) then
    with_error o "gpu_temperature" (show_nat (length hot) +:+ " GPU(s) above " +:+ show_f64 limit +:+ "C")
  else o.

(** [NvidiaGpuProbe::collect]. *)
Definition gpu_collect (world : string → list string → Spawned) (d : ProbeDefinition) (limit : f64) (c : ProbeContext) : Observation :=
  let expected := parameter_u64 c "expected_gpu_count" in
  match query_gpus world d with
  | inr e => gpu_failed c expected e
  | inl gpus => gpu_answered c limit expected gpus
  end.
End gpu.

(** * What is reported

    A host is degraded for a limit it passes and for nothing else, a query that
    failed counts no cards, and the numbers reported are numbers. *)

(** ** Memory *)

(** The fraction of memory in use is a number from zero to one, also when the
    kernel reports more available than there is. *)
Lemma memory_fraction_within m total available f :
  hm_memory_total_mb m = Some total → hm_memory_available_mb m = Some available → (total ≤ u64_max)%N → (available ≤ u64_max)%N →
  memory_used_fraction m = Some f → f64_le f64_zero f = true ∧ f64_le f f64_one = true.
Proof.
  intros Ht Ha Htm Ham. unfold memory_used_fraction. rewrite Ht, Ha. cbn [fmap option_fmap option_map mbind option_bind].
  pose proof (f64_of_N_finite total Htm) as Hft. pose proof (f64_of_N_finite available Ham) as Hfa.
  destruct (f64_le (f64_of_N total) f64_zero) eqn:Hz; [done|]. intros [= <-].
  apply f64_clamp_within; try done; [|by vm_compute..].
  destruct Hft as [Hft|(mt & et & Hft)]; [by rewrite Hft in Hz|].
  pose proof (f64_sub_number (f64_of_N total) (f64_of_N available) ltac:(right; eauto) Hfa) as Hsub.
  rewrite Hft at 2. by apply f64_div_number.
Qed.

Lemma parse_u64_bound s n : parse_u64 s = Some n → (n ≤ u64_max)%N.
Proof.
  unfold parse_u64, parse_uint. destruct (is_empty _); [done|]. destruct (all_bytes _ _); [|done]. cbv zeta.
  case_bool_decide; [|done]. by intros [= <-].
Qed.

Lemma meminfo_field_bound name text n : meminfo_field name text = Some n → (n ≤ u64_max)%N.
Proof.
  unfold meminfo_field. destruct (list_find _ _) as [[i line]|]; cbn [mbind option_bind]; [|done].
  destruct (split_whitespace line !! 1%nat) as [kb|]; cbn [mbind option_bind]; [|done].
  destruct (parse_u64 kb) as [k|] eqn:Hk; cbn [mbind option_bind]; [|done].
  intros [= <-]. apply parse_u64_bound in Hk. etransitivity; [|exact Hk]. apply N.Div0.div_le_upper_bound. lia.
Qed.

(** ** The verdict on a host *)

Section host.
Context `{J : JsonApi} `{JL : !JsonLaws}.
Variables (id : ObservationId) (clock : Timestamp) (json_of_f64 : f64 → json).

(** A limit that is passed. *)
Definition exceeds (x : option f64) (limit : f64) : Prop := ∃ f, x = Some f ∧ f64_gt f limit = true.

#[global] Instance exceeds_dec x limit : Decision (exceeds x limit).
Proof.
  destruct x as [f|]; [|right; by intros (? & ? & _)]. destruct (f64_gt f limit) eqn:Hf; [left; by exists f|right].
  intros (g & [= <-] & Hg). congruence.
Qed.

Lemma assess_reasons_none m t :
  assess_reasons m t = [] ↔
    ¬ exceeds (load_per_cpu m) (max_load_per_cpu t) ∧ ¬ exceeds (memory_used_fraction m) (max_memory_used t)
    ∧ ¬ exceeds (hm_memory_pressure m) (max_memory_pressure t).
Proof.
  unfold assess_reasons. rewrite !app_nil.
  assert (∀ (x : option f64) limit (reason : f64 → string),
    match x with Some f => if f64_gt f limit then [reason f] else [] | None => [] end = [] ↔ ¬ exceeds x limit) as Heach.
  { intros [f|] limit reason; unfold exceeds; split; try done.
    - destruct (f64_gt f limit) eqn:Hf; [done|]. intros _ (f' & [= <-] & Hf'). congruence.
    - destruct (f64_gt f limit) eqn:Hf; [|done]. intros []. eauto.
    - by intros _ (? & ? & _). }
  rewrite (Heach (load_per_cpu m) (max_load_per_cpu t) (λ load, "load per cpu " +:+ show_fixed 2 load +:+ " above " +:+ show_fixed 2 (max_load_per_cpu t))).
  rewrite (Heach (memory_used_fraction m) (max_memory_used t) (λ used, "memory " +:+ show_fixed 0 (f64_mul used (f64_of_N 100)) +:+ "% used")).
  by rewrite (Heach (hm_memory_pressure m) (max_memory_pressure t) (λ pressure, "memory pressure " +:+ show_fixed 1 pressure)).
Qed.

End host.

(** A host is reported on as far as [/proc] can be read: unsupported when
    nothing can, degraded exactly when the load per processor, the memory in use
    or the memory pressure is above its limit, each with its reason, and in
    order otherwise; it is never reported as failed, and the fraction of memory
    in use, when there is one, lies between zero and one. *)
Theorem host_is_judged_by_its_limits `{J : JsonApi} `{JL : !JsonLaws} id clock json_of_f64 file parallelism t c :
  let m := read_metrics file parallelism in
  let o := host_collect id clock json_of_f64 file parallelism t c in
  let unreadable := hm_load m = None ∧ hm_memory_total_mb m = None ∧ hm_uptime_seconds m = None in
  let over := exceeds (load_per_cpu m) (max_load_per_cpu t) ∨ exceeds (memory_used_fraction m) (max_memory_used t)
              ∨ exceeds (hm_memory_pressure m) (max_memory_pressure t) in
  (status o = Probe_Unsupported ↔ unreadable)
  ∧ (status o = Probe_Degraded ↔ ¬ unreadable ∧ over)
  ∧ (status o = Probe_Ok ↔ ¬ unreadable ∧ ¬ over)
  ∧ (¬ unreadable → json_get (payload o) "reasons" = Some (json_strings (assess_reasons m t)))
  ∧ ∀ f, memory_used_fraction m = Some f → f64_le f64_zero f = true ∧ f64_le f f64_one = true.
Proof.
  cbv zeta. set (m := read_metrics file parallelism).
  assert (∀ f, memory_used_fraction m = Some f → f64_le f64_zero f = true ∧ f64_le f f64_one = true) as Hmem.
  { intros f Hf. destruct (hm_memory_total_mb m) as [total|] eqn:Ht; [|by unfold memory_used_fraction in Hf; rewrite Ht in Hf].
    destruct (hm_memory_available_mb m) as [available|] eqn:Ha; [|by unfold memory_used_fraction in Hf; rewrite Ht, Ha in Hf].
    eapply memory_fraction_within; [exact Ht|exact Ha| | |exact Hf]; unfold m, read_metrics in Ht, Ha; cbn in Ht, Ha;
      (destruct (file "meminfo") as [text|]; cbn in Ht, Ha; [|done]); by eapply meminfo_field_bound. }
  pose proof (assess_reasons_none m t) as Hnone.
  assert ((hm_load m = None ∧ hm_memory_total_mb m = None ∧ hm_uptime_seconds m = None) ∨
          ¬ (hm_load m = None ∧ hm_memory_total_mb m = None ∧ hm_uptime_seconds m = None)) as [Hun|Hread].
  { destruct (hm_load m), (hm_memory_total_mb m), (hm_uptime_seconds m); first [by left|by right; intros (? & ? & ?)]. }
  - assert (status (host_collect id clock json_of_f64 file parallelism t c) = Probe_Unsupported) as ->.
    { unfold host_collect. fold m. cbv zeta. by destruct Hun as (-> & -> & ->). }
    split_and!; try done; split; try done; by intros [? _].
  - set (o := host_collect _ _ _ _ _ _ _).
    assert (status o = (assess m t).1 ∧ json_get (payload o) "reasons" = Some (json_strings (assess_reasons m t))) as [-> Hreasons].
    { unfold o, host_collect. fold m. cbv zeta. unfold assess. cbn [fst].
      destruct (hm_load m), (hm_memory_total_mb m), (hm_uptime_seconds m); try (by destruct Hread); (split; [done|]);
        unfold with_payload; cbn [payload]; by read_field. }
    assert ((assess m t).1 = Probe_Ok ∧ assess_reasons m t = [] ∨ (assess m t).1 = Probe_Degraded ∧ assess_reasons m t ≠ []) as Hverdict
      by (unfold assess; cbn [fst]; destruct (assess_reasons m t); [by left|by right]).
    rewrite Hnone in Hverdict.
    destruct (decide (exceeds (load_per_cpu m) (max_load_per_cpu t))), (decide (exceeds (memory_used_fraction m) (max_memory_used t))),
      (decide (exceeds (hm_memory_pressure m) (max_memory_pressure t)));
      destruct Hverdict as [[-> Hv]|[-> Hv]]; try tauto; (split_and!; [..|done|done]); split; try done; tauto.
Qed.

(** ** GPUs *)

Section gpus.
Context `{J : JsonApi} `{JL : !JsonLaws}.
Variables (id : ObservationId) (clock : Timestamp) (json_of_f64 : f64 → json) (show_f64 : f64 → string).

(** The count a report gives. *)
Definition reported_count (o : Observation) : option N := json_get (payload o) "gpu_count" ≫= json_as_u64.

Lemma gpu_failed_reports c expected e :
  let o := gpu_failed id clock c expected e in
  status o = match e with
             | Query_Missing _ => Probe_NotApplicable
             | Query_Unavailable _ => if (0 <? default 0 expected)%N then Probe_Failed else Probe_Unsupported
             end
  ∧ json_get (payload o) "gpu_count" = None.
Proof.
  cbv zeta. unfold gpu_failed. destruct e as [e|detail]; (split; [|unfold with_error, with_payload; cbn [payload]; by read_field]); [done|].
  by destruct expected.
Qed.

Lemma gpu_answered_reports c limit expected gpus :
  (N.of_nat (length gpus) ≤ u64_max)%N →
  let o := gpu_answered id clock json_of_f64 show_f64 c limit expected gpus in
  (status o = Probe_Ok ∨ status o = Probe_Degraded)
  ∧ (status o = Probe_Degraded ↔ (∃ n, expected = Some n ∧ n ≠ N.of_nat (length gpus)) ∨ Exists (λ g, is_hot limit g = true) gpus)
  ∧ reported_count o = Some (N.of_nat (length gpus)).
Proof.
  intros Hlen. cbv zeta. unfold gpu_answered. cbv zeta.
  set (hot := filter _ gpus). set (mismatch := match expected with Some _ => _ | None => _ end).
  assert (mismatch = true ↔ ∃ n, expected = Some n ∧ n ≠ N.of_nat (length gpus)) as <-.
  { unfold mismatch. destruct expected as [n|]; [|by split; [|intros (? & ? & _)]].
    rewrite negb_true_iff, N.eqb_neq. split; [eauto|]. by intros (? & [= <-] & ?). }
  assert (negb (bool_decide (hot = [])) = true ↔ Exists (λ g, is_hot limit g = true) gpus) as <-.
  { rewrite negb_true_iff, bool_decide_eq_false, Exists_exists. split.
    - destruct hot as [|g l] eqn:Hh; [done|]. intros _. exists g. assert (g ∈ hot) as Hg by (rewrite Hh; by left).
      unfold hot in Hg. apply list_elem_of_filter in Hg. tauto.
    - intros (g & Hg & Hot) Hnil. assert (g ∈ hot) as Hin by (by apply list_elem_of_filter). rewrite Hnil in Hin. by apply elem_of_nil in Hin. }
  unfold reported_count. destruct mismatch, (negb (bool_decide (hot = []))); unfold with_error, with_payload; cbn [payload status orb];
    (split_and!; [tauto|naive_solver|]); read_field; cbn [mbind option_bind]; by apply json_as_u64_of.
Qed.
End gpus.

(** Cards are counted or they are not: a query that was answered reports as
    many cards as it lists, degraded exactly when that is not the number expected
    or some card is too hot, and a query that failed reports no number at all,
    which does not apply where the program is missing and is a fault only where
    cards are expected. *)
Theorem cards_are_counted_or_not `{J : JsonApi} `{JL : !JsonLaws} capacity id clock json_of_f64 show_f64 not_found world d limit c :
  let expected := parameter_u64 c "expected_gpu_count" in
  let o := gpu_collect capacity id clock json_of_f64 show_f64 not_found world d limit c in
  match query_gpus capacity not_found world d with
  | inl gpus =>
      (N.of_nat (length gpus) ≤ u64_max)%N →
      reported_count o = Some (N.of_nat (length gpus))
      ∧ (status o = Probe_Ok ∨ status o = Probe_Degraded)
      ∧ (status o = Probe_Degraded ↔ (∃ n, expected = Some n ∧ n ≠ N.of_nat (length gpus)) ∨ Exists (λ g, is_hot limit g = true) gpus)
  | inr (Query_Missing _) => reported_count o = None ∧ status o = Probe_NotApplicable
  | inr (Query_Unavailable _) =>
      reported_count o = None ∧ status o = if (0 <? default 0 expected)%N then Probe_Failed else Probe_Unsupported
  end.
Proof.
  cbv zeta. unfold gpu_collect. destruct (query_gpus _ _ _ _) as [gpus|e].
  - intros Hlen. destruct (gpu_answered_reports id clock json_of_f64 show_f64 c limit (parameter_u64 c "expected_gpu_count") gpus Hlen)
      as (H1 & H2 & H3). done.
  - destruct (gpu_failed_reports id clock c (parameter_u64 c "expected_gpu_count") e) as [Hs Hg].
    unfold reported_count. rewrite Hg, Hs. by destruct e.
Qed.

(** Two cards, of which one is too hot, where three are expected. *)
Definition sample_smi : string → list string → Spawned := λ _ _,
  Runs (mk_child ("0, GPU-a, NVIDIA A100, 40, 81920, 12, 3, [N/A]" +:+ String "010" "1, GPU-b, NVIDIA A100, 91.5, 81920, [N/A], 0, 55.2" +:+ String "010" "") "" (Some 0%Z) 0).

Lemma sample_query : ∃ gpus, query_gpus 4096 (λ _, false) sample_smi gpu_definition = inl gpus
  ∧ map (λ g, (gpu_index g, is_hot gpu_temperature_limit g)) gpus = [(0%N, false); (1%N, true)].
Proof. eexists. split; vm_compute; reflexivity. Qed.

Definition sample_gpu_context : ProbeContext :=
  mk_context sample_host_id None ∅ (json_object [("expected_gpu_count", json_of_u64 3)]) 0.

Lemma cards_are_counted_or_not_witness :
  let o := gpu_collect 4096 sample_observation_id 0 (λ _, json_null) (λ _, "90") (λ _, false) sample_smi gpu_definition
             gpu_temperature_limit sample_gpu_context in
  reported_count o = Some 2%N ∧ status o = Probe_Degraded.
Proof.
  cbv zeta. destruct sample_query as (gpus & Hq & Hg).
  assert (length gpus = 2%nat) as Hlen by (by rewrite <- (length_map (λ g, (gpu_index g, is_hot gpu_temperature_limit g))), Hg).
  pose proof (cards_are_counted_or_not 4096 sample_observation_id 0 (λ _, json_null) (λ _, "90") (λ _, false) sample_smi gpu_definition
    gpu_temperature_limit sample_gpu_context) as H. cbv zeta in H. rewrite Hq in H.
  destruct H as (Hc & _ & Hd); [by rewrite Hlen|]. rewrite Hlen in Hc. split; [exact Hc|]. apply Hd. left. exists 3%N.
  split; [reflexivity|by rewrite Hlen].
Defined.

(** A loaded host whose kernel reports more memory available than there is. *)
Definition sample_proc : string → option string := λ path,
  if String.eqb path "loadavg" then Some "33.5 20.1 12.0 2/1024 99"
  else if String.eqb path "meminfo" then Some ("MemTotal: 1048576 kB" +:+ String "010" "MemAvailable: 2097152 kB")
  else None.

Lemma host_is_judged_by_its_limits_witness :
  let m := read_metrics sample_proc (Some 8%N) in
  assess_reasons m host_thresholds = ["load per cpu 4.19 above 4.00"]
  ∧ memory_used_fraction m = Some f64_zero
  ∧ status (host_collect sample_observation_id 0 (λ _, json_null) sample_proc (Some 8%N) host_thresholds sample_gpu_context) = Probe_Degraded.
Proof.
  cbv zeta. split; [vm_compute; reflexivity|]. split; [vm_compute; reflexivity|].
  destruct (host_is_judged_by_its_limits sample_observation_id 0 (λ _, json_null) sample_proc (Some 8%N) host_thresholds sample_gpu_context)
    as (_ & Hd & _). cbv zeta in Hd. apply Hd. split.
  - intros (Hl & _). vm_compute in Hl. discriminate Hl.
  - left. eexists. split; vm_compute; reflexivity.
Defined.
