(* ===== verification/Controller.v ===== *)
(** * The whole controller over its whole database

    [src/controller/mod.rs] and [server.rs]: one value that holds everything a
    controller keeps in memory and in its tables, every operation that changes
    it with the references the schema of the [observations] table checks and
    with the saving of the engine, and the tasks that take turns at it.

    [Ingest], [Registration] and [Discovery] say what an operation does once the
    database takes it; here a transaction can be refused, and then nothing of it
    is kept. *)

From S2P Require Import Concrete.
From S2P Require Export IngestSpec RegistrationSpec DiscoverySpec CorrelateSpec Config.

Local Open Scope string_scope.

(** [DEFAULT_SCHEDULER_NAME] and [scheduler_name]. *)
Definition DEFAULT_SCHEDULER_NAME : string := "slurm".

Definition scheduler_name (c : Config) : string :=
  default DEFAULT_SCHEDULER_NAME
    (declared_name <$> head (filter (λ e, declared_type e = "scheduler") (config_entities c))).

Section controller.
Context `{J : JsonApi} `{U : UuidApi} `{T : TimeApi} `{CH : ChronoApi} `{HI : HashIter} `{SC : StreamCodec}.
Context (julianday_within : Timestamp → Timestamp → Z → bool).
(** The rows of [observations] in the order of their [rowid]. *)
Context (rows_of : gmap ObservationId ObservationRow → list ObservationRow).

(** [Controller] and the tables of its store; [ct_hostname] is what the host
    says of itself. *)
Record Controller := mk_controller {
  ct_config : Config;
  ct_hostname : option string;
  ct_registrar : Registrar;
  ct_incidents : IncidentEngine;
  ct_tables : EngineTables;
  ct_incident_tables : IncidentTables
}.

Definition with_registrar (r : Registrar) (c : Controller) : Controller :=
  mk_controller (ct_config c) (ct_hostname c) r (ct_incidents c) (ct_tables c) (ct_incident_tables c).
Definition with_saved_engine (r : Registrar) (t : EngineTables) (c : Controller) : Controller :=
  mk_controller (ct_config c) (ct_hostname c) r (ct_incidents c) t (ct_incident_tables c).
Definition with_incident_tables (t : IncidentTables) (c : Controller) : Controller :=
  mk_controller (ct_config c) (ct_hostname c) (ct_registrar c) (ct_incidents c) (ct_tables c) t.

Definition ct_environment (c : Controller) : string := reg_environment (ct_registrar c).
Definition ct_inventory (c : Controller) : InventoryTables := reg_tables (ct_registrar c).
Definition ct_engine (c : Controller) : StateEngine := reg_engine (ct_registrar c).

(** The controller as a pass over the evidence sees it, and back. *)
Definition correlator_of (c : Controller) : Correlator :=
  mk_correlator (ct_environment c) (config_probes (ct_config c)) (cc_inventory_interval (config_controller (ct_config c)))
    (ct_hostname c) (ct_engine c) (ct_incidents c) (ct_inventory c) (rows_of (reg_observations (ct_registrar c)))
    (ct_tables c) (ct_incident_tables c).

Definition with_correlator (p : Correlator) (c : Controller) : Controller :=
  let r := ct_registrar c in
  mk_controller (ct_config c) (ct_hostname c)
    (mk_registrar (reg_environment r) (reg_tables r) (reg_providers r) (reg_observations r) (co_engine p))
    (co_incidents p) (co_tables p) (co_incident_tables p).

(** ** Storing observations *)

(** [target_entity_id TEXT NOT NULL REFERENCES entities(id)] and
    [observer_entity_id TEXT REFERENCES entities(id)], of the rows an ingestion
    inserts. *)
Definition refers_to_entities (inv : InventoryTables) (o : Observation) : bool :=
  bool_decide (target_entity o ∈ dom (t_entities inv))
  && match observer_entity o with Some e => bool_decide (e ∈ dom (t_entities inv)) | None => true end.

Definition references_met (c : Controller) (os : list Observation) : bool :=
  forallb (refers_to_entities (ct_inventory c)) (first_new (reg_observations (ct_registrar c)) os).

(** [ingest_observations_recorded] with the transaction of
    [apply_observations]: rows, engine and transitions are one commit. *)
Definition store_observations (r : Readings) (os : list Observation) (c : Controller) :
    Controller * outcome (IngestOutcome * list StateTransition) :=
  let core := ct_registrar c in
  if negb (references_met c os) then (c, Failure Store_Database)
  else
    let '(g, out, ts) := ingest_observations_recorded r os (ingestor_of core) in
    match save_engine (reg_tables core) (reg_environment core) (ing_engine g) ts (ct_tables c) with
    | inl e => (c, Failure e)
    | inr t =>
        (with_saved_engine (mk_registrar (reg_environment core) (reg_tables core) (reg_providers core) (ing_table g) (ing_engine g))
           t c, Success (out, ts))
    end.

(** [Controller::ingest_agent_batch]. *)
Definition store_batch (r : Readings) (batch : list Observation) (c : Controller) : Controller * outcome BatchResponse :=
  match load_entities (ct_environment c) (ct_inventory c) with
  | inl e => (c, Failure e)
  | inr es =>
      let known : gset EntityId := list_to_set (map entity_eid es) in
      let accepted := filter (λ o, target_entity o ∈ known) batch in
      let rejected := filter (λ o, target_entity o ∉ known) batch in
      match store_observations r accepted c with
      | (c, Success (out, _)) =>
          (c, Success {| resp_accepted := inserted out; resp_duplicates := duplicates out;
                         resp_rejected := map (λ o,
                           {| rejected_id := uuid_to_string (observation_uuid (observation_id o));
                              rejected_reason := "unknown target entity " +:+ entity_id_to_string (target_entity o) |})
                           rejected |})
      | (c, Failure e) => (c, Failure e)
      | (c, Panic) => (c, Panic)
      end
  end.

(** ** Registering *)

(** [Controller::ingest_snapshot]: the engine is saved when its configuration
    changed what is shown. *)
Definition store_snapshot (now : Timestamp) (fresh : EntityId → StateComponent → Uuid) (s : InventorySnapshot)
    (c : Controller) : Controller * outcome Inventory :=
  let old := ct_registrar c in
  match ingest_snapshot now fresh s old with
  | (core, Success inv) =>
      match (configure_all now fresh (snapshot_entities s) (reg_engine old)).2 with
      | [] => (with_registrar core c, Success inv)
      | ts =>
          match save_engine (reg_tables core) (reg_environment core) (reg_engine core) ts (ct_tables c) with
          | inl e =>
              (with_registrar (mk_registrar (reg_environment core) (reg_tables core) (reg_providers core) (reg_observations core)
                                 (reg_engine old)) c, Failure e)
          | inr t => (with_saved_engine core t c, Success inv)
          end
      end
  | (core, Failure e) => (with_registrar core c, Failure e)
  | (core, Panic) => (with_registrar core c, Panic)
  end.

(** [Controller::register_agent]. *)
Definition store_registration (r : Readings) (oid : ObservationId) (q : RegisterRequest) (c : Controller) :
    Controller * outcome Registration :=
  let id := entity_id_of (req_environment q) Entity_Host (req_hostname q) in
  match stored_boot_id id (ct_registrar c) with
  | inl err => (c, Failure err)
  | inr previous =>
      match store_snapshot (engine_now r) (fresh_id r) (snapshot_from_registration (engine_now r) q) c with
      | (c, Failure err) => (c, Failure err)
      | (c, Panic) => (c, Panic)
      | (c, Success _) =>
          if boot_changed previous (req_boot_id q) then
            match store_observations r [boot_observation oid (engine_now r) id previous (req_boot_id q)] c with
            | (c, Success _) => (c, Success (mk_registration id true))
            | (c, Failure err) => (c, Failure err)
            | (c, Panic) => (c, Panic)
            end
          else (c, Success (mk_registration id false))
      end
  end.

(** ** Discovery and diagnosis *)

Definition discovery_of (c : Controller) : DiscoveryConfig :=
  mk_discovery_config (config_probes (ct_config c)) (cc_observe (config_controller (ct_config c)))
    (nfs_enabled (config_discovery (ct_config c))) (scheduler_name (ct_config c)) (observer_of (correlator_of c)).

(** [Controller::slurm_provider]: whom a cycle asks about Slurm, and what it says. *)
Definition slurm_provider (c : Controller) : option ScontrolClient :=
  let settings := config_discovery (ct_config c) in
  then_some (slurm_enabled settings) (scontrol_with_path (scontrol_path settings)).

Definition slurm_answer (pipe_capacity : nat) (world : string → list string → Spawned) (c : Controller) :
    option (SlurmView.Unavailable + SlurmView) :=
  collect_view pipe_capacity world <$> slurm_provider c.

(** What a cycle goes and observes: the hosts as the providers left them, and
    what the scheduler said. *)
Definition observed_in_cycle (w : World) (c : Controller) : list Observation :=
  match load_inventory (ct_environment c) (ct_inventory c) with
  | inl _ => []
  | inr inv => cycle_observations (discovery_of c) w (ct_environment c) (gather inv (w_answers w)).1.1
  end.

(** [Controller::discover_once]: what [Discovery.discover_once] does, with the
    observations stored as above and the diagnoses it ends with. *)
Definition store_cycle (rules : DiagnosisEngine) (k : Clocks) (w : World) (c : Controller) :
    Controller * outcome (DiscoveryReport * list Diagnosis) :=
  let old := ct_registrar c in
  match discover_once julianday_within (discovery_of c) w old with
  | (core, Failure e) => (with_registrar core c, Failure e)
  | (core, Panic) => (with_registrar core c, Panic)
  | (core, Success report) =>
      let saved := mk_registrar (reg_environment core) (reg_tables core) (reg_providers core) (reg_observations old) (reg_engine old) in
      match store_observations (w_readings w) (observed_in_cycle w c) (with_registrar saved c) with
      | (c, Failure e) => (c, Failure e)
      | (c, Panic) => (c, Panic)
      | (c, Success _) =>
          match controller_diagnose julianday_within rules k (correlator_of c) with
          | Success ds => (c, Success (report, ds))
          | Failure e => (c, Failure e)
          | Panic => (c, Panic)
          end
      end
  end.

(** [Controller::diagnose_and_correlate]. *)
Definition diagnosis_pass `{IP : IncidentPass} (rules : DiagnosisEngine) (k kd kc : Clocks) (c : Controller) :
    Controller * outcome (list Diagnosis * IncidentUpdate) :=
  let '(r, p) := diagnose_and_correlate julianday_within rules k kd kc (correlator_of c) in
  (with_correlator p c, r).

(** ** The tasks of the daemon *)

(** [ServeOptions], as far as it decides what runs. *)
Record ServeOptions := mk_serve_options {
  so_discovery_interval : option StdDuration;
  so_diagnosis_interval : option StdDuration;
  so_retention : option RetentionConfig
}.

Inductive Task := Task_discovery | Task_diagnosis | Task_notification | Task_retention.

#[export] Instance Task_eq_dec : EqDecision Task.
Proof. solve_decision. Defined.

(** The tasks [serve] spawns beside the API: delivery only when there is
    somewhere to deliver to, pruning only when it was asked for. *)
Definition serve_tasks (o : ServeOptions) (destinations : nat) : list Task :=
  (option_list (const Task_discovery <$> so_discovery_interval o)
   ++ option_list (const Task_diagnosis <$> so_diagnosis_interval o)
   ++ (if bool_decide (destinations = 0%nat) then [] else option_list (const Task_notification <$> so_diagnosis_interval o))
   ++ match so_retention o with Some r => if ret_enabled r then [Task_retention] else [] | None => [] end)%list.

(** The options of [sentinel controller] ([src/cli/daemon_cmd.rs]). *)
Definition controller_options (c : Config) : ServeOptions :=
  mk_serve_options (Some (cc_inventory_interval (config_controller c))) (Some (cc_diagnosis_interval (config_controller c)))
    (Some (config_retention c)).

(** [jitter_for] of the discovery loop, from the process identifier. *)
Definition discovery_jitter (pid : N) (interval : StdDuration) : StdDuration :=
  let span := (as_u64 (as_millis interval) / 10)%N in
  if (span =? 0)%N then 0%N else (pid mod span * 1000000)%N.

(** [active_maintenance]: windows that cannot be read hold nothing back. *)
Definition active_maintenance (loaded : option (list MaintenanceWindow)) : MaintenanceWindows :=
  match loaded with Some ws => from_windows ws | None => windows_new end.

(** A turn at the controller.  Requests, cycles and passes hold its lock from
    beginning to end, so they happen one at a time, in any order; [draws] is what
    is asked of the randomness of a pass. *)
Inductive turn : relation Controller :=
  | turn_batch r batch c : turn c (store_batch r batch c).1
  | turn_registration r oid q c : turn c (store_registration r oid q c).1
  | turn_cycle rules k w pipe_capacity commands c :
      w_slurm w = slurm_answer pipe_capacity commands c → turn c (store_cycle rules k w c).1
  | turn_pass (P : IncidentPass) rules k kd kc c :
      (∀ ds p, diagnose_and_classify julianday_within rules k kd (correlator_of c) = (Success ds, p) →
               drawn_fresh (et_resets (ct_tables c) !! ct_environment c) (ct_incident_tables c) ds) →
      turn c (diagnosis_pass rules k kd kc c).1.
End controller.

(** ** What the engine names is in the tables *)

Section known.
Context `{J : JsonApi} `{U : UuidApi} `{T : TimeApi} `{HI : HashIter} `{SC : StreamCodec}.
Implicit Types (eng : StateEngine) (known : gset EntityId).

(** Every entity with a state is one of these, and every stream is of an entity
    with a state. *)
Definition engine_known known eng : Prop :=
  (∀ e, is_Some (states eng !! e) → e ∈ known) ∧ ∀ k s, streams eng !! k = Some s → is_Some (states eng !! stream_entity s).

Definition transitions_known known (ts : list StateTransition) : Prop := ∀ tr, tr ∈ ts → transition_entity tr ∈ known.

Lemma engine_known_mono known known' eng : known ⊆ known' → engine_known known eng → engine_known known' eng.
Proof. intros Hsub [Hst Hss]. split; [intros e He; apply Hsub; by apply Hst|done]. Qed.

Lemma with_states_known known e st eng : e ∈ known → engine_known known eng → engine_known known (with_states (<[ e := st ]> (states eng)) eng).
Proof.
  intros He [Hst Hss]. split.
  - intros e' [st' He']. cbn in He'. apply lookup_insert_Some in He' as [[<- _]|[_ He']]; [done|]. apply Hst. by eexists.
  - intros k s Hs. cbn. rewrite lookup_insert_is_Some. destruct (decide (e = stream_entity s)); [by left|right]. split; [done|by eapply Hss].
Qed.

Variables (now : Timestamp) (fresh : EntityId → StateComponent → Uuid).

Lemma recompute_known known e c eng :
  e ∈ known → engine_known known eng →
  engine_known known (recompute now fresh e c eng).1 ∧ transitions_known known (option_list (recompute now fresh e c eng).2).
Proof.
  intros He Hk. split; [by apply with_states_known|]. intros tr Htr. unfold recompute in Htr. cbn [snd] in Htr.
  destruct (bool_decide _); cbn [then_some option_list] in Htr; [|by apply elem_of_nil in Htr]. by apply list_elem_of_singleton in Htr as ->.
Qed.

Lemma transitions_known_app known ts ts' : transitions_known known ts → transitions_known known ts' → transitions_known known (ts ++ ts')%list.
Proof. intros H1 H2 tr [?|?]%elem_of_app; auto. Qed.

(** A loop that steps the engine and collects the transitions. *)
Lemma collected_known {A} (step : StateEngine → A → StateEngine * option StateTransition)
    (f : StateEngine * list StateTransition → A → StateEngine * list StateTransition) known l eng :
  (∀ eng ts x, f (eng, ts) x = ((step eng x).1, (ts ++ option_list (step eng x).2)%list)) →
  (∀ eng x, x ∈ l → engine_known known eng →
     engine_known known (step eng x).1 ∧ transitions_known known (option_list (step eng x).2)) →
  engine_known known eng →
  engine_known known (foldl f (eng, []) l).1 ∧ transitions_known known (foldl f (eng, []) l).2.
Proof.
  intros Hf Hstep Hk. assert (transitions_known known []) as Hnil by (by intros ? ?%elem_of_nil).
  revert Hnil. generalize (@nil StateTransition). revert eng Hk.
  induction l as [|x l IH]; intros eng Hk ts Hts; cbn [foldl]; [done|]. rewrite Hf.
  destruct (Hstep eng x ltac:(by left) Hk) as [Hk1 Ht1].
  apply IH; [intros eng0 y Hy; apply Hstep; by right|done|by apply transitions_known_app].
Qed.

Lemma recompute_all_known known ecs eng :
  (∀ ec, ec ∈ ecs → ec.1 ∈ known) → engine_known known eng →
  engine_known known (recompute_all now fresh ecs eng).1 ∧ transitions_known known (recompute_all now fresh ecs eng).2.
Proof.
  intros Hecs. apply (collected_known (λ eng ec, recompute now fresh ec.1 ec.2 eng)); [by intros eng' ts [e c]|].
  intros eng' ec Hec. apply recompute_known. by apply Hecs.
Qed.

Lemma map_streams_known known (f : StateStream → StateStream) eng :
  (∀ s, stream_entity (f s) = stream_entity s) → engine_known known eng → engine_known known (with_streams (f <$> streams eng) eng).
Proof.
  intros Hf [Hst Hss]. split; [done|]. intros k s. cbn. rewrite lookup_fmap. destruct (streams eng !! k) as [s0|] eqn:Hs; [|done].
  intros [= <-]. rewrite Hf. by eapply Hss.
Qed.

Lemma silence_if_entity (P : Prop) `{Decision P} s : stream_entity (if decide P then silence s else s) = stream_entity s.
Proof. by destruct (decide P). Qed.

Lemma expire_known known at_ horizon eng :
  engine_known known eng →
  engine_known known (expire now fresh at_ horizon eng).1 ∧ transitions_known known (expire now fresh at_ horizon eng).2.
Proof.
  intros Hk. apply recompute_all_known; [|apply map_streams_known; [intros s; apply silence_if_entity|done]].
  intros ec Hec. apply elem_of_btree_elements, elem_of_list_to_set, list_elem_of_fmap in Hec as (s & -> & [_ Hs]%list_elem_of_filter).
  cbn. unfold hash_values in Hs. apply list_elem_of_fmap in Hs as ([k s'] & -> & Hs). rewrite hash_iter_perm in Hs.
  apply elem_of_map_to_list in Hs. apply Hk. by eapply Hk.
Qed.

Lemma set_probe_enabled_known known e probe on eng :
  engine_known known eng →
  engine_known known (set_probe_enabled now fresh e probe on eng).1
  ∧ transitions_known known (option_list (set_probe_enabled now fresh e probe on eng).2).
Proof.
  intros Hk. assert (transitions_known known []) as Hnil by (by intros ? ?%elem_of_nil).
  unfold set_probe_enabled. destruct (mappings eng !! probe) as [m|]; [|done].
  match goal with |- context [if ?b then _ else _] => destruct b end; [|done].
  set (eng1 := with_disabled _ eng). assert (engine_known known eng1) as Hk1 by done.
  match goal with |- context [states ?e2 !! e] => set (eng2 := e2) end.
  assert (engine_known known eng2) as Hk2 by (unfold eng2; destruct on; [|done]; apply map_streams_known; [intros s; apply silence_if_entity|done]).
  destruct (states eng2 !! e) as [st|] eqn:Hst; [|done]. destruct (decide _); [|done].
  apply recompute_known; [|done]. apply Hk2. by eexists.
Qed.

Lemma stage_observation_known known o m eng :
  target_entity o ∈ known → engine_known known eng → engine_known known (stage_observation now o m eng).
Proof.
  intros Ho Hk. assert (engine_known known (with_states (<[ target_entity o := state_or_unknown now eng (target_entity o) ]> (states eng)) eng))
    as [Hst Hss] by by apply with_states_known.
  split; [done|]. intros k s. cbn. rewrite lookup_insert_Some. intros [[_ <-]|[_ Hs]]; [|by apply (Hss k)]. set (s0 := default _ _).
  assert (stream_entity (update_stream o s0) = stream_entity s0) as -> by (unfold update_stream; by destruct (judge _ _)).
  unfold s0. destruct (streams eng !! observation_key o) as [s1|] eqn:Hs; [by apply (Hss _ _ Hs)|]. cbn. rewrite lookup_insert_eq. by eexists.
Qed.

Lemma ingest_known known o eng :
  target_entity o ∈ known → engine_known known eng →
  engine_known known (ingest now fresh o eng).1 ∧ transitions_known known (option_list (ingest now fresh o eng).2).
Proof.
  intros Ho Hk. destruct (ingest_cases now fresh eng o) as [[m Hadm]| ->]; [|split; [done|by intros ? ?%elem_of_nil]].
  rewrite (ingest_admitted _ _ _ _ _ Hadm). apply recompute_known; [done|]. by apply stage_observation_known.
Qed.

Lemma ingest_all_known known os eng :
  (∀ o, o ∈ os → target_entity o ∈ known) → engine_known known eng →
  engine_known known (ingest_all now fresh os eng).1 ∧ transitions_known known (ingest_all now fresh os eng).2.
Proof.
  intros Hos. apply (collected_known (λ eng o, ingest now fresh o eng)).
  - intros eng' ts o. by destruct (ingest now fresh o eng').
  - intros eng' o Ho. apply ingest_known. by apply Hos.
Qed.

Lemma configure_all_known known es eng :
  engine_known known eng →
  engine_known known (configure_all now fresh es eng).1 ∧ transitions_known known (configure_all now fresh es eng).2.
Proof.
  apply (collected_known (configure_gpu_monitoring now fresh)).
  - intros eng' ts e. by destruct (configure_gpu_monitoring now fresh eng' e).
  - intros eng' e _ Hk. unfold configure_gpu_monitoring. destruct (_ || _); [split; [done|by intros ? ?%elem_of_nil]|].
    by apply set_probe_enabled_known.
Qed.
End known.

Section written.
Context `{J : JsonApi} `{U : UuidApi} `{T : TimeApi} `{HI : HashIter} `{SC : StreamCodec}.
Implicit Types (eng : StateEngine) (known : gset EntityId).

Lemma classify_states_known known implied eng :
  engine_wf eng → engine_known known eng → engine_known known (classify_states implied eng).
Proof.
  intros Hwf [Hst Hss]. split.
  - intros e [st He]. rewrite classify_states_lookup in He by done. apply Hst. destruct (states eng !! e); [by eexists|done].
  - intros k s Hs. rewrite classify_states_lookup, fmap_is_Some by done. apply (Hss k). revert Hs. unfold classify_states.
    by destruct (classify_frame implied (map state_entity (hash_values (states eng))) eng) as (-> & _).
Qed.

(** An engine that names only rows of [entities] is saved, if its streams have a
    text. *)
Lemma save_engine_succeeds inv env eng ts p t :
  env ∈ t_environments inv → engine_wf eng → engine_known (dom (t_entities inv)) eng →
  transitions_known (dom (t_entities inv)) ts → encode_streams (hash_values (streams eng)) = inr p →
  ∃ t', save_engine inv env eng ts t = inr t'.
Proof.
  intros Henv Hwf [Hst _] Hts Hp. unfold save_engine, save_state_streams. rewrite Hp, bool_decide_eq_false_2 by tauto.
  cbn [sum_bind]. destruct (try_fold_total (save_entity_state inv) (set_stream_rows (<[env:=p]> (et_streams t)) t) (btree_values (states eng))) as [t1 ->].
  - intros a st (e & He)%elem_of_btree_values. unfold save_entity_state.
    assert (state_entity st ∈ dom (t_entities inv)) as Hin by (rewrite (wf_states _ Hwf _ _ He); apply Hst; by eexists).
    destruct (try_fold_total (save_component inv st) a (btree_entries (components st))) as [a' ->].
    + intros b c _. unfold save_component. rewrite bool_decide_eq_false_2 by tauto. by eexists.
    + cbn [sum_bind]. unfold save_overall. rewrite bool_decide_eq_false_2 by tauto. by eexists.
  - cbn [sum_bind]. apply try_fold_total. intros a tr Htr. unfold save_state_transition.
    destruct (et_transitions a !! transition_id tr); [by eexists|].
    rewrite bool_decide_eq_false_2 by (intros Hn; apply Hn; by apply Hts). by eexists.
Qed.

End written.

(** ** Rows are never taken away *)

Section grows.
Context `{J : JsonApi} `{HI : HashIter}.
Implicit Types (t : InventoryTables) (inv : Inventory).

Definition grows t t' : Prop := dom (t_entities t) ⊆ dom (t_entities t') ∧ t_environments t ⊆ t_environments t'.

#[export] Instance grows_preorder : PreOrder grows.
Proof. split; [done|]. intros t1 t2 t3 [H1 H2] [H3 H4]. split; by etrans. Qed.

Lemma save_entity_grows t e t' : save_entity_tx t e = inr t' → grows t t' ∧ entity_eid e ∈ dom (t_entities t').
Proof.
  unfold save_entity_tx, upsert_entity. destruct (t_entities t !! entity_eid e) as [old|] eqn:Hold; cbn [sum_bind].
  - intros [= <-]. split; [split; cbn; [set_solver|done]|]. cbn. set_solver.
  - destruct (_ || _); cbn [sum_bind]; [done|]. intros [= <-]. split; [split; cbn; [set_solver|done]|]. cbn. set_solver.
Qed.

Lemma save_dependency_grows t (x : DependencyEdge) t' : save_dependency_tx t x = inr t' → grows t t'.
Proof.
  unfold save_dependency_tx. destruct (t_dependencies t !! edge_id x); [by intros [= <-]|]. destruct (_ || _); [done|]. by intros [= <-].
Qed.

Lemma save_entities_grow t es t' :
  try_fold save_entity_tx t es = inr t' → grows t t' ∧ ∀ e, e ∈ es → entity_eid e ∈ dom (t_entities t').
Proof.
  revert t. induction es as [|x es IH]; intros t; cbn [try_fold]; [intros [= <-]; split; [done|by intros ? ?%elem_of_nil]|].
  destruct (save_entity_tx t x) as [err|t1] eqn:Hx; cbn [sum_bind]; [done|].
  intros [Hg Hin]%IH. apply save_entity_grows in Hx as [Hg1 Hx]. split; [by etrans|].
  intros e [->|He]%elem_of_cons; [by apply Hg|by apply Hin].
Qed.

Lemma save_inventory_grows inv t t' :
  save_inventory inv t = inr t' → grows t t' ∧ ∀ e, e ∈ entities inv → entity_eid e ∈ dom (t_entities t').
Proof.
  unfold save_inventory. destruct (try_fold save_entity_tx t (entities inv)) as [err|t1] eqn:H1; cbn [sum_bind]; [done|].
  intros H2. apply save_entities_grow in H1 as [Hg Hin].
  assert (grows t1 t') as Hg2.
  { apply (try_fold_invariant (grows t1)) in H2; [done| |done]. intros a x b Ha _ Hb. etrans; [done|]. by eapply save_dependency_grows. }
  split; [by etrans|]. intros e He. apply Hg2. by apply Hin.
Qed.

Lemma reconcile_entities_rows source es t : 
  t_entities (reconcile_entities source es t).1 = t_entities t ∧ t_environments (reconcile_entities source es t).1 = t_environments t.
Proof.
  revert t. induction es as [|e es IH]; intros t; cbn [reconcile_entities]; [done|].
  destruct (reconcile_capabilities _ _ _ _) as [err|[t1 n]] eqn:H1; [done|]. destruct (IH t1) as [-> ->].
  unfold reconcile_capabilities in H1. destruct (_ && _); [done|]. by injection H1 as <- _.
Qed.

Lemma reconcile_snapshot_rows s t :
  t_entities (reconcile_snapshot_capabilities s t).1 = t_entities t
  ∧ t_environments (reconcile_snapshot_capabilities s t).1 = t_environments t.
Proof. unfold reconcile_snapshot_capabilities. destruct (snapshot_source s); [apply reconcile_entities_rows|done]. Qed.

Lemma reconcile_all_rows ss t :
  t_entities (reconcile_all ss t).1 = t_entities t ∧ t_environments (reconcile_all ss t).1 = t_environments t.
Proof.
  revert t. induction ss as [|s ss IH]; intros t; cbn [reconcile_all]; [done|].
  pose proof (reconcile_snapshot_rows s t) as [He Hn]. destruct (reconcile_snapshot_capabilities s t) as [t1 [err|]]; [done|].
  cbn [fst] in *. destruct (IH t1) as [-> ->]. by rewrite He, Hn.
Qed.

(** *** Inventories file their entities under their identifiers *)

Definition filed inv : Prop := ∀ k x, inv_entities inv !! k = Some x → entity_eid x = k.

Lemma merge_entities_filed now xs inv out : filed inv → filed (foldl (merge_entity now) (inv, out) xs).1.
Proof.
  revert inv out. induction xs as [|x xs IH]; intros inv out Hf; cbn [foldl]; [done|].
  pose proof (merge_entity_ids now inv out x Hf) as H1. destruct (merge_entity now (inv, out) x) as [inv1 out1]. by apply IH.
Qed.

(** A merge changes entities only as its snapshot's entities say. *)
Lemma merge_filed now inv s inv' out : Inventory.merge now inv s = Finished (inv', out) → filed inv → filed inv'.
Proof.
  intros Hm Hf. unfold Inventory.merge in Hm.
  pose proof (merge_entities_filed now (snapshot_entities s) inv merge_outcome_default Hf) as H1.
  destruct (foldl (merge_entity now) _ _) as [inv1 out1]. cbn [fst] in H1. set (nil_id := {| as_uuid := 0%N |} : EntityId) in *.
  pose proof (off_entities _ _ _ _ (offer_edges_offered (λ _, (nil_id, nil_id)) now (snapshot_dependencies s) inv1 out1)) as H2.
  destruct (foldl (offer_edge now) _ _) as [inv2 out2]. cbn [fst] in H2.
  destruct (resolve_pending_finished (λ _, (nil_id, nil_id)) now inv2 out2) as (inv3 & out3 & He & H3 & _). rewrite He in Hm.
  injection Hm as <- _. unfold filed. by rewrite H3, H2.
Qed.

Lemma take_snapshot_filed now inv s : filed inv → filed (take_snapshot now inv s).
Proof.
  intros Hf. assert (filed (merged_with now inv s)) as Hm.
  { unfold merged_with. destruct (merged_with_total now inv s) as (inv' & out & He). rewrite He. by eapply merge_filed. }
  unfold take_snapshot. destruct (snapshot_source s) as [source|]; [|done]. intros k x. cbn. rewrite lookup_fmap.
  destruct (inv_entities _ !! k) as [y|] eqn:Hy; [|done]. intros [= <-]. apply Hm in Hy. by destruct (decide _).
Qed.

Lemma gather_filed inv answers : filed inv → filed (gather inv answers).1.1.
Proof.
  intros Hf. induction answers as [|a answers IH] using rev_ind; [done|]. rewrite gather_snoc. unfold provide.
  destruct (gather inv answers) as [[inv1 rs] ss]. destruct (answer_result a); [by apply take_snapshot_filed|done].
Qed.

Lemma take_topology_filed now inv (x : StorageTopology) : filed inv → filed (take_topology now inv x).
Proof. intros Hf. unfold take_topology. destruct (snapshot_source _); by apply take_snapshot_filed. Qed.

Lemma load_inventory_filed env t inv : load_inventory env t = inr inv → filed inv.
Proof. intros Hl. apply load_inventory_entities in Hl as [_ Hl]. intros k x Hx. by apply Hl. Qed.

(** What an inventory that was saved says is provided is in the tables. *)
Lemma providers_saved inv t t' h s :
  save_inventory inv t = inr t' → filed inv → s ∈ default [] (storage_providers inv !! h) → s ∈ dom (t_entities t').
Proof.
  intros [_ Hin]%save_inventory_grows Hf (e & storage & host & _ & _ & Hst & _ & _ & _ & <- & _)%storage_providers_sound.
  apply Hin. unfold entities. apply elem_of_btree_values. by exists (edge_source e).
Qed.
End grows.

(** ** What every turn keeps *)

Section turns.
Context `{J : JsonApi} `{U : UuidApi} `{T : TimeApi} `{CH : ChronoApi} `{HI : HashIter} `{SC : StreamCodec} `{!TimelineLaws}.
Context (julianday_within : Timestamp → Timestamp → Z → bool).
Context (rows_of : gmap ObservationId ObservationRow → list ObservationRow).
Implicit Types (c : Controller).

(** Everything the engine and the map of providers name has a row, and the
    incidents held are those of the tables. *)
Record controller_ok c : Prop := {
  ok_engine : engine_wf (ct_engine c);
  ok_known : engine_known (dom (t_entities (ct_inventory c))) (ct_engine c);
  ok_environment : ct_environment c ∈ t_environments (ct_inventory c);
  ok_providers : ∀ h s, s ∈ default [] (reg_providers (ct_registrar c) !! h) → s ∈ dom (t_entities (ct_inventory c));
  ok_synced : synced (ct_environment c) (et_resets (ct_tables c) !! ct_environment c) (ct_incidents c) (ct_incident_tables c)
}.

Lemma ingest_all_wf now fresh os eng : engine_wf eng → engine_wf (ingest_all now fresh os eng).1.
Proof.
  intros Hwf. unfold ingest_all. enough (∀ ts, engine_wf (foldl (λ '(eng, ts) o, let '(eng', t) := ingest now fresh o eng in
    (eng', (ts ++ option_list t)%list)) (eng, ts) os).1) as Hgen by apply Hgen.
  revert eng Hwf. induction os as [|o os IH]; intros eng Hwf ts; cbn [foldl]; [done|].
  pose proof (ingest_wf now fresh o eng Hwf) as H1. destruct (ingest now fresh o eng) as [eng' t]. by apply IH.
Qed.

Lemma configure_all_wf now fresh es eng : engine_wf eng → engine_wf (configure_all now fresh es eng).1.
Proof.
  intros Hwf. unfold configure_all. generalize (@nil StateTransition). revert eng Hwf.
  induction es as [|e es IH]; intros eng Hwf ts; cbn [foldl]; [done|].
  assert (engine_wf (configure_gpu_monitoring now fresh eng e).1) as H1
    by (unfold configure_gpu_monitoring; destruct (_ || _); [done|by apply set_probe_enabled_wf]).
  destruct (configure_gpu_monitoring now fresh eng e) as [eng' t]. by apply IH.
Qed.

Lemma elem_of_admit_first A v seen (os : list Observation) o : o ∈ admit_first A v seen os → o ∈ os.
Proof.
  revert seen. induction os as [|x os IH]; intros seen; cbn [admit_first]; [done|].
  destruct (_ && _); [|intros ?; right; by eapply IH]. destruct (decide _); [intros ?; right; by eapply IH|].
  intros [->|?]%elem_of_cons; [by left|right; by eapply IH].
Qed.

(** The engine an ingestion leaves. *)
Lemma recorded_engine r os g known :
  engine_wf (ing_engine g) → engine_known known (ing_engine g) →
  (∀ o, o ∈ os → target_entity o ∈ known) → (∀ v, v ∈ storage_views (ing_providers g) os → target_entity v ∈ known) →
  let res := ingest_observations_recorded r os g in
  engine_wf (ing_engine res.1.1) ∧ engine_known known (ing_engine res.1.1) ∧ transitions_known known res.2.
Proof.
  intros Hwf Hk Hos Hviews. cbn zeta. unfold ingest_observations_recorded, apply_observations.
  destruct (ingest_observations_in _ _ _) as [t' out]. set (A := list_to_set _).
  destruct (ingest_all_known (engine_now r) (fresh_id r) known (admit_first A (valid_at r) ∅ os) (ing_engine g)) as [Hk1 Ht1];
    [intros o Ho; apply Hos; by eapply elem_of_admit_first|done|].
  pose proof (ingest_all_wf (engine_now r) (fresh_id r) (admit_first A (valid_at r) ∅ os) _ Hwf) as Hwf1.
  destruct (ingest_all _ _ (admit_first _ _ _ _) _) as [eng1 ts1]. cbn [fst snd] in *.
  destruct (ingest_all_known (engine_now r) (fresh_id r) known (admit_views A (valid_at r) (storage_views (ing_providers g) os)) eng1) as [Hk2 Ht2];
    [intros o [_ Ho]%list_elem_of_filter; by apply Hviews|done|].
  pose proof (ingest_all_wf (engine_now r) (fresh_id r) (admit_views A (valid_at r) (storage_views (ing_providers g) os)) _ Hwf1) as Hwf2.
  destruct (ingest_all _ _ (admit_views _ _ _) _) as [eng2 ts2]. split_and!; [done|done|by apply transitions_known_app].
Qed.

(** An engine that was saved has no state without a row. *)
Lemma saved_states inv env eng ts t t' : engine_wf eng → save_engine inv env eng ts t = inr t' →
  (∀ e, is_Some (states eng !! e) → e ∈ dom (t_entities inv)) ∧ et_resets t' = et_resets t.
Proof.
  intros Hwf Hs. destruct (save_engine_saved _ _ _ _ _ _ Hwf Hs) as (_ & Hr & _). split; [|done]. intros e [st He].
  unfold save_engine in Hs. destruct (save_state_streams _ _ _ _) as [|t0]; [done|]. cbn [sum_bind] in Hs.
  destruct (try_fold (save_entity_state inv) t0 _) as [|t1] eqn:H1; [done|]. clear Hs.
  assert (st ∈ btree_values (states eng)) as Hin by (apply elem_of_btree_values; by exists e).
  rewrite <- (wf_states _ Hwf _ _ He). revert t0 H1 Hin. generalize (btree_values (states eng)).
  induction l as [|x l IH]; intros t0 H1 Hin; [by apply elem_of_nil in Hin|]. cbn [try_fold] in H1.
  destruct (save_entity_state inv t0 x) as [|t2] eqn:Hx; cbn [sum_bind] in H1; [done|].
  apply elem_of_cons in Hin as [->|Hin]; [|by eapply IH]. apply elem_of_dom. by apply save_entity_state_saved in Hx as (_ & _ & _ & _ & ?).
Qed.

(** A view of a turn: the environment and the configuration stay, and rows are
    only added. *)
Lemma store_observations_ok r os c : controller_ok c → controller_ok (store_observations r os c).1.
Proof.
  intros [Hwf Hk Henv Hpr Hsy]. unfold store_observations. destruct (references_met c os); cbn [negb]; [|done].
  set (known := dom (states (ct_engine c)) ∪ list_to_set (map target_entity os)
    ∪ list_to_set (map target_entity (storage_views (reg_providers (ct_registrar c)) os)) : gset EntityId).
  destruct (recorded_engine r os (ingestor_of (ct_registrar c)) known) as (Hwf' & Hk' & _).
  { done. }
  { destruct Hk as [_ Hss]. split; [|done]. intros e He. unfold known. rewrite !elem_of_union, elem_of_dom. tauto. }
  { intros o Ho. unfold known. rewrite !elem_of_union, !elem_of_list_to_set. left; right. by apply list_elem_of_fmap_2. }
  { intros o Ho. unfold known. rewrite !elem_of_union, !elem_of_list_to_set. right. by apply list_elem_of_fmap_2. }
  destruct (ingest_observations_recorded r os (ingestor_of (ct_registrar c))) as [[g out] ts]. cbn [fst snd] in *.
  destruct (save_engine _ _ _ _ _) as [e|t] eqn:Hs; [done|]. destruct (saved_states _ _ _ _ _ _ Hwf' Hs) as [Hst Hr].
  split; cbn; [done| |done|done|by rewrite Hr]. split; [done|by apply Hk'].
Qed.

Lemma store_batch_ok r batch c : controller_ok c → controller_ok (store_batch r batch c).1.
Proof.
  intros Hok. unfold store_batch. destruct (load_entities _ _) as [e|es]; [done|].
  pose proof (store_observations_ok r (filter (λ o, target_entity o ∈ (list_to_set (map entity_eid es) : gset EntityId)) batch) c Hok) as H1.
  by destruct (store_observations _ _ _) as [c' [[out ts]|e|]].
Qed.

(** Tables that grew, with providers that are in them, under another engine. *)
Lemma regrown c core eng t :
  controller_ok c → reg_environment core = ct_environment c → grows (ct_inventory c) (reg_tables core) →
  (∀ h s, s ∈ default [] (reg_providers core !! h) → s ∈ dom (t_entities (reg_tables core))) →
  reg_engine core = eng → engine_wf eng → engine_known (dom (t_entities (ct_inventory c))) eng → et_resets t = et_resets (ct_tables c) →
  controller_ok (with_saved_engine core t c).
Proof.
  intros [_ _ Henv _ Hsy] He [Hg Hn] Hpr Heng Hwf Hk Hr. split.
  - unfold ct_engine. cbn. by rewrite Heng.
  - unfold ct_engine, ct_inventory. cbn. rewrite Heng. by eapply engine_known_mono.
  - unfold ct_environment, ct_inventory. cbn. rewrite He. by apply Hn.
  - done.
  - unfold ct_environment. cbn. by rewrite He, Hr.
Qed.

Lemma with_registrar_saved core c : with_registrar core c = with_saved_engine core (ct_tables c) c.
Proof. done. Qed.

(** What taking a snapshot in does to the registrar. *)
Lemma snapshot_taken now fresh s core core' res :
  ingest_snapshot now fresh s core = (core', res) →
  reg_environment core' = reg_environment core ∧ reg_observations core' = reg_observations core
  ∧ grows (reg_tables core) (reg_tables core')
  ∧ ((reg_providers core' = reg_providers core ∧ reg_engine core' = reg_engine core ∧ ∀ inv, res ≠ Success inv)
     ∨ (∀ h x, x ∈ default [] (reg_providers core' !! h) → x ∈ dom (t_entities (reg_tables core')))
       ∧ reg_engine core' = (configure_all now fresh (snapshot_entities s) (reg_engine core)).1).
Proof.
  unfold ingest_snapshot. destruct (load_inventory _ _) as [e|inv] eqn:Hl; [intros [= <- <-]; by split_and!; [..|left]|].
  destruct (Inventory.merge now inv s) as [[inv' out]| |] eqn:Hm; [|intros [= <- <-]; by split_and!; [..|left]..].
  destruct (save_inventory inv' (reg_tables core)) as [e|t1] eqn:Hs; [intros [= <- <-]; by split_and!; [..|left]|].
  pose proof (save_inventory_grows _ _ _ Hs) as [Hg _]. pose proof (reconcile_snapshot_rows s t1) as [Hr Hn].
  assert (grows (reg_tables core) (reconcile_snapshot_capabilities s t1).1) as Hg2 by (destruct Hg; split; by rewrite ?Hr, ?Hn).
  assert (∀ h x, x ∈ default [] (storage_providers inv' !! h) → x ∈ dom (t_entities (reconcile_snapshot_capabilities s t1).1)) as Hp.
  { intros h x Hx. rewrite Hr. eapply providers_saved; [done| |done]. eapply merge_filed; [done|]. by eapply load_inventory_filed. }
  destruct (reconcile_snapshot_capabilities s t1) as [t2 [e|]]; cbn [fst] in *; intros [= <- <-]; (split_and!; [done|done|done|]).
  - by left.
  - by right.
Qed.

Lemma store_snapshot_ok now fresh s c : controller_ok c → controller_ok (store_snapshot now fresh s c).1.
Proof.
  intros Hok. pose proof Hok as [Hwf Hk _ Hpr _]. unfold store_snapshot.
  destruct (ingest_snapshot now fresh s (ct_registrar c)) as [core res] eqn:Hi.
  destruct (snapshot_taken _ _ _ _ _ _ Hi) as (He & _ & Hg & Hcase).
  assert (∀ h x, x ∈ default [] (reg_providers core !! h) → x ∈ dom (t_entities (reg_tables core))) as Hp.
  { destruct Hcase as [(-> & _)|[? _]]; [|done]. intros h x Hx. apply Hg. by eapply Hpr. }
  assert (reg_engine core = reg_engine (ct_registrar c) ∨ ∃ inv, res = Success inv) as Heng.
  { destruct Hcase as [(_ & ? & _)|[_ ?]]; [by left|]. destruct res; [right; by eexists|left..].
    all: revert Hi; unfold ingest_snapshot; repeat case_match; by intros [= <-]. }
  destruct res as [inv|e|]; [|destruct Heng as [Heng|[? [=]]]; rewrite with_registrar_saved; by eapply regrown..].
  destruct Hcase as [(_ & _ & Hn)|[_ Hc]]; [by destruct (Hn inv)|].
  pose proof (configure_all_wf now fresh (snapshot_entities s) _ Hwf) as Hwf1.
  destruct (configure_all_known now fresh _ (snapshot_entities s) _ Hk) as [Hk1 _].
  destruct (configure_all now fresh (snapshot_entities s) (reg_engine (ct_registrar c))).2 as [|tr ts].
  { cbn [fst]. rewrite with_registrar_saved. by eapply regrown. }
  destruct (save_engine _ _ _ _ _) as [e|t] eqn:Hs; cbn [fst].
  - rewrite with_registrar_saved. by eapply regrown.
  - eapply regrown; try done. rewrite Hc in Hs. by destruct (saved_states _ _ _ _ _ _ Hwf1 Hs).
Qed.

Lemma store_registration_ok r oid q c : controller_ok c → controller_ok (store_registration r oid q c).1.
Proof.
  intros Hok. unfold store_registration. destruct (stored_boot_id _ _) as [e|previous]; [done|].
  pose proof (store_snapshot_ok (engine_now r) (fresh_id r) (snapshot_from_registration (engine_now r) q) c Hok) as H1.
  destruct (store_snapshot _ _ _ _) as [c1 [inv|e|]]; [|done..]. cbn [fst] in H1. destruct (boot_changed _ _); [|done].
  match goal with |- context [store_observations r ?os c1] => pose proof (store_observations_ok r os c1 H1) as H2 end.
  by destruct (store_observations r _ c1) as [c2 [x|e|]].
Qed.

(** What a cycle does to the inventory before it ingests anything. *)
Lemma cycle_saved cfg w core core' res :
  discover_once julianday_within cfg w core = (core', res) →
  reg_environment core' = reg_environment core ∧ grows (reg_tables core) (reg_tables core')
  ∧ ((reg_providers core' = reg_providers core ∧ reg_engine core' = reg_engine core ∧ ∀ x, res ≠ Success x)
     ∨ ∀ h x, x ∈ default [] (reg_providers core' !! h) → x ∈ dom (t_entities (reg_tables core'))).
Proof.
  unfold discover_once. destruct (load_inventory _ _) as [e|inv0] eqn:Hl; [intros [= <- <-]; by split_and!; [..|left]|].
  pose proof (gather_filed inv0 (w_answers w) (load_inventory_filed _ _ _ Hl)) as Hf.
  destruct (gather inv0 (w_answers w)) as [[inv1 reports1] snapshots1]. cbn [fst] in Hf.
  set (os := cycle_observations _ _ _ _). set (topology := derive_storage_topology _ _ _ _ _ _).
  set (chosen := if dc_nfs cfg then _ else _).
  assert (filed chosen.1.1.1.1.1 ∧ grows (reg_tables core) chosen.1.1.2) as [Hf2 Hg0].
  { unfold chosen. destruct (dc_nfs cfg); cbn; [|done]. split; [by apply take_topology_filed|].
    unfold reconcile_topology. by destruct (snapshot_source _). }
  destruct chosen as [[[[[inv reports] snapshots] t0] edges] unresolved]. cbn [fst snd] in Hf2, Hg0.
  destruct (save_inventory inv t0) as [e|t1] eqn:Hs; [intros [= <- <-]; by split_and!; [..|left]|].
  pose proof (save_inventory_grows _ _ _ Hs) as [Hg1 _]. pose proof (reconcile_all_rows snapshots t1) as [Hr Hn].
  assert (grows (reg_tables core) (reconcile_all snapshots t1).1) as Hg2 by (etrans; [done|]; destruct Hg1; split; by rewrite ?Hr, ?Hn).
  assert (∀ h x, x ∈ default [] (storage_providers inv !! h) → x ∈ dom (t_entities (reconcile_all snapshots t1).1)) as Hp
    by (intros h x Hx; rewrite Hr; by eapply providers_saved).
  destruct (reconcile_all snapshots t1) as [t2 [e|]]; cbn [fst] in *; [intros [= <- <-]; by split_and!; [..|left]|].
  destruct (ingest_observations_recorded _ _ _) as [[g out] ts]. intros [= <- <-]. split_and!; [done|done|by right].
Qed.

Lemma store_cycle_ok rules k w c : controller_ok c → controller_ok (store_cycle julianday_within rows_of rules k w c).1.
Proof.
  intros Hok. pose proof Hok as [Hwf Hk _ Hpr _]. unfold store_cycle.
  destruct (discover_once _ _ _ _) as [core res] eqn:Hd. destruct (cycle_saved _ _ _ _ _ Hd) as (He & Hg & Hcase).
  assert (∀ h x, x ∈ default [] (reg_providers core !! h) → x ∈ dom (t_entities (reg_tables core))) as Hp.
  { destruct Hcase as [(-> & _)|?]; [|done]. intros h x Hx. apply Hg. by eapply Hpr. }
  assert (reg_engine core = reg_engine (ct_registrar c) ∨ ∃ x, res = Success x) as Heng.
  { destruct res; [right; by eexists|left..].
    all: revert Hd; unfold discover_once; repeat case_match; by intros [= <-]. }
  destruct res as [report|e|]; [|destruct Heng as [Heng|[? [=]]]; rewrite with_registrar_saved; by eapply regrown..].
  match goal with |- context [with_registrar ?saved c] => assert (controller_ok (with_registrar saved c)) as H1
    by (rewrite with_registrar_saved; by eapply regrown) end.
  match goal with |- context [store_observations ?r ?os ?c1] => pose proof (store_observations_ok r os c1 H1) as H2;
    destruct (store_observations r os c1) as [c2 [x|e|]] end; [|done..].
  by destruct (controller_diagnose _ _ _ _).
Qed.

(** A pass classifies, and then correlates what it classified. *)
Lemma diagnosis_pass_ok `{IP : IncidentPass} rules k kd kc c :
  controller_ok c →
  (∀ ds p, diagnose_and_classify julianday_within rules k kd (correlator_of rows_of c) = (Success ds, p) →
           drawn_fresh (et_resets (ct_tables c) !! ct_environment c) (ct_incident_tables c) ds) →
  controller_ok (diagnosis_pass julianday_within rows_of rules k kd kc c).1.
Proof.
  intros Hok Hdraw. pose proof Hok as [Hwf Hk Henv Hpr Hsy]. unfold diagnosis_pass.
  destruct (diagnose_and_classify julianday_within rules k kd (correlator_of rows_of c)) as [r1 c1] eqn:Hd.
  pose proof (classify_wf _ _ _ _ _ _ _ Hd Hwf) as Hwf1.
  pose proof (classify_keeps _ _ _ _ _ _ _ Hd) as (He & _ & _ & _ & Hinc & Hit & _ & Hitt).
  assert (engine_known (dom (t_entities (ct_inventory c))) (co_engine c1) ∧ et_resets (co_tables c1) = et_resets (ct_tables c)) as [Hk1 Hr1].
  { destruct r1 as [ds|err|]; [|by rewrite (classify_failed _ _ _ _ _ _ _ Hd)..].
    apply classified in Hd as (w & t & _ & Hd).
    destruct (expire_known (ck_engine k) (ck_fresh k) _ (ck_expire k) (stream_horizon (correlator_of rows_of c) w) _ Hk) as [Hk1 _].
    pose proof (expire_wf (ck_engine k) (ck_fresh k) (ck_expire k) (stream_horizon (correlator_of rows_of c) w) _ Hwf) as Hwf2.
    change (ct_engine c) with (co_engine (correlator_of rows_of c)) in Hk1, Hwf2.
    destruct (expire _ _ _ _ _) as [eng trs]. destruct Hd as (_ & Hs & ->). cbn [fst] in *. cbn. split; [by apply classify_states_known|].
    by destruct (saved_states _ _ _ _ _ _ (classify_states_wf (implied_labels ds) eng Hwf2) Hs). }
  destruct (diagnose_and_correlate _ _ _ _ _ _) as [r p] eqn:Hp. cbn [fst].
  assert ((∃ x, r = Success x) ∨ ∀ x, r ≠ Success x) as [[[ds u] ->]|Hf] by (destruct r; [left; by eexists|by right..]).
  - apply correlated in Hp as (c2 & inv & w & e & t & Hd2 & _ & _ & Hr & Hsave & ->). rewrite Hd in Hd2. injection Hd2 as -> <-.
    split; cbn; [done|done|done|done|]. rewrite Hr1. rewrite Hinc in Hr. rewrite He, Hitt in Hsave.
    eapply (synced_pass _ _ _ _ ds); [done|by eapply Hdraw|done|done].
  - apply correlate_failed in Hp; [|done]. rewrite Hd in Hp. cbn in Hp. subst c1.
    split; [done|done|done|done|]. unfold ct_environment. cbn. by rewrite Hr1, Hinc, Hitt.
Qed.

Lemma controller_turn_ok c c' : turn julianday_within rows_of c c' → controller_ok c → controller_ok c'.
Proof.
  intros [] Hok; [by apply store_batch_ok|by apply store_registration_ok|by apply store_cycle_ok|by apply diagnosis_pass_ok].
Qed.

(** *** What a batch needs *)

Lemma entity_rows_dom env t (es : list ManagedEntity) e :
  load_entities env t = inr es → e ∈ (list_to_set (map entity_eid es) : gset EntityId) → e ∈ dom (t_entities t).
Proof.
  intros Hl He. apply elem_of_list_to_set, list_elem_of_fmap in He as (x & -> & Hx).
  apply (elem_of_load_entities _ _ _ _ Hl) in Hx as (r & Hr & _). apply elem_of_dom. by eexists.
Qed.

(** The streams an ingestion leaves have a text. *)
Definition encodable r (os : list Observation) c : Prop :=
  ∃ p, encode_streams (hash_values (streams (ing_engine (ingest_observations_recorded r os (ingestor_of (ct_registrar c))).1.1))) = inr p.

(** Observations about entities are stored, engine included, when their observers
    are entities. *)
Lemma observations_stored r os c :
  controller_ok c → (∀ o, o ∈ os → target_entity o ∈ dom (t_entities (ct_inventory c))) → encodable r os c →
  references_met c os = true →
  let '(g, out, ts) := ingest_observations_recorded r os (ingestor_of (ct_registrar c)) in
  ∃ t, store_observations r os c
    = (with_saved_engine (mk_registrar (ct_environment c) (ct_inventory c) (reg_providers (ct_registrar c)) (ing_table g) (ing_engine g)) t c,
       Success (out, ts)).
Proof.
  intros [Hwf Hk Henv Hpr _] Hos [p Hp] Href. unfold store_observations. rewrite Href. cbn [negb].
  destruct (recorded_engine r os (ingestor_of (ct_registrar c)) (dom (t_entities (ct_inventory c)))) as (Hwf' & Hk' & Hts); [done|done|done|..].
  { intros v (o & _ & _ & Hv & _)%elem_of_storage_views_from. by eapply Hpr. }
  destruct (ingest_observations_recorded r os (ingestor_of (ct_registrar c))) as [[g out] ts]. cbn [fst snd] in *.
  destruct (save_engine_succeeds (ct_inventory c) (ct_environment c) (ing_engine g) ts p (ct_tables c)) as [t Ht]; [done..|].
  exists t. unfold ct_inventory, ct_environment in Ht. by rewrite Ht.
Qed.

(** What of a batch is new and about an entity. *)
Definition taken c (batch : list Observation) : list Observation :=
  first_new (reg_observations (ct_registrar c)) (known_part (ingestor_of (ct_registrar c)) batch).

Lemma known_part_loaded c batch es :
  load_entities (ct_environment c) (ct_inventory c) = inr es →
  filter (λ o, target_entity o ∈ (list_to_set (map entity_eid es) : gset EntityId)) batch = known_part (ingestor_of (ct_registrar c)) batch.
Proof.
  intros Hl. apply list_filter_iff. intros o. cbn [ingestor_of ing_known]. unfold known_entities.
  rewrite !elem_of_list_to_set, !list_elem_of_fmap. split.
  - intros (x & -> & Hx). apply (elem_of_load_entities _ _ _ _ Hl) in Hx as (r & Hr & Henv & _).
    exists (entity_eid x, r). split; [done|]. by apply elem_of_entity_rows.
  - intros ([id r] & -> & Hr). cbn. assert (∃ e, e ∈ es ∧ decode_entity (ct_inventory c) (id, r) = inr e) as (e & He & Hdec).
    { unfold load_entities in Hl. apply try_map_Forall2 in Hl. apply list_elem_of_lookup in Hr as [i Hi].
      destruct (Forall2_lookup_l _ _ _ _ _ Hl Hi) as (e & He & Hdec). exists e. split; [by apply list_elem_of_lookup_2 in He|done]. }
    exists e. split; [|done]. revert Hdec. unfold decode_entity. destruct (entity_type_parse _); [|done]. by intros [= <-].
Qed.
Lemma unknown_part_loaded c (batch : list Observation) es :
  load_entities (ct_environment c) (ct_inventory c) = inr es →
  filter (λ o, target_entity o ∉ (list_to_set (map entity_eid es) : gset EntityId)) batch
  = filter (λ o, target_entity o ∉ ing_known (ingestor_of (ct_registrar c))) batch.
Proof.
  intros Hl. apply list_filter_iff. intros o. pose proof (known_part_loaded c [o] es Hl) as H1. unfold known_part in H1.
  rewrite !filter_cons, !filter_nil in H1. repeat case_decide; try done; tauto.
Qed.

(** A batch comes to what it would if the schema had nothing against it, or to
    nothing. *)
Lemma store_batch_cases r batch c :
  let '(c', res) := store_batch r batch c in
  let '(g, resp) := admit_batch r batch (ingestor_of (ct_registrar c)) in
  (res = Success resp
   ∧ ∃ t, c' = with_saved_engine (mk_registrar (ct_environment c) (ct_inventory c) (reg_providers (ct_registrar c))
                                    (ing_table g) (ing_engine g)) t c)
  ∨ (c' = c ∧ ∃ e, res = Failure e).
Proof.
  unfold store_batch. destruct (load_entities _ _) as [e|es] eqn:Hl.
  { destruct (admit_batch _ _ _). right. split; [done|by eexists]. }
  rewrite (known_part_loaded _ _ _ Hl), (unknown_part_loaded _ _ _ Hl). unfold admit_batch.
  fold (known_part (ingestor_of (ct_registrar c)) batch). unfold store_observations.
  destruct (ingest_observations_recorded r _ _) as [[g out] ts].
  destruct (references_met _ _); cbn [negb]; [|right; split; [done|by eexists]].
  destruct (save_engine _ _ _ _ _) as [e|t]; [right; split; [done|by eexists]|]. left. split; [done|by eexists].
Qed.

Lemma entity_known_row c e : e ∈ ing_known (ingestor_of (ct_registrar c)) → e ∈ dom (t_entities (ct_inventory c)).
Proof.
  cbn [ingestor_of ing_known]. unfold known_entities. intros ([id r] & -> & He)%elem_of_list_to_set%list_elem_of_fmap.
  apply elem_of_entity_rows in He as [He _]. apply elem_of_dom. by eexists.
Qed.

Lemma store_batch_succeeds r batch c es :
  controller_ok c → load_entities (ct_environment c) (ct_inventory c) = inr es →
  encodable r (known_part (ingestor_of (ct_registrar c)) batch) c →
  (∀ o e, o ∈ batch → observer_entity o = Some e → e ∈ dom (t_entities (ct_inventory c))) →
  (store_batch r batch c).2 = Success (admit_batch r batch (ingestor_of (ct_registrar c))).2.
Proof.
  intros Hok Hl Henc Hobs. unfold store_batch. rewrite Hl, (known_part_loaded _ _ _ Hl), (unknown_part_loaded _ _ _ Hl).
  unfold admit_batch. fold (known_part (ingestor_of (ct_registrar c)) batch). set (os := known_part _ batch) in *.
  assert (∀ o, o ∈ os → o ∈ batch ∧ target_entity o ∈ dom (t_entities (ct_inventory c))) as Hos.
  { intros o [Ho Hin]%list_elem_of_filter. split; [done|by apply entity_known_row]. }
  assert (references_met c os = true) as Href.
  { unfold references_met. apply forallb_forall. intros o Ho%list_elem_of_In. apply elem_of_first_new in Ho as [Ho _].
    destruct (Hos o Ho) as [Hb Ht]. unfold refers_to_entities. rewrite bool_decide_eq_true_2 by done. cbn [andb].
    destruct (observer_entity o) as [e|] eqn:He; [|done]. apply bool_decide_eq_true. by eapply Hobs. }
  pose proof (observations_stored r os c Hok (λ o Ho, proj2 (Hos o Ho)) Henc Href) as Hst.
  destruct (ingest_observations_recorded r os (ingestor_of (ct_registrar c))) as [[g out] ts]. by destruct Hst as [t ->].
Qed.

(** One new observation about a known entity by an observer without a row. *)
Lemma store_batch_refused r batch c es o e :
  load_entities (ct_environment c) (ct_inventory c) = inr es →
  o ∈ taken c batch → observer_entity o = Some e → e ∉ dom (t_entities (ct_inventory c)) →
  store_batch r batch c = (c, Failure Store_Database).
Proof.
  intros Hl Ho He Hno. unfold store_batch. rewrite Hl, (known_part_loaded _ _ _ Hl). unfold store_observations.
  assert (references_met c (known_part (ingestor_of (ct_registrar c)) batch) = false) as ->; [|done].
  apply not_true_is_false. unfold references_met. rewrite forallb_forall. intros Hall.
  specialize (Hall o (proj1 (list_elem_of_In _ _) Ho)). unfold refers_to_entities in Hall. rewrite He in Hall.
  apply andb_true_iff in Hall as [_ Hall]. by apply bool_decide_eq_true in Hall.
Qed.

(** *** A registration that succeeded is one of [Registration] *)

Lemma store_snapshot_core now fresh s c c' inv :
  store_snapshot now fresh s c = (c', Success inv) → ingest_snapshot now fresh s (ct_registrar c) = (ct_registrar c', Success inv).
Proof.
  unfold store_snapshot. destruct (ingest_snapshot now fresh s (ct_registrar c)) as [core [i|e|]]; [|done..].
  destruct (configure_all _ _ _ _).2; [by intros [= <- <-]|]. destruct (save_engine _ _ _ _ _); [done|]. by intros [= <- <-].
Qed.

Lemma store_registration_core r oid q c c' g :
  store_registration r oid q c = (c', Success g) → register_agent r oid q (ct_registrar c) = (ct_registrar c', Success g).
Proof.
  unfold store_registration, register_agent. destruct (stored_boot_id _ _) as [e|previous]; [done|].
  destruct (store_snapshot _ _ _ c) as [c1 [inv|e|]] eqn:Hs; [|done..]. rewrite (store_snapshot_core _ _ _ _ _ _ Hs).
  destruct (boot_changed _ _); [|by intros [= <- <-]]. unfold store_observations.
  destruct (references_met _ _); cbn [negb]; [|done].
  destruct (ingest_observations_recorded _ _ _) as [[g1 out] ts]. destruct (save_engine _ _ _ _ _); [done|]. by intros [= <- <-].
Qed.
End turns.

(** ** Who is seen *)

Section signed.
Context `{J : JsonApi}.
Variable execute : ProbeDefinition → ProbeContext → Execution.

Lemma observe_signed o e me :
  observing_entity o = Some me →
  observing_entity (observe execute o e).1 = Some me ∧ ∀ ob, ob ∈ (observe execute o e).2 → observer_entity ob = Some me.
Proof.
  intros Ho. unfold observe. case_decide; [split; [done|by intros ? ?%elem_of_nil]|].
  destruct (endpoint_for e) as [endpoint|]; [|split; [done|by intros ? ?%elem_of_nil]].
  match goal with |- context [run_probes execute ?ctx ?r ?ds] => destruct (run_probes_sublist execute ctx r ds) as (picks & _ & Hos);
    destruct (run_probes execute ctx r ds) as [r' os] end.
  cbn in *. split; [done|]. subst os. intros ob (d & -> & _)%list_elem_of_fmap. apply ran_observer. unfold observer_context. by rewrite Ho.
Qed.

Lemma observe_all_signed o es me :
  observing_entity o = Some me → ∀ ob, ob ∈ (Observers.observe_all execute o es).2 → observer_entity ob = Some me.
Proof.
  intros Ho. unfold Observers.observe_all. enough (∀ os, (∀ ob, ob ∈ os → observer_entity ob = Some me) →
    ∀ ob, ob ∈ (foldl (observe_step execute) (o, os) (filter observable es)).2 → observer_entity ob = Some me) as Hgen
    by (apply Hgen; by intros ? ?%elem_of_nil).
  revert o Ho. induction (filter observable es) as [|e l IH]; intros o Ho os Hos; cbn [foldl]; [done|].
  destruct (observe_signed o e me Ho) as [H1 H2]. unfold observe_step at 2. cbn [fst snd].
  destruct (observe execute o e) as [o' os']. cbn in *. apply IH; [done|]. intros ob [?|?]%elem_of_app; auto.
Qed.
End signed.

(** ** Properties *)

(** C36.  Whatever requests, discovery cycles and diagnosis passes a controller
    serves, in whatever order and whatever they are answered, its engine stays
    well formed, every entity the engine or the map of providers names has a row
    (so that saving the engine can never be refused for a reference), every
    stream is of an entity with a state, and the incidents held in memory are
    those of the tables. *)
Theorem every_turn_keeps_the_books `{J : JsonApi} `{U : UuidApi} `{T : TimeApi} `{CH : ChronoApi} `{HI : HashIter} `{SC : StreamCodec}
    `{!TimelineLaws} julianday_within (rows_of : gmap ObservationId ObservationRow → list ObservationRow) (c0 c : Controller) :
  controller_ok c0 → rtc (turn julianday_within rows_of) c0 c → controller_ok c.
Proof. intros H0 Hr. induction Hr as [|c0 c1 c Ht _ IH]; [done|]. apply IH. by eapply controller_turn_ok. Qed.

(** C33.  A batch is taken whole or not at all: it is stored, answered and applied
    to the engine exactly as [admit_batch] has it and the engine saved
    with it, or the controller is left as it was; and it is refused exactly when
    a new observation of it, about an entity that is known, was made by an
    observer that is not. *)
Theorem a_stranger_refuses_the_batch `{J : JsonApi} `{U : UuidApi} `{T : TimeApi} `{CH : ChronoApi} `{HI : HashIter} `{SC : StreamCodec}
    `{!TimelineLaws} (r : Readings) (batch : list Observation) (c c' : Controller) (res : outcome BatchResponse) es :
  controller_ok c → load_entities (ct_environment c) (ct_inventory c) = inr es →
  encodable r (known_part (ingestor_of (ct_registrar c)) batch) c →
  store_batch r batch c = (c', res) →
  let '(g, resp) := admit_batch r batch (ingestor_of (ct_registrar c)) in
  (res = Success resp ∧ (∀ o e, o ∈ taken c batch → observer_entity o = Some e → e ∈ dom (t_entities (ct_inventory c)))
   ∧ ∃ t, c' = with_saved_engine (mk_registrar (ct_environment c) (ct_inventory c) (reg_providers (ct_registrar c))
                                    (ing_table g) (ing_engine g)) t c)
  ∨ (res = Failure Store_Database ∧ c' = c
     ∧ ∃ o e, o ∈ taken c batch ∧ observer_entity o = Some e ∧ e ∉ dom (t_entities (ct_inventory c))).
Proof.
  intros Hok Hl Henc. unfold store_batch. rewrite Hl, (known_part_loaded _ _ _ Hl). set (os := known_part _ batch) in *.
  assert (∀ o, o ∈ os → target_entity o ∈ dom (t_entities (ct_inventory c))) as Hos.
  { intros o Ho. unfold os in Ho. rewrite <- (known_part_loaded _ _ _ Hl) in Ho. apply list_elem_of_filter in Ho as [Ho _].
    by eapply entity_rows_dom. }
  assert (∀ o, target_entity o ∉ (list_to_set (map entity_eid es) : gset EntityId)
             ↔ target_entity o ∉ ing_known (ingestor_of (ct_registrar c))) as Hsame.
  { intros o. pose proof (known_part_loaded c [o] es Hl) as H1. unfold known_part in H1.
    rewrite !filter_cons, !filter_nil in H1. repeat case_decide; try done; tauto. }
  rewrite (list_filter_iff _ (λ o, target_entity o ∉ ing_known (ingestor_of (ct_registrar c))) batch Hsame).
  unfold admit_batch. fold (known_part (ingestor_of (ct_registrar c)) batch) os.
  destruct (references_met c os) eqn:Href.
  - pose proof (observations_stored r os c Hok Hos Henc Href) as Hst.
    destruct (ingest_observations_recorded r os (ingestor_of (ct_registrar c))) as [[g out] ts]. destruct Hst as [t ->].
    intros [= <- <-]. left. split; [done|]. split; [|by exists t]. intros o e Ho He.
    unfold references_met in Href. rewrite forallb_forall in Href. specialize (Href o (proj1 (list_elem_of_In _ _) Ho)).
    unfold refers_to_entities in Href. rewrite He in Href. apply andb_true_iff in Href as [_ Href]. by apply bool_decide_eq_true in Href.
  - unfold store_observations. rewrite Href. cbn [negb]. intros [= <- <-].
    destruct (ingest_observations_recorded r os (ingestor_of (ct_registrar c))) as [[g out] ts]. right. split; [done|]. split; [done|].
    unfold references_met in Href. apply forallb_false_exists in Href as (o & Ho & Hf). unfold refers_to_entities in Hf.
    rewrite bool_decide_eq_true_2 in Hf by (apply Hos; by apply elem_of_first_new in Ho as [? _]). cbn [andb] in Hf.
    destruct (observer_entity o) as [e|] eqn:He; [|done]. exists o, e. split; [done|]. split; [done|]. by apply bool_decide_eq_false in Hf.
Qed.

(** C34.  A controller whose own host is no entity cannot record what it sees: the
    observations of a discovery cycle are signed with the host the controller
    runs on, so when it observed anything new and that host has no row after the
    providers were merged, the cycle ends in an error; what the providers said is
    kept, and none of the cycle's observations, the scheduler's included, reaches
    the table or the engine. *)
Theorem an_undeclared_controller_sees_nothing `{J : JsonApi} `{U : UuidApi} `{T : TimeApi} `{CH : ChronoApi} `{HI : HashIter}
    `{SC : StreamCodec} julianday_within (rows_of : gmap ObservationId ObservationRow → list ObservationRow)
    (rules : DiagnosisEngine) (k : Clocks) (w : World) (c : Controller) core report inv me o os :
  discover_once julianday_within (discovery_of rows_of c) w (ct_registrar c) = (core, Success report) →
  load_inventory (ct_environment c) (ct_inventory c) = inr inv →
  cc_observe (config_controller (ct_config c)) = true →
  observer_of (correlator_of rows_of c) = Some me → me ∉ dom (t_entities (reg_tables core)) →
  (Observers.observe_all (w_execute w) (observing_as (observer_with_schedules (config_probes (ct_config c))) me)
     (entities (gather inv (w_answers w)).1.1)).2 = o :: os →
  is_new (reg_observations (ct_registrar c)) o →
  let '(c', res) := store_cycle julianday_within rows_of rules k w c in
  res = Failure Store_Database ∧ ct_inventory c' = reg_tables core
  ∧ reg_observations (ct_registrar c') = reg_observations (ct_registrar c) ∧ ct_engine c' = ct_engine c ∧ ct_tables c' = ct_tables c.
Proof.
  intros Hd Hl Hobs Hme Hno Hseen Hnew. unfold store_cycle. rewrite Hd. unfold store_observations.
  match goal with |- context [references_met ?saved ?seen] => assert (references_met saved seen = false) as ->; [|done] end.
  assert (observed_in_cycle rows_of w c = o :: (os ++ match w_slurm w with
     | Some (inr view) => observations_from_view (w_ids w) (w_clock w) (ct_environment c) (scheduler_name (ct_config c)) view
     | _ => [] end)%list) as ->.
  { unfold observed_in_cycle, cycle_observations. rewrite Hl. cbn [discovery_of dc_observe dc_schedules dc_observer dc_scheduler].
    rewrite Hobs, Hme, Hseen. done. }
  apply not_true_is_false. unfold references_met. cbn [first_new]. rewrite decide_True by done. cbn [forallb]. intros [Href _]%andb_true_iff.
  assert (observer_entity o = Some me) as Hsigned.
  { eapply (observe_all_signed (w_execute w) (observing_as (observer_with_schedules (config_probes (ct_config c))) me)); [done|].
    rewrite Hseen. by left. }
  unfold refers_to_entities in Href. rewrite Hsigned in Href. apply andb_true_iff in Href as [_ Href]. by apply bool_decide_eq_true in Href.
Qed.

(** ** Samples *)

#[local] Existing Instance blank_stream_codec.

Definition lab_config : Config :=
  mk_config CONFIG_VERSION "lab" (mk_controller_config "0.0.0.0:7443" (std_secs 300) (std_secs 15) true) agent_default "db" 3 ∅
    [sample_declaration] [] discovery_default notification_default retention_default tls_default ∅.

(** A controller that starts over an inventory, on a host called [boss]. *)
Definition started (environment : string) (inv : InventoryTables) : Controller :=
  mk_controller lab_config (Some "boss") (mk_registrar environment inv ∅ ∅ state_engine_new)
    incident_engine_new no_engine empty_incident_tables.

Lemma started_ok environment inv : environment ∈ t_environments inv → controller_ok (started environment inv).
Proof.
  intros Henv. split; [apply engine_new_wf| |done| |].
  - split; [intros e [? He]|intros k s He]; cbn in He; by rewrite lookup_empty in He.
  - intros h s Hs. cbn in Hs. rewrite lookup_empty in Hs. by apply elem_of_nil in Hs.
  - split; [exact empty_incident_tables_ok|..]; intros *; cbn; by rewrite lookup_empty.
Qed.

Definition any_order (m : gmap ObservationId ObservationRow) : list ObservationRow := map snd (map_to_list m).

(** What [boss] saw of the host, in a batch. *)
Definition stranger : EntityId := entity_id_of "prod" Entity_Host "boss".
Definition strange_batch : list Observation :=
  [with_observer (observation_new {| observation_uuid := 7 |} 90 NETWORK_PROBE (entity_eid bare_host) Probe_Failed) stranger].

Definition strange_answer : Controller * outcome BatchResponse :=
  store_batch sample_readings strange_batch (started "prod" host_inventory).

Lemma prod_environment : "prod" ∈ t_environments host_inventory.
Proof. assert (bool_decide ("prod" ∈ t_environments host_inventory) = true) as Hb by (vm_compute; reflexivity). by apply bool_decide_eq_true in Hb. Qed.

Lemma every_turn_keeps_the_books_witness :
  controller_ok (started "prod" host_inventory) ∧ controller_ok strange_answer.1.
Proof.
  pose proof (started_ok "prod" host_inventory prod_environment) as Hok. split; [exact Hok|].
  apply (every_turn_keeps_the_books (λ _ _ _, true) any_order (started "prod" host_inventory)); [exact Hok|].
  apply rtc_once. apply turn_batch.
Defined.

Lemma a_stranger_refuses_the_batch_witness :
  controller_ok (started "prod" host_inventory) ∧ strange_answer.2 = Failure Store_Database.
Proof.
  pose proof (started_ok "prod" host_inventory prod_environment) as Hok. split; [exact Hok|].
  destruct (load_entities "prod" host_inventory) as [e|es] eqn:Hl.
  { assert (match load_entities "prod" host_inventory with inr _ => true | inl _ => false end = true) as Hb by (vm_compute; reflexivity).
    rewrite Hl in Hb. discriminate Hb. }
  destruct strange_answer as [c' res] eqn:Hs.
  assert (encodable sample_readings (known_part (ingestor_of (ct_registrar (started "prod" host_inventory))) strange_batch)
            (started "prod" host_inventory)) as Henc by (exists ""; reflexivity).
  pose proof (a_stranger_refuses_the_batch sample_readings strange_batch (started "prod" host_inventory) c' res es Hok Hl Henc Hs) as Ht.
  destruct (admit_batch _ _ _) as [g resp]. destruct Ht as [(_ & Hall & _)|(-> & _)]; [|reflexivity]. exfalso.
  assert (existsb (λ o, bool_decide (observer_entity o = Some stranger)) (taken (started "prod" host_inventory) strange_batch) = true)
    as Hin by (vm_compute; reflexivity).
  apply existsb_exists in Hin as (o & Ho & Hob). apply bool_decide_eq_true in Hob. apply list_elem_of_In in Ho.
  specialize (Hall o stranger Ho Hob).
  assert (bool_decide (stranger ∈ dom (t_entities host_inventory)) = false) as Hb by (vm_compute; reflexivity).
  apply bool_decide_eq_false in Hb. exact (Hb Hall).
Defined.

(** The first cycle of a controller that observes and has one host declared. *)
Definition first_world : World :=
  mk_world [mk_answer "static_config" 0 (inl (static_snapshot 0 "lab" [sample_declaration] []))] None sample_execution
    (λ _, sample_oid) (λ _, 0%Z) 0 (λ _, 0%Z) any_order sample_readings.

Definition lab_controller : Controller := started "lab" (ensure_environment "lab" (Store.mk_tables ∅ ∅ ∅ ∅ ∅ ∅)).

Definition first_cycle := store_cycle (λ _ _ _, true) any_order diagnosis_engine_new sample_clocks first_world lab_controller.

Lemma an_undeclared_controller_sees_nothing_witness :
  first_cycle.2 = Failure Store_Database ∧ reg_observations (ct_registrar first_cycle.1) = ∅.
Proof.
  set (d := discover_once (λ _ _ _, true) (discovery_of any_order lab_controller) first_world (ct_registrar lab_controller)).
  destruct d as [core res] eqn:Hd.
  assert (match d with (core, Success _) => bool_decide (entity_id_of "lab" Entity_Host "boss" ∉ dom (t_entities (reg_tables core)))
          | _ => false end = true) as Hb by (vm_compute; reflexivity).
  rewrite Hd in Hb. destruct res as [report|e|]; [|discriminate Hb..]. apply bool_decide_eq_true in Hb.
  destruct (load_inventory "lab" (ct_inventory lab_controller)) as [e|inv] eqn:Hl.
  { assert (match load_inventory "lab" (ct_inventory lab_controller) with inr _ => true | inl _ => false end = true) as Hi
      by (vm_compute; reflexivity). rewrite Hl in Hi. discriminate Hi. }
  set (seen := (Observers.observe_all (w_execute first_world)
    (observing_as (observer_with_schedules (config_probes (ct_config lab_controller))) (entity_id_of "lab" Entity_Host "boss"))
    (entities (gather inv (w_answers first_world)).1.1)).2).
  assert (match load_inventory "lab" (ct_inventory lab_controller) with
          | inr inv => negb (bool_decide (length (Observers.observe_all (w_execute first_world)
    (observing_as (observer_with_schedules (config_probes (ct_config lab_controller))) (entity_id_of "lab" Entity_Host "boss"))
    (entities (gather inv (w_answers first_world)).1.1)).2 = 0%nat)) | inl _ => false end = true) as Hseen by (vm_compute; reflexivity).
  rewrite Hl in Hseen. fold seen in Hseen. destruct seen as [|o os] eqn:Ho; [discriminate Hseen|].
  pose proof (an_undeclared_controller_sees_nothing (λ _ _ _, true) any_order diagnosis_engine_new sample_clocks first_world lab_controller
    core report inv (entity_id_of "lab" Entity_Host "boss") o os Hd Hl eq_refl eq_refl Hb Ho (lookup_empty _)) as Ht.
  fold first_cycle in Ht. destruct first_cycle as [c' res]. destruct Ht as (Hres & _ & Hrows & _). split; [exact Hres|exact Hrows].
Defined.
