(* ===== verification/Transport.v ===== *)
(** * The wire between agents and controller

    [src/protocol/auth.rs], [src/protocol/tls.rs] and [src/agent/client.rs]: the
    credential, the TLS material either side works with, and the address a
    client is built for.  Reading certificates and keys is the [rustls] crates'
    part: what their functions answer are arguments. *)

From S2P Require Export Config Delivery.

Local Open Scope string_scope.

(** ** The credential *)

(** [AuthError]. *)
Inductive AuthError := Auth_Missing | Auth_Malformed | Auth_Rejected.

Definition auth_error_to_string (e : AuthError) : string :=
  match e with
  | Auth_Missing => "no credential presented"
  | Auth_Malformed => "credential must be presented as `Authorization: Bearer <token>`"
  | Auth_Rejected => "credential rejected"
  end.

(** [ClusterCredential], by its token; [from_file] on what the file holds. *)
Definition MIN_LENGTH : nat := 32.
Definition credential_from_text (text : string) : string := trim text.
Definition is_strong (token : string) : bool := (MIN_LENGTH <=? String.length token)%nat.
Definition header_value (token : string) : string := "Bearer " +:+ token.
Definition credential_debug (token : string) : string :=
  "ClusterCredential(<redacted>, " +:+ show_N (N.of_nat (String.length token)) +:+ " bytes)".

(** [constant_time_eq]. *)
Definition difference (bytes : list (ascii * ascii)) : N :=
  foldl (λ d xy, N.lor d (N.lxor (N_of_ascii xy.1) (N_of_ascii xy.2))) 0%N bytes.

Definition constant_time_eq (a b : string) : bool :=
  if negb (String.length a =? String.length b)%nat then false
  else (difference (zip (String.list_ascii_of_string a) (String.list_ascii_of_string b)) =? 0)%N.

(** [ClusterCredential::verify_header]. *)
Definition verify_header (token : string) (header : option string) : AuthError + unit :=
  match header with
  | None => inl Auth_Missing
  | Some header =>
      match str_strip_prefix "Bearer " header with
      | None => inl Auth_Malformed
      | Some presented => if constant_time_eq presented token then inr tt else inl Auth_Rejected
      end
  end.

(** ** TLS *)

(** [TlsError]. *)
Inductive TlsError :=
  | Tls_Read (what path source : string)
  | Tls_Empty (what path expected : string)
  | Tls_Invalid (problem : string)
  | Tls_Rejected (detail : string).

Definition tls_error_to_string (e : TlsError) : string :=
  match e with
  | Tls_Read what path source => "cannot read " +:+ what +:+ " at " +:+ path +:+ ": " +:+ source
  | Tls_Empty what path expected => what +:+ " at " +:+ path +:+ " contains no " +:+ expected
  | Tls_Invalid problem => problem
  | Tls_Rejected detail => "TLS configuration rejected: " +:+ detail
  end.

Section tls.
Context {Certificate Key Verifier Root Identity : Type}.
(** [fs::read]. *)
Variable read : string → string + string.
(** [rustls_pemfile::certs] and [private_key]. *)
Variable pem_certs : string → string + list Certificate.
Variable pem_key : string → string + option Key.
(** [RootCertStore::add] of one certificate, [WebPkiClientVerifier::builder],
    and what [with_single_cert] has against a certificate and its key. *)
Variable add_root : Certificate → option string.
Variable build_verifier : list Certificate → string + Verifier.
Variable single_cert : list Certificate → Key → option string.
(** [reqwest::Certificate::from_pem_bundle] and [Identity::from_pem]. *)
Variable root_bundle : string → string + list Root.
Variable identity_from_pem : string → string + Identity.

(** [read_certificates] and [read_private_key]. *)
Definition read_file (what path : string) : TlsError + string :=
  match read path with inl source => inl (Tls_Read what path source) | inr data => inr data end.

Definition read_certificates (what path : string) : TlsError + list Certificate :=
  sum_bind (λ data,
    match pem_certs data with
    | inl source => inl (Tls_Read what path source)
    | inr [] => inl (Tls_Empty what path "PEM certificates")
    | inr certificates => inr certificates
    end) (read_file what path).

Definition read_private_key (what path : string) : TlsError + Key :=
  sum_bind (λ data,
    match pem_key data with
    | inl source => inl (Tls_Read what path source)
    | inr None => inl (Tls_Empty what path "a PEM private key")
    | inr (Some key) => inr key
    end) (read_file what path).

(** [rustls::ServerConfig], as far as it is set here. *)
Record ServerConfig := mk_server_config {
  server_verifier : option Verifier;
  server_certificates : list Certificate;
  server_key : Key;
  alpn_protocols : list string
}.

(** The verifier of [server_config]: a certificate the store refuses ends it. *)
Definition client_verifier (ca : option string) : TlsError + option Verifier :=
  match ca with
  | None => inr None
  | Some path =>
      sum_bind (λ certificates,
        match head (omap add_root certificates) with
        | Some e => inl (Tls_Rejected ("tls.client_ca: " +:+ e))
        | None =>
            match build_verifier certificates with
            | inl e => inl (Tls_Rejected ("tls.client_ca: " +:+ e))
            | inr v => inr (Some v)
            end
        end) (read_certificates "tls.client_ca" path)
  end.

(** [server_config]. *)
Definition server_config (config : TlsConfig) : TlsError + option ServerConfig :=
  match tls_problems config with
  | problem :: _ => inl (Tls_Invalid problem)
  | [] =>
      match tls_cert config, tls_key config with
      | Some cert, Some key =>
          sum_bind (λ certificates, sum_bind (λ key, sum_bind (λ verifier,
            match single_cert certificates key with
            | Some e => inl (Tls_Rejected e)
            | None => inr (Some (mk_server_config verifier certificates key ["http/1.1"]))
            end) (client_verifier (tls_client_ca config)))
            (read_private_key "tls.key" key)) (read_certificates "tls.cert" cert)
      | _, _ => inr None
      end
  end.

(** [reqwest::ClientBuilder], as far as it is set here. *)
Record ClientBuilder := mk_builder {
  builder_roots : list Root;
  builder_identity : option Identity;
  accepts_invalid_certs : bool;
  builder_resolve : option (string * IpAddr * N)
}.

Definition builder_new : ClientBuilder := mk_builder [] None false None.

(** The certificates and the identity of [apply_client_config]. *)
Definition apply_roots (b : ClientBuilder) (ca : option string) : TlsError + ClientBuilder :=
  match ca with
  | None => inr b
  | Some path =>
      sum_bind (λ data,
        match root_bundle data with
        | inl e => inl (Tls_Rejected ("tls.ca: " +:+ e))
        | inr roots =>
            inr (mk_builder (builder_roots b ++ roots)%list (builder_identity b) (accepts_invalid_certs b) (builder_resolve b))
        end) (read_file "tls.ca" path)
  end.

Definition apply_identity (b : ClientBuilder) (cert key : option string) : TlsError + ClientBuilder :=
  match cert, key with
  | Some cert, Some key =>
      sum_bind (λ pem, sum_bind (λ key,
        match identity_from_pem (pem +:+ String "010" key) with
        | inl e => inl (Tls_Rejected ("tls.client_cert / tls.client_key: " +:+ e))
        | inr i => inr (mk_builder (builder_roots b) (Some i) (accepts_invalid_certs b) (builder_resolve b))
        end) (read_file "tls.client_key" key)) (read_file "tls.client_cert" cert)
  | _, _ => inr b
  end.

(** [apply_client_config]. *)
Definition apply_client_config (b : ClientBuilder) (config : TlsConfig) : TlsError + ClientBuilder :=
  match tls_problems config with
  | problem :: _ => inl (Tls_Invalid problem)
  | [] =>
      if negb (affects_client config) then inr b
      else
        sum_bind (λ b, sum_bind (λ b,
          inr (if tls_insecure_skip_verify config
               then mk_builder (builder_roots b) (builder_identity b) true (builder_resolve b) else b))
          (apply_identity b (tls_client_cert config) (tls_client_key config)))
          (apply_roots b (tls_ca config))
  end.

(** ** The client *)

Section client.
(** [{:?}] of a character, as in [debug_str], and what [reqwest] has against a
    client of this kind. *)
Variable printable : N → bool.
Variable build_http : ClientBuilder → option string.

(** [split_host_port]. *)
Definition split_host_port (url : string) : ClientError + (string * N) :=
  let rest := match split_once "://" url with Some (_, rest) => rest | None => url end in
  let rest := before "/" rest in
  match rsplit_once ":" rest with
  | None => inl (Client_Configuration (debug_str printable url +:+ " has no port; tls.server_name needs one"))
  | Some (host, port) =>
      match parse_u16 port with
      | None => inl (Client_Configuration (debug_str printable port +:+ " is not a port number"))
      | Some port => inr (host, port)
      end
  end.

(** [ControllerClient]. *)
Record ControllerClient := mk_controller_client {
  base_url : string;
  client_credential : string;
  client_http : ClientBuilder
}.

(** [s.replacen(p, r, 1)]. *)
Definition replace_first (p r s : string) : string :=
  match split_once p s with Some (l, rest) => l +:+ r +:+ rest | None => s end.

(** The base URL of an address, before [server_name]. *)
Definition controller_url (address : string) (tls : TlsConfig) : string :=
  if starts_with "http://" address || starts_with "https://" address then trim_end_char "/" address
  else (if affects_client tls then "https" else "http") +:+ "://" +:+ trim_end_char "/" address.

(** The request is addressed to the name, and the name is resolved back to the
    address it came from. *)
Definition name_controller (url : string) (b : ClientBuilder) (server_name : option string) : ClientError + (string * ClientBuilder) :=
  match server_name with
  | None => inr (url, b)
  | Some name =>
      sum_bind (λ '(host, port),
        match parse_ip host with
        | None =>
            inl (Client_Configuration
              ("tls.server_name is for reaching the controller by address,                          but "
               +:+ debug_str printable host +:+ " is already a name; remove one of the two"))
        | Some ip =>
            inr (replace_first host name url,
                 mk_builder (builder_roots b) (builder_identity b) (accepts_invalid_certs b) (Some (name, ip, port)))
        end) (split_host_port url)
  end.

(** [ControllerClient::with_tls] and [new]. *)
Definition client_with_tls (address token : string) (tls : TlsConfig) : ClientError + ControllerClient :=
  match apply_client_config builder_new tls with
  | inl e => inl (Client_Configuration (tls_error_to_string e))
  | inr b =>
      sum_bind (λ '(url, b),
        match build_http b with
        | Some e => inl (Client_Configuration e)
        | None => inr (mk_controller_client url (header_value token) b)
        end) (name_controller (controller_url address tls) b (tls_server_name tls))
  end.

Definition client_new (address token : string) : ClientError + ControllerClient := client_with_tls address token tls_default.

(** The URL of a request: [API_PREFIX] and the path. *)
Definition API_PREFIX : string := "/v1".
Definition request_url (c : ControllerClient) (path : string) : string := base_url c +:+ API_PREFIX +:+ path.
End client.
End tls.

Arguments ServerConfig : clear implicits.
Arguments ClientBuilder : clear implicits.
Arguments ControllerClient : clear implicits.

(** ** Properties of the credential *)

Lemma lxor_lt_256 a b : N.lxor (N_of_ascii a) (N_of_ascii b) = 0%N ↔ a = b.
Proof. rewrite N.lxor_eq_0_iff. split; [|by intros ->]. intros Hn. rewrite <- (ascii_N_embedding a), Hn. apply ascii_N_embedding. Qed.

Lemma lor_zero a b : N.lor a b = 0%N ↔ a = 0%N ∧ b = 0%N.
Proof. apply N.lor_eq_0_iff. Qed.

Lemma difference_zero l : difference l = 0%N ↔ Forall (λ xy, xy.1 = xy.2) l.
Proof.
  unfold difference. cut (∀ d, foldl (λ d xy, N.lor d (N.lxor (N_of_ascii xy.1) (N_of_ascii xy.2))) d l = 0%N
                               ↔ d = 0%N ∧ Forall (λ xy, xy.1 = xy.2) l).
  { intros ->. tauto. }
  induction l as [|[x y] l IH]; intros d; cbn [foldl]; [rewrite Forall_nil; tauto|].
  rewrite IH, lor_zero, lxor_lt_256, Forall_cons. cbn. tauto.
Qed.

Lemma zip_same (l k : list ascii) : length l = length k → Forall (λ xy, xy.1 = xy.2) (zip l k) → l = k.
Proof.
  revert k. induction l as [|x l IH]; intros [|y k]; try done. cbn. intros [= Hl] [Hxy Hr]%Forall_cons.
  cbn in Hxy. by rewrite Hxy, (IH k).
Qed.

(** Looking at every byte is comparing. *)
Lemma constant_time_eq_spec a b : constant_time_eq a b = true ↔ a = b.
Proof.
  assert (∀ s, length (String.list_ascii_of_string s) = String.length s) as Hlen by (induction s; cbn; congruence).
  unfold constant_time_eq. split.
  - destruct (Nat.eqb_spec (String.length a) (String.length b)) as [Hl|]; [|done]. cbn [negb].
    rewrite N.eqb_eq, difference_zero. intros Hz.
    rewrite <- (String.string_of_list_ascii_of_string a), <- (String.string_of_list_ascii_of_string b). f_equal.
    apply zip_same; [by rewrite !Hlen|done].
  - intros ->. rewrite Nat.eqb_refl. cbn [negb]. rewrite N.eqb_eq, difference_zero.
    induction (String.list_ascii_of_string b) as [|x l IH]; cbn; [by constructor|by constructor].
Qed.

Lemma verify_header_spec token header : verify_header token header = inr tt ↔ header = Some (header_value token).
Proof.
  unfold verify_header, header_value. destruct header as [h|]; [|done].
  destruct (str_strip_prefix "Bearer " h) as [presented|] eqn:Hp.
  - apply str_strip_prefix_Some in Hp as ->. destruct (constant_time_eq presented token) eqn:He.
    + apply constant_time_eq_spec in He as ->. done.
    + split; [done|]. intros Heq. exfalso. revert He. assert (presented = token) as -> by (by injection Heq).
      by rewrite (proj2 (constant_time_eq_spec token token) eq_refl).
  - split; [done|]. intros [= ->]. by rewrite str_strip_prefix_app in Hp.
Qed.

(** ** Properties of the connections *)

Lemma sum_bind_inr {E A B} (f : A → E + B) (x : E + A) y : sum_bind f x = inr y → ∃ a, x = inr a ∧ f a = inr y.
Proof. destruct x as [e|a]; [done|]. cbn. intros Hf. by exists a. Qed.

Section connections.
Context {Certificate Key Verifier Root Identity : Type}.
Variable read : string → string + string.
Variable pem_certs : string → string + list Certificate.
Variable pem_key : string → string + option Key.
Variable add_root : Certificate → option string.
Variable build_verifier : list Certificate → string + Verifier.
Variable single_cert : list Certificate → Key → option string.
Variable root_bundle : string → string + list Root.
Variable identity_from_pem : string → string + Identity.

Lemma read_certificates_some what path l : read_certificates read pem_certs what path = inr l → l ≠ [].
Proof. intros (data & _ & H)%sum_bind_inr. destruct (pem_certs data) as [|[|c cs]]; try done. by injection H as <-. Qed.

Lemma client_verifier_given ca v :
  client_verifier read pem_certs add_root build_verifier ca = inr v → is_Some v ↔ is_Some ca.
Proof.
  unfold client_verifier. destruct ca as [path|]; [|by intros [= <-]; split; intros []%is_Some_None].
  intros (l & _ & H)%sum_bind_inr. destruct (head _); [done|]. destruct (build_verifier l); [done|]. injection H as <-.
  split; by eexists.
Qed.

(** C35.  Security that was asked for is there or nothing is: a controller comes up
    with a listener for TLS exactly when it has a certificate and its key, and
    the listener demands client certificates exactly when it was told to; plain
    HTTP is what a configuration without any of the three gets.  Nothing wrong
    with a file makes it listen with less. *)
Theorem tls_is_never_dropped (config : TlsConfig) (r : option (ServerConfig Certificate Key Verifier)) :
  server_config read pem_certs pem_key add_root build_verifier single_cert config = inr r →
  match r with
  | None => tls_cert config = None ∧ tls_key config = None ∧ tls_client_ca config = None
  | Some s =>
      serves_tls config = true ∧ server_certificates s ≠ []
      ∧ (is_Some (server_verifier s) ↔ requires_client_certificates config = true)
  end.
Proof.
  unfold server_config. destruct (tls_problems config) as [|problem ps] eqn:Hp; [|done].
  unfold tls_problems in Hp. apply app_nil in Hp as [Hpair Hp]. apply app_nil in Hp as [_ Hp]. apply app_nil in Hp as [Hca _].
  unfold serves_tls, requires_client_certificates, given in *.
  destruct (tls_cert config) as [cert|], (tls_key config) as [key|], (tls_client_ca config) as [ca|] eqn:Hc; try done;
    try (by intros [= <-]).
  all: intros (certs & Hcerts & H)%sum_bind_inr; apply sum_bind_inr in H as (k & _ & H); apply sum_bind_inr in H as (v & Hv & H);
    destruct (single_cert certs k); [done|]; injection H as <-; cbn [server_verifier server_certificates];
    apply client_verifier_given in Hv; apply read_certificates_some in Hcerts; split_and!; [done|done|];
    rewrite Hv, bool_decide_eq_true; done.
Qed.

Lemma apply_client_config_spec b config b' :
  apply_client_config read root_bundle identity_from_pem b config = inr b' →
  accepts_invalid_certs b = false → builder_identity b = None →
  accepts_invalid_certs b' = tls_insecure_skip_verify config
  ∧ (tls_insecure_skip_verify config = true → tls_ca config = None)
  ∧ (is_Some (builder_identity b') ↔ presents_client_certificate config = true)
  ∧ builder_resolve b' = builder_resolve b.
Proof.
  unfold apply_client_config. destruct (tls_problems config) as [|problem ps] eqn:Hp; [|done]. intros H Hinv Hid.
  assert (tls_insecure_skip_verify config = true → tls_ca config = None) as Hca.
  { intros Hs. unfold tls_problems in Hp. apply app_nil in Hp as [_ Hp]. apply app_nil in Hp as [_ Hp]. apply app_nil in Hp as [_ Hp].
    rewrite Hs in Hp. by destruct (tls_ca config). }
  destruct (affects_client config) eqn:Ha; cbn [negb] in H.
  - apply sum_bind_inr in H as (b1 & H1 & H). apply sum_bind_inr in H as (b2 & H2 & H). injection H as <-.
    assert (accepts_invalid_certs b1 = false ∧ builder_identity b1 = None ∧ builder_resolve b1 = builder_resolve b) as (Hi1 & Hd1 & Hr1).
    { revert H1. unfold apply_roots. destruct (tls_ca config); [|by intros [= <-]]. intros (data & _ & H)%sum_bind_inr.
      destruct (root_bundle data); [done|]. by injection H as <-. }
    assert (accepts_invalid_certs b2 = false ∧ builder_resolve b2 = builder_resolve b
            ∧ (is_Some (builder_identity b2) ↔ presents_client_certificate config = true)) as (Hi2 & Hr2 & Hd2).
    { revert H2. unfold apply_identity, presents_client_certificate, given.
      destruct (tls_client_cert config), (tls_client_key config);
        try (intros [= <-]; split_and!; [done|done|rewrite Hd1; split; [by intros []%is_Some_None|done]]).
      intros (pem & _ & H)%sum_bind_inr. apply sum_bind_inr in H as (k & _ & H). destruct (identity_from_pem _); [done|].
      injection H as <-. split_and!; [done|done|split; [done|by eexists]]. }
    destruct (tls_insecure_skip_verify config); by split_and!.
  - injection H as <-. unfold affects_client in Ha. apply orb_false_iff in Ha as [Ha Hs]. apply orb_false_iff in Ha as [Ha _].
    apply orb_false_iff in Ha as [_ Hpr]. rewrite Hs, Hpr, Hid. split_and!; [done|done|split; [by intros []%is_Some_None|done]|done].
Qed.

(** A client connects the way it was told to: it checks the controller's
    certificate unless told not to, in which case it was given no authority to
    check it by; it shows a certificate of its own exactly when it was given one
    with its key; the credential it sends is the one the controller takes; and
    where the controller is known by another name than the address it is
    reached at, the name resolves to that address and port. *)
Theorem client_connects_as_told (printable : N → bool) (build_http : ClientBuilder Root Identity → option string)
    (address token : string) (config : TlsConfig) (c : ControllerClient Root Identity) :
  client_with_tls read root_bundle identity_from_pem printable build_http address token config = inr c →
  accepts_invalid_certs (client_http c) = tls_insecure_skip_verify config
  ∧ (tls_insecure_skip_verify config = true → tls_ca config = None)
  ∧ (is_Some (builder_identity (client_http c)) ↔ presents_client_certificate config = true)
  ∧ verify_header token (Some (client_credential c)) = inr tt
  ∧ match tls_server_name config with
    | None => base_url c = controller_url address config ∧ builder_resolve (client_http c) = None
    | Some name => ∃ host ip port, split_host_port printable (controller_url address config) = inr (host, port)
                     ∧ parse_ip host = Some ip ∧ builder_resolve (client_http c) = Some (name, ip, port)
    end.
Proof.
  unfold client_with_tls. destruct (apply_client_config _ _ _ _ _) as [e|b] eqn:Hb; [done|].
  apply apply_client_config_spec in Hb as (Hi & Hca & Hd & Hr); [|done|done].
  intros ([url b'] & Hn & H)%sum_bind_inr. destruct (build_http b'); [done|]. injection H as <-. cbn [client_http client_credential base_url].
  assert (accepts_invalid_certs b' = accepts_invalid_certs b ∧ builder_identity b' = builder_identity b
          ∧ match tls_server_name config with
            | None => url = controller_url address config ∧ builder_resolve b' = None
            | Some name => ∃ host ip port, split_host_port printable (controller_url address config) = inr (host, port)
                             ∧ parse_ip host = Some ip ∧ builder_resolve b' = Some (name, ip, port)
            end) as (-> & -> & Hname).
  { revert Hn. unfold name_controller. destruct (tls_server_name config) as [name|]; [|by intros [= <- <-]].
    intros ([host port] & Hs & Hn)%sum_bind_inr. destruct (parse_ip host) as [ip|] eqn:Hip; [|done]. injection Hn as <- <-.
    split_and!; [done|done|]. by exists host, ip, port. }
  split_and!; try done. by apply verify_header_spec.
Qed.
End connections.

(** ** Samples *)

(** A bare address goes over TLS when anything of TLS is configured for the
    client; a scheme stays what it is. *)
Example urls :
  let tls := mk_tls None None None (Some "/ca.pem") None None None false in
  map (λ a, controller_url a tls) ["ctl:7443"; "http://ctl:7443/"] = ["https://ctl:7443"; "http://ctl:7443"]
  ∧ controller_url "ctl:7443/" tls_default = "http://ctl:7443".
Proof. split; reflexivity. Qed.

(** An IPv6 address in brackets is taken for a name. *)
Example bracketed_address_is_a_name :
  split_host_port (λ _, true) "https://[::1]:7443" = inr ("[::1]", 7443%N) ∧ parse_ip "[::1]" = None
  ∧ split_host_port (λ _, true) "https://10.0.0.4:7443/base" = inr ("10.0.0.4", 7443%N).
Proof. split_and!; reflexivity. Qed.

Definition sample_tls : TlsConfig := mk_tls (Some "cert.pem") (Some "key.pem") (Some "ca.pem") None None None None false.

Lemma tls_is_never_dropped_witness :
  let config := server_config (λ path, inr path) (λ data, inr [data]) (λ data, inr (Some data)) (λ _ : string, None)
                  (λ roots, inr roots) (λ _ _, None) in
  ∃ s, config sample_tls = inr (Some s) ∧ server_certificates s ≠ [] ∧ is_Some (server_verifier s).
Proof.
  cbn zeta. eexists. split; [reflexivity|].
  destruct (tls_is_never_dropped (λ path, inr path) (λ data, inr [data]) (λ data, inr (Some data)) (λ _ : string, None)
              (λ roots, inr roots) (λ _ _, None) sample_tls _ eq_refl) as (_ & Hcerts & Hv).
  split; [exact Hcerts|]. apply Hv. reflexivity.
Defined.

Definition named_tls : TlsConfig := mk_tls None None None (Some "ca.pem") None None (Some "controller.lab") false.

Lemma client_connects_as_told_witness :
  ∃ c : ControllerClient string string,
    client_with_tls (λ path, inr path) (λ data, inr [data]) (λ data, inr data) (λ _, true) (λ _, None) "10.0.0.4:7443" "secret" named_tls
      = inr c
    ∧ base_url c = "https://controller.lab:7443"
    ∧ verify_header "secret" (Some (client_credential c)) = inr tt
    ∧ ∃ ip, builder_resolve (client_http c) = Some ("controller.lab", ip, 7443%N).
Proof.
  eexists. split; [reflexivity|].
  destruct (client_connects_as_told (λ path, inr path) (λ data, inr [data]) (λ data, inr data) (λ _, true) (λ _, None)
              "10.0.0.4:7443" "secret" named_tls _ eq_refl) as (_ & _ & _ & Hv & host & ip & port & Hs & _ & Hr).
  split; [reflexivity|]. split; [exact Hv|]. exists ip.
  assert (split_host_port (λ _, true) (controller_url "10.0.0.4:7443" named_tls) = inr ("10.0.0.4", 7443%N)) as Hs' by reflexivity.
  rewrite Hs' in Hs. injection Hs as _ <-. exact Hr.
Defined.
