(* ===== verification/Agent.v ===== *)
(** * The agent

    [src/agent/mod.rs] and the snapshot of [src/agent/rpc.rs]: the agent put
    together from its host inspection, its probes, its spool and its sessions,
    and the loop it runs.  The host it asks, the clocks, what executing a probe
    comes to, and the controller at the other end of its client are arguments. *)

From S2P Require Export AgentDiscovery Observers Config Metrics.

Local Open Scope string_scope.

(** ** Constants *)

(** [PROTOCOL_VERSION] and [VERSION] of [src/lib.rs], the latter the version
    in [Cargo.toml]. *)
Definition PROTOCOL_VERSION : N := 1.
Definition VERSION : string := "1.0.7".

(** [ASSIGNMENT_REFRESH]. *)
Definition ASSIGNMENT_REFRESH : StdDuration := std_secs 60.

(** [as u32]. *)
Definition as_u32 (n : N) : N := (n mod 4294967296)%N.

(** ** The state *)

Section agent.
Context `{J : JsonApi} `{U : UuidApi} `{T : TimeApi} `{C : ChronoApi} `{OC : !ObservationCodec}.

(** [Agent], but for the inspector and the client it asks. *)
Record Agent := mk_agent {
  ag_environment : string;
  ag_hostname : string;
  ag_spool : gmap string SpoolRow;
  ag_capabilities : CapabilitySet;
  ag_roles : list string;
  ag_status : AgentStatus;
  ag_local : LocalProbes;
  ag_started_at : Instant;
  ag_registered_flag : bool;
  ag_gpus : option N;
  ag_ssh_port : option N;
  ag_rpc_port : option N;
  ag_peers : PeerProbes;
  ag_refreshed_at : option Instant;
  ag_config : AgentConfig
}.

Definition with_status (a : Agent) (s : AgentStatus) : Agent :=
  mk_agent (ag_environment a) (ag_hostname a) (ag_spool a) (ag_capabilities a) (ag_roles a) s (ag_local a) (ag_started_at a)
    (ag_registered_flag a) (ag_gpus a) (ag_ssh_port a) (ag_rpc_port a) (ag_peers a) (ag_refreshed_at a) (ag_config a).
Definition with_spool (a : Agent) (t : gmap string SpoolRow) : Agent :=
  mk_agent (ag_environment a) (ag_hostname a) t (ag_capabilities a) (ag_roles a) (ag_status a) (ag_local a) (ag_started_at a)
    (ag_registered_flag a) (ag_gpus a) (ag_ssh_port a) (ag_rpc_port a) (ag_peers a) (ag_refreshed_at a) (ag_config a).
Definition with_local (a : Agent) (l : LocalProbes) : Agent :=
  mk_agent (ag_environment a) (ag_hostname a) (ag_spool a) (ag_capabilities a) (ag_roles a) (ag_status a) l (ag_started_at a)
    (ag_registered_flag a) (ag_gpus a) (ag_ssh_port a) (ag_rpc_port a) (ag_peers a) (ag_refreshed_at a) (ag_config a).
Definition with_flag (a : Agent) (b : bool) : Agent :=
  mk_agent (ag_environment a) (ag_hostname a) (ag_spool a) (ag_capabilities a) (ag_roles a) (ag_status a) (ag_local a) (ag_started_at a)
    b (ag_gpus a) (ag_ssh_port a) (ag_rpc_port a) (ag_peers a) (ag_refreshed_at a) (ag_config a).
Definition with_gpus (a : Agent) (n : option N) : Agent :=
  mk_agent (ag_environment a) (ag_hostname a) (ag_spool a) (ag_capabilities a) (ag_roles a) (ag_status a) (ag_local a) (ag_started_at a)
    (ag_registered_flag a) n (ag_ssh_port a) (ag_rpc_port a) (ag_peers a) (ag_refreshed_at a) (ag_config a).
Definition with_peers (a : Agent) (p : PeerProbes) : Agent :=
  mk_agent (ag_environment a) (ag_hostname a) (ag_spool a) (ag_capabilities a) (ag_roles a) (ag_status a) (ag_local a) (ag_started_at a)
    (ag_registered_flag a) (ag_gpus a) (ag_ssh_port a) (ag_rpc_port a) p (ag_refreshed_at a) (ag_config a).
Definition with_refreshed (a : Agent) (at_ : option Instant) : Agent :=
  mk_agent (ag_environment a) (ag_hostname a) (ag_spool a) (ag_capabilities a) (ag_roles a) (ag_status a) (ag_local a) (ag_started_at a)
    (ag_registered_flag a) (ag_gpus a) (ag_ssh_port a) (ag_rpc_port a) (ag_peers a) at_ (ag_config a).

(** [agent.listen.rsplit_once(':').and_then(|(_, port)| port.parse().ok())]. *)
Definition listen_port (listen : string) : option N := '(_, port) ← rsplit_once ":" listen; parse_u16 port.

(** [Agent::new]; [t] is what the spool at its path holds. *)
Definition agent_new (i : Inspector) (now : Instant) (seed : N) (config : Config) (t : gmap string SpoolRow) : option Agent :=
  hostname ← insp_hostname i;
  let capabilities := enabled (resolve i (config_capabilities config) (ac_roles (config_agent config))) in
  let entity := entity_id_of (config_environment config) Entity_Host hostname in
  Some (mk_agent (config_environment config) hostname t capabilities (ac_roles (config_agent config)) agent_status_default
          (agent_local_probes now seed (config_probes config) (config_environment config) hostname capabilities (insp_mounts i))
          now false None (ac_ssh_port (config_agent config)) (listen_port (ac_listen (config_agent config)))
          (peers_with_schedules entity (config_probes config)) None (config_agent config)).

(** [Agent::entity_id]. *)
Definition agent_entity_id (a : Agent) : EntityId := entity_id_of (ag_environment a) Entity_Host (ag_hostname a).

(** [Agent::set_registered]. *)
Definition agent_set_registered (a : Agent) (b : bool) : Agent := with_flag (with_status a (set_registered b (ag_status a))) b.

(** ** What the agent tells of its host *)

(** [Agent::service_ports]; [p] is left out when it is the default. *)
Definition stated_port (name : string) (default_ : N) (p : option N) (ports : gmap string N) : gmap string N :=
  match p with Some p => if (p =? default_)%N then ports else <[ name := p ]> ports | None => ports end.

Definition effective_ssh_port (a : Agent) (i : Inspector) : option N :=
  match ag_ssh_port a with Some p => Some p | None => detect_ssh_port i end.

Definition service_ports (a : Agent) (i : Inspector) : gmap string N :=
  stated_port "agent" AGENT_DEFAULT_PORT (ag_rpc_port a) (stated_port "ssh" SSH_DEFAULT_PORT (effective_ssh_port a i) ∅).

(** [serde_json::to_value] of a [HardwareSummary]. *)
Definition json_of_hardware (h : HardwareSummary) : json :=
  json_object [("cpus", json_opt_u64 (cpus h)); ("memory_mb", json_opt_u64 (memory_mb h)); ("gpus", json_opt_u64 (hw_gpus h));
               ("kernel", json_opt_str (kernel h))].

(** [Agent::address_choice]. *)
Definition address_choice (a : Agent) (i : Inspector) : AddressChoice :=
  choose_addresses (insp_interfaces i) (ac_address (ag_config a)) (ac_interface (ag_config a)).

(** [Agent::registration]. *)
Definition registration (a : Agent) (i : Inspector) : RegisterRequest :=
  mk_register PROTOCOL_VERSION VERSION (ag_environment a) (ag_hostname a) (insp_fqdn i) (insp_boot_id i)
    (chosen_addresses (address_choice a i)) (service_ports a i) (ag_capabilities a)
    (json_of_hardware (hardware i (as_u32 <$> ag_gpus a))) (ag_roles a).

(** [health_snapshot] ([src/agent/rpc.rs]). *)
Definition health_snapshot (environment hostname : string) (boot_id : option string) (capabilities : CapabilitySet)
    (uptime_seconds : N) (clock : Timestamp) (spooled_observations : N) (registered : bool) : AgentHealth :=
  mk_health PROTOCOL_VERSION VERSION environment hostname boot_id capabilities clock uptime_seconds spooled_observations registered.

(** [Duration::as_secs] of [started_at.elapsed()]. *)
Definition uptime (started now : Instant) : N := ((now - started) / 1000000000)%N.

(** [Agent::health]. *)
Definition agent_health (a : Agent) (i : Inspector) (now : Instant) (clock : Timestamp) : AgentHealth :=
  health_snapshot (ag_environment a) (ag_hostname a) (insp_boot_id i) (ag_capabilities a) (uptime (ag_started_at a) now) clock
    (spool_len (ag_spool a)) (registered (ag_status a)).

(** [AgentHealthHandle], [Agent::health_handle]: the spool and the flag are
    shared with the agent, and read when the handle is asked. *)
Record AgentHealthHandle := mk_handle {
  handle_environment : string;
  handle_hostname : string;
  handle_capabilities : CapabilitySet;
  handle_started_at : Instant
}.

Definition health_handle (a : Agent) : AgentHealthHandle :=
  mk_handle (ag_environment a) (ag_hostname a) (ag_capabilities a) (ag_started_at a).

Definition handle_health (h : AgentHealthHandle) (i : Inspector) (now : Instant) (clock : Timestamp) (spool : gmap string SpoolRow)
    (flag : bool) : AgentHealth :=
  health_snapshot (handle_environment h) (handle_hostname h) (insp_boot_id i) (handle_capabilities h)
    (uptime (handle_started_at h) now) clock (spool_len spool) flag.
End agent.

(** ** Talking to the controller *)

Section client.
Context `{J : JsonApi} `{U : UuidApi} `{T : TimeApi} `{C : ChronoApi} `{OC : !ObservationCodec}.
Context {W : Type}.

(** [AssignmentsResponse]. *)
Record AssignmentsReply := mk_assignments { reply_revision : N; reply_targets : list AssignedTarget }.

(** [ControllerClient]: what a request does to the world and is answered.  A
    heartbeat carries the clock and the length of the spool, a batch the agent
    and its session. *)
Record Client := mk_client {
  client_register : RegisterRequest → W → W * (ClientError + RegisterReply);
  client_heartbeat : HeartbeatRequest → Timestamp → N → W → W * (ClientError + HeartbeatReply);
  client_send : Uuid → Uuid → list Observation → W → W * (ClientError + BatchResponse);
  client_assignments : Uuid → W → W * (ClientError + AssignmentsReply)
}.

Variables (client : Client) (limits : SpoolLimits).

(** [Agent::register]. *)
Definition register_with (a : Agent) (i : Inspector) (w : W) : Agent * W * (ClientError + unit) :=
  let '(w, answer) := client_register client (registration a i) w in
  match answer with
  | inr r =>
      let a := agent_set_registered a true in
      let a := with_status a (set_last_error None (set_identity (reply_agent r) (reply_session r) (ag_status a))) in
      (with_refreshed a None, w, inr tt)
  | inl e =>
      let a := agent_set_registered a false in
      (with_status a (set_last_error (Some (client_error_to_string e)) (ag_status a)), w, inl e)
  end.

(** [Agent::heartbeat]. *)
Definition heartbeat (a : Agent) (i : Inspector) (clock : Timestamp) (w : W) : Agent * W * (ClientError + unit) :=
  match agent_id (ag_status a), session_id (ag_status a) with
  | Some agent, Some session =>
      let '(w, answer) := client_heartbeat client (mk_beat agent session (insp_boot_id i)) clock (spool_len (ag_spool a)) w in
      match answer with
      | inr r =>
          let a := with_status a (set_last_error None (set_skew (reply_skew_ms r) (ag_status a))) in
          if reply_reregister r then register_with a i w else (a, w, inr tt)
      | inl e =>
          let a := with_status a (set_last_error (Some (client_error_to_string e)) (ag_status a)) in
          (if is_transient e then a else agent_set_registered a false, w, inl e)
      end
  | _, _ => register_with a i w
  end.

(** [Agent::refresh_assignments]. *)
Definition refresh_assignments (a : Agent) (now : Instant) (w : W) : Agent * W * (ClientError + nat) :=
  match agent_id (ag_status a) with
  | None => (a, w, inr 0)
  | Some agent =>
      let '(w, answer) := client_assignments client agent w in
      match answer with
      | inl e => (a, w, inl e)
      | inr r =>
          let a := with_peers a (set_targets (ag_peers a) (reply_revision r) (reply_targets r)).1 in
          (with_refreshed a (Some now), w, inr (length (reply_targets r)))
      end
  end.

(** [Agent::assignment_is_stale]. *)
Definition assignment_is_stale (a : Agent) (now : Instant) : bool :=
  match ag_refreshed_at a with None => true | Some at_ => (ASSIGNMENT_REFRESH <=? now - at_)%N end.

(** [Agent::flush] and [record], which end in [None] where a panic would end
    the agent. *)
Definition send_as (a : Agent) : list Observation → W → W * (ClientError + BatchResponse) :=
  client_send client (default 0%N (agent_id (ag_status a))) (default 0%N (session_id (ag_status a))).

Definition flush_state (a : Agent) (w : W) : FlushState W :=
  {| fl_world := w; fl_spool := ag_spool a; fl_status := ag_status a; fl_delivered := 0 |}.

Definition after_flush (a : Agent) (s : FlushState W) : Agent := with_spool (with_status a (fl_status s)) (fl_spool s).

Definition agent_flush (a : Agent) (w : W) : option (Agent * W * (StoreError + nat)) :=
  '(s, r) ← flush (send_as a) (flush_state a w); Some (after_flush a s, fl_world s, r).

Definition agent_record (a : Agent) (now : Timestamp) (os : list Observation) (w : W) : option (Agent * W * (StoreError + nat)) :=
  '(s, r) ← record_observations (send_as a) limits now os (flush_state a w); Some (after_flush a s, fl_world s, r).

(** The loop and the rest of [record_probe_results]. *)
Definition learn_gpus (seen : option N) (o : Observation) : option N :=
  if String.eqb (probe_id o) GPU_PROBE_ID then
    match json_get (payload o) "gpu_count" ≫= json_as_u64 with Some n => Some n | None => seen end
  else seen.

Definition record_probe_results (a : Agent) (now : Timestamp) (os : list Observation) (w : W) :
    option (Agent * W * (StoreError + nat)) :=
  let a := with_gpus a (foldl learn_gpus (ag_gpus a) os) in
  match os with
  | [] => Some (a, w, inr 0)
  | _ => '(a, w, r) ← agent_record a now os w;
         Some (a, w, match r with inl e => inl e | inr _ => inr (length os) end)
  end.

(** ** A turn of the loop *)

(** What a turn draws from its surroundings: the host, the clocks in the order
    they are read, and the executions of its probes. *)
Record Turn := mk_turn {
  turn_host : Inspector;
  turn_now : Instant;
  turn_clocks : list Instant;
  turn_local : ProbeDefinition → ProbeContext → Execution;
  turn_probed_at : Timestamp;
  turn_stale_at : Instant;
  turn_refreshed_at : Instant;
  turn_peer : ProbeDefinition → ProbeContext → Execution;
  turn_observed_at : Timestamp;
  turn_beat_at : Timestamp
}.

(** [Agent::probe_once] and [probe_now]. *)
Definition probe_once (t : Turn) (a : Agent) (w : W) : option (Agent * W * (StoreError + nat)) :=
  let '(l, os) := run_due (turn_local t) (turn_now t) (turn_clocks t) (ag_local a) in
  record_probe_results (with_local a l) (turn_probed_at t) os w.

Definition probe_now (marks : list Instant) (t : Turn) (a : Agent) (w : W) : option (Agent * W * (StoreError + nat)) :=
  let '(l, os) := run_all (turn_local t) marks (turn_now t) (turn_clocks t) (ag_local a) in
  record_probe_results (with_local a l) (turn_probed_at t) os w.

(** [Agent::observe_peers]; [parse_entity] reads an identifier. *)
Variable parse_entity : string → option EntityId.

Definition observe_peers (t : Turn) (a : Agent) (w : W) : option (Agent * W * (StoreError + nat)) :=
  match peer_targets (ag_peers a) with
  | [] => Some (a, w, inr 0)
  | _ =>
      let '(p, os) := peer_observe_all (turn_peer t) parse_entity (ag_peers a) in
      record_probe_results (with_peers a p) (turn_observed_at t) os w
  end.

(** A tick of [Agent::run]: what fails is logged, and the tick goes on. *)
Definition refresh_if_stale (t : Turn) (a : Agent) (w : W) : Agent * W :=
  if assignment_is_stale a (turn_stale_at t) then (refresh_assignments a (turn_refreshed_at t) w).1 else (a, w).

Definition tick (t : Turn) (a : Agent) (w : W) : option (Agent * W) :=
  '(a, w, _) ← probe_once t a w;
  let '(a, w) := refresh_if_stale t a w in
  '(a, w, _) ← observe_peers t a w;
  let '(a, w, _) := heartbeat a (turn_host t) (turn_beat_at t) w in
  '(a, w, _) ← agent_flush a w;
  Some (a, w).

Fixpoint ticks (ts : list Turn) (a : Agent) (w : W) : option (Agent * W) :=
  match ts with
  | [] => Some (a, w)
  | t :: ts => '(a, w) ← tick t a w; ticks ts a w
  end.

(** [Agent::run], shut down after the ticks [ts]. *)
Definition run (i : Inspector) (ts : list Turn) (a : Agent) (w : W) : option (Agent * W) :=
  let '(a, w, _) := register_with a i w in
  '(a, w) ← ticks ts a w;
  '(a, w, _) ← agent_flush a w;
  Some (a, w).
End client.

Arguments Client {_} _ : assert.
