(* ===== verification/AgentSpec.v ===== *)
(** * The agent, properties

    What the agent keeps whatever the controller does, what it tells of its
    host, and where its peers then look for it. *)

From S2P Require Import Concrete RegistrationSpec DeliverySpec ObserversSpec HostNet.
From S2P Require Export Agent.

Local Open Scope string_scope.

(** ** What a turn leaves alone *)

Section agent_spec.
Context `{J : JsonApi} `{U : UuidApi} `{T : TimeApi} `{C : ChronoApi} `{OC : !ObservationCodec}.
Context {W : Type} (client : Client W) (limits : SpoolLimits) (parse_entity : string → option EntityId).
Implicit Types (a : Agent) (w : W).

(** Who an agent is. *)
Definition identity a : string * string * CapabilitySet * list string * Instant * option N * option N * AgentConfig :=
  (ag_environment a, ag_hostname a, ag_capabilities a, ag_roles a, ag_started_at a, ag_ssh_port a, ag_rpc_port a, ag_config a).

(** Where an agent stands with the controller. *)
Definition standing (s : AgentStatus) : bool * option Uuid * option Uuid := (registered s, agent_id s, session_id s).

(** The spool holds what it should, the flag the endpoint reads is the status,
    and an agent that counts as registered has an identity and a session. *)
Definition standing_ok (s : AgentStatus) : Prop :=
  (is_Some (agent_id s) ↔ is_Some (session_id s)) ∧ (registered s = true → is_Some (agent_id s)).

Definition agent_wf a : Prop :=
  spool_ok (ag_spool a) ∧ ag_registered_flag a = registered (ag_status a) ∧ standing_ok (ag_status a).

(** What every operation does: an order, so that operations compose. *)
Definition sound a a' : Prop := identity a' = identity a ∧ (agent_wf a → agent_wf a').

#[local] Instance sound_preorder : PreOrder sound.
Proof.
  split.
  - by intros a.
  - intros a b c [Hi Hw] [Hi' Hw']. split; [by rewrite Hi'|auto].
Qed.

Lemma standing_ok_proper (s s' : AgentStatus) : standing s' = standing s → standing_ok s → standing_ok s'.
Proof. unfold standing, standing_ok. by intros [= -> -> ->]. Qed.

Lemma sound_frame a a' :
  identity a' = identity a → ag_spool a' = ag_spool a → ag_registered_flag a' = ag_registered_flag a →
  standing (ag_status a') = standing (ag_status a) → sound a a'.
Proof.
  intros Hi Hs Hf Hst. split; [done|]. unfold agent_wf. rewrite Hs, Hf. intros (Ho & Hr & Hok).
  split_and!; [done| |by apply (standing_ok_proper (ag_status a))]. rewrite Hr. by injection Hst as -> _ _.
Qed.

Lemma register_with_sound a i w a' w' r : register_with client a i w = (a', w', r) → sound a a'.
Proof.
  unfold register_with. destruct (client_register client (registration a i) w) as [w1 [e|reply]]; intros [= <- _ _].
  - split; [done|]. intros (Ho & _ & Hids & _). by split_and!.
  - split; [done|]. intros (Ho & _). split_and!; [done|done|]. split; cbn; [|intros _]; naive_solver.
Qed.

Lemma heartbeat_sound a i clock w a' w' r : heartbeat client a i clock w = (a', w', r) → sound a a'.
Proof.
  unfold heartbeat. destruct (agent_id (ag_status a)) as [agent|] eqn:Ha; [|apply register_with_sound].
  destruct (session_id (ag_status a)) as [session|] eqn:Hs; [|apply register_with_sound].
  destruct (client_heartbeat client _ clock _ w) as [w1 [e|reply]].
  - intros [= <- _ _]. destruct (is_transient e); [by apply sound_frame|].
    split; [done|]. intros (Ho & _ & Hids & _). by split_and!.
  - set (b := with_status a _). assert (sound a b) as Hb by (by apply sound_frame).
    destruct (reply_reregister reply); [|by intros [= <- _ _]]. intros Hreg. etransitivity; [exact Hb|].
    by apply (register_with_sound _ _ _ _ _ _ Hreg).
Qed.

Lemma refresh_sound a now w a' w' r : refresh_assignments client a now w = (a', w', r) → sound a a'.
Proof.
  unfold refresh_assignments. destruct (agent_id (ag_status a)); [|by intros [= <- _ _]].
  destruct (client_assignments client _ w) as [w1 [e|reply]]; intros [= <- _ _]; [done|by apply sound_frame].
Qed.

(** Flushing changes neither the standing nor the form of the spool. *)
Lemma flush_frame send (s s' : FlushState W) r :
  flush send s = Some (s', r) →
  standing (fl_status s') = standing (fl_status s) ∧ (spool_ok (fl_spool s) → spool_ok (fl_spool s')).
Proof.
  unfold flush. destruct (agent_id (fl_status s)); [|by intros [= <- _]]. destruct (session_id (fl_status s)); [|by intros [= <- _]].
  destruct (flush_loop _ _ _) as [[s1 e]| |] eqn:Hl; [|done|done].
  assert (standing (fl_status s1) = standing (fl_status s) ∧ (spool_ok (fl_spool s) → spool_ok (fl_spool s1))) as [Hst Hok].
  { apply (flush_loop_invariant send
             (λ s2, standing (fl_status s2) = standing (fl_status s) ∧ (spool_ok (fl_spool s) → spool_ok (fl_spool s2)))
             (size (fl_spool s)) (restart s) s1 e); [|done|done].
    intros s2 s3 res [Hst Hok]. unfold flush_turn. destruct (peek _ _) as [|[|o os]]; [by intros [= <- _]..|].
    destruct (send _ _) as [w' [err|resp]]; intros [= <- _]; (split; [done|]); [done|].
    intros Hs. cbn [fl_spool]. rewrite acknowledge_fst. by apply spool_ok_filter, Hok. }
  destruct e; intros [= <- _]; by split.
Qed.

Lemma push_ok `{!CodecLaws} now os t : spool_ok t → spool_ok (push limits now os t).1.
Proof.
  intros Hok. unfold push. destruct (insert_all os t) as [|t'] eqn:Hi; [done|]. by apply spool_ok_evict, (insert_all_ok _ _ _ Hi).
Qed.

Lemma after_flush_sound a (s : FlushState W) :
  standing (fl_status s) = standing (ag_status a) → (spool_ok (ag_spool a) → spool_ok (fl_spool s)) → sound a (after_flush a s).
Proof.
  intros Hst Hok. split; [done|]. intros (Ho & Hf & Hs). split_and!; [by apply Hok| |by apply (standing_ok_proper (ag_status a))].
  cbn. rewrite Hf. by injection Hst as -> _ _.
Qed.

Lemma agent_flush_sound a w a' w' r : agent_flush client a w = Some (a', w', r) → sound a a'.
Proof.
  unfold agent_flush. destruct (flush _ _) as [[s1 r1]|] eqn:Hf; [|done]. intros [= <- _ _].
  apply flush_frame in Hf as [Hst Hok]. by apply after_flush_sound.
Qed.

Lemma record_sound `{!CodecLaws} a now os w a' w' r : record_probe_results client limits a now os w = Some (a', w', r) → sound a a'.
Proof.
  unfold record_probe_results. set (b := with_gpus a _). intros Hr. transitivity b; [by apply sound_frame|]. revert Hr.
  destruct os as [|o os]; [by intros [= <- _ _]|].
  unfold agent_record, record_observations. pose proof (push_ok now (o :: os) (ag_spool b)) as Hp. cbn [flush_state fl_spool].
  destruct (push _ _ _ _) as [t' [out|err|]]; [..|done]; cbn [mbind option_bind].
  - destruct (flush _ _) as [[s1 r1]|] eqn:Hf; [|done]. cbn. intros [= <- _ _].
    apply flush_frame in Hf as [Hst Hok]. apply after_flush_sound; [done|auto].
  - intros [= <- _ _]. by apply after_flush_sound.
Qed.

Lemma probe_once_sound `{!CodecLaws} t a w a' w' r : probe_once client limits t a w = Some (a', w', r) → sound a a'.
Proof.
  unfold probe_once. destruct (run_due _ _ _ _) as [l os]. intros Hr%record_sound. etransitivity; [|exact Hr]. by apply sound_frame.
Qed.

Lemma observe_peers_sound `{!CodecLaws} t a w a' w' r :
  observe_peers client limits parse_entity t a w = Some (a', w', r) → sound a a'.
Proof.
  unfold observe_peers. destruct (peer_targets _); [by intros [= <- _ _]|].
  destruct (peer_observe_all _ _ _) as [p os]. intros Hr%record_sound. etransitivity; [|exact Hr]. by apply sound_frame.
Qed.

Lemma tick_sound `{!CodecLaws} t a w a' w' : tick client limits parse_entity t a w = Some (a', w') → sound a a'.
Proof.
  unfold tick. destruct (probe_once _ _ _ _ _) as [[[a1 w1] r1]|] eqn:H1; [|done]. cbn [mbind option_bind].
  destruct (refresh_if_stale client t a1 w1) as [a2 w2] eqn:H2.
  destruct (observe_peers _ _ _ _ _ _) as [[[a3 w3] r3]|] eqn:H3; [|done]. cbn [mbind option_bind].
  destruct (heartbeat _ _ _ _ _) as [[a4 w4] r4] eqn:H4.
  destruct (agent_flush _ _ _) as [[[a5 w5] r5]|] eqn:H5; [|done]. intros [= <- _].
  transitivity a1; [by apply (probe_once_sound _ _ _ _ _ _ H1)|]. transitivity a2.
  { revert H2. unfold refresh_if_stale. destruct (assignment_is_stale _ _); [|by intros [= <- _]].
    destruct (refresh_assignments _ _ _ _) as [[b wb] rb] eqn:Hr. intros [= <- _]. by apply (refresh_sound _ _ _ _ _ _ Hr). }
  transitivity a3; [by apply (observe_peers_sound _ _ _ _ _ _ H3)|].
  transitivity a4; [by apply (heartbeat_sound _ _ _ _ _ _ _ H4)|by apply (agent_flush_sound _ _ _ _ _ H5)].
Qed.

Lemma ticks_sound `{!CodecLaws} ts a w a' w' : ticks client limits parse_entity ts a w = Some (a', w') → sound a a'.
Proof.
  revert a w. induction ts as [|t ts IH]; intros a w; cbn [ticks]; [by intros [= <- _]|].
  destruct (tick _ _ _ _ _ _) as [[a1 w1]|] eqn:H1; [|done]. cbn. intros H2%IH.
  transitivity a1; [by apply (tick_sound _ _ _ _ _ H1)|done].
Qed.

Lemma run_sound `{!CodecLaws} i ts a w a' w' : run client limits parse_entity i ts a w = Some (a', w') → sound a a'.
Proof.
  unfold run. destruct (register_with _ _ _ _) as [[a1 w1] r1] eqn:H1.
  destruct (ticks _ _ _ _ _ _) as [[a2 w2]|] eqn:H2; [|done]. cbn.
  destruct (agent_flush _ _ _) as [[[a3 w3] r3]|] eqn:H3; [|done]. intros [= <- _].
  transitivity a1; [by apply (register_with_sound _ _ _ _ _ _ H1)|]. transitivity a2; [by apply (ticks_sound _ _ _ _ _ H2)|].
  by apply (agent_flush_sound _ _ _ _ _ H3).
Qed.

(** ** A turn completes *)

(** The clock is not so early that the age limit of the spool precedes the
    calendar. *)
Definition within_calendar (t : Turn) : Prop :=
  is_Some (spool_cutoff limits (turn_probed_at t)) ∧ is_Some (spool_cutoff limits (turn_observed_at t)).

Lemma push_completes now os t : is_Some (spool_cutoff limits now) → (push limits now os t).2 ≠ Panic.
Proof.
  intros [cutoff Hc]. unfold push. destruct (insert_all os t) as [|t0]; [done|]. unfold evict. rewrite Hc.
  destruct (row_excess _ _) as [n|]; [|done]. set (t2 := delete_least n _).
  by destruct (byte_loop_spec (S (size t2)) (max_bytes limits) t2 0 ltac:(lia)) as (t' & k & -> & _).
Qed.

Lemma agent_flush_completes a w : spool_ok (ag_spool a) → is_Some (agent_flush client a w).
Proof.
  intros Hok. unfold agent_flush. destruct (flush_completes (send_as client a) (flush_state a w) Hok) as (s & n & -> & _). by eexists.
Qed.

Lemma record_completes `{!CodecLaws} a now os w :
  spool_ok (ag_spool a) → is_Some (spool_cutoff limits now) → is_Some (record_probe_results client limits a now os w).
Proof.
  intros Hok Hc. unfold record_probe_results. destruct os as [|o os]; [by eexists|]. set (b := with_gpus a _).
  unfold agent_record, record_observations. cbn [flush_state fl_spool].
  pose proof (push_completes now (o :: os) (ag_spool b) Hc) as Hp. pose proof (push_ok now (o :: os) (ag_spool b) Hok) as Hok'.
  destruct (push _ _ _ _) as [t' [out|err|]]; [|by eexists|done]. cbn [fst] in Hok'.
  match goal with |- context [flush ?f ?s] => destruct (flush_completes f s Hok') as (s1 & n & -> & _) end. by eexists.
Qed.

Lemma tick_completes `{!CodecLaws} t a w : agent_wf a → within_calendar t → is_Some (tick client limits parse_entity t a w).
Proof.
  intros Hwf [Hc1 Hc2]. unfold tick.
  destruct (probe_once client limits t a w) as [[[a1 w1] r1]|] eqn:H1.
  2: { unfold probe_once in H1. destruct (run_due _ _ _ _) as [l os].
       destruct (record_completes (with_local a l) (turn_probed_at t) os w (proj1 Hwf) Hc1) as [x Hx]. congruence. }
  cbn [mbind option_bind]. pose proof (proj2 (probe_once_sound _ _ _ _ _ _ H1) Hwf) as Hwf1.
  destruct (refresh_if_stale client t a1 w1) as [a2 w2] eqn:H2.
  assert (agent_wf a2) as Hwf2.
  { revert H2. unfold refresh_if_stale. destruct (assignment_is_stale _ _); [|by intros [= <- _]].
    destruct (refresh_assignments _ _ _ _) as [[b wb] rb] eqn:Hr. intros [= <- _]. by apply (refresh_sound _ _ _ _ _ _ Hr). }
  destruct (observe_peers client limits parse_entity t a2 w2) as [[[a3 w3] r3]|] eqn:H3.
  2: { unfold observe_peers in H3. destruct (peer_targets _); [done|]. destruct (peer_observe_all _ _ _) as [p os].
       destruct (record_completes (with_peers a2 p) (turn_observed_at t) os w2 (proj1 Hwf2) Hc2) as [x Hx]. congruence. }
  cbn [mbind option_bind]. pose proof (proj2 (observe_peers_sound _ _ _ _ _ _ H3) Hwf2) as Hwf3.
  destruct (heartbeat client a3 _ _ w3) as [[a4 w4] r4] eqn:H4.
  destruct (agent_flush_completes a4 w4) as [[[a5 w5] r5] ->]; [|by eexists].
  by apply (heartbeat_sound _ _ _ _ _ _ _ H4).
Qed.

Lemma ticks_complete `{!CodecLaws} ts a w :
  agent_wf a → Forall within_calendar ts → is_Some (ticks client limits parse_entity ts a w).
Proof.
  intros Hwf Hts. revert a w Hwf. induction Hts as [|t ts Ht _ IH]; intros a w Hwf; [by eexists|]. cbn [ticks].
  destruct (tick_completes t a w Hwf Ht) as [[a1 w1] H1]. rewrite H1. cbn [mbind option_bind].
  apply IH. by apply (tick_sound _ _ _ _ _ H1).
Qed.

Lemma run_completes `{!CodecLaws} i ts a w :
  agent_wf a → Forall within_calendar ts → is_Some (run client limits parse_entity i ts a w).
Proof.
  intros Hwf Hts. unfold run. destruct (register_with client a i w) as [[a1 w1] r1] eqn:H1.
  pose proof (proj2 (register_with_sound _ _ _ _ _ _ H1) Hwf) as Hwf1.
  destruct (ticks_complete ts a1 w1 Hwf1 Hts) as [[a2 w2] H2]. rewrite H2. cbn [mbind option_bind].
  pose proof (proj2 (ticks_sound _ _ _ _ _ H2) Hwf1) as Hwf2.
  destruct (agent_flush_completes a2 w2 (proj1 Hwf2)) as [[[a3 w3] r3] ->]. by eexists.
Qed.

(** ** A turn without the controller *)

(** Whatever is asked fails, in a way that may pass. *)
Definition down : Prop :=
  (∀ q w, ∃ e, (client_register client q w).2 = inl e ∧ is_transient e = true)
  ∧ (∀ q c n w, ∃ e, (client_heartbeat client q c n w).2 = inl e ∧ is_transient e = true)
  ∧ (∀ i s os w, ∃ e, (client_send client i s os w).2 = inl e ∧ is_transient e = true)
  ∧ (∀ i w, ∃ e, (client_assignments client i w).2 = inl e ∧ is_transient e = true).

(** What an agent holds beside its spool. *)
Definition holdings a : LocalProbes * PeerProbes * (bool * option Uuid * option Uuid) :=
  (ag_local a, ag_peers a, standing (ag_status a)).

(** What a failed flush leaves of a state. *)
Definition undelivered (s s' : FlushState W) : Prop :=
  fl_spool s' = fl_spool s ∧ standing (fl_status s') = standing (fl_status s)
  ∧ (is_Some (last_error (fl_status s)) → is_Some (last_error (fl_status s'))).

Lemma flush_refused send (s s' : FlushState W) r :
  (∀ os w, ∃ e, (send os w).2 = inl e) → flush send s = Some (s', r) → undelivered s s'.
Proof.
  intros Hdown. unfold flush. destruct (agent_id (fl_status s)); [|by intros [= <- _]].
  destruct (session_id (fl_status s)); [|by intros [= <- _]].
  destruct (flush_loop _ _ _) as [[s1 e]| |] eqn:Hl; [|done|done].
  assert (undelivered s s1) as (Hsp & Hst & Hle).
  { apply (flush_loop_invariant send (undelivered s) (size (fl_spool s)) (restart s) s1 e); [|done|done].
    intros s2 s3 res (Hsp & Hst & Hle). unfold flush_turn. destruct (peek _ _) as [|[|o os]]; [by intros [= <- _]..|].
    destruct (Hdown (o :: os) (fl_world s2)) as [err Hsend]. destruct (send _ _) as [w' ans]. cbn in Hsend. subst ans.
    intros [= <- _]. by split_and!. }
  destruct e; intros [= <- _]; by split_and!.
Qed.

(** What the agent has gathered, and whether it has something to complain of. *)
Definition unheard a a' : Prop :=
  holdings a' = holdings a ∧ (is_Some (last_error (ag_status a)) → is_Some (last_error (ag_status a'))).

#[local] Instance unheard_preorder : PreOrder unheard.
Proof.
  split.
  - by intros a.
  - intros a b c [Hh Hl] [Hh' Hl']. split; [by rewrite Hh'|auto].
Qed.

Lemma after_flush_unheard a (s s' : FlushState W) :
  fl_status s = ag_status a → undelivered s s' → unheard a (after_flush a s').
Proof. intros Hs (_ & Hst & Hle). rewrite Hs in *. split; [|done]. unfold holdings. cbn. by rewrite Hst. Qed.

Lemma flush_down a w a' w' r :
  down → agent_flush client a w = Some (a', w', r) → unheard a a' ∧ ag_spool a' = ag_spool a.
Proof.
  intros (_ & _ & Hsend & _). unfold agent_flush. destruct (flush _ _) as [[s1 r1]|] eqn:Hf; [|done]. intros [= <- _ _].
  apply flush_refused in Hf; [|by intros os w0; destruct (Hsend (default 0%N (agent_id (ag_status a))) (default 0%N (session_id (ag_status a))) os w0) as (e & He & _); exists e].
  split; [by apply (after_flush_unheard a (flush_state a w))|]. apply Hf.
Qed.

(** What recording adds to a spool when nothing can be sent. *)
Definition kept (now : Timestamp) (os : list Observation) (t : gmap string SpoolRow) : gmap string SpoolRow :=
  match os with [] => t | _ => (push limits now os t).1 end.

Lemma record_down a now os w a' w' r :
  down → record_probe_results client limits a now os w = Some (a', w', r) →
  unheard a a' ∧ ag_spool a' = kept now os (ag_spool a).
Proof.
  intros Hdown. unfold record_probe_results. set (b := with_gpus a _). destruct os as [|o os]; [by intros [= <- _ _]|].
  unfold agent_record, record_observations, kept. cbn [flush_state fl_spool]. change (ag_spool b) with (ag_spool a).
  destruct (push _ _ _ _) as [t' [out|err|]]; [..|done]; cbn [mbind option_bind].
  - destruct (flush _ _) as [[s1 r1]|] eqn:Hf; [|done]. cbn. intros [= <- _ _].
    apply flush_refused in Hf; [|by intros os' w0; destruct Hdown as (_ & _ & Hsend & _);
      destruct (Hsend (default 0%N (agent_id (ag_status b))) (default 0%N (session_id (ag_status b))) os' w0) as (e & He & _); exists e].
    split; [|by destruct Hf]. eapply (after_flush_unheard b); [|exact Hf]. done.
  - intros [= <- _ _]. by split.
Qed.

Lemma heartbeat_down a i clock w a' w' r :
  down → standing_ok (ag_status a) → heartbeat client a i clock w = (a', w', r) →
  holdings a' = holdings a ∧ ag_spool a' = ag_spool a ∧ is_Some (last_error (ag_status a')).
Proof.
  intros (Hreg & Hbeat & _) [Hids Hr]. unfold heartbeat.
  assert (agent_id (ag_status a) = None → register_with client a i w = (a', w', r) →
          holdings a' = holdings a ∧ ag_spool a' = ag_spool a ∧ is_Some (last_error (ag_status a'))) as Hnew.
  { intros Hno. unfold register_with. destruct (Hreg (registration a i) w) as (e & He & _).
    destruct (client_register client _ w) as [w1 ans]. cbn in He. subst ans. intros [= <- _ _]. split_and!; [|done|by eexists].
    unfold holdings, standing. cbn. destruct (registered (ag_status a)); [|done].
    destruct (Hr eq_refl) as [x Hx]. congruence. }
  destruct (agent_id (ag_status a)) as [agent|] eqn:Ha; [|by apply Hnew].
  destruct (session_id (ag_status a)) as [session|] eqn:Hs; [|destruct Hids as [Hids _]; destruct Hids; by eexists].
  destruct (Hbeat (mk_beat agent session (insp_boot_id i)) clock (spool_len (ag_spool a)) w) as (e & He & Ht).
  destruct (client_heartbeat client _ clock _ w) as [w1 ans]. cbn in He. subst ans. rewrite Ht. intros [= <- _ _].
  split_and!; [done|done|by eexists].
Qed.

Lemma refresh_down t a w : down → (refresh_if_stale client t a w).1 = a.
Proof.
  intros (_ & _ & _ & Hassign). unfold refresh_if_stale, refresh_assignments. destruct (assignment_is_stale _ _); [|done].
  destruct (agent_id (ag_status a)) as [agent|]; [|done]. destruct (Hassign agent w) as (e & He & _).
  destruct (client_assignments client agent w) as [w1 ans]. cbn in He. by subst ans.
Qed.

(** Observing leaves the assignment alone. *)
Lemma peer_observe_all_targets execute p :
  peer_targets (peer_observe_all execute parse_entity p).1 = peer_targets p
  ∧ peer_revision (peer_observe_all execute parse_entity p).1 = peer_revision p.
Proof.
  unfold peer_observe_all. generalize (peer_targets p) at 1 3 as ts. intros ts. generalize (@nil Observation) as os. revert p.
  induction ts as [|x ts IH]; intros p os; [done|]. cbn [foldl]. unfold peer_step at 2 4. unfold peer_observe. cbn [fst snd].
  destruct (parse_entity (assigned_entity x)) as [e|].
  - destruct (run_probes _ _ _ _) as [r os']. destruct (IH (mk_peer r (peer_definitions p) (peer_observer p) (peer_targets p) (peer_revision p)) (os ++ os')%list) as [-> ->]. done.
  - apply IH.
Qed.

(** What a turn's probing comes to, with the state it leaves the probes in. *)
Definition turn_local_results t a : LocalProbes * list Observation := run_due (turn_local t) (turn_now t) (turn_clocks t) (ag_local a).
Definition turn_peer_results t a : PeerProbes * list Observation := peer_observe_all (turn_peer t) parse_entity (ag_peers a).

Lemma tick_down `{!CodecLaws} t a w a' w' :
  down → agent_wf a → tick client limits parse_entity t a w = Some (a', w') →
  ag_local a' = (turn_local_results t a).1 ∧ ag_peers a' = (turn_peer_results t a).1
  ∧ standing (ag_status a') = standing (ag_status a) ∧ is_Some (last_error (ag_status a'))
  ∧ ag_spool a' = kept (turn_observed_at t) (turn_peer_results t a).2 (kept (turn_probed_at t) (turn_local_results t a).2 (ag_spool a)).
Proof.
  intros Hdown Hwf. unfold tick, turn_local_results, turn_peer_results.
  destruct (probe_once _ _ _ _ _) as [[[a1 w1] r1]|] eqn:H1; [|done]. cbn [mbind option_bind].
  pose proof (refresh_down t a1 w1 Hdown) as H2. destruct (refresh_if_stale client t a1 w1) as [a2 w2]. cbn in H2. subst a2.
  destruct (observe_peers _ _ _ _ _ _) as [[[a3 w3] r3]|] eqn:H3; [|done]. cbn [mbind option_bind].
  destruct (heartbeat _ _ _ _ _) as [[a4 w4] r4] eqn:H4.
  destruct (agent_flush _ _ _) as [[[a5 w5] r5]|] eqn:H5; [|done]. intros [= <- _].
  pose proof (proj2 (probe_once_sound _ _ _ _ _ _ H1) Hwf) as Hwf1.
  pose proof (proj2 (observe_peers_sound _ _ _ _ _ _ H3) Hwf1) as (_ & _ & Hwf3).
  apply (heartbeat_down _ _ _ _ _ _ _ Hdown Hwf3) in H4 as (Hh4 & Hs4 & Hl4).
  apply (flush_down _ _ _ _ _ Hdown) in H5 as [[Hh5 Hl5] Hs5].
  unfold probe_once in H1. destruct (run_due _ _ _ _) as [l os].
  apply (record_down _ _ _ _ _ _ _ Hdown) in H1 as [[Hh1 _] Hs1].
  pose proof (f_equal (λ x, x.1.1) Hh1) as Hl1. pose proof (f_equal (λ x, x.1.2) Hh1) as Hp1. pose proof (f_equal snd Hh1) as Hst1.
  cbn in Hl1, Hp1, Hst1.
  assert (holdings a3 = (l, (peer_observe_all (turn_peer t) parse_entity (ag_peers a)).1, standing (ag_status a))
          ∧ ag_spool a3 = kept (turn_observed_at t) (peer_observe_all (turn_peer t) parse_entity (ag_peers a)).2 (ag_spool a1)) as [Hh3 Hs3].
  { revert H3. unfold observe_peers. rewrite Hp1. destruct (peer_targets (ag_peers a)) as [|x ts] eqn:Hts.
    - unfold peer_observe_all. rewrite Hts. intros [= <- _ _]. cbn [foldl fst snd kept]. split; [|done].
      rewrite Hh1. unfold holdings. done.
    - destruct (peer_observe_all _ _ _) as [p os']. intros H3. apply (record_down _ _ _ _ _ _ _ Hdown) in H3 as [[Hh3 _] Hs3].
      split; [|done]. rewrite Hh3. unfold holdings. cbn. by rewrite Hl1, Hst1. }
  rewrite Hh4, Hh3 in Hh5. split_and!.
  - exact (f_equal (λ x, x.1.1) Hh5).
  - exact (f_equal (λ x, x.1.2) Hh5).
  - exact (f_equal snd Hh5).
  - by apply Hl5.
  - by rewrite Hs5, Hs4, Hs3, Hs1.
Qed.
End agent_spec.

(** ** Ports *)

Lemma parse_u16_bound s n : parse_u16 s = Some n → (n < 65536)%N.
Proof.
  unfold parse_u16, parse_uint. cbv zeta. destruct (is_empty _); [done|]. destruct (all_bytes _ _); [|done].
  case_bool_decide as Hn; [|done]. intros [= <-]. apply (N.le_lt_trans _ 65535); [exact Hn|reflexivity].
Qed.

Lemma sshd_port_bound ls from n : sshd_port_from ls from = Some n → (∀ m, from = Some m → m < 65536)%N → (n < 65536)%N.
Proof.
  revert from. induction ls as [|line ls IH]; intros from; cbn [sshd_port_from]; [intros Hn Hf; by apply Hf|].
  destruct (split_whitespace _) as [|keyword fields]; [apply IH|].
  destruct (if eq_ignore_ascii_case keyword "Port" then _ else None) as [p|] eqn:Hp.
  - intros [= <-] _. destruct (eq_ignore_ascii_case _ _); [|done]. destruct (head fields); [|done]. by apply parse_u16_bound in Hp.
  - intros Hn Hf. apply (IH _ Hn). intros m. destruct (_ && _); [|apply Hf]. destruct (head fields) as [v|]; [|apply Hf].
    destruct (rsplit_once ":" v) as [[l r]|]; [|done]. apply parse_u16_bound.
Qed.

Lemma detected_port_bound i n : detect_ssh_port i = Some n → (n < 65536)%N.
Proof.
  unfold detect_ssh_port, parse_sshd_port. destruct (insp_read_file i _) as [text|]; [|done]. cbn [mbind option_bind].
  intros Hn. by apply (sshd_port_bound _ _ _ Hn).
Qed.

Lemma listen_port_bound listen n : listen_port listen = Some n → (n < 65536)%N.
Proof. unfold listen_port. destruct (rsplit_once ":" listen) as [[l r]|]; [|done]. apply parse_u16_bound. Qed.

Section reported.
Context `{J : JsonApi} `{U : UuidApi}.
Implicit Types (a : Agent) (i : Inspector).

(** A port left out is the default. *)
Lemma stated_port_default name d p ports : ports !! name = None → default d (stated_port name d p ports !! name) = default d p.
Proof.
  intros Hno. unfold stated_port. destruct p as [n|]; [|by rewrite Hno].
  destruct (N.eqb_spec n d) as [->|Hne]; [by rewrite Hno|by rewrite lookup_insert_eq].
Qed.

Lemma stated_port_other name key d p ports : name ≠ key → stated_port name d p ports !! key = ports !! key.
Proof. intros Hk. unfold stated_port. destruct p as [n|]; [|done]. destruct (N.eqb n d); [done|by rewrite lookup_insert_ne]. Qed.

Lemma service_ports_read a i :
  default SSH_DEFAULT_PORT (service_ports a i !! "ssh") = default SSH_DEFAULT_PORT (effective_ssh_port a i)
  ∧ default AGENT_DEFAULT_PORT (service_ports a i !! "agent") = default AGENT_DEFAULT_PORT (ag_rpc_port a).
Proof.
  unfold service_ports. rewrite stated_port_other, stated_port_default by done. split; [done|].
  by rewrite stated_port_default by (by rewrite stated_port_other).
Qed.

(** The ports an agent states are ports. *)
Definition ports_ok a : Prop :=
  (∀ p, ag_ssh_port a = Some p → p < 65536)%N ∧ (∀ p, ag_rpc_port a = Some p → p < 65536)%N.

Lemma stated_port_bound name d p ports key n :
  (∀ m, p = Some m → m < 65536)%N → (∀ m, ports !! key = Some m → m < 65536)%N →
  stated_port name d p ports !! key = Some n → (n < 65536)%N.
Proof.
  intros Hp Hports. unfold stated_port. destruct p as [m|]; [|apply Hports]. destruct (N.eqb m d); [apply Hports|].
  intros [[_ <-]|[_ Hn]]%lookup_insert_Some; [by apply Hp|by apply Hports].
Qed.

Lemma service_ports_bound a i key n : ports_ok a → service_ports a i !! key = Some n → (n < 65536)%N.
Proof.
  intros [Hs Hr]. apply stated_port_bound; [exact Hr|]. intros m. apply stated_port_bound; [|by rewrite lookup_empty].
  intros k. unfold effective_ssh_port. destruct (ag_ssh_port a) as [x|]; [apply Hs|apply detected_port_bound].
Qed.

(** What the controller knows of the host of an agent from its registration. *)
Lemma registered_endpoint `{!JsonLaws} a i e old endpoint :
  ports_ok a →
  entity_metadata e = registration_metadata (registration a i)
  ∨ entity_metadata e = merge_metadata old (registration_metadata (registration a i)) →
  endpoint_for e = Some endpoint →
  (∀ p, primary (address_choice a i) = Some p → endpoint_address endpoint = p)
  ∧ endpoint_ssh_port endpoint = service_ports a i !! "ssh" ∧ endpoint_agent_port endpoint = service_ports a i !! "agent".
Proof.
  intros Hok Hm He. set (q := registration a i) in *.
  assert (json_get (entity_metadata e) "host" = Some (json_object [
    ("fqdn", json_opt_str (req_fqdn q)); ("boot_id", json_opt_str (req_boot_id q)); ("addresses", json_strings (req_addresses q))])) as Hhost.
  { apply (registration_field old q _ _ _ Hm). unfold registration_metadata. by read_field. }
  assert (json_get (entity_metadata e) "ports" = Some (json_of_object (json_of_u64 <$> service_ports a i))) as Hports.
  { apply (registration_field old q _ _ _ Hm). unfold registration_metadata. by read_field. }
  assert (known_addresses e = Some (map json_of_str (chosen_addresses (address_choice a i)))) as Ha.
  { unfold known_addresses. rewrite Hhost. cbn [mbind option_bind]. read_field. unfold json_strings. by rewrite json_as_array_of. }
  assert (∀ key, known_port e key = service_ports a i !! key) as Hport.
  { intros key. unfold known_port. rewrite Hports. cbn [mbind option_bind]. rewrite json_get_object, lookup_fmap.
    destruct (service_ports a i !! key) as [n|] eqn:Hn; [|done]. apply service_ports_bound in Hn; [|done]. cbn.
    rewrite json_as_u64_of by (unfold u64_max; lia). cbn. unfold as_u16. by rewrite N.mod_small. }
  revert He. unfold endpoint_for. rewrite Ha, !Hport. destruct (is_empty _); [done|]. intros [= <-]. cbn.
  split_and!; [|done|done]. intros p Hp. unfold primary in Hp. cbn.
  destruct (chosen_addresses (address_choice a i)) as [|x l]; [done|]. injection Hp as ->. cbn. by rewrite json_as_str_of.
Qed.
End reported.

(** ** Properties *)

(** C6.  An outage is ridden out: while the controller cannot be reached, a turn of
    the agent still completes and still looks at the host and at the peers of
    the assignment it has; everything seen is pushed into the spool, what the
    host showed first; and who the agent is, its session, whether it counts as
    registered and its assignment are what they were before, with the reason at
    hand. *)
Theorem an_outage_is_ridden_out `{JsonApi} `{UuidApi} `{TimeApi} `{ChronoApi} `{!ObservationCodec} `{!CodecLaws} {W}
    (client : Client W) (limits : SpoolLimits) (parse_entity : string → option EntityId) (t : Turn) (a : Agent) (w : W) :
  down client → agent_wf a → within_calendar limits t →
  let local := run_due (turn_local t) (turn_now t) (turn_clocks t) (ag_local a) in
  let peers := peer_observe_all (turn_peer t) parse_entity (ag_peers a) in
  ∃ a' w', tick client limits parse_entity t a w = Some (a', w')
    ∧ ag_spool a' = kept limits (turn_observed_at t) peers.2 (kept limits (turn_probed_at t) local.2 (ag_spool a))
    ∧ ag_local a' = local.1 ∧ ag_peers a' = peers.1
    ∧ peer_targets (ag_peers a') = peer_targets (ag_peers a) ∧ peer_revision (ag_peers a') = peer_revision (ag_peers a)
    ∧ identity a' = identity a ∧ standing (ag_status a') = standing (ag_status a)
    ∧ is_Some (last_error (ag_status a')) ∧ agent_wf a'.
Proof.
  intros Hdown Hwf Hcal. cbn zeta. destruct (tick_completes client limits parse_entity t a w Hwf Hcal) as [[a' w'] Ht].
  exists a', w'. split; [done|]. destruct (tick_down _ _ _ _ _ _ _ _ Hdown Hwf Ht) as (Hl & Hp & Hst & He & Hs).
  destruct (tick_sound _ _ _ _ _ _ _ _ Ht) as [Hid Hwf']. rewrite Hp.
  destruct (peer_observe_all_targets parse_entity (turn_peer t) (ag_peers a)) as [Htg Hrv].
  unfold turn_peer_results. split_and!; auto.
Qed.

(** C22.  An agent runs whatever it is answered, and its health endpoint speaks for
    it although it never touches it: from the start on, every run completes, and
    at its end, as at any tick of it, the spool is well formed, an agent that
    counts as registered has an identity and a session, and the endpoint's
    snapshot is the agent's own. *)
Theorem the_endpoint_speaks_for_the_agent `{JsonApi} `{UuidApi} `{TimeApi} `{ChronoApi} `{!ObservationCodec} `{!CodecLaws} {W}
    (client : Client W) (limits : SpoolLimits) (parse_entity : string → option EntityId) (i : Inspector) (now : Instant) (seed : N)
    (config : Config) (spool : gmap string SpoolRow) (ts : list Turn) (a : Agent) (w : W) :
  agent_new i now seed config spool = Some a → spool_ok spool → Forall (within_calendar limits) ts →
  ∃ a' w', run client limits parse_entity i ts a w = Some (a', w') ∧ agent_wf a'
    ∧ ∀ j later clock, handle_health (health_handle a) j later clock (ag_spool a') (ag_registered_flag a')
                       = agent_health a' j later clock.
Proof.
  intros Hnew Hspool Hcal. assert (agent_wf a) as Hwf.
  { revert Hnew. unfold agent_new. destruct (insp_hostname i); [|done]. intros [= <-]. split_and!; [done|done|].
    split; cbn; [|done]. split; by intros []%is_Some_None. }
  destruct (run_completes client limits parse_entity i ts a w Hwf Hcal) as [[a' w'] Hrun]. exists a', w'. split; [done|].
  destruct (run_sound _ _ _ _ _ _ _ _ _ Hrun) as [Hid Hwf']. destruct (Hwf' Hwf) as (Hok & Hflag & Hst). split; [by split_and!|].
  intros j later clock. unfold handle_health, health_handle, agent_health, health_snapshot. cbn [handle_environment handle_hostname handle_capabilities handle_started_at].
  unfold identity in Hid. injection Hid as -> -> -> _ -> _ _ _. by rewrite Hflag.
Qed.

(** Peers look for a host where its agent says it is: once a registration has
    been taken in, over whatever the inventory had, the probes of its SSH server
    and of its agent go to the first address the agent chose and to the ports
    the two really listen on, stated or default. *)
Theorem peers_look_where_the_agent_is `{JsonLaws} `{U : UuidApi} `{HI : HashIter} now fresh (a : Agent) (i : Inspector)
    (c c' : Registrar) (inv : Inventory) :
  ports_ok a → tables_wf (reg_tables c) → own_row c (registration a i) →
  ingest_snapshot now fresh (snapshot_from_registration now (registration a i)) c = (c', Success inv) →
  ∃ e, inv_entities inv !! agent_entity_id a = Some e
    ∧ ∀ endpoint probe, endpoint_for e = Some endpoint → parameters probe = endpoint_parameters endpoint →
        (∀ p, primary (address_choice a i) = Some p → parameter_str probe "address" = Some p)
        ∧ tcp_port reachability probe = default SSH_DEFAULT_PORT (effective_ssh_port a i)
        ∧ as_u16 (default AGENT_DEFAULT_PORT (parameter_u64 probe "agent_port")) = default AGENT_DEFAULT_PORT (ag_rpc_port a).
Proof.
  intros Hok Hwf Hown Hin. destruct (ingest_registration_inventory _ _ _ _ _ _ Hin) as (inv0 & Hl & Hinv).
  destruct (merged_host now c _ inv0 Hwf Hown Hl) as (_ & [old Hm] & _). set (e := merged_entity now inv0 _) in *.
  exists e. rewrite Hinv. split; [by rewrite lookup_insert_eq|]. intros endpoint probe He Hp.
  destruct (registered_endpoint a i e old endpoint Hok Hm He) as (Haddr & Hssh & Hagent).
  destruct (endpoint_parameters_read endpoint probe) as (Ha & Hs & Hg & Hport & _); [..|exact Hp|].
  1, 2: intros p; rewrite ?Hssh, ?Hagent; intros Hb%service_ports_bound; [unfold u64_max; lia|done].
  destruct (service_ports_read a i) as [Rs Ra]. split_and!.
  - intros p Hpr. by rewrite Ha, (Haddr p Hpr).
  - unfold tcp_port. cbn [reachability port_parameters default_port omap list_omap]. rewrite Hs, Hport, Hssh, <- Rs.
    destruct (service_ports a i !! "ssh") as [p|] eqn:Hb; cbn [head default]; [|done].
    unfold as_u16. apply N.mod_small. by apply (service_ports_bound a i "ssh").
  - rewrite Hg, Hagent, <- Ra. destruct (service_ports a i !! "agent") as [p|] eqn:Hb; cbn [default]; [|done].
    unfold as_u16. apply N.mod_small. by apply (service_ports_bound a i "agent").
Qed.

(** An agent whose credential was refused once never counts as registered again
    by heartbeats alone: one that is answered leaves the flag down, and its
    endpoint goes on saying it is not registered. *)
Lemma a_heartbeat_does_not_register `{JsonApi} `{UuidApi} {W} (client : Client W) (a : Agent) (i : Inspector) clock (w w' : W) reply
    agent session :
  agent_id (ag_status a) = Some agent → session_id (ag_status a) = Some session → registered (ag_status a) = false →
  client_heartbeat client (mk_beat agent session (insp_boot_id i)) clock (spool_len (ag_spool a)) w = (w', inr reply) →
  reply_reregister reply = false →
  registered (ag_status (heartbeat client a i clock w).1.1) = false ∧ (heartbeat client a i clock w).2 = inr tt.
Proof. intros Ha Hs Hr Hc Hre. unfold heartbeat. by rewrite Ha, Hs, Hc, Hre. Qed.

(** ** One agent *)

Section samples.
#[local] Existing Instance sample_codec.

(** A controller that never answers. *)
Definition silent : Client unit :=
  mk_client (λ _ w, (w, inl unreachable)) (λ _ _ _ w, (w, inl unreachable)) (λ _ _ _ w, (w, inl unreachable)) (λ _ w, (w, inl unreachable)).

Lemma silent_down : down silent.
Proof. split_and!; intros; by exists unreachable. Qed.

Definition sample_target : AssignedTarget := mk_assigned "e2" "n2" "n2" (json_object [("address", json_of_str "n2")]) ∅.

(** An agent of a host with a failure to deliver, a peer to observe and an odd
    port for its own endpoint. *)
Definition lab_agent : Agent :=
  mk_agent "prod" "n1" one_spooled ∅ [] registered_status sample_local 0 false None None (Some 9444%N)
    (set_targets (peers_with_schedules sample_host_id ∅) 3 [sample_target]).1 None agent_default.

Lemma lab_agent_wf : agent_wf lab_agent.
Proof.
  split_and!; [apply one_spooled_ok|reflexivity|]. split; [|done]. cbn. split; by eexists.
Qed.

Definition sample_turn : Turn :=
  mk_turn compute_host 10 [11%N; 12%N] sample_execution sample_now 12 13 sample_execution sample_now 0.

Lemma sample_turn_within : within_calendar two_rows sample_turn.
Proof. split; exists 100%Z; apply sample_cutoff. Qed.

Definition sample_parse (text : string) : option EntityId := if String.eqb text "e2" then Some sample_peer_id else None.

Lemma an_outage_is_ridden_out_witness :
  down silent ∧ ∃ a' w', tick silent two_rows sample_parse sample_turn lab_agent tt = Some (a', w')
    ∧ peer_targets (ag_peers a') = [sample_target] ∧ standing (ag_status a') = (false, Some 1%N, Some 2%N) ∧ agent_wf a'.
Proof.
  split; [apply silent_down|].
  destruct (@an_outage_is_ridden_out _ _ _ _ _ sample_codec_laws unit silent two_rows sample_parse sample_turn lab_agent tt
              silent_down lab_agent_wf sample_turn_within) as (a' & w' & Ht & _ & _ & _ & Htg & _ & _ & Hst & _ & Hwf).
  exists a', w'. split; [exact Ht|]. split; [exact Htg|]. split; [exact Hst|exact Hwf].
Defined.

Lemma the_endpoint_speaks_for_the_agent_witness :
  ∃ a, agent_new compute_host 0 7 config_default one_spooled = Some a
    ∧ ∃ a' w', run silent two_rows sample_parse compute_host [sample_turn] a tt = Some (a', w')
        ∧ handle_health (health_handle a) compute_host 9 0 (ag_spool a') (ag_registered_flag a') = agent_health a' compute_host 9 0.
Proof.
  eexists. split; [reflexivity|].
  destruct (@the_endpoint_speaks_for_the_agent _ _ _ _ _ sample_codec_laws unit silent two_rows sample_parse compute_host 0 7
              config_default one_spooled [sample_turn] _ tt eq_refl one_spooled_ok
              ltac:(constructor; [apply sample_turn_within|constructor])) as (a' & w' & Hr & _ & Hh).
  exists a', w'. split; [exact Hr|apply Hh].
Defined.

Lemma lab_agent_own_row : own_row fresh_registrar (registration lab_agent compute_host).
Proof. split; [reflexivity|]. intros r Hr. cbn in Hr. by rewrite lookup_empty in Hr. Qed.

Lemma peers_look_where_the_agent_is_witness :
  ∃ c' inv e,
    ingest_snapshot 100 (λ _ _, 1%N) (snapshot_from_registration 100 (registration lab_agent compute_host)) fresh_registrar
      = (c', Success inv)
    ∧ inv_entities inv !! agent_entity_id lab_agent = Some e
    ∧ ∀ endpoint probe, endpoint_for e = Some endpoint → parameters probe = endpoint_parameters endpoint →
        as_u16 (default AGENT_DEFAULT_PORT (parameter_u64 probe "agent_port")) = 9444%N.
Proof.
  destruct (ingest_snapshot 100 (λ _ _, 1%N) (snapshot_from_registration 100 (registration lab_agent compute_host)) fresh_registrar)
    as [c' o] eqn:H.
  assert (match (ingest_snapshot 100 (λ _ _, 1%N) (snapshot_from_registration 100 (registration lab_agent compute_host)) fresh_registrar).2
          with Success _ => true | _ => false end = true) as Hs by (vm_compute; reflexivity).
  rewrite H in Hs. cbn [snd] in Hs. destruct o as [inv|err|]; [|discriminate Hs|discriminate Hs].
  destruct (peers_look_where_the_agent_is 100 (λ _ _, 1%N) lab_agent compute_host fresh_registrar c' inv) as (e & He & Hall).
  - split; [done|]. intros p [= <-]. reflexivity.
  - apply empty_tables_wf.
  - apply lab_agent_own_row.
  - exact H.
  - exists c', inv, e. split; [reflexivity|]. split; [exact He|]. intros endpoint probe Hend Hp.
    destruct (Hall endpoint probe Hend Hp) as (_ & _ & Ha). exact Ha.
Defined.
End samples.
