(* ===== verification/Api.v ===== *)
(** * The controller's API, and an agent at the other end of it

    [src/controller/api.rs]: the handlers of the routes with the check of the
    credential and of the protocol version in front of them, and the client of
    [src/agent/client.rs] that asks them over a network that may lose what it
    carries. *)

From S2P Require Import Concrete.
From S2P Require Export Controller.
From S2P Require Export DeliverySpec Transport AgentSpec.

Local Open Scope string_scope.

(** ** Answers *)

(** [ErrorResponse] ([src/protocol/mod.rs]) and [ApiError]. *)
Record ErrorResponse := mk_error { error_name : string; error_text : string }.
Record ApiError := mk_api_error { error_status : N; error_response : ErrorResponse }.

Definition unauthorized (message : string) : ApiError := mk_api_error 401 (mk_error "unauthorized" message).
Definition bad_version (offered : N) : ApiError :=
  mk_api_error 400 (mk_error "protocol_version_mismatch"
    ("this controller speaks protocol version " +:+ show_N PROTOCOL_VERSION +:+ ", not " +:+ show_N offered)).
Definition internal (message : string) : ApiError := mk_api_error 500 (mk_error "internal_error" message).
Definition bad_agent_id : ApiError := mk_api_error 400 (mk_error "bad_agent_id" "not a valid agent id").

(** [check_version]. *)
Definition check_version (offered : N) : bool := (offered =? PROTOCOL_VERSION)%N.

(** [HealthResponse]. *)
Record HealthResponse := mk_health_response {
  hr_protocol_version : N;
  hr_version : string;
  hr_environment : string;
  hr_server_time : Timestamp;
  hr_entities : nat;
  hr_agents : nat
}.

Section api.
Context `{J : JsonApi} `{U : UuidApi} `{T : TimeApi} `{CH : ChronoApi} `{HI : HashIter} `{SC : StreamCodec}.

(** A request past the decoding of its body; an agent is named in a path by a
    text. *)
Inductive ApiRequest :=
  | Get_health
  | Post_register (q : RegisterRequest)
  | Post_heartbeat (version : N) (q : HeartbeatRequest) (agent_time : Timestamp)
  | Post_observations (version : N) (agent : Uuid) (batch : list Observation)
  | Get_assignments (agent : string).

Inductive ApiReply :=
  | Reply_health (h : HealthResponse)
  | Reply_register (r : RegisterReply) (entity : EntityId)
  | Reply_heartbeat (r : HeartbeatReply) (revision : N)
  | Reply_observations (r : BatchResponse)
  | Reply_assignments (r : AssignmentsReply).

(** What goes out: a reply, an error, or nothing when the handler panicked. *)
Inductive ApiAnswer := Api_Ok (r : ApiReply) | Api_Error (e : ApiError) | Api_Dropped.

(** [ApiState], with the configured degree of observation. *)
Record ApiState := mk_api {
  api_controller : Controller;
  api_agents : AgentRegistry;
  api_credential : string;
  api_degree : N
}.

Definition with_controller (st : ApiState) (c : Controller) : ApiState := mk_api c (api_agents st) (api_credential st) (api_degree st).
Definition with_agents (st : ApiState) (r : AgentRegistry) : ApiState := mk_api (api_controller st) r (api_credential st) (api_degree st).

(** The clocks and identifiers a handler draws. *)
Record Draw := mk_draw {
  draw_readings : Readings;
  draw_session : Uuid;
  draw_observation : ObservationId;
  draw_now : Timestamp
}.

(** [StoreError]'s text, of a connection that answers. *)
Variable store_error_to_string : StoreError → string.
(** [Uuid::parse_str]. *)
Variable parse_uuid : string → option Uuid.

(** [health]. *)
Definition api_health (d : Draw) (st : ApiState) : ApiState * ApiAnswer :=
  let environment := ct_environment (api_controller st) in
  (st, match load_entities environment (ct_inventory (api_controller st)) with
       | inl e => Api_Error (internal (store_error_to_string e))
       | inr es => Api_Ok (Reply_health (mk_health_response PROTOCOL_VERSION VERSION environment (draw_now d) (length es)
                                           (registry_len (api_agents st))))
       end).

(** [register]. *)
Definition api_register (d : Draw) (q : RegisterRequest) (st : ApiState) : ApiState * ApiAnswer :=
  match store_registration (draw_readings d) (draw_observation d) q (api_controller st) with
  | (c, Success g) =>
      let '(agents, r) := handle_register (draw_session d) (draw_now d) q (registered_entity g) (api_agents st) in
      (with_agents (with_controller st c) agents, Api_Ok (Reply_register r (registered_entity g)))
  | (c, Failure e) => (with_controller st c, Api_Error (internal (store_error_to_string e)))
  | (c, Panic) => (with_controller st c, Api_Dropped)
  end.

(** [heartbeat]. *)
Definition api_heartbeat (d : Draw) (q : HeartbeatRequest) (agent_time : Timestamp) (st : ApiState) : ApiState * ApiAnswer :=
  let '(agents, r) := handle_heartbeat q agent_time (draw_now d) (api_agents st) in
  (with_agents st agents, Api_Ok (Reply_heartbeat r (assignment_revision agents))).

(** [observations]: an error of the store answers for the whole batch, and the
    agent is not marked as heard of. *)
Definition api_observations (d : Draw) (agent : Uuid) (batch : list Observation) (st : ApiState) : ApiState * ApiAnswer :=
  match store_batch (draw_readings d) batch (api_controller st) with
  | (c, Success r) =>
      (with_agents (with_controller st c) (registry_touch agent (draw_now d) (api_agents st)), Api_Ok (Reply_observations r))
  | (c, Failure e) => (with_controller st c, Api_Error (internal (store_error_to_string e)))
  | (c, Panic) => (with_controller st c, Api_Dropped)
  end.

(** [assignments]. *)
Definition api_assignments (agent : string) (st : ApiState) : ApiState * ApiAnswer :=
  (st, match parse_uuid agent with
       | None => Api_Error bad_agent_id
       | Some agent =>
           let c := api_controller st in
           match load_inventory (ct_environment c) (ct_inventory c) with
           | inl e => Api_Error (internal (store_error_to_string e))
           | inr inv =>
               match assignment_plan inv (api_degree st) with
               | None => Api_Dropped
               | Some plan =>
                   let targets := match registry_get agent (api_agents st) with
                                  | Some session => assigned_targets plan inv (sess_entity session)
                                  | None => []
                                  end in
                   Api_Ok (Reply_assignments (mk_assignments (plan_revision_of plan) targets))
               end
           end
       end).

(** [authenticate] and [check_version], in front of a handler. *)
Definition guarded (header : option string) (version : option N) (handler : ApiState → ApiState * ApiAnswer) (st : ApiState) :
    ApiState * ApiAnswer :=
  match verify_header (api_credential st) header with
  | inl e => (st, Api_Error (unauthorized (auth_error_to_string e)))
  | inr _ =>
      match version with
      | Some offered => if check_version offered then handler st else (st, Api_Error (bad_version offered))
      | None => handler st
      end
  end.

(** [router]. *)
Definition handle_request (header : option string) (d : Draw) (q : ApiRequest) (st : ApiState) : ApiState * ApiAnswer :=
  match q with
  | Get_health => api_health d st
  | Post_register q => guarded header (Some (req_protocol_version q)) (api_register d q) st
  | Post_heartbeat version q agent_time => guarded header (Some version) (api_heartbeat d q agent_time) st
  | Post_observations version agent batch => guarded header (Some version) (api_observations d agent batch) st
  | Get_assignments agent => guarded header None (api_assignments agent) st
  end.

(** ** The client at the other end *)

(** [serde_json::to_string] of an [ErrorResponse]. *)
Variable error_body : ErrorResponse → string.

(** The world of an agent: the controller, what becomes of the requests to come
    (when none is left they arrive), and what the controller is yet to draw. *)
Record ApiWorld := mk_api_world { world_api : ApiState; world_fates : list Fate; world_draws : nat → Draw }.

(** [ControllerClient::get] and [post]. *)
Definition ask (header : string) (q : ApiRequest) (w : ApiWorld) : ApiWorld * (ClientError + ApiReply) :=
  let later := λ n, world_draws w (S n) in
  match world_fates w with
  | RequestLost :: rest => (mk_api_world (world_api w) rest (world_draws w), inl unreachable)
  | ReplyLost :: rest => (mk_api_world (handle_request (Some header) (world_draws w 0) q (world_api w)).1 rest later, inl unreachable)
  | fates =>
      let '(st, answer) := handle_request (Some header) (world_draws w 0) q (world_api w) in
      (mk_api_world st (tail fates) later,
       match answer with
       | Api_Ok r => inr r
       | Api_Error e => inl (refusal (error_status e) (error_body (error_response e)))
       | Api_Dropped => inl unreachable
       end)
  end.

(** [ControllerClient::decode]: a reply of another shape does not decode. *)
Definition undecodable : ClientError := Client_Decode "unexpected reply".

(** [register], [heartbeat], [send_observations] and [assignments]. *)
Definition api_client (header : string) : Client ApiWorld :=
  mk_client
    (λ q w, let '(w, r) := ask header (Post_register q) w in
            (w, match r with inl e => inl e | inr (Reply_register r _) => inr r | inr _ => inl undecodable end))
    (λ q clock _ w, let '(w, r) := ask header (Post_heartbeat PROTOCOL_VERSION q clock) w in
            (w, match r with inl e => inl e | inr (Reply_heartbeat r _) => inr r | inr _ => inl undecodable end))
    (λ agent _ os w, let '(w, r) := ask header (Post_observations PROTOCOL_VERSION agent os) w in
            (w, match r with inl e => inl e | inr (Reply_observations r) => inr r | inr _ => inl undecodable end))
    (λ agent w, let '(w, r) := ask header (Get_assignments (uuid_to_string agent)) w in
            (w, match r with inl e => inl e | inr (Reply_assignments r) => inr r | inr _ => inl undecodable end)).
End api.

(** ** Properties *)

Section api_spec.
Context `{J : JsonApi} `{U : UuidApi} `{HI : HashIter} `{T : TimeApi} `{C : ChronoApi} `{OC : !ObservationCodec} `{SC : StreamCodec}.
Variables (store_error_to_string : StoreError → string) (parse_uuid : string → option Uuid) (error_body : ErrorResponse → string).
Implicit Types (st : ApiState) (w : ApiWorld) (a : Agent).
#[local] Abbreviation handle := (handle_request store_error_to_string parse_uuid).
#[local] Abbreviation client := (api_client store_error_to_string parse_uuid error_body).

(** The version a request states. *)
Definition stated_version (q : ApiRequest) : option N :=
  match q with
  | Post_register q => Some (req_protocol_version q)
  | Post_heartbeat version _ _ | Post_observations version _ _ => Some version
  | _ => None
  end.

Definition needs_credential (q : ApiRequest) : bool := match q with Get_health => false | _ => true end.

Lemma verify_header_cases token header :
  (header = Some (header_value token) ∧ verify_header token header = inr tt)
  ∨ (header ≠ Some (header_value token) ∧ ∃ e, verify_header token header = inl e).
Proof.
  destruct (verify_header token header) as [e|[]] eqn:Hv.
  - right. split; [|by exists e]. intros Hh. apply verify_header_spec in Hh. congruence.
  - left. split; [by apply verify_header_spec|done].
Qed.

Lemma guarded_refuses header version handler st :
  header ≠ Some (header_value (api_credential st)) ∨ (∃ v, version = Some v ∧ v ≠ PROTOCOL_VERSION) →
  (guarded header version handler st).1 = st
  ∧ ∃ e, (guarded header version handler st).2 = Api_Error e
      ∧ error_status e = if bool_decide (header = Some (header_value (api_credential st))) then 400%N else 401%N.
Proof.
  intros Hno. unfold guarded. destruct (verify_header_cases (api_credential st) header) as [[Hh ->]|[Hh [e ->]]].
  - rewrite bool_decide_eq_true_2 by done. destruct Hno as [?|(v & -> & Hv)]; [done|]. unfold check_version.
    apply N.eqb_neq in Hv. rewrite Hv. split; [done|by eexists].
  - rewrite bool_decide_eq_false_2 by done. split; [done|by eexists].
Qed.

Lemma ask_world header q w :
  header ≠ header_value (api_credential (world_api w)) → needs_credential q = true →
  world_api (ask store_error_to_string parse_uuid error_body header q w).1 = world_api w.
Proof.
  intros Hh Hq. assert (∀ d, (handle (Some header) d q (world_api w)).1 = world_api w) as Hsame.
  { intros d. destruct q; [done|..]; cbn [handle_request]; apply guarded_refuses; left; congruence. }
  unfold ask. destruct (world_fates w) as [|[] rest]; [| |done|by cbn; rewrite Hsame].
  all: specialize (Hsame (world_draws w 0)); destruct (handle (Some header) (world_draws w 0) q (world_api w)) as [st r]; exact Hsame.
Qed.
End api_spec.

(** *** What holds of the world throughout a run *)

Section world.
Context `{J : JsonApi} `{U : UuidApi} `{T : TimeApi} `{C : ChronoApi} `{OC : !ObservationCodec}.
Context {W : Type} (client : Client W) (limits : SpoolLimits) (parse_entity : string → option EntityId) (P : W → Prop).

(** Every request keeps [P]. *)
Definition keeps_world : Prop :=
  (∀ q w, P w → P (client_register client q w).1) ∧ (∀ q c n w, P w → P (client_heartbeat client q c n w).1)
  ∧ (∀ i s os w, P w → P (client_send client i s os w).1) ∧ (∀ i w, P w → P (client_assignments client i w).1).

Hypothesis Hkeeps : keeps_world.
Implicit Types (a : Agent) (w : W).

Lemma register_with_world a i w : P w → P (register_with client a i w).1.2.
Proof.
  intros Hw. destruct Hkeeps as (H1 & _). unfold register_with. specialize (H1 (registration a i) w Hw).
  by destruct (client_register client _ w) as [w' [e|r]].
Qed.

Lemma heartbeat_world a i clock w : P w → P (heartbeat client a i clock w).1.2.
Proof.
  intros Hw. unfold heartbeat. destruct (agent_id _) as [agent|]; [|by apply register_with_world].
  destruct (session_id _) as [session|]; [|by apply register_with_world]. destruct Hkeeps as (_ & H2 & _).
  specialize (H2 (mk_beat agent session (insp_boot_id i)) clock (spool_len (ag_spool a)) w Hw).
  destruct (client_heartbeat client _ clock _ w) as [w' [e|r]]; [done|].
  destruct (reply_reregister r); [by apply register_with_world|done].
Qed.

Lemma refresh_world t a w : P w → P (refresh_if_stale client t a w).2.
Proof.
  intros Hw. unfold refresh_if_stale, refresh_assignments. destruct (assignment_is_stale _ _); [|done].
  destruct (agent_id _) as [agent|]; [|done]. destruct Hkeeps as (_ & _ & _ & H4). specialize (H4 agent w Hw).
  by destruct (client_assignments client agent w) as [w' [e|r]].
Qed.

Lemma flush_world send (s s' : FlushState W) r :
  (∀ os w, P w → P (send os w).1) → flush send s = Some (s', r) → P (fl_world s) → P (fl_world s').
Proof.
  intros Hsend. unfold flush. destruct (agent_id (fl_status s)); [|by intros [= <- _]].
  destruct (session_id (fl_status s)); [|by intros [= <- _]]. destruct (flush_loop _ _ _) as [[s1 e]| |] eqn:Hl; [|done|done].
  intros Hr Hw. assert (P (fl_world s1)) as Hw1.
  { apply (flush_loop_invariant send (λ s2, P (fl_world s2)) (size (fl_spool s)) (restart s) s1 e); [|done|done].
    intros s2 s3 res H2. unfold flush_turn. destruct (peek _ _) as [|[|o os]]; [by intros [= <- _]..|].
    specialize (Hsend (o :: os) (fl_world s2) H2). destruct (send (o :: os) (fl_world s2)) as [w' [err|resp]]; by intros [= <- _]. }
  revert Hr. destruct e; by intros [= <- _].
Qed.

Lemma agent_flush_world a w a' w' r : agent_flush client a w = Some (a', w', r) → P w → P w'.
Proof.
  unfold agent_flush. destruct (flush _ _) as [[s1 r1]|] eqn:Hf; [|done]. intros [= _ <- _] Hw.
  apply (flush_world _ _ _ _ ltac:(intros; by apply Hkeeps) Hf Hw).
Qed.

Lemma record_world a now os w a' w' r : record_probe_results client limits a now os w = Some (a', w', r) → P w → P w'.
Proof.
  unfold record_probe_results. destruct os as [|o os]; [by intros [= _ <- _]|].
  unfold agent_record, record_observations. destruct (push _ _ _ _) as [t' [out|err|]]; [..|done]; cbn [mbind option_bind].
  - destruct (flush _ _) as [[s1 r1]|] eqn:Hf; [|done]. cbn. intros [= _ <- _] Hw.
    by apply (flush_world _ _ _ _ ltac:(intros; by apply Hkeeps) Hf).
  - by intros [= _ <- _].
Qed.

Lemma tick_world t a w a' w' : tick client limits parse_entity t a w = Some (a', w') → P w → P w'.
Proof.
  unfold tick. destruct (probe_once _ _ _ _ _) as [[[a1 w1] r1]|] eqn:H1; [|done]. cbn [mbind option_bind].
  pose proof (refresh_world t a1 w1) as H2. destruct (refresh_if_stale client t a1 w1) as [a2 w2].
  destruct (observe_peers _ _ _ _ _ _) as [[[a3 w3] r3]|] eqn:H3; [|done]. cbn [mbind option_bind].
  pose proof (heartbeat_world a3 (turn_host t) (turn_beat_at t) w3) as H4. destruct (heartbeat _ _ _ _ _) as [[a4 w4] r4].
  destruct (agent_flush _ _ _) as [[[a5 w5] r5]|] eqn:H5; [|done]. intros [= _ <-] Hw.
  apply (agent_flush_world _ _ _ _ _ H5), H4. assert (P w1) as Hw1.
  { unfold probe_once in H1. destruct (run_due _ _ _ _). by apply (record_world _ _ _ _ _ _ _ H1). }
  specialize (H2 Hw1). unfold observe_peers in H3. destruct (peer_targets _); [by injection H3 as _ <- _|].
  destruct (peer_observe_all _ _ _). by apply (record_world _ _ _ _ _ _ _ H3).
Qed.

Lemma run_world i ts a w a' w' : run client limits parse_entity i ts a w = Some (a', w') → P w → P w'.
Proof.
  unfold run. pose proof (register_with_world a i w) as H1. destruct (register_with _ _ _ _) as [[a1 w1] r1].
  destruct (ticks _ _ _ _ _ _) as [[a2 w2]|] eqn:H2; [|done]. cbn [mbind option_bind].
  destruct (agent_flush _ _ _) as [[[a3 w3] r3]|] eqn:H3; [|done]. intros [= _ <-] Hw. apply (agent_flush_world _ _ _ _ _ H3).
  specialize (H1 Hw). cbn [fst snd] in H1. clear H3. revert a1 w1 H1 H2.
  induction ts as [|t ts IH]; intros b v Hv; cbn [ticks]; [by intros [= _ <-]|].
  destruct (tick _ _ _ _ _ _) as [[b1 v1]|] eqn:Ht; [|done]. cbn [mbind option_bind]. apply IH. by apply (tick_world _ _ _ _ _ Ht).
Qed.
End world.

(** *** Security *)

(** C8.  Nothing changes without the credential: whatever is asked of the
    controller, unless the request carries exactly its credential and speaks its
    protocol version, the state is what it was; only the health of the service
    is told, and everything else is refused, with 401 where the credential is
    wrong and 400 where the version is.  Reading never changes anything. *)
Theorem nothing_changes_without_the_credential `{JsonApi} `{UuidApi} `{TimeApi} `{ChronoApi} `{HashIter} `{StreamCodec} store_error_to_string parse_uuid
    (header : option string) (d : Draw) (q : ApiRequest) (st : ApiState) :
  let '(st', answer) := handle_request store_error_to_string parse_uuid header d q st in
  (st' = st ∨ (header = Some (header_value (api_credential st)) ∧ stated_version q = Some PROTOCOL_VERSION))
  ∧ (needs_credential q = true →
     header ≠ Some (header_value (api_credential st)) ∨ (∃ v, stated_version q = Some v ∧ v ≠ PROTOCOL_VERSION) →
     st' = st ∧ ∃ e, answer = Api_Error e
       ∧ error_status e = if bool_decide (header = Some (header_value (api_credential st))) then 400%N else 401%N).
Proof.
  destruct (handle_request _ _ header d q st) as [st' answer] eqn:Hh.
  assert (∀ version handler, guarded header version handler st = (st', answer) →
    st' = st ∨ (header = Some (header_value (api_credential st)) ∧ ∀ v, version = Some v → v = PROTOCOL_VERSION)) as Hcases.
  { intros version handler Hg. unfold guarded in Hg.
    destruct (verify_header_cases (api_credential st) header) as [[Hheader Hv]|[_ [e Hv]]]; rewrite Hv in Hg.
    - destruct version as [v|]; [|by right]. unfold check_version in Hg. destruct (N.eqb_spec v PROTOCOL_VERSION) as [->|].
      + right. split; [done|]. by intros ? [= <-].
      + left. by injection Hg as <- _.
    - left. by injection Hg as <- _. }
  assert (∀ version handler, guarded header version handler st = (st', answer) →
    header ≠ Some (header_value (api_credential st)) ∨ (∃ v, version = Some v ∧ v ≠ PROTOCOL_VERSION) →
    st' = st ∧ ∃ e, answer = Api_Error e
      ∧ error_status e = if bool_decide (header = Some (header_value (api_credential st))) then 400%N else 401%N) as Hrefused.
  { intros version handler Hg Hno. pose proof (guarded_refuses header version handler st Hno) as Hr. by rewrite Hg in Hr. }
  destruct q as [|q|version q t|version agent os|agent]; cbn [handle_request stated_version needs_credential] in *.
  - injection Hh as <- _. by split; [left|].
  - split; [|intros _; by apply (Hrefused _ _ Hh)]. destruct (Hcases _ _ Hh) as [?|[? Hv]]; [by left|right]. by rewrite <- (Hv _ eq_refl).
  - split; [|intros _; by apply (Hrefused _ _ Hh)]. destruct (Hcases _ _ Hh) as [?|[? Hv]]; [by left|right]. by rewrite <- (Hv _ eq_refl).
  - split; [|intros _; by apply (Hrefused _ _ Hh)]. destruct (Hcases _ _ Hh) as [?|[? Hv]]; [by left|right]. by rewrite <- (Hv _ eq_refl).
  - split; [|intros _; by apply (Hrefused _ _ Hh)]. left. revert Hh. unfold guarded, api_assignments. by destruct (verify_header _ _); intros [= <- _].
Qed.

Section composed.
Context `{J : JsonApi} `{U : UuidApi} `{HI : HashIter} `{T : TimeApi} `{C : ChronoApi} `{OC : !ObservationCodec} `{SC : StreamCodec}.
Variables (store_error_to_string : StoreError → string) (parse_uuid : string → option Uuid) (error_body : ErrorResponse → string).
#[local] Abbreviation client := (api_client store_error_to_string parse_uuid error_body).

Lemma stranger_keeps header (st : ApiState) :
  header ≠ header_value (api_credential st) → keeps_world (client header) (λ w, world_api w = st).
Proof.
  intros Hh. assert (∀ q (w : ApiWorld), world_api w = st → needs_credential q = true →
    world_api (ask store_error_to_string parse_uuid error_body header q w).1 = st) as Hask.
  { intros q w <- Hq. by apply ask_world. }
  unfold api_client. split_and!; cbn [client_register client_heartbeat client_send client_assignments].
  - intros q w Hw. specialize (Hask (Post_register q) w Hw eq_refl). by destruct (ask _ _ _ _ _ w).
  - intros q c n w Hw. specialize (Hask (Post_heartbeat PROTOCOL_VERSION q c) w Hw eq_refl). by destruct (ask _ _ _ _ _ w).
  - intros i s os w Hw. specialize (Hask (Post_observations PROTOCOL_VERSION i os) w Hw eq_refl). by destruct (ask _ _ _ _ _ w).
  - intros i w Hw. specialize (Hask (Get_assignments (uuid_to_string i)) w Hw eq_refl). by destruct (ask _ _ _ _ _ w).
Qed.

(** What a request that was answered did. *)
Lemma ask_answered header q (w w' : ApiWorld) r :
  ask store_error_to_string parse_uuid error_body header q w = (w', inr r) →
  handle_request store_error_to_string parse_uuid (Some header) (world_draws w 0) q (world_api w) = (world_api w', Api_Ok r).
Proof.
  unfold ask. destruct (world_fates w) as [|[] rest]; [| |done|done].
  all: destruct (handle_request _ _ _ _ _ _) as [st [reply|e|]]; [|done|done]; by intros [= <- <-].
Qed.

Lemma ask_arrives header q (w : ApiWorld) st r :
  world_fates w = [] →
  handle_request store_error_to_string parse_uuid (Some header) (world_draws w 0) q (world_api w) = (st, Api_Ok r) →
  ∃ w', ask store_error_to_string parse_uuid error_body header q w = (w', inr r).
Proof. intros Hf Hh. unfold ask. rewrite Hf, Hh. by eexists. Qed.

Lemma guarded_accepts header version handler (st st' : ApiState) r :
  guarded header version handler st = (st', Api_Ok r) → verify_header (api_credential st) header = inr tt ∧ handler st = (st', Api_Ok r).
Proof.
  unfold guarded. destruct (verify_header _ _) as [e|[]]; [done|]. destruct version as [v|]; [|done]. by destruct (check_version v).
Qed.

(** The controller knows the session, and the credential is its own. *)
Lemma known_session_answered header d (q : HeartbeatRequest) clock (st : ApiState) session :
  verify_header (api_credential st) header = inr tt →
  sessions (api_agents st) !! beat_agent q = Some session → sess_id session = beat_session q →
  ∃ st' r n, handle_request store_error_to_string parse_uuid header d (Post_heartbeat PROTOCOL_VERSION q clock) st
               = (st', Api_Ok (Reply_heartbeat r n)) ∧ reply_reregister r = false.
Proof.
  intros Hv Hs Hid. cbn [handle_request]. unfold guarded. rewrite Hv. unfold check_version. rewrite N.eqb_refl.
  unfold api_heartbeat, handle_heartbeat, registry_heartbeat. rewrite Hs, decide_True by done. by eexists _, _, _.
Qed.

(** What the controller takes: about an entity it knows, by an observer it has
    a row of. *)
Definition acceptable (c : Controller) (o : Observation) : Prop :=
  target_entity o ∈ known_entities (ct_environment c) (ct_inventory c)
  ∧ ∀ e, observer_entity o = Some e → e ∈ dom (t_entities (ct_inventory c)).

Definition stored (c : Controller) (o : Observation) : Prop := is_Some (reg_observations (ct_registrar c) !! observation_id o).

(** A batch of an agent with the credential is answered for as the controller
    answered. *)
Lemma batch_answered header d agent os (st : ApiState) :
  verify_header (api_credential st) header = inr tt →
  handle_request store_error_to_string parse_uuid header d (Post_observations PROTOCOL_VERSION agent os) st
  = api_observations store_error_to_string d agent os st.
Proof. intros Hv. cbn [handle_request]. unfold guarded. rewrite Hv. unfold check_version. by rewrite N.eqb_refl. Qed.

Lemma acceptable_accepted `{!TimelineLaws} d agent os (st : ApiState) :
  controller_ok (api_controller st) → tables_wf (ct_inventory (api_controller st)) →
  (∀ ss, ∃ p, encode_streams ss = inr p) → Forall (acceptable (api_controller st)) os →
  ∃ st' r, api_observations store_error_to_string d agent os st = (st', Api_Ok (Reply_observations r)) ∧ resp_rejected r = []
    ∧ Forall (stored (api_controller st')) os ∧ api_credential st' = api_credential st
    ∧ (admit_batch (draw_readings d) os (ingestor_of (ct_registrar (api_controller st)))).2 = r.
Proof.
  intros Hok Hwf Henc Hos. rewrite Forall_forall in Hos. destruct (load_entities_total (ct_environment (api_controller st)) _ Hwf) as [es Hl].
  pose proof (store_batch_succeeds (draw_readings d) os _ es Hok Hl (Henc _) (λ o e Ho, proj2 (Hos o Ho) e)) as Hs.
  pose proof (store_batch_cases (draw_readings d) os (api_controller st)) as Hc.
  pose proof (admit_batch_rejects (draw_readings d) os (ingestor_of (ct_registrar (api_controller st)))) as Hr.
  pose proof (λ o Ho, admit_batch_stores (draw_readings d) os (ingestor_of (ct_registrar (api_controller st))) o Ho (proj1 (Hos o Ho))) as Hst.
  unfold api_observations. destruct (store_batch _ _ _) as [c res]. cbn [snd] in Hs. subst res.
  destruct (admit_batch _ _ _) as [g r]. cbn [fst snd] in *. destruct Hc as [[_ [t ->]]|[_ [e [=]]]].
  eexists _, r. split; [reflexivity|]. split_and!; [|by apply Forall_forall|done|done].
  rewrite filter_none in Hr; [by destruct (resp_rejected r)|]. intros o Ho Hno. apply Hno. by apply Hos.
Qed.

(** What an answered registration leaves. *)
Lemma answered_registration header (w w' : ApiWorld) q r :
  client_register (client header) q w = (w', inr r) →
  verify_header (api_credential (world_api w')) (Some header) = inr tt
  ∧ ∃ draw c g session, store_registration (draw_readings draw) (draw_observation draw) q (api_controller (world_api w)) = (c, Success g)
      ∧ api_controller (world_api w') = c
      ∧ sessions (api_agents (world_api w')) !! reply_agent r = Some session
      ∧ sess_id session = reply_session r ∧ sess_entity session = registered_entity g.
Proof.
  cbn [api_client client_register]. destruct (ask _ _ _ _ _ w) as [w1 [e|[]]] eqn:Ha; try done. intros [= <- <-].
  apply ask_answered in Ha. cbn [handle_request] in Ha. apply guarded_accepts in Ha as [Hv Ha]. revert Ha. unfold api_register.
  destruct (store_registration _ _ _ _) as [c [g|e|]] eqn:Hr; [|done|done]. unfold handle_register, registry_register.
  intros [= <- <- _]. split; [exact Hv|]. eexists (world_draws w 0), c, g, _. split; [exact Hr|].
  cbn [api_controller with_agents with_controller api_agents sessions reply_agent reply_session]. split; [done|].
  by rewrite lookup_insert_eq.
Qed.
End composed.

(** C23.  A stranger changes nothing: an agent that runs with another credential
    than the controller's, for however many turns and over whatever network,
    leaves the controller as it was. *)
Theorem a_stranger_changes_nothing `{JsonApi} `{UuidApi} `{HashIter} `{TimeApi} `{ChronoApi} `{!ObservationCodec} `{StreamCodec}
    store_error_to_string parse_uuid error_body limits parse_entity (header : string) (i : Inspector) (ts : list Turn) (a a' : Agent)
    (w w' : ApiWorld) :
  header ≠ header_value (api_credential (world_api w)) →
  run (api_client store_error_to_string parse_uuid error_body header) limits parse_entity i ts a w = Some (a', w') →
  world_api w' = world_api w.
Proof.
  intros Hh Hr. by apply (run_world _ limits parse_entity (λ v, world_api v = world_api w) (stranger_keeps _ _ _ header _ Hh) i ts a w a' w' Hr).
Qed.

(** C7.  Whoever was let in is known: after a registration that was answered, the
    agent counts as registered under the session the controller has for it, its
    next heartbeat is answered without being sent back to register, its host is
    an entity of the controller, and whatever it then delivers about its host, or
    about another entity the controller knows, is answered without a rejection
    and stored, as long as each observer it names has a row: its own host has
    one, and a batch with one that has none is refused whole. *)
Theorem a_registered_agent_is_recognised `{JsonLaws} `{U : UuidApi} `{HI : HashIter} `{TimeApi} `{ChronoApi} `{!ObservationCodec}
    `{StreamCodec} `{!TimelineLaws}
    store_error_to_string parse_uuid error_body (header : string) (i : Inspector) (a a' : Agent) (w w' : ApiWorld) :
  let client := api_client store_error_to_string parse_uuid error_body header in
  controller_ok (api_controller (world_api w)) → tables_wf (ct_inventory (api_controller (world_api w))) →
  own_row (ct_registrar (api_controller (world_api w))) (registration a i) → (∀ ss, ∃ p, encode_streams ss = inr p) →
  register_with client a i w = (a', w', inr tt) → world_fates w' = [] →
  registered (ag_status a') = true
  ∧ (∃ agent session, agent_id (ag_status a') = Some agent
       ∧ sessions (api_agents (world_api w')) !! agent = Some session
       ∧ session_id (ag_status a') = Some (sess_id session) ∧ sess_entity session = agent_entity_id a)
  ∧ (∀ j clock, ∃ a'' w'', heartbeat client a' j clock w' = (a'', w'', inr tt)
       ∧ standing (ag_status a'') = standing (ag_status a'))
  ∧ (∀ o, target_entity o = agent_entity_id a → observer_entity o = None ∨ observer_entity o = Some (agent_entity_id a) →
       acceptable (api_controller (world_api w')) o)
  ∧ (∀ agent session os, Forall (acceptable (api_controller (world_api w'))) os →
       ∃ w'' r, client_send client agent session os w' = (w'', inr r) ∧ resp_rejected r = []
         ∧ Forall (stored (api_controller (world_api w''))) os).
Proof.
  cbn zeta. set (cl := api_client _ _ _ header). intros Hok Hwf Hown Henc Hreg Hfates. revert Hreg. unfold register_with.
  destruct (client_register cl (registration a i) w) as [w1 [e|r]] eqn:Ha; [done|]. intros [= <- <-].
  apply answered_registration in Ha as (Hv & draw & c & g & session & Hr & Hc & Hs & Hsid & Hse).
  pose proof (store_registration_ok (draw_readings draw) (draw_observation draw) (registration a i) _ Hok) as Hok'.
  rewrite Hr in Hok'. cbn [fst] in Hok'. apply store_registration_core in Hr.
  destruct (register_agent_outcome _ _ _ _ _ _ Hwf Hown Hr) as (Hg & Hwf' & _).
  pose proof (register_agent_known _ _ _ _ _ _ Hwf Hown Hr) as Hknown. rewrite <- Hc in Hknown, Hok', Hwf'. split_and!.
  - done.
  - exists (reply_agent r), session. split_and!; [done|done|by rewrite <- Hsid|]. by rewrite Hse, Hg.
  - intros j clock. unfold heartbeat. cbn -[api_client].
    destruct (known_session_answered store_error_to_string parse_uuid (Some header) (world_draws w1 0)
                (mk_beat (reply_agent r) (reply_session r) (insp_boot_id j)) clock _ session Hv Hs Hsid) as (st & reply & n & Hb & Hre).
    destruct (ask_arrives _ _ error_body _ _ _ _ _ Hfates Hb) as [w2 Hw2].
    cbn [cl api_client client_heartbeat]. rewrite Hw2, Hre. by eexists _, _.
  - intros o Ho Hob. split; [by rewrite Ho|]. intros e He. apply entity_known_row. destruct Hob as [Hob|Hob]; rewrite Hob in He; [done|].
    by injection He as <-.
  - intros agent sess os Hos.
    destruct (acceptable_accepted store_error_to_string (world_draws w1 0) agent os (world_api w1) Hok' Hwf' Henc Hos) as (st & reply & Hb & Hre & Hst & _).
    rewrite <- (batch_answered store_error_to_string parse_uuid (Some header) _ _ _ _ Hv) in Hb.
    exists (mk_api_world st [] (λ n, world_draws w1 (S n))), reply. cbn [cl api_client client_send]. unfold ask. rewrite Hfates, Hb.
    split_and!; [done|done|exact Hst].
Qed.

(** ** A controller and its agent *)

Section samples.
#[local] Existing Instance sample_codec.
#[local] Existing Instance blank_stream_codec.

Definition sample_draw : Draw := mk_draw registration_readings 77 sample_oid 100.

Lemma blank_encodes : ∀ ss, ∃ p, encode_streams ss = inr p.
Proof. intros ss. by exists "". Qed.

Lemma prod_started : controller_ok (started "prod" empty_tables).
Proof. apply started_ok. by apply elem_of_singleton. Qed.

Definition lab_world : ApiWorld := mk_api_world (mk_api (started "prod" empty_tables) registry_new "secret" 3) [] (λ _, sample_draw).

#[local] Abbreviation lab_client header := (api_client (λ _, "store") (λ _, None) error_name header) (only parsing).

Lemma a_stranger_changes_nothing_witness :
  "Bearer wrong" ≠ header_value "secret"
  ∧ ∃ a' w', run (lab_client "Bearer wrong") two_rows sample_parse compute_host [sample_turn] lab_agent lab_world = Some (a', w')
      ∧ world_api w' = world_api lab_world.
Proof.
  assert ("Bearer wrong" ≠ header_value "secret") as Hne by discriminate. split; [exact Hne|].
  destruct (@run_completes _ _ _ _ _ ApiWorld (lab_client "Bearer wrong") two_rows sample_parse sample_codec_laws compute_host [sample_turn] lab_agent lab_world
              lab_agent_wf ltac:(constructor; [apply sample_turn_within|constructor])) as [[a' w'] Hr].
  exists a', w'. split; [exact Hr|].
  exact (a_stranger_changes_nothing _ _ _ two_rows sample_parse "Bearer wrong" compute_host [sample_turn] lab_agent a' lab_world w' Hne Hr).
Defined.

Lemma a_registered_agent_is_recognised_witness :
  ∃ a' w', register_with (lab_client (header_value "secret")) lab_agent compute_host lab_world = (a', w', inr tt)
    ∧ registered (ag_status a') = true ∧ agent_entity_id lab_agent ∈ dom (t_entities (ct_inventory (api_controller (world_api w')))).
Proof.
  destruct (register_with (lab_client (header_value "secret")) lab_agent compute_host lab_world) as [[a' w'] r] eqn:Hr.
  assert (match (register_with (lab_client (header_value "secret")) lab_agent compute_host lab_world).2 with inr _ => true | inl _ => false end = true)
    as Hs by (vm_compute; reflexivity).
  assert (world_fates (register_with (lab_client (header_value "secret")) lab_agent compute_host lab_world).1.2 = []) as Hf
    by (vm_compute; reflexivity).
  rewrite Hr in Hs, Hf. cbn [fst snd] in Hs, Hf. destruct r as [e|[]]; [discriminate Hs|]. exists a', w'. split; [reflexivity|].
  destruct (a_registered_agent_is_recognised _ _ _ (header_value "secret") compute_host lab_agent a' lab_world w'
                  prod_started empty_tables_wf lab_agent_own_row blank_encodes Hr Hf) as (H1 & _ & _ & H2 & _).
  split; [exact H1|].
  destruct (H2 (with_observer (observation_new sample_oid 90 NETWORK_PROBE (agent_entity_id lab_agent) Probe_Failed) (agent_entity_id lab_agent))
              eq_refl (or_intror eq_refl)) as [_ H3].
  exact (H3 (agent_entity_id lab_agent) eq_refl).
Defined.
End samples.
