(* ===== verification/Delivered.v ===== *)
(** * Delivering to the controller

    [Agent::flush] ([src/agent/mod.rs]) with the controller itself at the other
    end: its API behind the client of [Api], over a network that loses requests
    and replies, with the references its schema checks and the refusals of a
    whole batch that come of them. *)

From S2P Require Import Concrete.
From S2P Require Export Api.

(** ** What a request does *)

Section delivered.
Context `{J : JsonApi} `{U : UuidApi} `{HI : HashIter} `{T : TimeApi} `{C : ChronoApi} `{OC : !ObservationCodec} `{SC : StreamCodec}.
Variables (store_error_to_string : StoreError → string) (parse_uuid : string → option Uuid) (error_body : ErrorResponse → string).
Variables (header : string) (agent session : Uuid).
Implicit Types (s : FlushState ApiWorld) (w : ApiWorld) (st : ApiState).

(** [send_observations] of a registered agent. *)
Definition delivering : list Observation → ApiWorld → ApiWorld * (ClientError + BatchResponse) :=
  client_send (api_client store_error_to_string parse_uuid error_body header) agent session.

Definition controller_of s : Controller := api_controller (world_api (fl_world s)).

(** What a controller has after a request as before it. *)
Definition keeps_rows (c c' : Controller) : Prop :=
  ct_environment c' = ct_environment c ∧ ct_inventory c' = ct_inventory c
  ∧ ∀ o, stored c o → stored c' o.

#[local] Instance keeps_rows_refl : Reflexive keeps_rows.
Proof. by intros c. Qed.

(** What the answer [resp] to a batch at [c] means for the controller after it. *)
Definition taken_in (batch : list Observation) (c c' : Controller) (resp : BatchResponse) : Prop :=
  ∃ r, resp = (admit_batch r batch (ingestor_of (ct_registrar c))).2
    ∧ reg_observations (ct_registrar c') = ing_table (admit_batch r batch (ingestor_of (ct_registrar c))).1.

Lemma observations_cases d batch st :
  let '(st', answer) := api_observations store_error_to_string d agent batch st in
  keeps_rows (api_controller st) (api_controller st') ∧ api_credential st' = api_credential st
  ∧ ((∃ resp, answer = Api_Ok (Reply_observations resp) ∧ taken_in batch (api_controller st) (api_controller st') resp
              ∧ (store_batch (draw_readings d) batch (api_controller st)).2 = Success resp)
     ∨ (∃ e, answer = Api_Error e) ∧ api_controller st' = api_controller st).
Proof.
  unfold api_observations. pose proof (store_batch_cases (draw_readings d) batch (api_controller st)) as Hc.
  pose proof (λ i, admit_batch_keeps (draw_readings d) batch (ingestor_of (ct_registrar (api_controller st))) i) as Hkeep.
  destruct (store_batch _ _ _) as [c res]. destruct (admit_batch _ _ _) as [g resp] eqn:Ha. cbn [fst snd] in *.
  destruct Hc as [[-> [t ->]]|[-> [e ->]]].
  - split; [|split; [done|left]].
    + split_and!; [done|done|]. intros o [row Hrow]. exists row. by apply Hkeep.
    + exists resp. split; [done|]. split; [|done]. exists (draw_readings d). by rewrite Ha.
  - split; [done|]. split; [done|right]. split; [by eexists|done].
Qed.

(** A batch sent: whatever becomes of it nothing stored is forgotten; either it
    reached the controller, which took it in and may have been heard to say so,
    or the controller is as it was and there is no answer but an error. *)
Lemma delivering_cases batch w :
  let '(w', answer) := delivering batch w in
  let c := api_controller (world_api w) in
  let c' := api_controller (world_api w') in
  keeps_rows c c'
  ∧ ((∃ resp r, taken_in batch c c' resp ∧ (store_batch r batch c).2 = Success resp ∧ ∀ resp', answer = inr resp' → resp' = resp)
     ∨ c' = c ∧ ∃ e, answer = inl e).
Proof.
  assert (∀ d, let '(st, answer) := handle_request store_error_to_string parse_uuid (Some header) d (Post_observations PROTOCOL_VERSION agent batch) (world_api w) in
    keeps_rows (api_controller (world_api w)) (api_controller st)
    ∧ ((∃ resp r, answer = Api_Ok (Reply_observations resp) ∧ taken_in batch (api_controller (world_api w)) (api_controller st) resp
                 ∧ (store_batch r batch (api_controller (world_api w))).2 = Success resp)
       ∨ (∃ e, answer = Api_Error e) ∧ api_controller st = api_controller (world_api w))) as Hreq.
  { intros d. cbn [handle_request]. unfold guarded. destruct (verify_header _ _); [split; [reflexivity|right; split; [by eexists|done]]|].
    unfold check_version. rewrite N.eqb_refl. pose proof (observations_cases d batch (world_api w)) as Ho.
    destruct (api_observations _ _ _ _ _) as [st answer]. destruct Ho as (Hk & _ & [(resp & Hr)|He]); (split; [done|]); [left|by right].
    by exists resp, (draw_readings d). }
  unfold delivering. cbn [api_client client_send]. unfold ask. specialize (Hreq (world_draws w 0)).
  destruct (world_fates w) as [|[] rest]; [| |split; [reflexivity|right; split; [done|by eexists]]|].
  all: destruct (handle_request _ _ _ _ _ _) as [st answer]; destruct Hreq as (Hk & [(resp & r & -> & Ht & Hr)|[[e ->] Hc]]);
    (split; [done|]); [left; exists resp, r; split_and!; [done|done|intros ? Ha; by inversion Ha]|right; split; [done|by eexists]].
Qed.

Lemma not_rejected_known batch c c' resp o :
  taken_in batch c c' resp → o ∈ batch → observation_id_text o ∉ map rejected_id (resp_rejected resp) → stored c' o.
Proof.
  intros (r & -> & Ht) Ho Hn. unfold stored. rewrite Ht. apply admit_batch_stores; [done|].
  apply dec_stable. intros Hk. apply Hn. rewrite admit_batch_rejects.
  apply (list_elem_of_fmap_2 observation_id_text). by apply list_elem_of_filter.
Qed.

(** ** Nothing is lost *)

(** What is still to be delivered is spooled, the rest is stored. *)
Definition carried (t0 : gmap string SpoolRow) s : Prop :=
  spool_ok (fl_spool s) ∧ fl_spool s ⊆ t0
  ∧ ∀ i row o, t0 !! i = Some row → decode_observation (row_payload row) = inr o →
      fl_spool s !! i = Some row ∨ stored (controller_of s) o.

Lemma carried_start s : spool_ok (fl_spool s) → carried (fl_spool s) s.
Proof. intros Hok. split_and!; [done|done|]. intros i row o Hi _. by left. Qed.

Lemma flush_turn_carried t0 s s' res : carried t0 s → flush_turn delivering s = (s', res) → carried t0 s'.
Proof.
  intros (Hok & Hsub & Hall). unfold flush_turn.
  destruct (peek_reads MAX_BATCH (fl_spool s) Hok) as (os & -> & _ & Hread).
  destruct os as [|o0 os]; [intros [= <- _]; done|]. set (batch := o0 :: os) in *.
  pose proof (delivering_cases batch (fl_world s)) as Hsend.
  destruct (delivering batch (fl_world s)) as [w' [e|resp]]; intros [= <- _]; unfold carried, controller_of; cbn [fl_spool fl_world];
    destruct Hsend as ((_ & _ & Hkeep) & Hresp); [|destruct Hresp as [(resp' & r & Hresp & _ & Heq)|[_ [e [=]]]];
    specialize (Heq _ eq_refl); subst resp'].
  - split_and!; [done|done|]. intros i row o Hi Hd. destruct (Hall i row o Hi Hd) as [?|Hh]; [by left|right]. by apply Hkeep.
  - rewrite acknowledge_fst. split_and!.
    + by apply spool_ok_filter.
    + etrans; [|exact Hsub]. apply map_filter_subseteq.
    + intros i row o Hi Hd. destruct (Hall i row o Hi Hd) as [Hs|Hh]; [|right; by apply Hkeep].
      unfold delete_ids. destruct (decide (i ∈ confirmed batch resp)) as [Hin|Hout];
        [right|left; by apply map_lookup_filter_Some].
      apply list_elem_of_fmap in Hin as (o' & -> & [Hnr Ho']%list_elem_of_filter).
      rewrite Forall_forall in Hread. destruct (Hread o' Ho') as (row' & Hrow' & Hd').
      rewrite Hs in Hrow'. injection Hrow' as <-. rewrite Hd in Hd'. injection Hd' as <-. by eapply not_rejected_known.
Qed.

(** ** Everything arrives *)

Section healthy.
Context `{!TimelineLaws}.
Hypothesis encodes : ∀ ss, ∃ p, encode_streams ss = inr p.

(** Requests arrive with the right credential, and the controller takes what is
    spooled. *)
Definition healthy s : Prop :=
  world_fates (fl_world s) = [] ∧ header = header_value (api_credential (world_api (fl_world s)))
  ∧ controller_ok (controller_of s) ∧ tables_wf (ct_inventory (controller_of s)) ∧ spool_ok (fl_spool s)
  ∧ ∀ i row o, fl_spool s !! i = Some row → decode_observation (row_payload row) = inr o → acceptable (controller_of s) o.

Lemma flush_turn_healthy s :
  healthy s →
  (flush_turn delivering s = (s, inr false) ∧ fl_spool s = ∅)
  ∨ ∃ s', flush_turn delivering s = (s', inr true) ∧ healthy s' ∧ size (fl_spool s') < size (fl_spool s).
Proof.
  intros (Hf & Hh & Hok & Hwf & Hsp & Hacc). destruct (flush_turn_spool delivering s Hsp) as (s' & go & Ht & Hsp' & Hlt).
  revert Ht. unfold flush_turn. destruct (peek_reads MAX_BATCH (fl_spool s) Hsp) as (os & Hp & _ & Hread).
  rewrite Hp. destruct os as [|o0 os].
  { intros [= <- <-]. left. split; [done|]. by apply (peek_nil MAX_BATCH). }
  set (batch := o0 :: os) in *. set (d := world_draws (fl_world s) 0).
  assert (Forall (acceptable (controller_of s)) batch) as Hall.
  { eapply Forall_impl; [exact Hread|]. intros o (row & Hrow & Hd). by eapply Hacc. }
  destruct (acceptable_accepted store_error_to_string d agent batch _ Hok Hwf encodes Hall) as (st & resp & Hapi & Hrej & _ & Hcred & _).
  pose proof (observations_cases d batch (world_api (fl_world s))) as Hcases. rewrite Hapi in Hcases.
  destruct Hcases as ((Henv & Hinv & _) & _). pose proof (store_batch_ok (draw_readings d) batch _ Hok) as Hok'.
  assert (verify_header (api_credential (world_api (fl_world s))) (Some header) = inr tt) as Hv by (apply verify_header_spec; by rewrite Hh).
  unfold delivering. cbn [api_client client_send]. unfold ask. rewrite Hf. rewrite batch_answered by done. fold d. rewrite Hapi, Hrej.
  intros [= <- <-]. right. eexists. split; [done|]. split; [|by apply Hlt].
  unfold api_observations in Hapi. destruct (store_batch _ _ _) as [c [x|e|]] eqn:Hst; [injection Hapi as <- _|discriminate Hapi..].
  unfold healthy, controller_of in *.
  cbn [fst fl_world fl_spool world_fates world_api api_controller with_agents with_controller api_credential tail] in *. split_and!; [done|by rewrite Hh|done|by rewrite Hinv|done|].
  intros i row o Hi Hd. rewrite acknowledge_fst in Hi. apply map_lookup_filter_Some in Hi as [Hi _].
  unfold acceptable. rewrite Henv, Hinv. by eapply Hacc.
Qed.

Lemma flush_loop_healthy fuel s :
  healthy s → size (fl_spool s) ≤ fuel →
  ∃ s', flush_loop delivering fuel s = Finished (s', None) ∧ fl_spool s' = ∅.
Proof.
  revert s. induction fuel as [|fuel IH]; intros s Hh Hf;
    destruct (flush_turn_healthy s Hh) as [[Ht He]|(s' & Ht & Hh' & Hlt)]; cbn [flush_loop]; rewrite Ht;
    try by exists s.
  - lia.
  - apply IH; [done|lia].
Qed.
End healthy.

(** ** What blocks the queue *)









End delivered.

(** ** Properties *)

(** C20.  Nothing is lost on the way: whatever the network loses, whatever the
    controller refuses, whoever asks, every observation spooled before a flush
    is afterwards still spooled, unaltered, or in the controller's store. *)
Theorem flush_loses_nothing `{JsonApi} `{UuidApi} `{HashIter} `{TimeApi} `{ChronoApi} `{!ObservationCodec} `{StreamCodec}
    store_error_to_string parse_uuid error_body header agent session (s : FlushState ApiWorld) :
  spool_ok (fl_spool s) →
  ∃ s' n, flush (delivering store_error_to_string parse_uuid error_body header agent session) s = Some (s', inr n)
    ∧ ∀ i row o, fl_spool s !! i = Some row → decode_observation (row_payload row) = inr o →
        fl_spool s' !! i = Some row ∨ is_Some (reg_observations (ct_registrar (controller_of s')) !! observation_id o).
Proof.
  intros Hok. unfold flush. destruct (agent_id (fl_status s)); [|eexists _, _; split; [done|]; intros; by left].
  destruct (session_id (fl_status s)); [|eexists _, _; split; [done|]; intros; by left].
  set (send := delivering _ _ _ _ _ _).
  destruct (flush_loop_ends send (size (fl_spool s)) (restart s) Hok ltac:(done)) as (s' & Hl & _).
  rewrite Hl. eexists _, _. split; [done|]. cbn [fl_spool fl_world].
  assert (carried (fl_spool s) s') as (_ & _ & Hall); [|exact Hall].
  apply (flush_loop_invariant send (carried (fl_spool s)) _ _ _ _
           (λ s1 s2 res, flush_turn_carried _ _ _ _ _ _ (fl_spool s) s1 s2 res) (carried_start (restart s) Hok) Hl).
Qed.

(** C21.  Everything is delivered in the end: when the requests arrive with the
    credential and the controller has an entity for whatever the spooled
    observations are about, and a row for every observer they name, one flush
    empties the spool, however long the outage was, and all of it is in the
    controller's store. *)
Theorem flush_delivers_everything `{JsonApi} `{UuidApi} `{HashIter} `{TimeApi} `{ChronoApi} `{!ObservationCodec} `{StreamCodec} `{!TimelineLaws}
    store_error_to_string parse_uuid error_body header agent session (s : FlushState ApiWorld) a sess :
  (∀ ss, ∃ p, encode_streams ss = inr p) →
  healthy header s → agent_id (fl_status s) = Some a → session_id (fl_status s) = Some sess →
  ∃ s' n, flush (delivering store_error_to_string parse_uuid error_body header agent session) s = Some (s', inr n) ∧ fl_spool s' = ∅
    ∧ ∀ i row o, fl_spool s !! i = Some row → decode_observation (row_payload row) = inr o →
        is_Some (reg_observations (ct_registrar (controller_of s')) !! observation_id o).
Proof.
  intros Henc Hh Ha Hsess. pose proof Hh as (_ & _ & _ & _ & Hok & _). unfold flush. rewrite Ha, Hsess. set (send := delivering _ _ _ _ _ _).
  destruct (flush_loop_healthy store_error_to_string parse_uuid error_body header agent session Henc (size (fl_spool s)) (restart s) Hh ltac:(done)) as (s' & Hl & He).
  fold send in Hl. rewrite Hl. eexists _, _. split_and!; [done|done|]. cbn [fl_world]. intros i row o Hi Hd.
  destruct (flush_loop_invariant send (carried (fl_spool s)) _ _ _ _
             (λ s1 s2 res, flush_turn_carried _ _ _ _ _ _ (fl_spool s) s1 s2 res) (carried_start (restart s) Hok) Hl)
    as (_ & _ & Hall).
  destruct (Hall i row o Hi Hd) as [Hs|Hst]; [|done]. by rewrite He, lookup_empty in Hs.
Qed.


(** ** An agent with one observation to deliver *)

Section samples.
#[local] Existing Instance sample_codec.
#[local] Existing Instance blank_stream_codec.

(** A database with the entity the sample is about. *)
Definition inventory_of_7 : InventoryTables :=
  Store.mk_tables {["prod"%string]} {[ sample_entity 7 := row_of_entity bare_host ]} ∅ ∅ ∅ ∅.

Lemma inventory_of_7_wf : tables_wf inventory_of_7.
Proof.
  split; [|apply map_Forall_empty..]. apply map_Forall_singleton, row_of_entity_wf.
Qed.

(** Delivering to a controller that starts over an inventory. *)
Definition delivery_to (inv : InventoryTables) (fates : list Fate) : FlushState ApiWorld :=
  {| fl_world := mk_api_world (mk_api (started "prod" inv) registry_new "secret" 3) fates (λ _, sample_draw);
     fl_spool := one_spooled; fl_status := registered_status; fl_delivered := 0 |}.

#[local] Abbreviation deliver header := (delivering (λ _, "store"%string) (λ _, None) error_name header 1 2) (only parsing).

Lemma delivery_healthy : healthy (header_value "secret") (delivery_to inventory_of_7 []).
Proof.
  split_and!; [done|done|apply started_ok; by apply elem_of_singleton|apply inventory_of_7_wf|apply one_spooled_ok|].
  intros i row o Hi Hd. rewrite (one_spooled_known i row o Hi Hd). split; [|intros e [=]].
  assert (bool_decide (sample_entity 7 ∈ known_entities "prod" inventory_of_7) = true) as Hb by (vm_compute; reflexivity).
  by apply bool_decide_eq_true in Hb.
Qed.

Lemma flush_loses_nothing_witness :
  ∃ s' n, flush (deliver (header_value "secret")) (delivery_to inventory_of_7 [ReplyLost]) = Some (s', inr n)
    ∧ (fl_spool s' !! "2"%string = Some spooled_failure
       ∨ is_Some (reg_observations (ct_registrar (controller_of s')) !! {| observation_uuid := 2 |})).
Proof.
  destruct (flush_loses_nothing (λ _, "store"%string) (λ _, None) error_name (header_value "secret") 1 2
              (delivery_to inventory_of_7 [ReplyLost]) one_spooled_ok) as (s' & n & Hf & Hall).
  exists s', n. split; [exact Hf|].
  exact (Hall "2"%string spooled_failure (sample_observation 2 Probe_Failed) (lookup_singleton_eq _ _)
    spooled_failure_decodes).
Defined.

Lemma flush_delivers_everything_witness :
  healthy (header_value "secret") (delivery_to inventory_of_7 [])
  ∧ ∃ s' n, flush (deliver (header_value "secret")) (delivery_to inventory_of_7 []) = Some (s', inr n)
      ∧ fl_spool s' = ∅ ∧ is_Some (reg_observations (ct_registrar (controller_of s')) !! {| observation_uuid := 2 |}).
Proof.
  split; [exact delivery_healthy|].
  destruct (flush_delivers_everything (λ _, "store"%string) (λ _, None) error_name (header_value "secret") 1 2
    (delivery_to inventory_of_7 []) 1%N 2%N blank_encodes delivery_healthy eq_refl eq_refl) as (s' & n & Hf & He & Hall).
  exists s', n. split; [exact Hf|]. split; [exact He|].
  exact (Hall "2"%string spooled_failure (sample_observation 2 Probe_Failed) (lookup_singleton_eq _ _) spooled_failure_decodes).
Defined.

End samples.
