(* ===== verification/SilentProbes.v ===== *)
(** * Is everything that should report reporting

    [src/audit.rs]: the probes that apply to an entity, could be run against it
    and have not reported for long, and how that compares with how long a report
    is evidence ([src/controller/diagnose.rs]). *)

From S2P Require Import Concrete.
From S2P Require Export Observers Correlate Config.

Local Open Scope string_scope.

(** [SILENT_AFTER_INTERVALS], [MINIMUM_SILENCE]. *)
Definition SILENT_AFTER_INTERVALS : N := 10.
Definition MINIMUM_SILENCE : StdDuration := std_secs 300.

(** [Expectation]. *)
Inductive Expectation := Locally | Remotely.

#[export] Instance Expectation_eq_dec : EqDecision Expectation.
Proof. solve_decision. Defined.

Definition expectation_as_str (x : Expectation) : string := match x with Locally => "locally" | Remotely => "remotely" end.

(** [Finding]. *)
Record Finding := mk_finding {
  finding_probe : string;
  finding_entity : EntityId;
  finding_name : string;
  finding_expectation : Expectation;
  finding_interval : StdDuration;
  finding_last_seen : option Timestamp
}.

#[export] Instance Finding_eq_dec : EqDecision Finding.
Proof. solve_decision. Defined.

(** [Finding::never_observed]. *)
Definition never_observed (f : Finding) : bool := negb (given (finding_last_seen f)).

(** [silence_horizon]; [None] is the panic of a product that overflows. *)
Definition silence_horizon (i : StdDuration) : option StdDuration :=
  (λ d, N.max d MINIMUM_SILENCE) <$> std_mul i SILENT_AFTER_INTERVALS.

Section audit.
Context `{J : JsonApi} `{C : ChronoApi}.

(** [expectation_for]. *)
Definition expectation_for (m : ExecutionMode) (e : ManagedEntity) (watched : bool) : option Expectation :=
  match m with
  | Mode_Local => if bool_decide (SENTINEL_AGENT ∈ entity_capabilities e) then Some Locally else None
  | _ => if watched && given (endpoint_for e) then Some Remotely else None
  end.

(** The part of [silent_probes] that decides whether a report is overdue. *)
Definition overdue (horizon : StdDuration) (seen : option Timestamp) (now : Timestamp) : bool :=
  match seen with None => true | Some at_ => bool_decide (window_duration horizon < now - at_)%Z end.

(** Its body for an entry of the catalog and an entity; [None] is a panic. *)
Definition audit_entry (schedules : ProbeSchedules) (observed : gset EntityId) (last_seen : gmap (EntityId * string) Timestamp)
    (now : Timestamp) (e : ManagedEntity) (entry : CatalogEntry) : option (option Finding) :=
  let d := apply_schedule schedules (definition entry) in
  if negb (schedule_is_enabled schedules (definition_id d)) then Some None
  else if negb (reports_on_type entry (entity_kind e)) then Some None
  else if negb (applies_to d (entity_kind e) (entity_capabilities e)) then Some None
  else match expectation_for (execution_mode d) e (bool_decide (entity_eid e ∈ observed)) with
  | None => Some None
  | Some expectation =>
      let seen := last_seen !! (entity_eid e, definition_id d) in
      horizon ← silence_horizon (interval d);
      Some (if overdue horizon seen now
            then Some (mk_finding (definition_id d) (entity_eid e) (canonical_name e) expectation (interval d) seen) else None)
  end.

(** [silent_probes]. *)
Definition audited_entities (inv : Inventory) : list ManagedEntity :=
  filter (λ e, lifecycle_state e = Lifecycle_Active) (entities inv).

Definition silent_probes (inv : Inventory) (config : Config) (observed : gset EntityId)
    (last_seen : gmap (EntityId * string) Timestamp) (now : Timestamp) : option (list Finding) :=
  found ← mapM (λ '(e, entry), audit_entry (config_probes config) observed last_seen now e entry)
            (e ← audited_entities inv; entry ← catalog; [(e, entry)]);
  Some (sort_by_key (λ f, (finding_probe f, finding_name f)) (omap id found)).

(** [observed_entities]; [None] is a panic of [assign]. *)
Definition observed_entities (inv : Inventory) (config : Config) : option (gset EntityId) :=
  let hosts := plan_targets inv in
  if cc_observe (config_controller config) then Some (list_to_set hosts)
  else
    plan ← assign hosts (observer_candidates (entities inv)) (inv_graph inv) (config_peer_degree config) 0;
    Some (list_to_set (map assigned_target (filter (λ a, observers a ≠ []) (assignments plan)))).

(** [summary]. *)
Definition finding_probes (l : list Finding) : gset string := list_to_set (map finding_probe l).

Definition audit_summary (l : list Finding) : option string :=
  match l with
  | [] => None
  | _ =>
      let never := size (finding_probes (filter (λ f, never_observed f = true) l)) in
      let probes := size (finding_probes l) in
      let detail :=
        if bool_decide (never = 0%nat) then show_N (N.of_nat probes) +:+ " probe(s) have gone quiet"
        else if bool_decide (never = probes) then show_N (N.of_nat never) +:+ " probe(s) have never reported at all"
        else show_N (N.of_nat probes) +:+ " probe(s) are not reporting, " +:+ show_N (N.of_nat never) +:+ " of them never have" in
      Some (detail +:+ "; run `sentinel audit` for which")
  end.
End audit.

(** ** Properties *)

Section audit_spec.
Context `{J : JsonApi} `{C : ChronoApi}.
Implicit Types (s : ProbeSchedules) (e : ManagedEntity) (entry : CatalogEntry) (f : Finding).

(** What a probe of the catalog is, as the operator left it. *)
Definition effective s entry : ProbeDefinition := apply_schedule s (definition entry).

(** A probe is switched on, its reports would name the entity, the entity has
    what it needs, and there is somewhere to run it from. *)
Definition expected s (observed : gset EntityId) e entry (x : Expectation) : Prop :=
  schedule_is_enabled s (definition_id (effective s entry)) = true
  ∧ reports_on_type entry (entity_kind e) = true
  ∧ applies_to (effective s entry) (entity_kind e) (entity_capabilities e) = true
  ∧ expectation_for (execution_mode (effective s entry)) e (bool_decide (entity_eid e ∈ observed)) = Some x.

Definition finding_of s (last_seen : gmap (EntityId * string) Timestamp) e entry (x : Expectation) : Finding :=
  mk_finding (definition_id (effective s entry)) (entity_eid e) (canonical_name e) x (interval (effective s entry))
    (last_seen !! (entity_eid e, definition_id (effective s entry))).

Lemma audit_entry_spec s observed last_seen now e entry r f :
  audit_entry s observed last_seen now e entry = Some r →
  r = Some f ↔ ∃ x horizon, expected s observed e entry x ∧ silence_horizon (interval (effective s entry)) = Some horizon
                 ∧ f = finding_of s last_seen e entry x ∧ overdue horizon (finding_last_seen f) now = true.
Proof.
  unfold audit_entry, expected, finding_of. fold (effective s entry). set (d := effective s entry).
  destruct (schedule_is_enabled s (definition_id d)); cbn [negb]; [|intros [= <-]; naive_solver].
  destruct (reports_on_type entry (entity_kind e)); cbn [negb]; [|intros [= <-]; naive_solver].
  destruct (applies_to d (entity_kind e) (entity_capabilities e)); cbn [negb]; [|intros [= <-]; naive_solver].
  destruct (expectation_for _ _ _) as [x|]; [|intros [= <-]; naive_solver].
  destruct (silence_horizon (interval d)) as [horizon|]; cbn [mbind option_bind]; [|done]. intros [= <-]. split.
  - destruct (overdue _ _ _) eqn:Ho; [|done]. intros [= <-]. by exists x, horizon.
  - intros (x' & h & (_ & _ & _ & [= <-]) & [= <-] & -> & Ho). cbn [finding_last_seen] in Ho. by rewrite Ho.
Qed.

(** The horizons of the catalog, entry by entry. *)
Lemma horizons_from_spec s es m m' :
  horizons_from s es m = Some m' → NoDup (map entry_id es) →
  (∀ entry, entry ∈ es → ∃ w, std_mul (interval (effective s entry)) STALE_AFTER_INTERVALS = Some w
                            ∧ m' !! entry_id entry = Some (window_duration w))
  ∧ ∀ k, k ∉ map entry_id es → m' !! k = m !! k.
Proof.
  revert m. induction es as [|x es IH]; intros m; cbn [horizons_from map]; [intros [= <-] _; split; [by intros ? ?%elem_of_nil|done]|].
  destruct (std_mul _ _) as [w|] eqn:Hw; cbn [mbind option_bind]; [|done]. intros Hm [Hx Hnd]%NoDup_cons.
  assert (definition_id (apply_schedule s (definition x)) = entry_id x) as Hid by apply apply_schedule_id.
  destruct (IH _ Hm Hnd) as [Hin Hout]. split.
  - intros entry [->|He]%elem_of_cons; [|by apply Hin]. exists w. split; [done|]. rewrite (Hout (entry_id x) Hx), Hid. apply lookup_insert_eq.
  - intros k Hk. rewrite Hout by (intros ?; apply Hk; by right). rewrite Hid, lookup_insert_ne; [done|]. intros Heq. apply Hk. rewrite <- Heq. by left.
Qed.

(** [from_std] represents a prefix of the durations, exactly. *)
Definition exact_from_std : Prop :=
  (∀ n d, delta_from_std n = Some d → d = Z.of_N n)
  ∧ ∀ n m, (n ≤ m)%N → is_Some (delta_from_std m) → is_Some (delta_from_std n).

Lemma window_of n : exact_from_std → is_Some (delta_from_std n) → window_duration n = Z.of_N n.
Proof. intros [Hexact _] [d Hd]. unfold window_duration. rewrite Hd. cbn. by apply Hexact. Qed.

Lemma silent_probes_elem inv config observed last_seen now l f :
  silent_probes inv config observed last_seen now = Some l →
  f ∈ l ↔ ∃ e entry x horizon, e ∈ entities inv ∧ lifecycle_state e = Lifecycle_Active ∧ entry ∈ catalog
    ∧ expected (config_probes config) observed e entry x
    ∧ silence_horizon (interval (effective (config_probes config) entry)) = Some horizon
    ∧ f = finding_of (config_probes config) last_seen e entry x
    ∧ overdue horizon (finding_last_seen f) now = true.
Proof.
  unfold silent_probes. destruct (mapM _ _) as [found|] eqn:Hfound; cbn [mbind option_bind]; [|done]. intros [= <-].
  apply mapM_Some in Hfound. rewrite elem_of_sort_by_key, list_elem_of_omap. split.
  - intros (r & Hr & Hf). cbn in Hf. apply list_elem_of_lookup in Hr as [i Hi].
    destruct (Forall2_lookup_r _ _ _ _ _ Hfound Hi) as ([e entry] & Hp & Hone).
    apply list_elem_of_lookup_2, list_elem_of_bind in Hp as (e' & Hp & He).
    apply list_elem_of_bind in Hp as (entry' & Hp & Hentry). apply list_elem_of_singleton in Hp as [= -> ->].
    apply list_elem_of_filter in He as [Hact He].
    destruct (proj1 (audit_entry_spec _ _ _ _ _ _ _ f Hone) Hf) as (x & h & Hexp & Hh & Heq & Ho). by exists e', entry', x, h.
  - intros (e & entry & x & h & He & Hact & Hentry & Hexp & Hh & Hf & Ho).
    assert ((e, entry) ∈ (e ← audited_entities inv; entry ← catalog; [(e, entry)])) as Hp.
    { apply list_elem_of_bind. exists e. split; [|by apply list_elem_of_filter]. apply list_elem_of_bind. exists entry.
      split; [by apply list_elem_of_singleton|done]. }
    apply list_elem_of_lookup in Hp as [i Hi]. destruct (Forall2_lookup_l _ _ _ _ _ Hfound Hi) as (r & Hr & Hone).
    exists r. split; [by apply list_elem_of_lookup_2 in Hr|]. cbn. apply (audit_entry_spec _ _ _ _ _ _ _ f) in Hone. apply Hone.
    by exists x, h.
Qed.
End audit_spec.

(** A probe that never reports does not go unnoticed, and nothing else is
    called silent: the findings are, sorted by probe and name, exactly the
    active entities and the probes of the catalog that are switched on, would
    name the entity, apply to it and could be run against it, and whose last
    report, if there is one, is older than ten intervals and than five minutes. *)
Theorem a_silent_probe_is_found `{JsonApi} `{ChronoApi} (inv : Inventory) (config : Config) (observed : gset EntityId)
    (last_seen : gmap (EntityId * string) Timestamp) (now : Timestamp) (l : list Finding) :
  silent_probes inv config observed last_seen now = Some l →
  StronglySorted (key_le_on (λ f, (finding_probe f, finding_name f))) l
  ∧ ∀ f, f ∈ l ↔ ∃ e entry x horizon, e ∈ entities inv ∧ lifecycle_state e = Lifecycle_Active ∧ entry ∈ catalog
      ∧ expected (config_probes config) observed e entry x
      ∧ silence_horizon (interval (effective (config_probes config) entry)) = Some horizon
      ∧ f = finding_of (config_probes config) last_seen e entry x
      ∧ overdue horizon (finding_last_seen f) now = true.
Proof.
  intros Hl. split; [|intros f; by apply silent_probes_elem]. unfold silent_probes in Hl.
  destruct (mapM _ _); cbn [mbind option_bind] in Hl; [|done]. injection Hl as <-. apply sort_by_key_sorted.
Qed.

(** C24.  What is called silent is no longer evidence: the last report of a finding,
    made by any observer but the controller, is older than the time within which
    a report counts as evidence about now, for every schedule of the operator's.
    A check that reports a probe as silent never contradicts the diagnosis. *)
Theorem what_is_silent_is_no_evidence `{JsonApi} `{ChronoApi} (inv : Inventory) (config : Config) (observed : gset EntityId)
    (last_seen : gmap (EntityId * string) Timestamp) (now at_ : Timestamp) (l : list Finding) (f : Finding)
    (horizons : gmap string Duration) (fallback : Duration) (observer controller : option EntityId) :
  exact_from_std →
  silent_probes inv config observed last_seen now = Some l → f ∈ l → finding_last_seen f = Some at_ →
  freshness_horizons (config_probes config) = Some horizons →
  (∀ horizon, silence_horizon (finding_interval f) = Some horizon → is_Some (delta_from_std horizon)) →
  observer = None ∨ observer ≠ controller →
  (horizon_for (finding_probe f) observer controller horizons fallback < now - at_)%Z.
Proof.
  intros Hstd Hl Hf Hat Hhor Hrep Hobs. apply (silent_probes_elem _ _ _ _ _ _ _ Hl) in Hf as (e & entry & x & h & _ & _ & Hentry & _ & Hh & -> & Ho).
  cbn [finding_last_seen finding_of finding_interval finding_probe] in *. rewrite Hat in Ho. cbn in Ho. apply bool_decide_eq_true in Ho.
  pose proof (Hrep h Hh) as Hsome. rewrite (window_of h Hstd Hsome) in Ho.
  destruct (proj1 (horizons_from_spec _ _ _ _ Hhor probe_ids_nodup) entry Hentry) as (w & Hw & Hm).
  unfold silence_horizon, std_mul in Hh. case_match; [|done]. injection Hh as <-.
  unfold std_mul in Hw. case_match; [|done]. injection Hw as <-.
  assert (horizon_for (definition_id (effective (config_probes config) entry)) observer controller horizons fallback
          = window_duration (interval (effective (config_probes config) entry) * STALE_AFTER_INTERVALS)) as ->.
  { unfold horizon_for, effective. rewrite apply_schedule_id. fold (entry_id entry). rewrite Hm. cbn [default].
    destruct (bool_decide (is_Some observer) && bool_decide (observer = controller)) eqn:Hb; [|done].
    apply andb_true_iff in Hb as [Hb1%bool_decide_eq_true Hb2%bool_decide_eq_true]. destruct Hobs as [->|]; [by destruct Hb1|done]. }
  unfold SILENT_AFTER_INTERVALS, STALE_AFTER_INTERVALS in *. rewrite window_of; [lia|done|].
  eapply (proj2 Hstd); [|exact Hsome]. lia.
Qed.

(** ** Samples *)

(** Where only the controller observes, a host is looked at once a sweep, and its
    reports count as evidence for four of them; the audit asks for one every five
    minutes whatever the sweep is. *)
Definition sweeping : Config :=
  mk_config CONFIG_VERSION "lab" (mk_controller_config "0.0.0.0:7443" (std_secs 600) (std_secs 15) true) agent_default "db" 3 ∅ [] []
    discovery_default notification_default retention_default tls_default ∅.

Definition swept_host : ManagedEntity := managed_entity_new 0 "lab" Entity_Host "n1".
Definition swept_inventory : Inventory := insert_entity swept_host inventory_new.
Definition swept_reports : gmap (EntityId * string) Timestamp := {[ (entity_eid swept_host, NETWORK_PROBE) := 0%Z ]}.

Definition sweeper : EntityId := {| as_uuid := 7 |}.

Example the_audit_forgets_the_sweep :
  let age := Z.of_N (std_secs 400) in
  (map finding_probe <$> silent_probes swept_inventory sweeping {[ entity_eid swept_host ]} swept_reports age) = Some [NETWORK_PROBE]
  ∧ match freshness_horizons ∅ with
    | Some horizons => bool_decide (age ≤ horizon_for NETWORK_PROBE (Some sweeper) (Some sweeper) horizons
                                             (window_duration (std_secs 600 * STALE_AFTER_INTERVALS)%N))%Z
    | None => false
    end = true.
Proof. split; vm_compute; reflexivity. Qed.

Definition silent_for (age : N) : option (list Finding) :=
  silent_probes swept_inventory sweeping {[ entity_eid swept_host ]} swept_reports (Z.of_N (std_secs age)).

Lemma a_silent_probe_is_found_witness :
  ∃ l f, silent_for 400 = Some l ∧ f ∈ l ∧ lifecycle_state swept_host = Lifecycle_Active
    ∧ StronglySorted (key_le_on (λ f, (finding_probe f, finding_name f))) l.
Proof.
  destruct (silent_for 400) as [l|] eqn:Hl.
  - assert (match silent_for 400 with Some (f :: _) => true | _ => false end = true) as Hne by (vm_compute; reflexivity).
    rewrite Hl in Hne. destruct l as [|f l]; [discriminate Hne|]. exists (f :: l), f. split; [reflexivity|].
    split; [apply elem_of_cons; by left|]. split; [reflexivity|].
    exact (proj1 (a_silent_probe_is_found swept_inventory sweeping {[ entity_eid swept_host ]} swept_reports (Z.of_N (std_secs 400)) _ Hl)).
  - assert (match silent_for 400 with Some _ => true | None => false end = true) as Hs by (vm_compute; reflexivity).
    rewrite Hl in Hs. discriminate Hs.
Defined.

Lemma concrete_exact_from_std : exact_from_std.
Proof.
  split.
  - intros n d. cbn. case_decide; [by intros [= <-]|done].
  - intros n m Hle. cbn. destruct (decide (m ≤ _)%N); [|by intros []%is_Some_None]. intros _. rewrite decide_True by lia. by eexists.
Qed.

Lemma what_is_silent_is_no_evidence_witness :
  ∃ l f horizons, silent_for 400 = Some l ∧ f ∈ l ∧ freshness_horizons ∅ = Some horizons
    ∧ (horizon_for (finding_probe f) None (Some sweeper) horizons 0 < Z.of_N (std_secs 400) - 0)%Z.
Proof.
  destruct (silent_for 400) as [l|] eqn:Hl.
  2: { assert (match silent_for 400 with Some _ => true | None => false end = true) as Hs by (vm_compute; reflexivity).
       rewrite Hl in Hs. discriminate Hs. }
  destruct (freshness_horizons ∅) as [horizons|] eqn:Hh.
  2: { assert (match freshness_horizons ∅ with Some _ => true | None => false end = true) as Hs by (vm_compute; reflexivity).
       rewrite Hh in Hs. discriminate Hs. }
  assert (match silent_for 400 with
          | Some (f :: _) => bool_decide (finding_last_seen f = Some 0%Z) && (finding_interval f =? std_secs 5)%N
          | _ => false end = true) as Hf by (vm_compute; reflexivity).
  rewrite Hl in Hf. destruct l as [|f l]; [discriminate Hf|]. apply andb_true_iff in Hf as [Hseen%bool_decide_eq_true Hi%N.eqb_eq].
  assert (f ∈ f :: l) as Hin by (apply elem_of_cons; by left).
  exists (f :: l), f, horizons. split; [reflexivity|]. split; [exact Hin|]. split; [reflexivity|].
  apply (what_is_silent_is_no_evidence swept_inventory sweeping {[ entity_eid swept_host ]} swept_reports _ 0 (f :: l) f horizons 0
           None (Some sweeper) concrete_exact_from_std Hl Hin Hseen Hh); [|left; reflexivity].
  intros horizon. rewrite Hi. intros Hhor. assert (silence_horizon (std_secs 5) = Some (std_secs 300)) as Hv by (vm_compute; reflexivity).
  rewrite Hv in Hhor. injection Hhor as <-. exists (Z.of_N (std_secs 300)). vm_compute. reflexivity.
Defined.
