(* ===== verification/Status.v ===== *)
(** * What an operator is shown

    [src/cli/status_cmd.rs]: the report of an environment, made of the stored
    inventory, states, incidents and windows and of the audit of its probes,
    and its text. *)

From S2P Require Import Concrete.
From S2P Require Export SilentProbes.

Local Open Scope string_scope.

(** ** The report *)

Section status.
Context `{J : JsonApi} `{U : UuidApi} `{C : ChronoApi}.

(** [EntityStatus]. *)
Record EntityStatus := mk_entity_status {
  es_id : string;
  es_entity_type : string;
  es_name : string;
  es_display_name : string;
  es_health : string;
  es_classifications : list string;
  es_components : gmap string string;
  es_endpoint : option string;
  es_hardware : option json;
  es_agent_version : option string;
  es_lifecycle : string;
  es_capabilities : list string
}.

(** [IncidentSummary]. *)
Record IncidentSummary := mk_incident_summary {
  is_id : string;
  is_severity : string;
  is_status : string;
  is_summary : string;
  is_suspects : list string
}.

(** [StatusReport]. *)
Record StatusReport := mk_report {
  sr_environment : string;
  sr_entities : list EntityStatus;
  sr_incidents : list IncidentSummary;
  sr_silent_probes : option string;
  sr_agent_versions : gmap string nat;
  sr_maintenance : list string;
  sr_totals : gmap string nat
}.

(** The parts of [describe]. *)
Definition address_source (e : ManagedEntity) : string :=
  match (host ← json_get (entity_metadata e) "host"; l ← json_get host "addresses"; json_as_array l) with
  | Some (_ :: _) => "reported by its agent"
  | _ => "this entity's name — no address was registered, so it is resolved on every probe"
  end.

Definition described_endpoint (e : ManagedEntity) : option string :=
  (λ p, endpoint_address p +:+ " (" +:+ address_source e +:+ ")") <$> endpoint_for e.

Definition described_components (state : option EntityState) : gmap string string :=
  match state with
  | None => ∅
  | Some s => list_to_map (map (λ p, (component_as_str p.1, health_as_str (health p.2)))
                (filter (λ p, health p.2 ≠ NotApplicable) (btree_entries (components s))))
  end.

Definition overall_of (state : option EntityState) : Health := match state with Some s => overall s | None => Unknown end.

(** [describe]. *)
Definition describe (e : ManagedEntity) (state : option EntityState) : EntityStatus :=
  mk_entity_status (entity_id_to_string (entity_eid e)) (entity_type_as_str (entity_kind e)) (canonical_name e) (display_name e)
    (health_as_str (overall_of state))
    match state with Some s => classifications s | None => [] end
    (described_components state) (described_endpoint e)
    (v ← json_get (entity_metadata e) "hardware"; if json_is_null v then None else Some v)
    (a ← json_get (entity_metadata e) "agent"; v ← json_get a "version"; json_as_str v)
    (lifecycle_as_str (lifecycle_state e)) (btree_elements (entity_capabilities e)).

(** [type_order]. *)
Definition type_order (t : string) : N :=
  match entity_type_parse t with
  | Some Entity_Scheduler => 0
  | Some Entity_Storage => 1
  | Some Entity_Host => 2
  | Some Entity_Service => 3
  | Some Entity_ExternalDependency => 4
  | None => 5
  end.

(** [*map.entry(key).or_default() += 1]. *)
Definition count_key (m : gmap string nat) (key : string) : gmap string nat := <[ key := S (default 0 (m !! key)) ]> m.
Definition count_keys (keys : list string) : gmap string nat := foldl count_key ∅ keys.

(** [StatusReport::build]. *)
Definition status_build (environment : string) (inv : Inventory) (states : gmap EntityId EntityState) : StatusReport :=
  let es := sort_by_key (λ s, (type_order (es_entity_type s), es_name s))
              (map (λ e, describe e (states !! entity_eid e)) (entities inv)) in
  mk_report environment es [] None (count_keys (omap es_agent_version es)) [] (count_keys (map es_health es)).

(** [with_silent_probes], [with_maintenance], [with_incidents]. *)
Definition with_silent_probes (r : StatusReport) (summary : option string) : StatusReport :=
  mk_report (sr_environment r) (sr_entities r) (sr_incidents r) summary (sr_agent_versions r) (sr_maintenance r) (sr_totals r).

Definition name_in (inv : Inventory) (id : EntityId) : string :=
  match get inv id with Some e => canonical_name e | None => entity_id_to_string id end.

Definition with_maintenance (r : StatusReport) (windows : list MaintenanceWindow) (inv : Inventory) (now : Timestamp) : StatusReport :=
  let covered w := match window_entity w with
                   | Some id => name_in inv id
                   | None => "(all of " +:+ sr_environment r +:+ ")"
                   end in
  mk_report (sr_environment r) (sr_entities r) (sr_incidents r) (sr_silent_probes r) (sr_agent_versions r)
    (map covered (filter (λ w, is_active_at w now = true) windows)) (sr_totals r).

Definition summarised (inv : Inventory) (i : Incident) : IncidentSummary :=
  mk_incident_summary (uuid_to_string (incident_id i)) (severity_as_str (incident_severity i)) (incident_status_as_str (incident_status i))
    match primary_diagnosis i with Some d => diagnosis_summary d | None => incident_fingerprint i end
    (map (name_in inv) (incident_roots i)).

Definition with_incidents (r : StatusReport) (is_ : list Incident) (inv : Inventory) : StatusReport :=
  mk_report (sr_environment r) (sr_entities r) (map (summarised inv) (filter (λ i, status_is_active (incident_status i) = true) is_))
    (sr_silent_probes r) (sr_agent_versions r) (sr_maintenance r) (sr_totals r).

(** [problems], [is_healthy], and the exit code of [sentinel status]
    ([src/cli/run_cmd.rs]). *)
Definition problem_status (s : EntityStatus) : bool :=
  match health_parse (es_health s) with Some h => is_problem h | None => false end.
Definition problems (r : StatusReport) : list EntityStatus := filter (λ s, problem_status s = true) (sr_entities r).
Definition report_is_healthy (r : StatusReport) : bool :=
  bool_decide (problems r = []) && bool_decide (length (sr_incidents r) = 0).
Definition status_code (r : StatusReport) : N := if report_is_healthy r then 0 else 2.

(** [load_report_with], on what the store holds; [None] is a panic of the
    audit. *)
Definition load_report (environment : string) (inv : Inventory) (states : gmap EntityId EntityState) (is_ : list Incident)
    (windows : list MaintenanceWindow) (config : option Config) (last_seen : gmap (EntityId * string) Timestamp) (now : Timestamp) :
    option StatusReport :=
  silent ← match config with
           | None => Some None
           | Some config =>
               observed ← observed_entities inv config;
               found ← silent_probes inv config observed last_seen now;
               Some (audit_summary found)
           end;
  Some (with_silent_probes (with_maintenance (with_incidents (status_build environment inv states) is_ inv) windows inv now) silent).

(** ** Its text *)

(** [str::repeat], and padding to a width in characters. *)
Fixpoint str_repeat (s : string) (n : nat) : string := match n with O => "" | S n => s +:+ str_repeat s n end.
Definition pad_right (width : nat) (s : string) : string := s +:+ str_repeat " " (width - count_chars s).

Definition newline : string := String "010" "".
Definition rule_line (n : nat) : string := str_repeat "─" n +:+ newline.

(** [to_uppercase] of a name of the program's own. *)
Definition upper (s : string) : string := to_ascii_uppercase s.

(** [heading]. *)
Definition heading (t : string) : string :=
  match entity_type_parse t with
  | Some Entity_Scheduler => "Schedulers"
  | Some Entity_Storage => "Storage"
  | Some Entity_Host => "Hosts"
  | Some Entity_Service => "Services"
  | Some Entity_ExternalDependency => "External dependencies"
  | None => t
  end.

(** [render_incidents]. *)
Definition render_incident (i : IncidentSummary) : string :=
  upper (is_severity i) +:+ " [" +:+ is_status i +:+ "]  " +:+ is_summary i +:+ newline
  +:+ (match is_suspects i with [] => "" | l => "  suspected cause: " +:+ str_join ", " l +:+ newline end)
  +:+ "  sentinel incident show " +:+ is_id i +:+ newline.

Definition render_incidents (l : list IncidentSummary) : string :=
  match l with
  | [] => ""
  | _ => newline +:+ "Open incidents" +:+ newline +:+ rule_line 60 +:+ str_join "" (map render_incident l)
  end.

(** The line of an entity, and the loop that puts a heading where the type
    changes. *)
Definition name_width (l : list EntityStatus) : nat :=
  match map (λ s, String.length (es_name s)) l with
  | [] => 12
  | ns => Nat.min 32 (Nat.max 12 (foldr Nat.max 0 ns))
  end.

Definition render_line (width : nat) (s : EntityStatus) : string :=
  pad_right width (es_name s) +:+ "  " +:+ upper (es_health s)
  +:+ (match es_classifications s with [] => "" | l => "  [" +:+ str_join ", " l +:+ "]" end)
  +:+ (if String.eqb (es_lifecycle s) (lifecycle_as_str Lifecycle_Active) then "" else "  (" +:+ es_lifecycle s +:+ ")")
  +:+ newline.

Fixpoint render_lines (width : nat) (current : string) (l : list EntityStatus) : string :=
  match l with
  | [] => ""
  | s :: l =>
      (if String.eqb (es_entity_type s) current then "" else newline +:+ heading (es_entity_type s) +:+ newline +:+ rule_line 60)
      +:+ render_line width s +:+ render_lines width (es_entity_type s) l
  end.

Definition counted (f : string → nat → string) (m : gmap string nat) : string :=
  str_join ", " (map (λ p, f p.1 p.2) (btree_entries m)).

(** [render]; [empty_board] is what an empty board says. *)
Definition empty_board : string :=
  str_join "" (map (λ l, newline +:+ l)
    ["No entities known yet."; ""; "Two things put entities here:"; "";
     "  * Slurm discovery. Check that the configuration has"; "      [discovery.slurm]"; "      enabled = true";
     "    then run: sentinel discover"; "";
     "  * Agents registering. Deploy them (docs/DEPLOYMENT.md section 6),";
     "    or declare hosts that will not run one with [[entities]]."; ""]).

Definition render (r : StatusReport) : string :=
  "ENVIRONMENT: " +:+ sr_environment r +:+ newline
  +:+ match sr_entities r with
      | [] => empty_board
      | es =>
          render_incidents (sr_incidents r)
          +:+ render_lines (name_width es) "" es
          +:+ newline +:+ counted (λ health n, show_N (N.of_nat n) +:+ " " +:+ health) (sr_totals r) +:+ newline
          +:+ (if (1 <? size (sr_agent_versions r))%nat
               then newline +:+ "agent versions differ: "
                    +:+ counted (λ version n, version +:+ " (" +:+ show_N (N.of_nat n) +:+ ")") (sr_agent_versions r) +:+ newline
               else "")
          +:+ (match sr_maintenance r with
               | [] => ""
               | l => newline +:+ "⚠ notifications suppressed by maintenance: " +:+ str_join ", " l +:+ newline
                      +:+ "  probing and diagnosis continue; end it with: sentinel maintenance end <id>" +:+ newline
               end)
          +:+ (match sr_silent_probes r with Some s => newline +:+ "⚠ " +:+ s +:+ newline | None => "" end)
      end.

(** [render_entity]; [show_json] is [serde_json]'s [Display]. *)
Definition render_hardware (show_json : json → string) (v : json) : string :=
  match json_as_object v with
  | Some fields =>
      str_join "" (map (λ p, p.1 +:+ ": " +:+ (if json_is_null p.2 then "(not stated)" else show_json p.2) +:+ newline) (btree_entries fields))
  | None => show_json v +:+ newline
  end.

Definition section_of (title body : string) : string := newline +:+ title +:+ ":" +:+ newline +:+ body.

Definition render_entity (show_json : json → string) (s : EntityStatus) : string :=
  "Entity:" +:+ newline +:+ es_entity_type s +:+ "(" +:+ es_name s +:+ ")" +:+ newline +:+ newline
  +:+ (if String.eqb (es_display_name s) (es_name s) then "" else "Display name:" +:+ newline +:+ es_display_name s +:+ newline +:+ newline)
  +:+ "Capabilities:" +:+ newline
  +:+ (match es_capabilities s with [] => "(none)" +:+ newline | l => str_join "" (map (λ c, c +:+ newline) l) end)
  +:+ (match es_agent_version s with Some v => section_of "Agent" (v +:+ newline) | None => "" end)
  +:+ (match es_hardware s with Some v => section_of "Reported hardware" (render_hardware show_json v) | None => "" end)
  +:+ section_of "Probed at" (default "(nowhere — no address and no usable name)" (es_endpoint s) +:+ newline)
  +:+ section_of "Overall" (upper (es_health s) +:+ newline)
  +:+ (match es_classifications s with [] => "" | l => section_of "Classification" (str_join newline l +:+ newline) end)
  +:+ (if decide (es_components s = ∅) then ""
       else section_of "Components" (str_join "" (map (λ p, pad_right 14 p.1 +:+ " " +:+ upper p.2 +:+ newline) (btree_entries (es_components s)))))
  +:+ newline +:+ "How these are decided and what each probe runs:" +:+ newline +:+ "  sentinel explain capabilities" +:+ newline
  +:+ "  sentinel explain paths" +:+ newline
  +:+ section_of "Lifecycle" (es_lifecycle s +:+ newline)
  +:+ section_of "ID" (es_id s +:+ newline).
End status.

(** ** Properties *)

Lemma foldl_count_key l (m : gmap string nat) k :
  default 0 (foldl count_key m l !! k) = default 0 (m !! k) + length (filter (λ x, x = k) l).
Proof.
  revert m. induction l as [|x l IH]; intros m; cbn [foldl]; [cbn; lia|]. rewrite IH. unfold count_key. rewrite filter_cons.
  destruct (decide (x = k)) as [->|Hne]; [rewrite lookup_insert_eq; cbn; lia|by rewrite lookup_insert_ne].
Qed.

Lemma count_keys_spec l k : default 0 (count_keys l !! k) = length (filter (λ x, x = k) l).
Proof. unfold count_keys. rewrite foldl_count_key, lookup_empty. done. Qed.

Lemma length_filter_map {A} (f : A → string) (l : list A) k :
  length (filter (λ x, x = k) (map f l)) = length (filter (λ x, f x = k) l).
Proof.
  induction l as [|x l IH]; [done|]. cbn [map]. rewrite !filter_cons. destruct (decide (f x = k)); cbn; by rewrite IH.
Qed.

Section status_spec.
Context `{J : JsonApi} `{U : UuidApi} `{C : ChronoApi}.

(** The report of an environment's entities. *)
Lemma status_build_entities environment inv states :
  sr_entities (status_build environment inv states) ≡ₚ map (λ e, describe e (states !! entity_eid e)) (entities inv).
Proof. cbn [status_build sr_entities]. apply sort_by_key_perm. Qed.

Lemma problem_describe e (state : option EntityState) : problem_status (describe e state) = is_problem (overall_of state).
Proof. unfold problem_status. cbn [describe es_health]. by destruct (overall_of state). Qed.

Lemma no_problems environment inv (states : gmap EntityId EntityState) :
  problems (status_build environment inv states) = [] ↔ ∀ e, e ∈ entities inv → is_problem (overall_of (states !! entity_eid e)) = false.
Proof.
  unfold problems. split.
  - intros Hnil e He. destruct (is_problem _) eqn:Hp; [|done]. exfalso.
    assert (describe e (states !! entity_eid e) ∈ filter (λ s, problem_status s = true) (sr_entities (status_build environment inv states))) as Hin.
    { apply list_elem_of_filter. rewrite problem_describe. split; [done|]. rewrite status_build_entities. apply list_elem_of_fmap. by exists e. }
    rewrite Hnil in Hin. by apply elem_of_nil in Hin.
  - intros Hall. apply filter_none. intros s Hs. rewrite status_build_entities in Hs. apply list_elem_of_fmap in Hs as (e & -> & He).
    by rewrite problem_describe, Hall.
Qed.
End status_spec.

(** Every entity is on the board, once and in its place: the report lists
    exactly the inventory, schedulers, storage, hosts and services in this order
    and each by name, with the health its state has, or unknown where there is
    no state, and its totals count every health as often as it is listed. *)
Theorem every_entity_is_on_the_board `{JsonApi} `{UuidApi} (environment : string) (inv : Inventory) (states : gmap EntityId EntityState) :
  let r := status_build environment inv states in
  sr_entities r ≡ₚ map (λ e, describe e (states !! entity_eid e)) (entities inv)
  ∧ StronglySorted (key_le_on (λ s, (type_order (es_entity_type s), es_name s))) (sr_entities r)
  ∧ (∀ health, default 0 (sr_totals r !! health) = length (filter (λ s, es_health s = health) (sr_entities r)))
  ∧ ∀ version, default 0 (sr_agent_versions r !! version)
               = length (filter (λ v, v = version) (omap es_agent_version (sr_entities r))).
Proof.
  cbn zeta. split_and!.
  - apply status_build_entities.
  - apply sort_by_key_sorted.
  - intros health. cbn [status_build sr_totals sr_entities]. by rewrite count_keys_spec, length_filter_map.
  - intros version. cbn [status_build sr_agent_versions sr_entities]. by rewrite count_keys_spec.
Qed.

(** C25.  Zero means nothing is known to be wrong: [sentinel status] exits with zero
    exactly when no entity is degraded or unavailable and no incident is open;
    every window that holds notifications back now is named; and with a
    configuration the line about silent probes is left out exactly when the audit
    finds none. *)
Theorem zero_means_nothing_is_wrong `{JsonApi} `{UuidApi} `{ChronoApi} (environment : string) (inv : Inventory)
    (states : gmap EntityId EntityState) (is_ : list Incident) (windows : list MaintenanceWindow) (config : option Config)
    (last_seen : gmap (EntityId * string) Timestamp) (now : Timestamp) (r : StatusReport) :
  load_report environment inv states is_ windows config last_seen now = Some r →
  (status_code r = 0%N ↔ (∀ e, e ∈ entities inv → is_problem (overall_of (states !! entity_eid e)) = false)
                         ∧ ∀ i, i ∈ is_ → status_is_active (incident_status i) = false)
  ∧ (∀ w, w ∈ windows → is_active_at w now = true →
       (match window_entity w with Some id => name_in inv id | None => "(all of " +:+ environment +:+ ")" end) ∈ sr_maintenance r)
  ∧ ∀ c, config = Some c → sr_silent_probes r = None ↔
       ∃ observed, observed_entities inv c = Some observed ∧ silent_probes inv c observed last_seen now = Some [].
Proof.
  unfold load_report. intros Hl. split_and!.
  - assert (sr_entities r = sr_entities (status_build environment inv states)
            ∧ sr_incidents r = map (summarised inv) (filter (λ i, status_is_active (incident_status i) = true) is_)) as [He Hi].
    { revert Hl. destruct (match config with Some _ => _ | None => _ end) as [silent|]; [|done]. by intros [= <-]. }
    unfold status_code, report_is_healthy, problems. rewrite He, Hi, length_map. fold (problems (status_build environment inv states)).
    rewrite <- (no_problems environment).
    assert (length (filter (λ i, status_is_active (incident_status i) = true) is_) = 0
            ↔ ∀ i, i ∈ is_ → status_is_active (incident_status i) = false) as Hlen.
    { split.
      - intros Hz i Hin. destruct (status_is_active _) eqn:Ha; [|done]. apply length_zero_iff_nil in Hz.
        assert (i ∈ filter (λ i, status_is_active (incident_status i) = true) is_) as Hf by (by apply list_elem_of_filter).
        rewrite Hz in Hf. by apply elem_of_nil in Hf.
      - intros Hall. rewrite filter_none; [done|]. intros i Hin. by rewrite Hall. }
    rewrite <- Hlen. repeat case_bool_decide; cbn [andb]; split; try done; try tauto; by intros [].
  - intros w Hw Ha. assert (sr_maintenance r
      = map (λ w, match window_entity w with Some id => name_in inv id | None => "(all of " +:+ environment +:+ ")" end)
          (filter (λ w, is_active_at w now = true) windows)) as ->.
    { revert Hl. destruct (match config with Some _ => _ | None => _ end) as [silent|]; [|done]. by intros [= <-]. }
    apply list_elem_of_fmap. exists w. split; [done|]. by apply list_elem_of_filter.
  - intros c ->. destruct (observed_entities inv c) as [observed|]; cbn [mbind option_bind] in Hl; [|done].
    destruct (silent_probes inv c observed last_seen now) as [found|] eqn:Hfound; cbn [mbind option_bind] in Hl; [|done].
    injection Hl as <-. cbn [with_silent_probes sr_silent_probes]. split.
    + intros Hs. exists observed. split; [done|]. rewrite Hfound. by destruct found.
    + intros (o & [= <-] & Hs). rewrite Hfound in Hs. by injection Hs as ->.
Qed.

(** ** Samples *)

(** An address from the configuration is shown as the entity's name. *)
Example configured_address_is_shown_as_a_name :
  let e := with_metadata (json_object [("addresses", json_strings ["192.0.2.20"])]) swept_host in
  match described_endpoint e with
  | Some text => starts_with "192.0.2.20 (this entity's name" text
  | None => false
  end = true.
Proof. vm_compute. reflexivity. Qed.

Lemma zero_means_nothing_is_wrong_witness :
  ∃ r, load_report "lab" swept_inventory ∅ [] [] None ∅ 0 = Some r ∧ status_code r = 0%N.
Proof.
  eexists. split; [reflexivity|]. apply (zero_means_nothing_is_wrong "lab" swept_inventory ∅ [] [] None ∅ 0 _ eq_refl).
  split; [|intros i Hi; by apply elem_of_nil in Hi]. intros e _. rewrite lookup_empty. reflexivity.
Defined.
