(* ===== verification/Operator.v ===== *)
(** * What an operator declares and audits

    [src/cli/maintenance_cmd.rs]: declaring, listing and ending planned work on
    the tables of [IncidentStore]; [src/cli/audit_cmd.rs]: the report of silent
    probes and of windows nobody closed.  The clock, the random identifier, the
    reading of a duration and the name of the user are arguments. *)

From S2P Require Import Concrete.
From S2P Require Export Status Controller.

Local Open Scope string_scope.

(** How a command ends: with an exit code, with an error that is printed, or in
    a panic. *)
Inductive CommandEnd := Exit (code : N) | Command_error | Command_panic.

#[export] Instance CommandEnd_eq_dec : EqDecision CommandEnd.
Proof. solve_decision. Defined.

Section maintenance.
Context `{J : JsonApi} `{U : UuidApi} `{T : TimeApi} `{CH : ChronoApi} `{HI : HashIter}.
(** [humantime::parse_duration]. *)
Context (humantime_parse : string → option StdDuration).

(** [matches_target]. *)
Definition matches_target (query : string) (e : ManagedEntity) : bool :=
  String.eqb (entity_id_to_string (entity_eid e)) query
  || match split_once "/" query with
     | Some (kind, name) => String.eqb (entity_type_as_str (entity_kind e)) kind && String.eqb (canonical_name e) name
     | None => String.eqb (canonical_name e) query
     end.

(** [declaring_user], from [SUDO_USER] and [USER]. *)
Definition declaring_user (sudo_user user : option string) : option string :=
  name ← (match sudo_user with Some n => Some n | None => user end);
  if String.eqb name "" then None else Some name.

(** What a window is declared for: [inl] is the exit of a name that is nobody's
    or several entities'. *)
Definition declared_window (id : Uuid) (made : Timestamp) (target : option string) (reason : string) (inv : Inventory) :
    CommandEnd + MaintenanceWindow :=
  match target with
  | None => inr (window_for_environment id made reason)
  | Some name =>
      match filter (λ e, matches_target name e = true) (entities inv) with
      | [one] => inr (window_for_entity id made (entity_eid one) reason)
      | _ => inl (Exit 1)
      end
  end.

(** [--for]; [DateTime + TimeDelta] is [DateTime - TimeDelta] of its opposite. *)
Definition until_given (now : Timestamp) (duration : option string) (w : MaintenanceWindow) : CommandEnd + MaintenanceWindow :=
  match duration with
  | None => inr w
  | Some text =>
      match humantime_parse text ≫= delta_from_std with
      | None => inl Command_error
      | Some delta => match datetime_sub now (- delta) with
                      | Some at_ => inr (window_until w at_)
                      | None => inl Command_panic
                      end
      end
  end.

Definition by_given (actor : option string) (w : MaintenanceWindow) : MaintenanceWindow :=
  match actor with Some a => window_by w a | None => w end.

(** [start]: [made] and [now] are its readings of the clock. *)
Definition start_command (id : Uuid) (made now : Timestamp) (environment : string) (target : option string) (reason : string)
    (duration actor : option string) (inv : InventoryTables) (t : IncidentTables) : IncidentTables * CommandEnd :=
  let known := match target with Some _ => load_inventory environment inv | None => inr inventory_new end in
  match known with
  | inl _ => (t, Command_error)
  | inr inventory =>
      match sum_bind (until_given now duration) (declared_window id made target reason inventory) with
      | inl e => (t, e)
      | inr w =>
          match save_maintenance_window inv environment (by_given actor w) t with
          | inl _ => (t, Command_error)
          | inr t => (t, Exit 0)
          end
      end
  end.

(** [list]: the windows that are shown, and the columns of each. *)
Definition listed_windows (all : bool) (now : Timestamp) (environment : string) (t : IncidentTables) : list MaintenanceWindow :=
  filter (λ w, all || is_active_at w now = true) (load_maintenance_windows environment t).

Definition window_name (environment : string) (inv : Inventory) (w : MaintenanceWindow) : string :=
  match window_entity w with
  | Some id => match get inv id with
               | Some e => entity_type_as_str (entity_kind e) +:+ "/" +:+ canonical_name e
               | None => entity_id_to_string id
               end
  | None => "(all of " +:+ environment +:+ ")"
  end.

Definition until_text (w : MaintenanceWindow) : string := match ends_at w with Some at_ => rfc3339_micros at_ | None => "open-ended" end.

Definition list_text (all : bool) (now : Timestamp) (environment : string) (inv : Inventory) (t : IncidentTables) : string :=
  match listed_windows all now environment t with
  | [] =>
      "No " +:+ (if all then "" else "active ") +:+ "maintenance windows." +:+ newline
      +:+ match all, load_maintenance_windows environment t with
          | false, (_ :: _) as ws => newline +:+ show_N (N.of_nat (length ws)) +:+ " past one(s); --all to see them." +:+ newline
          | _, _ => ""
          end
  | shown =>
      pad_right 38 "ID" +:+ " " +:+ pad_right 24 "UNDER MAINTENANCE" +:+ " UNTIL" +:+ newline
      +:+ str_join "" (map (λ w,
            pad_right 38 (uuid_to_string (window_id w)) +:+ " " +:+ pad_right 24 (window_name environment inv w) +:+ " "
            +:+ until_text w +:+ newline +:+ pad_right 38 "" +:+ " " +:+ window_reason w +:+ newline) shown)
  end.

(** [end]: a prefix of the identifier is enough when it is that of one active
    window. *)
Definition matching_windows (prefix : string) (at_ : Timestamp) (environment : string) (t : IncidentTables) : list MaintenanceWindow :=
  filter (λ w, starts_with prefix (uuid_to_string (window_id w)) && is_active_at w at_ = true) (load_maintenance_windows environment t).

Definition end_command (prefix : string) (at_ : Timestamp) (environment : string) (t : IncidentTables) : IncidentTables * CommandEnd :=
  match matching_windows prefix at_ environment t with
  | [one] => ((end_maintenance_window (window_id one) at_ t).1, Exit 0)
  | _ => (t, Exit 1)
  end.
End maintenance.

(** ** The audit *)

Section audit_command.
Context `{J : JsonApi} `{U : UuidApi} `{T : TimeApi} `{CH : ChronoApi} `{HI : HashIter}.

Definition STALE_MAINTENANCE_HOURS : Z := 24.

(** [forgotten_maintenance]; [None] is the panic of the subtraction. *)
Definition forgotten_maintenance (windows : list MaintenanceWindow) (now : Timestamp) : option (list MaintenanceWindow) :=
  cutoff ← datetime_sub now (hours STALE_MAINTENANCE_HOURS);
  Some (filter (λ w, is_active_at w now && negb (given (ends_at w)) && (starts_at w <? cutoff)%Z = true) windows).

(** What the audit calls the subject of a window. *)
Definition forgotten_name (environment : string) (inv : Inventory) (w : MaintenanceWindow) : string :=
  match window_entity w with Some id => name_in inv id | None => "(all of " +:+ environment +:+ ")" end.

(** [render_maintenance]. *)
Definition render_window (what : string) (w : MaintenanceWindow) : string :=
  "  " +:+ what +:+ newline +:+ "    reason  " +:+ window_reason w +:+ newline
  +:+ "    since   " +:+ rfc3339_micros (starts_at w) +:+ (match created_by w with Some who => " by " +:+ who | None => "" end) +:+ newline
  +:+ "    end it  sentinel maintenance end " +:+ uuid_to_string (window_id w) +:+ newline.

Definition render_maintenance (environment : string) (inv : Inventory) (forgotten : list MaintenanceWindow) : string :=
  match forgotten with
  | [] => ""
  | _ =>
      newline +:+ "MAINTENANCE STILL SUPPRESSING NOTIFICATIONS" +:+ newline +:+ rule_line 100
      +:+ newline +:+ "Declared more than 24h ago with no end time. Until each is ended," +:+ newline
      +:+ "         faults affecting it are diagnosed and recorded but never announced." +:+ newline +:+ newline
      +:+ str_join "" (map (λ w, render_window (forgotten_name environment inv w) w) forgotten)
  end.

(** [render]: the heading of a probe, where its findings begin. *)
Definition shown_duration (d : StdDuration) : string := humantime_format (Z.of_N d).

Definition probe_heading (all : list Finding) (f : Finding) : string :=
  let same := filter (λ g, finding_probe g = finding_probe f) all in
  let never := length (filter (λ g, never_observed g = true) same) in
  newline +:+ finding_probe f +:+ newline
  +:+ "  expected     every " +:+ shown_duration (finding_interval f) +:+ ", run " +:+ expectation_as_str (finding_expectation f) +:+ newline
  +:+ "  quiet on     " +:+ show_N (N.of_nat (length same)) +:+ " entit" +:+ (if (length same =? 1)%nat then "y" else "ies") +:+ newline
  +:+ (if (never =? length same)%nat then "  **never observed anywhere it applies — most likely nothing runs it**" +:+ newline
       else if (0 <? never)%nat then "  never ran on " +:+ show_N (N.of_nat never) +:+ " of them" +:+ newline else "")
  +:+ "  reported if  nothing arrives for "
  +:+ (match silence_horizon (finding_interval f) with Some h => shown_duration h | None => "" end) +:+ newline.

Definition finding_line (f : Finding) : string :=
  "    " +:+ pad_right 24 (finding_name f) +:+ " "
  +:+ (match finding_last_seen f with Some at_ => "last " +:+ rfc3339_micros at_ | None => "never" end) +:+ newline.

Fixpoint finding_lines (all : list Finding) (current : string) (l : list Finding) : string :=
  match l with
  | [] => ""
  | f :: l =>
      (if String.eqb (finding_probe f) current then "" else probe_heading all f) +:+ finding_line f
      +:+ finding_lines all (finding_probe f) l
  end.

Definition lines_of (l : list string) : string := str_join "" (map (λ s, s +:+ newline) l).

Definition render_audit (findings : list Finding) : string :=
  "PROBE AUDIT — what should be reporting and is not" +:+ newline +:+ rule_line 100
  +:+ match findings with
      | [] => lines_of [""; "Every probe that applies to an entity has reported within its own";
                        "schedule. Nothing is silently switched off."]
      | _ =>
          lines_of [""; "A probe listed here is enabled, applies to the entity, and something is";
                    "supposed to be running it. Silence is not a passing result: a probe that";
                    "never runs produces no observation, so nothing fails and nothing is";
                    "diagnosed, and the entity reads healthy because nothing ever said"; "otherwise."]
          +:+ finding_lines findings "" findings
          +:+ lines_of [""; "What to check, in order:";
                        "  sentinel entity show <name>      the capability that gates it is in force?";
                        "  sentinel explain probes          what it would run, and how often";
                        "  sentinel doctor                  on that host: why it decided what it did"]
      end.

(** [audit]: its text and its exit code; [None] is a panic, a horizon past the
    range of a duration being that of the audit itself. *)
Definition audit_command (environment : string) (inv : Inventory) (config : Config) (last_seen : gmap (EntityId * string) Timestamp)
    (windows : list MaintenanceWindow) (now : Timestamp) : option (string * N) :=
  observed ← observed_entities inv config;
  findings ← silent_probes inv config observed last_seen now;
  forgotten ← forgotten_maintenance windows now;
  Some (render_audit findings +:+ render_maintenance environment inv forgotten,
        if bool_decide (findings = []) && bool_decide (length forgotten = 0%nat) then 0%N else 2%N).
End audit_command.

(** ** What the commands bring about *)

Section declared.
Context `{J : JsonApi} `{U : UuidApi} `{T : TimeApi} `{CH : ChronoApi} `{HI : HashIter}.

Lemma to_micros_le t : (to_micros t ≤ t)%Z.
Proof. unfold to_micros. pose proof (Z.mul_div_le t 1000). lia. Qed.

Lemma elem_of_loaded_windows environment t w :
  w ∈ load_maintenance_windows environment t
  ↔ ∃ id, it_windows t !! id = Some (mk_stored_window environment w).
Proof.
  unfold load_maintenance_windows. rewrite list_elem_of_fmap. setoid_rewrite elem_of_reverse. setoid_rewrite elem_of_sort_by_key.
  setoid_rewrite list_elem_of_filter. split.
  - intros ([id [env' w']] & -> & <- & Hin). apply elem_of_hash_iter in Hin. by exists id.
  - intros [id Hid]. exists (id, mk_stored_window environment w). split; [done|]. split; [done|]. by apply elem_of_hash_iter.
Qed.

(** The subject of a declared window, and when it ends. *)
Definition names_one (environment : string) (inv : InventoryTables) (target : option string) (subject : option EntityId) : Prop :=
  match target with
  | None => subject = None
  | Some name => ∃ inventory e, load_inventory environment inv = inr inventory
                   ∧ filter (λ e, matches_target name e = true) (entities inventory) = [e] ∧ subject = Some (entity_eid e)
  end.

Definition ends_as_given (humantime_parse : string → option StdDuration) (now : Timestamp) (duration : option string)
    (end_ : option Timestamp) : Prop :=
  match duration with
  | None => end_ = None
  | Some text => ∃ d delta at_, humantime_parse text = Some d ∧ delta_from_std d = Some delta
                   ∧ datetime_sub now (- delta) = Some at_ ∧ end_ = Some (to_micros at_)
  end.

Lemma declared_window_spec id made target reason inventory w :
  declared_window id made target reason inventory = inr w →
  window_id w = id ∧ starts_at w = made ∧ window_reason w = reason ∧ ends_at w = None ∧ created_by w = None
  ∧ match target with
    | None => window_entity w = None
    | Some name => ∃ e, filter (λ e, matches_target name e = true) (entities inventory) = [e] ∧ window_entity w = Some (entity_eid e)
    end.
Proof.
  unfold declared_window. destruct target as [name|]; [|by intros [= <-]].
  destruct (filter _ _) as [|e [|]]; [done| |done]. intros [= <-]. split_and!; try done. by exists e.
Qed.

Lemma until_given_spec humantime_parse now duration w w' :
  until_given humantime_parse now duration w = inr w' → ends_at w = None →
  window_id w' = window_id w ∧ starts_at w' = starts_at w ∧ window_reason w' = window_reason w ∧ window_entity w' = window_entity w
  ∧ created_by w' = created_by w ∧ ends_as_given humantime_parse now duration (to_micros <$> ends_at w').
Proof.
  unfold until_given, ends_as_given. destruct duration as [text|]; [|intros [= <-] ->; by split_and!].
  destruct (humantime_parse text) as [d|]; [|done]. cbn [mbind option_bind]. destruct (delta_from_std d) as [delta|] eqn:Hd; [|done].
  destruct (datetime_sub now (- delta)) as [at_|] eqn:Ha; [|done]. intros [= <-] _. split_and!; try done. by exists d, delta, at_.
Qed.

Lemma declared_window_end id made target reason inventory e :
  declared_window id made target reason inventory = inl e → e = Exit 1.
Proof. unfold declared_window. intros Hd. repeat case_match; by simplify_eq. Qed.

Lemma until_given_end humantime_parse now duration w e : until_given humantime_parse now duration w = inl e → e ≠ Exit 0.
Proof. unfold until_given. intros Hd. repeat case_match; by simplify_eq. Qed.

Lemma by_given_same actor w :
  window_id (by_given actor w) = window_id w ∧ starts_at (by_given actor w) = starts_at w ∧ ends_at (by_given actor w) = ends_at w
  ∧ window_reason (by_given actor w) = window_reason w ∧ window_entity (by_given actor w) = window_entity w
  ∧ (created_by w = None → created_by (by_given actor w) = actor).
Proof. destruct actor; by split_and!. Qed.

(** A row in force holds back whatever is about its subject alone. *)
Lemma row_in_force_is_quiet environment t id w at_ n u i :
  it_windows t !! id = Some (mk_stored_window environment w) → is_active_at w at_ = true →
  find (λ i, String.eqb (uuid_to_string (incident_id i)) (notif_incident_id n)) (update_all u) = Some i →
  incident_affected i ≠ [] → (∀ e, e ∈ incident_affected i → covers w e = true) →
  is_under_maintenance at_ n u (active_maintenance (Some (load_maintenance_windows environment t))) = true.
Proof.
  intros Hrow Hact Hi Hne Hcov. unfold is_under_maintenance. rewrite Hi. apply suppresses_all_spec. split; [done|]. intros e He.
  unfold suppresses. apply existsb_exists. exists w. split.
  - apply list_elem_of_In. apply elem_of_loaded_windows. by exists id.
  - by rewrite Hact, (Hcov e He).
Qed.

(** Every row of the windows is under its own identifier. *)
Definition windows_filed (t : IncidentTables) : Prop := map_Forall (λ id r, window_id (sw_window r) = id) (it_windows t).

Lemma save_keeps_windows_filed inv environment w t t' :
  windows_filed t → save_maintenance_window inv environment w t = inr t' → windows_filed t'.
Proof.
  unfold save_maintenance_window. intros Ht Hs. repeat case_match; simplify_eq; by apply map_Forall_insert_2.
Qed.

Lemma end_keeps_windows_filed id at_ t : windows_filed t → windows_filed (end_maintenance_window id at_ t).1.
Proof.
  unfold end_maintenance_window. intros Ht. destruct (it_windows t !! id) as [r|] eqn:Hr; [|done].
  apply map_Forall_insert_2; [exact (Ht id r Hr)|done].
Qed.

Lemma NoDup_loaded_windows environment t : windows_filed t → NoDup (load_maintenance_windows environment t).
Proof.
  intros Ht. unfold load_maintenance_windows. apply NoDup_fmap_2_strong.
  - intros [i r] [j s] Hi Hj Heq. rewrite elem_of_reverse, elem_of_sort_by_key in Hi, Hj.
    apply list_elem_of_filter in Hi as [Hi1 Hi2], Hj as [Hj1 Hj2]. apply elem_of_hash_iter in Hi2, Hj2. cbn in *. pose proof (Ht _ _ Hi2). pose proof (Ht _ _ Hj2). destruct r, s. cbn in *. by subst.
  - rewrite reverse_Permutation, sort_by_key_perm. apply NoDup_filter. eapply NoDup_fmap_1, NoDup_hash_keys.
Qed.

(** [w] is the one window of the environment in force that has the prefix. *)
Definition in_question (prefix : string) (at_ : Timestamp) (environment : string) (t : IncidentTables) (w : MaintenanceWindow) : Prop :=
  (∃ id, it_windows t !! id = Some (mk_stored_window environment w))
  ∧ starts_with prefix (uuid_to_string (window_id w)) = true ∧ is_active_at w at_ = true.

Definition the_one (prefix : string) (at_ : Timestamp) (environment : string) (t : IncidentTables) (w : MaintenanceWindow) : Prop :=
  in_question prefix at_ environment t w ∧ ∀ w', in_question prefix at_ environment t w' → w' = w.

Lemma elem_of_matching_windows prefix at_ environment t w :
  w ∈ matching_windows prefix at_ environment t ↔ in_question prefix at_ environment t w.
Proof.
  unfold matching_windows, in_question. rewrite list_elem_of_filter, elem_of_loaded_windows, andb_true_iff. tauto.
Qed.

Lemma matching_windows_one prefix at_ environment t w :
  windows_filed t → matching_windows prefix at_ environment t = [w] ↔ the_one prefix at_ environment t w.
Proof.
  intros Ht. unfold the_one. setoid_rewrite <- elem_of_matching_windows.
  assert (NoDup (matching_windows prefix at_ environment t)) as Hnd by (by apply NoDup_filter, NoDup_loaded_windows).
  split.
  - intros ->. split; [by left|]. by intros w' ?%list_elem_of_singleton.
  - intros [Hw Huniq]. destruct (matching_windows prefix at_ environment t) as [|x [|y l]]; [by apply elem_of_nil in Hw|f_equal; apply Huniq; by left|].
    exfalso. apply NoDup_cons in Hnd as [Hx _]. apply Hx. rewrite (Huniq x), (Huniq y) by set_solver. by left.
Qed.

End declared.

(** C19.  [maintenance start] declares what was asked for: exactly one row is added,
    about the one entity the name stands for (or the environment), from the
    moment it was declared until the time given (or until it is ended); and as
    long as that row is in the tables and in force, the controller holds back
    every notification whose incident affects only what it covers. *)
Theorem declared_work_is_quiet `{J : JsonApi} `{U : UuidApi} `{T : TimeApi} `{CH : ChronoApi} `{HI : HashIter} humantime_parse
    id made now environment target reason duration actor inv t t' :
  it_windows t !! id = None →
  start_command humantime_parse id made now environment target reason duration actor inv t = (t', Exit 0) →
  ∃ w, t' = set_windows (<[ id := mk_stored_window environment w ]> (it_windows t)) t
    ∧ starts_at w = to_micros made ∧ window_reason w = reason ∧ created_by w = actor
    ∧ names_one environment inv target (window_entity w)
    ∧ ends_as_given humantime_parse now duration (ends_at w)
    ∧ ∀ later at_ n u i, it_windows later !! id = Some (mk_stored_window environment w) →
        (made ≤ at_)%Z → (∀ e, ends_at w = Some e → (at_ < e)%Z) →
        find (λ i, String.eqb (uuid_to_string (incident_id i)) (notif_incident_id n)) (update_all u) = Some i →
        incident_affected i ≠ [] →
        (∀ e, e ∈ incident_affected i → window_entity w = None ∨ window_entity w = Some e) →
        is_under_maintenance at_ n u (active_maintenance (Some (load_maintenance_windows environment later))) = true.
Proof.
  intros Hfresh. unfold start_command.
  destruct (match target with Some _ => load_inventory environment inv | None => inr inventory_new end) as [|inventory] eqn:Hk; [done|].
  destruct (declared_window id made target reason inventory) as [e|w0] eqn:Hd; cbn [sum_bind];
    [by rewrite (declared_window_end _ _ _ _ _ _ Hd)|].
  apply declared_window_spec in Hd as (Hid & Hst & Hre & Hen & Hby & Hsub).
  destruct (until_given humantime_parse now duration w0) as [e|w1] eqn:Hu.
  { intros [= _ ->]. by apply until_given_end in Hu. }
  apply until_given_spec in Hu as (Hid1 & Hst1 & Hre1 & Hsub1 & Hby1 & Hen1); [|done].
  destruct (by_given_same actor w1) as (Hid2 & Hst2 & Hen2 & Hre2 & Hsub2 & Hby2).
  unfold save_maintenance_window. rewrite Hid2, Hid1, Hid, Hfresh.
  destruct (_ || _); [done|]. intros [= <-]. exists (stored_window (by_given actor w1)).
  cbn [stored_window starts_at window_reason created_by window_entity ends_at].
  split_and!; [done|by rewrite Hst2, Hst1, Hst|by rewrite Hre2, Hre1, Hre|apply Hby2; by rewrite Hby1| | |].
  - rewrite Hsub2, Hsub1. unfold names_one. destruct target as [name|]; [|done]. destruct Hsub as (e & He & Hw). by exists inventory, e.
  - by rewrite Hen2.
  - intros later at_ n u i Hrow Hfrom Huntil Hi Hne Hcov. eapply row_in_force_is_quiet; [exact Hrow| |exact Hi|exact Hne|].
    + unfold is_active_at. cbn [stored_window starts_at ends_at]. rewrite Hst2, Hst1, Hst. apply andb_true_iff. split.
      * apply Z.leb_le. pose proof (to_micros_le made). lia.
      * destruct (to_micros <$> ends_at (by_given actor w1)); [|done]. by apply Z.ltb_lt, Huntil.
    + intros e He. unfold covers. cbn [stored_window window_entity] in *.
      destruct (Hcov e He) as [-> | ->]; [done|]. by apply bool_decide_eq_true.
Qed.

(** [maintenance end] ends one window or nothing: when a single window of the
    environment is in force and has the prefix, that row, otherwise unchanged, is
    in force at no time from then on and no other row is touched; when none or
    several are meant the command fails and the tables are as they were. *)
Theorem ended_work_is_over `{J : JsonApi} `{U : UuidApi} `{T : TimeApi} `{CH : ChronoApi} `{HI : HashIter} prefix at_ environment t t' code :
  windows_filed t → end_command prefix at_ environment t = (t', code) →
  windows_filed t'
  ∧ match code with
    | Exit 0 => ∃ w, the_one prefix at_ environment t w
        ∧ t' = set_windows (<[ window_id w := mk_stored_window environment (window_until w (to_micros at_)) ]> (it_windows t)) t
        ∧ ∀ later, (at_ ≤ later)%Z → is_active_at (window_until w (to_micros at_)) later = false
    | _ => code = Exit 1 ∧ t' = t ∧ ¬ ∃ w, the_one prefix at_ environment t w
    end.
Proof.
  intros Ht. unfold end_command.
  assert (∀ w, matching_windows prefix at_ environment t = [w] ↔ the_one prefix at_ environment t w) as Hone
    by (intros w; by apply matching_windows_one).
  destruct (matching_windows prefix at_ environment t) as [|w [|w' l]] eqn:Hm; intros [= <- <-].
  1, 3: split_and!; [done..|]; intros [w0 Hw0]; by apply Hone in Hw0.
  split; [by apply end_keeps_windows_filed|]. exists w.
  assert (the_one prefix at_ environment t w) as Hw by (by apply Hone). split; [done|].
  destruct Hw as [([id Hid] & _ & _) _]. pose proof (Ht _ _ Hid) as Heq. cbn in Heq. subst id.
  unfold end_maintenance_window. rewrite Hid. split; [done|]. intros later Hlater. unfold is_active_at, window_until. cbn.
  apply andb_false_intro2, Z.ltb_ge. pose proof (to_micros_le at_). lia.
Qed.

(** ** Samples *)

Definition two_hours (text : string) : option StdDuration := if String.eqb text "2h" then Some (std_secs 7200) else None.

Definition disk_swap : IncidentTables * CommandEnd :=
  start_command two_hours 9 1500 2000 "prod" (Some ("host/" +:+ canonical_name bare_host)) "disk swap" (Some "2h") (Some "lena")
    host_inventory empty_incident_tables.

Lemma declared_work_is_quiet_witness :
  disk_swap.2 = Exit 0 ∧ ∃ w, it_windows disk_swap.1 = {[ 9%N := mk_stored_window "prod" w ]} ∧ starts_at w = 1000%Z.
Proof.
  destruct disk_swap as [t' e] eqn:Hs.
  assert (disk_swap.2 = Exit 0) as He.
  { assert (bool_decide (disk_swap.2 = Exit 0) = true) as Hb by (vm_compute; reflexivity). by apply bool_decide_eq_true in Hb. }
  rewrite Hs in He. cbn [snd] in He. subst e. split; [reflexivity|].
  destruct (declared_work_is_quiet two_hours 9 1500 2000 "prod" (Some ("host/" +:+ canonical_name bare_host)) "disk swap" (Some "2h")
              (Some "lena") host_inventory empty_incident_tables t' eq_refl Hs) as (w & -> & Hst & _).
  exists w. split; [reflexivity|exact Hst].
Defined.

Definition under_way : IncidentTables :=
  set_windows {[ 9%N := mk_stored_window "prod" (window_for_environment 9 1000 "disk swap") ]} empty_incident_tables.

Lemma ended_work_is_over_witness :
  windows_filed under_way ∧ (end_command "" 3000 "prod" under_way).2 = Exit 0
  ∧ ∃ w, is_active_at w 3000 = true ∧ is_active_at (window_until w (to_micros 3000)) 4000 = false.
Proof.
  assert (windows_filed under_way) as Hf by (by apply map_Forall_singleton).
  destruct (end_command "" 3000 "prod" under_way) as [t' code] eqn:He.
  assert (bool_decide ((end_command "" 3000 "prod" under_way).2 = Exit 0) = true) as H1 by (vm_compute; reflexivity).
  apply bool_decide_eq_true in H1. rewrite He in H1. cbn [snd] in H1. subst code.
  destruct (ended_work_is_over "" 3000 "prod" under_way t' (Exit 0) Hf He) as (_ & w & ((_ & _ & Hact) & _) & _ & Hover).
  split; [exact Hf|]. split; [reflexivity|]. exists w. split; [exact Hact|]. apply Hover. lia.
Defined.
