(* ===== verification/Install.v ===== *)
(** * A first configuration, and an installation

    [src/cli/generate.rs]: the file [config init] and [install] write, with every
    setting at its default; [src/cli/install_cmd.rs]: the unit, the files on the
    host and the credential; of [src/cli/config_cmd.rs] and
    [src/cli/daemon_cmd.rs] what is shown of a configuration and where a
    credential is looked for.  The files of a host are a map from paths, as they
    are written, to what is there; two spellings of a path are two files.  How
    the calls to the system go is an argument. *)

From S2P Require Import Concrete Status.
From S2P Require Export Transport HostNet Commands.

Local Open Scope string_scope.

(** A tilde stands for a quotation mark in the texts below. *)
Fixpoint toml (s : string) : string :=
  match s with
  | String "~" s => String "034" (toml s)
  | String c s => String c (toml s)
  | EmptyString => EmptyString
  end.

(** ** The generated file *)

(** [Role]. *)
Inductive Role := Role_Controller | Role_Agent.

#[export] Instance Role_eq_dec : EqDecision Role.
Proof. solve_decision. Defined.

Definition role_parse (text : string) : option Role :=
  if String.eqb text "controller" then Some Role_Controller else if String.eqb text "agent" then Some Role_Agent else None.

Definition role_as_str (r : Role) : string := match r with Role_Controller => "controller" | Role_Agent => "agent" end.

(** [PLACEHOLDER], [DEFAULT_CONFIG_PATH] and [DEFAULT_STATE_DIR]. *)
Definition PLACEHOLDER : string := "CHANGE-ME".
Definition DEFAULT_CONFIG_PATH : string := "/etc/sentinel/config.toml".
Definition DEFAULT_STATE_DIR : string := "/var/lib/sentinel".

(** [Detected::on_this_host], from where [scontrol] was found. *)
Record Detected := mk_detected { detected_slurm : bool }.
Definition detected_default : Detected := mk_detected false.
Definition on_this_host (which : string → option string) : Detected := mk_detected (given (which "scontrol")).

Definition show_bool (b : bool) : string := if b then "true" else "false".

Section generate.
(** [humantime::format_duration]. *)
Variable humantime_show : StdDuration → string.

Definition generated_header (role : Role) : string :=
  let what := match role with
              | Role_Controller => "controller（環境に 1 台）"
              | Role_Agent => "agent（監視対象の各 host）"
              end in
  "# Cluster Sentinel — "
  +:+ what
  +:+ "
#
# `sentinel config init` が生成したファイルです。
# すべての設定が既定値のまま書き出してあります。
#
# 配置先: "
  +:+ DEFAULT_CONFIG_PATH
  +:+ toml "
# 検証:   sudo -u sentinel sentinel config check
#
# ~"
  +:+ PLACEHOLDER
  +:+ toml "~ を含む行だけが、必ず書き換えなければならない箇所です。
# それ以外はすべて既定値なので、変更したい行のコメントを外してください。
".

Definition controller_section (defaults : Config) (d : Detected) : string :=
  let c := config_controller defaults in
  let '(slurm, slurm_note) :=
    if detected_slurm d then
      (true, "# この host に scontrol があったため true にしてあります。
# Slurm クラスタでない場合は false にしてください。")
    else
      (false, "# この host に scontrol が見つからなかったため false です。
# Slurm クラスタなら true にしてください（node 一覧と状態を取り込みます）。") in
  toml "
# ===========================================================================
# Controller
# ===========================================================================
[controller]
# API の待ち受けアドレス。agent はここに報告します。
listen = ~"
  +:+ cc_listen c
  +:+ toml "~

# inventory discovery の間隔。scontrol を実行し全 host を probe するため高価です。
inventory_interval = ~"
  +:+ format_whole humantime_show (cc_inventory_interval c)
  +:+ toml "~

# 診断・相関・通知の間隔。保存済みデータを読むだけなので安価です。
# **障害発生から通知までの遅延を決めるのはこの値です。**
diagnosis_interval = ~"
  +:+ format_whole humantime_show (cc_diagnosis_interval c)
  +:+ toml "~

# controller 自身も観測点として動作するか。
# firewall の内側にいて視界が偏る場合のみ false にしてください。
observe = "
  +:+ show_bool (cc_observe c)
  +:+ toml "

[database]
path = ~"
  +:+ config_database_path defaults
  +:+ toml "~

[peer_monitoring]
# 1 entity あたりに割り当てる observer 数。
# 2 未満だと到達性の診断ができません（1 つの視点では
# 「host が落ちた」と「その経路だけ切れた」を区別できないため）。
degree = "
  +:+ show_N (config_peer_degree defaults)
  +:+ "

[discovery.slurm]
"
  +:+ slurm_note
  +:+ "
enabled = "
  +:+ show_bool slurm
  +:+ toml "
# scontrol が PATH にない場合のみ指定。
# scontrol_path = ~/opt/slurm/bin/scontrol~
".

Definition agent_section (defaults : Config) : string :=
  toml "
# ===========================================================================
# Agent
# ===========================================================================
[agent]
# controller のアドレス。ここだけは必ず書き換えてください。
# TLS を使う場合は [tls] を設定すれば https:// として解釈されます。
controller_address = ~"
  +:+ PLACEHOLDER
  +:+ toml "-controller-host:7443~

# controller に届かない間、観測結果を溜めておく場所。
spool_path = ~"
  +:+ (DEFAULT_STATE_DIR +:+ "/spool.db")
  +:+ toml "~

# この agent の health endpoint。peer がここを見て
# 「agent だけ落ちた」と「host が落ちた」を区別します。
# 変更しても agent が自分で controller に報告するため、controller 側の追記は不要です。
listen = ~"
  +:+ ac_listen (config_agent defaults)
  +:+ toml "~

# UI 上のグループ分けにのみ使われます。probe を有効化することはありません
# （probe は capability で決まります）。
roles = []

# ---------------------------------------------------------------------------
# この host に peer が到達するアドレス
#
# 未指定なら agent が自動検出します。ただし「どの NIC でクラスタ内通信を
# しているか」は site の事実であり、host を調べても分かりません。
# VLAN が複数ある、bridge がある、fabric が複数あるなら **必ず指定してください。**
#
# `sentinel doctor` が、報告されるアドレスと候補一覧、
# 曖昧な場合はその旨を表示します。
# ---------------------------------------------------------------------------
# NIC 名で指定（fleet 全体で同じ 1 行が使えるので推奨）
# interface = ~vlan102~
#
# アドレスを直接指定（NAT 越しなど、host 自身から見えない場合）
# address = ~192.0.2.20~

# SSH が 22 以外で、かつ /etc/ssh/sshd_config から読めない場合のみ指定。
# 通常は agent が sshd_config から自動検出します。
# ssh_port = 2222
".

Definition retention_section (defaults : Config) : string :=
  let r := config_retention defaults in
  toml "
# ===========================================================================
# 記録の保持期間
#
# database は書き込み一方です。実測で host 1 台あたり 1 日約 170 MB 増えます。
# 既定値で prune は有効なので、host あたり約 2.4 GB で頭打ちになります。
#
# 各期間には duration のほか ~never~（無期限保持）を指定できます。
#
# 以下は設定で緩められません:
#   * open な incident は年齢に関わらず削除されない
#   * 生存中の incident / diagnosis が参照する observation は削除されない
#   * 各 entity の直近 keep_per_entity 件は削除されない
# ===========================================================================
[retention]
enabled = "
  +:+ show_bool (ret_enabled r)
  +:+ toml "
interval = ~"
  +:+ format_whole humantime_show (ret_interval r)
  +:+ toml "~
observations = ~"
  +:+ show_period humantime_show (ret_observations r)
  +:+ toml "~
keep_per_entity = "
  +:+ show_N (ret_keep_per_entity r)
  +:+ toml "
transitions = ~"
  +:+ show_period humantime_show (ret_transitions r)
  +:+ toml "~
resolved_incidents = ~"
  +:+ show_period humantime_show (ret_incidents r)
  +:+ toml "~
diagnoses = ~"
  +:+ show_period humantime_show (ret_diagnoses r)
  +:+ toml "~
".

(** One entry of the catalog, commented out. *)
Definition probe_block (e : CatalogEntry) : string :=
  let d := definition e in
  "
# "
  +:+ description e
  +:+ "
"
  +:+ (match caution e with
       | Some caution => "# 注意: "
  +:+ caution
  +:+ "
"
       | None => ""
       end)
  +:+ toml "# [probes.~"
  +:+ definition_id d
  +:+ toml "~]
"
  +:+ toml "# interval = ~"
  +:+ format_whole humantime_show (interval d)
  +:+ toml "~
"
  +:+ toml "# timeout = ~"
  +:+ format_whole humantime_show (timeout d)
  +:+ toml "~
"
  +:+ (if (max_outstanding d =? u32_max)%N then "" else "# max_outstanding = "
  +:+ show_N (max_outstanding d)
  +:+ "
")
  +:+ "# enabled = true
".

Definition probes_section : string :=
  "
# ===========================================================================
# 監視頻度
#
# 以下はすべて **コンパイル時の既定値** です。行のコメントを外すと上書きされます。
# 書かれていない probe は既定のまま動くため、1 つだけ調整しても他には影響しません。
#
#   interval        実行間隔
#   timeout         1 回あたりの上限時間
#   max_outstanding 同一 target に対する同時実行数（**引き下げのみ可能**）
#   enabled         false にするとその probe は動きません
#
# 大規模クラスタで負荷を下げたい場合は interval を延ばしてください。
# ただし network.tcp を延ばすと host 障害の検出全体が遅くなります。
# ===========================================================================
"
  +:+ str_join "" (map probe_block catalog).

Definition tls_section (role : Role) : string :=
  let body := match role with
              | Role_Controller => toml "# [tls]
# cert = ~/etc/sentinel/tls/controller.crt~
# key  = ~/etc/sentinel/tls/controller.key~
#
# 以下を書くと client 証明書が「必須」になります（任意にはなりません）。
# cluster credential が漏洩しても耐えられる構成はこれだけです。
# client_ca = ~/etc/sentinel/tls/ca.crt~
"
              | Role_Agent => toml "# [tls]
# ca = ~/etc/sentinel/tls/ca.crt~
#
# mutual TLS の場合。証明書は host ごとに発行してください。
# client_cert = ~/etc/sentinel/tls/agent.crt~
# client_key  = ~/etc/sentinel/tls/agent.key~
#
# controller を IP で指定し、証明書が名前しか持たない場合。
# server_name = ~controller.example~
#
# PKI がまだ無い場合の暫定措置。TLS を装飾に変えます。
# insecure_skip_verify = true
"
              end in
  "
# ===========================================================================
# TLS
#
# cluster credential は bearer token です。平文で運用すると、
# 通信を読める者が全 agent になりすませます。
#
# 何も書かなければ平文 HTTP のまま動作します。
# 証明書は既存の PKI で発行してください（Sentinel は生成しません）。
# 手順: docs/DEPLOYMENT.md §9.6
# ===========================================================================
"
  +:+ body.

Definition notification_section (defaults : Config) : string :=
  let n := config_notification defaults in
  toml "
# ===========================================================================
# 通知
#
# 状態が変化したときだけ送信します。継続中の incident は繰り返し通知しません。
#
#   min_severity  この深刻度未満は送りません
#   min_interval  同一宛先への送信間隔の下限。**間引きではなく間隔をあけます**
#                 ので、一度に多数の incident が開いても通知は捨てられず、
#                 順に遅れて届きます。既定値は Slack の incoming webhook が
#                 公称している上限に合わせてあります。webhook 側がより厳しい
#                 場合は伸ばしてください。
#
# 宛先は複数書けます。宛先ごとに重複排除は独立しているため、
# 片方を黙らせてももう片方は届きます。
#
#   format = ~generic~  汎用の JSON（text / content も入るので大半の受け口が通ります）
#   format = ~slack~    Slack Block Kit（色つきの帯・太字・アイコン）
#
# 書き終えたら `sentinel notify test` で疎通を確認できます。
# 障害を待つ必要はなく、宛先ごとに 1 通だけ送ります。
# ===========================================================================
# [notification]
# min_severity = ~"
  +:+ nc_min_severity n
  +:+ toml "~          # ~info~ / ~warning~ / ~critical~
# min_interval = ~"
  +:+ format_whole humantime_show (nc_min_interval n)
  +:+ toml "~
#
# [[notification.webhooks]]
# name   = ~ops~
# url    = ~https://example.invalid/hooks/sentinel~
# format = ~generic~
".

Definition inventory_section : string :=
  toml "
# ===========================================================================
# storage の依存関係（**通常は書く必要がありません**）
#
# NFS の依存関係は agent の報告するマウント表から自動で導出されます。
# fileserver の host entity、storage entity、provides、uses_storage の
# すべてが、各 node が実際にマウントしているものから作られます。
# マウント構成を変えても、この設定ファイルを触る必要はありません。
#
# 導出されたものは `sentinel dependency list` で確認できます。
# 止めるには [discovery.nfs] enabled = false。
#
# 手で書く必要があるのは次の場合だけです:
#
#   * マウントが名前ではなく IP で書かれていて、その IP を持つ host を
#     Sentinel が知らない。address は identity ではない（ADR 0001）ため、
#     IP から entity を作ることはしません。discover の出力が
#     「どの IP が解決できなかったか」を報告するので、その host を
#     下記の [[entities]] で宣言してください。
#   * NFS 以外の共有ストレージ（Lustre、GPFS、オブジェクトストレージなど）
#   * どの node もマウントしていないが監視したい fileserver
#
# 手で書いた宣言は導出結果と併存します（打ち消されません）。
# ===========================================================================
# [[entities]]
# type = ~host~
# name = ~"
  +:+ PLACEHOLDER
  +:+ toml "-fileserver-1~
# capabilities = [~storage.nfs.server~]
# # SSH が 22 以外の場合のみ
# # ports = { ssh = 2222 }
#
# [[entities]]
# type = ~storage~
# name = ~"
  +:+ PLACEHOLDER
  +:+ toml "-storage-1~
#
# # storage を提供しているのがどの host か
# [[dependencies]]
# from = ~storage/"
  +:+ PLACEHOLDER
  +:+ toml "-storage-1~
# to   = ~host/"
  +:+ PLACEHOLDER
  +:+ toml "-fileserver-1~
# type = ~provides~
#
# # その storage を使っている node
# [[dependencies]]
# from = ~host/"
  +:+ PLACEHOLDER
  +:+ toml "-compute-1~
# to   = ~storage/"
  +:+ PLACEHOLDER
  +:+ toml "-storage-1~
# type = ~uses_storage~

# ===========================================================================
# capability の上書き（必要な場合のみ）
#
# 優先順位: disable > force > runtime discovery > enable / role hint
#
# 想定と違う場合は、まず対象 host で `sentinel doctor` を実行し、
# 判定理由を確認してください。
# ===========================================================================
# [capabilities]
# ~storage.nfs.server~ = ~force~
".

Definition agent_capabilities_section : string :=
  toml "
# ===========================================================================
# capability の上書き（必要な場合のみ）
#
# capability は agent が自動検出するため、通常は何も書く必要がありません。
# `sentinel doctor` で判定理由を確認できます。
#
# この host を peer observer にする場合は下の 2 行を有効にしてください。
# observer は互いに異なる障害ドメインから選ぶこと。同じ storage の背後にいる
# 3 台は、視点 1 つを 3 回数えているだけです。
# ===========================================================================
# [capabilities]
# ~observer.peer~ = ~force~
".

(** [config_file_for] and [config_file]. *)
Definition config_file_for (role : Role) (d : Detected) : string :=
  let defaults := config_default in
  generated_header role
  +:+ "
config_version = "
  +:+ show_N (config_version defaults)
  +:+ toml "

# 同一クラスタの全 host で一致させること。
# 不一致の host は別クラスタとして扱われ、同じ名前でも別 entity になります。
environment = ~"
  +:+ PLACEHOLDER
  +:+ toml "-environment~
"
  +:+ (match role with Role_Controller => controller_section defaults d | Role_Agent => agent_section defaults end)
  +:+ (if bool_decide (role = Role_Controller) then retention_section defaults else "")
  +:+ probes_section
  +:+ tls_section role
  +:+ (if bool_decide (role = Role_Controller) then notification_section defaults +:+ inventory_section
       else agent_capabilities_section).

Definition config_file (role : Role) : string := config_file_for role detected_default.
End generate.

(** ** Paths

    A path is its text; [Path] reads it component by component. *)

(** The pieces between the slashes, without trailing ones that name nothing. *)
Fixpoint without_trailing (rev_pieces : list string) : list string :=
  match rev_pieces with
  | p :: (_ :: _) as rest => if String.eqb p "" || String.eqb p "." then without_trailing rest else p :: rest
  | l => l
  end.

Definition path_pieces (s : string) : list string := reverse (without_trailing (reverse (split_char "/" s))).

Definition path_of_pieces (l : list string) : string := match l with [""] => "/" | _ => str_join "/" l end.

(** [Path::parent], [join] and [extension]. *)
Definition path_parent (s : string) : option string :=
  match reverse (path_pieces s) with
  | [] => None
  | [p] => if String.eqb p "" then None else Some ""
  | _ :: rest => Some (path_of_pieces (reverse (without_trailing rest)))
  end.

Definition path_join (dir name : string) : string :=
  if starts_with "/" name || String.eqb dir "" then name
  else if ends_with "/" dir then dir +:+ name else dir +:+ "/" +:+ name.

Definition path_extension (s : string) : option string :=
  name ← file_name s;
  '(stem, ext) ← rsplit_once "." name;
  if String.eqb stem "" then None else Some ext.

(** [Path::starts_with], of an absolute directory. *)
Definition under_directory (dir path : string) : bool :=
  starts_with "/" path && bool_decide (path_components dir `prefix_of` path_components path).

(** ** The unit and the credential *)

Definition SERVICE_USER : string := "sentinel".

(** [passwd_ids]. *)
Definition passwd_line (user line : string) : option (N * N) :=
  match split_char ":" line with
  | name :: _ :: uid :: gid :: _ => if String.eqb name user then uid ← parse_u32 uid; gid ← parse_u32 gid; Some (uid, gid) else None
  | _ => None
  end.

Definition passwd_ids (passwd user : string) : option (N * N) := head (omap (passwd_line user) (lines passwd)).

(** [token_path]. *)
Definition token_path (config : string) : string :=
  match path_parent config with
  | Some parent => if String.eqb parent "" then "token" else path_join parent "token"
  | None => "token"
  end.

Definition unit_text (description exec_start : string) (writable : list string) (token : string) : string :=
  "[Unit]
Description="
  +:+ description
  +:+ "
Documentation=https://github.com/Lzh-Function/cluster-sentinel
After=network-online.target
Wants=network-online.target

[Service]
Type=exec
ExecStart="
  +:+ exec_start
  +:+ "
Restart=always
RestartSec=5s

# The credential is read from a file, never from a command line or the
# environment of a unit an operator might paste into a bug report.
Environment=SENTINEL_TOKEN_FILE="
  +:+ token
  +:+ "

# A dedicated unprivileged user. Sentinel reads; it does not need to be root,
# and probes that cannot read something report UNSUPPORTED rather than failing.
User=sentinel
Group=sentinel

# Hardening (IMPLEMENTATION.md §85). Sentinel is a read-only monitoring daemon,
# so the unit says so: a bug in a probe must not become a bug in the OS.
NoNewPrivileges=true
PrivateTmp=true
ProtectHome=true
ProtectSystem=strict
ProtectKernelTunables=true
ProtectKernelModules=true
ProtectControlGroups=true
ProtectClock=true
RestrictSUIDSGID=true
RestrictRealtime=true
RestrictNamespaces=true
LockPersonality=true
MemoryDenyWriteExecute=true
SystemCallArchitectures=native
CapabilityBoundingSet=
AmbientCapabilities=

# systemd creates this on first start, owned by the service user, so a host
# that has only ever had the binary copied onto it needs no mkdir.
StateDirectory=sentinel

"
  +:+ str_join newline (map (λ path, "ReadWritePaths=" +:+ path) writable)
  +:+ "

# Journald is the log destination (IMPLEMENTATION.md §59).
StandardOutput=journal
StandardError=journal

[Install]
WantedBy=multi-user.target
".

Definition controller_unit (binary config : string) : string :=
  unit_text "Cluster Sentinel controller" (binary +:+ " --config " +:+ config +:+ " controller") [DEFAULT_STATE_DIR] (token_path config).
Definition agent_unit (binary config : string) : string :=
  unit_text "Cluster Sentinel agent" (binary +:+ " --config " +:+ config +:+ " agent") [DEFAULT_STATE_DIR] (token_path config).

(** [generate_credential]: the bytes of [/dev/urandom] in hexadecimal. *)
Definition hex_digit (n : N) : ascii := ascii_of_N (if (n <? 10)%N then 48 + n else 87 + n).
Definition hex_byte (b : N) : string := String (hex_digit (b / 16)) (String (hex_digit (b mod 16)) "").
Definition generate_credential (urandom : option (list N)) : option string :=
  bytes ← urandom; Some (str_join "" (map hex_byte (take 32 bytes))).

(** ** The files of a host *)

(** What is at a path: the mode is [None] as the umask leaves it. *)
Record HostFile := mk_host_file { file_contents : string; file_mode : option N; file_owner : option (N * N) }.

Abbreviation HostFiles := (gmap string HostFile).

(** [Options]. *)
Record InstallOptions := mk_install_options {
  io_binary : option string;
  io_dry_run : bool;
  io_force : bool;
  io_credential : bool
}.

(** [Outcome] and [Written]. *)
Inductive Placed := Placed_Created | Placed_Kept | Placed_Replaced.

#[export] Instance Placed_eq_dec : EqDecision Placed.
Proof. solve_decision. Defined.

Definition placed_label (o : Placed) : string :=
  match o with Placed_Created => "created" | Placed_Kept => "kept (already present)" | Placed_Replaced => "replaced" end.

Record Written := mk_written { written_path : string; written_outcome : Placed }.

(** How [std::fs::write] ends: done, refused before anything, or cut short. *)
Inductive WriteEnd := Write_done | Write_refused | Write_cut (at_ : nat).

(** What the system answers. *)
Record InstallWorld := mk_install_world {
  iw_create_dirs : string → bool;
  iw_write : string → WriteEnd;
  iw_chmod : string → bool;
  iw_chown : string → bool;
  iw_passwd : option string;
  iw_urandom : option (list N);
  iw_which : string → option string;
  iw_current_exe : option string;
  iw_humantime : StdDuration → string
}.

Definition service_user_ids (w : InstallWorld) : option (N * N) := passwd ← iw_passwd w; passwd_ids passwd SERVICE_USER.

(** [place]; [None] is an error, after which what was written stays. *)
Definition written_file (old : option HostFile) (contents : string) : HostFile :=
  match old with
  | Some f => mk_host_file contents (file_mode f) (file_owner f)
  | None => mk_host_file contents None None
  end.

Definition place (w : InstallWorld) (path contents : string) (mode : N) (force dry_run : bool) (files : HostFiles) :
    HostFiles * option Written :=
  let old := files !! path in
  if given old && negb force then (files, Some (mk_written path Placed_Kept))
  else
    let outcome := if given old then Placed_Replaced else Placed_Created in
    if dry_run then (files, Some (mk_written path outcome))
    else
      let ready := match path_parent path with Some parent => String.eqb parent "" || iw_create_dirs w parent | None => true end in
      if negb ready then (files, None)
      else
        match iw_write w path with
        | Write_refused => (files, None)
        | Write_cut n => (<[ path := written_file old (String.substring 0 n contents) ]> files, None)
        | Write_done =>
            let f := written_file old contents in
            if negb (iw_chmod w path) then (<[ path := f ]> files, None)
            else
              let f := mk_host_file contents (Some mode) (file_owner f) in
              let f := match service_user_ids w with
                       | Some ids => if iw_chown w path then mk_host_file contents (Some mode) (Some ids) else f
                       | None => f
                       end in
              (<[ path := f ]> files, Some (mk_written path outcome))
        end.

(** ** What is left to do *)

(** [DURABLE_BINARY_DIRECTORIES] and [transient_binary_warning]. *)
Definition DEFAULT_BINARY_PATH : string := "/usr/local/bin/sentinel".
Definition DURABLE_BINARY_DIRECTORIES : list string := ["/usr/local/bin"; "/usr/bin"; "/usr/sbin"; "/opt"; "/usr/local/sbin"].

Definition transient_binary_warning (binary : string) : option string :=
  if existsb (λ dir, under_directory dir binary) DURABLE_BINARY_DIRECTORIES then None
  else Some ("the unit will run "
  +:+ binary
  +:+ ", which is not a durable location. Install the binary first:
  sudo install -m 0755 "
  +:+ binary
  +:+ " "
  +:+ DEFAULT_BINARY_PATH
  +:+ "
then run this again, or pass --binary "
  +:+ DEFAULT_BINARY_PATH
  +:+ ".").

(** [setup_instructions]: the steps, a title with its commands; they are numbered
    in the order they are given. *)
Definition is_token (x : Written) : bool := bool_decide (file_name (written_path x) = Some "token").
Definition is_toml (x : Written) : bool := bool_decide (path_extension (written_path x) = Some "toml").
Definition DEFAULT_TOKEN : string := "/etc/sentinel/token".
Definition token_named (written : list Written) : string := default DEFAULT_TOKEN (written_path <$> find is_token written).

Definition user_steps : list (string * list string) :=
  [("サービスユーザーとディレクトリを作る:",
    ["sudo useradd --system --no-create-home --shell /usr/sbin/nologin sentinel";
     "sudo install -d -o sentinel -g sentinel -m 0750 "
  +:+ DEFAULT_STATE_DIR;
     "sudo chown -R sentinel:sentinel /etc/sentinel";
     "sudo usermod -aG systemd-journal sentinel   # journal.events を有効にする"])].

Definition token_steps (written : list Written) (credential_generated : bool) (exists_ : string → bool) : list (string * list string) :=
  let token := token_named written in
  if credential_generated then
    [("生成した credential を、同じ environment の全 host に同じ内容で配る:", ["sudo scp "
  +:+ token
  +:+ " <host>:/etc/sentinel/token"])]
  else if exists_ token then []
  else [("controller と同じ credential を配置する:", ["sudo install -o sentinel -g sentinel -m 0400 token "
  +:+ token])].

Definition config_steps (written : list Written) : list (string * list string) :=
  match find is_toml written with
  | Some config =>
      [(written_path config
  +:+ toml " の ~"
  +:+ PLACEHOLDER
  +:+ toml "~ の行を書き換えて検証する:",
        ["sudo -u sentinel sentinel --config "
  +:+ written_path config
  +:+ " config check"])]
  | None => []
  end.

Definition start_steps (role : string) : list (string * list string) :=
  [("起動する:",
    ["sudo systemctl daemon-reload"; "sudo systemctl enable --now sentinel-"
  +:+ role; "systemctl status sentinel-"
  +:+ role])].

Definition setup_steps (role : string) (written : list Written) (credential_generated service_user_exists : bool)
    (exists_ : string → bool) : list (string * list string) :=
  ((if service_user_exists then [] else user_steps) ++ token_steps written credential_generated exists_
   ++ config_steps written ++ start_steps role)%list.

Definition step_lines (n : nat) (step : string * list string) : list string :=
  (["  " +:+ show_nat n +:+ ". " +:+ step.1; ""] ++ map (λ c, "     " +:+ c) step.2 ++ [""])%list.

Definition setup_instructions (role : string) (written : list Written) (credential_generated service_user_exists : bool)
    (exists_ : string → bool) : string :=
  str_join newline
    (["次に:"; ""]
     ++ (if service_user_exists then ["  サービスユーザー sentinel は既にあります。"; "  この install が書いたファイルの所有者も設定済みです。"; ""] else [])
     ++ concat (imap (λ i s, step_lines (S i) s) (setup_steps role written credential_generated service_user_exists exists_)))%list.

(** ** The installation *)

(** How the command ends: its text goes with it. *)
Inductive InstallEnd := Install_exit (text : string) | Install_error.

(** Placing the files in turn; an error ends it. *)
Fixpoint place_all (w : InstallWorld) (force dry_run : bool) (l : list (string * string * N)) (files : HostFiles) :
    HostFiles * option (list Written) :=
  match l with
  | [] => (files, Some [])
  | (path, contents, mode) :: rest =>
      match place w path contents mode force dry_run files with
      | (files, None) => (files, None)
      | (files, Some x) =>
          match place_all w force dry_run rest files with
          | (files, None) => (files, None)
          | (files, Some xs) => (files, Some (x :: xs))
          end
      end
  end.

(** The credential of a controller; an agent gets none. *)
Definition place_credential (w : InstallWorld) (role : Role) (config : string) (o : InstallOptions) (files : HostFiles) :
    HostFiles * option (list Written) :=
  if negb (bool_decide (role = Role_Controller) && io_credential o) then (files, Some [])
  else
    let path := token_path config in
    if given (files !! path) then
      let '(files, x) := place w path "" 256 false (io_dry_run o) files in (files, option_map (λ x, [x]) x)
    else
      match generate_credential (iw_urandom w) with
      | None => (files, None)
      | Some credential =>
          let '(files, x) := place w path (credential +:+ newline) 256 false (io_dry_run o) files in (files, option_map (λ x, [x]) x)
      end.

Definition unit_name (role : Role) : string := "sentinel-" +:+ role_as_str role +:+ ".service".

Definition install_binary (w : InstallWorld) (o : InstallOptions) : string :=
  match io_binary o with Some path => path | None => default DEFAULT_BINARY_PATH (iw_current_exe w) end.

Definition unit_contents (role : Role) (binary config : string) : string :=
  match role with Role_Controller => controller_unit binary config | Role_Agent => agent_unit binary config end.

(** The files of a role, in the order they are written. *)
Definition role_files (w : InstallWorld) (role : Role) (output_dir config : string) (o : InstallOptions) : list (string * string * N) :=
  [(config, config_file_for (iw_humantime w) role (on_this_host (iw_which w)), 416%N);
   (path_join output_dir (unit_name role), unit_contents role (install_binary w o) config, 420%N)].

(** [run]. *)
Definition install_run (w : InstallWorld) (role output_dir config : string) (o : InstallOptions) (files : HostFiles) :
    HostFiles * InstallEnd :=
  match role_parse role with
  | None => (files, Install_error)
  | Some parsed =>
      if io_dry_run o then
        (files, Install_exit
          ("# " +:+ path_join output_dir (unit_name parsed) +:+ newline +:+ newline
           +:+ unit_contents parsed (install_binary w o) config +:+ newline +:+ "# " +:+ config +:+ newline +:+ newline
           +:+ config_file_for (iw_humantime w) parsed (on_this_host (iw_which w))))
      else
        match place_all w (io_force o) false (role_files w parsed output_dir config o) files with
        | (files, None) => (files, Install_error)
        | (files, Some written) =>
            match place_credential w parsed config o files with
            | (files, None) => (files, Install_error)
            | (files, Some credential) =>
                let generated := existsb (λ x, negb (bool_decide (written_outcome x = Placed_Kept))) credential in
                let all := (written ++ credential)%list in
                (files, Install_exit
                  (str_join "" (map (λ x, pad_right 40 (written_path x) +:+ " " +:+ placed_label (written_outcome x) +:+ newline) all)
                   +:+ newline
                   +:+ setup_instructions role all generated (given (service_user_ids w)) (λ p, given (files !! p))))
            end
        end
  end.

(** ** Where a credential is looked for *)

(** [load_credential]: the variable that names a file first; [read] is what
    reading a file comes to. *)
Definition load_credential (env_file env_token : option string) (read : string → option string) : option string :=
  match env_file with
  | Some path => credential_from_text <$> read path
  | None => env_token
  end.

(** How [std::fs::metadata] ends. *)
Inductive StatEnd := Stat_found | Stat_denied | Stat_failed.

(** [credential_status_from]. *)
Definition credential_status_from (env_token env_file : option string) (config : string) (stat : string → StatEnd) : bool * string :=
  match env_token, env_file with
  | Some _, _ => (true, "configured (SENTINEL_TOKEN)")
  | None, Some path =>
      match stat path with
      | Stat_found => (true, "configured (" +:+ path +:+ ")")
      | _ => (false, "NOT CONFIGURED (SENTINEL_TOKEN_FILE points at " +:+ path +:+ ", which cannot be read)")
      end
  | None, None =>
      match stat (token_path config) with
      | Stat_found => (true, "configured (" +:+ token_path config +:+ ")")
      | Stat_denied => (true, "present at " +:+ token_path config +:+ " (readable only by the service user)")
      | Stat_failed => (false, "NOT CONFIGURED")
      end
  end.

(** ** The configuration, shown, checked and started *)

Definition REDACTED : string := "(redacted — see the configuration file)".

Definition redacted_webhook (w : WebhookConfig) : WebhookConfig :=
  mk_webhook_config (hook_name w) (if String.eqb (hook_url w) "" then "" else REDACTED) (hook_format w).

(** [redacted]. *)
Definition redacted (c : Config) : Config :=
  let n := config_notification c in
  mk_config (config_version c) (config_environment c) (config_controller c) (config_agent c) (config_database_path c)
    (config_peer_degree c) (config_capabilities c) (config_entities c) (config_dependencies c) (config_discovery c)
    (mk_notification_config (map redacted_webhook (nc_webhooks n)) (nc_min_severity n) (nc_min_interval n))
    (config_retention c) (config_tls c) (config_probes c).

(** [check]: its exit code and what it says; [printable] is as in [debug_str]. *)
Definition check_config (printable : N → bool) (loaded : Config + ConfigError) (path : string) : N * string :=
  match loaded with
  | inr _ => (1%N, "")
  | inl config =>
      let report := validate printable config in
      if report_is_ok report
      then (0%N, path +:+ ": ok (" +:+ show_N (N.of_nat (length (report_warnings report))) +:+ " warning(s))" +:+ newline)
      else (1%N, path +:+ ": invalid" +:+ newline)
  end.

(** [init]: the file is written whole or the command fails. *)
Definition config_init (w : InstallWorld) (role : string) (output : option string) (config : string) (dry_run force : bool)
    (files : HostFiles) : HostFiles * InstallEnd :=
  match role_parse role with
  | None => (files, Install_error)
  | Some parsed =>
      let contents := config_file_for (iw_humantime w) parsed (on_this_host (iw_which w)) in
      let path := default config output in
      if dry_run then (files, Install_exit contents)
      else if given (files !! path) && negb force then (files, Install_error)
      else
        let ready := match path_parent path with Some parent => String.eqb parent "" || iw_create_dirs w parent | None => true end in
        if negb ready then (files, Install_error)
        else
          match iw_write w path with
          | Write_refused => (files, Install_error)
          | Write_cut n => (<[ path := written_file (files !! path) (String.substring 0 n contents) ]> files, Install_error)
          | Write_done =>
              (<[ path := written_file (files !! path) contents ]> files,
               Install_exit ("wrote " +:+ path +:+ " (" +:+ role_as_str parsed +:+ " 設定)" +:+ newline +:+ newline +:+ "次に:" +:+ newline
                             +:+ "  1. " +:+ quoted PLACEHOLDER +:+ " の行を書き換える" +:+ newline
                             +:+ "  2. sentinel --config " +:+ path +:+ " config check" +:+ newline))
          end
  end.

(** ** Facts *)

Lemma place_keeps w path contents mode dry_run files p :
  given (files !! p) = true → (place w path contents mode false dry_run files).1 !! p = files !! p.
Proof.
  intros Hp. unfold place. cbn [negb]. rewrite andb_true_r. destruct (given (files !! path)) eqn:Hg; [done|].
  assert (path ≠ p) as Hne by congruence. repeat case_match; cbn [fst]; by rewrite ?lookup_insert_ne.
Qed.

Lemma place_other w path contents mode force dry_run files p :
  path ≠ p → (place w path contents mode force dry_run files).1 !! p = files !! p.
Proof. intros Hne. unfold place. repeat case_match; cbn [fst]; by rewrite ?lookup_insert_ne. Qed.

Lemma place_present w path contents mode force dry_run files :
  given (files !! path) = true → force = false →
  place w path contents mode force dry_run files = (files, Some (mk_written path Placed_Kept)).
Proof. intros Hg ->. unfold place. by rewrite Hg. Qed.

(** What is there after a file was placed. *)
Lemma place_placed w path contents mode force files files' x :
  place w path contents mode force false files = (files', Some x) →
  written_path x = path ∧ given (files' !! path) = true
  ∧ (files !! path = None → ∃ owner, files' !! path = Some (mk_host_file contents (Some mode) owner)).
Proof.
  unfold place. destruct (given (files !! path) && negb force) eqn:Hk.
  - intros [= <- <-]. apply andb_true_iff in Hk as [Hg _]. split_and!; [done|done|]. intros Hn. by rewrite Hn in Hg.
  - intros Hp. repeat case_match; simplify_eq; cbn [written_path]; rewrite lookup_insert_eq; split_and!; eauto.
Qed.

Lemma given_Some {A} (x : A) : given (Some x) = true.
Proof. apply bool_decide_eq_true. by eexists. Qed.

Lemma place_all_keeps w dry_run l files p :
  given (files !! p) = true → (place_all w false dry_run l files).1 !! p = files !! p.
Proof.
  revert files. induction l as [|[[path contents] mode] l IH]; intros files Hp; cbn [place_all]; [done|].
  pose proof (place_keeps w path contents mode dry_run files p Hp) as H1. destruct (place w _ _ _ _ _ files) as [files1 [x|]]; cbn [fst] in H1; [|done].
  specialize (IH files1). rewrite H1 in IH. specialize (IH Hp). destruct (place_all w _ _ l files1) as [files2 [xs|]]; exact IH.
Qed.

Lemma place_all_other w force dry_run l files p :
  p ∉ map (λ x : string * string * N, x.1.1) l → (place_all w force dry_run l files).1 !! p = files !! p.
Proof.
  revert files. induction l as [|[[path contents] mode] l IH]; intros files Hp; cbn [place_all]; [done|]. cbn in Hp.
  pose proof (place_other w path contents mode force dry_run files p ltac:(set_solver)) as H1.
  destruct (place w _ _ _ _ _ files) as [files1 [x|]]; cbn [fst] in H1; [|done].
  specialize (IH files1 ltac:(set_solver)). rewrite H1 in IH. destruct (place_all w _ _ l files1) as [files2 [xs|]]; exact IH.
Qed.

Lemma place_all_present w l files :
  Forall (λ x : string * string * N, given (files !! x.1.1) = true) l →
  place_all w false false l files = (files, Some (map (λ x, mk_written x.1.1 Placed_Kept) l)).
Proof.
  induction 1 as [|[[path contents] mode] l Hp _ IH]; [done|]. cbn [place_all map]. cbn in Hp.
  rewrite place_present by done. by rewrite IH.
Qed.

(** Everything that was to be placed is there afterwards. *)
Lemma place_all_given w force l files files' xs :
  place_all w force false l files = (files', Some xs) →
  map written_path xs = map (λ x, x.1.1) l ∧ Forall (λ x : string * string * N, given (files' !! x.1.1) = true) l.
Proof.
  revert files xs. induction l as [|[[path contents] mode] l IH]; intros files xs; cbn [place_all]; [intros [= <- <-]; by split|].
  destruct (place w path contents mode force false files) as [files1 [x|]] eqn:Hp; [|done].
  destruct (place_all w force false l files1) as [files2 [xs'|]] eqn:Hl; [|done]. intros [= <- <-].
  apply place_placed in Hp as (Hpath & Hg & _). destruct (IH _ _ Hl) as [Hm Hall]. cbn [map]. rewrite Hpath, Hm.
  split; [done|]. constructor; [|done]. cbn [fst]. destruct (bool_decide (path ∈ map (λ x : string * string * N, x.1.1) l)) eqn:Hin.
  - apply bool_decide_eq_true in Hin. apply list_elem_of_fmap in Hin as (y & -> & Hy). rewrite Forall_forall in Hall. by apply Hall.
  - apply bool_decide_eq_false in Hin. pose proof (place_all_other w force false l files1 path Hin) as Ho. rewrite Hl in Ho. cbn [fst] in Ho. by rewrite Ho.
Qed.

Lemma place_credential_keeps w role config o files p :
  given (files !! p) = true → (place_credential w role config o files).1 !! p = files !! p.
Proof.
  intros Hp. unfold place_credential. destruct (negb _); [done|].
  assert (∀ c, (place w (token_path config) c 256 false (io_dry_run o) files).1 !! p = files !! p) as Hk by (intros c; by apply place_keeps).
  destruct (given (files !! token_path config)).
  - specialize (Hk ""). destruct (place _ _ _ _ _ _ _); exact Hk.
  - destruct (generate_credential _) as [c|]; [|done]. specialize (Hk (c +:+ newline)). destruct (place _ _ _ _ _ _ _); exact Hk.
Qed.

(** ** Installing twice *)

(** The paths of a role. *)
Definition unit_path (role output_dir : string) : string :=
  path_join output_dir ("sentinel-" +:+ role +:+ ".service").

Lemma role_files_paths w parsed role output_dir config o :
  role_parse role = Some parsed → map (λ x : string * string * N, x.1.1) (role_files w parsed output_dir config o) = [config; unit_path role output_dir].
Proof.
  intros Hr. unfold role_parse in Hr. destruct (String.eqb_spec role "controller") as [->|]; [by injection Hr as <-|].
  destruct (String.eqb_spec role "agent") as [->|]; [by injection Hr as <-|done].
Qed.

(** What a run leaves: every path but those it may write. *)
Lemma install_run_keeps w role output_dir config o files files' e p :
  install_run w role output_dir config o files = (files', e) → given (files !! p) = true →
  io_force o = false ∨ (p ≠ config ∧ p ≠ unit_path role output_dir) → files' !! p = files !! p.
Proof.
  unfold install_run. intros Hrun Hp Hsafe. destruct (role_parse role) as [parsed|] eqn:Hr; [|by injection Hrun as <- <-].
  destruct (io_dry_run o); [by injection Hrun as <- <-|].
  assert ((place_all w (io_force o) false (role_files w parsed output_dir config o) files).1 !! p = files !! p) as H1.
  { destruct Hsafe as [->|[Hc Hu]]; [by apply place_all_keeps|]. apply place_all_other.
    rewrite (role_files_paths _ _ _ _ _ _ Hr). set_solver. }
  destruct (place_all _ _ _ _ files) as [files1 [written|]]; cbn [fst] in H1; [|by injection Hrun as <- <-].
  pose proof (place_credential_keeps w parsed config o files1 p) as H2. rewrite H1 in H2. specialize (H2 Hp).
  destruct (place_credential w parsed config o files1) as [files2 [credential|]]; cbn [fst] in H2; by injection Hrun as <- <-.
Qed.

(** After a run that succeeded, every file of the role is there. *)
Lemma install_run_complete w role output_dir config o files files' text :
  io_dry_run o = false → install_run w role output_dir config o files = (files', Install_exit text) →
  given (files' !! config) = true ∧ given (files' !! unit_path role output_dir) = true
  ∧ (role = "controller" → io_credential o = true → given (files' !! token_path config) = true).
Proof.
  intros Hdry. unfold install_run. destruct (role_parse role) as [parsed|] eqn:Hr; [|done]. rewrite Hdry.
  destruct (place_all w (io_force o) false _ files) as [files1 [written|]] eqn:Hpa; [|done].
  apply place_all_given in Hpa as [_ Hall]. rewrite Forall_forall in Hall.
  assert (∀ p, p ∈ [config; unit_path role output_dir] → given (files1 !! p) = true) as Hrole.
  { intros p Hin. rewrite <- (role_files_paths w _ _ _ _ o Hr) in Hin. apply list_elem_of_fmap in Hin as (x & -> & Hx). by apply Hall. }
  pose proof (place_credential_keeps w parsed config o files1) as Hk.
  destruct (place_credential w parsed config o files1) as [files2 [credential|]] eqn:Hpc; [|done]. cbn [fst] in Hk. intros [= <- <-].
  split_and!; [rewrite Hk; apply Hrole; set_solver..|].
  intros -> Hcred. cbn in Hr. injection Hr as <-. unfold place_credential in Hpc. rewrite Hcred in Hpc. cbn in Hpc.
  destruct (given (files1 !! token_path config)) eqn:Hg; [by rewrite Hk|].
  destruct (generate_credential _) as [c|]; [|done]. rewrite Hdry in Hpc.
  destruct (place w (token_path config) _ _ _ _ files1) as [files3 [x|]] eqn:Hp; [|done]. injection Hpc as <- _.
  by apply place_placed in Hp as (_ & ? & _).
Qed.

(** Running [install] is safe to repeat: without [--force] no file that is
    there is touched, whatever goes wrong; with it the credential still is not,
    unless it is the configuration or the unit itself; and once an installation
    has succeeded, running it again changes nothing and succeeds, whatever the
    system then answers. *)
Theorem installing_again_is_safe w role output_dir config o files files' e :
  install_run w role output_dir config o files = (files', e) →
  (io_force o = false → ∀ p f, files !! p = Some f → files' !! p = Some f)
  ∧ (∀ f, files !! token_path config = Some f → token_path config ≠ config → token_path config ≠ unit_path role output_dir →
       files' !! token_path config = Some f)
  ∧ (∀ text, e = Install_exit text → io_dry_run o = false → io_force o = false →
       ∀ w', ∃ text', install_run w' role output_dir config o files' = (files', Install_exit text')).
Proof.
  intros Hrun. split_and!.
  - intros Hf p f Hp. rewrite <- Hp. apply (install_run_keeps _ _ _ _ _ _ _ _ _ Hrun); [by rewrite Hp, given_Some|by left].
  - intros f Hp Hc Hu. rewrite <- Hp. apply (install_run_keeps _ _ _ _ _ _ _ _ _ Hrun); [by rewrite Hp, given_Some|by right].
  - intros text -> Hdry Hf w'. destruct (install_run_complete _ _ _ _ _ _ _ _ Hdry Hrun) as (Hgc & Hgu & Hgt).
    unfold install_run in *. destruct (role_parse role) as [parsed|] eqn:Hr; [|done]. rewrite Hdry, Hf in *.
    rewrite place_all_present.
    2: { apply Forall_forall. intros x Hx. pose proof (role_files_paths w' _ _ output_dir config o Hr) as Hm.
         assert (x.1.1 ∈ [config; unit_path role output_dir]) as Hin by (rewrite <- Hm; by apply (list_elem_of_fmap_2 (λ x : string * string * N, x.1.1))).
         rewrite !elem_of_cons, elem_of_nil in Hin. destruct Hin as [->|[->|[]]]; done. }
    unfold place_credential. destruct (bool_decide (parsed = Role_Controller) && io_credential o) eqn:Hc; cbn [negb]; [|by eexists].
    apply andb_true_iff in Hc as [Hpar Hcred]. apply bool_decide_eq_true in Hpar as ->.
    rewrite Hgt; [|by unfold role_parse in Hr; repeat case_match; simplify_eq; apply String.eqb_eq|done].
    rewrite place_present; [by eexists| |done]. apply Hgt; [|done]. unfold role_parse in Hr. repeat case_match; simplify_eq. by apply String.eqb_eq.
Qed.

(** ** The credential *)

Definition is_hex (a : ascii) : bool := byte_in 48 57 a || byte_in 97 102 a.

Lemma hex_digit_is_hex n : (n < 16)%N → is_hex (hex_digit n) = true.
Proof.
  intros Hn. assert (forallb (λ m, is_hex (hex_digit (N.of_nat m))) (seq 0 16) = true) as Hall by (vm_compute; reflexivity).
  rewrite forallb_forall in Hall. rewrite <- (N2Nat.id n). apply Hall, in_seq. lia.
Qed.

Lemma hex_is_graphic a : is_hex a = true → graphic a = true.
Proof. destruct a as [[] [] [] [] [] [] [] []]; vm_compute; done. Qed.

Lemma hex_bytes_spec l : Forall (λ b, (b < 256)%N) l →
  all_bytes graphic (str_join "" (map hex_byte l)) = true ∧ String.length (str_join "" (map hex_byte l)) = (2 * length l)%nat.
Proof.
  induction 1 as [|b l Hb Hl [IHg IHl]]; [done|].
  assert (graphic (hex_digit (b / 16)) = true) as H1 by (apply hex_is_graphic, hex_digit_is_hex, N.Div0.div_lt_upper_bound; lia).
  assert (graphic (hex_digit (b mod 16)) = true) as H2 by (apply hex_is_graphic, hex_digit_is_hex, N.mod_lt; lia).
  assert (str_join "" (hex_byte b :: map hex_byte l) = String (hex_digit (b / 16)) (String (hex_digit (b mod 16)) (str_join "" (map hex_byte l)))) as Hj
    by (by destruct l).
  cbn [map]. rewrite Hj. cbn [all_bytes String.length length]. rewrite H1, H2, IHg, IHl. split; [done|lia].
Qed.

(** A line of graphic characters is read back without its end. *)
Lemma trim_line s : all_bytes graphic s = true → trim (s +:+ newline) = s.
Proof.
  assert (∀ s, all_bytes graphic s = true → trim_end (s +:+ newline) = s) as Hend.
  { clear s. induction s as [|a s IH]; intros Hg; [reflexivity|]. cbn [all_bytes] in Hg. apply andb_true_iff in Hg as [Ha Hg].
    change (String a s +:+ newline) with (String a (s +:+ newline)). cbn [trim_end].
    rewrite trim_start_graphic by done. cbn [is_empty String.eqb]. by rewrite IH. }
  destruct s as [|a s]; [reflexivity|]. intros Hg. unfold trim. pose proof Hg as Hg'. cbn [all_bytes] in Hg. apply andb_true_iff in Hg as [Ha _].
  change (String a s +:+ newline) with (String a (s +:+ newline)). rewrite trim_start_graphic by done. by apply (Hend (String a s)).
Qed.

(** The unit names the file the credential is in. *)
Lemma unit_names_the_token role binary config :
  contains ("Environment=SENTINEL_TOKEN_FILE=" +:+ token_path config) (unit_contents role binary config) = true.
Proof.
  assert (∀ description exec_start writable token,
    contains ("Environment=SENTINEL_TOKEN_FILE=" +:+ token) (unit_text description exec_start writable token) = true) as Hunit.
  { intros description exec_start writable token. unfold unit_text.
    match goal with |- contains _ (?a +:+ description +:+ ?b +:+ exec_start +:+ ?c +:+ token +:+ ?d) = true =>
      let n := eval vm_compute in (String.length c - String.length "Environment=SENTINEL_TOKEN_FILE=")%nat in
      let c1 := eval vm_compute in (String.substring 0 n c) in
      replace c with (c1 +:+ "Environment=SENTINEL_TOKEN_FILE=") by (vm_compute; reflexivity)
    end.
    do 4 apply contains_app_r. rewrite <- !string_app_assoc. apply contains_app_r.
    rewrite (string_app_assoc "Environment=SENTINEL_TOKEN_FILE="). apply (contains_app _ ""). }
  destruct role; apply Hunit.
Qed.

Lemma place_all_placed w force l files files' xs path contents mode :
  NoDup (map (λ x : string * string * N, x.1.1) l) → place_all w force false l files = (files', Some xs) →
  (path, contents, mode) ∈ l → files !! path = None → ∃ owner, files' !! path = Some (mk_host_file contents (Some mode) owner).
Proof.
  revert files xs. induction l as [|[[path0 contents0] mode0] l IH]; intros files xs Hnd; cbn [place_all]; [by intros _ ?%elem_of_nil|].
  cbn in Hnd. apply NoDup_cons in Hnd as [Hnot Hnd].
  destruct (place w path0 contents0 mode0 force false files) as [files1 [x|]] eqn:Hp; [|done].
  destruct (place_all w force false l files1) as [files2 [xs'|]] eqn:Hl; [|done]. intros [= <- <-] Hin Hnone.
  apply elem_of_cons in Hin as [[= -> -> ->]|Hin].
  - apply place_placed in Hp as (_ & _ & Hput). destruct (Hput Hnone) as [owner Ho]. exists owner. rewrite <- Ho.
    pose proof (place_all_other w force false l files1 path0 Hnot) as Hk. by rewrite Hl in Hk.
  - apply (IH files1 xs' Hnd Hl Hin). pose proof (place_other w path0 contents0 mode0 force false files path) as Ho. rewrite Hp in Ho.
    cbn [fst] in Ho. rewrite Ho; [done|]. intros ->. apply Hnot. by apply (list_elem_of_fmap_2 (λ x : string * string * N, x.1.1) l (path, contents, mode)).
Qed.

(** An installed controller can start: when [install] succeeds on a host that
    has none of its files, the unit it wrote names a credential file only its
    owner reads, and what the daemon loads from that file is a credential of 64
    characters, which is a strong one. *)
Theorem a_fresh_controller_can_start w output_dir config o files files' text bytes :
  install_run w "controller" output_dir config o files = (files', Install_exit text) → io_dry_run o = false → io_credential o = true →
  NoDup [config; unit_path "controller" output_dir; token_path config] →
  files !! unit_path "controller" output_dir = None → files !! token_path config = None →
  iw_urandom w = Some bytes → (32 ≤ length bytes)%nat → Forall (λ b, (b < 256)%N) bytes →
  (∃ unit_, files' !! unit_path "controller" output_dir = Some unit_
     ∧ contains ("Environment=SENTINEL_TOKEN_FILE=" +:+ token_path config) (file_contents unit_) = true)
  ∧ (∃ f, files' !! token_path config = Some f ∧ file_mode f = Some 256%N)
  ∧ ∃ token, load_credential (Some (token_path config)) None (λ p, file_contents <$> files' !! p) = Some token
      ∧ is_strong token = true ∧ String.length token = 64%nat.
Proof.
  intros Hrun Hdry Hcred Hnd Hunit Htoken Hur Hlen Hbytes. apply NoDup_cons in Hnd as [Hc Hnd]. apply NoDup_cons in Hnd as [Hu _].
  unfold install_run in Hrun. change (role_parse "controller") with (Some Role_Controller) in Hrun. rewrite Hdry in Hrun.
  destruct (place_all w (io_force o) false _ files) as [files1 [written|]] eqn:Hpa; [|done].
  pose proof (role_files_paths w Role_Controller "controller" output_dir config o eq_refl) as Hpaths.
  pose proof (place_all_other w (io_force o) false (role_files w Role_Controller output_dir config o) files (token_path config)) as Ht1.
  rewrite Hpa, Hpaths in Ht1. cbn [fst] in Ht1. rewrite Htoken in Ht1. specialize (Ht1 ltac:(set_solver)).
  destruct (place_all_placed _ _ _ _ _ _ (unit_path "controller" output_dir) (unit_contents Role_Controller (install_binary w o) config) 420
              ltac:(rewrite Hpaths; apply NoDup_cons; split; [set_solver|apply NoDup_singleton]) Hpa ltac:(right; by left) Hunit) as [owner Hun].
  unfold place_credential in Hrun. rewrite Hcred, Ht1, Hdry, Hur in Hrun. cbn [bool_decide negb andb] in Hrun.
  change (given (@None HostFile)) with false in Hrun. rewrite bool_decide_eq_true_2 in Hrun by done. cbn [negb andb generate_credential mbind option_bind] in Hrun.
  set (token := str_join "" (map hex_byte (take 32 bytes))) in *.
  destruct (place w (token_path config) (token +:+ newline) 256 false false files1) as [files2 [x|]] eqn:Hp; [|done]. injection Hrun as <- _.
  pose proof (place_other w (token_path config) (token +:+ newline) 256 false false files1 (unit_path "controller" output_dir) ltac:(set_solver)) as Hk.
  rewrite Hp in Hk. cbn [fst] in Hk. apply place_placed in Hp as (_ & _ & Hput). destruct (Hput Ht1) as [towner Hto].
  destruct (hex_bytes_spec (take 32 bytes)) as [Hg Hl]; [by apply Forall_take|].
  rewrite length_take, Nat.min_l in Hl by done. fold token in Hg, Hl. split_and!.
  - rewrite Hk, Hun. eexists. split; [done|]. apply (unit_names_the_token Role_Controller).
  - rewrite Hto. by eexists.
  - exists token. unfold load_credential. rewrite Hto. cbn [fmap option_fmap option_map file_contents].
    unfold credential_from_text. rewrite trim_line by done. split_and!; [done| |done]. unfold is_strong. by rewrite Hl.
Qed.

(** ** What is printed and what is looked for *)

(** No address of a webhook is ever shown, and nothing else is hidden. *)
Lemma redacted_shows_no_address c :
  (∀ h, h ∈ nc_webhooks (config_notification (redacted c)) → hook_url h = "" ∨ hook_url h = REDACTED)
  ∧ map hook_name (nc_webhooks (config_notification (redacted c))) = map hook_name (nc_webhooks (config_notification c))
  ∧ (nc_webhooks (config_notification c) = [] → redacted c = c).
Proof.
  split_and!.
  - intros h (h0 & -> & _)%list_elem_of_fmap. cbn. destruct (String.eqb _ _); [by left|by right].
  - cbn. rewrite map_map. by apply map_ext.
  - destruct c as [? ? ? ? ? ? ? ? ? ? [hooks ? ?]]. cbn. by intros ->.
Qed.

(** [doctor] asks the other variable first: with a credential in [SENTINEL_TOKEN]
    and a file nobody can read in [SENTINEL_TOKEN_FILE] it says that all is well,
    and the daemon does not start. *)
Lemma doctor_and_daemon_differ token path config stat :
  (credential_status_from (Some token) (Some path) config stat).1 = true ∧ load_credential (Some path) (Some token) (λ _, None) = None.
Proof. by split. Qed.

(** Where only one of the variables is set they agree, as far as what can be
    asked about can be read. *)
Lemma doctor_and_daemon_agree env_token env_file config stat (read : string → option string) :
  env_token = None ∨ env_file = None → is_Some env_token ∨ is_Some env_file →
  (∀ p, stat p = Stat_found ↔ is_Some (read p)) →
  (credential_status_from env_token env_file config stat).1 = true ↔ is_Some (load_credential env_file env_token read).
Proof.
  intros [->| ->] Hone Hread.
  - destruct env_file as [path|]; [|by destruct Hone as [[? ?]|[? ?]]]. cbn [credential_status_from load_credential]. rewrite fmap_is_Some, <- (Hread path).
    destruct (stat path); cbn; split; congruence.
  - destruct env_token as [token|]; [|by destruct Hone as [[? ?]|[? ?]]]. cbn. split; [by eexists|done].
Qed.

(** ** What the generated file sets *)

(** The lines that are neither empty nor a comment. *)
Definition live_lines (text : string) : list string :=
  filter (λ l, negb (is_empty (trim l)) && negb (starts_with "#" (trim_start l)) = true) (lines text).

(** A generated file sets what it says it sets: the lines of it that are not
    comments are the version, the environment to be named, and for a controller
    every setting of its sections at the default the program has (but whether
    Slurm was found), for an agent the address of the controller to be named and
    its defaults; no probe, TLS setting, destination, entity or override is live. *)
Theorem the_file_to_edit (humantime_show : StdDuration → string) (d : Detected) :
  let period := show_period humantime_show in
  let r := retention_default in
  live_lines (config_file_for humantime_show Role_Controller d) =
    ["config_version = " +:+ show_N CONFIG_VERSION; "environment = " +:+ quoted (PLACEHOLDER +:+ "-environment");
     "[controller]"; "listen = " +:+ quoted (cc_listen controller_default);
     "inventory_interval = " +:+ quoted (format_whole humantime_show (cc_inventory_interval controller_default));
     "diagnosis_interval = " +:+ quoted (format_whole humantime_show (cc_diagnosis_interval controller_default));
     "observe = " +:+ show_bool (cc_observe controller_default);
     "[database]"; "path = " +:+ quoted (config_database_path config_default);
     "[peer_monitoring]"; "degree = " +:+ show_N (config_peer_degree config_default);
     "[discovery.slurm]"; "enabled = " +:+ show_bool (detected_slurm d);
     "[retention]"; "enabled = " +:+ show_bool (ret_enabled r); "interval = " +:+ quoted (format_whole humantime_show (ret_interval r));
     "observations = " +:+ quoted (period (ret_observations r)); "keep_per_entity = " +:+ show_N (ret_keep_per_entity r);
     "transitions = " +:+ quoted (period (ret_transitions r)); "resolved_incidents = " +:+ quoted (period (ret_incidents r));
     "diagnoses = " +:+ quoted (period (ret_diagnoses r))]
  ∧ live_lines (config_file_for humantime_show Role_Agent d) =
    ["config_version = " +:+ show_N CONFIG_VERSION; "environment = " +:+ quoted (PLACEHOLDER +:+ "-environment");
     "[agent]"; "controller_address = " +:+ quoted (PLACEHOLDER +:+ "-controller-host:7443");
     "spool_path = " +:+ quoted (DEFAULT_STATE_DIR +:+ "/spool.db"); "listen = " +:+ quoted (ac_listen agent_default); "roles = []"].
Proof. destruct d as [[]]; split; vm_compute; reflexivity. Qed.

(** ** Samples *)

Definition clean_host : InstallWorld :=
  mk_install_world (λ _, true) (λ _, Write_done) (λ _, true) (λ _, true)
    (Some ("root:x:0:0:root:/root:/bin/sh" +:+ newline +:+ "sentinel:x:998:997::/nonexistent:/usr/sbin/nologin" +:+ newline))
    (Some (map N.of_nat (seq 100 40))) (λ _, None) (Some DEFAULT_BINARY_PATH) (λ _, "").

Definition plain_options : InstallOptions := mk_install_options None false false true.

Definition first_install : HostFiles * InstallEnd :=
  install_run clean_host "controller" "/etc/systemd/system" DEFAULT_CONFIG_PATH plain_options ∅.

Lemma first_install_succeeds : ∃ files text, first_install = (files, Install_exit text).
Proof.
  destruct first_install as [files [text|]] eqn:H1; [by exists files, text|].
  assert (match first_install.2 with Install_exit _ => true | Install_error => false end = true) as Hb by (vm_compute; reflexivity).
  rewrite H1 in Hb. discriminate Hb.
Qed.

Lemma installing_again_is_safe_witness :
  ∃ files text, first_install = (files, Install_exit text)
    ∧ ∃ text', install_run clean_host "controller" "/etc/systemd/system" DEFAULT_CONFIG_PATH plain_options files = (files, Install_exit text').
Proof.
  destruct first_install_succeeds as (files & text & H1). exists files, text. split; [exact H1|].
  destruct (installing_again_is_safe clean_host "controller" "/etc/systemd/system" DEFAULT_CONFIG_PATH plain_options ∅ files (Install_exit text) H1)
    as (_ & _ & Hagain). exact (Hagain text eq_refl eq_refl eq_refl clean_host).
Defined.

Lemma a_fresh_controller_can_start_witness :
  ∃ token, is_strong token = true ∧ String.length token = 64%nat.
Proof.
  destruct first_install_succeeds as (files & text & H1).
  assert (NoDup [DEFAULT_CONFIG_PATH; unit_path "controller" "/etc/systemd/system"; token_path DEFAULT_CONFIG_PATH]) as Hnd.
  { assert (bool_decide (NoDup [DEFAULT_CONFIG_PATH; unit_path "controller" "/etc/systemd/system"; token_path DEFAULT_CONFIG_PATH]) = true) as Hb
      by (vm_compute; reflexivity). by apply bool_decide_eq_true in Hb. }
  assert (Forall (λ b, (b < 256)%N) (map N.of_nat (seq 100 40))) as Hbytes.
  { apply Forall_forall. intros b (n & -> & Hn)%list_elem_of_fmap. apply list_elem_of_In, in_seq in Hn. lia. }
  destruct (a_fresh_controller_can_start clean_host "/etc/systemd/system" DEFAULT_CONFIG_PATH plain_options ∅ files text (map N.of_nat (seq 100 40))
              H1 eq_refl eq_refl Hnd (lookup_empty _) (lookup_empty _) eq_refl ltac:(rewrite length_map, length_seq; lia) Hbytes)
    as (_ & _ & token & _ & Hs & Hl). by exists token.
Defined.

Example paths_are_read :
  map path_parent ["/etc/sentinel/config.toml"; "config.toml"; "/config.toml"; "/"; "a//b/./c/"; "./x"; ""] =
    [Some "/etc/sentinel"; Some ""; Some "/"; None; Some "a//b"; Some "."; None]
  ∧ map token_path ["/etc/sentinel/config.toml"; "config.toml"; "/config.toml"; "/"] =
    ["/etc/sentinel/token"; "token"; "/token"; "token"].
Proof. by split. Qed.

(** The unit of an agent reads the credential beside its configuration, and the
    steps that are printed put it where the default configuration is. *)
Example an_agent_is_sent_elsewhere :
  match install_run clean_host "agent" "/etc/systemd/system" "/opt/lab/config.toml" plain_options ∅ with
  | (files, Install_exit text) =>
      match files !! "/etc/systemd/system/sentinel-agent.service" with
      | Some unit_ => contains "SENTINEL_TOKEN_FILE=/opt/lab/token" (file_contents unit_)
      | None => false
      end && contains "sudo install -o sentinel -g sentinel -m 0400 token /etc/sentinel/token" text
      && negb (contains "/opt/lab/token" text)
  | _ => false
  end = true.
Proof. vm_compute. reflexivity. Qed.
